(* ===== verification/_CoqProject ===== *)
-Q . S2P
Prelude.v
Progress.v
Ipc.v
Storage.v
Op.v
Utils.v
Base64.v
CassSchema.v
CassModel.v
Topological.v
ChText.v
ChParts.v
PyText.v
ChManifest.v
Gather.v
Etcd.v
ZooKeeper.v
Flink.v
Steps.v
NodeMapping.v
UploadPlan.v
NodeLock.v
Cluster.v
ClusterLock.v
Relock.v
Datetime.v
Cleanup.v
BackupRestore.v
FileSystem.v
NodeSnapshot.v
NodeTransfer.v
RoundTrip.v
ListBackups.v
NodeApi.v
Coordinator.v
CassNode.v
CassPlugin.v
Regex.v
ChObjects.v
ChDisks.v
ChClient.v
ChReplication.v
ChSync.v
ChSteps.v
ChAccess.v
ZooKeeperConfig.v
StepFacts.v
ChPlugin.v
M3Placement.v
M3Plugin.v
FlinkPlugin.v
Rohmu.v
Kazoo.v
Client.v
ClientList.v
CassMeta.v
Config.v
MultiStorage.v
ChLocks.v
Chown.v
FileMode.v
Statsd.v
SubResult.v
CassClient.v
