(* ===== verification/Prelude.v ===== *)
(** * Astacus: cluster backup and restore

    A verification development for the Python program under [src/astacus].
    Astacus backs up a cluster of database nodes to object storage and
    restores it.  A coordinator ([coordinator/]) takes a lock on every node,
    runs the steps of a plugin (files, ClickHouse, Cassandra, M3, Flink),
    which make the nodes ([node/]) take snapshots, upload files named by the
    digest of their contents, and download them again, and keeps in a JSON
    storage a manifest per backup ([common/]).

    ** Conventions

    A Python procedure over a mutable state [W] is [M W A = W -> W * res A]:
    it returns the new state and either a value or an exception ([exn]), and
    what it mutated stays mutated when it raises.  Integers of Python are [Z]
    (sizes, times in nanoseconds, counters) or [nat] (indexes, lengths);
    dictionaries are [gmap]s, or association lists ([dict_get], [dict_alter])
    where insertion order matters; sets are [gset]s, iterated in an arbitrary
    order given by a parameter.  Names of definitions are those of the code.
    Loops without a structural bound take fuel and raise [OutOfFuel], and the
    theorems show how much fuel is enough.  Third-party code is a parameter
    with its documented laws: [msgspec] ([ManifestCodec]), the digest function,
    [fnmatch], HTTP requests ([ClusterEnv]), [time.time] as a clock.

    ** Files

    - [Prelude]: exceptions, the monad, loops, [sorted] and dictionaries.
    - [Progress], [Ipc]: [common/progress.py], [common/ipc.py],
      [common/snapshot.py].  Finished progress is merged soundly, a long loop
      is logged a hundred times; requests built for nodes of different versions
      mean the same groups.
    - [Storage]: [common/storage.py], [common/cachingjsonstorage.py].  The
      class [StorageSpec] is the interface that clients rely on; file storage,
      the caching storage and the cache-clearing storage implement it, and the
      caching storage cannot be told from its backend.
    - [CassSchema], [CassModel]: [common/cassandra/schema.py] and the manifest
      of the Cassandra plugin: user types are created after the types they
      refer to, a schema that was restored is there, the nodes of a manifest
      are the hosts of the ring with all its tokens.
    - [Op]: [common/op.py].  The life cycle of background operations, the
      exceptions their wrappers let pass, any interleaving of operations, and the
      starts that raise.
    - [Utils]: [common/utils.py]: back-off schedule, FIFO cache, size-limited
      file, atomic replacement of files, bounded parallel map.
    - [Base64]: the [base64] module of the standard library.
    - [Steps]: the framework of [coordinator/coordinator.py] and
      [plugins/base.py]: contexts, attempts, shutdown.  An operation ends well
      exactly when some attempt completes all its steps.
    - [NodeMapping], [UploadPlan]: which node restores which backed up node,
      and which node uploads which file ([plugins/base.py]).
    - [NodeLock], [Cluster], [ClusterLock]: [node/state.py] and the lock
      endpoints of [node/api.py]; [coordinator/cluster.py] and
      [coordinator/lockops.py]; their composition: a cluster lock excludes
      every other locker whatever messages are lost.
    - [Relock]: the loop of [coordinator/coordinator.py] that keeps the lock of
      a node, over a link that loses and delays messages, in microseconds.  As
      long as it does not cancel the operation the node is locked for it.
    - [Datetime]: the names of backups sort as their times.
    - [Cleanup]: the retention rule and the cleanup steps: exactly the
      backups that the rule drops and the files no kept backup references are
      deleted.
    - [BackupRestore]: the other steps of [plugins/base.py]; a backup that
      succeeds has a manifest whose files are all stored.
    - [FileSystem], [NodeSnapshot], [NodeTransfer]: [node/snapshotter.py],
      [node/sqlite_snapshot.py], [node/uploader.py], [node/download.py] on a
      file system with directories, inodes and hard links, and its errors;
      incremental snapshots are faithful, as long as no path turns from a file
      into a directory or back.  [RoundTrip] composes them: what a node backs up is what
      another node restores.  [Chown], [FileMode]: the owner and the mode of
      restored files: exactly the files and directories that the restoration
      made change hands, and what the umask forbids stays forbidden.
    - [Topological], [PyText], [Regex], [ChText], [ChParts], [ChManifest],
      [ChObjects]: the pure parts of the ClickHouse plugin: [dependencies.py]
      on [graphlib], the string methods and patterns of Python that it uses,
      [escaping.py], the quoting of [client.py], [macros.py], [disks.py],
      [parts.py], [manifest.py], [file_metadata.py].
    - [ChDisks]: the steps that collect, copy and delete objects of remote
      disks.  No object that a kept backup needs is deleted, as long as no two
      disks are on one storage.
    - [Gather]: [common/limiter.py] and [asyncio.gather] under any scheduler; when
      a coroutine raises the others go on.
    - [ChClient], [ChReplication], [ChSync]: [client.py] over HTTP,
      [replication.py]: waiting for replicas misses no change.
    - [ChSteps], [ChAccess]: what the steps of ClickHouse ask of the servers and
      of ZooKeeper.  [ChPlugin]: the steps and their lists: a backup that
      completes froze what it took snapshots of, and its manifest reads back.
    - [ListBackups]: [coordinator/list.py] and the list endpoint of
      [coordinator/api.py] with its cache and its concurrency.
    - [NodeApi]: [node/node.py] and the endpoints of [node/api.py].  Endpoints
      run one after the other, as the code relies on.  What an endpoint
      starts, refuses, and whom a lease protects.
    - [Coordinator]: how [coordinator/api.py] and [coordinator/coordinator.py]
      build, lock, start and run operations; a lock is always released.
    - [SubResult]: the reports of nodes and the sleeper of
      [common/utils.py] they wake: no report is lost.
    - [CassNode], [CassPlugin]: [node/cassandra.py] on a tree of files, and the
      steps of [plugins/cassandra].  Restoring loses no file and leaves
      exactly the snapshots in the tables; tokens are neither lost nor given
      twice; the schema is the same before and after a backup.
    - [ZooKeeper], [Flink]: the in-memory client of [plugins/zookeeper.py]
      with watches and transactions, and the Flink plugin that reads and
      writes trees of nodes while others may change them.  [ZooKeeperConfig]:
      [zookeeper_config.py].  [Kazoo]: the client on the library kazoo, which
      answers like the in-memory one as long as its connection does.  [FlinkPlugin]: the steps of the Flink plugin and
      their lists: what a backup stores was in ZooKeeper at one moment, but for
      paths that vanish while they are read.
    - [StepFacts]: lemmas on lists of steps that all plugins use.
    - [Etcd], [M3Placement], [M3Plugin]: [common/etcd.py], [plugins/etcd.py],
      [common/m3placement.py], [plugins/m3db.py].  A dump of etcd is restored
      exactly; a backup stores the data that etcd held before and after the
      snapshot; a restore rewrites the placement for the nodes of the cluster.
    - [Rohmu]: [common/rohmustorage.py] over any transfer of rohmu that stores
      objects: it implements [StorageSpec], so that compression and encryption
      cannot be told from plain files.  [MultiStorage]: storages per name and
      per thread, downloads to files.  [ChLocks]: copies between object storages
      under their locks do not deadlock.
    - [CassMeta]: reading the schema from the driver of Cassandra; the result
      does not depend on the order in which it lists objects.  [CassClient]:
      [common/cassandra/client.py]: connections are closed, and their errors
      translated.
    - [Client], [ClientList]: [client.py]: what the commands send, how they wait
      and what they report; the tables of the list command.
    - [Config]: [config.py] and the classes of configuration: reloading is all
      or nothing.  [Statsd]: [common/statsd.py]: packets read back, and timing
      a block leaves its outcome alone.

    ** Bounds and fuel

    [poll_loop] (Cluster) is given the number of attempts the back-off allows,
    which is computed from the configuration; [get_data_recursively] (Flink)
    the depth of the tree; [expand_from] (ChText) the ten levels of the code;
    [static_order_from] (Topological) the number of nodes; [order_loop]
    (CassSchema) the number of types; [up_loop] (CassPlugin) the passes that the
    timeout allows.  [wait_for] (ChSync) makes as many rounds as notifications
    reach it before the time is up.  The scheduler of concurrent coroutines is a
    parameter [pick], about which nothing is assumed.  [backoff_for] (Client) needs
    one more pass than the logarithm of the waiting time allows ([attempts]).

    ** Not modelled

    HTTP, SQLite itself, msgspec, YAML, pydantic, protocol buffers, kazoo, the
    transfers, streams and file formats of rohmu, and the driver of Cassandra are
    third-party code: parameters with their documented laws.  Starting the server
    ([server.py], [main.py]), dependency injection and log messages are glue
    that decides nothing. *)

From stdpp Require Import base gmap strings list sorting.
From Stdlib Require Import ZArith Lia Sorted Permutation.

Declare Scope astacus_scope.
Delimit Scope astacus_scope with astacus.
Open Scope astacus_scope.

(** ** Exceptions

    The exceptions of [plugins/zookeeper.py] about a node. *)
Inductive zk_error : Type := NoNode | NodeExists | NotEmpty | RolledBack | RuntimeInconsistency.
#[global] Instance zk_error_eq_dec : EqDecision zk_error.
Proof. solve_decision. Defined.

(** One constructor per exception class that the modelled code raises or
    catches; [is_permanent] and [is_transient] are the two branches of
    the hierarchy of [common/exceptions.py]. *)
Inductive exn : Type :=
| ExpiredOperationException
| InsufficientNodesException
| InsufficientAZsException
| NotFoundException
| MissingSnapshotResultsException
| CompressionOrEncryptionRequired
| RohmuException
| StepFailedError
| TransientException
| NoHostAvailableException
(** [NoNodeError], [NodeExistsError], ... of [plugins/zookeeper.py], and
    [TransactionError] with the result of each operation. *)
| ZooKeeperError (e : zk_error)
| TransactionError (results : list (option zk_error))
| WaitResultError
| CancelledError
| HTTPException (status_code : Z)
| AssertionError
| IndexError
| KeyError
| ValueError
| TypeError
| AttributeError
| RuntimeError
| NotImplementedError
| OSError
| FileNotFoundError
| FileExistsError
| NotADirectoryError
| IsADirectoryError
| PermissionError
| SameFileError
| CalledProcessError
| CycleError
| MacroExpansionError
| InvalidFileMetadata
| FileNotFoundFromStorageError
| TimeoutError
| ClickHouseClientQueryError (exception_code : option Z)
| UnicodeDecodeError
| DecodeError
| M3IncorrectPlacementNodesLengthException
(** The exceptions of kazoo of the same names; the one of requests. *)
| KazooError (e : zk_error)
| KazooConnectionLoss
| RequestException
(** Not an exception of the program: a loop of the model ran out of fuel. *)
| OutOfFuel.

#[global] Instance exn_eq_dec : EqDecision exn.
Proof. solve_decision. Defined.

Definition is_permanent (e : exn) : bool :=
  match e with
  | ExpiredOperationException | InsufficientNodesException
  | InsufficientAZsException | NotFoundException
  | MissingSnapshotResultsException | CompressionOrEncryptionRequired
  | RohmuException | StepFailedError | M3IncorrectPlacementNodesLengthException => true
  | _ => false
  end.

Definition is_transient (e : exn) : bool :=
  match e with TransientException | NoHostAvailableException | ZooKeeperError _ | TransactionError _ => true | _ => false end.

(** [AstacusException] is the common base of the two branches. *)
Definition is_astacus (e : exn) : bool := is_permanent e || is_transient e.

(** ** Results and the state-and-exception monad *)
Inductive res (A : Type) : Type :=
| Ok (a : A)
| Raise (e : exn).
Arguments Ok {A} a.
Arguments Raise {A} e.

#[global] Instance res_eq_dec `{EqDecision A} : EqDecision (res A).
Proof. solve_decision. Defined.

#[global] Instance res_ret : MRet res := λ A a, Ok a.
#[global] Instance res_bind : MBind res := λ A B f r,
  match r with Ok a => f a | Raise e => Raise e end.

(** A Python procedure over the mutable state [W]: what it had already
    mutated stays mutated when it raises. *)
Definition M (W A : Type) : Type := W → W * res A.

#[global] Instance M_ret W : MRet (M W) := λ A a w, (w, Ok a).
#[global] Instance M_bind W : MBind (M W) := λ A B f m w,
  match m w with
  | (w', Ok a) => f a w'
  | (w', Raise e) => (w', Raise e)
  end.

Definition raise {W A} (e : exn) : M W A := λ w, (w, Raise e).
Definition get {W} : M W W := λ w, (w, Ok w).
Definition put {W} (w : W) : M W unit := λ _, (w, Ok tt).
Definition modify {W} (f : W → W) : M W unit := λ w, (f w, Ok tt).
Definition lift_res {W A} (r : res A) : M W A := λ w, (w, r).

(** [assert c] raises [AssertionError] when [c] is false. *)
Definition py_assert {W} (c : bool) : M W unit :=
  if c then mret tt else raise AssertionError.

(** [try m except e if catches e: h e] *)
Definition try_except {W A} (m : M W A) (catches : exn → bool) (h : exn → M W A) : M W A :=
  λ w, match m w with
       | (w', Raise e) => if catches e then h e w' else (w', Raise e)
       | r => r
       end.

(** [try: m finally: f], where [f] does not raise. *)
Definition try_finally {W A} (m : M W A) (f : W → W) : M W A :=
  λ w, let '(w', r) := m w in (f w', r).

Fixpoint for_each {W A} (l : list A) (f : A → M W unit) : M W unit :=
  match l with
  | [] => mret tt
  | x :: l' => f x ≫= λ _, for_each l' f
  end.

(** A list comprehension whose body can raise and mutate. *)
Fixpoint collect {W A B} (l : list A) (f : A → M W B) : M W (list B) :=
  match l with
  | [] => mret []
  | x :: l' => f x ≫= λ y, collect l' f ≫= λ ys, mret (y :: ys)
  end.

(** A loop that threads a pure accumulator and can raise. *)
Fixpoint fold_res {A S} (f : S → A → res S) (s : S) (l : list A) : res S :=
  match l with
  | [] => Ok s
  | x :: l' => f s x ≫= λ s', fold_res f s' l'
  end.

(** Run a procedure of a component on the part of the state it owns. *)
Definition zoom {W S A} (proj : W → S) (upd : S → W → W) (m : M S A) : M W A :=
  λ w, let '(s', r) := m (proj w) in (upd s' w, r).

Notation "'raises' m w e" := (snd (m w) = Raise e) (at level 10, m, w, e at level 9, only parsing) : astacus_scope.

Lemma bind_ok {W A B} (m : M W A) (f : A → M W B) w w' a :
  m w = (w', Ok a) → (m ≫= f) w = f a w'.
Proof. intros H. unfold mbind, M_bind. by rewrite H. Qed.

Lemma bind_raise {W A B} (m : M W A) (f : A → M W B) w w' e :
  m w = (w', Raise e) → (m ≫= f) w = (w', Raise e).
Proof. intros H. unfold mbind, M_bind. by rewrite H. Qed.

Lemma bind_inv_ok {W A B} (m : M W A) (f : A → M W B) w w' b :
  (m ≫= f) w = (w', Ok b) → ∃ w1 a, m w = (w1, Ok a) ∧ f a w1 = (w', Ok b).
Proof.
  unfold mbind, M_bind. destruct (m w) as [w1 [a|e]] eqn:E; [eauto|congruence].
Qed.

(** What each part of an action preserves, the action preserves: [R] relates a
    state to those the actions lead to. *)
Section preserving.
Context {E : Type} (R : E → E → Prop) `{!PreOrder R}.

Lemma R_bind {A B} (m : M E A) (f : A → M E B) e :
  R e (fst (m e)) → (∀ a e', R e' (fst (f a e'))) → R e (fst ((m ≫= f) e)).
Proof using PreOrder0.
  intros H1 H2. unfold mbind, M_bind. destruct (m e) as [e1 [a|x]]; simpl in *; [|done].
  etrans; [exact H1|apply H2].
Qed.

Lemma R_collect {A B} (l : list A) (f : A → M E B) e : (∀ a e, R e (fst (f a e))) → R e (fst (collect l f e)).
Proof using PreOrder0.
  intros Hf. revert e. induction l as [|x l IH]; intros e; [simpl; reflexivity|]. cbn [collect].
  apply R_bind; [apply Hf|]. intros y e1. apply R_bind; [apply IH|]. intros ys e2. simpl. reflexivity.
Qed.
End preserving.

(** A comprehension whose body succeeds without changing the state. *)
Lemma collect_pure {W A B} (R : A → B → Prop) (l : list A) (f : A → M W B) w :
  (∀ x, x ∈ l → ∃ y, f x w = (w, Ok y) ∧ R x y) → ∃ ys, collect l f w = (w, Ok ys) ∧ Forall2 R l ys.
Proof.
  induction l as [|x l IH]; intros Hf; [by eexists; split|].
  destruct (Hf x) as (y & Hy & HR); [by left|]. destruct IH as (ys & Hys & HF).
  { intros z Hz. apply Hf. by right. }
  exists (y :: ys). split; [|by constructor]. cbn [collect].
  erewrite bind_ok by exact Hy. by erewrite bind_ok by exact Hys.
Qed.

(** A comprehension whose body succeeds and keeps an invariant of the state. *)
Lemma collect_inv {W A B} (I : W → Prop) (R : A → B → Prop) (l : list A) (f : A → M W B) w :
  I w → (∀ x w, x ∈ l → I w → ∃ w' y, f x w = (w', Ok y) ∧ I w' ∧ R x y) →
  ∃ w' ys, collect l f w = (w', Ok ys) ∧ I w' ∧ Forall2 R l ys.
Proof.
  revert w. induction l as [|x l IH]; intros w Hw Hf; [exists w, []; by repeat split|].
  destruct (Hf x w) as (w1 & y & Hy & Hw1 & HR); [by left|done|]. destruct (IH w1 Hw1) as (w2 & ys & Hys & Hw2 & HF).
  { intros z w' Hz. apply Hf. by right. }
  exists w2, (y :: ys). split; [|split; [done|by constructor]]. cbn [collect].
  erewrite bind_ok by exact Hy. by erewrite bind_ok by exact Hys.
Qed.

(** Rule of iteration for [for_each], when no iteration raises. *)
Lemma for_each_ind {W A} (P : list A → W → Prop) (l : list A) (f : A → M W unit) w :
  P [] w →
  (∀ pre x post w, l = pre ++ x :: post → P pre w → ∃ w', f x w = (w', Ok tt) ∧ P (pre ++ [x]) w') →
  ∃ w', for_each l f w = (w', Ok tt) ∧ P l w'.
Proof.
  intros H0 Hstep. assert (∀ post pre w, l = pre ++ post → P pre w →
    ∃ w', for_each post f w = (w', Ok tt) ∧ P l w') as Hgen; [|by apply (Hgen l [])].
  clear w H0. induction post as [|x post IH]; intros pre w Hl HP.
  - rewrite app_nil_r in Hl. subst pre. by exists w.
  - destruct (Hstep pre x post w Hl HP) as (w1 & Hf & HP1).
    destruct (IH (pre ++ [x]) w1) as (w' & Hrun & HP'); [by rewrite <- app_assoc|done|].
    exists w'. split; [|done]. cbn [for_each]. by erewrite bind_ok by exact Hf.
Qed.

(** The same when an iteration can raise: [E] then holds of the exception
    and the state. *)
Lemma for_each_any {W A} (P : list A → W → Prop) (E : exn → W → Prop) (l : list A) (f : A → M W unit) w w' r :
  P [] w →
  (∀ pre x post w w' r, l = pre ++ x :: post → P pre w → f x w = (w', r) →
     match r with Ok _ => P (pre ++ [x]) w' | Raise e => E e w' end) →
  for_each l f w = (w', r) → match r with Ok _ => P l w' | Raise e => E e w' end.
Proof.
  intros H0 Hstep. assert (∀ post pre w, l = pre ++ post → P pre w → for_each post f w = (w', r) →
    match r with Ok _ => P l w' | Raise e => E e w' end) as Hgen; [|by apply (Hgen l [])].
  clear w H0. induction post as [|x post IH]; intros pre w Hl HP.
  - rewrite app_nil_r in Hl. subst pre. intros [= <- <-]. done.
  - cbn [for_each]. destruct (f x w) as [w1 [[]|e]] eqn:Ef; pose proof (Hstep pre x post w w1 _ Hl HP Ef) as Hx.
    + rewrite (bind_ok _ _ _ _ _ Ef). apply (IH (pre ++ [x])); [by rewrite <- app_assoc|done].
    + rewrite (bind_raise _ _ _ _ _ Ef). by intros [= <- <-].
Qed.

Lemma rbind_inv_ok {A B} (m : res A) (f : A → res B) b :
  (m ≫= f) = Ok b → ∃ a, m = Ok a ∧ f a = Ok b.
Proof. destruct m; simpl; [eauto|discriminate]. Qed.

(** Rule of iteration for [fold_res]: an invariant indexed by the
    elements already handled. *)
Lemma fold_res_ind {A S} (P : list A → S → Prop) (f : S → A → res S) l s s' :
  P [] s →
  (∀ pre x post s1 s2, l = pre ++ x :: post → P pre s1 → f s1 x = Ok s2 → P (pre ++ [x]) s2) →
  fold_res f s l = Ok s' → P l s'.
Proof.
  intros H0 Hstep. assert (∀ pre post s1, l = pre ++ post → P pre s1 →
    fold_res f s1 post = Ok s' → P l s') as Hgen.
  { intros pre post. revert pre. induction post as [|x post IH]; intros pre s1 -> HP Hf.
    - rewrite app_nil_r. simpl in Hf. by injection Hf as <-.
    - simpl in Hf. apply rbind_inv_ok in Hf as (s2 & H1 & H2).
      apply (IH (pre ++ [x]) s2); [by rewrite <- app_assoc| |done].
      by eapply Hstep. }
  intros Hf. by apply (Hgen [] l s).
Qed.

Lemma fold_res_ok {A S} (f : S → A → res S) l s :
  (∀ x s1, x ∈ l → ∃ s2, f s1 x = Ok s2) → ∃ s', fold_res f s l = Ok s'.
Proof.
  revert s. induction l as [|x l IH]; intros s Hf; simpl; [eauto|].
  destruct (Hf x s) as [s2 Hs2]; [by left|]. rewrite Hs2. simpl. apply IH.
  intros y s1 Hy. apply Hf. by right.
Qed.

Lemma fold_res_elem {A S} (f : S → A → res S) l s s' x :
  fold_res f s l = Ok s' → x ∈ l → ∃ s1 s2, f s1 x = Ok s2.
Proof.
  revert s. induction l as [|y l IH]; intros s Hf Hx; [by apply not_elem_of_nil in Hx|].
  simpl in Hf. apply rbind_inv_ok in Hf as (s2 & H1 & H2).
  apply elem_of_cons in Hx as [->|Hx]; eauto.
Qed.

Lemma fold_res_raise {A S} (f : S → A → res S) l s e :
  fold_res f s l = Raise e → ∃ x s1, x ∈ l ∧ f s1 x = Raise e.
Proof.
  revert s. induction l as [|y l IH]; intros s Hf; [done|]. simpl in Hf.
  destruct (f s y) as [s2|e'] eqn:E; simpl in Hf.
  - destruct (IH s2 Hf) as (x & s1 & Hx & H). exists x, s1. split; [by right|done].
  - injection Hf as ->. exists y, s. split; [by left|done].
Qed.

(** ** Lists *)
Lemma filter_nil_iff {A} (P : A → Prop) `{∀ x, Decision (P x)} (l : list A) :
  (∀ x, x ∈ l → ¬ P x) → filter P l = [].
Proof.
  induction l as [|x l IH]; intros Hl; [done|].
  rewrite filter_cons_False; [|apply Hl; by left]. apply IH. intros y Hy. apply Hl. by right.
Qed.

Lemma filter_all {A} (P : A → Prop) `{∀ x, Decision (P x)} (l : list A) :
  (∀ x, x ∈ l → P x) → filter P l = l.
Proof.
  induction l as [|x l IH]; intros Hl; [done|].
  rewrite filter_cons_True by (apply Hl; by left). f_equal. apply IH. intros y Hy. apply Hl. by right.
Qed.

Lemma filter_ext_in {A} (P Q : A → Prop) `{∀ x, Decision (P x)} `{∀ x, Decision (Q x)} (l : list A) :
  (∀ x, x ∈ l → P x ↔ Q x) → filter P l = filter Q l.
Proof.
  induction l as [|x l IH]; intros Hl; [done|].
  assert (filter P l = filter Q l) as IH' by (apply IH; intros y Hy; apply Hl; by right).
  specialize (Hl x (list_elem_of_here x l)). destruct (decide (P x)) as [HP|HP].
  - rewrite !filter_cons_True by tauto. by rewrite IH'.
  - by rewrite !filter_cons_False by tauto.
Qed.

Lemma filter_length_Permutation {A} (P : A → Prop) `{∀ x, Decision (P x)} (l k : list A) :
  l ≡ₚ k → length (filter P l) = length (filter P k).
Proof. intros Hp. by rewrite Hp. Qed.

Lemma filter_length_submseteq {A} (P : A → Prop) `{∀ x, Decision (P x)} (l k : list A) :
  l ⊆+ k → length (filter P l) ≤ length (filter P k).
Proof.
  intros [k' Hk]%submseteq_Permutation. rewrite Hk, filter_app, length_app. lia.
Qed.

Lemma StronglySorted_impl {A} (R1 R2 : A → A → Prop) l :
  (∀ x y, R1 x y → R2 x y) → StronglySorted R1 l → StronglySorted R2 l.
Proof.
  intros HR HS. induction HS as [|x l HS IH Hall]; constructor; [done|].
  eapply Forall_impl; [exact Hall|]. auto.
Qed.

Lemma StronglySorted_filter {A} (R : A → A → Prop) (P : A → Prop) `{∀ x, Decision (P x)} l :
  StronglySorted R l → StronglySorted R (filter P l).
Proof.
  induction 1 as [|x l HS IH Hall]; [constructor|]. rewrite filter_cons. case_decide; [|done].
  constructor; [done|]. rewrite Forall_forall in Hall |- *. intros y [_ Hy]%list_elem_of_filter. by apply Hall.
Qed.

Lemma StronglySorted_lookup {A} (R : A → A → Prop) l i j x y :
  StronglySorted R l → i < j → l !! i = Some x → l !! j = Some y → R x y.
Proof.
  intros HS. revert i j. induction HS as [|z l HS IH Hall]; intros i j Hij Hi Hj; [done|].
  destruct j as [|j]; [lia|]. destruct i as [|i]; simpl in *.
  - injection Hi as <-. rewrite Forall_forall in Hall. apply Hall. by eapply list_elem_of_lookup_2.
  - apply (IH i j); [lia|done|done].
Qed.

(** A list is a rearrangement of its classes under a key. *)
Lemma concat_filter_Permutation {A K} `{EqDecision K} (f : A → K) (keys : list K) (l : list A) :
  NoDup keys → Forall (λ x, f x ∈ keys) l →
  concat ((λ k, filter (λ x, f x = k) l) <$> keys) ≡ₚ l.
Proof.
  intros Hnd. revert l. induction Hnd as [|k keys Hk Hnd IH]; intros l Hall.
  { destruct l as [|x l]; [done|]. apply Forall_cons in Hall as [?%not_elem_of_nil _]. done. }
  csimpl. assert (concat ((λ k', filter (λ x, f x = k') l) <$> keys)
    = concat ((λ k', filter (λ x, f x = k') (filter (λ x, f x ≠ k) l)) <$> keys)) as ->.
  { f_equal. apply list_fmap_ext. intros i k' Hk'. rewrite list_filter_filter.
    apply list_filter_iff. intros x. split; [|tauto]. intros <-. split; [done|].
    intros Hx. apply Hk. rewrite <- Hx. by eapply list_elem_of_lookup_2. }
  rewrite IH.
  - apply filter_app_complement.
  - rewrite Forall_forall in Hall |- *. intros x [Hx Hin]%list_elem_of_filter.
    specialize (Hall x Hin). set_solver.
Qed.

Lemma sum_classes_cons {A} `{EqDecision A} (k : A) (keys l : list A) :
  k ∉ keys →
  sum_list ((λ k, length (filter (λ x, x = k) l)) <$> k :: keys) =
  length (filter (λ x, x = k) l) +
  sum_list ((λ k', length (filter (λ x, x = k') (filter (λ x, x ≠ k) l))) <$> keys).
Proof.
  intros Hk. csimpl. f_equal. f_equal. apply list_fmap_ext. intros i k' Hk'.
  rewrite list_filter_filter. f_equal. apply list_filter_iff. intros x. split; [|tauto].
  intros ->. split; [done|]. intros ->. apply Hk. by eapply list_elem_of_lookup_2.
Qed.

Lemma filter_length_complement {A} `{EqDecision A} (k : A) (l : list A) :
  length (filter (λ x, x = k) l) + length (filter (λ x, x ≠ k) l) = length l.
Proof.
  rewrite <- length_app. apply Permutation_length, filter_app_complement.
Qed.

Lemma sum_classes_le {A} `{EqDecision A} (keys l : list A) :
  NoDup keys → sum_list ((λ k, length (filter (λ x, x = k) l)) <$> keys) ≤ length l.
Proof.
  intros Hnd. revert l. induction Hnd as [|k keys Hk Hnd IH]; intros l; [simpl; lia|].
  rewrite sum_classes_cons by done. specialize (IH (filter (λ x, x ≠ k) l)).
  pose proof (filter_length_complement k l). lia.
Qed.

Lemma sum_classes_eq {A} `{EqDecision A} (keys l : list A) :
  NoDup keys → Forall (λ x, x ∈ keys) l →
  sum_list ((λ k, length (filter (λ x, x = k) l)) <$> keys) = length l.
Proof.
  intros Hnd. revert l. induction Hnd as [|k keys Hk Hnd IH]; intros l Hall.
  { destruct l as [|x l]; [done|]. apply Forall_cons in Hall as [?%not_elem_of_nil _]. done. }
  rewrite sum_classes_cons by done. rewrite IH; [apply filter_length_complement|].
  rewrite Forall_forall in Hall |- *. intros x [Hx Hin]%list_elem_of_filter.
  specialize (Hall x Hin). set_solver.
Qed.

Lemma sum_list_le {A} (f g : A → nat) (l : list A) :
  Forall (λ x, f x ≤ g x) l → sum_list (f <$> l) ≤ sum_list (g <$> l).
Proof. induction 1; csimpl; lia. Qed.

(** ** Sorting: Python's [sorted] is a stable sort *)
Section py_sorted.
Context {A : Type} (leb : A → A → bool).

Fixpoint py_insert (x : A) (l : list A) : list A :=
  match l with
  | [] => [x]
  | y :: l' => if leb x y then x :: y :: l' else y :: py_insert x l'
  end.

Definition py_sorted (l : list A) : list A := foldr py_insert [] l.

Lemma py_insert_Permutation x l : py_insert x l ≡ₚ x :: l.
Proof.
  induction l as [|y l IH]; simpl; [done|].
  destruct (leb x y); [done|]. rewrite IH. apply Permutation_swap.
Qed.

Lemma py_sorted_Permutation l : py_sorted l ≡ₚ l.
Proof.
  induction l as [|x l IH]; simpl; [done|].
  by rewrite py_insert_Permutation, IH.
Qed.

Lemma py_sorted_length l : length (py_sorted l) = length l.
Proof. apply Permutation_length, py_sorted_Permutation. Qed.

Lemma elem_of_py_sorted x l : x ∈ py_sorted l ↔ x ∈ l.
Proof. by rewrite py_sorted_Permutation. Qed.

Context (leb_total : ∀ x y, leb x y = true ∨ leb y x = true).
Context (leb_trans : ∀ x y z, leb x y = true → leb y z = true → leb x z = true).

Let R x y := leb x y = true.

Lemma py_insert_StronglySorted x l :
  StronglySorted R l → StronglySorted R (py_insert x l).
Proof.
  intros HS. induction HS as [|y l HS IH Hall]; simpl.
  { repeat constructor. }
  destruct (leb x y) eqn:E.
  - constructor; [by constructor|]. constructor; [done|].
    eapply Forall_impl; [exact Hall|]. intros z Hz. unfold R in *. eauto.
  - constructor; [done|]. rewrite py_insert_Permutation. constructor; [|done].
    unfold R. destruct (leb_total x y); [congruence|done].
Qed.

Lemma py_sorted_StronglySorted l : StronglySorted R (py_sorted l).
Proof.
  induction l as [|x l IH]; simpl; [constructor|]. by apply py_insert_StronglySorted.
Qed.

(** The order being antisymmetric, only the elements matter. *)
Lemma py_sorted_eq l k :
  (∀ x y, leb x y = true → leb y x = true → x = y) → l ≡ₚ k → py_sorted l = py_sorted k.
Proof.
  intros Hanti Hp. apply (StronglySorted_unique_strong R); [|apply py_sorted_StronglySorted..|by rewrite !py_sorted_Permutation].
  intros x y _ _. apply Hanti.
Qed.
End py_sorted.

(** Order of [str] values, as used by [sorted]. *)
Definition str_leb (a b : string) : bool := String.leb a b.

Lemma str_leb_total a b : str_leb a b = true ∨ str_leb b a = true.
Proof.
  unfold str_leb. destruct (total String.le a b) as [H|H]; unfold String.le in H; auto using Is_true_true_1.
Qed.

Lemma str_leb_trans a b c : str_leb a b = true → str_leb b c = true → str_leb a c = true.
Proof.
  unfold str_leb. intros H1 H2. apply Is_true_true_1.
  change (String.le a c). trans b; by apply Is_true_true_2.
Qed.

Lemma str_leb_antisym a b : str_leb a b = true → str_leb b a = true → a = b.
Proof.
  unfold str_leb. intros H1 H2. apply (anti_symm String.le); by apply Is_true_true_2.
Qed.

Lemma str_leb_refl a : str_leb a a = true.
Proof. destruct (str_leb_total a a); done. Qed.

(** [s.startswith(p)] *)
Definition startswith (p s : string) : bool := String.prefix p s.

(** [s.rstrip(c)] *)
Fixpoint rstrip (c : Ascii.ascii) (s : string) : string :=
  match s with
  | EmptyString => EmptyString
  | String a s' =>
      match rstrip c s' with
      | EmptyString => if Ascii.eqb a c then EmptyString else String a EmptyString
      | r => String a r
      end
  end.

(** [s.split(c)] for a single character, which never yields an empty list. *)
Fixpoint split_on (c : Ascii.ascii) (s : string) : list string :=
  match s with
  | EmptyString => [""]
  | String x s' =>
      if Ascii.eqb x c then "" :: split_on c s'
      else match split_on c s' with
           | h :: t => String x h :: t
           | [] => [String x ""]
           end
  end.

(** [c.join(l)] *)
Fixpoint join_on (c : Ascii.ascii) (l : list string) : string :=
  match l with
  | [] => ""
  | [s] => s
  | s :: l' => s +:+ String c (join_on c l')
  end.

Fixpoint free_of (c : Ascii.ascii) (s : string) : bool :=
  match s with EmptyString => true | String x s' => negb (Ascii.eqb x c) && free_of c s' end.

Lemma string_app_assoc (s t u : string) : s +:+ (t +:+ u) = (s +:+ t) +:+ u.
Proof. induction s as [|a s IH]; [done|]. by apply (f_equal (String a)). Qed.

Lemma split_on_free c s : free_of c s = true → split_on c s = [s].
Proof.
  induction s as [|x s IH]; simpl; [done|]. intros [Hx Hs]%andb_prop. apply negb_true_iff in Hx. by rewrite Hx, IH.
Qed.

Lemma split_on_app c s t : free_of c s = true → split_on c (s +:+ String c t) = s :: split_on c t.
Proof.
  induction s as [|x s IH]; simpl; [by rewrite Ascii.eqb_refl|].
  intros [Hx Hs]%andb_prop. apply negb_true_iff in Hx. by rewrite Hx, IH.
Qed.

Lemma split_on_parts c s : Forall (λ x, free_of c x = true) (split_on c s).
Proof.
  induction s as [|x s IH]; simpl; [by repeat constructor|].
  destruct (Ascii.eqb x c) eqn:E; [by constructor|].
  destruct (split_on c s) as [|y l]; [|apply Forall_cons in IH as [Hx Hl]]; (constructor; [|done]); simpl; by rewrite E.
Qed.
Lemma split_on_nonempty c s : split_on c s ≠ [].
Proof. destruct s as [|x s]; simpl; [done|]. destruct (Ascii.eqb x c); [done|]. by destruct (split_on c s). Qed.

(** Splitting gives back the parts that were joined. *)
Lemma split_on_join c l : l ≠ [] → forallb (free_of c) l = true → split_on c (join_on c l) = l.
Proof.
  induction l as [|s [|t l] IH]; [done| |]; intros _.
  - intros [Hs _]%andb_prop. by apply split_on_free.
  - intros [Hs Hl]%andb_prop. change (join_on c (s :: t :: l)) with (s +:+ String c (join_on c (t :: l))).
    rewrite split_on_app by done. f_equal. by apply IH.
Qed.

(** [s.rpartition(c)[2]]: what follows the last [c], or all of [s]. *)
Definition rpartition_last (c : Ascii.ascii) (s : string) : string := default s (last (split_on c s)).

(** [enumerate(l)] *)
Definition enumerate {A} (l : list A) : list (nat * A) := imap (λ i x, (i, x)) l.

Lemma elem_of_enumerate {A} (l : list A) i x : (i, x) ∈ enumerate l ↔ l !! i = Some x.
Proof.
  unfold enumerate. rewrite list_elem_of_lookup. setoid_rewrite list_lookup_imap.
  setoid_rewrite fmap_Some. split.
  - intros (j & y & Hy & [= -> ->]). done.
  - intros H. exists i, x. eauto.
Qed.

Lemma enumerate_fst {A} (l : list A) : (enumerate l).*1 = seq 0 (length l).
Proof.
  unfold enumerate. rewrite fmap_imap. rewrite <- (list_fmap_id (seq 0 (length l))).
  by rewrite <- (imap_seq_0 l id).
Qed.

Lemma enumerate_snd {A} (l : list A) : (enumerate l).*2 = l.
Proof.
  unfold enumerate. rewrite fmap_imap. change (imap (const id) l = l).
  by rewrite imap_const, list_fmap_id.
Qed.

Lemma length_filter_fmap {A B} (f : A → B) (P : B → Prop) `{∀ x, Decision (P x)} (l : list A) :
  length (filter P (f <$> l)) = length (filter (λ x, P (f x)) l).
Proof.
  induction l as [|x l IH]; [done|]. csimpl.
  destruct (decide (P (f x))).
  - rewrite !filter_cons_True by done. simpl. by rewrite IH.
  - by rewrite !filter_cons_False by done.
Qed.

(** ** Python dictionaries: insertion ordered association lists *)
Section dict.
Context {K V : Type} `{EqDecision K}.
Implicit Types (d : list (K * V)) (k : K) (v : V).

Fixpoint dict_get d k : option V :=
  match d with
  | [] => None
  | (k', v) :: d' => if decide (k' = k) then Some v else dict_get d' k
  end.

(** [d[k] = f(d.get(k))]: an existing key keeps its position. *)
Fixpoint dict_alter (f : option V → V) k d : list (K * V) :=
  match d with
  | [] => [(k, f None)]
  | (k', v) :: d' => if decide (k' = k) then (k', f (Some v)) :: d' else (k', v) :: dict_alter f k d'
  end.

Definition dict_set k v d : list (K * V) := dict_alter (λ _, v) k d.
Definition dict_del k d : list (K * V) := filter (λ p, p.1 ≠ k) d.

Lemma dict_get_alter_eq f k d : dict_get (dict_alter f k d) k = Some (f (dict_get d k)).
Proof.
  induction d as [|[k' v] d IH]; simpl.
  - by rewrite decide_True.
  - case_decide; simpl; [by rewrite decide_True|by rewrite decide_False].
Qed.

Lemma dict_get_alter_ne f k k' d : k ≠ k' → dict_get (dict_alter f k d) k' = dict_get d k'.
Proof.
  intros Hne. induction d as [|[k2 v] d IH]; simpl; [by rewrite decide_False|].
  case_decide as Hk; simpl; [subst; by rewrite !(decide_False (P:=_ = k'))|].
  by case_decide.
Qed.

Lemma dict_alter_keys f k d :
  (dict_alter f k d).*1 = if decide (k ∈ d.*1) then d.*1 else d.*1 ++ [k].
Proof.
  induction d as [|[k' v] d IH]; [done|]. cbn [dict_alter].
  change (((k', v) :: d).*1) with (k' :: d.*1).
  destruct (decide (k' = k)) as [->|Hk].
  - change (((k, f (Some v)) :: d).*1) with (k :: d.*1).
    rewrite decide_True; [done|]. by left.
  - change (((k', v) :: dict_alter f k d).*1) with (k' :: (dict_alter f k d).*1).
    rewrite IH. destruct (decide (k ∈ d.*1)) as [Hin|Hin].
    + rewrite decide_True; [done|]. by right.
    + rewrite decide_False; [done|]. by intros [->|?]%elem_of_cons.
Qed.

Lemma dict_alter_NoDup f k d : NoDup d.*1 → NoDup (dict_alter f k d).*1.
Proof.
  intros Hnd. rewrite dict_alter_keys. case_decide as Hin; [done|].
  apply NoDup_app. split; [done|]. split; [|apply NoDup_singleton].
  intros x Hx. rewrite list_elem_of_singleton. by intros ->.
Qed.

Lemma dict_set_new d k v : k ∉ d.*1 → dict_set k v d = d ++ [(k, v)].
Proof.
  unfold dict_set. induction d as [|[k' v'] d IH]; intros Hk; [done|]. simpl in *. rewrite decide_False.
  - rewrite IH; [done|]. intros H. apply Hk. by right.
  - intros ->. apply Hk. by left.
Qed.

Lemma dict_get_elem_of d k v : NoDup d.*1 → dict_get d k = Some v ↔ (k, v) ∈ d.
Proof.
  induction d as [|[k' v'] d IH]; simpl; intros Hnd.
  - split; [done|]. by intros ?%not_elem_of_nil.
  - apply NoDup_cons in Hnd as [Hni Hnd]. rewrite elem_of_cons.
    case_decide as Hk; subst.
    + split; [intros [= ->]; by left|]. intros [[= ->]|Hin]; [done|].
      exfalso. apply Hni. apply list_elem_of_fmap. by exists (k, v).
    + specialize (IH Hnd). rewrite IH. split; [by right|]. intros [[= <- <-]|?]; done.
Qed.

Lemma dict_get_None d k : dict_get d k = None ↔ k ∉ d.*1.
Proof.
  induction d as [|[k' v'] d IH]; simpl.
  - split; [|done]. intros _ ?%not_elem_of_nil. done.
  - rewrite not_elem_of_cons, <- IH. case_decide; split; try done.
    + intros [? _]. by subst.
    + intros [_ ?]. done.
Qed.
End dict.

(** ** Automation shared by the components *)
Create HintDb astacus.
#[export] Hint Resolve str_leb_total str_leb_trans str_leb_refl : astacus.

(** Reduce the head of a monadic computation once its first action is known. *)
Ltac mstep H := first [rewrite (bind_ok _ _ _ _ _ H) | rewrite (bind_raise _ _ _ _ _ H)].
(** Invert a successful monadic run. *)
Ltac minv H :=
  let w := fresh "w" in let a := fresh "a" in let H1 := fresh "H" in
  apply bind_inv_ok in H as (w & a & H1 & H).
(** Case analysis on the first [if]/[match] scrutinee of the goal. *)
Ltac case_match_goal := match goal with |- context [match ?x with _ => _ end] => destruct x eqn:? end.
