(* ===== verification/Progress.v ===== *)
(** * Progress meters ([common/progress.py])

    The counters every node operation reports, the assertions that guard
    their updates, and [Progress.merge], which folds the meters of a
    cluster into one; last, the choice of the increases that are logged
    ([increase_worth_reporting]). *)

From stdpp Require Import base list.
From Stdlib Require Import ZArith Lia.
From S2P Require Import Prelude.

Local Open Scope Z_scope.

Record Progress : Type := mkProgress {
  handled : Z;
  failed : Z;
  total : Z;
  final : bool;
}.

(** [Progress()] *)
Definition new_progress : Progress := mkProgress 0 0 0 false.

#[global] Instance Progress_eq_dec : EqDecision Progress.
Proof. solve_decision. Defined.

Module Progress.

(** What an argument annotated [Iterable] can be: a container that can be
    traversed again, or a generator that the first traversal exhausts. *)
Inductive iterable (A : Type) : Type :=
| Reiterable (l : list A)
| OneShot (l : list A).
Arguments Reiterable {A} l.
Arguments OneShot {A} l.

Definition first_pass {A} (i : iterable A) : list A :=
  match i with Reiterable l | OneShot l => l end.
Definition second_pass {A} (i : iterable A) : list A :=
  match i with Reiterable l => l | OneShot _ => [] end.

(** [add_total]: nothing for 0, otherwise the counter is bumped before the
    assertion that the meter is not final. *)
Definition add_total (n : Z) : M Progress unit :=
  if n =? 0 then mret tt
  else modify (λ p, mkProgress (handled p) (failed p) (total p + n) (final p)) ≫= λ _,
       get ≫= λ p, py_assert (negb (final p)).

Definition start (n : Z) : M Progress unit :=
  get ≫= λ p, py_assert (total p =? 0) ≫= λ _, add_total n.

Definition add_fail (n : Z) : M Progress unit :=
  py_assert (0 <? n) ≫= λ _,
  modify (λ p, mkProgress (handled p) (failed p + n) (total p) (final p)) ≫= λ _,
  get ≫= λ p, py_assert (negb (final p)).

Definition add_success (n : Z) : M Progress unit :=
  py_assert (0 <? n) ≫= λ _,
  modify (λ p, mkProgress (handled p + n) (failed p) (total p) (final p)) ≫= λ _,
  get ≫= λ p, py_assert (handled p <=? total p) ≫= λ _, py_assert (negb (final p)).

Definition download_success (size : Z) : M Progress unit := add_success size.
Definition upload_success : M Progress unit := add_success 1.
Definition upload_missing : M Progress unit := add_fail 1.
Definition upload_failure : M Progress unit := add_fail 1.

Definition done : M Progress unit :=
  get ≫= λ p, py_assert (handled p <=? total p) ≫= λ _,
  py_assert (negb (final p)) ≫= λ _,
  put (mkProgress (handled p) (failed p) (total p) true).

(** [for x in progress.wrap(i): body(x)].  [wrap] contains [yield], so it is
    a generator function: its early [return i], taken when [len(i)] raises
    [TypeError], ends the iteration without an element. *)
Definition wrap {W A} (proj : W → Progress) (upd : Progress → W → W)
    (i : list A) (has_len : bool) (body : A → M W unit) : M W unit :=
  if has_len then
    zoom proj upd (add_total (Z.of_nat (length i))) ≫= λ _,
    for_each i (λ x, body x ≫= λ _, zoom proj upd (add_success 1))
  else mret tt.

Definition finished_successfully (p : Progress) : bool :=
  final p && (failed p =? 0) && (handled p =? total p).

Definition finished_failed (p : Progress) : bool :=
  final p && negb (finished_successfully p).

(** [Progress.merge]: the counters come from one traversal of the
    argument, [final] from a second one. *)
Definition merge (progresses : iterable Progress) : Progress :=
  let p := foldl (λ acc p, mkProgress (handled acc + handled p) (failed acc + failed p)
                                      (total acc + total p) (final acc))
                 new_progress (first_pass progresses) in
  mkProgress (handled p) (failed p) (total p) (forallb final (second_pass progresses)).

(** ** Invariant *)
Definition wf (p : Progress) : Prop :=
  0 <= handled p <= total p /\ 0 <= failed p.

Lemma new_progress_wf : wf new_progress.
Proof. unfold wf; simpl; lia. Qed.

(** The updates of a meter, as one type, to state facts about any
    sequence of them. *)
Inductive update : Type :=
| UStart (n : Z) | UTotal (n : Z) | UFail (n : Z) | USuccess (n : Z) | UDone.

Definition run_update (u : update) : M Progress unit :=
  match u with
  | UStart n => start n
  | UTotal n => add_total n
  | UFail n => add_fail n
  | USuccess n => add_success n
  | UDone => done
  end.

(** The sizes and counts the callers add are never negative. *)
Definition update_ok (u : update) : Prop :=
  match u with UStart n | UTotal n => 0 <= n | _ => True end.

Ltac progress_cases :=
  unfold start, add_total, add_fail, add_success, done, py_assert, raise, modify, get, put,
    mbind, M_bind, mret, M_ret in *; simpl in *;
  repeat (case_match; simpl in *; simplify_eq/=).

Lemma run_update_wf u p p' :
  update_ok u -> wf p -> run_update u p = (p', Ok tt) -> wf p'.
Proof.
  unfold wf; intros Hok Hwf H; destruct u; simpl in *; progress_cases; lia.
Qed.

(** A final meter: an update either changes nothing or fails its assertion. *)
Lemma run_update_final u p p' :
  run_update u p = (p', Ok tt) -> final p = true -> p' = p.
Proof.
  intros H Hf; destruct p as [h f t fi]; simpl in Hf; subst fi.
  destruct u; simpl in *; progress_cases; done.
Qed.

(** The updates of an operation that succeeds. *)
Lemma start_run n : start n new_progress = (mkProgress 0 0 n false, Ok tt).
Proof.
  unfold start, add_total. destruct (Z.eqb_spec n 0) as [->|Hn]; reflexivity.
Qed.

Lemma add_success_run h f t n :
  0 < n -> h + n <= t -> add_success n (mkProgress h f t false) = (mkProgress (h + n) f t false, Ok tt).
Proof.
  intros Hn Ht. unfold add_success, py_assert, modify, get, mbind, M_bind, mret, M_ret.
  rewrite (proj2 (Z.ltb_lt 0 n)) by done. simpl. by rewrite (proj2 (Z.leb_le _ _)) by done.
Qed.

Lemma done_run h f t : h <= t -> done (mkProgress h f t false) = (mkProgress h f t true, Ok tt).
Proof.
  intros Ht. unfold done, py_assert, get, put, mbind, M_bind, mret, M_ret. simpl.
  by rewrite (proj2 (Z.leb_le _ _)) by done.
Qed.

(** ** Merging *)
Lemma merge_fold_counters l acc :
  let q := foldl (λ acc p, mkProgress (handled acc + handled p) (failed acc + failed p)
                                      (total acc + total p) (final acc)) acc l in
  handled q = handled acc + foldr Z.add 0 (handled <$> l) /\
  failed q = failed acc + foldr Z.add 0 (failed <$> l) /\
  total q = total acc + foldr Z.add 0 (total <$> l).
Proof.
  revert acc. induction l as [|p l IH]; intros acc; csimpl; [lia|].
  destruct (IH (mkProgress (handled acc + handled p) (failed acc + failed p)
                  (total acc + total p) (final acc))) as (H1 & H2 & H3).
  simpl in *. rewrite H1, H2, H3. lia.
Qed.

Lemma merge_counters i :
  handled (merge i) = foldr Z.add 0 (handled <$> first_pass i) /\
  failed (merge i) = foldr Z.add 0 (failed <$> first_pass i) /\
  total (merge i) = foldr Z.add 0 (total <$> first_pass i).
Proof.
  destruct (merge_fold_counters (first_pass i) new_progress) as (H1 & H2 & H3).
  unfold merge; simpl in *. rewrite H1, H2, H3. lia.
Qed.

Lemma sum_nonneg {A} (f : A -> Z) l :
  Forall (λ x, 0 <= f x) l -> 0 <= foldr Z.add 0 (f <$> l).
Proof. induction 1; csimpl; lia. Qed.

Lemma sum_zero_iff {A} (f : A -> Z) l :
  Forall (λ x, 0 <= f x) l -> foldr Z.add 0 (f <$> l) = 0 <-> Forall (λ x, f x = 0) l.
Proof.
  induction 1 as [|x l Hx Hl IH]; csimpl; [by split|].
  pose proof (sum_nonneg f l Hl). rewrite Forall_cons, <- IH. lia.
Qed.

Lemma sum_sub {A} (f g : A -> Z) l :
  foldr Z.add 0 ((λ x, g x - f x) <$> l) = foldr Z.add 0 (g <$> l) - foldr Z.add 0 (f <$> l).
Proof. induction l; csimpl; lia. Qed.

Lemma finished_successfully_spec p :
  finished_successfully p = true <-> final p = true /\ failed p = 0 /\ handled p = total p.
Proof.
  unfold finished_successfully. rewrite !andb_true_iff, !Z.eqb_eq. tauto.
Qed.

(** Merging a container of well-formed meters: the merged meter is
    finished successfully exactly when each of them is. *)
Theorem merge_finished_successfully (l : list Progress) :
  Forall wf l ->
  (finished_successfully (merge (Reiterable l)) = true <->
   Forall (λ p, finished_successfully p = true) l).
Proof.
  intros Hwf. destruct (merge_counters (Reiterable l)) as (Hh & Hf & Ht).
  rewrite finished_successfully_spec, Hh, Hf, Ht. simpl first_pass.
  setoid_rewrite finished_successfully_spec.
  assert (Forall (λ p, 0 <= failed p) l) as Hf0
    by (eapply Forall_impl; [exact Hwf|]; unfold wf; lia).
  assert (Forall (λ p, 0 <= total p - handled p) l) as Hd0
    by (eapply Forall_impl; [exact Hwf|]; unfold wf; lia).
  pose proof (sum_zero_iff failed l Hf0) as Hz1.
  pose proof (sum_zero_iff (λ p, total p - handled p) l Hd0) as Hz2.
  rewrite sum_sub in Hz2. cbn [merge final second_pass].
  rewrite !Forall_and, <- Hz1.
  assert (forallb final l = true <-> Forall (λ p, final p = true) l) as Hfin
    by (by rewrite List.forallb_forall, List.Forall_forall).
  assert (Forall (λ p, handled p = total p) l <-> Forall (λ p, total p - handled p = 0) l) as Hd
    by (rewrite !List.Forall_forall; split; intros H x Hx; specialize (H x Hx); lia).
  rewrite Hfin, Hd, <- Hz2. intuition lia.
Qed.

Lemma merge_finished_successfully_witness :
  Forall wf [mkProgress 3 0 3 true; mkProgress 1 0 1 true] /\
  finished_successfully (merge (Reiterable [mkProgress 3 0 3 true; mkProgress 1 0 1 true])) = true.
Proof.
  split.
  - repeat constructor; simpl; lia.
  - apply merge_finished_successfully; [repeat constructor; simpl; lia|repeat constructor].
Defined.

(** Merging a generator: whatever the meters say, the result is final. *)
Theorem merge_generator_always_final (l : list Progress) :
  final (merge (OneShot l)) = true /\
  handled (merge (OneShot l)) = handled (merge (Reiterable l)).
Proof.
  split; [done|].
  destruct (merge_counters (OneShot l)) as (H1 & _), (merge_counters (Reiterable l)) as (H2 & _).
  by rewrite H1, H2.
Qed.

(** Any sequence of updates that runs without an assertion failure keeps
    [0 <= handled <= total], and once the meter is final it no longer moves. *)
Theorem progress_updates_wf (us : list update) (p p' : Progress) :
  Forall update_ok us -> wf p -> for_each us run_update p = (p', Ok tt) ->
  wf p' /\ (final p = true -> p' = p).
Proof.
  intros Hok. revert p. induction Hok as [|u us Hu Hus IH]; intros p Hwf H; simpl in H.
  - unfold mret, M_ret in H. by injection H as <-.
  - minv H. destruct a. destruct (IH w) as [Hw Hfin]; [by eapply run_update_wf|done|].
    split; [done|]. intros Hf. rewrite (run_update_final _ _ _ H0 Hf) in *. auto.
Qed.

Lemma progress_updates_wf_witness :
  let us := [UStart 3; USuccess 2; UFail 1; UDone] in
  for_each us run_update new_progress = (mkProgress 2 1 3 true, Ok tt) /\ wf (mkProgress 2 1 3 true).
Proof.
  split; [reflexivity|].
  apply (progress_updates_wf [UStart 3; USuccess 2; UFail 1; UDone] new_progress);
    [repeat constructor; simpl; lia|apply new_progress_wf|reflexivity].
Defined.

(** ** Which increases are logged *)
Section reporting.
(** [int(math.log(value) / _log_1_1)] *)
Context (log_1_1 : Z -> Z).

Definition increase_worth_reporting (value : Z) (new_value total : option Z) : bool :=
  let new := default value new_value in
  let old := match new_value with None => new - 1 | Some _ => value end in
  match total with
  | Some total =>
      if (new =? total) || (total <=? 100) then true
      else negb (100 * old / total =? 100 * new / total)
  | None => if (old <=? 10) || (new <=? 10) then true else negb (log_1_1 old =? log_1_1 new)
  end.

Definition reports (total : Z) (n : nat) : list Z :=
  filter (fun v => increase_worth_reporting v None (Some total) = true) (seqZ 1 (Z.of_nat n)).

Lemma reports_S total n :
  reports total (S n) = reports total n ++
    (if increase_worth_reporting (Z.of_nat n + 1) None (Some total) then [Z.of_nat n + 1] else []).
Proof.
  unfold reports. rewrite seqZ_S, filter_app. f_equal.
  replace (1 + Z.of_nat n) with (Z.of_nat n + 1) by lia. rewrite filter_cons, filter_nil.
  by destruct (increase_worth_reporting (Z.of_nat n + 1) None (Some total)).
Qed.

Lemma reports_length total n :
  100 < total -> Z.of_nat n <= total -> Z.of_nat (length (reports total n)) = 100 * Z.of_nat n / total.
Proof.
  intros Ht. induction n as [|n IH]; intros Hn; [done|]. rewrite reports_S, length_app, Nat2Z.inj_add, IH by lia.
  rewrite Nat2Z.inj_succ. unfold Z.succ. set (k := Z.of_nat n) in *.
  unfold increase_worth_reporting. simpl. rewrite (proj2 (Z.leb_gt _ _) Ht), orb_false_r. replace (k + 1 - 1) with k by lia.
  pose proof (Z.div_mod (100 * k) total ltac:(lia)) as H1. pose proof (Z.mod_pos_bound (100 * k) total ltac:(lia)) as H2.
  pose proof (Z.div_mod (100 * (k + 1)) total ltac:(lia)) as H3. pose proof (Z.mod_pos_bound (100 * (k + 1)) total ltac:(lia)) as H4.
  set (a := 100 * k / total) in *. set (b := 100 * (k + 1) / total) in *.
  assert (b = a \/ b = a + 1) as Hab by nia.
  destruct (Z.eqb_spec (k + 1) total) as [He|_].
  - assert (b = 100) by nia. assert (a <> 100) by nia. simpl. lia.
  - destruct (Z.eqb_spec a b); simpl; lia.
Qed.

Lemma reports_all total n : total <= 100 -> length (reports total n) = n.
Proof.
  intros Ht. induction n as [|n IH]; [done|]. rewrite reports_S, length_app, IH. unfold increase_worth_reporting. simpl.
  rewrite (proj2 (Z.leb_le _ _) Ht), orb_true_r. simpl. lia.
Qed.

(** Counting up to a known total by ones is reported at every step when the
    total is at most a hundred, and exactly a hundred times otherwise; the
    last step is always reported. *)
Theorem reports_per_percent (total : Z) :
  0 < total ->
  Z.of_nat (length (reports total (Z.to_nat total))) = Z.min total 100 /\
  increase_worth_reporting total None (Some total) = true.
Proof.
  intros Ht. split; [|unfold increase_worth_reporting; simpl; by rewrite Z.eqb_refl].
  destruct (Z.le_gt_cases total 100) as [Hle|Hgt].
  - rewrite Z.min_l by done. rewrite reports_all by done. lia.
  - rewrite Z.min_r by lia. rewrite reports_length by lia. rewrite Z2Nat.id by lia. apply Z.div_mul. lia.
Qed.
End reporting.

Lemma reports_per_percent_witness :
  Z.of_nat (length (reports (fun v => v) 250 (Z.to_nat 250))) = 100 /\
  increase_worth_reporting (fun v => v) 250 None (Some 250) = true.
Proof. apply (reports_per_percent (fun v => v) 250). lia. Defined.

End Progress.
