(* ===== verification/Ipc.v ===== *)
(** * Messages and manifests ([common/ipc.py], [common/snapshot.py],
      [common/magic.py], [coordinator/config.py])

    The structures exchanged between the coordinator and the nodes, the
    backup manifest, and the pure operations defined on them.  Instants
    ([datetime]) are microseconds since the epoch, sizes and counts are
    Python integers ([Z]). *)

From stdpp Require Import base gmap strings list.
From Stdlib Require Import ZArith Lia.
From S2P Require Import Prelude Progress.

Local Open Scope Z_scope.

(** ** [common/magic.py] *)
Definition JSON_BACKUP_PREFIX : string := "backup-".
Definition JSON_DELTA_PREFIX : string := "delta-".
Definition DEFAULT_EMBEDDED_FILE_SIZE : Z := 200.

Inductive LockCall : Type := LockCall_lock | LockCall_relock | LockCall_unlock.

(** ** [common/ipc.py]: generic part *)
Inductive Plugin : Type := cassandra | clickhouse | files_plugin | m3db | flink.

Inductive NodeFeatures : Type := validate_file_hashes_f | snapshot_groups_f | release_snapshot_files_f.
Definition feature_value (f : NodeFeatures) : string :=
  match f with
  | validate_file_hashes_f => "validate_file_hashes"
  | snapshot_groups_f => "snapshot_groups"
  | release_snapshot_files_f => "release_snapshot_files"
  end.
Definition all_features : list NodeFeatures :=
  [validate_file_hashes_f; snapshot_groups_f; release_snapshot_files_f].

#[global] Instance LockCall_eq_dec : EqDecision LockCall. Proof. solve_decision. Defined.
#[global] Instance Plugin_eq_dec : EqDecision Plugin. Proof. solve_decision. Defined.
#[global] Instance NodeFeatures_eq_dec : EqDecision NodeFeatures. Proof. solve_decision. Defined.

Record Retention : Type := mkRetention {
  minimum_backups : option Z;
  maximum_backups : option Z;
  keep_days : option Z;
}.

Record CoordinatorNode : Type := mkCoordinatorNode {
  node_url_ : string;
  node_az : string;
}.
#[global] Instance CoordinatorNode_eq_dec : EqDecision CoordinatorNode.
Proof. solve_decision. Defined.

Record MetadataResult : Type := mkMetadataResult {
  md_version : string;
  md_features : list string;
}.

(** ** Snapshots *)
Record SnapshotFile : Type := mkSnapshotFile {
  relative_path : string;
  file_size : Z;
  mtime_ns : Z;
  hexdigest : string;
  content_b64 : option string;
}.
#[global] Instance SnapshotFile_eq_dec : EqDecision SnapshotFile.
Proof. solve_decision. Defined.

Definition underlying_file_is_the_same (a o : SnapshotFile) : bool :=
  (mtime_ns a =? mtime_ns o) && bool_decide (relative_path a = relative_path o)
  && (file_size a =? file_size o).

Definition equals_excluding_mtime (a o : SnapshotFile) : bool :=
  bool_decide ((relative_path a, file_size a, hexdigest a, content_b64 a) =
               (relative_path o, file_size o, hexdigest o, content_b64 o)).

Record SnapshotState : Type := mkSnapshotState {
  root_globs : list string;
  state_files : list SnapshotFile;
}.

(** [common/snapshot.py]: [SnapshotGroup] *)
Record SnapshotGroup : Type := mkSnapshotGroup {
  root_glob : string;
  excluded_names : list string;
  embedded_file_size_max : option Z;
}.
#[global] Instance SnapshotGroup_eq_dec : EqDecision SnapshotGroup.
Proof. solve_decision. Defined.

Definition simple_group (glob : string) : SnapshotGroup :=
  mkSnapshotGroup glob [] (Some DEFAULT_EMBEDDED_FILE_SIZE).

Definition without_excluded_names (g : SnapshotGroup) : SnapshotGroup :=
  mkSnapshotGroup (root_glob g) [] (embedded_file_size_max g).

Record SnapshotRequestGroup : Type := mkSnapshotRequestGroup {
  rg_root_glob : string;
  rg_excluded_names : list string;
  rg_embedded_file_size_max : option Z;
}.

(** [SnapshotHash] is hashed by its hexdigest but compared on both fields. *)
Record SnapshotHash : Type := mkSnapshotHash {
  hash_hexdigest : string;
  hash_size : Z;
}.
#[global] Instance SnapshotHash_eq_dec : EqDecision SnapshotHash.
Proof. solve_decision. Defined.

Record SnapshotResult : Type := mkSnapshotResult {
  sr_hostname : string;
  sr_az : string;
  sr_progress : Progress;
  sr_start : Z;
  sr_end : option Z;
  sr_state : option SnapshotState;
  sr_files : Z;
  sr_total_size : Z;
  sr_hashes : option (list SnapshotHash);
}.

Record NodeResult : Type := mkNodeResult {
  nr_hostname : string;
  nr_az : string;
  nr_progress : Progress;
}.

Record CassandraGetSchemaHashResult : Type := mkCassandraGetSchemaHashResult {
  shr_hostname : string;
  shr_az : string;
  shr_progress : Progress;
  schema_hash : string;
}.

Record SnapshotUploadResult : Type := mkSnapshotUploadResult {
  ur_hostname : string;
  ur_az : string;
  ur_progress : Progress;
  ur_total_size : Z;
  ur_total_stored_size : Z;
}.

(** ** Requests sent to the nodes *)
Inductive CassandraSubOp : Type :=
| get_schema_hash | remove_snapshot | unrestore_sstables | restore_sstables
| start_cassandra | stop_cassandra | take_snapshot.
#[global] Instance CassandraSubOp_eq_dec : EqDecision CassandraSubOp.
Proof. solve_decision. Defined.

Inductive CassandraTableMatching : Type := cfid | cfname.

Inductive NodeRequest : Type :=
| PlainNodeRequest
| SnapshotRequest (globs : list string)
| SnapshotRequestV2 (groups : list SnapshotRequestGroup) (globs : list string)
| SnapshotUploadRequest (hashes : list SnapshotHash) (storage : string)
| SnapshotUploadRequestV20221129 (hashes : list SnapshotHash) (storage : string) (validate_file_hashes : bool)
| SnapshotDownloadRequest (storage backup_name : string) (snapshot_index : nat) (globs : list string)
| SnapshotClearRequest (globs : list string)
| SnapshotReleaseRequest (hexdigests : list string)
| CassandraStartRequest (tokens : option (list string)) (replace_address_first_boot : option string)
    (skip_bootstrap_streaming : option bool)
| CassandraRestoreSSTablesRequest (table_glob : string) (keyspaces_to_skip : list string)
    (match_tables_by : CassandraTableMatching) (expect_empty_target : bool).

Definition create_snapshot_request (groups : list SnapshotGroup) (node_features : gset string) : NodeRequest :=
  if decide (feature_value snapshot_groups_f ∈ node_features) then
    SnapshotRequestV2
      ((λ g, mkSnapshotRequestGroup (root_glob g) (excluded_names g) (embedded_file_size_max g)) <$> groups) []
  else SnapshotRequest (root_glob <$> groups).

(** [groups_from_snapshot_req] of [node/api.py]: what a node makes of a
    request.  The groups whose glob is already listed are dropped, where
    "listed" is evaluated against the list before the comprehension. *)
Definition groups_from_snapshot_req (globs : list string) (req_groups : list SnapshotRequestGroup) : list SnapshotGroup :=
  let groups := simple_group <$> globs in
  groups ++
  ((λ g, mkSnapshotGroup (rg_root_glob g) (rg_excluded_names g) (rg_embedded_file_size_max g)) <$>
     filter (λ g, existsb (λ e, bool_decide (root_glob e = rg_root_glob g)) groups = false) req_groups).

(** ** Coordinator requests *)
Record PartialRestoreRequestNode : Type := mkPartialRestoreRequestNode {
  backup_index : option Z;
  backup_hostname : option string;
  node_index : option Z;
  node_url : option string;
}.

(** [__post_init__] *)
Definition partial_restore_request_node (bi : option Z) (bh : option string) (ni : option Z) (nu : option string) :
    res PartialRestoreRequestNode :=
  if Bool.eqb (bool_decide (bi = None)) (bool_decide (bh = None)) then Raise ValueError
  else if Bool.eqb (bool_decide (ni = None)) (bool_decide (nu = None)) then Raise ValueError
  else Ok (mkPartialRestoreRequestNode bi bh ni nu).

Record RestoreRequest : Type := mkRestoreRequest {
  rr_storage : string;
  rr_name : string;
  rr_partial_restore_nodes : option (list PartialRestoreRequestNode);
  rr_stop_after_step : option string;
}.

Record CleanupRequest : Type := mkCleanupRequest {
  cr_storage : string;
  cr_retention : option Retention;
  cr_explicit_delete : list string;
}.

(** ** Manifests.  [plugin_data] is an opaque JSON value of the plugin. *)
Record BackupManifest : Type := mkBackupManifest {
  bm_start : Z;
  bm_end : Z;
  bm_attempt : Z;
  bm_snapshot_results : list SnapshotResult;
  bm_upload_results : list SnapshotUploadResult;
  bm_plugin : Plugin;
  bm_plugin_data : string;
  bm_filename : string;
}.

Record ManifestMin : Type := mkManifestMin {
  mm_start : Z;
  mm_end : Z;
  mm_filename : string;
}.
#[global] Instance ManifestMin_eq_dec : EqDecision ManifestMin.
Proof. solve_decision. Defined.

Definition from_manifest (m : BackupManifest) : ManifestMin :=
  mkManifestMin (bm_start m) (bm_end m) (bm_filename m).

(** The hexdigests a manifest references: what a restore of it downloads. *)
Definition manifest_hexdigests (m : BackupManifest) : list string :=
  bm_snapshot_results m ≫= λ sr, hash_hexdigest <$> default [] (sr_hashes sr).

(** ** Listing *)
Record ListSingleBackup : Type := mkListSingleBackup {
  lb_name : string;
  lb_start : Z;
  lb_end : Z;
  lb_plugin : Plugin;
  lb_attempt : Z;
  lb_nodes : Z;
  lb_files : Z;
  lb_total_size : Z;
  lb_upload_size : Z;
  lb_upload_stored_size : Z;
  lb_cluster_files : Z;
  lb_cluster_data_size : Z;
}.
#[global] Instance ListSingleBackup_eq_dec : EqDecision ListSingleBackup.
Proof. solve_decision. Defined.

Record ListForStorage : Type := mkListForStorage {
  ls_storage_name : string;
  ls_backups : list ListSingleBackup;
}.

(** ** Facts *)
Lemma partial_restore_request_node_ok bi bh ni nu r :
  partial_restore_request_node bi bh ni nu = Ok r →
  (is_Some bi ∧ bh = None ∨ bi = None ∧ is_Some bh) ∧
  (is_Some ni ∧ nu = None ∨ ni = None ∧ is_Some nu).
Proof.
  unfold partial_restore_request_node.
  destruct bi, bh, ni, nu; simpl; intros H; try discriminate; split; eauto.
Qed.

(** Request round trip: the groups a node rebuilds from the request the
    coordinator created for nodes that support groups are the groups of the
    step, options included; for older nodes only the globs survive, with
    default options. *)
Theorem snapshot_request_roundtrip (groups : list SnapshotGroup) (features : gset string) :
  match create_snapshot_request groups features with
  | SnapshotRequestV2 gs globs =>
      feature_value snapshot_groups_f ∈ features ∧ groups_from_snapshot_req globs gs = groups
  | SnapshotRequest globs =>
      feature_value snapshot_groups_f ∉ features ∧
      groups_from_snapshot_req globs [] = ((λ g, simple_group (root_glob g)) <$> groups)
  | _ => False
  end.
Proof.
  unfold create_snapshot_request. destruct (decide _) as [Hin|Hin]; (split; [done|]);
    unfold groups_from_snapshot_req; simpl.
  - induction groups as [|[g ex em] groups IH]; [done|]. csimpl.
    f_equal. done.
  - by rewrite app_nil_r, <- list_fmap_compose.
Qed.
