(* ===== verification/Storage.v ===== *)
(** * Object storage ([common/storage.py], [common/cachingjsonstorage.py],
      [common/asyncstorage.py], [CacheClearingJsonStorage] of
      [coordinator/coordinator.py])

    [JsonStorage] and [HexDigestStorage] are the same four operations on two
    name spaces, so one record of operations [StorageOps] and one class of
    laws [StorageSpec] serve both.  The laws describe a storage as a finite
    map from names to contents; clients ([Cleanup], [ListBackups], ...) are
    verified against the laws and the implementations discharge them. *)

From stdpp Require Import base gmap strings list sorting.
From Stdlib Require Import ZArith Lia Ascii.
From S2P Require Import Prelude Progress Ipc.

(** ** Interface: [delete_json], [open_json_bytes], [list_jsons],
    [upload_json_bytes] (resp. [delete_hexdigest], [download_hexdigest_bytes],
    [list_hexdigests], [upload_hexdigest_bytes]). [B] is the type of contents. *)
Record StorageOps (S B : Type) : Type := mkStorageOps {
  st_delete : string → M S unit;
  st_open : string → M S B;
  st_list : M S (list string);
  st_upload : string → B → M S bool;
}.
Arguments st_delete {S B}. Arguments st_open {S B}. Arguments st_list {S B}. Arguments st_upload {S B}.

(** What a storage promises: [st_lookup] is the abstract map, restricted to
    the valid names [st_name] and contents [st_value]. *)
Class StorageSpec {S B : Type} (ops : StorageOps S B) : Type := mkStorageSpec {
  st_inv : S → Prop;
  st_name : string → Prop;
  st_value : B → Prop;
  st_lookup : S → string → option B;
  st_lookup_name s n b : st_inv s → st_lookup s n = Some b → st_name n;
  st_delete_spec s n : st_inv s → st_name n →
    match st_lookup s n with
    | Some _ => ∃ s', st_delete ops n s = (s', Ok tt) ∧ st_inv s' ∧
                  ∀ m, st_lookup s' m = if decide (m = n) then None else st_lookup s m
    | None => ∃ s', st_delete ops n s = (s', Raise NotFoundException) ∧ st_inv s' ∧
                  ∀ m, st_lookup s' m = st_lookup s m
    end;
  st_open_spec s n : st_inv s → st_name n →
    match st_lookup s n with
    | Some b => ∃ s', st_open ops n s = (s', Ok b) ∧ st_inv s' ∧ ∀ m, st_lookup s' m = st_lookup s m
    | None => ∃ s', st_open ops n s = (s', Raise NotFoundException) ∧ st_inv s' ∧
                  ∀ m, st_lookup s' m = st_lookup s m
    end;
  st_list_spec s : st_inv s →
    ∃ s' l, st_list ops s = (s', Ok l) ∧ st_inv s' ∧ (∀ m, st_lookup s' m = st_lookup s m) ∧
            NoDup l ∧ ∀ n, n ∈ l ↔ is_Some (st_lookup s n);
  st_upload_spec s n b : st_inv s → st_name n → st_value b →
    ∃ s', st_upload ops n b s = (s', Ok true) ∧ st_inv s' ∧
          ∀ m, st_lookup s' m = if decide (m = n) then Some b else st_lookup s m;
}.

(** ** Traces: what a client of a storage observes *)
Inductive command (B : Type) : Type :=
| Cdelete (n : string)
| Copen (n : string)
| Clist
| Cupload (n : string) (b : B).
Arguments Cdelete {B}. Arguments Copen {B}. Arguments Clist {B}. Arguments Cupload {B}.

Inductive outcome (B : Type) : Type :=
| Odone (r : res unit)
| Ocontents (r : res B)
| Onames (r : res (list string))
| Ostored (r : res bool).
Arguments Odone {B}. Arguments Ocontents {B}. Arguments Onames {B}. Arguments Ostored {B}.

Definition run_command {S B} (ops : StorageOps S B) (c : command B) (s : S) : S * outcome B :=
  match c with
  | Cdelete n => let '(s', r) := st_delete ops n s in (s', Odone r)
  | Copen n => let '(s', r) := st_open ops n s in (s', Ocontents r)
  | Clist => let '(s', r) := st_list ops s in (s', Onames r)
  | Cupload n b => let '(s', r) := st_upload ops n b s in (s', Ostored r)
  end.

Fixpoint run_commands {S B} (ops : StorageOps S B) (cs : list (command B)) (s : S) : list (outcome B) :=
  match cs with
  | [] => []
  | c :: cs' => let '(s', o) := run_command ops c s in o :: run_commands ops cs' s'
  end.

(** Outcomes are the same up to the order of listed names. *)
Definition same_outcome {B} (o1 o2 : outcome B) : Prop :=
  match o1, o2 with
  | Onames (Ok l1), Onames (Ok l2) => l1 ≡ₚ l2
  | _, _ => o1 = o2
  end.

Section traces.
Context {S1 S2 B : Type} (ops1 : StorageOps S1 B) (ops2 : StorageOps S2 B).
Context `{!StorageSpec ops1} `{!StorageSpec ops2}.

Definition valid_command (c : command B) : Prop :=
  match c with
  | Cdelete n | Copen n => st_name (ops:=ops1) n ∧ st_name (ops:=ops2) n
  | Clist => True
  | Cupload n b => (st_name (ops:=ops1) n ∧ st_name (ops:=ops2) n) ∧
                   st_value (ops:=ops1) b ∧ st_value (ops:=ops2) b
  end.

Definition same_map (s1 : S1) (s2 : S2) : Prop :=
  st_inv (ops:=ops1) s1 ∧ st_inv (ops:=ops2) s2 ∧
  ∀ n, st_lookup (ops:=ops1) s1 n = st_lookup (ops:=ops2) s2 n.

Lemma run_command_same c s1 s2 :
  valid_command c → same_map s1 s2 →
  ∃ s1' s2' o1 o2, run_command ops1 c s1 = (s1', o1) ∧ run_command ops2 c s2 = (s2', o2) ∧
    same_map s1' s2' ∧ same_outcome o1 o2.
Proof.
  intros Hv (Hi1 & Hi2 & Hlk). destruct c as [n|n| |n b]; simpl in Hv |- *.
  - destruct Hv as [Hn1 Hn2]. pose proof (st_delete_spec s1 n Hi1 Hn1) as H1.
    pose proof (st_delete_spec s2 n Hi2 Hn2) as H2. rewrite <- Hlk in H2.
    destruct (st_lookup (ops:=ops1) s1 n); destruct H1 as (s1' & -> & Hi1' & Hl1), H2 as (s2' & -> & Hi2' & Hl2);
      do 4 eexists; (split; [done|]); (split; [done|]); (split; [|done]); (split; [done|]); (split; [done|]);
      intros m; rewrite Hl1, Hl2, Hlk; done.
  - destruct Hv as [Hn1 Hn2]. pose proof (st_open_spec s1 n Hi1 Hn1) as H1.
    pose proof (st_open_spec s2 n Hi2 Hn2) as H2. rewrite <- Hlk in H2.
    destruct (st_lookup (ops:=ops1) s1 n); destruct H1 as (s1' & -> & Hi1' & Hl1), H2 as (s2' & -> & Hi2' & Hl2);
      do 4 eexists; (split; [done|]); (split; [done|]); (split; [|done]); (split; [done|]); (split; [done|]);
      intros m; rewrite Hl1, Hl2, Hlk; done.
  - destruct (st_list_spec s1 Hi1) as (s1' & l1 & -> & Hi1' & Hl1 & Hnd1 & Hel1).
    destruct (st_list_spec s2 Hi2) as (s2' & l2 & -> & Hi2' & Hl2 & Hnd2 & Hel2).
    do 4 eexists; (split; [done|]); (split; [done|]); split.
    + split; [done|]. split; [done|]. intros m. by rewrite Hl1, Hl2.
    + simpl. apply NoDup_Permutation; [done..|]. intros n. by rewrite Hel1, Hel2, Hlk.
  - destruct Hv as [[Hn1 Hn2] [Hb1 Hb2]].
    destruct (st_upload_spec s1 n b Hi1 Hn1 Hb1) as (s1' & -> & Hi1' & Hl1).
    destruct (st_upload_spec s2 n b Hi2 Hn2 Hb2) as (s2' & -> & Hi2' & Hl2).
    do 4 eexists; (split; [done|]); (split; [done|]); (split; [|done]). split; [done|]. split; [done|].
    intros m. by rewrite Hl1, Hl2, Hlk.
Qed.

(** Two storages with the same abstract map cannot be told apart. *)
Lemma run_commands_same cs s1 s2 :
  Forall valid_command cs → same_map s1 s2 →
  Forall2 same_outcome (run_commands ops1 cs s1) (run_commands ops2 cs s2).
Proof.
  intros Hcs. revert s1 s2. induction Hcs as [|c cs Hc Hcs IH]; intros s1 s2 Hs; simpl; [constructor|].
  destruct (run_command_same c s1 s2 Hc Hs) as (s1' & s2' & o1 & o2 & -> & -> & Hs' & Ho).
  constructor; auto.
Qed.
End traces.

(** ** [FileStorage]: a directory of files named [name + suffix] *)
Module FileStorage.

(** [PurePath.stem] and [PurePath.suffix] of a file name: the last dot counts
    unless it is the first or the last character. *)
Fixpoint rsplit_dot (s : string) : option (string * string) :=
  match s with
  | EmptyString => None
  | String c s' =>
      match rsplit_dot s' with
      | Some (a, b) => Some (String c a, b)
      | None => if decide (c = "."%char) then Some (EmptyString, s') else None
      end
  end.

Definition py_suffix (name : string) : string :=
  match rsplit_dot name with
  | Some (a, b) => if decide (a = "" ∨ b = "") then "" else String "." b
  | None => ""
  end.

Definition py_stem (name : string) : string :=
  match rsplit_dot name with
  | Some (a, b) => if decide (a = "" ∨ b = "") then name else a
  | None => name
  end.

Section file_storage.
Context {B : Type} (bytes_empty : B → bool).
(** The suffix is a dot followed by a non-empty extension without dots, as the
    defaults [.json] and [.dat] are. *)
Context (ext : string).

Let suffix : string := String "." ext.

Definition to_path (name : string) : string := name +:+ suffix.

(** [delete_json], [delete_hexdigest] under [file_error_wrapper]: the
    [FileNotFoundError] of [unlink] becomes [NotFoundException]. *)
Definition fs_delete (name : string) : M (gmap string B) unit := λ dir,
  match dir !! to_path name with
  | Some _ => (delete (to_path name) dir, Ok tt)
  | None => (dir, Raise NotFoundException)
  end.

(** [open_json_bytes]: mapping an empty file raises [ValueError]. *)
Definition fs_open (name : string) : M (gmap string B) B := λ dir,
  match dir !! to_path name with
  | Some b => if bytes_empty b then (dir, Raise ValueError) else (dir, Ok b)
  | None => (dir, Raise NotFoundException)
  end.

(** [_list]: [[p.stem for p in self.path.iterdir() if p.suffix == suffix]] *)
Definition fs_list : M (gmap string B) (list string) := λ dir,
  (dir, Ok (py_stem <$> filter (λ f, py_suffix f = suffix) (map_to_list dir).*1)).

Definition fs_upload (name : string) (b : B) : M (gmap string B) bool := λ dir,
  (<[to_path name := b]> dir, Ok true).

Definition file_storage_ops : StorageOps (gmap string B) B :=
  mkStorageOps _ _ fs_delete fs_open fs_list fs_upload.

(** ** Facts *)
Context (ext_nonempty : ext ≠ "") (ext_nodot : rsplit_dot ext = None).

Lemma rsplit_dot_path name : rsplit_dot (to_path name) = Some (name, ext).
Proof using ext_nodot.
  unfold to_path, suffix. induction name as [|c name IH]; simpl.
  - by rewrite ext_nodot.
  - by rewrite IH.
Qed.

Lemma path_parts name : name ≠ "" → py_stem (to_path name) = name ∧ py_suffix (to_path name) = suffix.
Proof using ext_nodot ext_nonempty.
  intros Hn. unfold py_stem, py_suffix. rewrite rsplit_dot_path.
  rewrite !decide_False by tauto. done.
Qed.

Lemma rsplit_dot_join s a b : rsplit_dot s = Some (a, b) → s = a +:+ String "." b.
Proof.
  revert a. induction s as [|c s IH]; intros a; simpl; [done|].
  destruct (rsplit_dot s) as [[a' b']|].
  - intros [= <- <-]. rewrite (IH a' eq_refl) at 1. done.
  - case_decide; [|done]. intros [= <- <-]. by subst.
Qed.

Lemma suffix_inv f : py_suffix f = suffix → f = to_path (py_stem f) ∧ py_stem f ≠ "".
Proof.
  unfold py_suffix, py_stem, to_path, suffix.
  destruct (rsplit_dot f) as [[a b]|] eqn:E; [|done]. apply rsplit_dot_join in E.
  case_decide; [done|]. intros [= ->]. split; [done|tauto].
Qed.

Lemma to_path_inj a b : to_path a = to_path b → a = b.
Proof using ext_nodot.
  intros H. pose proof (rsplit_dot_path a) as Ha. rewrite H, rsplit_dot_path in Ha. congruence.
Qed.

Lemma fs_list_spec (dir : gmap string B) :
  let l := py_stem <$> filter (λ f, py_suffix f = suffix) (map_to_list dir).*1 in
  NoDup l ∧ ∀ n, n ∈ l ↔ n ≠ "" ∧ is_Some (dir !! to_path n).
Proof using ext_nodot ext_nonempty.
  intros l. split.
  - apply NoDup_fmap_2_strong; [|apply NoDup_filter, NoDup_fst_map_to_list].
    intros x y [Hx _]%list_elem_of_filter [Hy _]%list_elem_of_filter Heq.
    apply suffix_inv in Hx as [-> _], Hy as [-> _]. by rewrite Heq.
  - intros n. unfold l. rewrite list_elem_of_fmap. split.
    + intros (f & -> & [Hf (p & -> & Hp)%list_elem_of_fmap]%list_elem_of_filter).
      destruct (suffix_inv _ Hf) as [Heq Hne]. split; [done|]. rewrite <- Heq.
      destruct p as [k v]. apply elem_of_map_to_list in Hp. by exists v.
    + intros [Hn [b Hb]]. destruct (path_parts n Hn) as [H1 H2]. exists (to_path n).
      split; [done|]. apply list_elem_of_filter. split; [done|].
      apply list_elem_of_fmap. exists (to_path n, b). split; [done|]. by apply elem_of_map_to_list.
Qed.

#[global] Program Instance file_storage_spec : StorageSpec file_storage_ops := {|
  st_inv dir := ∀ f b, dir !! f = Some b → bytes_empty b = false;
  st_name n := n ≠ "";
  st_value b := bytes_empty b = false;
  st_lookup dir n := if decide (n = "") then None else dir !! to_path n;
|}.
Next Obligation. intros s n b _ H. simpl in *. by case_decide. Qed.
Next Obligation.
  intros s n Hinv Hn. simpl in *. rewrite decide_False by done. unfold fs_delete.
  destruct (s !! to_path n) as [b|] eqn:E; eexists; (split; [done|]); (split; [|intros m]).
  - intros f b' [_ Hf]%lookup_delete_Some. eauto.
  - case_decide; [by case_decide|]. destruct (decide (m = n)) as [->|Hne].
    + by rewrite lookup_delete_eq.
    + rewrite lookup_delete_ne; [done|]. intros ?%to_path_inj. by subst.
  - done.
  - done.
Qed.
Next Obligation.
  intros s n Hinv Hn. simpl in *. rewrite decide_False by done. unfold fs_open.
  destruct (s !! to_path n) as [b|] eqn:E; [|by eexists].
  rewrite (Hinv _ _ E). by eexists.
Qed.
Next Obligation.
  intros s Hinv. simpl in *. eexists s, _. split; [done|]. split; [done|]. split; [done|].
  destruct (fs_list_spec s) as [Hnd Hl]. split; [done|]. intros n. rewrite Hl.
  case_decide as Hn; [|naive_solver]. subst. split; [tauto|]. by intros [? ?].
Qed.
Next Obligation.
  intros s n b Hinv Hn Hb. simpl in *. eexists. split; [done|]. split.
  - intros f b' [[_ <-]|[_ Hf]]%lookup_insert_Some; eauto.
  - intros m. case_decide as Hm.
    + subst. by rewrite decide_False.
    + destruct (decide (m = n)) as [->|Hne]; [by rewrite lookup_insert_eq|].
      rewrite lookup_insert_ne; [done|]. intros ?%to_path_inj. by subst.
Qed.
End file_storage.

(** The two name spaces of [FileStorage]: [.json] and [.dat].  Only the json
    reader maps the file, so only it refuses an empty one. *)
Definition json_ops {B} (bytes_empty : B → bool) : StorageOps (gmap string B) B :=
  file_storage_ops bytes_empty "json".
Definition hexdigest_ops {B} : StorageOps (gmap string B) B :=
  file_storage_ops (λ _, false) "dat".

#[global] Instance json_spec {B} (bytes_empty : B → bool) : StorageSpec (json_ops bytes_empty).
Proof. by apply file_storage_spec. Defined.
#[global] Instance hexdigest_spec {B} : StorageSpec (@hexdigest_ops B).
Proof. by apply file_storage_spec. Defined.
End FileStorage.

(** ** [CachingJsonStorage]: a backend and a local cache *)
Module CachingJsonStorage.

Record state (SB SC : Type) : Type := mkState {
  backend_storage : SB;
  cache_storage : SC;
  backend_json_set_cache : option (gset string);
  backend_json_list : option (list string);
}.
Arguments mkState {SB SC}. Arguments backend_storage {SB SC}. Arguments cache_storage {SB SC}.
Arguments backend_json_set_cache {SB SC}. Arguments backend_json_list {SB SC}.

Section caching.
Context {SB SC B : Type} (bops : StorageOps SB B) (cops : StorageOps SC B).
Local Notation ST := (state SB SC).

Definition on_backend {A} (m : M SB A) : M ST A :=
  zoom backend_storage (λ b s, mkState b (cache_storage s) (backend_json_set_cache s) (backend_json_list s)) m.
Definition on_cache {A} (m : M SC A) : M ST A :=
  zoom cache_storage (λ c s, mkState (backend_storage s) c (backend_json_set_cache s) (backend_json_list s)) m.
Definition set_lists (x : option (gset string)) (l : option (list string)) : M ST unit :=
  modify (λ s, mkState (backend_storage s) (cache_storage s) x l).

(** [_backend_json_set] *)
Definition backend_json_set : M ST (gset string) :=
  s ← get;
  match backend_json_set_cache s with
  | Some x => mret x
  | None =>
      l ← on_backend (st_list bops);
      set_lists (Some (list_to_set l)) (backend_json_list s) ;; mret (list_to_set l)
  end.

Definition backend_json_set_add (x : string) : M ST unit :=
  X ← backend_json_set; set_lists (Some ({[x]} ∪ X)) None.

(** [set.remove] raises [KeyError] on a missing element. *)
Definition backend_json_set_remove (x : string) : M ST unit :=
  X ← backend_json_set;
  if decide (x ∈ X) then set_lists (Some (X ∖ {[x]})) None else raise KeyError.

Definition is_not_found (e : exn) : bool := bool_decide (e = NotFoundException).

Definition delete_json (name : string) : M ST unit :=
  X ← backend_json_set;
  if decide (name ∈ X) then
    try_except (on_cache (st_delete cops name)) is_not_found (λ _, mret tt) ;;
    on_backend (st_delete bops name) ;;
    backend_json_set_remove name
  else raise NotFoundException.

Definition open_json_bytes (name : string) : M ST B :=
  X ← backend_json_set;
  if decide (name ∈ X) then
    try_except (on_cache (st_open cops name)) is_not_found (λ _,
      b ← on_backend (st_open bops name);
      on_cache (st_upload cops name b) ;;
      on_cache (st_open cops name))
  else raise NotFoundException.

Definition list_jsons : M ST (list string) :=
  s ← get;
  match backend_json_list s with
  | Some l => mret l
  | None =>
      X ← backend_json_set;
      let l := py_sorted str_leb (elements X) in
      set_lists (Some X) (Some l) ;; mret l
  end.

Definition upload_json_bytes (name : string) (data : B) : M ST bool :=
  on_cache (st_upload cops name data) ;;
  on_backend (st_upload bops name data) ;;
  backend_json_set_add name ;;
  mret true.

Definition caching_ops : StorageOps ST B :=
  mkStorageOps _ _ delete_json open_json_bytes list_jsons upload_json_bytes.

(** *** Correctness: the caching storage is the backend, as a map *)
Context `{!StorageSpec bops} `{!StorageSpec cops}.

(** What both storages accept. *)
Definition both_name (n : string) : Prop := st_name (ops:=bops) n ∧ st_name (ops:=cops) n.
Definition both_value (b : B) : Prop := st_value (ops:=bops) b ∧ st_value (ops:=cops) b.

Definition set_coherent (sb : SB) (X : gset string) : Prop :=
  ∀ n, n ∈ X ↔ is_Some (st_lookup (ops:=bops) sb n).

(** The module's documented assumption: a name that both storages have, has
    the same contents in both (backups are immutable). *)
Definition coherent (s : ST) : Prop :=
  st_inv (ops:=bops) (backend_storage s) ∧ st_inv (ops:=cops) (cache_storage s) ∧
  (∀ n b, st_lookup (ops:=bops) (backend_storage s) n = Some b → both_name n ∧ both_value b) ∧
  (∀ n b c, st_lookup (ops:=bops) (backend_storage s) n = Some b →
            st_lookup (ops:=cops) (cache_storage s) n = Some c → c = b) ∧
  (∀ X, backend_json_set_cache s = Some X → set_coherent (backend_storage s) X) ∧
  (∀ l, backend_json_list s = Some l →
        NoDup l ∧ ∀ n, n ∈ l ↔ is_Some (st_lookup (ops:=bops) (backend_storage s) n)).

Definition lookup_caching (s : ST) (n : string) : option B := st_lookup (ops:=bops) (backend_storage s) n.

Lemma backend_json_set_spec s :
  coherent s →
  ∃ s' X, backend_json_set s = (s', Ok X) ∧ coherent s' ∧ backend_json_set_cache s' = Some X ∧
          set_coherent (backend_storage s') X ∧ cache_storage s' = cache_storage s ∧
          ∀ n, lookup_caching s' n = lookup_caching s n.
Proof.
  intros Hc. destruct s as [sb sc [X|] lc]; pose proof Hc as (Hib & Hic & Hn & Hv & HX & Hl); simpl in *.
  { exists (mkState sb sc (Some X) lc), X. do 3 (split; [done|]). split; [by apply HX|done]. }
  destruct (st_list_spec sb Hib) as (sb' & l & Hrun & Hib' & Hlk & Hnd & Hel).
  exists (mkState sb' sc (Some (list_to_set l)) lc), (list_to_set l).
  assert (set_coherent sb' (list_to_set l)) as Hset.
  { intros n. by rewrite elem_of_list_to_set, Hel, Hlk. }
  split; [|split; [|done]].
  { unfold backend_json_set. erewrite bind_ok by done. simpl.
    erewrite bind_ok by (unfold on_backend, zoom; simpl; by rewrite Hrun). done. }
  split; [done|]. split; [done|]. simpl. split; [|split; [|split]].
  - intros n b. rewrite Hlk. apply Hn.
  - intros n b c. rewrite Hlk. apply Hv.
  - intros X [= <-]. done.
  - intros l' Hl'. destruct (Hl l' Hl') as [Hnd' Hel']. split; [done|]. intros n. by rewrite Hlk.
Qed.

Lemma on_backend_run {A} (m : M SB A) s sb r :
  m (backend_storage s) = (sb, r) →
  on_backend m s = (mkState sb (cache_storage s) (backend_json_set_cache s) (backend_json_list s), r).
Proof. intros H. unfold on_backend, zoom. by rewrite H. Qed.

Lemma on_cache_run {A} (m : M SC A) s sc r :
  m (cache_storage s) = (sc, r) →
  on_cache m s = (mkState (backend_storage s) sc (backend_json_set_cache s) (backend_json_list s), r).
Proof. intros H. unfold on_cache, zoom. by rewrite H. Qed.

(** Replacing the cache by one that holds no more than the backend does. *)
Lemma coherent_cache sb sc sc' x l :
  coherent (mkState sb sc x l) → st_inv (ops:=cops) sc' →
  (∀ n b c, st_lookup (ops:=bops) sb n = Some b → st_lookup (ops:=cops) sc' n = Some c → c = b) →
  coherent (mkState sb sc' x l).
Proof. intros (? & ? & ? & ? & ? & ?) ? ?. repeat (split; [done|]). done. Qed.

Lemma set_coherent_elem sb X n b :
  set_coherent sb X → st_lookup (ops:=bops) sb n = Some b → n ∈ X.
Proof. intros HX H. apply HX. eauto. Qed.

Lemma set_coherent_not_elem sb X n :
  set_coherent sb X → st_lookup (ops:=bops) sb n = None → n ∉ X.
Proof. intros HX H Hin. apply HX in Hin as [b Hb]. congruence. Qed.

(** Ignoring the missing cache entry, the cache forgets the name. *)
Lemma cache_forget s n :
  st_inv (ops:=cops) (cache_storage s) → st_name (ops:=cops) n →
  ∃ sc, try_except (on_cache (st_delete cops n)) is_not_found (λ _, mret tt) s =
          (mkState (backend_storage s) sc (backend_json_set_cache s) (backend_json_list s), Ok tt) ∧
        st_inv (ops:=cops) sc ∧
        ∀ m, st_lookup (ops:=cops) sc m = if decide (m = n) then None else st_lookup (ops:=cops) (cache_storage s) m.
Proof.
  intros Hi Hn. pose proof (st_delete_spec (ops:=cops) (cache_storage s) n Hi Hn) as H.
  destruct (st_lookup (ops:=cops) (cache_storage s) n) as [c|] eqn:E; destruct H as (sc & Hrun & Hi' & Hlk);
    exists sc; unfold try_except; rewrite (on_cache_run _ _ _ _ Hrun); (split; [done|]); (split; [done|]).
  - done.
  - intros m. rewrite Hlk. case_decide; congruence.
Qed.

Lemma delete_json_spec s n :
  coherent s → both_name n →
  match lookup_caching s n with
  | Some _ => ∃ s', delete_json n s = (s', Ok tt) ∧ coherent s' ∧
                ∀ m, lookup_caching s' m = if decide (m = n) then None else lookup_caching s m
  | None => ∃ s', delete_json n s = (s', Raise NotFoundException) ∧ coherent s' ∧
                ∀ m, lookup_caching s' m = lookup_caching s m
  end.
Proof.
  intros Hc [Hnb Hnc]. destruct (backend_json_set_spec s Hc) as (s1 & X & Hrun & Hc1 & HX1 & HX & _ & Hlk).
  unfold delete_json. rewrite (bind_ok _ _ _ _ _ Hrun). rewrite <- (Hlk n). unfold lookup_caching at 1.
  destruct s1 as [sb sc x l]. simpl in *. subst x.
  destruct (st_lookup (ops:=bops) sb n) as [b|] eqn:Eb.
  2: { rewrite decide_False by (by eapply set_coherent_not_elem). eexists. split; [done|]. by split. }
  rewrite decide_True by (by eapply set_coherent_elem).
  destruct Hc1 as (Hib & Hic & Hn & Hv & _ & _). simpl in *.
  destruct (cache_forget (mkState sb sc (Some X) l) n Hic Hnc) as (sc' & Hdc & Hic' & Hlc).
  pose proof (st_delete_spec (ops:=bops) sb n Hib Hnb) as Hd. rewrite Eb in Hd.
  destruct Hd as (sb' & Hdb & Hib' & Hlb).
  rewrite (bind_ok _ _ _ _ _ Hdc). simpl. erewrite bind_ok by (by eapply on_backend_run). simpl.
  unfold backend_json_set_remove. erewrite bind_ok by done. simpl.
  rewrite decide_True by (by eapply set_coherent_elem).
  eexists. split; [done|]. split.
  - split; [done|]. split; [done|]. simpl. split; [|split; [|split; [|done]]].
    + intros m c. rewrite Hlb. case_decide; [done|]. apply Hn.
    + intros m c d. rewrite Hlb, Hlc. case_decide; [done|]. apply Hv.
    + intros Y [= <-] m. rewrite Hlb, elem_of_difference, elem_of_singleton, (HX m).
      case_decide; [|naive_solver]. subst. split; [naive_solver|]. by intros [? ?].
  - intros m. unfold lookup_caching at 1. simpl. rewrite Hlb. case_decide; [done|]. apply Hlk.
Qed.

Lemma open_json_bytes_spec s n :
  coherent s → both_name n →
  match lookup_caching s n with
  | Some b => ∃ s', open_json_bytes n s = (s', Ok b) ∧ coherent s' ∧ ∀ m, lookup_caching s' m = lookup_caching s m
  | None => ∃ s', open_json_bytes n s = (s', Raise NotFoundException) ∧ coherent s' ∧
                ∀ m, lookup_caching s' m = lookup_caching s m
  end.
Proof.
  intros Hc [Hnb Hnc]. destruct (backend_json_set_spec s Hc) as (s1 & X & Hrun & Hc1 & HX1 & HX & _ & Hlk).
  unfold open_json_bytes. rewrite (bind_ok _ _ _ _ _ Hrun). rewrite <- (Hlk n). unfold lookup_caching at 1.
  destruct s1 as [sb sc x l]. simpl in *. subst x.
  destruct (st_lookup (ops:=bops) sb n) as [b|] eqn:Eb.
  2: { rewrite decide_False by (by eapply set_coherent_not_elem). eexists. split; [done|]. by split. }
  rewrite decide_True by (by eapply set_coherent_elem).
  pose proof Hc1 as (Hib & Hic & Hn & Hv & HXX & Hll). simpl in *.
  pose proof (st_open_spec (ops:=cops) sc n Hic Hnc) as Ho. unfold try_except.
  destruct (st_lookup (ops:=cops) sc n) as [c|] eqn:Ec; destruct Ho as (sc1 & Ho & Hic1 & Hlc1);
    erewrite on_cache_run by done; simpl.
  - rewrite (Hv _ _ _ Eb Ec). eexists. split; [done|]. split; [|done].
    eapply coherent_cache; [done..|]. intros m b' c'. rewrite Hlc1. apply Hv.
  - pose proof (st_open_spec (ops:=bops) sb n Hib Hnb) as Hb. rewrite Eb in Hb.
    destruct Hb as (sb1 & Hb & Hib1 & Hlb1). erewrite bind_ok by (by eapply on_backend_run). simpl.
    destruct (Hn _ _ Eb) as [_ [_ Hvc]].
    destruct (st_upload_spec (ops:=cops) sc1 n b Hic1 Hnc Hvc) as (sc2 & Hu & Hic2 & Hlc2).
    erewrite bind_ok by (by eapply on_cache_run). simpl.
    pose proof (st_open_spec (ops:=cops) sc2 n Hic2 Hnc) as Hr. rewrite Hlc2, decide_True in Hr by done.
    destruct Hr as (sc3 & Hr & Hic3 & Hlc3). erewrite on_cache_run by done. simpl.
    eexists. split; [done|]. split; [|intros m; unfold lookup_caching at 1; simpl; by rewrite Hlb1, <- (Hlk m)].
    split; [done|]. split; [done|]. simpl. split; [|split; [|split]].
    + intros m c. rewrite Hlb1. apply Hn.
    + intros m c d. rewrite Hlb1, Hlc3, Hlc2, Hlc1. case_decide; [|apply Hv]. subst. congruence.
    + intros Y HY m. rewrite Hlb1. by apply HXX.
    + intros k Hk. destruct (Hll k Hk) as [Hnd Hel]. split; [done|]. intros m. rewrite Hlb1. apply Hel.
Qed.

Lemma list_jsons_spec s :
  coherent s →
  ∃ s' l, list_jsons s = (s', Ok l) ∧ coherent s' ∧ (∀ m, lookup_caching s' m = lookup_caching s m) ∧
          NoDup l ∧ ∀ n, n ∈ l ↔ is_Some (lookup_caching s n).
Proof.
  intros Hc. unfold list_jsons. erewrite bind_ok by done.
  destruct (backend_json_list s) as [l|] eqn:El.
  { pose proof Hc as (_ & _ & _ & _ & _ & Hl). destruct (Hl l El) as [Hnd Hel]. by exists s, l. }
  destruct (backend_json_set_spec s Hc) as (s1 & X & Hrun & Hc1 & HX1 & HX & _ & Hlk).
  rewrite (bind_ok _ _ _ _ _ Hrun). simpl. do 2 eexists. split; [done|].
  assert (NoDup (py_sorted str_leb (elements X))) as Hnd.
  { rewrite py_sorted_Permutation. apply NoDup_elements. }
  assert (∀ n, n ∈ py_sorted str_leb (elements X) ↔ is_Some (lookup_caching s1 n)) as Hel.
  { intros n. rewrite elem_of_py_sorted, elem_of_elements. apply HX. }
  split; [|split; [done|]]; [|split; [done|]; intros n; by rewrite Hel, Hlk].
  destruct Hc1 as (? & ? & ? & ? & ? & ?). do 4 (split; [done|]). simpl.
  split; [by intros Y [= <-]|]. by intros l [= <-].
Qed.

Lemma upload_json_bytes_spec s n b :
  coherent s → both_name n → both_value b →
  ∃ s', upload_json_bytes n b s = (s', Ok true) ∧ coherent s' ∧
        ∀ m, lookup_caching s' m = if decide (m = n) then Some b else lookup_caching s m.
Proof.
  intros Hc [Hnb Hnc] [Hvb Hvc]. pose proof Hc as (Hib & Hic & Hn & Hv & HX & Hl).
  destruct (st_upload_spec (ops:=cops) (cache_storage s) n b Hic Hnc Hvc) as (sc & Huc & Hic' & Hlc).
  destruct (st_upload_spec (ops:=bops) (backend_storage s) n b Hib Hnb Hvb) as (sb & Hub & Hib' & Hlb).
  unfold upload_json_bytes. erewrite bind_ok by (by eapply on_cache_run).
  erewrite bind_ok by (by eapply on_backend_run). simpl.
  unfold backend_json_set_add, backend_json_set.
  assert (∀ sb' X, st_inv (ops:=bops) sb' →
    (∀ m, st_lookup (ops:=bops) sb' m = st_lookup (ops:=bops) sb m) →
    set_coherent sb ({[n]} ∪ X) →
    coherent (mkState sb' sc (Some ({[n]} ∪ X)) None) ∧
    ∀ m, st_lookup (ops:=bops) sb' m = if decide (m = n) then Some b else lookup_caching s m) as Hfin.
  { intros sb' X Hi' Hlb' HY. split; [|intros m; by rewrite Hlb', Hlb].
    split; [done|]. split; [done|]. simpl. split; [|split; [|split; [|done]]].
    - intros m c. rewrite Hlb', Hlb. case_decide; [intros [= ->]; subst; by split|apply Hn].
    - intros m c d. rewrite Hlb', Hlb, Hlc. case_decide; [congruence|apply Hv].
    - intros Z [= <-] m. by rewrite (HY m), Hlb'. }
  destruct (backend_json_set_cache s) as [X|] eqn:EX.
  - eexists. split; [done|]. apply Hfin; [done|done|]. intros m.
    rewrite elem_of_union, elem_of_singleton, (HX X eq_refl m), Hlb. case_decide; naive_solver.
  - destruct (st_list_spec sb Hib') as (sb' & l & Hrun & Hib2 & Hlk & Hnd & Hel).
    eexists. split.
    { unfold mbind, M_bind, get, on_backend, zoom. simpl. by rewrite Hrun. }
    apply Hfin; [done|done|]. intros m.
    rewrite elem_of_union, elem_of_singleton, elem_of_list_to_set, (Hel m), Hlb. case_decide; naive_solver.
Qed.

#[global] Program Instance caching_spec : StorageSpec caching_ops := {|
  st_inv := coherent; st_name := both_name; st_value := both_value; st_lookup := lookup_caching;
|}.
Next Obligation. intros s n b (_ & _ & Hn & _) H. by apply Hn in H as [? _]. Qed.
Next Obligation. apply delete_json_spec. Qed.
Next Obligation. apply open_json_bytes_spec. Qed.
Next Obligation. apply list_jsons_spec. Qed.
Next Obligation. apply upload_json_bytes_spec. Qed.

(** C25: Refinement: a client that deletes, opens, lists and uploads through the
    caching storage observes, operation by operation, errors included, what it
    would observe on the backend alone (names up to order), whatever part of
    the backend the cache and the two memoised listings already hold. *)
Theorem caching_storage_refines_backend (cs : list (command B)) (s : ST) :
  coherent s → Forall (valid_command caching_ops bops) cs →
  Forall2 same_outcome (run_commands caching_ops cs s) (run_commands bops cs (backend_storage s)).
Proof.
  intros Hc Hcs. apply run_commands_same with (ops1 := caching_ops) (ops2 := bops) (1 := Hcs).
  split; [done|]. split; [apply Hc|]. done.
Qed.
End caching.

(** A file storage cached in another: one backup the cache has not seen. *)
Definition example_ops : StorageOps (gmap string string) string :=
  FileStorage.json_ops (λ b, bool_decide (b = "")).
Definition example_state : state (gmap string string) (gmap string string) :=
  mkState {["backup-1.json" := "one"]} ∅ None None.
Definition example_commands : list (command string) :=
  [Copen "backup-1"; Clist; Cupload "backup-2" "two"; Copen "backup-2"; Cdelete "backup-1"; Copen "backup-1"; Clist].

Lemma example_coherent : coherent example_ops example_ops example_state.
Proof.
  split; [|split; [|split; [|split; [|split]]]]; simpl.
  - intros f b [_ <-]%lookup_singleton_Some. done.
  - intros f b Hf. by rewrite lookup_empty in Hf.
  - intros n b. unfold both_name, both_value. simpl. case_decide; [done|].
    intros [_ <-]%lookup_singleton_Some. done.
  - intros n b c _. case_decide; [done|]. by rewrite lookup_empty.
  - done.
  - done.
Qed.

Lemma caching_storage_refines_backend_witness :
  Forall2 same_outcome (run_commands (caching_ops example_ops example_ops) example_commands example_state)
    (run_commands example_ops example_commands {["backup-1.json" := "one"]}) ∧
  run_commands (caching_ops example_ops example_ops) example_commands example_state =
    [Ocontents (Ok "one"); Onames (Ok ["backup-1"]); Ostored (Ok true); Ocontents (Ok "two"); Odone (Ok tt);
     Ocontents (Raise NotFoundException); Onames (Ok ["backup-2"])].
Proof.
  split; [|vm_compute; reflexivity].
  apply (caching_storage_refines_backend example_ops example_ops example_commands example_state example_coherent).
  repeat constructor; done.
Defined.
End CachingJsonStorage.

(** ** [CacheClearingJsonStorage]: any write drops the coordinator's cached
    list response, even when the write fails. *)
Module CacheClearingJsonStorage.

Section clearing.
Context {S B R : Type} (ops : StorageOps S B).

(** The second component is [state.cached_list_response]. *)
Definition on_storage {A} (m : M S A) : M (S * option R) A :=
  zoom fst (λ s st, (s, snd st)) m.
Definition clear_cached (st : S * option R) : S * option R := (fst st, None).

Definition delete_json (name : string) : M (S * option R) unit :=
  try_finally (on_storage (st_delete ops name)) clear_cached.
Definition open_json_bytes (name : string) : M (S * option R) B := on_storage (st_open ops name).
Definition list_jsons : M (S * option R) (list string) := on_storage (st_list ops).
Definition upload_json_bytes (name : string) (data : B) : M (S * option R) bool :=
  try_finally (on_storage (st_upload ops name data)) clear_cached.

Definition clearing_ops : StorageOps (S * option R) B :=
  mkStorageOps _ _ delete_json open_json_bytes list_jsons upload_json_bytes.

Lemma on_storage_run {A} (m : M S A) st s r :
  m (fst st) = (s, r) → on_storage m st = ((s, snd st), r).
Proof. intros H. unfold on_storage, zoom. by rewrite H. Qed.

Lemma try_finally_run {A} (m : M S A) st s r :
  m (fst st) = (s, r) → try_finally (on_storage m) clear_cached st = ((s, None), r).
Proof. intros H. unfold try_finally. by rewrite (on_storage_run _ _ _ _ H). Qed.

Context `{!StorageSpec ops}.

#[global] Program Instance clearing_spec : StorageSpec clearing_ops := {|
  st_inv st := st_inv (ops:=ops) (fst st); st_name := st_name (ops:=ops); st_value := st_value (ops:=ops);
  st_lookup st := st_lookup (ops:=ops) (fst st);
|}.
Next Obligation. intros st n b. apply st_lookup_name. Qed.
Next Obligation.
  intros st n Hi Hn. pose proof (st_delete_spec (fst st) n Hi Hn) as H. simpl in *. unfold delete_json.
  destruct (st_lookup (fst st) n); destruct H as (s & Hrun & ?); exists (s, None);
    by rewrite (try_finally_run _ _ _ _ Hrun).
Qed.
Next Obligation.
  intros st n Hi Hn. pose proof (st_open_spec (fst st) n Hi Hn) as H. simpl in *. unfold open_json_bytes.
  destruct (st_lookup (fst st) n); destruct H as (s & Hrun & ?); exists (s, snd st);
    by rewrite (on_storage_run _ _ _ _ Hrun).
Qed.
Next Obligation.
  intros st Hi. destruct (st_list_spec (fst st) Hi) as (s & l & Hrun & H). exists (s, snd st), l.
  simpl. unfold list_jsons. by rewrite (on_storage_run _ _ _ _ Hrun).
Qed.
Next Obligation.
  intros st n b Hi Hn Hb. destruct (st_upload_spec (fst st) n b Hi Hn Hb) as (s & Hrun & H).
  exists (s, None). simpl. unfold upload_json_bytes. by rewrite (try_finally_run _ _ _ _ Hrun).
Qed.
End clearing.
End CacheClearingJsonStorage.
