(* ===== verification/Op.v ===== *)
(** * Background operations ([common/op.py])

    [Op], [Op.Info], [OpState] and [OpMixin]: the status machine of an
    operation, the allocation of identifiers and the wrapper that runs an
    operation in the background.  The last part of the file interleaves any
    number of operations, as the event loop does, and proves that the status
    reported for the current operation follows its life cycle. *)

From stdpp Require Import base gmap strings list.
From Stdlib Require Import ZArith Lia.
From S2P Require Import Prelude.

Local Open Scope Z_scope.

Module Op.

Inductive Status : Type := starting | running | fail | done_.
#[global] Instance Status_eq_dec : EqDecision Status. Proof. solve_decision. Defined.

Record Info : Type := mkInfo {
  op_id : Z;
  op_name : string;
  op_status : option Status;
}.

Record StartResult : Type := mkStartResult {
  start_op_id : Z;
  status_url : string;
}.

(** [OpState]; an [Op] object is identified by the [op_id] given to it. *)
Record OpState : Type := mkOpState {
  op_info : Info;
  op : option Z;
  next_op_id : Z;
}.

Definition initial : OpState := mkOpState (mkInfo 0 "" None) None 1.

Definition with_status (s : Status) (st : OpState) : OpState :=
  mkOpState (mkInfo (op_id (op_info st)) (op_name (op_info st)) (Some s)) (op st) (next_op_id st).

Definition check_op_id (self : Z) : M OpState unit :=
  st ← get;
  if decide (op_id (op_info st) = self) then mret tt else raise ExpiredOperationException.

Definition set_status (self : Z) (status : Status) (from_status : option Status) : M OpState bool :=
  py_assert (negb (self =? 0)) ;;
  check_op_id self ;;
  st ← get;
  if decide (is_Some from_status ∧ from_status ≠ op_status (op_info st)) then mret false
  else if decide (op_status (op_info st) = Some status) then mret false
  else modify (with_status status) ;; mret true.

(** [set_status] is called on [self], whose class may override it: [NodeOp] and
    [LockedCoordinatorOp] do.  An instance is the method of one class. *)
Class StatusSetter (W : Type) : Type := class_set_status : Z → Status → option Status → M W bool.
#[global] Instance base_setter : StatusSetter OpState := set_status.

(** The statistics counter increased by [set_status_fail] is not modelled. *)
Definition set_status_fail {W : Type} {H : StatusSetter W} (self : Z) : M W unit :=
  class_set_status self fail None ;; mret tt.

Definition allocate_op_id : M OpState Z :=
  st ← get;
  modify (λ st, mkOpState (op_info st) (op st) (next_op_id st + 1)) ;;
  mret (next_op_id st).

(** [start_op] up to the scheduling of the background task; the status URL is
    built from the parts of the request URL by [urlunsplit]. *)
Definition begin_op (self : Z) (name : string) : M OpState unit :=
  modify (λ st, mkOpState (mkInfo self name (op_status (op_info st))) (Some self) (next_op_id st)).

Definition start_op (make_url : Z → string) (self : Z) (name : string) : M OpState StartResult :=
  begin_op self name ;;
  set_status self starting None ;;
  mret (mkStartResult self (make_url self)).

Definition is_expired (e : exn) : bool := bool_decide (e = ExpiredOperationException).
Definition is_cancelled (e : exn) : bool := bool_decide (e = CancelledError).

(** [contextlib.suppress(ExpiredOperationException)] around [set_status_fail] *)
Definition suppressed_fail {W : Type} {H : StatusSetter W} (self : Z) : M W unit :=
  try_except (set_status_fail self) is_expired (λ _, mret tt).

Definition get_op_and_op_info (id : Z) (name : option string) : M OpState (option Z * Info) :=
  st ← get;
  let info := op_info st in
  let other_name := match name with Some n => bool_decide (n ≠ "" ∧ n ≠ op_name info) | None => false end in
  if negb (id =? op_id info) || other_name then raise (HTTPException 404) else mret (op st, info).

(** *** What [set_status] does on each branch *)
Lemma set_status_run self status from st :
  self ≠ 0 →
  set_status self status from st =
  if decide (op_id (op_info st) = self) then
    if decide ((from = None ∨ from = op_status (op_info st)) ∧ op_status (op_info st) ≠ Some status)
    then (with_status status st, Ok true) else (st, Ok false)
  else (st, Raise ExpiredOperationException).
Proof.
  intros Hs. unfold set_status. assert ((self =? 0) = false) as -> by by apply Z.eqb_neq.
  unfold check_op_id, get, modify, mbind, M_bind, mret, M_ret, py_assert. simpl.
  destruct (decide (op_id (op_info st) = self)); [|done].
  destruct (decide (is_Some from ∧ _)) as [[[x ->] Hne]|Hn].
  { rewrite decide_False; [done|]. intros [[?|?] _]; done. }
  destruct (decide (op_status (op_info st) = Some status)) as [He|He].
  { rewrite decide_False; [done|tauto]. }
  rewrite decide_True; [done|]. split; [|done].
  destruct from as [x|]; [right|by left]. destruct (decide (Some x = op_status (op_info st))); [done|].
  exfalso. apply Hn. split; [eauto|done].
Qed.

Lemma suppressed_fail_run self st :
  self ≠ 0 →
  suppressed_fail self st =
  ((if decide (op_id (op_info st) = self ∧ op_status (op_info st) ≠ Some fail) then with_status fail st else st), Ok tt).
Proof.
  intros Hs. unfold suppressed_fail, try_except, set_status_fail, class_set_status, base_setter, mbind, M_bind.
  rewrite set_status_run by done. destruct (decide (op_id (op_info st) = self)) as [H|H].
  - rewrite (decide_ext _ (op_id (op_info st) = self ∧ op_status (op_info st) ≠ Some fail)) by tauto.
    by destruct (decide (op_id (op_info st) = self ∧ _)).
  - rewrite decide_False by tauto. done.
Qed.

(** ** The background wrappers *)
Section wrappers.
Context {W : Type} {H : StatusSetter W}.

(** [_async_wrapper]: a cancellation is swallowed after the status is set. *)
Definition async_wrapper (self : Z) (fun_ : M W unit) : M W unit :=
  try_except
    (class_set_status self running None ;; fun_ ;;
     class_set_status self done_ (Some running) ;; mret tt)
    (λ _, true)
    (λ e, if is_expired e then mret tt
          else if is_cancelled e then suppressed_fail self
          else suppressed_fail self ;; raise e).

(** [_sync_wrapper]: [CancelledError] is not an [Exception] and passes. *)
Definition sync_wrapper (self : Z) (fun_ : M W unit) : M W unit :=
  try_except
    (class_set_status self running None ;; fun_ ;;
     class_set_status self done_ (Some running) ;; mret tt)
    (λ e, negb (is_cancelled e))
    (λ e, if is_expired e then mret tt
          else suppressed_fail self ;; raise e).
End wrappers.

(** Status after the wrapped function returned [r] in state [st]. *)
Definition wrapper_status (self : Z) (st : OpState) (r : res unit) : option Status :=
  if decide (op_id (op_info st) = self) then
    match r with
    | Ok _ => if decide (op_status (op_info st) = Some running) then Some done_ else op_status (op_info st)
    | Raise e => if is_expired e then op_status (op_info st) else Some fail
    end
  else op_status (op_info st).

Lemma set_status_next self status from st : next_op_id (fst (set_status self status from st)) = next_op_id st.
Proof.
  destruct (decide (self = 0)) as [->|Hs]; [done|]. rewrite set_status_run by done. by repeat case_decide.
Qed.

(** *** What an override must respect

    The state [os w] of the operations changes as [Op.set_status] changes it,
    and only a transition to [fail] may raise something of its own. *)
Class SetterLaw {W : Type} (os : W → OpState) (H : StatusSetter W) : Prop := setter_law self status from w :
  os (fst (class_set_status self status from w)) = fst (set_status self status from (os w)) ∧
  (snd (class_set_status self status from w) = snd (set_status self status from (os w)) ∨
   status = fail ∧ ∃ e, snd (class_set_status self status from w) = Raise e ∧ is_expired e = false).

Section wrapper_laws.
Context {W : Type} (os : W → OpState) {H : StatusSetter W} {HL : SetterLaw os H}.

Lemma class_set_status_run self status from w s r :
  status ≠ fail → set_status self status from (os w) = (s, r) →
  ∃ w', class_set_status self status from w = (w', r) ∧ os w' = s.
Proof using HL.
  intros Hne E. pose proof (setter_law self status from w) as [H1 [H2|[? _]]]; [|done]. rewrite E in H1, H2.
  destruct (class_set_status self status from w) as [w' r'] eqn:Ec. simpl in *. subst. eauto.
Qed.

Lemma class_suppressed_fail_run self w :
  self ≠ 0 →
  ∃ w' r, suppressed_fail self w = (w', r) ∧
    os w' = (if decide (op_id (op_info (os w)) = self ∧ op_status (op_info (os w)) ≠ Some fail)
             then with_status fail (os w) else os w) ∧
    (r = Ok tt ∨ ∃ e, snd (class_set_status self fail None w) = Raise e ∧ is_expired e = false ∧ r = Raise e).
Proof using HL.
  intros Hs. pose proof (setter_law self fail None w) as [H1 H2]. rewrite set_status_run in H1, H2 by done.
  unfold suppressed_fail, try_except, set_status_fail, mbind, M_bind.
  destruct (class_set_status self fail None w) as [w' r] eqn:Ec. simpl in *.
  destruct (decide (op_id (op_info (os w)) = self)) as [Hid|Hid].
  - rewrite (decide_ext _ (op_id (op_info (os w)) = self ∧ op_status (op_info (os w)) ≠ Some fail)) in H1, H2 by tauto.
    destruct (decide (op_id (op_info (os w)) = self ∧ _)); simpl in H1, H2;
      destruct H2 as [->|(_ & e & -> & He)]; try rewrite He; do 2 eexists; (split; [done|]); (split; [done|]); eauto.
  - rewrite decide_False by tauto. simpl in H1, H2.
    destruct H2 as [->|(_ & e & -> & He)]; try rewrite He; do 2 eexists; (split; [done|]); (split; [done|]); eauto.
Qed.

Local Notation setter_fails self w := (∃ e, snd (class_set_status self fail None w) = Raise e ∧ is_expired e = false).

(** Both wrappers, run on the current operation. *)
Lemma wrappers_spec (self : Z) (fun_ : M W unit) (w w1 w2 : W) (r : res unit) :
  self ≠ 0 → op_id (op_info (os w)) = self → op_status (op_info (os w)) = Some starting →
  class_set_status self running None w = (w1, Ok true) → fun_ w1 = (w2, r) →
  (∃ w3 r', async_wrapper self fun_ w = (w3, r') ∧
    op_status (op_info (os w3)) = wrapper_status self (os w2) r ∧
    op_id (op_info (os w3)) = op_id (op_info (os w2)) ∧
    (r' = match r with
          | Raise e => if is_expired e || is_cancelled e then Ok tt else Raise e
          | Ok _ => Ok tt
          end ∨ setter_fails self w2)) ∧
  (∃ w3 r', sync_wrapper self fun_ w = (w3, r') ∧
    (r ≠ Raise CancelledError → op_status (op_info (os w3)) = wrapper_status self (os w2) r) ∧
    op_id (op_info (os w3)) = op_id (op_info (os w2)) ∧
    (r' = match r with
          | Raise e => if is_expired e then Ok tt else Raise e
          | Ok _ => Ok tt
          end ∨ setter_fails self w2)).
Proof using HL.
  intros Hs Hid Hst Hrun Hf. unfold async_wrapper, sync_wrapper, try_except.
  rewrite !(bind_ok _ _ _ _ _ Hrun). unfold wrapper_status.
  destruct r as [[]|e].
  - rewrite !(bind_ok _ _ _ _ _ Hf).
    assert (∃ b w3, class_set_status self done_ (Some running) w2 =
      (w3, if decide (op_id (op_info (os w2)) = self) then Ok b else Raise ExpiredOperationException) ∧
      os w3 = if decide (op_id (op_info (os w2)) = self ∧ op_status (op_info (os w2)) = Some running)
              then with_status done_ (os w2) else os w2) as (b & w3 & Hb & Hw3).
    { destruct (set_status self done_ (Some running) (os w2)) as [s2 r2] eqn:E2.
      destruct (class_set_status_run self done_ (Some running) w2 s2 r2 ltac:(done) E2) as (w3 & E3 & Hos).
      rewrite set_status_run in E2 by done. revert E2. case_decide as Hc.
      - case_decide as Hr; intros [= <- <-]; [exists true, w3|exists false, w3]; (split; [done|]); rewrite Hos.
        + rewrite decide_True; [done|]. destruct Hr as [[?|?] _]; [done|]. by split.
        + rewrite decide_False; [done|]. intros [_ Hr']. apply Hr. rewrite Hr'. naive_solver.
      - intros [= <- <-]. exists true, w3. split; [done|]. rewrite Hos, decide_False by tauto. done. }
    revert Hb Hw3. case_decide as Hc; intros Hb Hw3.
    + split; do 2 eexists; (split; [by rewrite (bind_ok _ _ _ _ _ Hb)|]); rewrite Hw3;
        (destruct (decide (op_status (op_info (os w2)) = Some running)) as [Hr|Hr];
         [rewrite (decide_True (P := _ ∧ _)) by tauto|rewrite (decide_False (P := _ ∧ _)) by tauto]); auto.
    + rewrite decide_False in Hw3 by tauto.
      split; do 2 eexists; (split; [by rewrite (bind_raise _ _ _ _ _ Hb)|]); rewrite Hw3; auto.
  - rewrite !(bind_raise _ _ _ _ _ Hf). destruct (class_suppressed_fail_run self w2 Hs) as (w3 & r3 & Hsf & Hos & Hr3).
    assert (op_id (op_info (os w3)) = op_id (op_info (os w2))) as Hid3 by (rewrite Hos; by case_decide).
    assert (op_status (op_info (os w3)) =
      if decide (op_id (op_info (os w2)) = self) then Some fail else op_status (op_info (os w2))) as Hst3.
    { rewrite Hos. destruct (decide (op_id (op_info (os w2)) = self)) as [Hc|Hc];
        [|by rewrite decide_False by tauto].
      destruct (decide (op_status (op_info (os w2)) = Some fail)) as [H2|H2];
        [rewrite (decide_False (P := _ ∧ _)) by tauto|rewrite (decide_True (P := _ ∧ _)) by tauto]; done. }
    assert (r3 = Ok tt ∨ ∃ e, r3 = Raise e ∧ setter_fails self w2) as Hr by naive_solver. clear Hr3.
    destruct (is_expired e) eqn:Ee; [|destruct (is_cancelled e) eqn:Ec]; simpl.
    + apply bool_decide_eq_true in Ee. subst e. simpl. split; do 2 eexists; (split; [done|]); case_decide; auto.
    + apply bool_decide_eq_true in Ec. subst e. split; do 2 eexists; (split; [done|]); rewrite ?Hid3, ?Hst3; [|split; [by intros []|by auto]].
      destruct Hr as [->|(? & ? & ?)]; auto.
    + destruct Hr as [->|(e3 & -> & Hsf3)].
      * split; do 2 eexists; (split; [by rewrite (bind_ok _ _ _ _ _ Hsf)|]); auto.
      * split; do 2 eexists; (split; [by rewrite (bind_raise _ _ _ _ _ Hsf)|]); auto.
Qed.
End wrapper_laws.

(** ** The method of [Op], over a world [W] that contains the state *)
Section zoomed.
Context {W : Type} (os : W → OpState) (upd : OpState → W → W).

Definition on_op {A} (m : M OpState A) : M W A := zoom os upd m.
Definition zoom_setter : StatusSetter W := λ self status from, on_op (set_status self status from).

Context (os_upd : ∀ s w, os (upd s w) = s).

Lemma on_op_run {A} (m : M OpState A) w s r : m (os w) = (s, r) → on_op m w = (upd s w, r).
Proof. intros Hm. unfold on_op, zoom. by rewrite Hm. Qed.

Lemma zoom_setter_law : SetterLaw os zoom_setter.
Proof using os_upd.
  intros self status from w. change (class_set_status (StatusSetter := zoom_setter)) with zoom_setter.
  unfold zoom_setter, on_op, zoom.
  destruct (set_status self status from (os w)) as [s r]. simpl. by rewrite os_upd; auto.
Qed.

Lemma async_wrapper_spec (self : Z) (fun_ : M W unit) (w w2 : W) (r : res unit) :
  self ≠ 0 → op_id (op_info (os w)) = self → op_status (op_info (os w)) = Some starting →
  fun_ (upd (with_status running (os w)) w) = (w2, r) →
  ∃ w3 r', async_wrapper (H := zoom_setter) self fun_ w = (w3, r') ∧
    op_status (op_info (os w3)) = wrapper_status self (os w2) r ∧
    op_id (op_info (os w3)) = op_id (op_info (os w2)) ∧
    r' = match r with
         | Raise e => if is_expired e || is_cancelled e then Ok tt else Raise e
         | Ok _ => Ok tt
         end.
Proof using os_upd.
  intros Hs Hid Hst Hf.
  assert (set_status self running None (os w) = (with_status running (os w), Ok true)) as Hrun.
  { rewrite set_status_run, decide_True by done. rewrite decide_True; [done|]. rewrite Hst. naive_solver. }
  destruct (wrappers_spec os (HL := zoom_setter_law) self fun_ w _ w2 r Hs Hid Hst (on_op_run _ _ _ _ Hrun) Hf)
    as [(w3 & r' & H1 & H2 & H3 & [H4|(e & H4 & H5)]) _]; [by eauto 10|].
  exfalso. revert H4. change (class_set_status (StatusSetter := zoom_setter)) with zoom_setter.
  unfold zoom_setter, on_op, zoom. rewrite set_status_run by done.
  repeat case_decide; simpl; try done. by intros [= <-].
Qed.

(** A background operation that starts while it is the current operation
    ends in [done] exactly when its function returned normally with the
    status still [running]; it ends in [fail] when the function raised
    anything but the expiry of the operation, keeps whatever failure the
    function recorded itself, never touches the status of another operation
    that replaced it, and re-raises unexpected exceptions but not a
    cancellation. *)
Theorem async_wrapper_outcome (self : Z) (fun_ : M W unit) (w w2 : W) (r : res unit) :
  self ≠ 0 → op_id (op_info (os w)) = self → op_status (op_info (os w)) = Some starting →
  fun_ (upd (with_status running (os w)) w) = (w2, r) →
  ∃ w3 r', async_wrapper (H := zoom_setter) self fun_ w = (w3, r') ∧
    op_status (op_info (os w3)) = wrapper_status self (os w2) r ∧
    op_id (op_info (os w3)) = op_id (op_info (os w2)) ∧
    r' = match r with
         | Raise e => if is_expired e || is_cancelled e then Ok tt else Raise e
         | Ok _ => Ok tt
         end.
Proof using os_upd. apply async_wrapper_spec. Qed.
End zoomed.

(** A function that fails: the operation is [fail] and the error re-raised. *)
Definition example_start : OpState := mkOpState (mkInfo 7 "backup" (Some starting)) (Some 7) 8.

Lemma async_wrapper_outcome_witness :
  (∃ w3 r', async_wrapper (H := zoom_setter id (λ s _, s)) 7 (raise ValueError) example_start = (w3, r') ∧
    op_status (op_info w3) = Some fail ∧ op_id (op_info w3) = 7 ∧ r' = Raise ValueError) ∧
  (∃ w3 r', async_wrapper (H := zoom_setter id (λ s _, s)) 7 (mret tt) example_start = (w3, r') ∧
    op_status (op_info w3) = Some done_ ∧ op_id (op_info w3) = 7 ∧ r' = Ok tt).
Proof.
  split.
  - apply (async_wrapper_outcome id (λ s _, s) (λ _ _, eq_refl) 7 (raise ValueError) example_start
      (with_status running example_start) (Raise ValueError)); done.
  - apply (async_wrapper_outcome id (λ s _, s) (λ _ _, eq_refl) 7 (mret tt) example_start
      (with_status running example_start) (Ok tt)); done.
Defined.

(** ** Interleaved operations *)

(** Where an operation object is: constructed, waiting to run in the
    background, running, or over; or without a task, because [start_op] raised. *)
Inductive pc : Type := Allocated | Queued | Running | Finished | Unstarted.

Record sys : Type := mkSys {
  sys_state : OpState;
  sys_pcs : gmap Z pc;
}.

Definition sys_initial : sys := mkSys initial ∅.

Definition goto (self : Z) (p : pc) (st : OpState) (s : sys) : sys := mkSys st (<[self := p]> (sys_pcs s)).

(** The actions that interleave, each taken as a whole: the constructor of an
    operation, [start_op], the three parts of the background wrapper, and the
    operation marking itself failed while it runs.

    Some of the operations are instances of [LockedCoordinatorOp], whose
    [set_status] goes on after that of [Op]: it reads [op_started], which it only
    has if its status has once changed to [starting].  When the status already was
    [starting], because another operation was started and has not run yet, [start_op]
    raises [AttributeError]: the new operation is the current one by then, and no task is
    scheduled for it.  The override of [NodeOp] only raises when an operation
    fails, after the status was changed: [step_self_fail] and then [step_crash]. *)
Section steps.
Context (locked : Z → Prop).

Definition start_raises (self : Z) (st : OpState) : Prop := locked self ∧ op_status (op_info st) = Some starting.

Inductive step : sys → sys → Prop :=
| step_alloc s st self :
    allocate_op_id (sys_state s) = (st, Ok self) →
    step s (goto self Allocated st s)
| step_start s st self name mk r :
    sys_pcs s !! self = Some Allocated →
    ¬ start_raises self (sys_state s) →
    start_op mk self name (sys_state s) = (st, Ok r) →
    step s (goto self Queued st s)
| step_start_raises s st self name mk r :
    sys_pcs s !! self = Some Allocated →
    start_raises self (sys_state s) →
    start_op mk self name (sys_state s) = (st, Ok r) →
    step s (goto self Unstarted st s)
| step_begin s st self b :
    sys_pcs s !! self = Some Queued →
    set_status self running None (sys_state s) = (st, Ok b) →
    step s (goto self Running st s)
| step_begin_expired s st self :
    sys_pcs s !! self = Some Queued →
    set_status self running None (sys_state s) = (st, Raise ExpiredOperationException) →
    step s (goto self Finished st s)
| step_self_fail s st self :
    sys_pcs s !! self = Some Running →
    set_status_fail self (sys_state s) = (st, Ok tt) →
    step s (goto self Running st s)
| step_expired s st self :
    sys_pcs s !! self = Some Running →
    check_op_id self (sys_state s) = (st, Raise ExpiredOperationException) →
    step s (goto self Finished st s)
| step_done s st self b :
    sys_pcs s !! self = Some Running →
    set_status self done_ (Some running) (sys_state s) = (st, Ok b) →
    step s (goto self Finished st s)
| step_crash s st self :
    sys_pcs s !! self = Some Running →
    suppressed_fail self (sys_state s) = (st, Ok tt) →
    step s (goto self Finished st s).

Inductive reachable : sys → Prop :=
| reachable_initial : reachable sys_initial
| reachable_step s s' : reachable s → step s s' → reachable s'.

(** What the status of the current operation can be, given its task. *)
Definition status_matches (p : pc) (o : option Status) : Prop :=
  match p, o with
  | Queued, Some starting | Unstarted, Some starting => True
  | Running, Some running | Running, Some fail => True
  | Finished, Some done_ | Finished, Some fail => True
  | _, _ => False
  end.

Definition sys_wf (s : sys) : Prop :=
  0 < next_op_id (sys_state s) ∧
  (∀ self p, sys_pcs s !! self = Some p → 0 < self < next_op_id (sys_state s)) ∧
  match op (sys_state s) with
  | None => op_info (sys_state s) = mkInfo 0 "" None
  | Some self => op_id (op_info (sys_state s)) = self ∧
                 ∃ p, sys_pcs s !! self = Some p ∧ status_matches p (op_status (op_info (sys_state s)))
  end.

(** A transition of task [self] that leaves the identity of the current
    operation alone and changes its status only if it is [self]. *)
Lemma sys_wf_transition s st self p p' :
  sys_wf s → sys_pcs s !! self = Some p →
  op st = op (sys_state s) → next_op_id st = next_op_id (sys_state s) →
  op_id (op_info st) = op_id (op_info (sys_state s)) →
  (op_id (op_info (sys_state s)) ≠ self → st = sys_state s) →
  (op_id (op_info (sys_state s)) = self → status_matches p (op_status (op_info (sys_state s))) →
     status_matches p' (op_status (op_info st))) →
  sys_wf (goto self p' st s).
Proof.
  intros (Hn & Hids & Hop) Hp Ho Hnx Hid Hother Hself. split; [simpl; lia|]. split; simpl.
  { intros i q [[-> _]|[_ Hq]]%lookup_insert_Some; rewrite Hnx; [by eapply Hids|eauto]. }
  rewrite Ho. destruct (op (sys_state s)) as [cur|] eqn:Ecur.
  - destruct Hop as (Hcur & q & Hq & Hm). split; [congruence|].
    destruct (decide (cur = self)) as [->|Hne].
    + exists p'. rewrite lookup_insert_eq. split; [done|]. apply Hself; [done|]. congruence.
    + exists q. rewrite lookup_insert_ne by done. split; [done|]. rewrite Hother; [done|congruence].
  - rewrite Hother; [done|]. rewrite Hop. simpl. destruct (Hids _ _ Hp). lia.
Qed.

Lemma set_status_cases self status from st st' r :
  0 < self → set_status self status from st = (st', r) →
  (op_id (op_info st) = self ∧ (∃ b, r = Ok b) ∧
     (st' = with_status status st ∧ (from = None ∨ from = op_status (op_info st)) ∨
      st' = st ∧ (op_status (op_info st) = Some status ∨ is_Some from ∧ from ≠ op_status (op_info st)))) ∨
  (op_id (op_info st) ≠ self ∧ st' = st ∧ r = Raise ExpiredOperationException).
Proof.
  intros Hs. rewrite set_status_run by lia. case_decide as Hid; [|intros [= <- <-]; by right].
  case_decide as Hc; intros [= <- <-]; left; (split; [done|]); (split; [eauto|]); [left; tauto|right].
  split; [done|]. destruct (decide (op_status (op_info st) = Some status)); [by left|right].
  split; [|tauto]. destruct from; [eauto|tauto].
Qed.

Ltac status_case := simpl; repeat match goal with
  | H : status_matches _ ?o |- _ => destruct o as [[]|] eqn:?; simpl in *; try done; clear H
  end.

(** [start_op] makes the operation the current one, with the status [starting]. *)
Lemma start_op_run mk self name st st' r : 0 < self → start_op mk self name st = (st', Ok r) →
  next_op_id st' = next_op_id st ∧ op st' = Some self ∧ op_id (op_info st') = self ∧ op_status (op_info st') = Some starting.
Proof using Type.
  clear locked. intros Hself. unfold start_op, begin_op. cbn [mbind M_bind modify]. unfold mbind, M_bind, modify. rewrite set_status_run by lia.
  cbn [op_info op_id]. rewrite decide_True by done. case_decide as Hc; intros [= <- _]; simpl; [done|].
  repeat split; try done. destruct (decide (op_status (op_info st) = Some starting)); [done|].
  exfalso. apply Hc. simpl. tauto.
Qed.

Lemma started_wf s st self p q mk name r : sys_wf s → sys_pcs s !! self = Some p → status_matches q (Some starting) →
  start_op mk self name (sys_state s) = (st, Ok r) → sys_wf (goto self q st s).
Proof using Type.
  clear locked. intros (Hn & Hids & Hop) Hp Hq Hs. apply Hids in Hp as Hself. apply start_op_run in Hs as (Hnx & Ho & Hi & Hst); [|lia].
  split; [simpl; lia|]. split; simpl.
  { intros i x [[-> _]|[_ Hx]]%lookup_insert_Some; rewrite Hnx; [by eapply Hids|eauto]. }
  rewrite Ho, Hi, Hst. split; [done|]. exists q. by rewrite lookup_insert_eq.
Qed.

Lemma step_wf s s' : sys_wf s → step s s' → sys_wf s'.
Proof using locked.
  intros Hwf Hst.
  assert (∀ self p, sys_pcs s !! self = Some p → 0 < self) as Hpos.
  { intros self p H. by apply Hwf in H as [? _]. }
  destruct Hst as [s st self Ha|s st self name mk r Hp Hnr Hs|s st self name mk r Hp Hr Hs|s st self b Hp Hs|s st self Hp Hs|s st self Hp Hs
    |s st self Hp Hs|s st self b Hp Hs|s st self Hp Hs].
  - injection Ha as <- <-. destruct Hwf as (Hn & Hids & Hop). split; [simpl; lia|]. split; simpl.
    { intros i q [[<- _]|[_ Hq]]%lookup_insert_Some; [lia|]. apply Hids in Hq. lia. }
    destruct (op (sys_state s)) as [cur|]; [|done]. destruct Hop as (Hcur & q & Hq & Hm).
    split; [done|]. exists q. rewrite lookup_insert_ne; [done|]. apply Hids in Hq. lia.
  - by eapply started_wf.
  - by eapply started_wf.
  - apply set_status_cases in Hs as [(Hid & _ & [[-> _]|[-> Hc]])|(? & -> & ?)]; [| |done|by eauto];
      eapply sys_wf_transition; try done; intros _ Hm; status_case; naive_solver.
  - apply set_status_cases in Hs as [(Hid & [b ?] & _)|(Hne & -> & _)]; [done| |by eauto].
    by eapply sys_wf_transition.
  - unfold set_status_fail, class_set_status, base_setter in Hs. apply bind_inv_ok in Hs as (st1 & b & Hs & [= <-]).
    apply set_status_cases in Hs as [(Hid & _ & [[-> _]|[-> Hc]])|(? & -> & ?)]; [| |done|by eauto];
      eapply sys_wf_transition; try done; intros _ Hm; status_case; naive_solver.
  - unfold check_op_id, mbind, M_bind, get in Hs. revert Hs. case_decide as Hid; [done|]. intros [= <-].
    by eapply sys_wf_transition.
  - apply set_status_cases in Hs as [(Hid & _ & [[-> Hf]|[-> Hc]])|(? & -> & ?)]; [| |done|by eauto];
      eapply sys_wf_transition; try done; intros _ Hm; status_case; naive_solver.
  - rewrite suppressed_fail_run in Hs by (apply Hpos in Hp; lia). injection Hs as <-.
    case_decide as Hc; eapply sys_wf_transition; try done.
    + by intros ?; destruct Hc.
    + intros Hid Hm. status_case; naive_solver.
Qed.

(** An operation without a task is not touched any more: it stays [starting]
    until another operation takes its place. *)
Lemma unstarted_stuck s s' self : sys_wf s → op (sys_state s) = Some self → sys_pcs s !! self = Some Unstarted →
  step s s' → op (sys_state s') = Some self → sys_pcs s' !! self = Some Unstarted ∧ op_status (op_info (sys_state s')) = Some starting.
Proof using locked.
  intros Hwf Hop Hpc Hst Hop'. assert (op_status (op_info (sys_state s)) = Some starting) as Hs.
  { destruct Hwf as (_ & _ & Hx). rewrite Hop in Hx. destruct Hx as (_ & p & Hp & Hm). rewrite Hpc in Hp. injection Hp as <-.
    by destruct (op_status _) as [[]|]. }
  assert (sys_pcs s' !! self = Some Unstarted) as Hpc'.
  { destruct Hst as [s st x Ha|s st x name mk r Hp Hnr Hr|s st x name mk r Hp Hr Hr'|s st x b Hp Hr|s st x Hp Hr|s st x Hp Hr|s st x Hp Hr
      |s st x b Hp Hr|s st x Hp Hr]; cbn [goto sys_pcs sys_state] in *; try (rewrite lookup_insert_ne; [done|congruence]).
    injection Ha as <- <-. rewrite lookup_insert_ne; [done|]. intros E. destruct Hwf as (_ & Hids & _). apply Hids in Hpc. lia. }
  split; [done|]. apply step_wf in Hst as (_ & _ & Hx); [|done]. rewrite Hop' in Hx. destruct Hx as (_ & p & Hp & Hm).
  rewrite Hpc' in Hp. injection Hp as <-. by destruct (op_status (op_info (sys_state s'))) as [[]|].
Qed.

(** C29: Life cycle.  However operations are constructed, started, run and
    failed concurrently, identifiers are fresh and positive, and the status
    reported for the current operation is [starting] while its task is
    queued, [running] or [fail] while it runs and [done] or [fail] once it is
    over: in particular a finished operation is never reported as running.  One kind of
    operation has no task: a [LockedCoordinatorOp] whose [start_op] raised, because it
    was started while the status was [starting]; it is reported as [starting], and is
    still the current operation. *)
Theorem op_lifecycle (s : sys) :
  reachable s → sys_wf s.
Proof using locked.
  induction 1 as [|s s' _ IH Hst]; [|by eapply step_wf].
  split; [done|]. split; [|done]. intros self p H. simpl in H. by rewrite lookup_empty in H.
Qed.
End steps.

(** One operation, started, run to its end; and two operations of the
    coordinator, the second one started before the task of the first one runs. *)
Lemma op_lifecycle_witness :
  (let s := mkSys (mkOpState (mkInfo 1 "backup" (Some done_)) (Some 1) 2) {[1 := Finished]} in
   reachable (λ _, True) s ∧ sys_wf s) ∧
  (let s := mkSys (mkOpState (mkInfo 2 "list" (Some starting)) (Some 2) 3) {[2 := Unstarted; 1 := Queued]} in
   reachable (λ _, True) s ∧ sys_wf s).
Proof.
  assert (reachable (λ _, True) (goto 1 Queued (mkOpState (mkInfo 1 "backup" (Some starting)) (Some 1) 2)
    (goto 1 Allocated (mkOpState (mkInfo 0 "" None) None 2) sys_initial))) as Hq.
  { eapply reachable_step; [|eapply (step_start _ _ _ 1 "backup" (λ _, "") (mkStartResult 1 "")); [done| |done]; by intros [_ ?]].
    eapply reachable_step; [constructor|by eapply (step_alloc _ _ _ 1)]. }
  split; intros s.
  - assert (reachable (λ _, True) s) as Hr; [|split; [exact Hr|apply (op_lifecycle (λ _, True) s Hr)]].
    change s with (goto 1 Finished (mkOpState (mkInfo 1 "backup" (Some done_)) (Some 1) 2)
      (goto 1 Running (mkOpState (mkInfo 1 "backup" (Some running)) (Some 1) 2)
      (goto 1 Queued (mkOpState (mkInfo 1 "backup" (Some starting)) (Some 1) 2)
      (goto 1 Allocated (mkOpState (mkInfo 0 "" None) None 2) sys_initial)))).
    eapply reachable_step; [|by eapply (step_done _ _ _ 1 true)].
    eapply reachable_step; [|by eapply (step_begin _ _ _ 1 true)]. exact Hq.
  - assert (reachable (λ _, True) s) as Hr; [|split; [exact Hr|apply (op_lifecycle (λ _, True) s Hr)]].
    change s with (goto 2 Unstarted (mkOpState (mkInfo 2 "list" (Some starting)) (Some 2) 3)
      (goto 2 Allocated (mkOpState (mkInfo 1 "backup" (Some starting)) (Some 1) 3)
      (goto 1 Queued (mkOpState (mkInfo 1 "backup" (Some starting)) (Some 1) 2)
      (goto 1 Allocated (mkOpState (mkInfo 0 "" None) None 2) sys_initial)))).
    eapply reachable_step; [|by eapply (step_start_raises _ _ _ 2 "list" (λ _, "") (mkStartResult 2 ""))].
    eapply reachable_step; [exact Hq|by eapply (step_alloc _ _ _ 2)].
Defined.
End Op.
