(* ===== verification/Utils.v ===== *)
(** * Shared utilities ([common/utils.py])

    The exponential backoff iterator, the FIFO cache and its decorator, the
    size-limited file, the atomic file replacement and the two formatting and
    parsing helpers.  Durations and instants are integers in one unit. *)

From stdpp Require Import base gmap strings list sorting.
From Stdlib Require Import ZArith Lia Ascii.
From S2P Require Import Prelude.

Local Open Scope Z_scope.

(** ** [exponential_backoff] *)
Module Backoff.

Record config : Type := mkConfig {
  initial : Z;
  retries : option Z;
  multiplier : Z;
  maximum : option Z;
  duration : option Z;
}.

(** [_Iter]: [retry] is the number of the last attempt, [-1] at first. *)
Record iter : Type := mkIter {
  retry : Z;
  started : option Z;
}.

Definition new_iter : iter := mkIter (-1) None.

Definition raw_delay (c : config) (retry : Z) : Z :=
  let delay := initial c * multiplier c ^ (retry - 1) in
  match maximum c with Some m => Z.min delay m | None => delay end.

(** [_delay] of attempt [retry] at time [now]; [TypeError] stands for the use of
    [self.initial] before it is set, which [next_spec] shows cannot happen. *)
Definition delay (c : config) (it : iter) (now : Z) : res (option Z * iter) :=
  if match retries c with Some r => r <? retry it | None => false end then Ok (None, it)
  else if retry it =? 0 then Ok (Some 0, mkIter (retry it) (Some now))
  else
    let d := raw_delay c (retry it) in
    match duration c with
    | None => Ok (Some d, it)
    | Some total =>
        match started it with
        | None => Raise TypeError
        | Some t0 => if (t0 + total) - now - d <? 0 then Ok (None, it) else Ok (Some d, it)
        end
    end.

(** [__anext__] up to the sleep: the attempt number and the delay before it,
    or [None] when the iteration stops. *)
Definition next (c : config) (it : iter) (now : Z) : res (option (Z * Z) * iter) :=
  match delay c (mkIter (retry it + 1) (started it)) now with
  | Raise e => Raise e
  | Ok (None, it') => Ok (None, it')
  | Ok (Some d, it') => Ok (Some (retry it', d), it')
  end.

(** The iterations of a [for] loop: the readings of the clock, one per
    attempt, and the attempts granted. *)
Fixpoint run (c : config) (it : iter) (clock : list Z) : list (Z * Z * Z) :=
  match clock with
  | [] => []
  | now :: clock' =>
      match next c it now with
      | Ok (Some (n, d), it') => (n, d, now) :: run c it' clock'
      | _ => []
      end
  end.

Section facts.
Context (c : config) (Hinit : 0 ≤ initial c) (Hmult : 1 ≤ multiplier c)
  (Hmax : ∀ m, maximum c = Some m → 0 ≤ m).

Lemma raw_delay_nonneg n : 1 ≤ n → 0 ≤ raw_delay c n.
Proof using All.
  intros Hn. unfold raw_delay.
  assert (0 ≤ initial c * multiplier c ^ (n - 1)) by (apply Z.mul_nonneg_nonneg; [done|apply Z.pow_nonneg; lia]).
  destruct (maximum c) as [m|]; [|done]. specialize (Hmax m eq_refl). lia.
Qed.

Lemma raw_delay_mono n m : 1 ≤ n ≤ m → raw_delay c n ≤ raw_delay c m.
Proof using All.
  intros H. unfold raw_delay.
  assert (initial c * multiplier c ^ (n - 1) ≤ initial c * multiplier c ^ (m - 1)).
  { apply Z.mul_le_mono_nonneg_l; [done|]. apply Z.pow_le_mono_r; lia. }
  destruct (maximum c); lia.
Qed.

(** What a granted attempt satisfies, for an iterator started at [t0]. *)
Definition granted (t0 : Z) (n d now : Z) : Prop :=
  (∀ r, retries c = Some r → n ≤ r) ∧
  (n = 0 ∧ d = 0 ∨ 1 ≤ n ∧ d = raw_delay c n ∧ ∀ total, duration c = Some total → now + d ≤ t0 + total).

Definition iter_ok (t0 : Z) (it : iter) : Prop :=
  0 ≤ retry it ∧ started it = Some t0.

Lemma next_spec t0 it now o it' :
  iter_ok t0 it → next c it now = Ok (o, it') →
  iter_ok t0 it' ∧ retry it' = retry it + 1 ∧
  ∀ n d, o = Some (n, d) → n = retry it + 1 ∧ granted t0 n d now.
Proof using All.
  intros [Hr Hs] Hn. unfold next, delay in Hn.
  cbn [retry started] in Hn. destruct (match retries c with Some r => _ | None => _ end) eqn:Er.
  { injection Hn as <- <-. split; [split; simpl; [lia|done]|]. split; [done|]. by intros. }
  destruct (retry it + 1 =? 0) eqn:E0; [lia|].
  assert (∀ r, retries c = Some r → retry it + 1 ≤ r) as Hret.
  { intros r Hr'. rewrite Hr' in Er. lia. }
  destruct (duration c) as [total|] eqn:Edur.
  - rewrite Hs in Hn. destruct (_ <? 0) eqn:El in Hn; injection Hn as <- <-;
      (split; [split; simpl; [lia|done]|]); (split; [done|]); [by intros|].
    intros n d [= <- <-]. split; [done|]. split; [done|]. right. split; [lia|]. split; [done|].
    intros x Hx. rewrite Edur in Hx. injection Hx as <-. lia.
  - injection Hn as <- <-. split; [split; simpl; [lia|done]|]. split; [done|].
    intros n d [= <- <-]. split; [done|]. split; [done|]. right. split; [lia|]. split; [done|]. congruence.
Qed.

Lemma next_ok t0 it now : iter_ok t0 it → ∃ o it', next c it now = Ok (o, it').
Proof.
  intros [Hr Hs]. unfold next, delay. cbn [retry started].
  destruct (match retries c with Some r => _ | None => _ end); [simpl; eauto|].
  destruct (retry it + 1 =? 0); [simpl; eauto|].
  destruct (duration c); [|simpl; eauto]. rewrite Hs. destruct (_ <? 0); simpl; eauto.
Qed.

Lemma run_spec t0 it clock i n d now :
  iter_ok t0 it → run c it clock !! i = Some (n, d, now) →
  n = retry it + 1 + Z.of_nat i ∧ clock !! i = Some now ∧ granted t0 n d now.
Proof using All.
  revert it i. induction clock as [|t clock IH]; intros it i Hit Hi; [done|]. simpl in Hi.
  destruct (next c it t) as [[[[n1 d1]|] it']|] eqn:En; [|done|done].
  destruct (next_spec _ _ _ _ _ Hit En) as (Hit' & Hr & Hg). destruct (Hg n1 d1 eq_refl) as [-> Hg1].
  destruct i as [|i]; simpl in Hi.
  - injection Hi as <- <- <-. split; [lia|]. by split.
  - destruct (IH it' i Hit' Hi) as (-> & Hc & Hg2). split; [lia|]. by split.
Qed.

(** Backoff.  The first attempt is immediate whatever the time; attempts
    are numbered consecutively and never exceed [retries]; later attempts wait
    [min(initial * multiplier^(n-1), maximum)], so the waits never decrease
    and never exceed the maximum, and an attempt is granted only if its wait
    ends within [duration] of the first one. *)
Theorem backoff_schedule (t0 : Z) (clock : list Z) (i : nat) (n d now : Z) :
  run c new_iter (t0 :: clock) !! i = Some (n, d, now) →
  n = Z.of_nat i ∧ (t0 :: clock) !! i = Some now ∧ (∀ r, retries c = Some r → n ≤ r) ∧
  0 ≤ d ∧ (i = 0%nat → d = 0) ∧ (∀ m, maximum c = Some m → d ≤ m) ∧
  ((0 < i)%nat → ∀ total, duration c = Some total → now + d ≤ t0 + total) ∧
  (∀ n' d' now', (0 < i)%nat → run c new_iter (t0 :: clock) !! (S i) = Some (n', d', now') → d ≤ d').
Proof using All.
  assert (∀ n' d' now', run c new_iter (t0 :: clock) !! i = Some (n', d', now') →
    n' = Z.of_nat i ∧ (t0 :: clock) !! i = Some now' ∧ granted t0 n' d' now') as Hone.
  { intros n' d' now'. simpl. unfold next, delay. simpl.
    destruct (match retries c with Some r => _ | None => _ end) eqn:Er; [done|].
    destruct i as [|i].
    - intros [= <- <- <-]. split; [done|]. split; [done|]. split; [intros r Hr; rewrite Hr in Er; lia|].
      by left.
    - simpl. intros Hrun. apply (run_spec t0) in Hrun as (-> & Hc & Hg); [|split; simpl; [lia|done]].
      split; [simpl; lia|]. by split. }
  intros Hi. destruct (Hone n d now Hi) as (-> & Hc & Hr & Hd).
  split; [done|]. split; [done|]. split; [done|].
  assert (∀ n' d' now', run c new_iter (t0 :: clock) !! (S i) = Some (n', d', now') →
    d' = raw_delay c (Z.of_nat (S i))) as Hsucc.
  { intros n' d' now'. simpl. unfold next, delay. simpl.
    destruct (match retries c with Some r => _ | None => _ end) eqn:Er; [done|].
    intros Hrun. apply (run_spec t0) in Hrun as (-> & _ & _ & Hg); [|split; simpl; [lia|done]].
    simpl in Hg. destruct Hg as [[? _]|(_ & -> & _)]; [lia|]. f_equal. lia. }
  destruct Hd as [[Hz ->]|(Hz & -> & Htot)].
  - assert (i = 0%nat) as -> by lia. split; [done|]. split; [done|]. split; [intros; by apply Hmax|].
    split; [lia|]. lia.
  - split; [by apply raw_delay_nonneg|]. split; [lia|]. split; [|split; [done|]].
    + intros m Hm. unfold raw_delay. rewrite Hm. lia.
    + intros n' d' now' _ Hn'. rewrite (Hsucc _ _ _ Hn'). apply raw_delay_mono. lia.
Qed.
End facts.

(** The coordinator's defaults, in seconds: waits of 1, 2, 4, ... seconds. *)
Definition poll_default : config := mkConfig 1 None 2 (Some 60) (Some 86400).

Lemma backoff_schedule_witness :
  run poll_default new_iter [0; 1; 5; 20] !! 3%nat = Some (3, 4, 20) ∧
  (3 = Z.of_nat 3 ∧ [0; 1; 5; 20] !! 3%nat = Some 20 ∧ (∀ r, retries poll_default = Some r → 3 ≤ r) ∧
  0 ≤ 4 ∧ (3%nat = 0%nat → 4 = 0) ∧ (∀ m, maximum poll_default = Some m → 4 ≤ m) ∧
  ((0 < 3)%nat → ∀ total, duration poll_default = Some total → 20 + 4 ≤ 0 + total) ∧
  (∀ n' d' now', (0 < 3)%nat → run poll_default new_iter [0; 1; 5; 20] !! 4%nat = Some (n', d', now') → 4 ≤ d')).
Proof.
  split; [reflexivity|].
  apply (backoff_schedule poll_default); [simpl; lia|simpl; lia|intros m [= <-]; lia|reflexivity].
Defined.
End Backoff.

(** ** [FifoCache] and the [fifo_cache] decorator *)
Module FifoCache.
Section fifo.
Context {K V : Type} `{EqDecision K}.

(** [None] among the values is Python's [None]. *)
Record t : Type := mk {
  size : nat;
  cache : list (K * option V);
  key_queue : list K;
}.

Definition init (size : nat) : res t := if (size <? 1)%nat then Raise ValueError else Ok (mk size [] []).
Definition contains (c : t) (k : K) : bool := bool_decide (is_Some (dict_get (cache c) k)).
Definition getitem (c : t) (k : K) : option V := default None (dict_get (cache c) k).

(** [__setitem__]: the branch that updates an existing key falls through. *)
Definition setitem (c : t) (k : K) (v : option V) : res t :=
  let cache1 := if contains c k then dict_set k v (cache c) else cache c in
  let store cache key_queue := Ok (mk (size c) (dict_set k v cache) (key_queue ++ [k])) in
  if (size c <=? length cache1)%nat then
    match key_queue c with
    | [] => Raise IndexError
    | oldest :: queue =>
        if dict_get cache1 oldest then store (dict_del oldest cache1) queue else Raise KeyError
    end
  else store cache1 (key_queue c).

(** The decorator's wrapper around [method]. *)
Definition wrapper (method : K → option V) (c : t) (k : K) : res (option V * t) :=
  if contains c k then
    match getitem c k with
    | Some v => Ok (Some v, c)
    | None => Raise AssertionError
    end
  else
    let value := method k in
    c' ← setitem c k value; Ok (value, c').

(** Calls one after the other. *)
Fixpoint calls (method : K → option V) (c : t) (ks : list K) : res (list (option V) * t) :=
  match ks with
  | [] => Ok ([], c)
  | k :: ks' =>
      match wrapper method c k with
      | Raise e => Raise e
      | Ok (v, c1) => match calls method c1 ks' with
                      | Raise e => Raise e
                      | Ok (vs, c2) => Ok (v :: vs, c2)
                      end
      end
  end.

(** The queue lists the cached keys, oldest first. *)
Definition wf (method : K → option V) (c : t) : Prop :=
  (1 ≤ size c)%nat ∧ (cache c).*1 = key_queue c ∧ NoDup (key_queue c) ∧
  (length (key_queue c) ≤ size c)%nat ∧ ∀ k v, dict_get (cache c) k = Some v → v = method k.

Lemma dict_get_del_ne (d : list (K * option V)) k k' : k ≠ k' → dict_get (dict_del k d) k' = dict_get d k'.
Proof.
  intros Hne. induction d as [|[k1 v1] d IH]; [done|]. unfold dict_del in *. simpl.
  destruct (decide (k1 ≠ k)) as [H|H].
  - rewrite filter_cons_True by done. simpl. by case_decide.
  - rewrite filter_cons_False by done. rewrite IH. rewrite decide_False; [done|]. intros ->.
    by apply H.
Qed.

Lemma dict_del_head (d : list (K * option V)) k v : k ∉ d.*1 → dict_del k ((k, v) :: d) = d.
Proof.
  intros Hn. unfold dict_del. rewrite filter_cons_False by (simpl; tauto).
  induction d as [|[k1 v1] d IH]; [done|]. rewrite filter_cons_True.
  - rewrite IH; [done|]. intros Hin. apply Hn. by right.
  - simpl. intros ->. apply Hn. by left.
Qed.

(** Storing a new key keeps the cache well formed. *)
Lemma setitem_new method c k :
  wf method c → contains c k = false →
  ∃ c', setitem c k (method k) = Ok c' ∧ wf method c' ∧ size c' = size c.
Proof.
  intros (Hsz & Hkeys & Hnd & Hlen & Hval) Hnew. unfold setitem. rewrite Hnew.
  unfold contains in Hnew. apply bool_decide_eq_false in Hnew.
  assert (dict_get (cache c) k = None) as Hk by (destruct (dict_get (cache c) k); [exfalso; eauto|done]).
  assert (k ∉ key_queue c) as Hkq by (rewrite <- Hkeys; by apply dict_get_None).
  assert (∀ d q, d.*1 = q → NoDup q → k ∉ q → (length q < size c)%nat →
    (∀ k v, dict_get d k = Some v → v = method k) →
    wf method (mk (size c) (dict_set k (method k) d) (q ++ [k]))) as Hstore.
  { intros d q <- Hndq Hkd Hlq Hvd. split; [done|]. cbn [cache key_queue]. unfold dict_set.
    split; [by rewrite dict_alter_keys, decide_False|]. split; [|split].
    - apply NoDup_app. split; [done|]. split; [|apply NoDup_singleton]. intros x Hx.
      rewrite list_elem_of_singleton. by intros ->.
    - rewrite length_app. simpl. lia.
    - intros k' v. destruct (decide (k = k')) as [<-|Hne].
      + rewrite dict_get_alter_eq. by intros [= <-].
      + rewrite dict_get_alter_ne by done. apply Hvd. }
  destruct (size c <=? length (cache c))%nat eqn:El.
  - apply Nat.leb_le in El. assert (length (key_queue c) = length (cache c)) as Hl.
    { rewrite <- Hkeys. apply length_fmap. }
    destruct (cache c) as [|[k1 v1] d] eqn:Ed; [simpl in El; lia|].
    destruct (key_queue c) as [|q qs] eqn:Eq; [simpl in Hl; lia|].
    cbn [fmap list_fmap] in Hkeys. injection Hkeys as <- Hqs. cbn [dict_get]. rewrite decide_True by done.
    apply NoDup_cons in Hnd as [Hk1 Hnd]. subst qs. eexists. split; [done|]. split; [|done].
    rewrite dict_del_head by done. apply Hstore; try done.
    + intros Hin. apply Hkq. by right.
    + intros k' v Hv. apply Hval. simpl. case_decide as Hc; [|done]. subst k'.
      assert (dict_get d k1 = None) as Hn by by apply dict_get_None. congruence.
  - apply Nat.leb_gt in El. eexists. split; [done|]. split; [|done].
    apply Hstore; try done. rewrite <- Hkeys, length_fmap. done.
Qed.

(** Method results are cached transparently: on any sequence of calls
    through the decorator, the cache never raises, returns what the method
    returns, and never holds more than [size] results, provided the method
    does not return [None]. *)
Theorem fifo_cache_transparent (method : K → option V) (n : nat) (ks : list K) :
  (∀ k, k ∈ ks → is_Some (method k)) → (1 ≤ n)%nat →
  ∃ c0 c, init n = Ok c0 ∧ calls method c0 ks = Ok (method <$> ks, c) ∧ (length (cache c) ≤ n)%nat.
Proof.
  intros Hm Hn. unfold init. assert ((n <? 1)%nat = false) as -> by (apply Nat.ltb_ge; lia).
  exists (mk n [] []). assert (wf method (mk n [] [])) as Hwf.
  { split; [done|]. split; [done|]. split; [apply NoDup_nil_2|]. split; [simpl; lia|done]. }
  assert (size (mk n [] []) = n) as Hsz by done. revert Hwf Hsz. generalize (mk n [] []) as c0.
  induction ks as [|k ks IH]; intros c0 Hwf Hsz.
  - exists c0. split; [done|]. split; [done|]. destruct Hwf as (_ & Hk & _ & Hl & _).
    rewrite <- Hk, length_fmap in Hl. lia.
  - assert (∃ c1, wrapper method c0 k = Ok (method k, c1) ∧ wf method c1 ∧ size c1 = n) as (c1 & Hw & Hwf1 & Hs1).
    { unfold wrapper. destruct (contains c0 k) eqn:Ec.
      - unfold contains in Ec. apply bool_decide_eq_true in Ec as [v Hv]. unfold getitem. rewrite Hv. simpl.
        pose proof Hwf as (_ & _ & _ & _ & Hval). pose proof (Hval k v Hv) as ->.
        destruct (Hm k) as [x Hx]; [by left|]. rewrite Hx. by exists c0.
      - destruct (setitem_new method c0 k Hwf Ec) as (c1 & -> & Hwf1 & Hs1). exists c1. split; [done|].
        split; [done|]. congruence. }
    destruct (IH ltac:(intros; apply Hm; by right) c1 Hwf1 Hs1) as (c & Hc0 & Hcalls & Hlen).
    exists c. split; [done|]. split; [|done]. cbn [calls]. rewrite Hw. by rewrite Hcalls.
Qed.
End fifo.

Lemma fifo_cache_transparent_witness :
  ∃ c0 c, init 2 = Ok c0 ∧ calls (λ k, Some (k * k)) c0 [1; 2; 1; 3; 4; 1] =
    Ok ((λ k, Some (k * k)) <$> [1; 2; 1; 3; 4; 1], c) ∧ (length (cache c) ≤ 2)%nat.
Proof. apply (fifo_cache_transparent (λ k, Some (k * k)) 2 [1; 2; 1; 3; 4; 1]); [eauto|lia]. Defined.

(** Direct updates are not safe: after storing a key that is already
    cached in a full cache, the queue no longer describes the cache, and a
    later store of a fresh key raises [KeyError]. *)
Theorem fifo_cache_update_corrupts (V : Type) (v : V) :
  (c ← init (K:=Z) 2; c ← setitem c 1 (Some v); c ← setitem c 2 (Some v); c ← setitem c 2 (Some v);
   c ← setitem c 3 (Some v); c ← setitem c 4 (Some v); setitem c 5 (Some v)) = Raise KeyError.
Proof. reflexivity. Qed.
End FifoCache.

(** ** [SizeLimitedFile] *)
Module SizeLimitedFile.
Section slf.
Context {Byte : Type}.

(** The underlying file can be longer than the size recorded for it, when it
    grew since; [tell] is its position. *)
Record t : Type := mk {
  contents : list Byte;
  tell : Z;
  file_size : Z;
}.

(** [BufferedReader.read]: a negative size reads to the end. *)
Definition raw_read (f : t) (n : Z) : list Byte * t :=
  let rest := drop (Z.to_nat (tell f)) (contents f) in
  let data := if n <? 0 then rest else take (Z.to_nat n) rest in
  (data, mk (contents f) (tell f + Z.of_nat (length data)) (file_size f)).

Definition read (f : t) (n : option Z) : list Byte * t :=
  let can_read := Z.max 0 (file_size f - tell f) in
  raw_read f (Z.min can_read (match n with Some n => n | None => can_read end)).

Inductive whence : Type := SEEK_SET | SEEK_CUR | SEEK_END.

(** [seek] of the underlying file; a negative position is refused. *)
Definition raw_seek (f : t) (ofs : Z) (w : whence) : res t :=
  let pos := match w with
             | SEEK_SET => ofs
             | SEEK_CUR => tell f + ofs
             | SEEK_END => Z.of_nat (length (contents f)) + ofs
             end in
  if pos <? 0 then Raise ValueError else Ok (mk (contents f) pos (file_size f)).

Definition seek (f : t) (ofs : Z) (w : whence) : res t :=
  let '(ofs, w) := match w with SEEK_END => (ofs + file_size f, SEEK_SET) | _ => (ofs, w) end in
  match w with
  | SEEK_SET => raw_seek f (Z.max 0 (Z.min (file_size f) ofs)) SEEK_SET
  | _ => raw_seek f ofs w
  end.

(** What a reader sees by reading chunks of size [n] until it gets nothing. *)
Fixpoint read_all (fuel : nat) (n : Z) (f : t) : option (list Byte) :=
  match fuel with
  | O => None
  | S fuel' =>
      match read f (Some n) with
      | ([], _) => Some []
      | (data, f') => (data ++.) <$> read_all fuel' n f'
      end
  end.

(** The bytes the reader may see. *)
Definition limited (f : t) : list Byte := take (Z.to_nat (file_size f)) (contents f).

Lemma read_spec f n :
  0 ≤ tell f → (∀ k, n = Some k → 0 ≤ k) →
  let can := Z.max 0 (file_size f - tell f) in
  let want := match n with Some k => Z.min can k | None => can end in
  read f n = (take (Z.to_nat want) (drop (Z.to_nat (tell f)) (limited f)),
              mk (contents f) (tell f + Z.of_nat (length (take (Z.to_nat want) (drop (Z.to_nat (tell f)) (limited f))))) (file_size f)).
Proof.
  intros Ht Hn can want.
  assert (take (Z.to_nat want) (drop (Z.to_nat (tell f)) (limited f)) =
          take (Z.to_nat want) (drop (Z.to_nat (tell f)) (contents f))) as ->.
  { unfold limited. rewrite skipn_firstn_comm, take_take. f_equal. subst want can. destruct n; lia. }
  unfold read, raw_read. fold can.
  assert (Z.min can (match n with Some n => n | None => can end) = want) as ->.
  { subst want. destruct n; lia. }
  assert (0 ≤ want) as Hw. { subst want. destruct n as [k|]; [specialize (Hn k eq_refl)|]; lia. }
  assert ((want <? 0) = false) as -> by (by apply Z.ltb_ge). done.
Qed.

Lemma read_all_run (n : Z) (f : t) :
  0 < n → 0 ≤ tell f ≤ file_size f →
  read_all (S (length (limited f))) n f = Some (drop (Z.to_nat (tell f)) (limited f)).
Proof.
  intros Hn Ht.
  assert (∀ fuel f, 0 ≤ tell f ≤ file_size f →
    (length (drop (Z.to_nat (tell f)) (limited f)) < fuel)%nat →
    read_all fuel n f = Some (drop (Z.to_nat (tell f)) (limited f))) as Hgen.
  { clear f Ht. induction fuel as [|fuel IH]; intros f Ht Hlen; [lia|].
    cbn [read_all]. rewrite read_spec by (lia || (intros ? [= <-]; lia)).
    set (rest := drop (Z.to_nat (tell f)) (limited f)) in *.
    set (want := Z.min (Z.max 0 (file_size f - tell f)) n).
    assert (Z.of_nat (length rest) ≤ file_size f - tell f) as Hrest.
    { subst rest. unfold limited. rewrite length_drop, length_take. lia. }
    destruct (take (Z.to_nat want) rest) as [|b data] eqn:Etake.
    - destruct rest as [|b rest'] eqn:Er; [done|]. exfalso. simpl in Hrest.
      destruct (Z.to_nat want) as [|w] eqn:Ew; [lia|]. done.
    - set (f' := mk _ _ _). assert (limited f' = limited f) as Hlim by done.
      assert (length (b :: data) ≤ length rest)%nat as Hdata.
      { rewrite <- Etake, length_take. lia. }
      assert (drop (Z.to_nat (tell f')) (limited f') = drop (length (b :: data)) rest) as Hdrop.
      { rewrite Hlim. subst rest f'. cbn [tell]. rewrite drop_drop. f_equal. lia. }
      rewrite IH.
      + change (Some ((b :: data) ++ drop (Z.to_nat (tell f')) (limited f')) = Some rest).
        rewrite Hdrop. f_equal. rewrite <- (take_drop (length (b :: data)) rest) at 2. f_equal.
        rewrite <- Etake, length_take. destruct (decide (Z.to_nat want ≤ length rest)%nat).
        * by rewrite Nat.min_l.
        * rewrite Nat.min_r by lia. by rewrite !take_ge by lia.
      + subst f'. cbn [tell file_size]. lia.
      + rewrite Hdrop, length_drop. simpl in *. lia. }
  apply Hgen; [done|]. rewrite length_drop. lia.
Qed.

(** Reading a size-limited file in chunks of any positive size returns
    exactly its first [file_size] bytes, from the current position, however
    much the file grew; the number of reads is at most the number of bytes
    plus one, and the position never passes the limit. *)
Theorem read_all_limited (n : Z) (f : t) :
  0 < n → 0 ≤ tell f ≤ file_size f →
  read_all (S (length (limited f))) n f = Some (drop (Z.to_nat (tell f)) (limited f)) ∧
  tell (snd (read f (Some n))) ≤ file_size f.
Proof.
  intros Hn Ht. split; [by apply read_all_run|].
  rewrite read_spec by (lia || (intros ? [= <-]; lia)). simpl. rewrite length_take, length_drop.
  unfold limited. rewrite length_take. lia.
Qed.

(** A negative size is not limited: [read(-1)] returns everything up to
    the end of the underlying file, beyond [file_size]. *)
Theorem read_negative_ignores_limit (f : t) :
  fst (read f (Some (-1))) = drop (Z.to_nat (tell f)) (contents f).
Proof.
  unfold read, raw_read. assert ((Z.min (Z.max 0 (file_size f - tell f)) (-1) <? 0) = true) as -> by lia. done.
Qed.
End slf.

Lemma read_all_limited_witness :
  read_all 4 2 (mk [1; 2; 3; 4; 5] 0 3) = Some [1; 2; 3] ∧ tell (snd (read (mk [1; 2; 3; 4; 5] 0 3) (Some 2))) ≤ 3.
Proof. apply (read_all_limited 2 (mk [1; 2; 3; 4; 5] 0 3)); simpl; lia. Defined.
End SizeLimitedFile.

(** ** [open_path_with_atomic_rename], [parallel_map_to] *)
Module Files.
Section files.
Context {Bytes : Type} (empty : Bytes).

(** The file system is a map from paths; [tmp] is the name chosen by
    [NamedTemporaryFile], [body] the block under the [with] statement. *)
Definition open_path_with_atomic_rename (tmp path : string) (body : M (gmap string Bytes) unit) :
    M (gmap string Bytes) unit := λ fs,
  match body (<[tmp := empty]> fs) with
  | (fs1, Ok _) =>
      match fs1 !! tmp with
      | Some data => (<[path := data]> (delete tmp fs1), Ok tt)
      | None => (fs1, Raise FileNotFoundError)
      end
  | (fs1, Raise e) => (delete tmp fs1, Raise e)
  end.

(** Atomic replacement: when the block succeeds the target holds what was
    written to the temporary file, when it raises the target is as before,
    and in both cases no temporary file stays and no other file changes. *)
Theorem atomic_rename_all_or_nothing (tmp path : string) (body : M (gmap string Bytes) unit)
    (fs fs1 : gmap string Bytes) (data : Bytes) (r : res unit) :
  tmp ≠ path → fs !! tmp = None → body (<[tmp := empty]> fs) = (fs1, r) → fs1 !! tmp = Some data →
  (∀ p, p ≠ tmp → fs1 !! p = fs !! p) →
  let '(fs2, r2) := open_path_with_atomic_rename tmp path body fs in
  r2 = r ∧ fs2 = match r with Ok _ => <[path := data]> fs | Raise _ => fs end.
Proof.
  intros Hne Hfresh Hbody Hdata Hframe. unfold open_path_with_atomic_rename. rewrite Hbody.
  assert (delete tmp fs1 = fs) as Hdel.
  { apply map_eq. intros p. destruct (decide (p = tmp)) as [->|Hp].
    - by rewrite lookup_delete_eq, Hfresh.
    - rewrite lookup_delete_ne by done. auto. }
  destruct r as [[]|e]; [rewrite Hdata|]; by rewrite Hdel.
Qed.
End files.

Lemma atomic_rename_all_or_nothing_witness :
  let body : M (gmap string Z) unit := λ fs, (<["x.tmp" := 5]> fs, Raise ValueError) in
  let '(fs2, r2) := open_path_with_atomic_rename 0 "x.tmp" "x" body {["x" := 1]} in
  r2 = Raise ValueError ∧ fs2 = {["x" := 1]}.
Proof.
  apply (atomic_rename_all_or_nothing 0 "x.tmp" "x" (λ fs, (<["x.tmp" := 5]> fs, Raise ValueError))
    {["x" := 1]} (<["x.tmp" := 5]> (<["x.tmp" := 0]> {["x" := 1]})) 5 (Raise ValueError)); try done.
  intros p Hp. by rewrite !lookup_insert_ne by done.
Defined.

(** The results are consumed in the order of the items, until the callback
    refuses one. *)
Fixpoint parallel_map_to {W A B} (fun_ : A → M W B) (result_callback : A → B → M W bool) (l : list A) : M W bool :=
  match l with
  | [] => mret true
  | map_in :: l' =>
      map_out ← fun_ map_in;
      ok ← result_callback map_in map_out;
      if (ok : bool) then parallel_map_to fun_ result_callback l' else mret false
  end.

Lemma parallel_map_to_true {W A B} (fun_ : A → M W B) cb (l : list A) w w' :
  parallel_map_to fun_ cb l w = (w', Ok true) →
  ∀ x, x ∈ l → ∃ w1 w2 y w3, fun_ x w1 = (w2, Ok y) ∧ cb x y w2 = (w3, Ok true).
Proof.
  revert w. induction l as [|a l IH]; intros w Hrun x Hx; [by apply not_elem_of_nil in Hx|].
  cbn [parallel_map_to] in Hrun. minv Hrun. minv Hrun. destruct a1; [|done].
  apply elem_of_cons in Hx as [->|Hx]; eauto 10.
Qed.

(** Rule of iteration, when every item is handled and accepted. *)
Lemma parallel_map_to_ind {W A B} (P : list A → W → Prop) (f : A → M W B) cb (l : list A) w :
  P [] w →
  (∀ pre x post w, l = pre ++ x :: post → P pre w →
     ∃ w1 y w2, f x w = (w1, Ok y) ∧ cb x y w1 = (w2, Ok true) ∧ P (pre ++ [x]) w2) →
  ∃ w', parallel_map_to f cb l w = (w', Ok true) ∧ P l w'.
Proof.
  intros H0 Hstep. assert (∀ post pre w, l = pre ++ post → P pre w →
    ∃ w', parallel_map_to f cb post w = (w', Ok true) ∧ P l w') as Hgen; [|by apply (Hgen l [])].
  clear w H0. induction post as [|x post IH]; intros pre w Hl HP.
  - rewrite app_nil_r in Hl. subst pre. by exists w.
  - destruct (Hstep pre x post w Hl HP) as (w1 & y & w2 & Hf & Hcb & HP2).
    destruct (IH (pre ++ [x]) w2) as (w' & Hrun & HP'); [by rewrite <- app_assoc|done|].
    exists w'. split; [|done]. cbn [parallel_map_to]. erewrite bind_ok by exact Hf. by erewrite bind_ok by exact Hcb.
Qed.
End Files.
