(* ===== verification/Base64.v ===== *)
(** * Base64 ([base64.b64encode], [base64.b64decode])

    Small files are embedded in the manifest as base64 text
    ([content_b64] of [SnapshotFile]), written by [node/snapshotter.py] and
    read back by [node/download.py].  The two Standard Library functions are
    modelled as CPython's [binascii] implements them: the decoder is its
    state machine, which skips characters outside the alphabet. *)

From stdpp Require Import base strings list.
From Stdlib Require Import ZArith NArith Ascii Lia Strings.Byte.
From S2P Require Import Prelude.

Local Open Scope N_scope.

#[global] Instance byte_eq_dec : EqDecision byte := Byte.byte_eq_dec.

Module Base64.

Definition alphabet : string := "ABCDEFGHIJKLMNOPQRSTUVWXYZabcdefghijklmnopqrstuvwxyz0123456789+/".

Definition char_of (n : N) : ascii := default "A"%char (String.get (N.to_nat n) alphabet).

(** The value of a character of the alphabet. *)
Fixpoint index_from (i : N) (c : ascii) (s : string) : option N :=
  match s with
  | EmptyString => None
  | String c' s' => if Ascii.eqb c c' then Some i else index_from (i + 1) c s'
  end.
Definition value_of (c : ascii) : option N := index_from 0 c alphabet.

Definition byte_of (n : N) : byte := default x00 (Byte.of_N (N.land n 255)).

(** Three bytes make four characters; a shorter last group is padded. *)
Fixpoint b64encode (l : list byte) : string :=
  match l with
  | [] => ""
  | [a] =>
      let a := Byte.to_N a in
      String (char_of (N.shiftr a 2)) (String (char_of (N.shiftl (N.land a 3) 4)) "==")
  | [a; b] =>
      let a := Byte.to_N a in let b := Byte.to_N b in
      String (char_of (N.shiftr a 2))
        (String (char_of (N.lor (N.shiftl (N.land a 3) 4) (N.shiftr b 4)))
          (String (char_of (N.shiftl (N.land b 15) 2)) "="))
  | a :: b :: c :: l' =>
      let a := Byte.to_N a in let b := Byte.to_N b in let c := Byte.to_N c in
      String (char_of (N.shiftr a 2))
        (String (char_of (N.lor (N.shiftl (N.land a 3) 4) (N.shiftr b 4)))
          (String (char_of (N.lor (N.shiftl (N.land b 15) 2) (N.shiftr c 6)))
            (String (char_of (N.land c 63)) (b64encode l'))))
  end.

(** The decoder: position in the group of four, bits left over from the
    previous character, and the number of padding characters just seen. *)
Fixpoint a2b (quad_pos : nat) (leftchar : N) (pads : nat) (s : string) : res (list byte) :=
  match s with
  | EmptyString => if decide (quad_pos = 0%nat) then Ok [] else Raise ValueError
  | String c s' =>
      if Ascii.eqb c "=" then
        if (2 <=? quad_pos)%nat && (4 <=? quad_pos + S pads)%nat then Ok []
        else a2b quad_pos leftchar (if (2 <=? quad_pos)%nat then S pads else pads) s'
      else
        match value_of c with
        | None => a2b quad_pos leftchar pads s'
        | Some v =>
            match quad_pos with
            | 0%nat => a2b 1 v 0 s'
            | 1%nat => l ← a2b 2 (N.land v 15) 0 s'; Ok (byte_of (N.lor (N.shiftl leftchar 2) (N.shiftr v 4)) :: l)
            | 2%nat => l ← a2b 3 (N.land v 3) 0 s'; Ok (byte_of (N.lor (N.shiftl leftchar 4) (N.shiftr v 2)) :: l)
            | _ => l ← a2b 0 0 0 s'; Ok (byte_of (N.lor (N.shiftl leftchar 6) v) :: l)
            end
        end
  end.

Definition b64decode (s : string) : res (list byte) := a2b 0 0 0 s.

(** ** Round trip, by exhaustion on the bytes of each character *)
Definition all_bytes : list byte := omap (λ n, Byte.of_N (N.of_nat n)) (seq 0 256).

Lemma elem_of_all_bytes (b : byte) : b ∈ all_bytes.
Proof.
  apply list_elem_of_omap. exists (N.to_nat (Byte.to_N b)). rewrite N2Nat.id. split; [|apply Byte.of_to_N].
  apply elem_of_seq. pose proof (Byte.to_N_bounded b). lia.
Qed.

Lemma for_all_bytes (P : byte → bool) : forallb P all_bytes = true → ∀ b, P b = true.
Proof. rewrite forallb_forall. intros H b. apply H, list_elem_of_In, elem_of_all_bytes. Qed.

Definition nibble_ok (n : N) : bool :=
  bool_decide (value_of (char_of n) = Some n) && negb (Ascii.eqb (char_of n) "=").

(** The four characters of a group and the bytes read from them. *)
Definition first_ok (a : byte) : bool :=
  let a' := Byte.to_N a in nibble_ok (N.shiftr a' 2) && nibble_ok (N.shiftl (N.land a' 3) 4) &&
  bool_decide (byte_of (N.lor (N.shiftl (N.shiftr a' 2) 2) (N.shiftr (N.shiftl (N.land a' 3) 4) 4)) = a).
Definition second_ok (a b : byte) : bool :=
  let a' := Byte.to_N a in let b' := Byte.to_N b in
  let v := N.lor (N.shiftl (N.land a' 3) 4) (N.shiftr b' 4) in
  nibble_ok v && bool_decide (byte_of (N.lor (N.shiftl (N.shiftr a' 2) 2) (N.shiftr v 4)) = a) &&
  bool_decide (N.land v 15 = N.shiftr b' 4).
Definition third_ok (b c : byte) : bool :=
  let b' := Byte.to_N b in let c' := Byte.to_N c in
  let v := N.lor (N.shiftl (N.land b' 15) 2) (N.shiftr c' 6) in
  nibble_ok v && bool_decide (byte_of (N.lor (N.shiftl (N.shiftr b' 4) 4) (N.shiftr v 2)) = b) &&
  bool_decide (N.land v 3 = N.shiftr c' 6).
Definition padded_ok (b : byte) : bool :=
  let b' := Byte.to_N b in let v := N.shiftl (N.land b' 15) 2 in
  nibble_ok v && bool_decide (byte_of (N.lor (N.shiftl (N.shiftr b' 4) 4) (N.shiftr v 2)) = b).
Definition fourth_ok (c : byte) : bool :=
  let c' := Byte.to_N c in
  nibble_ok (N.land c' 63) && bool_decide (byte_of (N.lor (N.shiftl (N.shiftr c' 6) 6) (N.land c' 63)) = c).

Lemma first_all a : first_ok a = true.
Proof. revert a. apply for_all_bytes. vm_compute. reflexivity. Qed.
Lemma second_all a b : second_ok a b = true.
Proof.
  revert b. apply for_all_bytes. revert a. apply (for_all_bytes (λ a, forallb (second_ok a) all_bytes)).
  vm_compute. reflexivity.
Qed.
Lemma third_all b c : third_ok b c = true.
Proof.
  revert c. apply for_all_bytes. revert b. apply (for_all_bytes (λ a, forallb (third_ok a) all_bytes)).
  vm_compute. reflexivity.
Qed.
Lemma padded_all b : padded_ok b = true.
Proof. revert b. apply for_all_bytes. vm_compute. reflexivity. Qed.
Lemma fourth_all c : fourth_ok c = true.
Proof. revert c. apply for_all_bytes. vm_compute. reflexivity. Qed.

Lemma a2b_char (quad_pos : nat) leftchar pads n s :
  nibble_ok n = true →
  a2b quad_pos leftchar pads (String (char_of n) s) =
  match quad_pos with
  | 0%nat => a2b 1 n 0 s
  | 1%nat => l ← a2b 2 (N.land n 15) 0 s; Ok (byte_of (N.lor (N.shiftl leftchar 2) (N.shiftr n 4)) :: l)
  | 2%nat => l ← a2b 3 (N.land n 3) 0 s; Ok (byte_of (N.lor (N.shiftl leftchar 4) (N.shiftr n 2)) :: l)
  | _ => l ← a2b 0 0 0 s; Ok (byte_of (N.lor (N.shiftl leftchar 6) n) :: l)
  end.
Proof.
  intros [Hv He]%andb_prop. apply bool_decide_eq_true in Hv. apply negb_true_iff in He.
  cbn [a2b]. by rewrite He, Hv.
Qed.

Ltac split_ok H := cbv zeta in H; repeat match type of H with (_ && _) = true =>
  let H' := fresh in apply andb_prop in H as [H H']; try apply bool_decide_eq_true in H' end;
  cbn [mbind res_bind].

Lemma b64_decode_encode (l : list byte) : b64decode (b64encode l) = Ok l.
Proof.
  unfold b64decode. revert l. fix IH 1. intros [|a [|b [|c l]]].
  - done.
  - pose proof (first_all a) as Ha. unfold first_ok in Ha. split_ok Ha. cbn [b64encode].
    rewrite a2b_char by done. rewrite a2b_char by done. cbn [mbind res_bind]. repeat match goal with H : _ = _ |- _ => rewrite H end. done.
  - pose proof (first_all a) as Ha. unfold first_ok in Ha. split_ok Ha.
    pose proof (second_all a b) as Hb. unfold second_ok in Hb. split_ok Hb.
    pose proof (padded_all b) as Hp. unfold padded_ok in Hp. split_ok Hp. cbn [b64encode].
    rewrite a2b_char by done. rewrite a2b_char by done. rewrite a2b_char by done. cbn [mbind res_bind]. repeat match goal with H : _ = _ |- _ => rewrite H end. done.
  - pose proof (first_all a) as Ha. unfold first_ok in Ha. split_ok Ha.
    pose proof (second_all a b) as Hb. unfold second_ok in Hb. split_ok Hb.
    pose proof (third_all b c) as Hp. unfold third_ok in Hp. split_ok Hp.
    pose proof (fourth_all c) as Hc. unfold fourth_ok in Hc. split_ok Hc. cbn [b64encode].
    rewrite a2b_char by done. rewrite a2b_char by done. rewrite a2b_char by done. rewrite a2b_char by done.
    rewrite IH. cbn [mbind res_bind]. repeat match goal with H : _ = _ |- _ => rewrite H end. done.
Qed.

(** Embedded contents survive the manifest: decoding the base64 text of
    any bytes gives them back. *)
Theorem b64_roundtrip (l : list byte) : b64decode (b64encode l) = Ok l.
Proof. apply b64_decode_encode. Qed.
End Base64.
