(* ===== verification/CassSchema.v ===== *)
(** * The schema of a Cassandra cluster ([common/cassandra/schema.py],
      [execute_on_all] of [common/cassandra/client.py],
      [common/cassandra/utils.py])

    Reading identifiers out of CQL types, ordering user types so that each
    can be created, and restoring the objects of a backed up schema that do
    not exist yet.  The driver is a parameter: the metadata it keeps of the
    cluster and the execution of one statement. *)

From stdpp Require Import base gmap strings list sorting.
From Stdlib Require Import ZArith Lia Ascii.
From S2P Require Import Prelude.

Module CassSchema.

(** ** Identifiers in a CQL type *)
Definition is_letter (c : ascii) : bool :=
  let n := nat_of_ascii c in ((65 <=? n) && (n <=? 90) || (97 <=? n) && (n <=? 122))%nat.
Definition is_ident_char (c : ascii) : bool :=
  let n := nat_of_ascii c in is_letter c || ((48 <=? n) && (n <=? 57) || (n =? 95))%nat.
Definition quote : ascii := ascii_of_nat 34.

(** The rest of [UNQUOTED_IDENTIFIER_RE] after its first character: the longest
    run of identifier characters. *)
Fixpoint ident_rest (s : string) : string * string :=
  match s with
  | String c s' => if is_ident_char c then let '(m, r) := ident_rest s' in (String c m, r) else (EmptyString, s)
  | EmptyString => (EmptyString, EmptyString)
  end.

(** [QUOTED_IDENTIFIER_RE] after the opening quote and at least one repetition:
    the repetition is greedy and gives back a doubled quote when no closing
    quote follows.  The result is the body as written, and what follows the
    closing quote. *)
Fixpoint quoted_rest (s : string) : option (string * string) :=
  match s with
  | EmptyString => None
  | String c s' =>
      if decide (c = quote) then
        match s' with
        | String d s'' =>
            if decide (d = quote) then
              match quoted_rest s'' with
              | Some (m, r) => Some (String c (String d m), r)
              | None => Some (EmptyString, s')
              end
            else Some (EmptyString, s')
        | EmptyString => Some (EmptyString, s')
        end
      else match quoted_rest s' with Some (m, r) => Some (String c m, r) | None => None end
  end.

(** The first repetition. *)
Definition quoted_body (s : string) : option (string * string) :=
  match s with
  | String c s' =>
      if decide (c = quote) then
        match s' with
        | String d s'' =>
            if decide (d = quote) then
              match quoted_rest s'' with Some (m, r) => Some (String c (String d m), r) | None => None end
            else None
        | EmptyString => None
        end
      else match quoted_rest s' with Some (m, r) => Some (String c m, r) | None => None end
  | EmptyString => None
  end.

(** [str.replace] of a doubled quote by one. *)
Fixpoint undouble (s : string) : string :=
  match s with
  | String c s' =>
      match s' with
      | String d s'' => if decide (c = quote ∧ d = quote) then String quote (undouble s'') else String c (undouble s')
      | EmptyString => s
      end
  | EmptyString => EmptyString
  end.

Definition lower_char (c : ascii) : ascii :=
  let n := nat_of_ascii c in if ((65 <=? n) && (n <=? 90))%nat then ascii_of_nat (n + 32) else c.
Fixpoint lower (s : string) : string :=
  match s with String c s' => String (lower_char c) (lower s') | EmptyString => EmptyString end.

Definition builtin_types : list string := ["map"; "set"; "list"; "frozen"; "tuple"].

(** [re.findall], with what is made of each match; every step consumes a
    character, so the length of the text is fuel enough. *)
Fixpoint scan (fuel : nat) (s : string) : list string :=
  match fuel, s with
  | S fuel', String c s' =>
      if is_letter c then
        let '(m, r) := ident_rest s' in
        let normalized := lower (String c m) in
        (if decide (normalized ∈ builtin_types) then [] else [normalized]) ++ scan fuel' r
      else if decide (c = quote) then
        match quoted_body s' with
        | Some (m, r) => undouble m :: scan fuel' r
        | None => scan fuel' s'
        end
      else scan fuel' s'
  | _, _ => []
  end.
Definition iterate_identifiers_in_cql_type_definition (definition : string) : list string :=
  scan (String.length definition) definition.

(** ** The schema *)
Record Named : Type := mkNamed {
  name : string;
  cql_create_self : string;
}.

Record UserType : Type := mkUserType {
  ut_named : Named;
  field_types : list string;
}.

Record Function_ : Type := mkFunction {
  fn_named : Named;
  argument_types : list string;
}.

Record Table : Type := mkTable {
  tb_named : Named;
  indexes : list Named;
  materialized_views : list Named;
  triggers : list Named;
}.

Record Keyspace : Type := mkKeyspace {
  ks_named : Named;
  network_topology_strategy_dcs : list (string * string);
  durable_writes : bool;
  aggregates : list Function_;
  functions : list Function_;
  tables : list Table;
  user_types : list UserType;
}.

Definition ut_name (u : UserType) : string := name (ut_named u).
Definition tb_name (t : Table) : string := name (tb_named t).
Definition ks_name (k : Keyspace) : string := name (ks_named k).

#[global] Instance Named_eq_dec : EqDecision Named. Proof. solve_decision. Defined.
#[global] Instance UserType_eq_dec : EqDecision UserType. Proof. solve_decision. Defined.

Definition CassandraNamed_lt (a b : Named) : bool := bool_decide (String.ltb (name a) (name b) = true).

(** [<] on lists of strings *)
Fixpoint strings_lt (a b : list string) : bool :=
  match a, b with
  | _, [] => false
  | [], _ :: _ => true
  | x :: a', y :: b' => if decide (x = y) then strings_lt a' b' else String.ltb x y
  end.

Definition CassandraFunction_lt (a b : Function_) : bool :=
  if String.ltb (name (fn_named a)) (name (fn_named b)) then true
  else if strings_lt (argument_types a) (argument_types b) then true else false.

(** *** [get_create_statement]; [protect_name] is the driver's. *)
Section statements.
Context (protect_name : string → string).

Definition get_field_repr (arg : string * string) : string := protect_name arg.1 +:+ " " +:+ arg.2.

Definition function_create_statement (keyspace fname : string) (arguments : list (string * string))
    (return_type language body : string) (called_on_null_input : bool) : string :=
  let on_null := if called_on_null_input then "CALLED" else "RETURNS NULL" in
  "CREATE FUNCTION " +:+ protect_name keyspace +:+ "." +:+ protect_name fname +:+
  "(" +:+ String.concat ", " (get_field_repr <$> arguments) +:+ ") " +:+
  on_null +:+ " ON NULL INPUT " +:+ "RETURNS " +:+ return_type +:+ " " +:+ "LANGUAGE " +:+ language +:+ " " +:+
  "AS $$" +:+ body +:+ "$$".

(** [None] and the empty string are false. *)
Definition truthy (x : option string) : bool := bool_decide (x ≠ None ∧ x ≠ Some "").

Definition aggregate_create_statement (keyspace fname : string) (arguments : list string) (state_func state_type : string)
    (final_func initial_condition : option string) : string :=
  "CREATE AGGREGATE " +:+ protect_name keyspace +:+ "." +:+ protect_name fname +:+
  "(" +:+ String.concat ", " arguments +:+ ") " +:+
  "SFUNC " +:+ protect_name state_func +:+ " " +:+ "STYPE " +:+ state_type +:+
  (if truthy final_func then " FINALFUNC " +:+ protect_name (default "" final_func) else "") +:+
  (if truthy initial_condition then " INITCOND " +:+ default "" initial_condition else "").
End statements.

(** ** The order of user types *)
Definition referred_normalized_identifiers (u : UserType) : gset string :=
  list_to_set (concat (iterate_identifiers_in_cql_type_definition <$> field_types u)).

(** The dictionary [pending]. *)
Definition pending_types (l : list UserType) : list (string * UserType) :=
  foldl (λ d u, dict_set (ut_name u) u d) [] l.

Definition is_ready (pending : list (string * UserType)) (p : string * UserType) : bool :=
  bool_decide ((list_to_set pending.*1 : gset string) ∩ referred_normalized_identifiers p.2 = ∅).

(** [while pending]: what the generator has yielded, and how it ended.
    [pending_set] does not change during a pass. *)
Fixpoint order_loop (fuel : nat) (pending : list (string * UserType)) : list UserType * res unit :=
  match pending with
  | [] => ([], Ok tt)
  | _ =>
      match fuel with
      | O => ([], Raise OutOfFuel)
      | S fuel' =>
          let ready := filter (λ p, is_ready pending p = true) pending in
          if decide (ready = []) then ([], Raise ValueError)
          else
            let '(l, r) := order_loop fuel' (filter (λ p, is_ready pending p = false) pending) in
            (ready.*2 ++ l, r)
      end
  end.

Definition iterate_user_types_in_restore_order (k : Keyspace) : list UserType * res unit :=
  let pending := pending_types (user_types k) in order_loop (length pending) pending.

(** ** Restoring *)
Definition SYSTEM_KEYSPACES : list string := ["system"; "system_distributed"; "system_schema"; "system_traces"].
Definition is_system_keyspace (k : string) : bool := bool_decide (k ∈ SYSTEM_KEYSPACES).

(** What is read of the metadata of the driver. *)
Record TableMetadata : Type := mkTableMetadata {
  tm_indexes : gset string;
  tm_triggers : gset string;
  tm_views : gset string;
}.
Record KeyspaceMetadata : Type := mkKeyspaceMetadata {
  km_user_types : gset string;
  km_tables : gmap string TableMetadata;
  km_functions : list (string * list string);
  km_aggregates : list (string * list string);
}.

(** [statement.split] at a semicolon followed by two line ends *)
Fixpoint split_statements (s : string) : list string :=
  match s with
  | EmptyString => [EmptyString]
  | String a s1 =>
      let here := match split_statements s1 with [] => [] | x :: l => String a x :: l end in
      match s1 with
      | String b (String c s3) =>
          if decide (a = ";"%char ∧ b = ascii_of_nat 10 ∧ c = ascii_of_nat 10) then EmptyString :: split_statements s3
          else here
      | _ => here
      end
  end.

(** [held km s] is what the object of a keyspace that showed [km] when it was
    read shows in a later state [s]: the driver replaces some of these objects
    and changes others in place. *)
Section restore.
Context {S : Type} (metadata : S → gmap string KeyspaceMetadata) (held : KeyspaceMetadata → S → KeyspaceMetadata)
  (execute : string → M S unit).

Definition execute_on_all (statement : string) : M S unit := for_each (split_statements statement) execute.

Definition restore_if_needed (x : Named) (existing : gset string) : M S unit :=
  if decide (name x ∈ existing) then mret tt else execute_on_all (cql_create_self x).

(** [metadata.keyspaces[name]] *)
Definition keyspace_metadata (k : string) : M S KeyspaceMetadata :=
  s ← get; match metadata s !! k with Some km => mret km | None => raise KeyError end.

Definition user_type_restore_in_keyspace (km : KeyspaceMetadata) (u : UserType) : M S unit :=
  s ← get; restore_if_needed (ut_named u) (km_user_types (held km s)).

(** [CassandraKeyspace.restore]; the types are created as they are yielded. *)
Definition keyspace_restore (k : Keyspace) : M S unit :=
  s ← get;
  restore_if_needed (ks_named k) (dom (metadata s)) ;;
  km ← keyspace_metadata (ks_name k);
  let '(l, r) := iterate_user_types_in_restore_order k in
  for_each l (user_type_restore_in_keyspace km) ;;
  lift_res r ;;
  for_each (tables k) (λ t, s ← get; restore_if_needed (tb_named t) (dom (km_tables (held km s)))).

Definition function_restore_in_keyspace (get_metadata_dict : KeyspaceMetadata → list (string * list string))
    (km : KeyspaceMetadata) (f : Function_) : M S unit :=
  s ← get;
  if decide ((name (fn_named f), argument_types f) ∈ get_metadata_dict (held km s)) then mret tt
  else execute_on_all (cql_create_self (fn_named f)).

Definition table_restore_post_data_in_keyspace (km : KeyspaceMetadata) (t : Table) : M S unit :=
  s ← get;
  match km_tables (held km s) !! tb_name t with
  | None => raise KeyError
  | Some tm =>
      for_each (indexes t) (λ x, restore_if_needed x (tm_indexes tm)) ;;
      for_each (triggers t) (λ x, restore_if_needed x (tm_triggers tm)) ;;
      for_each (materialized_views t) (λ x, restore_if_needed x (tm_views tm))
  end.

Definition keyspace_restore_post_data (k : Keyspace) : M S unit :=
  km ← keyspace_metadata (ks_name k);
  for_each (functions k) (function_restore_in_keyspace km_functions km) ;;
  for_each (aggregates k) (function_restore_in_keyspace km_aggregates km) ;;
  for_each (tables k) (table_restore_post_data_in_keyspace km).

Definition restore_pre_data (keyspaces : list Keyspace) : M S unit :=
  for_each keyspaces (λ k, if is_system_keyspace (ks_name k) then mret tt else keyspace_restore k).

Definition restore_post_data (keyspaces : list Keyspace) : M S unit :=
  for_each keyspaces (λ k, if is_system_keyspace (ks_name k) then mret tt else keyspace_restore_post_data k).
End restore.

(** ** The order of user types is right *)
Definition refers (x y : UserType) : Prop := ut_name y ∈ referred_normalized_identifiers x.

Lemma pending_types_eq l : NoDup (ut_name <$> l) → pending_types l = (λ u, (ut_name u, u)) <$> l.
Proof.
  unfold pending_types. assert (∀ d, NoDup (d.*1 ++ (ut_name <$> l)) →
    foldl (λ d u, dict_set (ut_name u) u d) d l = d ++ ((λ u, (ut_name u, u)) <$> l)) as H.
  { induction l as [|u l IH]; intros d Hnd; csimpl; [by rewrite app_nil_r|].
    csimpl in Hnd. assert (dict_set (ut_name u) u d = d ++ [(ut_name u, u)]) as Hset.
    { apply NoDup_app in Hnd as (_ & Hd & _). assert (ut_name u ∉ d.*1) as Hu by (intros ?; eapply Hd; [done|by left]).
      clear -Hu. induction d as [|[k v] d IH]; [done|]. unfold dict_set in *. csimpl in Hu.
      apply not_elem_of_cons in Hu as [Hk Hu]. simpl. rewrite decide_False by done. by rewrite IH. }
    rewrite Hset, IH; [by rewrite <- app_assoc|]. rewrite fmap_app. csimpl. by rewrite <- app_assoc. }
  intros Hnd. apply (H []). done.
Qed.

(** What the generator has yielded and what it has not. *)
Definition ordered_split (all l rest : list UserType) : Prop :=
  all ≡ₚ l ++ rest ∧
  ∀ pre x post, l = pre ++ x :: post → ∀ y, y ∈ all → refers x y → y ∈ pre.

Lemma is_ready_spec pending p y :
  (∀ q, q ∈ pending → q.1 = ut_name q.2) → is_ready pending p = true → y ∈ pending.*2 → ¬ refers p.2 y.
Proof.
  intros Hk Hr Hy Href. apply bool_decide_eq_true in Hr. apply list_elem_of_fmap in Hy as (q & -> & Hq).
  apply Hk in Hq as Hqk. assert (ut_name q.2 ∈ (list_to_set pending.*1 : gset string)) as Hin.
  { rewrite elem_of_list_to_set. apply list_elem_of_fmap. exists q. by rewrite Hqk. }
  unfold refers in Href. set_solver.
Qed.

Lemma filter_bool_split {A} (f : A → bool) (l : list A) :
  l ≡ₚ filter (λ x, f x = true) l ++ filter (λ x, f x = false) l.
Proof.
  induction l as [|x l IH]; [done|]. destruct (f x) eqn:E.
  - rewrite filter_cons_True, (filter_cons_False (λ x, f x = false)) by congruence. simpl. by rewrite <- IH.
  - rewrite filter_cons_False, (filter_cons_True (λ x, f x = false)) by congruence.
    rewrite <- Permutation_middle. by rewrite <- IH.
Qed.

Lemma order_loop_spec fuel pending :
  (∀ q, q ∈ pending → q.1 = ut_name q.2) → (length pending <= fuel)%nat →
  ∃ l r rest, order_loop fuel pending = (l, r) ∧ ordered_split pending.*2 l rest ∧
    (r = Ok tt ∧ rest = [] ∨ r = Raise ValueError ∧ rest ≠ [] ∧ ∀ x, x ∈ rest → ∃ y, y ∈ rest ∧ refers x y).
Proof.
  revert pending. induction fuel as [|fuel IH]; intros pending Hk Hlen.
  { destruct pending; [|simpl in Hlen; lia]. exists [], (Ok tt), []. split; [done|]. split; [|by left].
    split; [done|]. by intros [] ? ?. }
  destruct pending as [|p0 pending0] eqn:Ep.
  { exists [], (Ok tt), []. split; [done|]. split; [|by left]. split; [done|]. by intros [] ? ?. }
  rewrite <- Ep in *. assert (pending ≠ []) as Hne by (by rewrite Ep). clear Ep.
  set (ready := filter (λ p, is_ready pending p = true) pending).
  set (later := filter (λ p, is_ready pending p = false) pending).
  assert (order_loop (Datatypes.S fuel) pending = if decide (ready = []) then ([], Raise ValueError)
    else let '(l, r) := order_loop fuel later in (ready.*2 ++ l, r)) as -> by (by destruct pending).
  pose proof (filter_bool_split (is_ready pending) pending) as Hperm. fold ready later in Hperm.
  case_decide as Hr.
  { exists [], (Raise ValueError), pending.*2. split; [done|]. split; [split; [done|by intros [] ? ?]|]. right.
    split; [done|]. split; [by destruct pending|]. intros x (p & -> & Hp)%list_elem_of_fmap.
    assert (is_ready pending p = false) as Hnr.
    { destruct (is_ready pending p) eqn:E; [|done]. exfalso. apply (not_elem_of_nil p). rewrite <- Hr.
      by apply list_elem_of_filter. }
    apply bool_decide_eq_false in Hnr. apply set_choose_L in Hnr as [n Hn].
    apply elem_of_intersection in Hn as [Hn1 Hn2]. rewrite elem_of_list_to_set in Hn1.
    apply list_elem_of_fmap in Hn1 as (q & -> & Hq). exists q.2. split; [apply list_elem_of_fmap; eauto|].
    unfold refers. by rewrite <- Hk. }
  destruct (IH later) as (l & r & rest & -> & (Hp & Ho) & Hend).
  { intros q [_ Hq]%list_elem_of_filter. auto. }
  { apply Permutation_length in Hperm. rewrite length_app in Hperm. destruct ready; [done|]. simpl in Hperm. lia. }
  exists (ready.*2 ++ l), r, rest. split; [done|]. split; [|done]. split.
  { rewrite Hperm at 1. by rewrite fmap_app, Hp, <- app_assoc. }
  intros pre x post Heq y Hy Href.
  rewrite Hperm, fmap_app in Hy. apply app_eq_inv in Heq as [(k & Hl & Hk2)|(k & Hpre & Hl)].
  - (* x is ready, or the first of the later ones *)
    destruct k as [|x' k].
    + rewrite app_nil_r in Hl. subst pre. simpl in Hk2. symmetry in Hk2.
      apply elem_of_app in Hy as [Hy|Hy]; [done|]. exfalso.
      apply (not_elem_of_nil y). apply (Ho [] x post Hk2 y Hy Href).
    + injection Hk2 as -> Hpost. exfalso.
      assert (x' ∈ ready.*2) as Hx by (rewrite Hl; apply elem_of_app; right; by left).
      apply list_elem_of_fmap in Hx as (p & -> & [Hpr Hpp]%list_elem_of_filter).
      apply (is_ready_spec pending p y Hk Hpr); [|done]. by rewrite Hperm, fmap_app.
  - subst pre. apply elem_of_app. apply elem_of_app in Hy as [Hy|Hy]; [by left|right]. by eapply Ho.
Qed.

(** The order in which user types are created: each type is yielded at most
    once and after every type of the keyspace it refers to; all are yielded,
    or some types refer to each other in a circle and [ValueError] is raised
    after the others. *)
Theorem user_types_in_order (k : Keyspace) :
  NoDup (ut_name <$> user_types k) →
  ∃ l r rest, iterate_user_types_in_restore_order k = (l, r) ∧ ordered_split (user_types k) l rest ∧
    (r = Ok tt ∧ rest = [] ∨ r = Raise ValueError ∧ rest ≠ [] ∧ ∀ x, x ∈ rest → ∃ y, y ∈ rest ∧ refers x y).
Proof.
  intros Hnd. unfold iterate_user_types_in_restore_order. rewrite (pending_types_eq _ Hnd).
  destruct (order_loop_spec (length ((λ u, (ut_name u, u)) <$> user_types k)) ((λ u, (ut_name u, u)) <$> user_types k))
    as (l & r & rest & H1 & H2 & H3); [|done|].
  { by intros q (u & -> & _)%list_elem_of_fmap. }
  exists l, r, rest. split; [done|]. split; [|done].
  rewrite <- list_fmap_compose in H2. by rewrite list_fmap_id in H2.
Qed.

(** The comparison of functions is no order: of these two, each is less than
    the other, so that sorting depends on the order the driver lists them. *)
Example function_lt_not_antisymmetric :
  let f := mkFunction (mkNamed "f" "") ["int"] in
  let g := mkFunction (mkNamed "g" "") ["ascii"] in
  CassandraFunction_lt f g = true ∧ CassandraFunction_lt g f = true.
Proof. split; reflexivity. Qed.

(** ** Identifiers *)
Fixpoint double_quotes (s : string) : string :=
  match s with
  | String c s' => if decide (c = quote) then String quote (String quote (double_quotes s')) else String c (double_quotes s')
  | EmptyString => EmptyString
  end.

Lemma quoted_rest_close r : (∀ r', r ≠ String quote r') → quoted_rest (String quote r) = Some (EmptyString, r).
Proof.
  intros Hr. unfold quoted_rest at 1. rewrite (decide_True _ _ (eq_refl quote)). fold quoted_rest.
  destruct r as [|d r]; [done|]. rewrite decide_False; [done|]. intros ->. by apply (Hr r).
Qed.

Lemma quoted_rest_quotes s :
  quoted_rest (String quote (String quote s)) =
  match quoted_rest s with
  | Some (m, r) => Some (String quote (String quote m), r)
  | None => Some (EmptyString, String quote s)
  end.
Proof. reflexivity. Qed.

Lemma quoted_rest_other c s :
  c ≠ quote →
  quoted_rest (String c s) = match quoted_rest s with Some (m, r) => Some (String c m, r) | None => None end.
Proof. intros Hc. unfold quoted_rest at 1. by rewrite decide_False. Qed.

Lemma quoted_rest_doubled s r :
  (∀ r', r ≠ String quote r') →
  quoted_rest (double_quotes s +:+ String quote r) = Some (double_quotes s, r).
Proof.
  intros Hr. induction s as [|c s IH]; [by apply quoted_rest_close|]. cbn [double_quotes]. case_decide as Hc.
  - change (String quote (String quote (double_quotes s)) +:+ String quote r) with
      (String quote (String quote (double_quotes s +:+ String quote r))). by rewrite quoted_rest_quotes, IH.
  - change (String c (double_quotes s) +:+ String quote r) with (String c (double_quotes s +:+ String quote r)).
    by rewrite quoted_rest_other, IH.
Qed.

Lemma undouble_doubled s : undouble (double_quotes s) = s.
Proof.
  induction s as [|c s IH]; [done|]. cbn [double_quotes]. case_decide as Hc.
  - subst c. cbn [undouble]. rewrite decide_True by done. by rewrite IH.
  - destruct (double_quotes s) as [|d t] eqn:E.
    { cbn [undouble]. destruct s as [|e s]; [done|]. simpl in E. by destruct (decide (e = quote)). }
    change (undouble (String c (String d t))) with
      (if decide (c = quote ∧ d = quote) then String quote (undouble t) else String c (undouble (String d t))).
    rewrite decide_False by naive_solver. by rewrite IH.
Qed.

(** A quoted identifier, written as Cassandra writes it, is read back as it
    is, whatever characters it has. *)
Theorem quoted_identifier_roundtrip (s : string) :
  s ≠ "" →
  iterate_identifiers_in_cql_type_definition (String quote (double_quotes s +:+ String quote "")) = [s].
Proof.
  intros Hs. unfold iterate_identifiers_in_cql_type_definition. cbn [String.length scan].
  change (is_letter quote) with false. cbv iota. rewrite decide_True by done.
  assert (quoted_body (double_quotes s +:+ String quote "") = Some (double_quotes s, "")) as ->.
  { destruct s as [|c s]; [done|]. pose proof (quoted_rest_doubled s "" ltac:(done)) as Hq.
    cbn [double_quotes]. case_decide as Hc.
    - change (String quote (String quote (double_quotes s)) +:+ String quote "") with
        (String quote (String quote (double_quotes s +:+ String quote ""))).
      unfold quoted_body. rewrite !(decide_True _ _ (eq_refl quote)). by rewrite Hq.
    - change (String c (double_quotes s) +:+ String quote "") with (String c (double_quotes s +:+ String quote "")).
      unfold quoted_body. rewrite decide_False by done. by rewrite Hq. }
  rewrite undouble_doubled. f_equal. by destruct (String.length _).
Qed.

Example identifiers_of_a_collection :
  iterate_identifiers_in_cql_type_definition "frozen<map<Address, list<frozen<phone_2>>>>" = ["address"; "phone_2"].
Proof. vm_compute. reflexivity. Qed.

(** ** Restoring the schema *)
Section restore_spec.
Context {S : Type} (metadata : S → gmap string KeyspaceMetadata) (held : KeyspaceMetadata → S → KeyspaceMetadata)
  (execute : string → M S unit).
Local Notation execute_on_all := (execute_on_all execute).

(** Objects do not disappear. *)
Definition km_le (km km' : KeyspaceMetadata) : Prop :=
  km_user_types km ⊆ km_user_types km' ∧ dom (km_tables km) ⊆ dom (km_tables km').
Definition grows (s s' : S) : Prop :=
  ∀ k km, metadata s !! k = Some km → ∃ km', metadata s' !! k = Some km' ∧ km_le km km'.

#[global] Instance grows_preorder : PreOrder grows.
Proof using Type.
  clear held execute. split.
  - intros s k km Hk. exists km. split; [done|]. split; done.
  - intros s1 s2 s3 H1 H2 k km Hk. destruct (H1 k km Hk) as (km2 & Hk2 & H3 & H4).
    destruct (H2 k km2 Hk2) as (km3 & Hk3 & H5 & H6). exists km3. split; [done|]. split; set_solver.
Qed.

(** What a session promises about the objects of [keyspaces]: the metadata
    only grows, shows an object once its statement was executed, and an object
    read of it shows nothing that does not exist, and shows what it showed. *)
Class SessionLaws (keyspaces : list Keyspace) : Prop := {
  execute_grows st s : grows s (fst (execute st s));
  held_exists k km s s' : metadata s !! k = Some km → grows s s' →
    ∃ km', metadata s' !! k = Some km' ∧ km_le (held km s') km';
  held_shows k km s s' : metadata s !! k = Some km → grows s s' → km_le km (held km s');
  creates_keyspace k s s' : k ∈ keyspaces → execute_on_all (cql_create_self (ks_named k)) s = (s', Ok tt) →
    is_Some (metadata s' !! ks_name k);
  creates_user_type k u km s s' : k ∈ keyspaces → u ∈ user_types k → metadata s !! ks_name k = Some km →
    execute_on_all (cql_create_self (ut_named u)) s = (s', Ok tt) →
    ∃ km', metadata s' !! ks_name k = Some km' ∧ ut_name u ∈ km_user_types km';
  creates_table k t km s s' : k ∈ keyspaces → t ∈ tables k → metadata s !! ks_name k = Some km →
    execute_on_all (cql_create_self (tb_named t)) s = (s', Ok tt) →
    ∃ km', metadata s' !! ks_name k = Some km' ∧ tb_name t ∈ dom (km_tables km');
}.

(** All objects of a keyspace that are created before the data exist. *)
Definition restored (k : Keyspace) (s : S) : Prop :=
  ∃ km, metadata s !! ks_name k = Some km ∧
    (∀ u, u ∈ user_types k → ut_name u ∈ km_user_types km) ∧ (∀ t, t ∈ tables k → tb_name t ∈ dom (km_tables km)).

Lemma restored_grows k s s' : grows s s' → restored k s → restored k s'.
Proof.
  intros Hg (km & Hk & Hu & Ht). destruct (Hg _ _ Hk) as (km' & Hk' & H1 & H2). exists km'. split; [done|].
  split; intros x Hx; [apply H1|apply H2]; auto.
Qed.

(** A loop that only grows a relation establishes what each turn does. *)
Lemma for_each_establishes {A} (P : S → Prop) (Q : A → S → Prop) (l : list A) (f : A → M S unit) s s' :
  (∀ s1 s2, grows s1 s2 → P s1 → P s2) → (∀ x s1 s2, grows s1 s2 → Q x s1 → Q x s2) →
  (∀ x s1, x ∈ l → grows s1 (fst (f x s1))) →
  (∀ x s1 s2, x ∈ l → P s1 → f x s1 = (s2, Ok tt) → Q x s2) →
  P s → for_each l f s = (s', Ok tt) → grows s s' ∧ ∀ x, x ∈ l → Q x s'.
Proof.
  intros HP HQ Hgrow Hf. revert s. induction l as [|x l IH]; intros s Hs Hrun.
  { injection Hrun as <-. split; [done|]. by intros ? ?%not_elem_of_nil. }
  cbn [for_each] in Hrun. apply bind_inv_ok in Hrun as (s1 & [] & H1 & H2).
  pose proof (Hgrow x s ltac:(by left)) as Hg. rewrite H1 in Hg. simpl in Hg.
  destruct (IH ltac:(intros; apply Hgrow; by right) ltac:(intros; eapply Hf; [by right|done..]) s1) as [Hg2 Hall]; [eauto|done|].
  split; [by etrans|]. intros y [->|Hy]%elem_of_cons; [|auto].
  eapply HQ; [done|]. eapply Hf; [by left|done|done].
Qed.

Lemma for_each_grows {A} (l : list A) (f : A → M S unit) s :
  (∀ x s1, grows s1 (fst (f x s1))) → grows s (fst (for_each l f s)).
Proof.
  intros Hf. revert s. induction l as [|x l IH]; intros s; [done|]. cbn [for_each]. unfold mbind, M_bind.
  pose proof (Hf x s) as H. destruct (f x s) as [s1 [[]|e]]; simpl in *; [by etrans|done].
Qed.

Section laws.
Context (keyspaces : list Keyspace) `{!SessionLaws keyspaces}.

Lemma execute_on_all_grows st s : grows s (fst (execute_on_all st s)).
Proof using All. apply for_each_grows. intros; apply execute_grows. Qed.

Lemma restore_if_needed_grows x existing s : grows s (fst (restore_if_needed execute x existing s)).
Proof using All. unfold restore_if_needed. case_decide; [done|apply execute_on_all_grows]. Qed.

Lemma user_type_restore_grows km u s : grows s (fst (user_type_restore_in_keyspace held execute km u s)).
Proof using All.
  unfold user_type_restore_in_keyspace. rewrite (bind_ok get _ _ _ _ eq_refl). apply restore_if_needed_grows.
Qed.

Lemma table_restore_grows km t s :
  grows s (fst ((s0 ← get; restore_if_needed execute (tb_named t) (dom (km_tables (held km s0)))) s)).
Proof using All. rewrite (bind_ok get _ _ _ _ eq_refl). apply restore_if_needed_grows. Qed.

Lemma keyspace_restore_grows k s : grows s (fst (keyspace_restore metadata held execute k s)).
Proof using All.
  unfold keyspace_restore. rewrite (bind_ok get _ _ _ _ eq_refl). unfold mbind, M_bind.
  pose proof (restore_if_needed_grows (ks_named k) (dom (metadata s)) s) as H1.
  destruct (restore_if_needed _ _ _ s) as [s1 [[]|e]]; simpl in *; [|done].
  unfold keyspace_metadata. rewrite (bind_ok get _ _ _ _ eq_refl).
  destruct (metadata s1 !! ks_name k) as [km|]; simpl; [|done].
  destruct (iterate_user_types_in_restore_order k) as [l r].
  pose proof (for_each_grows l (user_type_restore_in_keyspace held execute km) s1 ltac:(intros; apply user_type_restore_grows)) as H2.
  destruct (for_each l _ s1) as [s2 [[]|e]]; simpl in *; [|by etrans].
  unfold lift_res. destruct r as [[]|e]; simpl; [|by etrans].
  etrans; [exact H1|]. etrans; [exact H2|]. apply for_each_grows. intros; apply table_restore_grows.
Qed.

Lemma keyspace_restore_ok k s s' :
  k ∈ keyspaces → NoDup (ut_name <$> user_types k) → keyspace_restore metadata held execute k s = (s', Ok tt) →
  restored k s' ∧ snd (iterate_user_types_in_restore_order k) = Ok tt.
Proof using All.
  intros Hk Hnd Hrun. unfold keyspace_restore in Hrun. rewrite (bind_ok get _ _ _ _ eq_refl) in Hrun.
  apply bind_inv_ok in Hrun as (s1 & [] & Hks & Hrun). apply bind_inv_ok in Hrun as (s2 & km & Hkm & Hrun).
  unfold keyspace_metadata in Hkm. rewrite (bind_ok get _ _ _ _ eq_refl) in Hkm.
  destruct (metadata s1 !! ks_name k) as [km1|] eqn:Ek; [|done]. injection Hkm as <- ->.
  destruct (user_types_in_order k Hnd) as (l & r & rest & E & [Hperm _] & Hr). rewrite E in Hrun |- *.
  apply bind_inv_ok in Hrun as (s3 & [] & Hut & Hrun). apply bind_inv_ok in Hrun as (s4 & [] & Hres & Htb).
  injection Hres as <- ->. destruct Hr as [[_ ->]|[? _]]; [|done]. rewrite app_nil_r in Hperm. split; [|done].
  set (QU := λ u s, ∃ km', metadata s !! ks_name k = Some km' ∧ ut_name u ∈ km_user_types km').
  set (QT := λ t s, ∃ km', metadata s !! ks_name k = Some km' ∧ tb_name t ∈ dom (km_tables km')).
  destruct (for_each_establishes (grows s1) QU l (user_type_restore_in_keyspace held execute km) s1 s3) as [Hg1 HU];
    [by intros; etrans| | | |done|done|].
  { intros x a b Hg (km' & H1 & H2). destruct (Hg _ _ H1) as (km2 & H4 & H5 & H6). exists km2. split; [done|]. set_solver. }
  { intros; apply user_type_restore_grows. }
  { intros u a b Hu Ha. destruct (held_exists _ _ _ _ Ek Ha) as (km' & H1 & H2 & _).
    unfold user_type_restore_in_keyspace. rewrite (bind_ok get _ _ _ _ eq_refl). unfold restore_if_needed. case_decide as Hex.
    - intros [= <-]. exists km'. split; [done|]. by apply H2.
    - intros Hrun. apply (creates_user_type k u km' a b Hk); [by rewrite Hperm|done|done]. }
  destruct (for_each_establishes (grows s1) QT (tables k)
    (λ t, s0 ← get; restore_if_needed execute (tb_named t) (dom (km_tables (held km s0)))) s3 s') as [Hg2 HT];
    [by intros; etrans| | | |done|done|].
  { intros x a b Hg (km' & H1 & H2). destruct (Hg _ _ H1) as (km2 & H4 & H5 & H6). exists km2. split; [done|]. set_solver. }
  { intros; apply table_restore_grows. }
  { intros t a b Ht Ha. destruct (held_exists _ _ _ _ Ek Ha) as (km' & H1 & _ & H2).
    rewrite (bind_ok get _ _ _ _ eq_refl). unfold restore_if_needed. case_decide as Hex.
    - intros [= <-]. exists km'. split; [done|]. by apply H2.
    - intros Hrun. by apply (creates_table k t km' a b Hk). }
  destruct (Hg1 _ _ Ek) as (km3 & Hk3 & _). destruct (Hg2 _ _ Hk3) as (km4 & Hk4 & [Hle _]).
  exists km4. split; [done|]. split.
  - intros u Hu. rewrite Hperm in Hu. destruct (HU u Hu) as (km' & H1 & H2). simplify_eq. by apply Hle.
  - intros t Ht. destruct (HT t Ht) as (km' & H1 & H2). by simplify_eq.
Qed.

(** Once everything exists, restoring executes nothing. *)
Lemma keyspace_restore_nothing k s :
  restored k s → NoDup (ut_name <$> user_types k) → snd (iterate_user_types_in_restore_order k) = Ok tt →
  keyspace_restore metadata held execute k s = (s, Ok tt).
Proof using All.
  intros (km & Hk & Hu & Ht) Hnd Hr. unfold keyspace_restore. rewrite (bind_ok get _ _ _ _ eq_refl).
  destruct (held_shows _ _ s s Hk ltac:(reflexivity)) as [Hshow Hshowt].
  assert (∀ (l : list Named) existing, (∀ x, x ∈ l → name x ∈ existing) →
    ∀ x, x ∈ l → restore_if_needed execute x existing s = (s, Ok tt)) as Hskip.
  { intros l ex Hin x Hx. unfold restore_if_needed. by rewrite decide_True by auto. }
  assert (∀ A (l : list A) (f : A → M S unit), (∀ x, x ∈ l → f x s = (s, Ok tt)) → for_each l f s = (s, Ok tt)) as Hall.
  { intros A l f Hf. induction l as [|x l IH]; [done|]. cbn [for_each]. rewrite (bind_ok _ _ _ _ _ (Hf x ltac:(by left))).
    apply IH. intros; apply Hf; by right. }
  assert (restore_if_needed execute (ks_named k) (dom (metadata s)) s = (s, Ok tt)) as H1.
  { unfold restore_if_needed. rewrite decide_True; [done|]. apply elem_of_dom. eauto. }
  rewrite (bind_ok _ _ _ _ _ H1). unfold keyspace_metadata.
  assert ((s ← get; match metadata s !! ks_name k with Some km => mret km | None => raise KeyError end) s = (s, Ok km)) as H2.
  { rewrite (bind_ok get _ _ _ _ eq_refl). by rewrite Hk. }
  rewrite (bind_ok _ _ _ _ _ H2). destruct (user_types_in_order k Hnd) as (l & r & rest & E & [Hperm _] & _).
  rewrite E in Hr |- *. simpl in Hr. subst r.
  assert (for_each l (user_type_restore_in_keyspace held execute km) s = (s, Ok tt)) as H3.
  { apply Hall. intros u Hin. unfold user_type_restore_in_keyspace. rewrite (bind_ok get _ _ _ _ eq_refl).
    unfold restore_if_needed. rewrite decide_True; [done|]. apply Hshow, Hu. rewrite Hperm. apply elem_of_app. by left. }
  rewrite (bind_ok _ _ _ _ _ H3). rewrite (bind_ok (lift_res (Ok tt)) _ _ _ _ eq_refl).
  apply Hall. intros t Hin. rewrite (bind_ok get _ _ _ _ eq_refl). unfold restore_if_needed.
  rewrite decide_True; [done|]. by apply Hshowt, Ht.
Qed.

(** Restoring the schema before the data: when it succeeds, every keyspace
    that is not a system keyspace exists with all its user types and tables,
    and doing it again executes no statement. *)
Theorem restore_pre_data_complete (s s' : S) :
  (∀ k, k ∈ keyspaces → NoDup (ut_name <$> user_types k)) →
  restore_pre_data metadata held execute keyspaces s = (s', Ok tt) →
  (∀ k, k ∈ keyspaces → is_system_keyspace (ks_name k) = false → restored k s') ∧
  restore_pre_data metadata held execute keyspaces s' = (s', Ok tt).
Proof using All.
  intros Hnd Hrun.
  set (Q := λ k s, is_system_keyspace (ks_name k) = false → restored k s ∧ snd (iterate_user_types_in_restore_order k) = Ok tt).
  assert (∀ k, k ∈ keyspaces → Q k s') as HQ.
  { eapply (for_each_establishes (λ _, True) Q keyspaces _ s s'); [done| | | |done|exact Hrun]; cbn beta.
    - intros k a b Hg H1 H2. destruct (H1 H2). split; [by eapply restored_grows|done].
    - intros k a _. destruct (is_system_keyspace _); [done|apply keyspace_restore_grows].
    - intros k a b Hk _. destruct (is_system_keyspace (ks_name k)) eqn:Es; [unfold Q; by rewrite Es|].
      intros Hr _. apply (keyspace_restore_ok k a b Hk); auto. }
  split; [intros k Hk Hs; by apply HQ|]. unfold restore_pre_data.
  assert (∀ l, (∀ k, k ∈ l → k ∈ keyspaces) → for_each l (λ k, if is_system_keyspace (ks_name k) then mret tt
    else keyspace_restore metadata held execute k) s' = (s', Ok tt)) as H; [|by apply H].
  induction l as [|k l IH]; intros Hin; [done|]. cbn [for_each].
  rewrite (bind_ok _ _ _ s' tt); [apply IH; intros; apply Hin; by right|].
  destruct (is_system_keyspace (ks_name k)) eqn:Es; [done|].
  destruct (HQ k ltac:(apply Hin; by left) Es) as [H1 H2].
  apply keyspace_restore_nothing; [done|apply Hnd, Hin; by left|done].
Qed.
End laws.
End restore_spec.

(** ** The theorems at a concrete schema: a table over a type over a type *)
Definition demo_phone : UserType := mkUserType (mkNamed "phone" "type phone") ["text"].
Definition demo_address : UserType := mkUserType (mkNamed "address" "type address") ["int"; "frozen<list<phone>>"].
Definition demo_table : Table := mkTable (mkNamed "people" "table people") [] [] [].
Definition demo_keyspace : Keyspace :=
  mkKeyspace (mkNamed "ks" "keyspace ks") [] true [] [] [demo_table] [demo_address; demo_phone].

Lemma user_types_in_order_witness :
  NoDup (ut_name <$> user_types demo_keyspace) ∧
  fst (iterate_user_types_in_restore_order demo_keyspace) = [demo_phone; demo_address] ∧
  ∃ l r rest, iterate_user_types_in_restore_order demo_keyspace = (l, r) ∧ ordered_split (user_types demo_keyspace) l rest ∧
    (r = Ok tt ∧ rest = [] ∨ r = Raise ValueError ∧ rest ≠ [] ∧ ∀ x, x ∈ rest → ∃ y, y ∈ rest ∧ refers x y).
Proof.
  assert (NoDup (ut_name <$> user_types demo_keyspace)) as H by (vm_compute; repeat constructor; set_solver).
  split; [exact H|]. split; [vm_compute; reflexivity|]. exact (user_types_in_order demo_keyspace H).
Defined.

Lemma quoted_identifier_roundtrip_witness :
  "My Type" ≠ "" ∧
  iterate_identifiers_in_cql_type_definition (String quote (double_quotes "My Type" +:+ String quote "")) = ["My Type"].
Proof. split; [discriminate|]. apply quoted_identifier_roundtrip. discriminate. Defined.

(** A session that creates these three objects, over a driver that replaces
    the metadata objects. *)
Local Notation demo_session := (gmap string KeyspaceMetadata).
Definition demo_alter (f : KeyspaceMetadata → KeyspaceMetadata) : M demo_session unit :=
  s ← get;
  match s !! "ks" with
  | Some km => put (<["ks" := f km]> s)
  | None => raise NoHostAvailableException
  end.
Definition demo_execute (st : string) : M demo_session unit :=
  if decide (st = "keyspace ks") then
    (s ← get;
     match s !! "ks" with Some _ => mret tt | None => put (<["ks" := mkKeyspaceMetadata ∅ ∅ [] []]> s) end)
  else if decide (st = "type address") then
    demo_alter (λ km, mkKeyspaceMetadata ({["address"]} ∪ km_user_types km) (km_tables km) (km_functions km) (km_aggregates km))
  else if decide (st = "type phone") then
    demo_alter (λ km, mkKeyspaceMetadata ({["phone"]} ∪ km_user_types km) (km_tables km) (km_functions km) (km_aggregates km))
  else if decide (st = "table people") then
    demo_alter (λ km, mkKeyspaceMetadata (km_user_types km)
      (<["people" := mkTableMetadata ∅ ∅ ∅]> (km_tables km)) (km_functions km) (km_aggregates km))
  else raise NoHostAvailableException.

Lemma demo_grows_insert (s : demo_session) km km' :
  s !! "ks" = Some km → km_le km km' → grows (λ s, s) s (<["ks" := km']> s).
Proof.
  intros Hs Hle k km0 Hk. cbv beta in *. destruct (decide (k = "ks")) as [->|Hne].
  - rewrite lookup_insert_eq. simplify_eq. eauto.
  - rewrite lookup_insert_ne by done. exists km0. split; [done|]. split; done.
Qed.

Lemma demo_alter_grows f s : (∀ km, km_le km (f km)) → grows (λ s, s) s (fst (demo_alter f s)).
Proof.
  intros Hf. unfold demo_alter. rewrite (bind_ok get _ _ _ _ eq_refl).
  destruct (s !! "ks") as [km|] eqn:E; [|simpl; reflexivity]. simpl. by eapply demo_grows_insert.
Qed.

Lemma demo_alter_shows f s s' km :
  s !! "ks" = Some km → demo_alter f s = (s', Ok tt) → s' !! "ks" = Some (f km).
Proof.
  intros Hs. unfold demo_alter. rewrite (bind_ok get _ _ _ _ eq_refl), Hs. intros [= <-]. apply lookup_insert_eq.
Qed.

Lemma demo_execute_on_all st s : split_statements st = [st] → execute_on_all demo_execute st s = demo_execute st s.
Proof.
  intros Hst. unfold execute_on_all. rewrite Hst. cbn [for_each]. unfold mbind, M_bind.
  by destruct (demo_execute st s) as [? [[]|]].
Qed.

#[local] Instance demo_session_laws : SessionLaws (λ s : demo_session, s) (λ km _, km) demo_execute [demo_keyspace].
Proof.
  split.
  - intros st s. unfold demo_execute. repeat case_decide.
    + rewrite (bind_ok get _ _ _ _ eq_refl). destruct (s !! "ks") eqn:E; simpl; [reflexivity|].
      intros k km Hk. cbv beta in *. exists km. split; [|split; done]. rewrite lookup_insert_ne; [done|]. congruence.
    + apply demo_alter_grows. intros km. split; simpl; set_solver.
    + apply demo_alter_grows. intros km. split; simpl; set_solver.
    + apply demo_alter_grows. intros km. split; simpl; [done|]. set_solver.
    + simpl. reflexivity.
  - intros k km s s' Hk Hg. by apply Hg.
  - intros k km s s' _ _. split; done.
  - intros k s s' ->%list_elem_of_singleton. rewrite demo_execute_on_all by done.
    change (cql_create_self (ks_named demo_keyspace)) with "keyspace ks". unfold demo_execute. rewrite decide_True by done.
    rewrite (bind_ok get _ _ _ _ eq_refl). change (ks_name demo_keyspace) with "ks".
    destruct (s !! "ks") eqn:E; intros [= <-]; [by rewrite E|]. rewrite lookup_insert_eq. eauto.
  - intros k u km s s' ->%list_elem_of_singleton Hu Hk Hrun.
    change (user_types demo_keyspace) with [demo_address; demo_phone] in Hu.
    apply elem_of_cons in Hu as [->| ->%list_elem_of_singleton]; rewrite demo_execute_on_all in Hrun by done;
      apply (demo_alter_shows _ _ _ _ Hk) in Hrun; (eexists; split; [exact Hrun|]; simpl; set_solver).
  - intros k t km s s' ->%list_elem_of_singleton Ht Hk Hrun.
    change (tables demo_keyspace) with [demo_table] in Ht. apply list_elem_of_singleton in Ht as ->.
    rewrite demo_execute_on_all in Hrun by done. apply (demo_alter_shows _ _ _ _ Hk) in Hrun.
    eexists. split; [exact Hrun|]. simpl. set_solver.
Qed.

Lemma restore_pre_data_complete_witness :
  let s' := fst (restore_pre_data (λ s : demo_session, s) (λ km _, km) demo_execute [demo_keyspace] ∅) in
  restore_pre_data (λ s : demo_session, s) (λ km _, km) demo_execute [demo_keyspace] ∅ = (s', Ok tt) ∧
  (∀ k, k ∈ [demo_keyspace] → is_system_keyspace (ks_name k) = false → restored (λ s : demo_session, s) k s') ∧
  restore_pre_data (λ s : demo_session, s) (λ km _, km) demo_execute [demo_keyspace] s' = (s', Ok tt).
Proof.
  assert (restore_pre_data (λ s : demo_session, s) (λ km _, km) demo_execute [demo_keyspace] ∅
    = (fst (restore_pre_data (λ s : demo_session, s) (λ km _, km) demo_execute [demo_keyspace] ∅), Ok tt)) as H
    by (vm_compute; reflexivity).
  split; [exact H|]. refine (restore_pre_data_complete (λ s : demo_session, s) (λ km _, km) demo_execute [demo_keyspace] ∅ _ _ H).
  intros k ->%list_elem_of_singleton. apply (bool_decide_unpack _). vm_compute. exact I.
Defined.
End CassSchema.
