(* ===== verification/CassModel.v ===== *)
(** * The Cassandra nodes of a cluster and the manifest of the plugin
      ([coordinator/plugins/cassandra/model.py], and
      [_retrieve_manifest_from_cassandra] of
      [coordinator/plugins/cassandra/backup_steps.py])

    Every configured node must be one host of the cluster as the driver sees
    it, and every host one configured node: the order of the configuration is
    the order of the nodes of the manifest.  The token map of the driver and
    the schema it reports are parameters. *)

From stdpp Require Import base gmap strings list pretty.
From Stdlib Require Import ZArith Lia.
From S2P Require Import Prelude CassSchema.

Module CassModel.
Import CassSchema.

(** ** [model.py] *)
Record CassandraConfigurationNode : Type := mkCassandraConfigurationNode {
  cn_address : option string;
  cn_host_id : option string;
  cn_listen_address : option string;
  cn_tokens : option (list string);
}.

Record CassandraManifestNode : Type := mkCassandraManifestNode {
  mn_address : string;
  mn_host_id : string;
  mn_listen_address : string;
  mn_rack : string;
  mn_tokens : list string;
}.
#[global] Instance CassandraManifestNode_eq_dec : EqDecision CassandraManifestNode. Proof. solve_decision. Defined.

Record CassandraManifest : Type := mkCassandraManifest {
  cassandra_schema : list Keyspace;
  manifest_nodes : list CassandraManifestNode;
}.

(** A configured attribute that is [None] or empty is not compared; an [UUID]
    is never empty. *)
Definition attribute_matches {A} `{EqDecision A} (empty : A → bool) (value : A) (other_value : option A) : bool :=
  match other_value with
  | Some x => if empty x then true else bool_decide (value = x)
  | None => true
  end.

Definition matches_configuration_node (self : CassandraManifestNode) (node : CassandraConfigurationNode) : bool :=
  attribute_matches (λ s, bool_decide (s = "")) (mn_address self) (cn_address node) &&
  attribute_matches (λ _, false) (mn_host_id self) (cn_host_id node) &&
  attribute_matches (λ s, bool_decide (s = "")) (mn_listen_address self) (cn_listen_address node) &&
  attribute_matches (λ l, bool_decide (l = [])) (mn_tokens self) (cn_tokens node).

(** ** What the driver knows of a host *)
Record Host : Type := mkHost {
  host_id : string;
  h_address : string;
  h_listen_address : option string;
  h_broadcast_address : option string;
  h_rack : string;
  h_datacenter : string;
}.

(** [a or b], which must be a string. *)
Definition str_or (a b : option string) : res string :=
  match (if truthy a then a else b) with Some s => Ok s | None => Raise ValueError end.

Definition new_node (host : Host) : res CassandraManifestNode :=
  listen_address ← str_or (h_listen_address host) (h_broadcast_address host);
  mret (mkCassandraManifestNode (h_address host) (host_id host) listen_address (h_rack host) []).

Definition append_token (token : Z) (n : CassandraManifestNode) : CassandraManifestNode :=
  mkCassandraManifestNode (mn_address n) (mn_host_id n) (mn_listen_address n) (mn_rack n) (mn_tokens n ++ [pretty token]).

Definition in_datacenter (datacenter : option string) (host : Host) : bool :=
  negb (truthy datacenter) || bool_decide (Some (h_datacenter host) = datacenter).

(** One entry of [token_to_host_owner]. *)
Definition add_token (datacenter : option string) (d : list (string * CassandraManifestNode)) (th : Z * Host) :
    res (list (string * CassandraManifestNode)) :=
  let '(token, host) := th in
  if negb (in_datacenter datacenter host) then Ok d
  else
    node ← match dict_get d (host_id host) with Some n => Ok n | None => new_node host end;
    Ok (dict_set (host_id host) (append_token token node) d).

Definition host_id_to_node (datacenter : option string) (token_to_host_owner : list (Z * Host)) :
    res (list (string * CassandraManifestNode)) :=
  fold_res (add_token datacenter) [] token_to_host_owner.

(** One configured node. *)
Definition match_node (hosts : list CassandraManifestNode) (nodes : list CassandraManifestNode)
    (configured_node : CassandraConfigurationNode) : res (list CassandraManifestNode) :=
  match filter (λ n, matches_configuration_node n configured_node = true) hosts with
  | [n] => if decide (n ∈ nodes) then Raise ValueError else Ok (nodes ++ [n])
  | _ => Raise ValueError
  end.

(** [_remove_other_datacenters] *)
Definition remove_other_datacenters (keyspace : Keyspace) (datacenter : string) : res Keyspace :=
  match dict_get (network_topology_strategy_dcs keyspace) datacenter with
  | None | Some EmptyString => Raise ValueError
  | Some rf =>
      Ok (mkKeyspace (ks_named keyspace) [(datacenter, rf)] (durable_writes keyspace) (aggregates keyspace)
            (functions keyspace) (tables keyspace) (user_types keyspace))
  end.

Definition restrict_keyspace (datacenter : string) (keyspace : Keyspace) : res Keyspace :=
  if decide (network_topology_strategy_dcs keyspace = []) then Ok keyspace
  else remove_other_datacenters keyspace datacenter.

Fixpoint map_res {A B} (f : A → res B) (l : list A) : res (list B) :=
  match l with [] => Ok [] | x :: l' => y ← f x; ys ← map_res f l'; Ok (y :: ys) end.

(** [_retrieve_manifest_from_cassandra] up to the schema. *)
Definition retrieve_nodes (token_to_host_owner : list (Z * Host)) (config_nodes : list CassandraConfigurationNode)
    (datacenter : option string) : res (list CassandraManifestNode) :=
  hosts ← host_id_to_node datacenter token_to_host_owner;
  nodes ← fold_res (match_node hosts.*2) [] config_nodes;
  if decide (length nodes ≠ length hosts) then Raise ValueError else Ok nodes.

Definition restrict_schema (datacenter : option string) (keyspaces : list Keyspace) : res (list Keyspace) :=
  match datacenter with Some (String _ _ as dc) => map_res (restrict_keyspace dc) keyspaces | _ => Ok keyspaces end.

(** ** Hosts and their tokens *)
Section hosts.
Context (datacenter : option string).

(** The tokens of a host, in the order of the token map. *)
Definition tokens_of (owners : list (Z * Host)) (h : string) : list string :=
  pretty <$> (filter (λ th, in_datacenter datacenter th.2 = true ∧ host_id th.2 = h) owners).*1.

Definition hosts_inv (owners : list (Z * Host)) (d : list (string * CassandraManifestNode)) : Prop :=
  NoDup d.*1 ∧ ∀ h,
    match dict_get d h with
    | Some n => mn_host_id n = h ∧ mn_tokens n = tokens_of owners h ∧ tokens_of owners h ≠ []
    | None => tokens_of owners h = []
    end.

Lemma tokens_of_snoc owners t host h :
  tokens_of (owners ++ [(t, host)]) h =
  tokens_of owners h ++ (if decide (in_datacenter datacenter host = true ∧ host_id host = h) then [pretty t] else []).
Proof.
  unfold tokens_of. rewrite filter_app, fmap_app, fmap_app. f_equal. by case_decide as H; [rewrite filter_cons_True|rewrite filter_cons_False].
Qed.

Lemma new_node_spec host n : new_node host = Ok n → mn_host_id n = host_id host ∧ mn_tokens n = [].
Proof. intros (a & _ & [= <-])%rbind_inv_ok. done. Qed.

Lemma add_token_inv pre th d d' : hosts_inv pre d → add_token datacenter d th = Ok d' → hosts_inv (pre ++ [th]) d'.
Proof.
  destruct th as [t host]. intros [Hnd Hi] H. simpl in H. destruct (in_datacenter datacenter host) eqn:Ed; simpl in H.
  - apply rbind_inv_ok in H as (n & Hn & [= <-]). split; [by apply dict_alter_NoDup|]. intros h. rewrite tokens_of_snoc.
    assert (mn_host_id n = host_id host ∧ mn_tokens n = tokens_of pre (host_id host)) as [Hid Htok].
    { specialize (Hi (host_id host)). destruct (dict_get d (host_id host)) as [n'|]; [injection Hn as <-; tauto|].
      apply new_node_spec in Hn as [H1 H2]. by rewrite Hi. }
    unfold dict_set. destruct (decide (host_id host = h)) as [<-|Hne].
    + rewrite dict_get_alter_eq, decide_True by done. simpl. rewrite Hid, Htok. split; [done|]. split; [done|]. by destruct (tokens_of _ _).
    + rewrite dict_get_alter_ne by done. rewrite decide_False by naive_solver. rewrite app_nil_r. apply Hi.
  - injection H as <-. split; [done|]. intros h. rewrite tokens_of_snoc, decide_False by (rewrite Ed; naive_solver).
    rewrite app_nil_r. apply Hi.
Qed.

Lemma hosts_spec owners d : host_id_to_node datacenter owners = Ok d → hosts_inv owners d.
Proof.
  intros H. refine (fold_res_ind hosts_inv (add_token datacenter) owners [] d _ _ H).
  - split; [constructor|done].
  - intros pre th post d1 d2 _ Hi Ha. by eapply add_token_inv.
Qed.

(** Each host is in the dictionary once, under its identifier. *)
Lemma hosts_entry owners d h n :
  hosts_inv owners d → (h, n) ∈ d → mn_host_id n = h ∧ mn_tokens n = tokens_of owners h.
Proof. intros [Hnd Hi] Hin. apply (dict_get_elem_of _ _ _ Hnd) in Hin. specialize (Hi h). rewrite Hin in Hi. tauto. Qed.

Lemma hosts_ids owners d : hosts_inv owners d → mn_host_id <$> d.*2 = d.*1.
Proof.
  intros Hi. rewrite <- list_fmap_compose. apply list_fmap_ext. intros i [h n] Hin. simpl.
  by apply (hosts_entry owners d h n Hi), (list_elem_of_lookup_2 _ i).
Qed.

Lemma hosts_keys owners d h :
  hosts_inv owners d → h ∈ d.*1 ↔ ∃ th, th ∈ owners ∧ in_datacenter datacenter th.2 = true ∧ host_id th.2 = h.
Proof.
  intros [Hnd Hi]. specialize (Hi h). split.
  - intros ([h' n] & -> & Hin)%list_elem_of_fmap. apply (dict_get_elem_of _ _ _ Hnd) in Hin. simpl in Hi. rewrite Hin in Hi.
    destruct Hi as (_ & _ & Hne). unfold tokens_of in Hne. destruct (filter _ owners) as [|th l] eqn:E; [done|]. exists th.
    assert (th ∈ filter (λ th, in_datacenter datacenter th.2 = true ∧ host_id th.2 = h') owners) as H by (rewrite E; by left).
    apply list_elem_of_filter in H. tauto.
  - intros (th & Hth & Hdc & Hh). destruct (dict_get d h) as [n|] eqn:E.
    + apply (dict_get_elem_of _ _ _ Hnd) in E. apply list_elem_of_fmap. by exists (h, n).
    + exfalso. unfold tokens_of in Hi. apply fmap_nil_inv, fmap_nil_inv in Hi. apply (not_elem_of_nil th).
      rewrite <- Hi. by apply list_elem_of_filter.
Qed.
End hosts.

(** ** Configured nodes and hosts *)
Definition the_match (hosts : list CassandraManifestNode) (n : CassandraManifestNode) (c : CassandraConfigurationNode) : Prop :=
  n ∈ hosts ∧ matches_configuration_node n c = true ∧ ∀ n', n' ∈ hosts → matches_configuration_node n' c = true → n' = n.

Lemma match_nodes_spec hosts config nodes :
  fold_res (match_node hosts) [] config = Ok nodes → Forall2 (the_match hosts) nodes config ∧ NoDup nodes.
Proof.
  intros H. refine (fold_res_ind (λ pre nodes, Forall2 (the_match hosts) nodes pre ∧ NoDup nodes) (match_node hosts) config [] nodes _ _ H).
  - split; constructor.
  - intros pre c post l l' _ [HF Hnd] Hm. unfold match_node in Hm. destruct (filter _ hosts) as [|n [|n2 k]] eqn:E; [done| |done].
    destruct (decide (n ∈ l)) as [|Hn]; [done|]. injection Hm as <-. split.
    + apply Forall2_app; [done|]. constructor; [|constructor].
      assert (∀ x, x ∈ hosts ∧ matches_configuration_node x c = true ↔ x = n) as Hx.
      { intros x. transitivity (x ∈ [n]); [rewrite <- E, list_elem_of_filter; tauto|apply list_elem_of_singleton]. }
      destruct (proj2 (Hx n) eq_refl) as [Hn1 Hn2]. split; [done|]. split; [done|]. intros n' Hn3 Hn4. by apply Hx.
    + apply NoDup_app. split; [done|]. split; [|apply NoDup_singleton]. intros x Hx ->%list_elem_of_singleton. done.
Qed.

Lemma matched_all hosts config nodes :
  NoDup hosts → Forall2 (the_match hosts) nodes config → NoDup nodes → length nodes = length hosts → nodes ≡ₚ hosts.
Proof.
  intros Hh HF Hnd Hlen. apply submseteq_length_Permutation; [|lia]. apply NoDup_submseteq; [done|].
  intros n Hn. apply list_elem_of_lookup in Hn as [i Hi]. by destruct (Forall2_lookup_l _ _ _ _ _ HF Hi) as (c & _ & ? & _).
Qed.

(** The tokens of the hosts are the tokens of the map, each once. *)
Lemma tokens_partition datacenter owners nodes :
  NoDup (mn_host_id <$> nodes) →
  (∀ n, n ∈ nodes → mn_tokens n = tokens_of datacenter owners (mn_host_id n)) →
  (∀ th, th ∈ owners → in_datacenter datacenter th.2 = true → host_id th.2 ∈ mn_host_id <$> nodes) →
  concat (mn_tokens <$> nodes) ≡ₚ pretty <$> (filter (λ th, in_datacenter datacenter th.2 = true) owners).*1.
Proof.
  intros Hnd Htok Hall. set (l := filter (λ th, in_datacenter datacenter th.2 = true) owners).
  rewrite <- (concat_filter_Permutation (λ th, host_id th.2) (mn_host_id <$> nodes) l Hnd).
  2:{ apply Forall_forall. intros th [Hdc Hth]%list_elem_of_filter. by apply Hall. }
  rewrite <- list_fmap_compose. clear Hnd Hall. induction nodes as [|n nodes IH]; [done|]. csimpl.
  rewrite !fmap_app, <- IH by (intros; apply Htok; by right). f_equiv. rewrite Htok by (by left).
  unfold tokens_of, l. rewrite list_filter_filter. rewrite <- !list_fmap_compose.
  rewrite (list_filter_iff _ (λ x, host_id x.2 = mn_host_id n ∧ in_datacenter datacenter x.2 = true)); [done|]. tauto.
Qed.

Lemma map_res_Forall2 {A B} (f : A → res B) l k : map_res f l = Ok k → Forall2 (λ x y, f x = Ok y) l k.
Proof.
  revert k. induction l as [|x l IH]; intros k H; simpl in H; [injection H as <-; constructor|].
  apply rbind_inv_ok in H as (y & Hy & (ys & Hys & [= <-])%rbind_inv_ok). constructor; auto.
Qed.

(** The nodes of the manifest of a cluster are in the order of the
    configuration, each the only host that matches its configured node; together
    they are all hosts of the data centre, with their tokens, and every token of
    the data centre belongs to exactly one of them. *)
Theorem retrieve_nodes_exact owners config datacenter (nodes : list CassandraManifestNode) :
  retrieve_nodes owners config datacenter = Ok nodes →
  Forall2 (the_match nodes) nodes config ∧
  NoDup (mn_host_id <$> nodes) ∧
  (∀ h, h ∈ mn_host_id <$> nodes ↔ ∃ th, th ∈ owners ∧ in_datacenter datacenter th.2 = true ∧ host_id th.2 = h) ∧
  (∀ n, n ∈ nodes → mn_tokens n = tokens_of datacenter owners (mn_host_id n)) ∧
  concat (mn_tokens <$> nodes) ≡ₚ pretty <$> (filter (λ th, in_datacenter datacenter th.2 = true) owners).*1.
Proof.
  intros (hosts & Hh & H)%rbind_inv_ok. apply rbind_inv_ok in H as (nodes' & Hn & H).
  destruct (decide (length nodes' ≠ length hosts)) as [|Hlen%dec_stable]; [done|]. injection H as ->.
  apply hosts_spec in Hh. pose proof (hosts_ids _ _ _ Hh) as Hids. pose proof Hh as [Hnd _].
  assert (NoDup hosts.*2) as Hnd2 by (apply (NoDup_fmap_1 mn_host_id); by rewrite Hids).
  destruct (match_nodes_spec _ _ _ Hn) as [HF Hndn].
  assert (nodes ≡ₚ hosts.*2) as Hperm by (apply (matched_all _ config); [done..|by rewrite length_fmap]).
  assert (∀ n, n ∈ nodes → mn_tokens n = tokens_of datacenter owners (mn_host_id n)) as Htok.
  { intros n Hin. rewrite Hperm in Hin. apply list_elem_of_fmap in Hin as ([h n'] & -> & Hin). simpl.
    destruct (hosts_entry _ _ _ _ _ Hh Hin) as [-> ->]. done. }
  assert (NoDup (mn_host_id <$> nodes)) as Hndi by (by rewrite Hperm, Hids).
  assert (∀ h, h ∈ mn_host_id <$> nodes ↔ ∃ th, th ∈ owners ∧ in_datacenter datacenter th.2 = true ∧ host_id th.2 = h) as Hkeys.
  { intros h. rewrite Hperm, Hids. by apply hosts_keys. }
  split; [|split; [done|split; [done|split; [done|]]]].
  - eapply Forall2_impl; [exact HF|]. intros n c (H1 & H2 & H3). split; [by rewrite Hperm|]. split; [done|].
    intros n' Hn'. apply H3. by rewrite <- Hperm.
  - apply tokens_partition; [done..|]. intros th Hth Hdc. apply Hkeys. eauto.
Qed.

Lemma retrieve_nodes_exact_witness :
  let a := mkHost "id-a" "10.0.0.1" (Some "10.0.0.1") None "r1" "dc1" in
  let b := mkHost "id-b" "10.0.0.2" None (Some "10.0.0.2") "r2" "dc1" in
  let owners := [(-5, a); (7, b); (9, a)]%Z in
  let config := [mkCassandraConfigurationNode None None (Some "10.0.0.2") None;
                 mkCassandraConfigurationNode (Some "10.0.0.1") None None None] in
  let nodes := [mkCassandraManifestNode "10.0.0.2" "id-b" "10.0.0.2" "r2" ["7"];
                mkCassandraManifestNode "10.0.0.1" "id-a" "10.0.0.1" "r1" ["-5"; "9"]] in
  retrieve_nodes owners config None = Ok nodes ∧
  concat (mn_tokens <$> nodes) ≡ₚ pretty <$> (filter (λ th, in_datacenter None th.2 = true) owners).*1.
Proof.
  intros a b owners config nodes.
  assert (retrieve_nodes owners config None = Ok nodes) as H by (vm_compute; reflexivity).
  split; [exact H|]. apply (retrieve_nodes_exact owners config None nodes H).
Defined.

(** A configured node that no host matches, or several, or one that was
    matched before, and a host without a configured node are errors. *)
Lemma match_node_error hosts nodes c e : match_node hosts nodes c = Raise e → e = ValueError.
Proof.
  unfold match_node. destruct (filter _ hosts) as [|n [|? ?]]; [by intros [= <-]| |by intros [= <-]].
  by case_decide; [intros [= <-]|].
Qed.
End CassModel.
