(* ===== verification/Topological.v ===== *)
(** * Topological sorting ([coordinator/plugins/clickhouse/dependencies.py])

    [sort_topologically] orders tables and access entities so that each can be
    created after what it depends on.  [graphlib.TopologicalSorter] of the
    Standard Library is modelled as CPython implements it: predecessor counts
    and successor lists in insertion order, emptied group by group. *)

From stdpp Require Import base gmap strings list sorting.
From Stdlib Require Import Lia Sorted.
From S2P Require Import Prelude.

Module Topological.
Section graph.
Context {K : Type} `{EqDecision K}.

(** ** [TopologicalSorter] *)
Record info : Type := mkInfo {
  npredecessors : nat;
  successors : list K;
}.

(** [_node2info] *)
Definition graph : Type := list (K * info).

Definition new_info : info := mkInfo 0 [].
Definition get_info (k : K) (g : graph) : info := default new_info (dict_get g k).

(** [add(node, *predecessors)] *)
Definition add (node : K) (predecessors : list K) (g : graph) : graph :=
  let g := dict_alter (λ o, let i := default new_info o in
                            mkInfo (npredecessors i + length predecessors) (successors i)) node g in
  foldl (λ g p, dict_alter (λ o, let i := default new_info o in mkInfo (npredecessors i) (successors i ++ [node])) p g)
    g predecessors.

(** [done(node)]: the successors whose last predecessor this was are ready. *)
Definition done_successor (st : graph * list K) (s : K) : graph * list K :=
  let n := npredecessors (get_info s st.1) - 1 in
  (dict_alter (λ o, mkInfo n (successors (default new_info o))) s st.1, if decide (n = 0) then st.2 ++ [s] else st.2).
Definition done_node (st : graph * list K) (k : K) : graph * list K :=
  foldl done_successor st (successors (get_info k st.1)).

(** The groups of [static_order], each made of the nodes that became ready. *)
Fixpoint static_order_from (fuel : nat) (g : graph) (ready : list K) : list K :=
  match fuel, ready with
  | O, _ | _, [] => []
  | S fuel', _ => let st := foldl done_node (g, []) ready in ready ++ static_order_from fuel' st.1 st.2
  end.

Definition initially_ready (g : graph) : list K := fst <$> filter (λ ki, npredecessors ki.2 = 0) g.

(** [static_order()]: [prepare] raises [CycleError] when there is a cycle, which
    is when some node never becomes ready. *)
Definition static_order (g : graph) : res (list K) :=
  let order := static_order_from (S (length g)) g (initially_ready g) in
  if decide (length order = length g) then Ok order else Raise CycleError.

(** ** Invariant *)
Definition count (v : K) (l : list K) : nat := length (filter (λ x, x = v) l).

Lemma count_app v l k : count v (l ++ k) = count v l + count v k.
Proof. unfold count. by rewrite filter_app, length_app. Qed.
Lemma count_one v x : count v [x] = if decide (x = v) then 1 else 0.
Proof. unfold count. rewrite filter_cons. by case_decide. Qed.
Lemma count_pos v l : v ∈ l → 0 < count v l.
Proof.
  intros Hv. unfold count. destruct (filter (λ x, x = v) l) eqn:E; [|simpl; lia].
  exfalso. eapply not_elem_of_nil. rewrite <- E. by apply list_elem_of_filter.
Qed.
Lemma count_zero v l : count v l = 0 → v ∉ l.
Proof. intros H Hv%count_pos. lia. Qed.

(** The graph is fixed: its nodes [ks] and their successors. *)
Section fixed.
Context (ks : list K) (succ : K → list K).
Context (ks_nodup : NoDup ks) (succ_known : ∀ u v, u ∈ ks → v ∈ succ u → v ∈ ks).

(** Edges into [v] from the nodes not yet done. *)
Definition rem (P : list K) (v : K) : nat := sum_list ((λ u, count v (succ u)) <$> filter (λ u, u ∉ P) ks).

Lemma sum_split (f : K → nat) (l : list K) (P : list K) u :
  NoDup l → u ∈ l → u ∉ P →
  sum_list (f <$> filter (λ x, x ∉ P) l) = f u + sum_list (f <$> filter (λ x, x ∉ P ++ [u]) l).
Proof.
  intros Hnd Hu HP. induction Hnd as [|x l Hx Hnd IH]; [by apply not_elem_of_nil in Hu|].
  apply elem_of_cons in Hu as [<-|Hu].
  - rewrite filter_cons_True by done.
    rewrite (filter_cons_False (λ x, x ∉ P ++ [u])) by (intros H; apply H, elem_of_app; right; by left).
    csimpl. f_equal. f_equal. f_equal. apply filter_ext_in. intros y Hy. rewrite not_elem_of_app, list_elem_of_singleton.
    split; [|tauto]. intros Hyp. split; [done|]. by intros ->.
  - assert (x ≠ u) as Hne by (by intros ->). rewrite !filter_cons. specialize (IH Hu).
    destruct (decide (x ∉ P)) as [HxP|HxP].
    + rewrite decide_True by (rewrite not_elem_of_app, list_elem_of_singleton; tauto). csimpl. lia.
    + rewrite decide_False by (rewrite not_elem_of_app; tauto). done.
Qed.

Lemma rem_step P u v : u ∈ ks → u ∉ P → rem P v = count v (succ u) + rem (P ++ [u]) v.
Proof. intros. by apply (sum_split (λ u, count v (succ u))). Qed.

Lemma rem_zero P v u : rem P v = 0 → u ∈ ks → u ∉ P → v ∉ succ u.
Proof. intros H Hu HP. rewrite (rem_step P u v Hu HP) in H. apply count_zero. lia. Qed.

(** A list of nodes with all predecessors of each before it. *)
Definition ordered (A : list K) : Prop :=
  ∀ i v u, A !! i = Some v → u ∈ ks → v ∈ succ u → ∃ j, j < i ∧ A !! j = Some u.

Lemma ordered_snoc A s :
  ordered A → (∀ u, u ∈ ks → s ∈ succ u → u ∈ A) → ordered (A ++ [s]).
Proof.
  intros HA Hs i v u Hi Hu Hv. apply lookup_app_Some in Hi as [Hi|[Hlen Hi]].
  - destruct (HA i v u Hi Hu Hv) as (j & Hj & Hju). exists j. split; [done|].
    rewrite lookup_app_l; [done|]. by eapply lookup_lt_Some.
  - apply list_lookup_singleton_Some in Hi as [Hi <-].
    apply (Hs u Hu) in Hv as [j Hj]%list_elem_of_lookup. pose proof (lookup_lt_Some _ _ _ Hj). exists j. split; [lia|].
    by rewrite lookup_app_l.
Qed.

(** [g] is the graph with the edges from [P] removed; [A] lists the nodes that
    are or were ready. *)
Definition shape (g : graph) : Prop := g.*1 = ks ∧ ∀ u, u ∈ ks → successors (get_info u g) = succ u.
Definition state (n : K → nat) (A : list K) : Prop :=
  NoDup A ∧ (∀ v, v ∈ A → v ∈ ks) ∧ (∀ v, v ∈ ks → v ∈ A ↔ n v = 0) ∧ ordered A.
Definition npred (g : graph) (v : K) : nat := npredecessors (get_info v g).

Lemma shape_alter (f : option info → info) g s :
  s ∈ ks → shape g → (∀ o, successors (f o) = successors (default new_info o)) → shape (dict_alter f s g).
Proof.
  intros Hs [Hk Hsu] Hf. split.
  - rewrite dict_alter_keys, Hk. by rewrite decide_True.
  - intros u Hu. unfold get_info in *. destruct (decide (s = u)) as [->|Hne].
    + rewrite dict_get_alter_eq. simpl. by rewrite Hf, <- (Hsu u Hu).
    + rewrite dict_get_alter_ne by done. by apply Hsu.
Qed.

(** One node of a group: a prefix [l] of its successors has been visited. *)
Lemma done_node_step g P B N u :
  shape g → (∀ v, v ∈ ks → npred g v = rem P v) → state (npred g) (B ++ N) → u ∈ ks → u ∉ P → u ∈ B →
  (∀ x, x ∈ P → x ∈ B) →
  let st := done_node (g, N) u in
  shape st.1 ∧ (∀ v, v ∈ ks → npred st.1 v = rem (P ++ [u]) v) ∧ state (npred st.1) (B ++ st.2).
Proof.
  intros Hsh Hn Hst Hu HuP HuB HPB. unfold done_node. cbn [fst]. rewrite (proj2 Hsh u Hu).
  assert (∀ post l st, succ u = l ++ post → shape st.1 → (∀ v, v ∈ ks → npred st.1 v + count v l = rem P v) →
    state (npred st.1) (B ++ st.2) →
    let st' := foldl done_successor st post in
    shape st'.1 ∧ (∀ v, v ∈ ks → npred st'.1 v = rem (P ++ [u]) v) ∧ state (npred st'.1) (B ++ st'.2)) as Hgen.
  { clear g Hsh Hn Hst N. induction post as [|s post IH]; intros l [g N] Hl Hsh Hn Hst; cbn [foldl fst snd].
    - rewrite app_nil_r in Hl. split; [done|]. split; [|done]. intros v Hv. specialize (Hn v Hv). simpl in Hn.
      rewrite (rem_step P u v Hu HuP), Hl in Hn. lia.
    - assert (s ∈ ks) as Hs by (apply (succ_known u); [done|rewrite Hl; apply elem_of_app; right; by left]).
      simpl in Hsh, Hn, Hst. pose proof (Hn s Hs) as Hns. rewrite (rem_step P u s Hu HuP), Hl in Hns.
      change (s :: post) with ([s] ++ post) in Hns. rewrite !count_app, count_one, decide_True in Hns by done.
      set (n := npredecessors (get_info s g) - 1).
      set (g' := dict_alter (λ o : option info, mkInfo n (successors (default new_info o))) s g).
      change (done_successor (g, N) s) with (g', if decide (n = 0) then N ++ [s] else N).
      assert (shape g') as Hsh' by (unfold g'; apply shape_alter; done).
      assert (npred g' s = n) as Hgs by (unfold npred, get_info, g'; by rewrite dict_get_alter_eq).
      assert (∀ v, v ≠ s → npred g' v = npred g v) as Hgo.
      { intros v Hv. unfold npred, get_info, g'. by rewrite dict_get_alter_ne. }
      change (npredecessors (get_info s g)) with (npred g s) in n.
      apply (IH (l ++ [s])); [by rewrite <- app_assoc|done| |]; cbn [fst snd].
      + intros v Hv. rewrite count_app, count_one. case_decide as E.
        * subst v. rewrite Hgs. specialize (Hn s Hs). subst n. lia.
        * rewrite Hgo by done. specialize (Hn v Hv). lia.
      + destruct Hst as (Hnd & Hsub & Hiff & Hord). assert (s ∉ B ++ N) as Hni.
        { intros Hin%Hiff; [|done]. lia. }
        destruct (decide (n = 0)) as [E|E].
        * rewrite app_assoc. split; [|split; [|split]].
          -- apply NoDup_app. split; [done|]. split; [|apply NoDup_singleton]. intros x Hx ->%list_elem_of_singleton. done.
          -- intros v [Hv|Hv%list_elem_of_singleton]%elem_of_app; [by apply Hsub|by subst].
          -- intros v Hv. rewrite elem_of_app, list_elem_of_singleton. destruct (decide (v = s)) as [->|Hne]; [rewrite Hgs; tauto|].
             rewrite Hgo by done. rewrite <- Hiff by done. tauto.
          -- apply ordered_snoc; [done|]. intros w Hw Hsw. apply elem_of_app. left.
             destruct (decide (w ∈ P ++ [u])) as [HwP|HwP].
             { apply elem_of_app in HwP as [?|HwP%list_elem_of_singleton]; [by apply HPB|by subst]. }
             exfalso. eapply (rem_zero (P ++ [u]) s); [|exact Hw|exact HwP|exact Hsw]. subst n. lia.
        * split; [done|]. split; [done|]. split; [|done]. intros v Hv. destruct (decide (v = s)) as [->|Hne].
          -- rewrite Hgs. split; [by intros Hin|done].
          -- rewrite Hgo by done. by apply Hiff. }
  apply (Hgen (succ u) [] (g, N)); [done|done| |done]. intros v Hv. cbn [fst]. rewrite (Hn v Hv). unfold count. simpl. lia.
Qed.

Lemma done_group g P R :
  shape g → (∀ v, v ∈ ks → npred g v = rem P v) → state (npred g) (P ++ R) →
  let st := foldl done_node (g, []) R in
  shape st.1 ∧ (∀ v, v ∈ ks → npred st.1 v = rem (P ++ R) v) ∧ state (npred st.1) ((P ++ R) ++ st.2).
Proof.
  intros Hsh Hn Hst.
  assert (∀ post pre st, R = pre ++ post → shape st.1 → (∀ v, v ∈ ks → npred st.1 v = rem (P ++ pre) v) →
    state (npred st.1) ((P ++ R) ++ st.2) →
    let st' := foldl done_node st post in
    shape st'.1 ∧ (∀ v, v ∈ ks → npred st'.1 v = rem (P ++ R) v) ∧ state (npred st'.1) ((P ++ R) ++ st'.2)) as Hgen.
  { induction post as [|u post IH]; intros pre [g' N] HR Hsh' Hn' Hst'; simpl in Hsh', Hn', Hst'.
    - rewrite app_nil_r in HR. subst pre. done.
    - pose proof (proj1 Hst) as Hnd. pose proof (proj1 (proj2 Hst)) as Hsub.
      destruct (done_node_step g' (P ++ pre) (P ++ R) N u Hsh' Hn' Hst') as (H1 & H2 & H3).
      + apply Hsub. rewrite HR, !elem_of_app. right; right. by left.
      + rewrite HR, app_assoc in Hnd. apply NoDup_app in Hnd as (_ & Hd & _). intros Hin. apply (Hd _ Hin). by left.
      + rewrite HR, !elem_of_app. right; right. by left.
      + intros x. rewrite HR, !elem_of_app. tauto.
      + simpl. apply (IH (pre ++ [u])); [by rewrite <- app_assoc|done| |done].
        intros v Hv. rewrite H2 by done. by rewrite app_assoc. }
  apply (Hgen R [] (g, [])); simpl; [done|done|by rewrite app_nil_r|by rewrite app_nil_r].
Qed.

Lemma static_order_from_spec fuel g P R :
  shape g → (∀ v, v ∈ ks → npred g v = rem P v) → state (npred g) (P ++ R) → length ks - length P < fuel →
  let A := P ++ static_order_from fuel g R in
  NoDup A ∧ (∀ v, v ∈ A → v ∈ ks) ∧ ordered A ∧ ∀ v, v ∈ ks → v ∈ A ↔ rem A v = 0.
Proof.
  revert g P R. induction fuel as [|fuel IH]; intros g P R Hsh Hn Hst Hfuel; [lia|].
  destruct R as [|u R].
  - simpl. rewrite app_nil_r in *. destruct Hst as (Hnd & Hsub & Hiff & Hord). split; [done|]. split; [done|]. split; [done|].
    intros v Hv. rewrite <- Hn by done. by apply Hiff.
  - destruct (done_group g P (u :: R) Hsh Hn Hst) as (Hsh' & Hn' & Hst').
    cbn [static_order_from]. set (st := foldl done_node (g, []) (u :: R)) in *.
    change (let A := P ++ ((u :: R) ++ static_order_from fuel st.1 st.2) in
      NoDup A ∧ (∀ v, v ∈ A → v ∈ ks) ∧ ordered A ∧ ∀ v, v ∈ ks → v ∈ A ↔ rem A v = 0).
    rewrite app_assoc. apply IH; [done|done|done|].
    assert (length (P ++ u :: R) ≤ length ks).
    { apply submseteq_length, NoDup_submseteq; [apply Hst|apply Hst]. }
    rewrite length_app in *. simpl in *. lia.
Qed.

Lemma ranked_complete (rank : K → nat) A :
  (∀ u v, u ∈ ks → v ∈ succ u → rank u < rank v) → (∀ v, v ∈ ks → v ∈ A ↔ rem A v = 0) → ∀ v, v ∈ ks → v ∈ A.
Proof.
  intros Hrank Hiff. assert (∀ n v, rank v < n → v ∈ ks → v ∈ A) as H; [|intros v; by apply (H (S (rank v))); lia].
  induction n as [|n IH]; intros v Hlt Hv; [lia|]. apply Hiff; [done|].
  assert (∀ l, (∀ u, u ∈ l → u ∈ ks ∧ u ∉ A) → sum_list ((λ u, count v (succ u)) <$> l) = 0) as Hsum.
  { induction l as [|u l IHl]; intros Hl; csimpl; [done|]. rewrite IHl by (intros w Hw; apply Hl; by right).
    destruct (Hl u (list_elem_of_here _ _)) as [Hu HuA]. assert (v ∉ succ u) as Hno.
    { intros Hvu. apply HuA, IH; [|done]. specialize (Hrank u v Hu Hvu). lia. }
    unfold count. rewrite filter_nil_iff; [done|]. by intros x Hx ->. }
  apply Hsum. intros u [HuA Hu]%list_elem_of_filter. done.
Qed.
End fixed.

(** ** Well-formed graphs *)
Definition edge (g : graph) (u v : K) : Prop := v ∈ successors (get_info u g).
Definition indegree (g : graph) (v : K) : nat := sum_list ((λ ki, count v (successors ki.2)) <$> g).
Definition wf (g : graph) : Prop :=
  NoDup g.*1 ∧ (∀ u v, edge g u v → v ∈ g.*1) ∧ ∀ v, npred g v = indegree g v.

Lemma edge_source g u v : edge g u v → u ∈ g.*1.
Proof.
  unfold edge, get_info. destruct (decide (u ∈ g.*1)) as [|Hu]; [done|]. apply dict_get_None in Hu. rewrite Hu.
  by intros ?%not_elem_of_nil.
Qed.

Lemma indegree_alter g k v (f : option info → info) l :
  (∀ o, successors (f o) = successors (default new_info o) ++ l) →
  indegree (dict_alter f k g) v = indegree g v + count v l.
Proof.
  intros Hf. unfold indegree. induction g as [|[k' i] g IH]; cbn [dict_alter].
  - csimpl. rewrite Hf. simpl. lia.
  - case_decide; csimpl; [|lia]. rewrite Hf, count_app. simpl. lia.
Qed.

Lemma keys_alter (g : graph) k (f : option info → info) v : v ∈ (dict_alter f k g).*1 ↔ v ∈ g.*1 ∨ v = k.
Proof.
  rewrite dict_alter_keys. case_decide; [|by rewrite elem_of_app, list_elem_of_singleton].
  split; [by left|]. by intros [?| ->].
Qed.

Lemma get_info_alter (g : graph) k (f : option info → info) u :
  get_info u (dict_alter f k g) = if decide (u = k) then f (dict_get g k) else get_info u g.
Proof.
  unfold get_info. case_decide as E; [subst; by rewrite dict_get_alter_eq|]. by rewrite dict_get_alter_ne.
Qed.

Lemma add_nil_spec g k :
  wf g → wf (add k [] g) ∧ (∀ u v, edge (add k [] g) u v ↔ edge g u v) ∧ ∀ v, v ∈ (add k [] g).*1 ↔ v ∈ g.*1 ∨ v = k.
Proof.
  intros (Hnd & Hin & Hn). unfold add. cbn [foldl length]. set (f := λ o : option info, _).
  assert (∀ u v, edge (dict_alter f k g) u v ↔ edge g u v) as He.
  { intros u v. unfold edge. rewrite get_info_alter. case_decide as E; [subst; done|done]. }
  split; [|split; [done|intros v; apply keys_alter]]. split; [by apply dict_alter_NoDup|]. split.
  - intros u v Huv%He. apply keys_alter. left. by eapply Hin.
  - intros v. rewrite (indegree_alter g k v f []) by (intros o; by rewrite app_nil_r). rewrite <- Hn.
    unfold npred. rewrite get_info_alter. case_decide as E; [|unfold count; simpl; lia]. subst. unfold f, count, get_info. simpl. lia.
Qed.

Lemma add_one_spec g k d :
  wf g → wf (add k [d] g) ∧ (∀ u v, edge (add k [d] g) u v ↔ edge g u v ∨ (u = d ∧ v = k)) ∧
  ∀ v, v ∈ (add k [d] g).*1 ↔ v ∈ g.*1 ∨ v = k ∨ v = d.
Proof.
  intros (Hnd & Hin & Hn). unfold add. cbn [foldl length].
  set (f := λ o : option info, mkInfo (npredecessors (default new_info o) + 1) (successors (default new_info o))).
  set (f2 := λ o : option info, mkInfo (npredecessors (default new_info o)) (successors (default new_info o) ++ [k])).
  set (g1 := dict_alter f k g). change (dict_alter _ d _) with (dict_alter f2 d g1).
  assert (∀ v, successors (get_info v g1) = successors (get_info v g)) as Hs1.
  { intros v. unfold g1. rewrite get_info_alter. by case_decide as E; [subst|]. }
  assert (∀ u v, edge (dict_alter f2 d g1) u v ↔ edge g u v ∨ (u = d ∧ v = k)) as He.
  { intros u v. unfold edge. rewrite get_info_alter. case_decide as E.
    - subst u. change (f2 (dict_get g1 d)) with (mkInfo (npredecessors (get_info d g1)) (successors (get_info d g1) ++ [k])).
      cbn [successors]. rewrite Hs1, elem_of_app, list_elem_of_singleton. tauto.
    - rewrite Hs1. tauto. }
  assert (∀ v, v ∈ (dict_alter f2 d g1).*1 ↔ v ∈ g.*1 ∨ v = k ∨ v = d) as Hk.
  { intros v. rewrite keys_alter. unfold g1. rewrite keys_alter. tauto. }
  split; [|split; done]. split; [by apply dict_alter_NoDup, dict_alter_NoDup|]. split.
  - intros u v [Huv|[-> ->]]%He; apply Hk; [left; by eapply Hin|tauto].
  - intros v. rewrite (indegree_alter g1 d v f2 [k]) by done. unfold g1 at 2.
    rewrite (indegree_alter g k v f []) by (intros o; by rewrite app_nil_r). rewrite <- Hn, count_one.
    assert (npred (dict_alter f2 d g1) v = npred g1 v) as ->.
    { unfold npred. rewrite get_info_alter. by case_decide as E; [subst|]. }
    unfold npred, g1. rewrite get_info_alter. unfold count. simpl. repeat case_decide; subst; try done; unfold f, get_info; simpl; lia.
Qed.

Lemma rem_indegree g v :
  NoDup g.*1 → rem g.*1 (λ u, successors (get_info u g)) [] v = indegree g v.
Proof.
  intros Hnd. unfold rem, indegree.
  assert (filter (λ u, u ∉ []) g.*1 = g.*1) as -> by (apply filter_all; intros x _; apply not_elem_of_nil).
  rewrite <- list_fmap_compose. f_equal. apply list_fmap_ext. intros i [k inf] Hi. simpl. unfold get_info.
  assert (dict_get g k = Some inf) as ->; [|done]. apply dict_get_elem_of; [done|]. by eapply list_elem_of_lookup_2.
Qed.

(** The order of a well-formed graph. *)
Lemma static_order_spec g :
  wf g →
  match static_order g with
  | Ok order => NoDup order ∧ (∀ v, v ∈ order ↔ v ∈ g.*1) ∧ ordered g.*1 (λ u, successors (get_info u g)) order
  | Raise e => e = CycleError ∧ ∀ rank : K → nat, ¬ (∀ u v, edge g u v → rank u < rank v)
  end.
Proof.
  intros (Hnd & Hin & Hn). set (ks := g.*1) in *. set (succ := λ u, successors (get_info u g)).
  assert (∀ u v, u ∈ ks → v ∈ succ u → v ∈ ks) as Hknown by (intros u v _ Hv; by eapply Hin).
  destruct (static_order_from_spec ks succ Hnd Hknown (S (length g)) g [] (initially_ready g)) as (HndA & Hsub & Hord & Hiff).
  - done.
  - intros v Hv. rewrite Hn. symmetry. by apply rem_indegree.
  - assert (∀ v, v ∈ ks → v ∈ initially_ready g ↔ npred g v = 0) as Hready.
    { intros v Hv. unfold initially_ready, npred, get_info. rewrite list_elem_of_fmap. split.
      - intros ([k i] & -> & [Hi Hki]%list_elem_of_filter). apply dict_get_elem_of in Hki; [|done]. simpl. by rewrite Hki.
      - intros Hz. apply list_elem_of_fmap in Hv as ([k i] & -> & Hki). exists (k, i). split; [done|].
        apply list_elem_of_filter. split; [|done]. apply dict_get_elem_of in Hki; [|done]. simpl in Hz. by rewrite Hki in Hz. }
    assert (∀ v, v ∈ initially_ready g → v ∈ ks) as Hsub0.
    { intros v Hv. apply list_elem_of_fmap in Hv as ([k i] & -> & [_ Hki]%list_elem_of_filter). by apply (list_elem_of_fmap_2 fst). }
    split; [|split; [done|split; [done|]]].
    + eapply sublist_NoDup; [exact Hnd|]. apply fmap_sublist, sublist_filter.
    + intros i v u Hi Hu Hv. exfalso. pose proof (list_elem_of_lookup_2 _ _ _ Hi) as Hvr.
      apply Hready in Hvr as Hz; [|by apply Hsub0]. rewrite Hn, <- rem_indegree in Hz by done.
      eapply (rem_zero ks succ Hnd); [exact Hz|exact Hu|apply not_elem_of_nil|exact Hv].
  - simpl. unfold ks. rewrite length_fmap. lia.
  - cbn [app] in *. set (order := static_order_from (S (length g)) g (initially_ready g)) in *.
    unfold static_order. fold order. cbn zeta. case_decide as Hlen.
    + split; [done|]. split; [|done]. intros v. split; [by apply Hsub|]. intros Hv.
      assert (order ≡ₚ ks) as ->; [|done]. apply submseteq_length_Permutation; [by apply NoDup_submseteq|].
      rewrite Hlen. unfold ks. by rewrite length_fmap.
    + split; [done|]. intros rank Hrank. apply Hlen.
      assert (order ≡ₚ ks) as ->; [|unfold ks; by rewrite length_fmap].
      apply NoDup_Permutation; [done|done|]. intros v. split; [by apply Hsub|].
      apply (ranked_complete ks succ rank); [|done]. intros u w _ Huw. by apply Hrank.
Qed.
End graph.
Arguments info K : clear implicits. Arguments graph K : clear implicits.

(** ** [sort_topologically] *)
Section sort.
Context {Node K : Type} `{EqDecision K}.
Context (get_key : Node → K) (get_dependencies get_dependants : Node → list K).

Definition add_element (g : graph K) (element : Node) : graph K :=
  let k := get_key element in
  let g := add k [] g in
  let g := foldl (λ g d, add k [d] g) g (get_dependencies element) in
  foldl (λ g d, add d [k] g) g (get_dependants element).

Definition build_graph (nodes : list Node) : graph K := foldl add_element [] nodes.

(** [sort_order.index(key)] *)
Definition index_of (order : list K) (k : K) : nat := default 0 (fst <$> list_find (λ x, x = k) order).

Definition sort_topologically (nodes : list Node) : res (list Node) :=
  order ← static_order (build_graph nodes);
  Ok (py_sorted (λ a b, index_of order (get_key a) <=? index_of order (get_key b)) nodes).

(** [a] must come before [b]. *)
Definition before (a b : Node) : Prop := get_key a ∈ get_dependencies b ∨ get_key b ∈ get_dependants a.

(** The edges that the elements [l] contribute. *)
Definition mentions (l : list Node) (u v : K) : Prop :=
  ∃ e, e ∈ l ∧ ((get_key e = v ∧ u ∈ get_dependencies e) ∨ (get_key e = u ∧ v ∈ get_dependants e)).

Lemma fold_dependencies k ds (g : graph K) :
  wf g → wf (foldl (λ g d, add k [d] g) g ds) ∧
  (∀ u v, edge (foldl (λ g d, add k [d] g) g ds) u v ↔ edge g u v ∨ (v = k ∧ u ∈ ds)) ∧
  ∀ v, v ∈ g.*1 → v ∈ (foldl (λ g d, add k [d] g) g ds).*1.
Proof.
  revert g. induction ds as [|d ds IH]; intros g Hg; simpl.
  - split; [done|]. split; [|done]. intros u v. rewrite elem_of_nil. tauto.
  - destruct (add_one_spec g k d Hg) as (Hg1 & He1 & Hk1). destruct (IH _ Hg1) as (Hg2 & He2 & Hk2).
    split; [done|]. split; [|intros v Hv; apply Hk2, Hk1; by left].
    intros u v. rewrite He2, He1, elem_of_cons. tauto.
Qed.

Lemma fold_dependants k ds (g : graph K) :
  wf g → wf (foldl (λ g d, add d [k] g) g ds) ∧
  (∀ u v, edge (foldl (λ g d, add d [k] g) g ds) u v ↔ edge g u v ∨ (u = k ∧ v ∈ ds)) ∧
  ∀ v, v ∈ g.*1 → v ∈ (foldl (λ g d, add d [k] g) g ds).*1.
Proof.
  revert g. induction ds as [|d ds IH]; intros g Hg; simpl.
  - split; [done|]. split; [|done]. intros u v. rewrite elem_of_nil. tauto.
  - destruct (add_one_spec g d k Hg) as (Hg1 & He1 & Hk1). destruct (IH _ Hg1) as (Hg2 & He2 & Hk2).
    split; [done|]. split; [|intros v Hv; apply Hk2, Hk1; by left].
    intros u v. rewrite He2, He1, elem_of_cons. tauto.
Qed.

Lemma build_graph_spec (l : list Node) :
  wf (build_graph l) ∧ (∀ u v, edge (build_graph l) u v ↔ mentions l u v) ∧ ∀ e, e ∈ l → get_key e ∈ (build_graph l).*1.
Proof.
  induction l as [|e l (Hg & He & Hk)] using rev_ind.
  - split; [split; [constructor|split; [by intros u v ?%not_elem_of_nil|done]]|]. split; [|by intros e ?%not_elem_of_nil].
    intros u v. split; [by intros ?%not_elem_of_nil|]. by intros (e & ?%not_elem_of_nil & _).
  - unfold build_graph in *. rewrite foldl_app. cbn [foldl]. unfold add_element at 1 3 5.
    set (g := foldl add_element [] l) in *.
    destruct (add_nil_spec g (get_key e) Hg) as (Hg1 & He1 & Hk1).
    destruct (fold_dependencies (get_key e) (get_dependencies e) _ Hg1) as (Hg2 & He2 & Hk2).
    destruct (fold_dependants (get_key e) (get_dependants e) _ Hg2) as (Hg3 & He3 & Hk3).
    split; [done|]. split.
    + intros u v. rewrite He3, He2, He1, He. unfold mentions. split.
      * intros [[(x & Hx & H)|[-> H]]|[-> H]].
        -- exists x. split; [apply elem_of_app; by left|done].
        -- exists e. split; [apply elem_of_app; right; by left|]. by left.
        -- exists e. split; [apply elem_of_app; right; by left|]. by right.
      * intros (x & Hx & H). apply elem_of_app in Hx as [Hx| ->%list_elem_of_singleton]; [left; left; eauto|].
        destruct H as [[<- H]|[<- H]]; [left; by right|by right].
    + intros x Hx. apply Hk3, Hk2, Hk1. apply elem_of_app in Hx as [Hx| ->%list_elem_of_singleton]; [left; by apply Hk|by right].
Qed.

Lemma index_of_lookup (order : list K) k : k ∈ order → order !! index_of order k = Some k.
Proof.
  intros Hk. unfold index_of. destruct (list_find_elem_of (λ x, x = k) order k Hk eq_refl) as [[i x] Hf].
  rewrite Hf. simpl. apply list_find_Some in Hf as (Hi & -> & _). done.
Qed.

Lemma index_of_le (order : list K) j k : order !! j = Some k → index_of order k ≤ j.
Proof.
  intros Hj. unfold index_of. destruct (list_find_elem_of (λ x, x = k) order k) as [[i x] Hf];
    [by eapply list_elem_of_lookup_2|done|].
  rewrite Hf. simpl. apply list_find_Some in Hf as (_ & _ & Hmin). destruct (decide (i ≤ j)) as [|Hlt]; [done|].
  exfalso. apply (Hmin j k Hj); [lia|done].
Qed.

Lemma ordered_index (order : list K) (g : graph K) u v :
  wf g → (∀ v, v ∈ order ↔ v ∈ g.*1) → ordered g.*1 (λ u, successors (get_info u g)) order → edge g u v →
  index_of order u < index_of order v.
Proof.
  intros (_ & Hin & _) Hel Hord Huv. assert (v ∈ order) as Hv by (apply Hel; by eapply Hin).
  destruct (Hord (index_of order v) v u) as (j & Hj & Hju); [by apply index_of_lookup|by eapply edge_source|done|].
  pose proof (index_of_le order j u Hju). lia.
Qed.

(** Topological sorting.  When it succeeds the result is a rearrangement
    of the elements in which everything comes after what it depends on; it
    succeeds exactly when the dependencies have no cycle, that is when the
    keys can be ranked along them, and otherwise raises [CycleError]. *)
Theorem sort_topologically_correct (nodes : list Node) :
  match sort_topologically nodes with
  | Ok l => l ≡ₚ nodes ∧
      (∀ i j a b, l !! i = Some a → l !! j = Some b → before a b → i < j) ∧
      ∃ rank : K → nat, ∀ u v, mentions nodes u v → rank u < rank v
  | Raise e => e = CycleError ∧ ¬ ∃ rank : K → nat, ∀ u v, mentions nodes u v → rank u < rank v
  end.
Proof.
  destruct (build_graph_spec nodes) as (Hwf & He & Hk). pose proof (static_order_spec _ Hwf) as Hso.
  unfold sort_topologically. destruct (static_order (build_graph nodes)) as [order|e]; simpl.
  - destruct Hso as (Hnd & Hel & Hord).
    assert (∀ u v, mentions nodes u v → index_of order u < index_of order v) as Hrank.
    { intros u v Huv. eapply ordered_index; [exact Hwf|exact Hel|exact Hord|by apply He]. }
    set (leb := λ a b, index_of order (get_key a) <=? index_of order (get_key b)).
    pose proof (py_sorted_Permutation leb nodes) as Hperm. split; [done|]. split; [|by exists (index_of order)].
    intros i j a b Hi Hj Hab.
    assert (index_of order (get_key a) < index_of order (get_key b)) as Hlt.
    { apply Hrank. destruct Hab as [Hab|Hab]; [exists b|exists a]; (split; [rewrite <- Hperm; by eapply list_elem_of_lookup_2|tauto]). }
    assert (StronglySorted (λ a b, leb a b = true) (py_sorted leb nodes)) as HS.
    { apply py_sorted_StronglySorted; unfold leb.
      - intros x y. rewrite !Nat.leb_le. lia.
      - intros x y z. rewrite !Nat.leb_le. lia. }
    destruct (decide (i < j)) as [|Hge]; [done|]. exfalso. destruct (decide (i = j)) as [->|Hne].
    + assert (a = b) as -> by congruence. lia.
    + assert (leb b a = true) as Hba by (eapply (StronglySorted_lookup (λ a b, leb a b = true)); [exact HS| |exact Hj|exact Hi]; lia).
      unfold leb in Hba. apply Nat.leb_le in Hba. lia.
  - destruct Hso as [-> Hno]. split; [done|]. intros [rank Hrank]. apply (Hno rank). intros u v Huv. apply Hrank. by apply He.
Qed.
End sort.

End Topological.
