(* ===== verification/ChText.v ===== *)
(** * Names and strings of ClickHouse ([coordinator/plugins/clickhouse/escaping.py],
      the quoting functions of [client.py], [macros.py])

    Byte strings are lists of bytes; a [str] made of ASCII characters or of
    encoded bytes is a [string].  The regular expressions are written out as
    the scans they perform. *)

From stdpp Require Import base strings list gmap.
From Stdlib Require Import NArith Ascii Lia Strings.Byte.
From Stdlib Require Strings.String.
From S2P Require Import Prelude Base64.

Local Open Scope N_scope.
Notation list_byte_of_string := String.list_byte_of_string.
Notation string_of_list_byte := String.string_of_list_byte.
Notation list_byte_of_string_of_list_byte := String.list_byte_of_string_of_list_byte.

(** ** Hexadecimal *)
Definition hex_upper (n : N) : byte := default x30 (list_byte_of_string "0123456789ABCDEF" !! N.to_nat n).
Definition hex_lower (n : N) : byte := default x30 (list_byte_of_string "0123456789abcdef" !! N.to_nat n).

(** [0-9A-F] and [0-9a-fA-F] *)
Definition unhex_upper (b : byte) : option N :=
  let n := Byte.to_N b in
  if (48 <=? n) && (n <=? 57) then Some (n - 48)
  else if (65 <=? n) && (n <=? 70) then Some (n - 55)
  else None.
Definition unhex (b : byte) : option N :=
  match unhex_upper b with
  | Some n => Some n
  | None => let n := Byte.to_N b in if (97 <=? n) && (n <=? 102) then Some (n - 87) else None
  end.
Definition byte_of_hex (h l : N) : byte := Base64.byte_of (16 * h + l).

(** ** [escape_for_file_name], [unescape_from_file_name] *)
Module Escaping.

(** [a-zA-Z0-9_] *)
Definition is_word (b : byte) : bool :=
  let n := Byte.to_N b in
  ((97 <=? n) && (n <=? 122)) || ((65 <=? n) && (n <=? 90)) || ((48 <=? n) && (n <=? 57)) || (n =? 95).

Definition percent_encode_byte (b : byte) : list byte :=
  let n := Byte.to_N b in [x25; hex_upper (n / 16); hex_upper (n mod 16)].

Definition escape_bytes (name : list byte) : list byte :=
  concat ((λ b, if is_word b then [b] else percent_encode_byte b) <$> name).
Definition escape_for_file_name (name : list byte) : string := string_of_list_byte (escape_bytes name).

(** The scan for [%([0-9A-F][0-9A-F])]. *)
Fixpoint unescape_bytes (l : list byte) : list byte :=
  match l with
  | [] => []
  | c :: r =>
      if Byte.eqb c x25 then
        match r with
        | a :: b :: r2 =>
            match unhex_upper a, unhex_upper b with
            | Some h, Some l => byte_of_hex h l :: unescape_bytes r2
            | _, _ => c :: unescape_bytes r
            end
        | _ => c :: unescape_bytes r
        end
      else c :: unescape_bytes r
  end.
Definition unescape_from_file_name (encoded_name : string) : list byte := unescape_bytes (list_byte_of_string encoded_name).

Definition safe_char (b : byte) : bool := is_word b || Byte.eqb b x25.

Lemma unescape_one b rest :
  unescape_bytes ((if is_word b then [b] else percent_encode_byte b) ++ rest) = b :: unescape_bytes rest.
Proof. destruct b; reflexivity. Qed.

Lemma escape_bytes_safe name : forallb safe_char (escape_bytes name) = true.
Proof.
  unfold escape_bytes. induction name as [|b name IH]; [done|]. csimpl. rewrite forallb_app, IH.
  assert (forallb safe_char (if is_word b then [b] else percent_encode_byte b) = true) as ->; [|done].
  by destruct b.
Qed.

Lemma unescape_escape_bytes name : unescape_bytes (escape_bytes name) = name.
Proof.
  unfold escape_bytes. induction name as [|b name IH]; [done|]. csimpl. by rewrite unescape_one, IH.
Qed.

Lemma unescape_escape name : unescape_from_file_name (escape_for_file_name name) = name.
Proof.
  unfold unescape_from_file_name, escape_for_file_name.
  rewrite list_byte_of_string_of_list_byte. apply unescape_escape_bytes.
Qed.

(** File names of arbitrary byte strings: the escaped name is made of
    letters, digits, underscores and percent signs only - so it is a single
    path component - and unescaping gives the name back; in particular
    different names do not collide. *)
Theorem escape_file_name_roundtrip (name : list byte) :
  unescape_from_file_name (escape_for_file_name name) = name ∧
  ∀ b, b ∈ list_byte_of_string (escape_for_file_name name) → safe_char b = true.
Proof.
  split; [apply unescape_escape|]. intros b Hb. unfold escape_for_file_name in Hb.
  rewrite list_byte_of_string_of_list_byte in Hb. pose proof (escape_bytes_safe name) as H.
  rewrite forallb_forall in H. by apply H, list_elem_of_In.
Qed.
End Escaping.

(** ** [escape_sql_string], [unescape_sql_string] *)
Module SqlString.
Inductive quoting : Type := Identifier | Text.

(** [IDENTIFIER_ESCAPE_MAP] and [STRING_ESCAPE_MAP] *)
Definition escape_map (q : quoting) (b : byte) : option (list byte) :=
  match b with
  | x08 => Some (list_byte_of_string "\b")
  | x0c => Some (list_byte_of_string "\f")
  | x0d => Some (list_byte_of_string "\r")
  | x0a => Some (list_byte_of_string "\n")
  | x09 => Some (list_byte_of_string "\t")
  | x00 => Some (list_byte_of_string "\0")
  | x5c => Some (list_byte_of_string "\\")
  | x60 => match q with Identifier => Some (list_byte_of_string "\`") | Text => None end
  | x27 => match q with Text => Some (list_byte_of_string "\'") | Identifier => None end
  | _ => None
  end.

Definition quote_char (q : quoting) : byte := match q with Identifier => x60 | Text => x27 end.

(** One byte of [_escape_bytes]. *)
Definition escape_byte (q : quoting) (b : byte) : list byte :=
  match escape_map q b with
  | Some s => s
  | None =>
      let n := Byte.to_N b in
      if (n <? 32) || (126 <? n) then [x5c; x78; hex_lower (n / 16); hex_lower (n mod 16)] else [b]
  end.
Definition escape (q : quoting) (value : list byte) : list byte :=
  quote_char q :: concat (escape_byte q <$> value) ++ [quote_char q].
Definition escape_sql_identifier (identifier : list byte) : string := string_of_list_byte (escape Identifier identifier).
Definition escape_sql_string (value : list byte) : string := string_of_list_byte (escape Text value).

(** [bytes.maketrans(b"bfrnt0", b"\b\f\r\n\t\0")] *)
Definition translate (b : byte) : byte :=
  match b with
  | x62 => x08 | x66 => x0c | x72 => x0d | x6e => x0a | x74 => x09 | x30 => x00 | _ => b
  end.

(** The scan of [unescape_sql_string], the alternatives in the order of the
    regular expression. *)
Fixpoint unescape_inner (l : list byte) : res (list byte) :=
  match l with
  | [] => Ok []
  | c :: r =>
      if Byte.eqb c x5c then
        match r with
        | [] => Raise ValueError
        | x :: r1 =>
            if Byte.eqb x x78 then
              match r1 with
              | a :: b :: r2 =>
                  match unhex a, unhex b with
                  | Some h, Some l => s ← unescape_inner r2; Ok (byte_of_hex h l :: s)
                  | _, _ => Raise ValueError
                  end
              | _ => Raise ValueError
              end
            else s ← unescape_inner r1; Ok (translate x :: s)
        end
      else if Byte.eqb c x27 then Raise ValueError
      else s ← unescape_inner r; Ok (c :: s)
  end.

Definition unescape_sql_string (s : list byte) : res (list byte) :=
  match s with
  | q :: r =>
      if Byte.eqb q x27 && match last r with Some e => Byte.eqb e x27 | None => false end
      then unescape_inner (removelast r) else Raise ValueError
  | [] => Raise ValueError
  end.

Lemma unescape_inner_one b rest :
  unescape_inner (escape_byte Text b ++ rest) = (s ← unescape_inner rest; Ok (b :: s)).
Proof. destruct b; reflexivity. Qed.

(** Skipping escape sequences, no quote is seen before the end. *)
Fixpoint closed (q : quoting) (l : list byte) : bool :=
  match l with
  | [] => true
  | c :: r =>
      if Byte.eqb c x5c then match r with [] => false | _ :: r1 => closed q r1 end
      else negb (Byte.eqb c (quote_char q)) && closed q r
  end.

Lemma closed_one q b rest : closed q (escape_byte q b ++ rest) = closed q rest.
Proof. destruct q, b; reflexivity. Qed.

Lemma escape_byte_printable q b : forallb (λ c, (31 <? Byte.to_N c) && (Byte.to_N c <? 127)) (escape_byte q b) = true.
Proof. destruct q, b; reflexivity. Qed.

Lemma unescape_escaped value : unescape_sql_string (escape Text value) = Ok value.
Proof.
  unfold unescape_sql_string, escape. rewrite last_snoc, removelast_last. simpl.
  induction value as [|b value IH]; [done|]. csimpl. by rewrite unescape_inner_one, IH.
Qed.

(** Quoted strings and identifiers: whatever the bytes, the quoted form is
    printable ASCII between two quotes, its inside contains no unescaped quote
    - the query cannot be broken out of - and a quoted string parses back
    to the same bytes. *)
Theorem sql_quoting_roundtrip (q : quoting) (value : list byte) :
  (∃ inside, escape q value = quote_char q :: inside ++ [quote_char q] ∧ closed q inside = true ∧
     forallb (λ c, (31 <? Byte.to_N c) && (Byte.to_N c <? 127)) inside = true) ∧
  unescape_sql_string (list_byte_of_string (escape_sql_string value)) = Ok value.
Proof.
  split.
  - eexists. split; [done|]. split.
    + induction value as [|b value IH]; [done|]. csimpl. by rewrite closed_one.
    + induction value as [|b value IH]; [done|]. csimpl. by rewrite forallb_app, escape_byte_printable, IH.
  - unfold escape_sql_string. rewrite list_byte_of_string_of_list_byte. apply unescape_escaped.
Qed.
End SqlString.

(** ** [Macros] *)
Module Macros.
Section macros.
(** [_macros] *)
Context (macros : gmap (list N) (list byte)).

Definition key (b : list byte) : list N := Byte.to_N <$> b.

Definition get_substitution (macro : list byte) : res (list byte) :=
  match macros !! key macro with Some s => Ok s | None => Raise MacroExpansionError end.

(** The text up to the next closing brace, and what follows it. *)
Fixpoint split_close (l : list byte) : option (list byte * list byte) :=
  match l with
  | [] => None
  | c :: r => if Byte.eqb c x7d then Some ([], r)
              else match split_close r with Some (a, b) => Some (c :: a, b) | None => None end
  end.

(** [re.subn(rb"\{([^}]+)}", self._get_substitution, content)]: the fuel is the
    length of the text. *)
Fixpoint subn (fuel : nat) (l : list byte) : res (list byte * nat) :=
  match fuel, l with
  | _, [] => Ok ([], 0%nat)
  | O, _ => Raise OutOfFuel
  | S fuel', c :: r =>
      match (if Byte.eqb c x7b then split_close r else None) with
      | Some (m :: ms, rest) =>
          s ← get_substitution (m :: ms); p ← subn fuel' rest; Ok (s ++ fst p, S (snd p))
      | _ => p ← subn fuel' r; Ok (c :: fst p, snd p)
      end
  end.

Definition has_open (l : list byte) : bool := existsb (λ c, Byte.eqb c x7b) l.

(** [expand] with [left] levels before the limit of ten. *)
Fixpoint expand_from (left : nat) (level : nat) (content : list byte) : res (list byte) :=
  if (0 <? level)%nat && (65536 <? N.of_nat (length content)) then Raise MacroExpansionError
  else match left with
       | O => Raise MacroExpansionError
       | S left' =>
           if has_open content then
             p ← subn (length content) content;
             if (0 <? snd p)%nat then expand_from left' (S level) (fst p) else Raise MacroExpansionError
           else Ok content
       end.
Definition expand (content : list byte) : res (list byte) := expand_from 10 0 content.

Lemma split_close_length l a b : split_close l = Some (a, b) → (length b < length l)%nat.
Proof.
  revert a. induction l as [|c r IH]; intros a; simpl; [done|]. destruct (Byte.eqb c x7d).
  - intros [= <- <-]. lia.
  - destruct (split_close r) as [[a' b']|] eqn:E; [|done]. intros [= <- <-]. specialize (IH a' eq_refl). lia.
Qed.

(** The fuel of the scan is enough: it only fails on an unknown macro. *)
Lemma subn_total fuel l : (length l ≤ fuel)%nat → (∃ p, subn fuel l = Ok p) ∨ subn fuel l = Raise MacroExpansionError.
Proof.
  revert l. induction fuel as [|fuel IH]; intros [|c r] Hl; simpl in *; [by left; eexists|lia|by left; eexists|].
  assert (∀ l', (length l' ≤ fuel)%nat → ∀ f : list byte * nat → list byte * nat,
    (∃ p, (p ← subn fuel l'; Ok (f p)) = Ok p) ∨ (p ← subn fuel l'; Ok (f p)) = Raise MacroExpansionError) as Hrec.
  { intros l' Hl' f. destruct (IH l' Hl') as [[p ->]| ->]; [left; by eexists|by right]. }
  destruct (if Byte.eqb c x7b then split_close r else None) as [[[|m ms] rest]|] eqn:E.
  - by apply (Hrec r ltac:(lia) (λ p, (c :: fst p, snd p))).
  - destruct (Byte.eqb c x7b); [|done]. apply split_close_length in E.
    unfold get_substitution. destruct (macros !! key (m :: ms)) as [s|]; [|by right]. simpl.
    by apply (Hrec rest ltac:(lia) (λ p, (s ++ fst p, S (snd p)))).
  - by apply (Hrec r ltac:(lia) (λ p, (c :: fst p, snd p))).
Qed.

Lemma expand_from_spec left level content :
  match expand_from left level content with
  | Ok r => has_open r = false ∧ (has_open content = false → r = content)
  | Raise e => e = MacroExpansionError
  end.
Proof.
  revert level content. induction left as [|left IH]; intros level content; cbn [expand_from];
    destruct ((0 <? level)%nat && _); [done|done|done|].
  destruct (has_open content) eqn:Eo; [|done].
  destruct (subn_total (length content) content) as [[p ->]| ->]; [done| |done]. simpl.
  destruct (0 <? snd p)%nat; [|done]. specialize (IH (S level) (fst p)).
  destruct (expand_from left (S level) (fst p)); [|done]. by destruct IH.
Qed.

(** Macro expansion always terminates within its ten levels: it either
    raises [MacroExpansionError], or returns a text without any opening brace
    left, and returns a text that had none unchanged. *)
Theorem expand_brace_free (content : list byte) :
  match expand content with
  | Ok r => has_open r = false ∧ (has_open content = false → r = content)
  | Raise e => e = MacroExpansionError
  end.
Proof. apply expand_from_spec. Qed.
End macros.

Definition example_macros : gmap (list N) (list byte) :=
  {[key (list_byte_of_string "shard") := list_byte_of_string "s{n}"; key (list_byte_of_string "n") := list_byte_of_string "1";
    key (list_byte_of_string "loop") := list_byte_of_string "{loop}"]}.
Example expand_example :
  expand example_macros (list_byte_of_string "/a/{shard}/{n}") = Ok (list_byte_of_string "/a/s1/1") ∧
  expand example_macros (list_byte_of_string "{loop}") = Raise MacroExpansionError ∧
  expand example_macros (list_byte_of_string "{}") = Raise MacroExpansionError.
Proof. vm_compute. done. Qed.
End Macros.
