(* ===== verification/ChParts.v ===== *)
(** * Tables, disks and parts of ClickHouse
      ([coordinator/plugins/clickhouse/manifest.py], [dependencies.py],
      [disks.py], [parts.py])

    Tables are created in the order of their dependencies; the files of a
    frozen table part are recognised by their paths, from which the parts to
    attach are listed.  A UUID is its canonical text. *)

From stdpp Require Import base gmap strings list sorting.
From Stdlib Require Import ZArith NArith Lia Ascii Strings.Byte.
From S2P Require Import Prelude Progress Ipc Base64 Topological ChText.

Module ChParts.
Local Open Scope nat_scope.

(** ** Manifest *)
Definition UUID : Type := string.

Record Table : Type := mkTable {
  database : list byte;
  tname : list byte;
  engine : string;
  uuid : UUID;
  create_query : list byte;
  (** the tables that depend on this one *)
  dependencies : list (list byte * list byte);
}.

Fixpoint str_contains (needle s : string) : bool :=
  String.prefix needle s || match s with EmptyString => false | String _ s' => str_contains needle s' end.

Definition is_replicated (t : Table) : bool := startswith "Replicated" (engine t).
Definition requires_freezing (t : Table) : bool := str_contains "MergeTree" (engine t).
Definition escaped_sql_identifier (t : Table) : string :=
  SqlString.escape_sql_identifier (database t) +:+ "." +:+ SqlString.escape_sql_identifier (tname t).

Definition tables_sorted_by_dependencies (tables : list Table) : res (list Table) :=
  Topological.sort_topologically (λ t, (database t, tname t)) (λ _, []) dependencies tables.

(** ** Access entities: users, roles, quotas, row policies and profiles *)
Record AccessEntity : Type := mkAccessEntity {
  entity_type : string;
  entity_uuid : UUID;
  entity_name : list byte;
  attach_query : list byte;
}.

(** [UUID_RE.fullmatch] *)
Definition is_lower_hex (c : ascii) : bool :=
  let n := N_of_ascii c in ((48 <=? n) && (n <=? 57) || (97 <=? n) && (n <=? 102))%N.
Definition uuid_shape : list bool :=
  replicate 8 true ++ [false] ++ replicate 4 true ++ [false] ++ replicate 4 true ++ [false] ++ replicate 4 true ++
  [false] ++ replicate 12 true.
Definition is_uuid (s : string) : bool :=
  let cs := String.list_ascii_of_string s in
  (length cs =? length uuid_shape) && forallb (λ p : bool * ascii, if p.1 then is_lower_hex p.2 else Ascii.eqb p.2 "-"%char) (zip uuid_shape cs).

(** [clickhouse_id.findall]: the identifiers between [ID('] and [')], which
    are all 42 characters long and do not overlap. *)
Definition id_at (l : list byte) : option UUID :=
  let u := String.string_of_list_byte (take 36 (drop 4 l)) in
  if decide (take 4 l = String.list_byte_of_string "ID('" ∧ take 2 (drop 40 l) = String.list_byte_of_string "')")
  then if is_uuid u then Some u else None
  else None.
Fixpoint findall_ids (skip : nat) (l : list byte) : list UUID :=
  match l with
  | [] => []
  | c :: r =>
      match skip with
      | S k => findall_ids k r
      | 0 => match id_at l with Some u => u :: findall_ids 41 r | None => findall_ids 0 r end
      end
  end.

Definition access_entities_sorted_by_dependencies (access_entities : list AccessEntity) : res (list AccessEntity) :=
  Topological.sort_topologically entity_uuid (λ e, findall_ids 0 (attach_query e)) (λ _, []) access_entities.

(** ** Disks *)
Inductive DiskType : Type := local | object_storage.

(** [RohmuStorageConfig], which identifies a storage: two storages with the
    same configuration read and write the same place. *)
Definition StorageConfig : Type := string.

Record Disk : Type := mkDisk {
  disk_type : DiskType;
  disk_name : string;
  path_parts : list string;
  disk_object_storage : option StorageConfig;
}.

Record DiskObjectStorageConfiguration : Type := mkDiskObjectStorageConfiguration {
  default_storage : string;
  storages : gmap string StorageConfig;
}.

Record DiskConfiguration : Type := mkDiskConfiguration {
  dc_type : DiskType;
  (** [path.parts] *)
  dc_path : list string;
  dc_name : string;
  dc_object_storage : option DiskObjectStorageConfiguration;
}.

(** [Disk.from_disk_config] *)
Definition from_disk_config (config : DiskConfiguration) (storage_name : option string) : res Disk :=
  storage ← match dc_object_storage config with
            | None => Ok None
            | Some c =>
                match storages c !! default (default_storage c) storage_name with
                | Some storage_config => Ok (Some storage_config)
                | None => Raise KeyError
                end
            end;
  Ok (mkDisk (dc_type config) (dc_name config) (dc_path config) storage).

Record ParsedPath : Type := mkParsedPath {
  disk : Disk;
  freeze_name : option (list byte);
  table_uuid : UUID;
  detached : bool;
  part_name : list byte;
  file_parts : list string;
}.

(** [ParsedPath.to_path] *)
Definition path_components (p : ParsedPath) : list string :=
  path_parts (disk p) ++
  match freeze_name p with Some n => ["shadow"; Escaping.escape_for_file_name n] | None => [] end ++
  ["store"; String.substring 0 3 (table_uuid p); table_uuid p] ++
  (if detached p then ["detached"] else []) ++
  [Escaping.escape_for_file_name (part_name p)] ++
  file_parts p.
Definition to_path (p : ParsedPath) : string := join_on "/"%char (path_components p).

(** [Disks] *)
Definition get_snapshot_groups (disks : list Disk) (freeze_name : list byte) : list SnapshotGroup :=
  (λ d, mkSnapshotGroup
          (join_on "/"%char (path_parts d ++ ["shadow/" +:+ Escaping.escape_for_file_name freeze_name +:+ "/store/**/*"]))
          (match disk_type d with object_storage => ["frozen_metadata.txt"] | local => [] end)
          (match disk_type d with object_storage => None | local => Some DEFAULT_EMBEDDED_FILE_SIZE end)) <$> disks.

Definition get_disk (disks : list Disk) (parts : list string) : option Disk :=
  head (filter (λ d, take (length (path_parts d)) parts = path_parts d) disks).

Definition part_at (parts : list string) (i : nat) : res string :=
  match parts !! i with Some s => Ok s | None => Raise IndexError end.

(** [parse_part_file_path]; [PartFilePathError] is a [ValueError]. *)
Definition parse_part_file_path (disks : list Disk) (file_path : string) : res ParsedPath :=
  let parts := split_on "/"%char file_path in
  match get_disk disks parts with
  | None => Raise ValueError
  | Some disk =>
      let store_or_shadow_index := length (path_parts disk) in
      kind ← part_at parts store_or_shadow_index;
      '(freeze_name, uuid_index) ←
        (if decide (kind = "store") then Ok (None, store_or_shadow_index + 2)
         else if decide (kind = "shadow") then
           n ← part_at parts (store_or_shadow_index + 1);
           Ok (Some (Escaping.unescape_from_file_name n), store_or_shadow_index + 4)
         else Raise ValueError);
      uuid ← part_at parts uuid_index;
      if negb (is_uuid uuid) then Raise ValueError
      else
        parent ← part_at parts (uuid_index - 1);
        if decide (parent ≠ String.substring 0 3 uuid) then Raise ValueError
        else
          d ← part_at parts (uuid_index + 1);
          let detached := bool_decide (d = "detached") in
          let part_name_index := uuid_index + (if detached then 2 else 1) in
          n ← part_at parts part_name_index;
          Ok (mkParsedPath disk freeze_name uuid detached (Escaping.unescape_from_file_name n) (drop (part_name_index + 1) parts))
  end.

(** The deepest disks come first. *)
Definition sort_disks (disks : list Disk) : list Disk :=
  py_sorted (λ a b, length (path_parts b) <=? length (path_parts a)) disks.

Definition from_disk_configs (disk_configs : list DiskConfiguration) (storage_name : option string) : res (list Disk) :=
  disks ← fold_res (λ acc c, d ← from_disk_config c storage_name; Ok (acc ++ [d])) [] disk_configs;
  Ok (sort_disks disks).

(** [get_object_storage]: that of the first disk with the name. *)
Definition get_object_storage (disks : list Disk) (name : string) : option StorageConfig :=
  match filter (λ d, disk_name d = name) disks with
  | [] => None
  | d :: _ => disk_object_storage d
  end.

(** ** Parts *)
Record PartFile : Type := mkPartFile {
  part_snapshot_file : SnapshotFile;
  part_servers : gset nat;
}.

Definition get_part_servers (files : list PartFile) : res (gset nat) :=
  servers ← fold_res (λ acc f, match acc with
                               | None => Ok (Some (part_servers f))
                               | Some s => if decide (s = part_servers f) then Ok (Some s) else Raise ValueError
                               end) None files;
  match servers with Some s => Ok s | None => Raise AssertionError end.

(** [sorted(parts_to_attach)]: pairs of identifiers and part names. *)
Definition attach_leb (a b : string * list byte) : bool :=
  if decide (a.1 = b.1) then str_leb (String.string_of_list_byte a.2) (String.string_of_list_byte b.2) else str_leb a.1 b.1.

Definition list_parts_to_attach (sr : SnapshotResult) (disks : list Disk) (tables_by_uuid : gmap UUID Table) :
    res (list (string * list byte)) :=
  match sr_state sr with
  | None => Raise AssertionError
  | Some state =>
      found ← fold_res (λ acc f,
        p ← parse_part_file_path disks (relative_path f);
        Ok (match tables_by_uuid !! table_uuid p with
            | Some t => acc ++ [(escaped_sql_identifier t, part_name p)]
            | None => acc
            end)) [] (state_files state);
      Ok (py_sorted attach_leb (remove_dups found))
  end.

(** ** Paths *)
Notation no_slash := (free_of "/"%char).

Lemma free_of_bytes c (l : list byte) :
  (∀ b, b ∈ l → Ascii.ascii_of_byte b ≠ c) → free_of c (String.string_of_list_byte l) = true.
Proof.
  induction l as [|b l IH]; intros H; [done|].
  change (negb (Ascii.eqb (Ascii.ascii_of_byte b) c) && free_of c (String.string_of_list_byte l) = true).
  rewrite IH by (intros x Hx; apply H; by right). rewrite andb_true_r. apply negb_true_iff, Ascii.eqb_neq, H. by left.
Qed.

Lemma escaped_no_slash n : no_slash (Escaping.escape_for_file_name n) = true.
Proof.
  apply free_of_bytes. intros b Hb. pose proof (Escaping.escape_bytes_safe n) as Hs. rewrite forallb_forall in Hs.
  apply list_elem_of_In, Hs in Hb. intros E. by destruct b.
Qed.

Lemma substring_no_slash n s : no_slash s = true → no_slash (String.substring 0 n s) = true.
Proof.
  revert n. induction s as [|c s IH]; intros [|n]; try done. simpl. intros [Hc Hs]%andb_prop. by rewrite Hc, IH.
Qed.

Lemma uuid_no_slash u : is_uuid u = true → no_slash u = true.
Proof.
  unfold is_uuid. intros [Hlen Hall]%andb_prop. apply Nat.eqb_eq in Hlen.
  revert Hlen Hall. generalize uuid_shape. induction u as [|c u IH]; intros shape Hlen Hall; [done|].
  destruct shape as [|b shape]; [done|]. simpl in Hlen, Hall. apply andb_prop in Hall as [Hc Hall]. simpl.
  rewrite (IH shape) by (done || lia). rewrite andb_true_r. apply negb_true_iff, Ascii.eqb_neq. intros ->.
  by destruct b.
Qed.

Lemma part_at_app (pre l : list string) i k : i = length pre + k → part_at (pre ++ l) i = part_at l k.
Proof.
  intros ->. unfold part_at. rewrite lookup_app_r by lia. by replace (length pre + k - length pre) with k by lia.
Qed.

(** A parsed path of one of the disks. *)
Definition path_ok (disks : list Disk) (p : ParsedPath) : Prop :=
  get_disk disks (path_components p) = Some (disk p) ∧ is_uuid (table_uuid p) = true ∧
  forallb no_slash (path_parts (disk p) ++ file_parts p) = true ∧
  (detached p = false → Escaping.escape_for_file_name (part_name p) ≠ "detached").

Lemma components_no_slash disks p : path_ok disks p → forallb no_slash (path_components p) = true.
Proof.
  intros (_ & Hu & Hns & _). apply uuid_no_slash in Hu. rewrite forallb_app in Hns. apply andb_prop in Hns as [H1 H2].
  unfold path_components. rewrite !forallb_app, H1. cbn [forallb].
  rewrite (substring_no_slash 3 _ Hu), Hu, escaped_no_slash, H2.
  destruct (freeze_name p), (detached p); simpl; rewrite ?escaped_no_slash; done.
Qed.

Lemma drop_at (pre l : list string) i k : i = length pre + k → drop i (pre ++ l) = drop k l.
Proof. intros ->. by rewrite drop_app_add'. Qed.

(** Look up the next part: the [k]-th after those of the disk. *)
Ltac at_part k :=
  match goal with |- context [part_at (?pre ++ ?r) ?i] =>
    rewrite (part_at_app pre r i k) by lia;
    let x := eval cbn in (r !! k) in change (part_at r k) with (match x with Some s => Ok s | None => Raise IndexError end)
  end; cbn [mbind res_bind].

Lemma parse_components disks p :
  path_ok disks p → parse_part_file_path disks (to_path p) = Ok p.
Proof.
  intros Hok. pose proof (components_no_slash _ _ Hok) as Hns. destruct Hok as (Hd & Hu & _ & Hdet).
  unfold parse_part_file_path, to_path.
  rewrite split_on_join; [|unfold path_components; destruct (path_parts (disk p)); [by destruct (freeze_name p)|done]|done].
  rewrite Hd. unfold path_components. destruct p as [dk fz u det pn fp]. cbn [disk freeze_name table_uuid detached part_name file_parts] in *.
  destruct fz as [fz|], det; cbn [app]; cbn zeta;
    at_part 0; rewrite ?(decide_True (P:="store" = "store")), ?(decide_False (P:="shadow" = "store")),
      ?(decide_True (P:="shadow" = "shadow")) by done; cbn [mbind res_bind];
    [at_part 1; at_part 4|at_part 1; at_part 4|at_part 2|at_part 2];
    rewrite Hu; cbn [negb];
    [at_part 3|at_part 3|at_part 1|at_part 1]; rewrite decide_False by tauto;
    [at_part 5|at_part 5|at_part 3|at_part 3];
    [rewrite bool_decide_true by done|rewrite (bool_decide_false _ (Hdet eq_refl))
    |rewrite bool_decide_true by done|rewrite (bool_decide_false _ (Hdet eq_refl))];
    [at_part 6|at_part 5|at_part 4|at_part 3]; rewrite ?Escaping.unescape_escape;
    [erewrite drop_at with (k:=7) by lia|erewrite drop_at with (k:=6) by lia
    |erewrite drop_at with (k:=5) by lia|erewrite drop_at with (k:=4) by lia]; reflexivity.
Qed.

(** Part paths round trip: the path of a part file, in any of the four
    layouts (store or frozen, attached or detached), parses back to the same
    disk, freeze name, table, part and file, for arbitrary bytes in names. *)
Theorem part_path_roundtrip (disks : list Disk) (p : ParsedPath) :
  path_ok disks p → parse_part_file_path disks (to_path p) = Ok p.
Proof. apply parse_components. Qed.

(** The disk of a path is the deepest one that contains it. *)
Lemma get_disk_deepest disks parts d d' :
  get_disk (sort_disks disks) parts = Some d → d' ∈ disks → take (length (path_parts d')) parts = path_parts d' →
  length (path_parts d') ≤ length (path_parts d).
Proof.
  unfold get_disk, sort_disks. set (leb := λ a b, length (path_parts b) <=? length (path_parts a)). intros Hd Hin Hp.
  assert (StronglySorted (λ a b, leb a b = true) (py_sorted leb disks)) as HS.
  { apply py_sorted_StronglySorted; unfold leb; intros *; rewrite !Nat.leb_le; lia. }
  apply (elem_of_py_sorted leb) in Hin. revert HS Hd Hin. generalize (py_sorted leb disks) as l.
  induction l as [|x l IH]; intros HS Hd Hin; [done|]. inversion HS as [|? ? HS' Hall]; subst.
  rewrite filter_cons in Hd. case_decide as Hx.
  - injection Hd as ->. apply elem_of_cons in Hin as [->|Hin]; [done|]. rewrite Forall_forall in Hall.
    specialize (Hall d' Hin). unfold leb in Hall. by apply Nat.leb_le in Hall.
  - apply elem_of_cons in Hin as [->|Hin]; [done|]. by apply IH.
Qed.

(** ** Parts to attach *)
Definition to_attach (disks : list Disk) (tables : gmap UUID Table) (files : list SnapshotFile) (x : string * list byte) : Prop :=
  ∃ f p t, f ∈ files ∧ parse_part_file_path disks (relative_path f) = Ok p ∧ tables !! table_uuid p = Some t ∧
           x = (escaped_sql_identifier t, part_name p).

Lemma attach_leb_total a b : attach_leb a b = true ∨ attach_leb b a = true.
Proof.
  unfold attach_leb. destruct (decide (a.1 = b.1)) as [E|E].
  - rewrite (decide_True (P:=b.1 = a.1)) by done. apply str_leb_total.
  - rewrite (decide_False (P:=b.1 = a.1)) by (intros H; by apply E). apply str_leb_total.
Qed.

(** The parts to attach after a restore are listed exactly once each: those
    of the files of the snapshot whose table is known, by the quoted name of
    the table and the name of the part; files of other tables are skipped and
    an unexpected path is an error. *)
Theorem parts_to_attach_exact (sr : SnapshotResult) (state : SnapshotState) (disks : list Disk) (tables : gmap UUID Table) :
  sr_state sr = Some state →
  match list_parts_to_attach sr disks tables with
  | Ok l => NoDup l ∧ (∀ x, x ∈ l ↔ to_attach disks tables (state_files state) x)
  | Raise e => ∃ f, f ∈ state_files state ∧ parse_part_file_path disks (relative_path f) = Raise e
  end.
Proof.
  intros Hst. unfold list_parts_to_attach. rewrite Hst.
  set (step := λ acc f, _). destruct (fold_res step [] (state_files state)) as [found|e] eqn:Ef; simpl.
  - split.
    { rewrite py_sorted_Permutation. apply NoDup_remove_dups. }
    assert (∀ x, x ∈ found ↔ to_attach disks tables (state_files state) x) as Hfound;
      [|intros x; by rewrite elem_of_py_sorted, elem_of_remove_dups].
    revert Ef. apply (fold_res_ind (λ pre (acc : list (string * list byte)), ∀ x, x ∈ acc ↔ to_attach disks tables pre x)).
    + intros x. split; [by intros ?%not_elem_of_nil|]. by intros (f & p & t & ?%not_elem_of_nil & _).
    + intros pre f post s1 s2 _ IH Hs. unfold step in Hs. apply rbind_inv_ok in Hs as (p & Hp & [= <-]).
      intros x. assert (to_attach disks tables (pre ++ [f]) x ↔
        to_attach disks tables pre x ∨ ∃ t, tables !! table_uuid p = Some t ∧ x = (escaped_sql_identifier t, part_name p)) as ->.
      { split.
        - intros (g & q & t & Hg & Hq & Ht & ->). apply elem_of_app in Hg as [Hg|Hg%list_elem_of_singleton].
          + left. by exists g, q, t.
          + subst g. right. exists t. rewrite Hp in Hq. by injection Hq as <-.
        - intros [(g & q & t & Hg & H)|(t & Ht & ->)].
          + exists g, q, t. split; [apply elem_of_app; by left|done].
          + exists f, p, t. split; [apply elem_of_app; right; by left|done]. }
      destruct (tables !! table_uuid p) as [t|] eqn:Et.
      * rewrite elem_of_app, list_elem_of_singleton, IH. split; intros [H|H]; [by left|right; by exists t|by left|].
        destruct H as (t' & [= <-] & ->). by right.
      * rewrite IH. split; [by left|]. intros [H|(t & H & _)]; done.
  - apply fold_res_raise in Ef as (f & acc & Hf & Hs). exists f. split; [done|]. unfold step in Hs.
    destruct (parse_part_file_path disks (relative_path f)); simpl in Hs; congruence.
Qed.

(** ** A frozen part of a table on the default disk *)
Definition default_disk : Disk := mkDisk local "default" [] None.
Definition remote_disk : Disk := mkDisk object_storage "remote" ["disks"; "s3"] (Some "s3").
Definition example_part : ParsedPath :=
  mkParsedPath remote_disk (Some [x61; x2f; x62]) "00000000-0000-0000-0000-100000000001" true [x70; x2d; x31] ["data.bin"].

Lemma part_path_roundtrip_witness :
  parse_part_file_path (sort_disks [default_disk; remote_disk]) (to_path example_part) = Ok example_part.
Proof.
  apply part_path_roundtrip. split; [reflexivity|]. split; [reflexivity|]. split; [reflexivity|]. discriminate.
Defined.

Example path_example :
  to_path example_part = "disks/s3/shadow/a%2Fb/store/000/00000000-0000-0000-0000-100000000001/detached/p%2D1/data.bin".
Proof. vm_compute. reflexivity. Qed.

Definition example_table : Table := mkTable [x64; x62] [x74] "ReplicatedMergeTree" "00000000-0000-0000-0000-100000000001" [] [].

Lemma parts_to_attach_exact_witness :
  let state := mkSnapshotState [] [mkSnapshotFile (to_path example_part) 1 1 "" None] in
  let sr := mkSnapshotResult "h" "az" new_progress 0 None (Some state) 1 1 None in
  let tables : gmap UUID Table := {["00000000-0000-0000-0000-100000000001" := example_table]} in
  match list_parts_to_attach sr (sort_disks [default_disk; remote_disk]) tables with
  | Ok l => NoDup l ∧ (∀ x, x ∈ l ↔ to_attach (sort_disks [default_disk; remote_disk]) tables (state_files state) x)
  | Raise e => ∃ f, f ∈ state_files state ∧ parse_part_file_path (sort_disks [default_disk; remote_disk]) (relative_path f) = Raise e
  end.
Proof. intros state sr tables. apply (parts_to_attach_exact sr state). reflexivity. Defined.

(** A role is created after the user it is granted to. *)
Example access_entities_example :
  let u := "00000000-0000-0000-0000-100000000001" in
  let user := mkAccessEntity "U" u [x75] [] in
  let role := mkAccessEntity "R" "00000000-0000-0000-0000-100000000002" [x72]
                (String.list_byte_of_string ("GRANT ID('" +:+ u +:+ "') TO ID('00')")) in
  findall_ids 0 (attach_query role) = [u] ∧ access_entities_sorted_by_dependencies [role; user] = Ok [user; role].
Proof. vm_compute. done. Qed.

(** Tables are created after their sources. *)
Example tables_example :
  let t n deps := mkTable [x64] n "" "" [] ((λ d, ([x64], d)) <$> deps) in
  tables_sorted_by_dependencies [t [x76] []; t [x64] [[x76]]; t [x73] [[x64]; [x76]]] =
    Ok [t [x73] [[x64]; [x76]]; t [x64] [[x76]]; t [x76] []] ∧
  tables_sorted_by_dependencies [t [x61] [[x62]]; t [x62] [[x61]]] = Raise CycleError.
Proof. vm_compute. done. Qed.
End ChParts.
