(* ===== verification/PyText.v ===== *)
(** * Texts of the standard library: UTF-8, [int], [uuid.UUID], [re]

    What the code uses of Python on text.  Bytes are lists of bytes, a [str]
    is represented by its UTF-8 encoding. *)

From stdpp Require Import base strings list.
From Stdlib Require Import ZArith NArith Ascii Lia Strings.Byte.
From Stdlib Require Strings.String.
From S2P Require Import Prelude Base64.

(** ** UTF-8, as Python's codec decodes it *)
Module Utf8.
Definition between (lo hi n : N) : bool := ((lo <=? n) && (n <=? hi))%N.
Definition continuation (n : N) : bool := between 128 191 n.
Fixpoint valid_utf8_bytes (l : list N) : bool :=
  match l with
  | [] => true
  | a :: r =>
      if (a <? 128)%N then valid_utf8_bytes r else
      match r with
      | [] => false
      | b :: r1 =>
          if between 194 223 a then continuation b && valid_utf8_bytes r1 else
          match r1 with
          | [] => false
          | c :: r2 =>
              if between 224 239 a then
                (if (a =? 224)%N then between 160 191 b else if (a =? 237)%N then between 128 159 b else continuation b) &&
                continuation c && valid_utf8_bytes r2
              else
              match r2 with
              | [] => false
              | d :: r3 =>
                  between 240 244 a &&
                  (if (a =? 240)%N then between 144 191 b else if (a =? 244)%N then between 128 143 b else continuation b) &&
                  continuation c && continuation d && valid_utf8_bytes r3
              end
          end
      end
  end.
Definition valid_utf8 (s : string) : bool := valid_utf8_bytes (N_of_ascii <$> String.list_ascii_of_string s).

(** [value.decode("UTF-8")] and [current_node.encode("UTF-8")] *)
Definition decode (value : string) : res string := if valid_utf8 value then Ok value else Raise UnicodeDecodeError.
Definition encode (s : string) : string := s.

(** The same for bytes. *)
Definition decode_bytes (value : list byte) : res string := decode (String.string_of_list_byte value).
Definition encode_bytes (s : string) : list byte := String.list_byte_of_string s.
End Utf8.

(** ** [int(text, base)] *)
Module PyInt.
Local Open Scope N_scope.

Definition is_space (b : byte) : bool := let n := Byte.to_N b in (n =? 32) || (9 <=? n) && (n <=? 13).

Definition digit_value (base : N) (b : byte) : option N :=
  let n := Byte.to_N b in
  let v := if (48 <=? n) && (n <=? 57) then n - 48
           else if (65 <=? n) && (n <=? 90) then n - 55
           else if (97 <=? n) && (n <=? 122) then n - 87 else 36 in
  if v <? base then Some v else None.

Fixpoint lstrip (l : list byte) : list byte :=
  match l with b :: r => if is_space b then lstrip r else l | [] => [] end.

(** Digits with single underscores between them: the number, how many digits
    there were and what follows. *)
Fixpoint digits (base : N) (underscore : bool) (acc : N) (count : nat) (l : list byte) : option (N * nat * list byte) :=
  let stop := if underscore then None else Some (acc, count, l) in
  match l with
  | [] => stop
  | b :: r =>
      match digit_value base b with
      | Some v => digits base false (acc * base + v) (S count) r
      | None => if Byte.eqb b x5f then (if underscore then None else digits base true acc count r) else stop
      end
  end.

Definition max_str_digits : nat := Z.to_nat 4300.

Definition sign (l : list byte) : bool * list byte :=
  match l with x2b :: r => (false, r) | x2d :: r => (true, r) | _ => (false, l) end.
(** [0x], with at most one underscore after it *)
Definition skip_prefix (base : N) (l : list byte) : list byte :=
  if base =? 16 then
    match l with
    | x30 :: (x78 | x58) :: r => match r with x5f :: r' => r' | _ => r end
    | _ => l
    end
  else l.

(** [int(text, base)] for the bases 10 and 16, of ASCII texts: another
    character is refused.  There is a limit on the number of digits for bases
    that are not powers of two. *)
Definition int_of (base : N) (text : list byte) : res Z :=
  let '(negative, l) := sign (lstrip text) in
  match digits base true 0 0 (skip_prefix base l) with
  | None => Raise ValueError
  | Some (v, count, rest) =>
      if (base =? 10) && (max_str_digits <? count)%nat then Raise ValueError
      else if decide (lstrip rest = []) then Ok (if negative then - Z.of_N v else Z.of_N v)%Z
      else Raise ValueError
  end.

(** [\d+] *)
Definition is_digit (b : byte) : bool := bool_decide (is_Some (digit_value 10 b)).
Definition value (base : N) (l : list byte) : N := foldl (λ acc b, acc * base + default 0 (digit_value base b)) 0 l.

Definition is_digit_of (base : N) (b : byte) : bool := bool_decide (is_Some (digit_value base b)).

Lemma digits_all base l acc count u :
  forallb (is_digit_of base) l = true → (l = [] → u = false) →
  digits base u acc count l = Some (foldl (λ acc b, acc * base + default 0 (digit_value base b)) acc l, (count + length l)%nat, []).
Proof.
  revert acc count u. induction l as [|b l IH]; intros acc count u Hl Hu.
  - rewrite Hu by done. simpl. by rewrite Nat.add_0_r.
  - simpl in Hl. apply andb_prop in Hl as [[v Hv]%bool_decide_eq_true Hl]. simpl. rewrite Hv. simpl.
    rewrite IH by done. do 3 f_equal. lia.
Qed.

(** A text of digits only: no space, sign, prefix or underscore. *)
Lemma int_of_digits base l :
  l ≠ [] → forallb (is_digit_of base) l = true → skip_prefix base l = l → base = 10 ∨ base = 16 →
  int_of base l = if (base =? 10) && (max_str_digits <? length l)%nat then Raise ValueError else Ok (Z.of_N (value base l)).
Proof.
  intros Hne Hl Hp Hb. destruct l as [|b l]; [done|]. assert (lstrip (b :: l) = b :: l ∧ sign (b :: l) = (false, b :: l)) as [H1 H2].
  { simpl in Hl. apply andb_prop in Hl as [Hd _]. destruct Hb as [-> | ->]; destruct b; first [discriminate Hd|by split]. }
  unfold int_of. rewrite H1, H2, Hp, digits_all by done. simpl length. by destruct (_ && _).
Qed.
End PyInt.

(** ** [uuid.UUID]: [UUID(hex=text)] and [str] *)
Module PyUuid.
Local Open Scope N_scope.

(** [text.replace(needle, replacement)] for a non-empty needle and an empty replacement. *)
Fixpoint remove_all (needle : list byte) (skip : nat) (l : list byte) : list byte :=
  match l with
  | [] => []
  | b :: r =>
      match skip with
      | S k => remove_all needle k r
      | O => if decide (take (length needle) l = needle) then remove_all needle (length needle - 1) r
             else b :: remove_all needle 0 r
      end
  end.

Definition is_brace (b : byte) : bool := Byte.eqb b x7b || Byte.eqb b x7d.
Fixpoint lstrip_braces (l : list byte) : list byte :=
  match l with b :: r => if is_brace b then lstrip_braces r else l | [] => [] end.
Definition strip_braces (l : list byte) : list byte := reverse (lstrip_braces (reverse (lstrip_braces l))).

Definition hex_lower (n : N) : byte := default x30 (String.list_byte_of_string "0123456789abcdef" !! N.to_nat n).
Fixpoint hex_digits (n : nat) (v : N) : list byte :=
  match n with O => [] | S n' => hex_digits n' (v / 16) ++ [hex_lower (v mod 16)] end.

(** [str(uuid)] *)
Definition dashed (h : list byte) : list byte :=
  take 8 h ++ [x2d] ++ take 4 (drop 8 h) ++ [x2d] ++ take 4 (drop 12 h) ++ [x2d] ++ take 4 (drop 16 h) ++ [x2d] ++ drop 20 h.
Definition text_of (v : N) : string := String.string_of_list_byte (dashed (hex_digits 32 v)).

(** [str(UUID(hex=text))] *)
Definition uuid_of (text : string) : res string :=
  let l := String.list_byte_of_string text in
  let l := remove_all (String.list_byte_of_string "uuid:") 0 (remove_all (String.list_byte_of_string "urn:") 0 l) in
  let l := remove_all [x2d] 0 (strip_braces l) in
  if negb (length l =? 32)%nat then Raise ValueError
  else
    v ← PyInt.int_of 16 l;
    if (v <? 0)%Z || (Z.of_N (2 ^ 128) <=? v)%Z then Raise ValueError else Ok (text_of (Z.to_N v)).

Example uuid_of_examples :
  uuid_of "{12345678123456781234567812345678}" = Ok "12345678-1234-5678-1234-567812345678" ∧
  uuid_of "urn:uuid:ABCDEF78-1234-5678-1234-567812345678" = Ok "abcdef78-1234-5678-1234-567812345678" ∧
  uuid_of "12345678-1234-5678-1234-56781234567" = Raise ValueError ∧
  uuid_of "0x_0000000000000000000000000_123" = Ok "00000000-0000-0000-0000-000000000123" ∧
  uuid_of "0x_000000000000000000000000__123" = Raise ValueError ∧
  uuid_of "+2345678-1234-5678-1234-56781234567g" = Raise ValueError.
Proof. vm_compute. done. Qed.
End PyUuid.

Example int_examples :
  PyInt.int_of 10 (String.list_byte_of_string " -1_0 ") = Ok (-10)%Z ∧
  PyInt.int_of 10 (String.list_byte_of_string "1__0") = Raise ValueError ∧
  PyInt.int_of 10 (String.list_byte_of_string "") = Raise ValueError ∧
  PyInt.int_of 10 (String.list_byte_of_string "12a") = Raise ValueError.
Proof. vm_compute. done. Qed.

(** *** The canonical text of a UUID is read as itself *)
Module UuidFacts.
Import PyUuid.
Local Open Scope N_scope.

Definition is_hex_lower (b : byte) : bool := let n := Byte.to_N b in (48 <=? n) && (n <=? 57) || (97 <=? n) && (n <=? 102).

Lemma hex_lower_value b : is_hex_lower b = true → ∃ v, PyInt.digit_value 16 b = Some v ∧ v < 16 ∧ hex_lower v = b.
Proof.
  intros H. destruct b; first [discriminate H|(eexists; split; [vm_compute; reflexivity|]; split; [lia|reflexivity])].
Qed.

Lemma remove_all_absent c needle l : c ∉ l → remove_all (c :: needle) 0 l = l.
Proof.
  induction l as [|b l IH]; intros Hc; [done|]. cbn [remove_all]. rewrite decide_False.
  - rewrite IH; [done|]. intros H. apply Hc. by right.
  - intros E. simpl in E. injection E as -> _. apply Hc. by left.
Qed.

Lemma remove_all_one c l : remove_all [c] 0 l = filter (λ b, b ≠ c) l.
Proof.
  induction l as [|b l IH]; [done|]. cbn [remove_all]. simpl length. case_decide as E.
  - simpl in E. rewrite take_0 in E. injection E as ->. simpl. rewrite IH, filter_cons_False; [done|by intros H; apply H].
  - rewrite IH, filter_cons_True; [done|]. intros ->. apply E. simpl. by rewrite take_0.
Qed.

Lemma lstrip_braces_none l : forallb (λ b, negb (is_brace b)) l = true → lstrip_braces l = l.
Proof. destruct l as [|b l]; [done|]. simpl. intros [H%negb_true_iff _]%andb_prop. by rewrite H. Qed.

Lemma strip_braces_none l : forallb (λ b, negb (is_brace b)) l = true → strip_braces l = l.
Proof.
  intros H. unfold strip_braces. rewrite (lstrip_braces_none l) by done. rewrite (lstrip_braces_none (reverse l)); [by rewrite reverse_involutive|].
  apply forallb_forall. intros x Hx. rewrite forallb_forall in H. apply (H x), in_rev. by rewrite rev_alt.
Qed.

Lemma hex_digits_length n v : length (hex_digits n v) = n.
Proof. revert v. induction n as [|n IH]; intros v; [done|]. simpl. rewrite length_app, IH. simpl. lia. Qed.

Lemma value_snoc base l b : PyInt.value base (l ++ [b]) = PyInt.value base l * base + default 0 (PyInt.digit_value base b).
Proof. unfold PyInt.value. by rewrite foldl_app. Qed.

Lemma hex_digits_value l :
  forallb is_hex_lower l = true → hex_digits (length l) (PyInt.value 16 l) = l ∧ PyInt.value 16 l < 16 ^ N.of_nat (length l).
Proof.
  induction l as [|b l IH] using rev_ind; [done|]. rewrite forallb_app. intros [Hl Hb]%andb_prop.
  destruct (IH Hl) as [IH1 IH2]. simpl in Hb. rewrite andb_true_r in Hb.
  destruct (hex_lower_value b Hb) as (v & Hv & Hlt & Hh). rewrite value_snoc, Hv, length_app. simpl default.
  change (length [b]) with 1%nat. rewrite Nat.add_1_r. split.
  - cbn [hex_digits]. rewrite (N.add_comm (_ * 16)), N.div_add, N.div_small, N.Div0.mod_add, N.mod_small by done.
    by rewrite N.add_0_l, IH1, Hh.
  - rewrite Nat2N.inj_succ, N.pow_succ_r'. lia.
Qed.

Lemma dashed_filter h :
  length h = 32%nat → forallb is_hex_lower h = true → filter (λ b, b ≠ x2d) (dashed h) = h.
Proof.
  intros Hlen Hh. assert (∀ l, forallb is_hex_lower l = true → filter (λ b, b ≠ x2d) l = l) as Hf.
  { intros l Hl. apply filter_all. intros x Hx. rewrite forallb_forall in Hl. apply list_elem_of_In, Hl in Hx. by intros ->. }
  do 32 (destruct h as [|? h]; [done|]). destruct h; [|done]. unfold dashed. cbn [take drop app].
  cbn [forallb] in Hh. repeat match type of Hh with _ && _ = true => let H := fresh "Hd" in apply andb_prop in Hh as [H Hh] end.
  repeat (first [rewrite filter_cons_False by (intros H; by apply H)|rewrite filter_cons_True by (by intros ->)]). done.
Qed.

Lemma uuid_of_dashed h :
  length h = 32%nat → forallb is_hex_lower h = true →
  uuid_of (String.string_of_list_byte (dashed h)) = Ok (String.string_of_list_byte (dashed h)).
Proof.
  intros Hlen Hh. unfold uuid_of. rewrite String.list_byte_of_string_of_list_byte.
  assert (∀ b, b ∈ dashed h → b = x2d ∨ is_hex_lower b = true) as Hin.
  { intros b Hb. destruct (decide (b = x2d)); [by left|right]. rewrite <- (dashed_filter h), forallb_forall in Hh by done.
    apply Hh, list_elem_of_In, list_elem_of_filter. done. }
  change (String.list_byte_of_string "urn:") with [x75; x72; x6e; x3a].
  change (String.list_byte_of_string "uuid:") with [x75; x75; x69; x64; x3a].
  rewrite !(remove_all_absent x75) by (rewrite ?(remove_all_absent x75); by intros [?|?]%Hin).
  rewrite strip_braces_none.
  2: { apply forallb_forall. intros b Hb%list_elem_of_In. destruct (Hin b Hb) as [->|H]; [done|]. by destruct b. }
  rewrite remove_all_one, dashed_filter by done. rewrite Hlen. simpl.
  rewrite PyInt.int_of_digits; [|by destruct h| | |auto].
  - simpl. destruct (hex_digits_value h Hh) as [Hhex Hlt]. rewrite Hlen in Hhex, Hlt.
    destruct (Z.of_N (PyInt.value 16 h) <? 0)%Z eqn:E1; [lia|].
    destruct (_ <=? Z.of_N (PyInt.value 16 h))%Z eqn:E2.
    + apply Z.leb_le in E2. change (16 ^ N.of_nat 32) with (2 ^ 128) in Hlt. lia.
    + simpl. unfold text_of. by rewrite N2Z.id, Hhex.
  - apply forallb_forall. intros b Hb. rewrite forallb_forall in Hh. apply Hh in Hb.
    destruct (hex_lower_value b Hb) as (v & Hv & _). unfold PyInt.is_digit_of. apply bool_decide_eq_true. by rewrite Hv.
  - destruct h as [|a [|b h]]; [done..|]. simpl in Hh. apply andb_prop in Hh as [_ [Hb _]%andb_prop].
    unfold PyInt.skip_prefix. destruct (16 =? 16); [|done]. destruct a; try done. by destruct b.
Qed.
End UuidFacts.
