(* ===== verification/ChManifest.v ===== *)
(** * The manifest of the ClickHouse plugin
      ([coordinator/plugins/clickhouse/manifest.py])

    What a backup records of a ClickHouse cluster, and its conversion to and
    from the plugin data of a backup manifest, which is JSON. *)

From stdpp Require Import base gmap strings list.
From Stdlib Require Import ZArith NArith Lia Ascii Strings.Byte.
From S2P Require Import Prelude Base64 PyText ChParts.

Module ChManifest.
Import ChParts.

Record ReplicatedDatabase : Type := mkReplicatedDatabase {
  db_name : list byte;
  (** [None] in backups of older versions *)
  db_uuid : option UUID;
  db_shard : list byte;
  db_replica : list byte;
}.

Inductive ClickHouseBackupVersion : Type := V1 | V2.
#[global] Instance ClickHouseBackupVersion_eq_dec : EqDecision ClickHouseBackupVersion.
Proof. solve_decision. Defined.
Definition version_value (v : ClickHouseBackupVersion) : string := match v with V1 => "v1" | V2 => "v2" end.

(** The files are their paths. *)
Record ClickHouseObjectStorageFiles : Type := mkClickHouseObjectStorageFiles {
  os_disk_name : string;
  os_files : list string;
}.

Record ClickHouseManifest : Type := mkClickHouseManifest {
  version : ClickHouseBackupVersion;
  access_entities : list AccessEntity;
  replicated_databases : list ReplicatedDatabase;
  tables : list Table;
  object_storage_files : list ClickHouseObjectStorageFiles;
}.

(** [DatabaseReplica] of [replication.py] *)
Record DatabaseReplica : Type := mkDatabaseReplica {
  shard_name : string;
  replica_name : string;
}.
Definition full_name (r : DatabaseReplica) : string := shard_name r +:+ "|" +:+ replica_name r.

(** ** Python data *)
Inductive value : Type :=
| PNone
| PStr (s : string)
| PBytes (b : list byte)
| PUuid (u : UUID)
| PEnum (v : string)
| PList (l : list value)
| PTuple (l : list value)
| PDict (items : list (string * value)).

(** [encode_manifest_data] *)
Fixpoint encode_manifest_data (data : value) : value :=
  match data with
  | PDict items => PDict (map (λ kv : string * value, let (k, v) := kv in (k, encode_manifest_data v)) items)
  | PList l | PTuple l => PList (map encode_manifest_data l)
  | PBytes b => PStr (Base64.b64encode b)
  | PEnum v => PStr v
  | PUuid u => PStr u
  | _ => data
  end.

(** ** [dict()] of the models *)
Definition access_entity_dict (e : AccessEntity) : value :=
  PDict [("type", PStr (entity_type e)); ("uuid", PUuid (entity_uuid e)); ("name", PBytes (entity_name e));
         ("attach_query", PBytes (attach_query e))].
Definition database_dict (d : ReplicatedDatabase) : value :=
  PDict [("name", PBytes (db_name d)); ("uuid", match db_uuid d with Some u => PUuid u | None => PNone end);
         ("shard", PBytes (db_shard d)); ("replica", PBytes (db_replica d))].
Definition table_dict (t : Table) : value :=
  PDict [("database", PBytes (database t)); ("name", PBytes (tname t)); ("engine", PStr (engine t)); ("uuid", PUuid (uuid t));
         ("create_query", PBytes (create_query t));
         ("dependencies", PList ((λ d : list byte * list byte, PTuple [PBytes d.1; PBytes d.2]) <$> dependencies t))].
Definition files_dict (f : ClickHouseObjectStorageFiles) : value :=
  PDict [("disk_name", PStr (os_disk_name f)); ("files", PList ((λ path, PDict [("path", PStr path)]) <$> os_files f))].
Definition manifest_dict (m : ClickHouseManifest) : value :=
  PDict [("version", PEnum (version_value (version m)));
         ("access_entities", PList (access_entity_dict <$> access_entities m));
         ("replicated_databases", PList (database_dict <$> replicated_databases m));
         ("tables", PList (table_dict <$> tables m));
         ("object_storage_files", PList (files_dict <$> object_storage_files m))].

Definition to_plugin_data (m : ClickHouseManifest) : value := encode_manifest_data (manifest_dict m).

(** ** Reading plugin data

    [data[key]], [key in data], and iteration. *)
Definition item (data : value) (key : string) : res value :=
  match data with
  | PDict items => match dict_get items key with Some v => Ok v | None => Raise KeyError end
  | _ => Raise TypeError
  end.
Definition has_item (data : value) (key : string) : bool :=
  match data with PDict items => bool_decide (is_Some (dict_get items key)) | _ => false end.
Definition items_of (data : value) : res (list value) :=
  match data with
  | PList l | PTuple l => Ok l
  | PDict items => Ok ((λ kv, PStr kv.1) <$> items)
  | PStr s => Ok ((λ c, PStr (String c "")) <$> String.list_ascii_of_string s)
  | _ => Raise TypeError
  end.
Definition map_res {A B} (f : A → res B) (l : list A) : res (list B) :=
  fold_res (λ acc x, y ← f x; Ok (acc ++ [y])) [] l.
Lemma map_res_ok {A B} (f : A → res B) l k : map_res f l = Ok k ↔ Forall2 (λ x y, f x = Ok y) l k.
Proof.
  unfold map_res. enough (∀ acc, fold_res (λ acc x, y ← f x; Ok (acc ++ [y])) acc l = Ok k ↔ ∃ k', k = acc ++ k' ∧ Forall2 (λ x y, f x = Ok y) l k') as H.
  { rewrite H. split; [by intros (k' & -> & ?)|]. intros HF. by exists k. }
  induction l as [|x l IH]; intros acc; simpl.
  - split.
    + intros [= <-]. exists []. by rewrite app_nil_r.
    + intros (k' & -> & HF%Forall2_nil_inv_l). by rewrite HF, app_nil_r.
  - destruct (f x) as [y|e] eqn:E; simpl.
    + rewrite IH. split.
      * intros (k' & -> & HF). exists (y :: k'). rewrite <- app_assoc. split; [done|]. by constructor.
      * intros (k' & -> & (y' & k'' & Hy & HF & ->)%Forall2_cons_inv_l). assert (y' = y) as -> by congruence.
        exists k''. by rewrite <- app_assoc.
    + split; [done|]. intros (k' & _ & (y' & k'' & Hy & _)%Forall2_cons_inv_l). congruence.
Qed.

Lemma map_res_raise {A B} (f : A → res B) l e : map_res f l = Raise e → ∃ x, x ∈ l ∧ f x = Raise e.
Proof.
  unfold map_res. intros (x & acc & Hx & H)%fold_res_raise. exists x. split; [done|]. by destruct (f x); simpl in H; [|injection H as ->].
Qed.

Definition each {A} (f : value → res A) (data : value) : res (list A) := l ← items_of data; map_res f l.

(** Validation of a [str] field, [b64decode] and [UUID]. *)
Definition as_str (data : value) : res string := match data with PStr s => Ok s | _ => Raise ValueError end.
Definition as_bytes (data : value) : res (list byte) := match data with PStr s => Base64.b64decode s | _ => Raise TypeError end.
Definition as_uuid (data : value) : res UUID :=
  match data with PStr s => PyUuid.uuid_of s | PNone => Raise TypeError | _ => Raise AttributeError end.

Definition bytes_of (s : string) : list byte := String.list_byte_of_string s.

Definition access_entity_from (data : value) : res AccessEntity :=
  t ← item data "type";
  u ← item data "uuid"; u ← as_uuid u;
  n ← item data "name"; n ← as_bytes n;
  q ← item data "attach_query"; q ← as_bytes q;
  t ← as_str t;
  Ok (mkAccessEntity t u n q).

Definition database_from (data : value) : res ReplicatedDatabase :=
  n ← item data "name"; n ← as_bytes n;
  u ← (if has_item data "uuid" then u ← item data "uuid"; u ← as_uuid u; Ok (Some u) else Ok None);
  s ← (if has_item data "shard" then s ← item data "shard"; as_bytes s else Ok (bytes_of "{shard}"));
  r ← (if has_item data "replica" then r ← item data "replica"; as_bytes r else Ok (bytes_of "{replica}"));
  Ok (mkReplicatedDatabase n u s r).

Definition dependency_from (data : value) : res (list byte * list byte) :=
  l ← items_of data;
  match l with
  | [d; t] => d ← as_bytes d; t ← as_bytes t; Ok (d, t)
  | _ => Raise ValueError
  end.

Definition table_from (data : value) : res Table :=
  ds ← item data "dependencies"; ds ← each dependency_from ds;
  d ← item data "database"; d ← as_bytes d;
  n ← item data "name"; n ← as_bytes n;
  e ← item data "engine";
  u ← item data "uuid"; u ← as_uuid u;
  q ← item data "create_query"; q ← as_bytes q;
  e ← as_str e;
  Ok (mkTable d n e u q ds).

Definition files_from (data : value) : res ClickHouseObjectStorageFiles :=
  d ← item data "disk_name";
  fs ← item data "files"; fs ← each (λ f, p ← item f "path"; as_str p) fs;
  d ← as_str d;
  Ok (mkClickHouseObjectStorageFiles d fs).

Definition version_from (data : value) : res ClickHouseBackupVersion :=
  match data with PStr "v1" => Ok V1 | PStr "v2" => Ok V2 | _ => Raise ValueError end.

(** [data.get(key, default)] *)
Definition get_item (data : value) (key : string) (default_ : value) : res value :=
  match data with PDict items => Ok (default default_ (dict_get items key)) | _ => Raise AttributeError end.

(** [ClickHouseManifest.from_plugin_data] *)
Definition from_plugin_data (data : value) : res ClickHouseManifest :=
  v ← get_item data "version" (PStr (version_value V1)); v ← version_from v;
  es ← item data "access_entities"; es ← each access_entity_from es;
  ds ← item data "replicated_databases"; ds ← each database_from ds;
  ts ← item data "tables"; ts ← each table_from ts;
  fs ← get_item data "object_storage_files" (PList []); fs ← each files_from fs;
  Ok (mkClickHouseManifest v es ds ts fs).

(** ** Round trip *)
Lemma lower_hex_byte c : is_lower_hex c = true → UuidFacts.is_hex_lower (byte_of_ascii c) = true.
Proof. destruct c as [[] [] [] [] [] [] [] []]; intros H; first [discriminate H|reflexivity]. Qed.

Lemma is_uuid_dashed u :
  is_uuid u = true → ∃ h, length h = 32 ∧ forallb UuidFacts.is_hex_lower h = true ∧ u = String.string_of_list_byte (PyUuid.dashed h).
Proof.
  unfold is_uuid. intros [Hlen H]%andb_prop. rewrite Nat.eqb_eq in Hlen.
  rewrite <- (String.string_of_list_ascii_of_string u). revert Hlen H. generalize (String.list_ascii_of_string u). intros cs Hlen H.
  change (length uuid_shape) with 36 in Hlen. do 36 (destruct cs as [|? cs]; [discriminate Hlen|]). destruct cs; [clear Hlen|discriminate Hlen].
  change uuid_shape with (replicate 8 true ++ [false] ++ replicate 4 true ++ [false] ++ replicate 4 true ++ [false] ++
    replicate 4 true ++ [false] ++ replicate 12 true) in H.
  cbn [replicate app zip zip_with forallb fst snd] in H.
  repeat match type of H with _ && _ = true => let H1 := fresh "Hc" in apply andb_prop in H as [H1 H] end.
  repeat match goal with H : Ascii.eqb ?c "-" = true |- _ => apply Ascii.eqb_eq in H; subst c end.
  match goal with |- context [String.string_of_list_ascii ?cs] => exists (byte_of_ascii <$> filter (λ c, c ≠ "-"%char) cs) end.
  repeat (first [rewrite filter_cons_True by (by intros ->)|rewrite filter_cons_False by (by intros Hx; apply Hx)]).
  rewrite filter_nil. cbn [fmap list_fmap]. split; [done|]. split.
  - cbn [forallb]. repeat (apply andb_true_intro; split); try done; by apply lower_hex_byte.
  - unfold PyUuid.dashed, String.string_of_list_byte. cbn [take drop app List.map]. by rewrite !ascii_of_byte_of_ascii.
Qed.

(** What [uuid.UUID] returns is canonical. *)
Lemma dashed_is_uuid h :
  length h = 32 → forallb UuidFacts.is_hex_lower h = true → is_uuid (String.string_of_list_byte (PyUuid.dashed h)) = true.
Proof.
  intros Hlen H. assert (∀ b, UuidFacts.is_hex_lower b = true → is_lower_hex (ascii_of_byte b) = true) as Hb.
  { intros []; intros Hx; first [discriminate Hx|reflexivity]. }
  do 32 (destruct h as [|? h]; [discriminate Hlen|]). destruct h; [clear Hlen|discriminate Hlen].
  cbn [forallb] in H. repeat match type of H with _ && _ = true => let H1 := fresh "Hc" in apply andb_prop in H as [H1 H]; apply Hb in H1 end.
  unfold is_uuid, PyUuid.dashed, String.string_of_list_byte. rewrite String.list_ascii_of_string_of_list_ascii.
  change uuid_shape with (replicate 8 true ++ [false] ++ replicate 4 true ++ [false] ++ replicate 4 true ++ [false] ++
    replicate 4 true ++ [false] ++ replicate 12 true).
  cbn [take drop app List.map length replicate Nat.eqb andb zip zip_with forallb fst snd].
  repeat match goal with H : is_lower_hex ?c = true |- _ => rewrite H; clear H end. reflexivity.
Qed.

Lemma uuid_of_is_uuid text u : PyUuid.uuid_of text = Ok u → is_uuid u = true.
Proof.
  unfold PyUuid.uuid_of. destruct (negb _); [done|]. intros (v & _ & H)%rbind_inv_ok. destruct (_ || _); [done|]. injection H as <-.
  apply dashed_is_uuid; [apply UuidFacts.hex_digits_length|]. generalize 32 as n. generalize (Z.to_N v) as k.
  intros k n. revert k. induction n as [|n IH]; intros k; [done|]. cbn [PyUuid.hex_digits]. rewrite forallb_app, IH. cbn [forallb andb].
  rewrite andb_true_r. assert (k mod 16 < 16)%N as Hk by (apply N.mod_lt; lia). revert Hk. generalize (k mod 16)%N as d. clear.
  intros d Hd.
  assert (d = 0 ∨ d = 1 ∨ d = 2 ∨ d = 3 ∨ d = 4 ∨ d = 5 ∨ d = 6 ∨ d = 7 ∨ d = 8 ∨ d = 9 ∨ d = 10 ∨ d = 11 ∨ d = 12 ∨ d = 13 ∨ d = 14 ∨ d = 15)%N
    as Hcases by lia.
  repeat destruct Hcases as [->|Hcases]; try reflexivity. by subst.
Qed.

Lemma uuid_of_canonical u : is_uuid u = true → PyUuid.uuid_of u = Ok u.
Proof. intros (h & Hlen & Hh & ->)%is_uuid_dashed. by apply UuidFacts.uuid_of_dashed. Qed.

Lemma each_encode {A} (f : value → res A) (g : A → value) (l : list A) :
  (∀ x, x ∈ l → f (encode_manifest_data (g x)) = Ok x) → each f (PList (map encode_manifest_data (g <$> l))) = Ok l.
Proof.
  intros Hf. unfold each, map_res. simpl.
  assert (∀ acc, fold_res (λ acc x, y ← f x; Ok (acc ++ [y])) acc (map encode_manifest_data (g <$> l)) = Ok (acc ++ l)) as ->; [|done].
  induction l as [|x l IH]; intros acc; simpl; [by rewrite app_nil_r|]. rewrite Hf by (by left). simpl.
  rewrite IH by (intros y Hy; apply Hf; by right). by rewrite <- app_assoc.
Qed.

#[local] Arguments version_from : simpl never.

(** The identifiers are canonical texts. *)
Definition uuids_ok (m : ClickHouseManifest) : Prop :=
  Forall (λ e, is_uuid (entity_uuid e) = true) (access_entities m) ∧
  Forall (λ d, ∀ u, db_uuid d = Some u → is_uuid u = true) (replicated_databases m) ∧
  Forall (λ t, is_uuid (uuid t) = true) (tables m).

Lemma access_entity_roundtrip e :
  is_uuid (entity_uuid e) = true → access_entity_from (encode_manifest_data (access_entity_dict e)) = Ok e.
Proof.
  destruct e as [t u n q]. unfold access_entity_from. simpl. intros Hu. rewrite uuid_of_canonical by done. simpl.
  rewrite (Base64.b64_decode_encode n). simpl. by rewrite (Base64.b64_decode_encode q).
Qed.

Lemma database_roundtrip d :
  (∀ u, db_uuid d = Some u → is_uuid u = true) →
  database_from (encode_manifest_data (database_dict d)) = if db_uuid d then Ok d else Raise TypeError.
Proof.
  destruct d as [n o s r]. unfold database_from. simpl. intros Hu. rewrite (Base64.b64_decode_encode n). simpl.
  destruct o as [u|]; [|done]. simpl. rewrite uuid_of_canonical by auto. simpl.
  rewrite (Base64.b64_decode_encode s). simpl. by rewrite (Base64.b64_decode_encode r).
Qed.

Lemma table_roundtrip t : is_uuid (uuid t) = true → table_from (encode_manifest_data (table_dict t)) = Ok t.
Proof.
  destruct t as [d n e u q ds]. unfold table_from. simpl. intros Hu. rewrite each_encode.
  - simpl. rewrite (Base64.b64_decode_encode d). simpl. rewrite (Base64.b64_decode_encode n). simpl.
    rewrite uuid_of_canonical by done. simpl. by rewrite (Base64.b64_decode_encode q).
  - intros [a b] _. unfold dependency_from. simpl. rewrite (Base64.b64_decode_encode a). simpl. by rewrite (Base64.b64_decode_encode b).
Qed.

Lemma files_roundtrip f : files_from (encode_manifest_data (files_dict f)) = Ok f.
Proof. destruct f as [d fs]. unfold files_from. simpl. by rewrite each_encode. Qed.

Lemma databases_roundtrip (l : list ReplicatedDatabase) :
  Forall (λ d, ∀ u, db_uuid d = Some u → is_uuid u = true) l →
  each database_from (PList (map encode_manifest_data (database_dict <$> l))) =
    if forallb (λ d, bool_decide (is_Some (db_uuid d))) l then Ok l else Raise TypeError.
Proof.
  intros Hl. unfold each, map_res. simpl.
  assert (∀ acc, fold_res (λ acc x, y ← database_from x; Ok (acc ++ [y])) acc (map encode_manifest_data (database_dict <$> l)) =
    if forallb (λ d, bool_decide (is_Some (db_uuid d))) l then Ok (acc ++ l) else Raise TypeError) as ->; [|done].
  induction Hl as [|d l Hd Hl IH]; intros acc; cbn [fmap list_fmap map fold_res forallb]; [by rewrite app_nil_r|].
  rewrite database_roundtrip by done. destruct (db_uuid d) as [u|] eqn:Eu; [|done]. simpl. rewrite IH. by rewrite <- app_assoc.
Qed.

Lemma plugin_data_read_back (m : ClickHouseManifest) :
  uuids_ok m →
  from_plugin_data (to_plugin_data m) =
    if forallb (λ d, bool_decide (is_Some (db_uuid d))) (replicated_databases m) then Ok m else Raise TypeError.
Proof.
  destruct m as [v es ds ts fs]. intros (He & Hd & Ht). simpl in He, Hd, Ht. rewrite Forall_forall in He. rewrite Forall_forall in Ht.
  unfold from_plugin_data, to_plugin_data.
  assert (version_from (PStr (version_value v)) = Ok v) as Hv by by destruct v.
  simpl. rewrite Hv. simpl.
  rewrite (each_encode access_entity_from) by (intros e Hin; by apply access_entity_roundtrip, He). simpl.
  rewrite databases_roundtrip by done. destruct (forallb _ _); [simpl|done].
  rewrite (each_encode table_from) by (intros t Hin; by apply table_roundtrip, Ht). simpl.
  by rewrite (each_encode files_from) by (intros f Hin; by apply files_roundtrip).
Qed.

(** C37: A manifest that is written into a backup is read back from it as it was,
    but for the databases without UUID of manifests of older versions, which
    are written in a way that cannot be read. *)
Theorem plugin_data_roundtrip (m : ClickHouseManifest) :
  uuids_ok m →
  from_plugin_data (to_plugin_data m) =
    if forallb (λ d, bool_decide (is_Some (db_uuid d))) (replicated_databases m) then Ok m else Raise TypeError.
Proof. apply plugin_data_read_back. Qed.

Definition example_manifest : ClickHouseManifest :=
  let u n := "00000000-0000-0000-0000-00000000000" +:+ n in
  mkClickHouseManifest V2 [mkAccessEntity "U" (u "1") [x75] [x00; xff]]
    [mkReplicatedDatabase [x64] (Some (u "2")) (bytes_of "{shard}") (bytes_of "{replica}")]
    [mkTable [x64] [x74] "ReplicatedMergeTree" (u "3") [x43] [([x64], [x76])]]
    [mkClickHouseObjectStorageFiles "remote" ["abc/def"]].

Lemma plugin_data_roundtrip_witness : from_plugin_data (to_plugin_data example_manifest) = Ok example_manifest.
Proof.
  refine (plugin_data_roundtrip example_manifest _). split; [|split]; repeat constructor. by intros u [= <-].
Defined.

(** The manifest of an older version. *)
Example old_manifest_example :
  from_plugin_data (PDict [("access_entities", PList []); ("tables", PList []);
    ("replicated_databases", PList [PDict [("name", PStr "ZA==")]])]) =
  Ok (mkClickHouseManifest V1 [] [mkReplicatedDatabase [x64] None (bytes_of "{shard}") (bytes_of "{replica}")] [] []).
Proof. vm_compute. done. Qed.
End ChManifest.
