(* ===== verification/Gather.v ===== *)
(** * Concurrent coroutines ([common/limiter.py] and [asyncio.gather])

    [gather_limited] runs coroutines concurrently, of each group at most
    [limit] at a time: a semaphore lets the next one start when one ends.  A
    coroutine is the list of the requests it awaits; between two of them any
    other coroutine can run.  Which one runs next is up to a scheduler, which
    the theorems quantify over. *)

From stdpp Require Import base list relations.
From Stdlib Require Import Lia.
From S2P Require Import Prelude.

Module Gather.
Local Open Scope nat_scope.

Lemma elem_of_concat {A} (x : A) (ls : list (list A)) : x ∈ concat ls ↔ ∃ l, x ∈ l ∧ l ∈ ls.
Proof.
  induction ls as [|l ls IH]; simpl.
  - split; [by intros ?%not_elem_of_nil|by intros (? & _ & ?%not_elem_of_nil)].
  - rewrite elem_of_app, IH. setoid_rewrite elem_of_cons. naive_solver.
Qed.

Section gather.
Context {W Q : Type} (perform : Q → M W unit).
(** Chooses one of [n] coroutines that can run, [0 < n]. *)
Context (pick : W → nat → nat).

Notation job := (list Q).

(** The coroutines that have started, with their group and what they still
    have to do, and those that wait for the semaphore of their group. *)
Record state : Type := mkState {
  tasks : list (nat * job);
  waiting : list (list job);
}.

Definition nonempty (j : job) : bool := match j with [] => false | _ => true end.

(** A coroutine that awaits nothing takes no turn. *)
Definition start (limit : nat) (groups : list (list job)) : state :=
  let groups := filter (λ j, nonempty j = true) <$> groups in
  mkState (concat (imap (λ g jobs, pair g <$> take limit jobs) groups)) (drop limit <$> groups).

(** [async with self.semaphore] ends: the first that waits starts. *)
Definition release (g : nat) (s : state) : state :=
  match waiting s !! g with
  | Some (j :: js) => mkState (tasks s ++ [(g, j)]) (<[g := js]> (waiting s))
  | _ => s
  end.

(** Coroutine [i] awaits its next request. *)
Definition turn (i : nat) (s : state) : option (Q * state) :=
  match tasks s !! i with
  | Some (g, a :: rest) =>
      let s' := mkState (<[i := (g, rest)]> (tasks s)) (waiting s) in
      Some (a, match rest with [] => release g s' | _ => s' end)
  | _ => None
  end.

Definition ready (s : state) : list nat :=
  filter (λ i, nonempty (default [] (snd <$> tasks s !! i)) = true) (seq 0 (length (tasks s))).

(** Coroutine [i] ends with an exception: what it still had to do is not
    done, and it leaves its semaphore. *)
Definition abandon (i : nat) (s : state) : state :=
  match tasks s !! i with
  | Some (g, _ :: _) => release g (mkState (<[i := (g, [])]> (tasks s)) (waiting s))
  | _ => s
  end.

(** After an exception [asyncio.gather] neither waits for the others nor
    cancels them.  Until the caller is woken up, which is one more choice of the scheduler, they
    take further turns, and what they raise is dropped.  What they do after
    that interferes with what the caller does next. *)
Fixpoint linger (fuel : nat) (s : state) (w : W) : W :=
  match fuel with
  | 0 => w
  | S fuel' =>
      let r := ready s in
      match r !! (pick w (S (length r)) mod S (length r)) with
      | None => w
      | Some i =>
          match turn i s with
          | Some (a, s') =>
              match perform a w with
              | (w', Ok _) => linger fuel' s' w'
              | (w', Raise _) => linger fuel' (abandon i s) w'
              end
          | None => w
          end
      end
  end.

(** The first exception ends the gathering.  Without
    a coroutine that can run it would wait forever. *)
Fixpoint run (fuel : nat) (s : state) : M W unit :=
  match ready s with
  | [] => if decide (concat (waiting s) = []) then mret tt else raise OutOfFuel
  | r =>
      match fuel with
      | 0 => raise OutOfFuel
      | S fuel' => λ w,
          let i := default 0 (r !! (pick w (length r) mod length r)) in
          match turn i s with
          | Some (a, s') =>
              match perform a w with
              | (w', Ok _) => run fuel' s' w'
              | (w', Raise e) => (linger fuel' (abandon i s) w', Raise e)
              end
          | None => (w, Raise OutOfFuel)
          end
      end
  end.

Definition work (s : state) : list Q := concat (snd <$> tasks s) ++ concat (concat (waiting s)).
Definition gather_groups (limit : nat) (groups : list (list job)) : M W unit :=
  let s := start limit groups in run (length (work s)) s.

(** [gather_limited] *)
Definition gather_limited (limit : nat) (awaitables : list job) : M W unit := gather_groups limit [awaitables].
(** [asyncio.gather] *)
Definition gather (awaitables : list job) : M W unit := gather_groups (length awaitables) [awaitables].

(** ** Interleavings: a trace of requests of the jobs, and what is left of them *)
Inductive interleaving : list job → list Q → list job → Prop :=
| inter_nil js left : js ≡ₚ left → interleaving js [] left
| inter_cons a rest js js' tr left :
    js ≡ₚ (a :: rest) :: js' → interleaving (rest :: js') tr left → interleaving js (a :: tr) left.

Lemma interleaving_Permutation js tr left : interleaving js tr left → concat js ≡ₚ tr ++ concat left.
Proof.
  induction 1 as [js left H|a rest js js' tr left H _ IH]; [by rewrite H|]. rewrite H. simpl. by rewrite IH.
Qed.

Lemma interleaving_sublist js tr left j :
  interleaving js tr left → Forall (λ j, j = []) left → j ∈ js → j `sublist_of` tr.
Proof.
  intros H Hl. revert j. induction H as [js left H|a rest js js' tr left H _ IH]; intros j Hj.
  - rewrite H in Hj. rewrite Forall_forall in Hl. by rewrite (Hl j Hj).
  - rewrite H in Hj. apply elem_of_cons in Hj as [->|Hj].
    + apply sublist_skip, IH; [done|by left].
    + apply sublist_cons, IH; [done|by right].
Qed.

(** *** Requests that were made, with the exceptions they ended with *)
Definition raised {A} (r : res A) : option exn := match r with Ok _ => None | Raise e => Some e end.
Fixpoint performed (l : list (Q * option exn)) (w w' : W) : Prop :=
  match l with
  | [] => w' = w
  | (q, o) :: l' => ∃ w1 x, perform q w = (w1, x) ∧ o = raised x ∧ performed l' w1 w'
  end.

(** Requests of the jobs: until one raises, or until there are none left; and
    after an exception, further requests of the other jobs. *)
Definition gathering (js : list job) (r : res unit) (l : list (Q * option exn)) : Prop :=
  ∃ l1 l2 left, l = l1 ++ l2 ∧ interleaving js l1.*1 left ∧
    match r with
    | Ok _ => Forall (λ x, x.2 = None) l1 ∧ l2 = [] ∧ Forall (λ j, j = []) left
    | Raise e => ∃ done q, l1 = done ++ [(q, Some e)] ∧ Forall (λ x, x.2 = None) done
    end ∧
    ∃ js2 left2, Forall2 sublist js2 left ∧ interleaving js2 l2.*1 left2.

(** Nothing is requested that is not of a job. *)
Lemma gathering_elem js r l q x : gathering js r l → (q, x) ∈ l → q ∈ concat js.
Proof.
  intros (l1 & l2 & left & -> & Hi & _ & js2 & left2 & HF & Hi2) Hin. apply interleaving_Permutation in Hi, Hi2.
  rewrite Hi. apply elem_of_app in Hin as [Hin|Hin]; apply elem_of_app; [left|right]; apply (list_elem_of_fmap_2 fst) in Hin; cbn [fst] in Hin; [done|].
  assert (q ∈ concat js2) as (j & Hj & Hjs)%elem_of_concat by (rewrite Hi2; apply elem_of_app; by left).
  apply list_elem_of_lookup in Hjs as [k Hk]. destruct (Forall2_lookup_l _ _ _ _ _ HF Hk) as (j' & Hj' & Hsub).
  apply elem_of_concat. exists j'. split; [by eapply elem_of_sublist|by eapply list_elem_of_lookup_2].
Qed.

(** ** The invariant: at most [limit] coroutines of a group are running, and
    none waits while fewer are. *)
Definition running (g : nat) (s : state) : list (nat * job) := filter (λ t, t.1 = g ∧ nonempty t.2 = true) (tasks s).

Record ok (limit : nat) (s : state) : Prop := {
  ok_limit g : length (running g s) ≤ limit;
  ok_busy g js : waiting s !! g = Some js → js ≠ [] → length (running g s) = limit;
  ok_waiting : Forall (Forall (λ j, nonempty j = true)) (waiting s);
}.

Lemma running_app g s1 l ws : running g (mkState (s1 ++ l) ws) = running g (mkState s1 ws) ++ running g (mkState l ws).
Proof. unfold running. simpl. by rewrite filter_app. Qed.

Lemma running_groups (gs : list (list job)) limit n g ws :
  Forall (Forall (λ j, nonempty j = true)) gs →
  running g (mkState (concat (imap (λ i jobs, pair (n + i) <$> take limit jobs) gs)) ws) =
    (if decide (n ≤ g) then default [] ((λ jobs, pair g <$> take limit jobs) <$> gs !! (g - n)) else []).
Proof.
  intros Hgs. revert n. induction Hgs as [|jobs gs Hj Hgs IH]; intros n.
  - simpl. case_decide; [|done]. by destruct (g - n).
  - rewrite imap_cons. cbn [concat]. rewrite running_app.
    replace (imap _ gs) with (imap (λ i jobs, pair (S n + i) <$> take limit jobs) gs) by (apply imap_ext; intros; simpl; by rewrite Nat.add_succ_r).
    rewrite IH, Nat.add_0_r. destruct (decide (n = g)) as [->|Hne].
    + rewrite (decide_False (P:=S g ≤ g)), (decide_True (P:=g ≤ g)), Nat.sub_diag, app_nil_r by lia. simpl. unfold running. simpl.
      apply filter_all. intros t Ht. apply list_elem_of_fmap in Ht as (j & -> & Hin). split; [done|].
      rewrite Forall_forall in Hj. apply Hj. by eapply subseteq_take.
    + replace (running g (mkState (pair n <$> take limit jobs) ws)) with ([] : list (nat * job)).
      2: { symmetry. unfold running. simpl. apply filter_nil_iff. intros t Ht. apply list_elem_of_fmap in Ht as (j & -> & _).
           simpl. intros [? _]. congruence. }
      simpl. repeat case_decide; [|lia|lia|done]. by replace (g - n) with (S (g - S n)) by lia.
Qed.

Lemma start_ok limit groups : ok limit (start limit groups).
Proof.
  unfold start. set (gs := filter (λ j, nonempty j = true) <$> groups).
  assert (Forall (Forall (λ j, nonempty j = true)) gs) as Hgs.
  { unfold gs. apply Forall_fmap, Forall_forall. intros jobs _. apply Forall_forall. intros j [Hj _]%list_elem_of_filter. done. }
  pose proof (λ g, running_groups gs limit 0 g (drop limit <$> gs) Hgs) as Hr. cbn [Nat.add] in Hr. split.
  - intros g. rewrite Hr. simpl. rewrite Nat.sub_0_r. destruct (gs !! g); simpl; [|lia]. rewrite length_fmap, length_take. lia.
  - intros g js. simpl. rewrite list_lookup_fmap, Hr. simpl. rewrite Nat.sub_0_r. destruct (gs !! g) as [jobs|]; [|done].
    intros [= <-] Hne. simpl. rewrite length_fmap, length_take. destruct (decide (limit ≤ length jobs)); [lia|].
    exfalso. apply Hne. apply drop_ge. lia.
  - simpl. apply Forall_fmap. eapply Forall_impl; [exact Hgs|]. intros jobs Hj. by apply Forall_drop.
Qed.

(** ** A turn *)
#[local] Instance concat_Permutation {A} : Proper ((≡ₚ) ==> (≡ₚ)) (@concat A).
Proof.
  induction 1 as [|x l l' _ IH|x y l|l1 l2 l3 _ IH1 _ IH2]; simpl; [done|by f_equiv| |by transitivity (concat l2)].
  rewrite !app_assoc. f_equiv. apply Permutation_app_comm.
Qed.

Lemma concat_length_Permutation {A} (l l' : list (list A)) : l ≡ₚ l' → length (concat l) = length (concat l').
Proof. intros E. by rewrite E. Qed.

Definition all_jobs (s : state) : list job := (snd <$> tasks s) ++ concat (waiting s).

Lemma insert_Permutation {A} (l : list A) i x y : l !! i = Some x → <[i := y]> l ≡ₚ y :: delete i l.
Proof.
  intros H. rewrite (delete_Permutation (<[i := y]> l) i y); [|apply list_lookup_insert_eq; by eapply lookup_lt_Some].
  replace (delete i (<[i := y]> l)) with (delete i l); [done|]. apply list_eq. intros k. destruct (decide (k < i)).
  - by rewrite !list_lookup_delete_lt, list_lookup_insert_ne by lia.
  - by rewrite !list_lookup_delete_ge, list_lookup_insert_ne by lia.
Qed.

Lemma interleaving_equiv js js' tr left : js ≡ₚ js' → interleaving js tr left → interleaving js' tr left.
Proof. intros E H. destruct H as [js left H|a rest js js1 tr left H Hi]; econstructor; try done; by rewrite <- E. Qed.

Lemma release_jobs g s : all_jobs (release g s) ≡ₚ all_jobs s.
Proof.
  unfold release. destruct (waiting s !! g) as [[|j js]|] eqn:E; [done| |done]. unfold all_jobs. simpl. rewrite fmap_app. simpl.
  rewrite <- app_assoc. f_equiv. rewrite (insert_Permutation _ _ _ js E). by rewrite (delete_Permutation _ _ _ E) at 2.
Qed.

Lemma running_Permutation g l l' ws : l ≡ₚ l' → running g (mkState l ws) ≡ₚ running g (mkState l' ws).
Proof. intros E. unfold running. simpl. by rewrite E. Qed.

Lemma running_waiting g s ws : running g (mkState (tasks s) ws) = running g s.
Proof. done. Qed.

Lemma running_cons g t l ws :
  running g (mkState (t :: l) ws) =
    (if decide (t.1 = g ∧ nonempty t.2 = true) then [t] else []) ++ running g (mkState l ws).
Proof. unfold running. simpl. rewrite filter_cons. by case_decide. Qed.

(** Replacing a task that runs by one that does, or that is done. *)
Lemma running_old g h b rest i s : tasks s !! i = Some (g, b :: rest) →
  length (running h s) = (if decide (g = h) then 1 else 0) + length (running h (mkState (delete i (tasks s)) [])).
Proof.
  intros E. rewrite <- (running_waiting h s []), (running_Permutation h _ _ [] (delete_Permutation _ _ _ E)), running_cons, length_app. simpl.
  f_equal. destruct (decide (g = h)) as [->|Hne]; [by rewrite decide_True|]. by rewrite decide_False by (intros [? _]; done).
Qed.

Lemma running_new g h t b rest i s ws : tasks s !! i = Some (g, b :: rest) →
  length (running h (mkState (<[i := (g, t)]> (tasks s)) ws)) =
    (if decide (g = h ∧ nonempty t = true) then 1 else 0) + length (running h (mkState (delete i (tasks s)) [])).
Proof.
  intros E. rewrite (running_Permutation h _ _ ws (insert_Permutation _ _ _ (g, t) E)), running_cons, length_app. simpl.
  f_equal. by case_decide.
Qed.

Lemma running_goes_on g h b b' rest i s ws : tasks s !! i = Some (g, b :: b' :: rest) →
  length (running h (mkState (<[i := (g, b' :: rest)]> (tasks s)) ws)) = length (running h s).
Proof.
  intros E. rewrite (running_new _ _ _ _ _ _ _ _ E), (running_old _ _ _ _ _ _ E). f_equal.
  destruct (decide (g = h)) as [->|Hne]; [by rewrite decide_True|]. by rewrite decide_False by (intros [? _]; done).
Qed.

Lemma running_ends g h b rest i s ws : tasks s !! i = Some (g, b :: rest) →
  length (running h s) = (if decide (g = h) then 1 else 0) + length (running h (mkState (<[i := (g, [])]> (tasks s)) ws)).
Proof.
  intros E. rewrite (running_new _ _ _ _ _ _ _ _ E), (running_old _ _ _ _ _ _ E). f_equal.
  by rewrite decide_False by (intros [_ ?]; done).
Qed.

Lemma ok_ends limit g b rest i s :
  ok limit s → tasks s !! i = Some (g, b :: rest) → default [] (waiting s !! g) = [] →
  ok limit (mkState (<[i := (g, [])]> (tasks s)) (waiting s)).
Proof.
  intros [Hl Hb Hw] E Hnone. split; [|intros h js Hh Hne|done].
  - intros h. specialize (Hl h). rewrite (running_ends _ h _ _ _ _ (waiting s) E) in Hl. lia.
  - simpl in Hh. specialize (Hb h js Hh Hne). rewrite (running_ends _ h _ _ _ _ (waiting s) E) in Hb.
    case_decide as Eg; [|done]. subst h. rewrite Hh in Hnone. by simpl in Hnone.
Qed.

Lemma ok_replaced limit g b rest i s j js :
  ok limit s → tasks s !! i = Some (g, b :: rest) → waiting s !! g = Some (j :: js) →
  ok limit (mkState (<[i := (g, [])]> (tasks s) ++ [(g, j)]) (<[g := js]> (waiting s))).
Proof.
  intros [Hl Hb Hw] E Eg.
  pose proof Hw as Hj. rewrite Forall_forall in Hj. specialize (Hj _ (list_elem_of_lookup_2 _ _ _ Eg)). apply Forall_cons in Hj as [Hj Hjs].
  assert (∀ h ws, length (running h (mkState (<[i := (g, [])]> (tasks s) ++ [(g, j)]) ws)) = length (running h s)) as Hsame.
  { intros h ws. rewrite running_app, length_app, running_cons, (running_ends _ h _ _ _ _ ws E). simpl. rewrite Nat.add_comm. f_equal.
    destruct (decide (g = h)) as [->|Hne]; [by rewrite decide_True|]. by rewrite decide_False by (intros [? _]; done). }
  split; simpl.
  - intros h. rewrite Hsame. apply Hl.
  - intros h js' Hh Hne. rewrite Hsame. destruct (decide (h = g)) as [->|Hne']; [by eapply Hb|].
    rewrite list_lookup_insert_ne in Hh by done. by eapply Hb.
  - by apply Forall_insert.
Qed.

(** A coroutine ends, normally or not. *)
Lemma ended_ok limit g b rest i s : ok limit s → tasks s !! i = Some (g, b :: rest) →
  ok limit (release g (mkState (<[i := (g, [])]> (tasks s)) (waiting s))).
Proof.
  intros Hok E. unfold release. cbn [waiting tasks]. destruct (waiting s !! g) as [[|j js]|] eqn:Eg.
  - apply (ok_ends limit g b rest); [done..|]. by rewrite Eg.
  - by apply (ok_replaced limit g b rest).
  - apply (ok_ends limit g b rest); [done..|]. by rewrite Eg.
Qed.

Lemma turn_ok limit i s a s' : ok limit s → turn i s = Some (a, s') → ok limit s'.
Proof.
  intros Hok. unfold turn. destruct (tasks s !! i) as [[g [|b [|b' rest]]]|] eqn:E; try done; intros [= -> <-].
  - by eapply ended_ok.
  - destruct Hok as [Hl Hb Hw]. pose proof (λ h, running_goes_on _ h _ _ _ _ _ (waiting s) E) as Hsame.
    split; [intros h; rewrite Hsame; apply Hl|intros h js Hh Hne; rewrite Hsame; by eapply Hb|done].
Qed.

Lemma abandon_ok limit i s : ok limit s → ok limit (abandon i s).
Proof.
  intros Hok. unfold abandon. destruct (tasks s !! i) as [[g [|b rest]]|] eqn:E; [done| |done]. by eapply ended_ok.
Qed.

(** What is left after a turn, and when it raises. *)
Lemma turn_abandon_jobs i s a s' : turn i s = Some (a, s') →
  ∃ rest js, all_jobs s ≡ₚ (a :: rest) :: js ∧ all_jobs s' ≡ₚ rest :: js ∧ all_jobs (abandon i s) ≡ₚ [] :: js.
Proof.
  unfold turn, abandon. destruct (tasks s !! i) as [[g [|b rest]]|] eqn:E; [done| |done]. intros [= -> <-].
  exists rest, ((delete i (tasks s)).*2 ++ concat (waiting s)).
  assert (∀ t, all_jobs (mkState (<[i := (g, t)]> (tasks s)) (waiting s)) ≡ₚ t :: ((delete i (tasks s)).*2 ++ concat (waiting s))) as Hins.
  { intros t. unfold all_jobs. simpl. by rewrite (insert_Permutation _ _ _ (g, t) E). }
  split; [unfold all_jobs at 1; by rewrite (delete_Permutation _ _ _ E) at 1|]. split.
  - rewrite <- Hins. destruct rest; [apply release_jobs|done].
  - rewrite <- Hins. apply release_jobs.
Qed.

Lemma turn_jobs i s a s' : turn i s = Some (a, s') →
  ∃ rest js, all_jobs s ≡ₚ (a :: rest) :: js ∧ all_jobs s' ≡ₚ rest :: js.
Proof. intros (rest & js & H1 & H2 & _)%turn_abandon_jobs. by exists rest, js. Qed.

(** ** What a gathering does *)
Lemma elem_of_ready i s : i ∈ ready s ↔ ∃ g j, tasks s !! i = Some (g, j) ∧ nonempty j = true.
Proof.
  unfold ready. rewrite list_elem_of_filter, elem_of_seq. split.
  - intros [H [_ Hi]]. destruct (lookup_lt_is_Some_2 (tasks s) i) as [[g j] E]; [lia|]. rewrite E in H. naive_solver.
  - intros (g & j & E & Hj). rewrite E. split; [done|]. apply lookup_lt_Some in E. lia.
Qed.

Lemma concat_nil {A} (l : list (list A)) : Forall (λ j, j = []) l → concat l = [].
Proof. induction 1 as [|j l -> _ IH]; done. Qed.

Lemma ready_none limit s :
  1 ≤ limit → ok limit s → ready s = [] → concat (waiting s) = [] ∧ Forall (λ j, j = []) (all_jobs s).
Proof.
  intros H1 [Hl Hb Hw] Hr.
  assert (∀ g j, (g, j) ∈ tasks s → j = []) as Ht.
  { intros g j [i Hi]%list_elem_of_lookup. destruct j as [|a j]; [done|]. assert (i ∈ ready s) as Hin; [|by rewrite Hr, elem_of_nil in Hin].
    apply elem_of_ready. by exists g, (a :: j). }
  assert (concat (waiting s) = []) as Hwait.
  { apply concat_nil, Forall_forall. intros js [g Hg]%list_elem_of_lookup. destruct js as [|j js]; [done|]. exfalso.
    specialize (Hb g _ Hg ltac:(done)). destruct (running g s) as [|t r] eqn:Er; [simpl in Hb; lia|].
    assert (t ∈ running g s) as [[_ Hne] Hin]%list_elem_of_filter by (rewrite Er; left).
    destruct t as [g' j']. by rewrite (Ht _ _ Hin) in Hne. }
  split; [done|]. unfold all_jobs. rewrite Hwait, app_nil_r. apply Forall_fmap, Forall_forall. intros [g j] Hin. by eapply Ht.
Qed.

Lemma work_jobs s : work s = concat (all_jobs s).
Proof. unfold work, all_jobs. by rewrite concat_app. Qed.

Lemma turn_ready s n : ready s ≠ [] → ∃ a s', turn (default 0 (ready s !! (n mod length (ready s)))) s = Some (a, s').
Proof.
  intros Hr. destruct (lookup_lt_is_Some_2 (ready s) (n mod length (ready s))) as [i Hi].
  { apply Nat.mod_upper_bound. by destruct (ready s). }
  rewrite Hi. simpl. apply list_elem_of_lookup_2, elem_of_ready in Hi as (g & j & E & Hj).
  unfold turn. rewrite E. destruct j as [|a j]; [done|]. by eexists _, _.
Qed.

Lemma Forall2_sublist_refl (js : list job) : Forall2 sublist js js.
Proof. by apply Forall_Forall2_diag, Forall_forall. Qed.
Lemma Forall2_sublist_trans (l1 l2 l3 : list job) : Forall2 sublist l1 l2 → Forall2 sublist l2 l3 → Forall2 sublist l1 l3.
Proof. intros H1 H2. etrans; [exact H1|exact H2]. Qed.

(** Fewer requests in each job: the interleavings are among those of sublists. *)
Lemma Forall2_sublist_Permutation (l l1 l2 : list job) : Forall2 sublist l l1 → l1 ≡ₚ l2 → ∃ l', l ≡ₚ l' ∧ Forall2 sublist l' l2.
Proof.
  intros HF HP. revert l HF. induction HP as [|x l1 l2 _ IH|x y l1|l1 l2 l3 _ IH1 _ IH2]; intros l HF.
  - apply Forall2_nil_inv_r in HF as ->. by exists [].
  - apply Forall2_cons_inv_r in HF as (z & l' & Hz & HF & ->). destruct (IH l' HF) as (l3 & Hp & HF3).
    exists (z :: l3). split; [by f_equiv|by constructor].
  - apply Forall2_cons_inv_r in HF as (z & l' & Hz & HF & ->). apply Forall2_cons_inv_r in HF as (u & l3 & Hu & HF & ->).
    exists (u :: z :: l3). split; [apply perm_swap|by repeat constructor].
  - destruct (IH1 l HF) as (l' & Hp & HF2). destruct (IH2 l' HF2) as (l4 & Hp4 & HF4). exists l4. split; [by etrans|done].
Qed.

(** A [view] of the state as jobs from which each turn takes a request, and from
    which an exception takes more. *)
Section view.
Context (P : state → Prop) (view : state → list job) (limit : nat).
Context (H1 : 1 ≤ limit) (HP : ∀ s, P s → ok limit s).
Context (Hturn : ∀ s i a s', P s → turn i s = Some (a, s') →
  P s' ∧ P (abandon i s) ∧ ∃ rest rest' js, view s ≡ₚ (a :: rest) :: js ∧ view s' ≡ₚ rest :: js ∧
    view (abandon i s) ≡ₚ rest' :: js ∧ rest' `sublist_of` rest).
Context (Hend : ∀ s, P s → Forall (λ j, j = []) (all_jobs s) → Forall (λ j, j = []) (view s)).

Lemma linger_view fuel s w : P s →
  ∃ l js left, performed l w (linger fuel s w) ∧ Forall2 sublist js (view s) ∧ interleaving js l.*1 left.
Proof using Hturn.
  revert s w. induction fuel as [|fuel IH]; intros s w Hs.
  { exists [], (view s), (view s). split; [done|]. split; [apply Forall2_sublist_refl|by constructor]. }
  cbn [linger]. assert (∃ l js left, performed l w w ∧ Forall2 sublist js (view s) ∧ interleaving js l.*1 left) as Hstop.
  { exists [], (view s), (view s). split; [done|]. split; [apply Forall2_sublist_refl|by constructor]. }
  destruct (ready s !! _) as [i|]; [|done]. destruct (turn i s) as [[a s']|] eqn:Et; [|done].
  destruct (Hturn s i a s' Hs Et) as (Hs1 & Hs2 & rest & rest' & js0 & Hv & Hv1 & Hv2 & Hsub).
  assert (∀ sx wx x, P sx → (∃ r', view sx ≡ₚ r' :: js0 ∧ r' `sublist_of` rest) → perform a w = (wx, x) →
    ∃ l js left, performed l w (linger fuel sx wx) ∧ Forall2 sublist js (view s) ∧ interleaving js l.*1 left) as Hgo.
  { intros sx wx x Hsx (r' & Hvx & Hr') Hx. destruct (IH sx wx Hsx) as (l & js & left & Hl & HF & Hi).
    destruct (Forall2_sublist_Permutation _ _ _ HF Hvx) as (js2 & Hp2 & HF2).
    apply Forall2_cons_inv_r in HF2 as (y & js3 & Hy & HF3 & ->).
    assert (Forall2 sublist ((a :: y) :: js3) ((a :: rest) :: js0)) as HF4 by (constructor; [by apply sublist_skip; etrans|done]).
    destruct (Forall2_sublist_Permutation _ _ _ HF4 (symmetry Hv)) as (js4 & Hp4 & HF5).
    exists ((a, raised x) :: l), js4, left. split; [by exists wx, x|]. split; [done|]. rewrite fmap_cons.
    eapply inter_cons; [symmetry; exact Hp4|]. by eapply interleaving_equiv. }
  destruct (perform a w) as [wx [[]|e]] eqn:Ex; eapply Hgo; eauto.
Qed.

Lemma run_view fuel s w w' r : P s → length (work s) ≤ fuel → run fuel s w = (w', r) →
  ∃ l, performed l w w' ∧ gathering (view s) r l.
Proof using H1 HP Hturn Hend.
  revert s w. induction fuel as [|fuel IH]; intros s w Hs Hf Hrun; cbn [run] in Hrun.
  - destruct (ready s) as [|i0 l] eqn:Er.
    + destruct (ready_none _ _ H1 (HP s Hs) Er) as [Hwait Hnone]. rewrite decide_True in Hrun by done.
      injection Hrun as <- <-. exists []. split; [done|]. exists [], [], (view s). split; [done|]. split; [by constructor|].
      split; [by auto|]. exists (view s), (view s). split; [apply Forall2_sublist_refl|by constructor].
    + exfalso. destruct (turn_ready s 0) as (a & s1 & Ht); [by rewrite Er|]. apply turn_jobs in Ht as (rest & js & Hj & _).
      rewrite work_jobs in Hf. apply concat_length_Permutation in Hj. simpl in Hj. lia.
  - destruct (ready s) as [|i0 l] eqn:Er.
    + destruct (ready_none _ _ H1 (HP s Hs) Er) as [Hwait Hnone]. rewrite decide_True in Hrun by done.
      injection Hrun as <- <-. exists []. split; [done|]. exists [], [], (view s). split; [done|]. split; [by constructor|].
      split; [by auto|]. exists (view s), (view s). split; [apply Forall2_sublist_refl|by constructor].
    + rewrite <- Er in Hrun. cbv zeta in Hrun.
      destruct (turn_ready s (pick w (length (ready s)))) as (a & s1 & Ht); [by rewrite Er|]. rewrite Ht in Hrun.
      destruct (Hturn _ _ _ _ Hs Ht) as (Hs1 & Hs2 & rest & rest' & js & Hv & Hv1 & Hv2 & Hsub).
      apply turn_jobs in Ht as (rest2 & js2 & Hj & Hj1).
      destruct (perform a w) as [w1 [[]|e]] eqn:Ep.
      * destruct (IH s1 w1) as (l' & Hl & l1 & l2 & left & -> & Hi & Hr & Hlater); [done| |done|].
        { rewrite work_jobs in *. apply concat_length_Permutation in Hj. apply concat_length_Permutation in Hj1. simpl in *. lia. }
        exists ((a, None) :: l1 ++ l2). split; [by exists w1, (Ok tt)|]. exists ((a, None) :: l1), l2, left. split; [done|].
        split; [eapply inter_cons; [done|]; by apply (interleaving_equiv _ _ _ _ Hv1)|]. split; [|done].
        destruct r as [[]|e]; [destruct Hr as (HN & -> & Hlf); split; [by constructor|done]|].
        destruct Hr as (done & q & -> & HN). exists ((a, None) :: done), q. split; [done|]. by constructor.
      * injection Hrun as <- <-. destruct (linger_view fuel _ w1 Hs2) as (l2 & js3 & left & Hl2 & HF & Hi).
        exists ((a, Some e) :: l2). split; [by exists w1, (Raise e)|]. exists [(a, Some e)], l2, (rest :: js). split; [done|].
        split; [eapply inter_cons; [exact Hv|]; by constructor|]. split; [by exists [], a|].
        destruct (Forall2_sublist_Permutation _ _ _ HF Hv2) as (js4 & Hp4 & HF4). exists js4, left. split.
        { eapply Forall2_sublist_trans; [exact HF4|]. constructor; [done|apply Forall2_sublist_refl]. }
        by eapply interleaving_equiv.
Qed.
End view.

Lemma start_jobs limit groups : all_jobs (start limit groups) ≡ₚ filter (λ j, nonempty j = true) (concat groups).
Proof.
  unfold start, all_jobs. simpl. set (gs := filter _ <$> groups).
  replace (filter _ (concat groups)) with (concat gs).
  2: { unfold gs. clear. induction groups as [|g gs IH]; [done|]. simpl. by rewrite filter_app, <- IH. }
  clearbody gs. replace (snd <$> concat (imap (λ g jobs, pair g <$> take limit jobs) gs)) with (concat (take limit <$> gs)).
  2: { generalize 0 as n. assert (∀ n, concat (take limit <$> gs) = snd <$> concat (imap (λ g jobs, pair (n + g) <$> take limit jobs) gs)) as H; [|intros _; apply (H 0)].
       induction gs as [|g gs IH]; intros n; [done|]. rewrite imap_cons. cbn [fmap list_fmap concat]. rewrite fmap_app. f_equal.
       - rewrite <- list_fmap_compose. symmetry. apply list_fmap_id.
       - rewrite (IH (S n)). do 2 f_equal. apply imap_ext. intros i x _. simpl. by rewrite Nat.add_succ_r. }
  induction gs as [|g gs IH]; [done|]. simpl. rewrite <- (take_drop limit g) at 3. rewrite <- app_assoc, <- IH.
  solve_Permutation.
Qed.

Lemma gathering_equiv js js' r l : js ≡ₚ js' → gathering js r l → gathering js' r l.
Proof. intros E (l1 & l2 & left & Hl & Hi & H). exists l1, l2, left. split; [done|]. split; [by eapply interleaving_equiv|done]. Qed.

(** The requests of a gathering are those of its coroutines, interleaved; all
    of them are made unless one raises, and there is no deadlock. *)
Lemma gather_groups_spec limit groups w w' r :
  1 ≤ limit → gather_groups limit groups w = (w', r) →
  ∃ l, performed l w w' ∧ gathering (filter (λ j, nonempty j = true) (concat groups)) r l.
Proof.
  intros H1 Hrun. unfold gather_groups in Hrun.
  assert (∃ l, performed l w w' ∧ gathering (all_jobs (start limit groups)) r l) as (l & Hl & Hg).
  { eapply (run_view (ok limit) all_jobs limit H1); [done| |done|apply start_ok|done|exact Hrun].
    intros s i a s' Hs Ht. split; [by eapply turn_ok|]. split; [by apply abandon_ok|].
    apply turn_abandon_jobs in Ht as (rest & js & Hj & Hj1 & Hj2). exists rest, [], js. split; [done|]. split; [done|]. split; [done|]. apply sublist_nil_l. }
  exists l. split; [done|]. eapply gathering_equiv; [apply start_jobs|done].
Qed.

(** ** One coroutine of a group at a time *)

(** What a group still has to do, in order. *)
Definition queue (g : nat) (s : state) : list Q :=
  concat (snd <$> filter (λ t, t.1 = g) (tasks s)) ++ concat (default [] (waiting s !! g)).

Lemma tasks_running g s : concat (snd <$> filter (λ t, t.1 = g) (tasks s)) = concat (snd <$> running g s).
Proof.
  unfold running. induction (tasks s) as [|[h j] l IH]; [done|]. rewrite !filter_cons. simpl. destruct (decide (h = g)) as [->|Hne].
  - destruct j as [|a j]; simpl.
    + rewrite decide_False by (intros [_ ?]; done). done.
    + rewrite decide_True by done. simpl. do 2 f_equal. exact IH.
  - by rewrite decide_False by (intros [? _]; done).
Qed.

Lemma filter_insert {A} (P : A → Prop) `{∀ x, Decision (P x)} (l : list A) i x y :
  l !! i = Some x → ¬ P x → ¬ P y → filter P (<[i := y]> l) = filter P l.
Proof.
  intros Hi Hx Hy. rewrite (insert_take_drop l i y) by (by eapply lookup_lt_Some).
  rewrite <- (take_drop_middle l i x Hi) at 3. by rewrite !filter_app, !filter_cons_False.
Qed.

Lemma release_queue g h s : queue h (release g s) = queue h s ∧ length (waiting (release g s)) = length (waiting s).
Proof.
  unfold release. destruct (waiting s !! g) as [[|j js]|] eqn:Ew; [done| |done]. simpl. rewrite length_insert. split; [|done].
  unfold queue. simpl. rewrite filter_app, fmap_app, concat_app. destruct (decide (h = g)) as [->|Hne].
  - rewrite filter_cons_True by done. rewrite list_lookup_insert_eq by (by eapply lookup_lt_Some). rewrite Ew. simpl.
    by rewrite app_nil_r, <- app_assoc.
  - rewrite filter_cons_False by (simpl; congruence). rewrite list_lookup_insert_ne by done. simpl. by rewrite app_nil_r.
Qed.

(** With one coroutine at a time, what runs is the head of its group. *)
Lemma replaced_queue i s g b rest t : ok 1 s → tasks s !! i = Some (g, b :: rest) →
  let tl := concat (default [] (waiting s !! g)) in
  let s1 := mkState (<[i := (g, t)]> (tasks s)) (waiting s) in
  queue g s = b :: rest ++ tl ∧ queue g s1 = t ++ tl ∧ (∀ h, h ≠ g → queue h s1 = queue h s).
Proof.
  intros Hok E tl s1.
  assert (running g (mkState (delete i (tasks s)) []) = []) as Hnone.
  { pose proof (ok_limit _ _ Hok g) as Hl. rewrite (running_old _ _ _ _ _ _ E), decide_True in Hl by done.
    apply length_zero_iff_nil. lia. }
  assert (running g s = [(g, b :: rest)]) as Hrun.
  { apply Permutation_singleton_r. rewrite <- (running_waiting g s []), (running_Permutation g _ _ [] (delete_Permutation _ _ _ E)), running_cons, Hnone.
    simpl. by rewrite decide_True. }
  split; [|split].
  - unfold queue. rewrite tasks_running, Hrun. simpl. by rewrite app_nil_r.
  - unfold queue, s1. cbn [waiting tasks]. change (<[i := (g, t)]> (tasks s)) with (tasks (mkState (<[i := (g, t)]> (tasks s)) [])). rewrite tasks_running.
    assert (running g (mkState (<[i := (g, t)]> (tasks s)) []) ≡ₚ (if nonempty t then [(g, t)] else [])) as Hp.
    { rewrite (running_Permutation g _ _ [] (insert_Permutation _ _ _ (g, t) E)), running_cons, Hnone. simpl.
      destruct t; [by rewrite decide_False by (intros [_ ?]; done)|by rewrite decide_True]. }
    f_equal. destruct t as [|x t]; simpl in Hp.
    + apply Permutation_nil_r in Hp. by rewrite Hp.
    + apply Permutation_singleton_r in Hp. rewrite Hp. simpl. by rewrite app_nil_r.
  - intros h Hne. unfold queue, s1. simpl. erewrite filter_insert; [done|done|simpl; congruence..].
Qed.

Lemma turn_queue i s a s' : ok 1 s → turn i s = Some (a, s') →
  ∃ g rest tl, tasks s !! i = Some (g, a :: rest) ∧ queue g s = a :: rest ++ tl ∧ queue g s' = rest ++ tl ∧ queue g (abandon i s) = tl ∧
    (∀ h, h ≠ g → queue h s' = queue h s ∧ queue h (abandon i s) = queue h s) ∧
    length (waiting s') = length (waiting s) ∧ length (waiting (abandon i s)) = length (waiting s).
Proof.
  intros Hok. unfold turn, abandon. destruct (tasks s !! i) as [[g [|b rest]]|] eqn:E; try done; intros [= -> <-].
  destruct (replaced_queue i s g a rest rest Hok E) as (Hq & H1 & H2). destruct (replaced_queue i s g a rest [] Hok E) as (_ & H3 & H4).
  exists g, rest, (concat (default [] (waiting s !! g))). split; [done|]. split; [done|].
  assert (∀ h, queue h match rest with [] => release g (mkState (<[i:=(g, rest)]> (tasks s)) (waiting s)) | _ :: _ => mkState (<[i:=(g, rest)]> (tasks s)) (waiting s) end
    = queue h (mkState (<[i:=(g, rest)]> (tasks s)) (waiting s))) as Hr by (intros h; destruct rest; [apply release_queue|done]).
  split; [by rewrite Hr|]. split; [by rewrite (proj1 (release_queue _ _ _))|]. split; [|split].
  - intros h Hne. rewrite Hr, (proj1 (release_queue _ _ _)). auto.
  - destruct rest; [by rewrite (proj2 (release_queue g g _))|done].
  - by rewrite (proj2 (release_queue g g _)).
Qed.

Definition queues (s : state) : list job := (λ g, queue g s) <$> seq 0 (length (waiting s)).
Definition in_groups (s : state) : Prop := Forall (λ t, t.1 < length (waiting s)) (tasks s).

Lemma replaced_in_groups i s g b rest t : in_groups s → tasks s !! i = Some (g, b :: rest) →
  in_groups (mkState (<[i := (g, t)]> (tasks s)) (waiting s)) ∧ in_groups (release g (mkState (<[i := (g, t)]> (tasks s)) (waiting s))).
Proof.
  unfold in_groups. intros H E.
  assert (g < length (waiting s)) as Hg by (rewrite Forall_forall in H; by apply (H (g, b :: rest)), list_elem_of_lookup_2 with i).
  assert (Forall (λ t, t.1 < length (waiting s)) (<[i := (g, t)]> (tasks s))) as H1 by by apply Forall_insert.
  split; [done|]. unfold release. simpl. destruct (waiting s !! g) as [[|j js]|]; [done| |done].
  simpl. rewrite length_insert. apply Forall_app. split; [done|]. by constructor.
Qed.

Lemma turn_in_groups i s a s' : in_groups s → turn i s = Some (a, s') → in_groups s' ∧ in_groups (abandon i s).
Proof.
  unfold turn, abandon. intros H. destruct (tasks s !! i) as [[g [|b rest]]|] eqn:E; try done; intros [= -> <-].
  destruct (replaced_in_groups i s g a rest rest H E) as [H1 H2]. destruct (replaced_in_groups i s g a rest [] H E) as [_ H3].
  split; [by destruct rest|done].
Qed.

Lemma queues_changed g q s s' : g < length (waiting s) → length (waiting s') = length (waiting s) → queue g s' = q →
  (∀ h, h ≠ g → queue h s' = queue h s) → queues s' ≡ₚ q :: delete g (queues s).
Proof.
  intros Hg Hlen Hq Hh. assert (queues s !! g = Some (queue g s)) as Hl.
  { unfold queues. rewrite list_lookup_fmap, lookup_seq_lt by done. done. }
  assert (queues s' = <[g := q]> (queues s)) as ->; [|by eapply insert_Permutation].
  apply list_eq. intros h. unfold queues. rewrite Hlen. destruct (decide (h = g)) as [->|Hne].
  - rewrite list_lookup_insert_eq by (by rewrite length_fmap, length_seq). rewrite list_lookup_fmap, lookup_seq_lt by done. simpl. by rewrite Hq.
  - rewrite list_lookup_insert_ne by done. rewrite !list_lookup_fmap. destruct (decide (h < length (waiting s))) as [Hlt|Hge].
    + rewrite lookup_seq_lt by done. simpl. by rewrite Hh.
    + by rewrite lookup_seq_ge by lia.
Qed.

Lemma turn_queues i s a s' : ok 1 s → in_groups s → turn i s = Some (a, s') →
  ∃ rest rest' js, queues s ≡ₚ (a :: rest) :: js ∧ queues s' ≡ₚ rest :: js ∧ queues (abandon i s) ≡ₚ rest' :: js ∧ rest' `sublist_of` rest.
Proof.
  intros Hok Hin Ht. destruct (turn_queue _ _ _ _ Hok Ht) as (g & rest & tl & E & Hq & Hq1 & Hq2 & Hh & Hlen1 & Hlen2).
  assert (g < length (waiting s)) as Hg.
  { unfold in_groups in Hin. rewrite Forall_forall in Hin. by apply (Hin (g, a :: rest)), list_elem_of_lookup_2 with i. }
  exists (rest ++ tl), tl, (delete g (queues s)). split; [by apply queues_changed|]. split; [apply queues_changed; [done..|]; intros h Hne; by apply Hh|].
  split; [apply queues_changed; [done..|]; intros h Hne; by apply Hh|]. by apply sublist_inserts_l.
Qed.
Lemma concat_nonempty (l : list job) : concat (filter (λ j, nonempty j = true) l) = concat l.
Proof. induction l as [|[|a j] l IH]; [done|done|]. rewrite filter_cons_True by done. simpl. by rewrite IH. Qed.

Lemma start_queues groups : queues (start 1 groups) = (@concat Q) <$> groups.
Proof.
  apply list_eq. intros g. unfold queues. rewrite !list_lookup_fmap. unfold start at 2. cbn [waiting].
  rewrite !length_fmap. destruct (decide (g < length groups)) as [Hlt|Hge].
  - rewrite lookup_seq_lt by done. destruct (lookup_lt_is_Some_2 groups g Hlt) as [jobs Hj]. rewrite Hj. simpl. f_equal.
    unfold queue. rewrite tasks_running. unfold start. set (gs := filter (λ j, nonempty j = true) <$> groups).
    assert (Forall (Forall (λ j, nonempty j = true)) gs) as Hgs.
    { unfold gs. apply Forall_fmap, Forall_forall. intros js _. apply Forall_forall. intros j [Hne _]%list_elem_of_filter. done. }
    pose proof (running_groups gs 1 0 g (drop 1 <$> gs) Hgs) as Hr. cbn [Nat.add] in Hr. rewrite Hr. cbn [waiting].
    rewrite decide_True, Nat.sub_0_r, list_lookup_fmap by lia. unfold gs. rewrite list_lookup_fmap, Hj. simpl.
    rewrite <- list_fmap_compose, list_fmap_id, <- concat_app, take_drop. apply concat_nonempty.
  - rewrite lookup_seq_ge, lookup_ge_None_2 by lia. done.
Qed.

Lemma start_in_groups limit groups : in_groups (start limit groups).
Proof.
  unfold in_groups, start. simpl. rewrite !length_fmap. set (gs := filter _ <$> groups).
  replace (length groups) with (0 + length gs) by (unfold gs; by rewrite length_fmap). clearbody gs.
  enough (∀ n, Forall (λ t, t.1 < n + length gs) (concat (imap (λ g jobs, pair (n + g) <$> take limit jobs) gs))) as H by apply (H 0).
  induction gs as [|jobs gs IH]; intros n; [constructor|]. rewrite imap_cons. cbn [concat]. apply Forall_app. split.
  - apply Forall_fmap, Forall_forall. intros j _. simpl. lia.
  - replace (imap _ gs) with (imap (λ i jobs, pair (S n + i) <$> take limit jobs) gs) by (apply imap_ext; intros; simpl; by rewrite Nat.add_succ_r).
    eapply Forall_impl; [apply IH|]. intros t. simpl. lia.
Qed.

(** With a limit of one, the coroutines of a group run one after the other. *)
Lemma gather_one_at_a_time groups w w' r :
  gather_groups 1 groups w = (w', r) → ∃ l, performed l w w' ∧ gathering ((@concat Q) <$> groups) r l.
Proof.
  intros Hrun. unfold gather_groups in Hrun. rewrite <- start_queues.
  eapply (run_view (λ s, ok 1 s ∧ in_groups s) queues 1 (le_n _)); [by intros s [? _]| | |split; [apply start_ok|apply start_in_groups]|apply le_n|exact Hrun].
  - intros s i a s' [Hok Hin] Ht. pose proof (turn_in_groups _ _ _ _ Hin Ht) as [Hin1 Hin2].
    split; [split; [by eapply turn_ok|done]|]. split; [split; [by apply abandon_ok|done]|]. by eapply turn_queues.
  - intros s _ Hall. unfold queues. apply Forall_fmap, Forall_forall. intros g _. unfold all_jobs in Hall. apply Forall_app in Hall as [Ht Hw].
    simpl. unfold queue. rewrite concat_nil, app_nil_l, concat_nil; [done| |].
    + destruct (waiting s !! g) as [js|] eqn:E; [|done]. simpl. apply Forall_forall. intros j Hj. rewrite Forall_forall in Hw. apply Hw.
      apply elem_of_concat. exists js. split; [done|]. by eapply list_elem_of_lookup_2.
    + apply Forall_forall. intros j (t & -> & [_ Hin]%list_elem_of_filter)%list_elem_of_fmap. rewrite Forall_forall in Ht. apply Ht.
      by apply list_elem_of_fmap_2.
Qed.

(** One turn of the gathering, whichever coroutine takes it, and whether its
    request is answered or raises. *)
Definition step (s s' : state) : Prop := ∃ i a s1, turn i s = Some (a, s1) ∧ (s' = s1 ∨ s' = abandon i s).

(** C40: At any time at most [limit] coroutines of a group have started and not
    ended, and none waits while fewer are, also after some of them raised. *)
Theorem concurrency_limited (limit : nat) (groups : list (list job)) (s : state) :
  rtc step (start limit groups) s →
  ∀ g, length (running g s) ≤ limit ∧ (default [] (waiting s !! g) ≠ [] → length (running g s) = limit).
Proof.
  intros H. assert (ok limit s) as [Hl Hb _].
  { revert H. generalize (start_ok limit groups). induction 2 as [|s1 s2 s3 (i & a & s4 & Ht & Hs) _ IH]; [done|].
    apply IH. destruct Hs as [->| ->]; [by eapply turn_ok|by apply abandon_ok]. }
  intros g. split; [apply Hl|]. destruct (waiting s !! g) as [js|] eqn:E; [|done]. by apply Hb.
Qed.
End gather.

(** ** Coroutines that make one request and return a value

    [asyncio.gather] returns the values in the order of the coroutines,
    whatever the order of the requests. *)
Section values.
Context {W A : Type} (pick : W → nat → nat) (l : list (M W A)).

Definition store (i : nat) : M (W * list (option A)) unit := λ wv,
  match l !! i with
  | Some m =>
      match m wv.1 with
      | (w', Ok a) => ((w', <[i := Some a]> wv.2), Ok tt)
      | (w', Raise e) => ((w', wv.2), Raise e)
      end
  | None => (wv, Raise IndexError)
  end.

Fixpoint all_values (vs : list (option A)) : res (list A) :=
  match vs with
  | [] => Ok []
  | Some a :: vs' => l' ← all_values vs'; Ok (a :: l')
  | None :: _ => Raise OutOfFuel
  end.

Definition gather_values : M W (list A) := λ w,
  let '(wv, r) := gather store (λ wv, pick wv.1) ((λ i, [i]) <$> seq 0 (length l)) (w, replicate (length l) None) in
  (wv.1, match r with Ok _ => all_values wv.2 | Raise e => Raise e end).

Lemma all_values_ok vs as_ : all_values vs = Ok as_ ↔ vs = Some <$> as_.
Proof.
  revert as_. induction vs as [|[a|] vs IH]; intros as_; simpl.
  - split; [by intros [= <-]|]. by destruct as_.
  - split.
    + intros (l' & H & [= <-])%rbind_inv_ok. apply IH in H as ->. done.
    + destruct as_ as [|a' as_]; [done|]. intros [= -> H]. apply IH in H. by rewrite H.
  - split; [done|]. by destruct as_.
Qed.

(** Values that were stored stay, and satisfy what each coroutine promises. *)
Definition promises (I : W → Prop) (R : nat → A → Prop) : Prop :=
  ∀ i m w w' r, l !! i = Some m → I w → m w = (w', r) → I w' ∧ ∀ a, r = Ok a → R i a.

Lemma store_all I R lg w vs wv :
  promises I R → I w → length vs = length l → (∀ i a, vs !! i = Some (Some a) → R i a) →
  performed store lg (w, vs) wv →
  I wv.1 ∧ length wv.2 = length l ∧ (∀ i a, wv.2 !! i = Some (Some a) → R i a) ∧
  (Forall (λ x, x.2 = None) lg → ∀ i, i ∈ lg.*1 ∨ (∃ a, vs !! i = Some (Some a)) → ∃ a, wv.2 !! i = Some (Some a)).
Proof.
  intros Hp. revert w vs. induction lg as [|[i o] lg IH]; intros w vs Hw Hlen Hvs Hrun.
  { cbn in Hrun. subst wv. split; [done|]. split; [done|]. split; [done|]. intros _ i [?%not_elem_of_nil|?]; done. }
  destruct Hrun as (wv1 & x & Hst & -> & Hrun). unfold store in Hst. cbn [fst snd] in Hst.
  destruct (l !! i) as [m|] eqn:Ei.
  2: { injection Hst as <- <-. destruct (IH w vs Hw Hlen Hvs Hrun) as (H1 & H2 & H3 & _). split; [done|]. split; [done|]. split; [done|].
       intros HF. apply Forall_cons in HF as [? _]. done. }
  destruct (m w) as [w1 [a|e]] eqn:Em; destruct (Hp i m w w1 _ Ei Hw Em) as [Hw1 Ha]; injection Hst as <- <-.
  2: { destruct (IH w1 vs Hw1 Hlen Hvs Hrun) as (H1 & H2 & H3 & _). split; [done|]. split; [done|]. split; [done|].
       intros HF. apply Forall_cons in HF as [? _]. done. }
  apply lookup_lt_Some in Ei. destruct (IH w1 (<[i := Some a]> vs)) as (H1 & H2 & H3 & H4); [done|by rewrite length_insert| |done|].
  { intros j b. destruct (decide (i = j)) as [<-|Hne].
    - rewrite list_lookup_insert_eq by (by rewrite Hlen). intros [= <-]. by apply Ha.
    - rewrite list_lookup_insert_ne by done. apply Hvs. }
  split; [done|]. split; [done|]. split; [done|]. intros HF j Hj. apply Forall_cons in HF as [_ HF]. apply (H4 HF).
  destruct (decide (i = j)) as [<-|Hne].
  - right. exists a. by rewrite list_lookup_insert_eq by (by rewrite Hlen).
  - rewrite fmap_cons, elem_of_cons in Hj. rewrite list_lookup_insert_ne by done. destruct Hj as [[->|?]|?]; [done|by left|by right].
Qed.

(** The requests are made one after the other, in some order. *)
Lemma gather_order wv0 wv r :
  gather store (λ wv, pick wv.1) ((λ i, [i]) <$> seq 0 (length l)) wv0 = (wv, r) →
  ∃ lg, performed store lg wv0 wv ∧ (∀ i, i ∈ lg.*1 → i < length l) ∧
    match r with
    | Ok _ => Forall (λ x, x.2 = None) lg ∧ ∀ i, i < length l → i ∈ lg.*1
    | Raise e => ∃ i, (i, Some e) ∈ lg
    end.
Proof.
  intros E. destruct (decide (l = [])) as [El|Hne].
  { rewrite El in E. injection E as <- <-. exists []. split; [done|]. split; [by intros i ?%not_elem_of_nil|].
    split; [constructor|]. intros i Hi. rewrite El in Hi. simpl in Hi. lia. }
  unfold gather in E. apply gather_groups_spec in E as (lg & Hrun & Hg).
  2: { rewrite length_fmap, length_seq. destruct l; simpl; [done|lia]. }
  exists lg. split; [done|]. destruct Hg as (l1 & l2 & left & -> & Hi & Hr & js2 & left2 & HF & Hi2).
  simpl in Hi. rewrite app_nil_r, filter_all in Hi by (intros x (j & -> & _)%list_elem_of_fmap; done).
  pose proof (interleaving_Permutation _ _ _ Hi) as Hperm. pose proof (interleaving_Permutation _ _ _ Hi2) as Hperm2.
  replace (concat ((λ i, [i]) <$> seq 0 (length l))) with (seq 0 (length l)) in Hperm.
  2: { generalize (seq 0 (length l)) as ns. clear. induction ns as [|i ns IH]; [done|]. simpl. f_equal. exact IH. }
  assert (∀ i, i < length l ↔ i ∈ l1.*1 ++ concat left) as Hin. { intros i. rewrite <- Hperm, elem_of_seq. lia. }
  split.
  - intros i. rewrite fmap_app, elem_of_app. intros [H|H]; apply Hin, elem_of_app; [by left|right].
    assert (i ∈ concat js2) as (j & Hj & Hjs)%elem_of_concat by (rewrite Hperm2; apply elem_of_app; by left).
    apply list_elem_of_lookup in Hjs as [k Hk]. destruct (Forall2_lookup_l _ _ _ _ _ HF Hk) as (j' & Hj' & Hsub).
    apply elem_of_concat. exists j'. split; [by eapply elem_of_sublist|by eapply list_elem_of_lookup_2].
  - destruct r as [[]|e].
    + destruct Hr as (HN & -> & Hl). rewrite app_nil_r. split; [done|]. rewrite (concat_nil left), app_nil_r in Hin by done. intros i. apply Hin.
    + destruct Hr as (done & q & -> & _). exists q. apply elem_of_app. left. apply elem_of_app. right. by left.
Qed.

Lemma gather_values_spec I R w w' r :
  promises I R → I w → gather_values w = (w', r) →
  I w' ∧ ∀ as_, r = Ok as_ → length as_ = length l ∧ ∀ i a, as_ !! i = Some a → R i a.
Proof.
  intros Hp Hw. unfold gather_values. destruct (gather _ _ _ _) as [wv r1] eqn:E. intros [= <- <-].
  apply gather_order in E as (lg & Hrun & _).
  destruct (store_all I R lg w (replicate (length l) None) wv) as (H1 & H2 & H3 & _); [done|done|by rewrite length_replicate| |done|].
  { intros i a [? _]%lookup_replicate. done. }
  split; [done|]. intros as_ Hr. destruct r1 as [[]|e]; [|done]. apply all_values_ok in Hr. split.
  - rewrite <- H2, Hr. by rewrite length_fmap.
  - intros i a Ha. apply H3. by rewrite Hr, list_lookup_fmap, Ha.
Qed.

Lemma all_values_total vs : (∀ i, i < length vs → ∃ a, vs !! i = Some (Some a)) → ∃ as_, all_values vs = Ok as_.
Proof.
  intros H. assert (∃ as_, vs = Some <$> as_) as [as_ Has]; [|exists as_; by apply all_values_ok].
  induction vs as [|o vs IH]; [by exists []|]. destruct (H 0) as [a [= ->]]; [simpl; lia|].
  destruct IH as [as_ ->]; [intros i Hi; apply (H (S i)); simpl; lia|]. by exists (a :: as_).
Qed.

Definition each_keeps (I : W → Prop) : Prop := ∀ i m w w' r, l !! i = Some m → I w → m w = (w', r) → I w'.

Lemma store_raise I lg wv wv' i e :
  each_keeps I → I wv.1 → (∀ i, i ∈ lg.*1 → i < length l) → performed store lg wv wv' → (i, Some e) ∈ lg →
  ∃ m w1 w2, l !! i = Some m ∧ I w1 ∧ m w1 = (w2, Raise e).
Proof.
  intros HI Hw Hin. revert wv Hw. induction lg as [|[j o] lg IH]; intros wv Hw Hrun Hi; [by apply not_elem_of_nil in Hi|].
  destruct Hrun as (wv1 & x & Hst & -> & Hrun). unfold store in Hst. destruct (l !! j) as [m|] eqn:Em.
  2: { apply lookup_ge_None in Em. specialize (Hin j ltac:(by left)). exfalso. by apply (Nat.lt_irrefl j), (Nat.lt_le_trans _ _ _ Hin). }
  apply elem_of_cons in Hi as [Hi|Hi].
  - injection Hi as -> Hx. destruct (m wv.1) as [w1 [a|e1]] eqn:E1; injection Hst as <- <-; [done|]. injection Hx as ->. by exists m, wv.1, w1.
  - apply (IH ltac:(intros k Hk; apply Hin; by right) wv1); [|done|done].
    destruct (m wv.1) as [w1 [a|e1]] eqn:E1; injection Hst as <- <-; by apply (HI j m _ _ _ Em Hw E1).
Qed.

(** A gathering that raises does so because a coroutine does. *)
Lemma gather_values_raise_in I w w' e :
  each_keeps I → I w → gather_values w = (w', Raise e) → ∃ i m w1 w2, l !! i = Some m ∧ I w1 ∧ m w1 = (w2, Raise e).
Proof.
  intros HI Hw. unfold gather_values. destruct (gather _ _ _ _) as [wv r1] eqn:E. intros [= <- Hr].
  apply gather_order in E as (lg & Hrun & Hin & Hall). destruct r1 as [[]|e1].
  - exfalso. destruct Hall as [HN Hall].
    destruct (store_all (λ _, True) (λ _ _, True) lg w (replicate (length l) None) wv) as (_ & H2 & _ & H4);
      [done..|by rewrite length_replicate|done|done|].
    destruct (all_values_total wv.2) as [as_ Has]; [|congruence]. intros i Hi. apply H4; [done|]. left. apply Hall. lia.
  - injection Hr as ->. destruct Hall as [i Hi]. apply (store_raise I lg (w, replicate (length l) None) wv i e) in Hi as (m & w1 & w2 & H); [|done..].
    by exists i, m, w1, w2.
Qed.
Lemma gather_values_raise w w' e :
  gather_values w = (w', Raise e) → ∃ i m w1 w2, l !! i = Some m ∧ m w1 = (w2, Raise e).
Proof. intros H. apply (gather_values_raise_in (λ _, True)) in H as (i & m & w1 & w2 & Hi & _ & Hm); [by exists i, m, w1, w2|done..]. Qed.
End values.

(** Two groups, of three and one coroutines, of which two at a time; the
    first one raises, and the second one ends. *)
Definition example_groups : list (list (list nat)) := [[[1; 2]; [3]; [4]]; [[5]]].
Definition example_state : @state nat := mkState [(0, []); (0, []); (1, [5]); (0, [4])] [[]; []].

Lemma concurrency_limited_witness :
  rtc step (start 2 example_groups) example_state ∧
  ∀ g, length (running g example_state) ≤ 2 ∧ (default [] (waiting example_state !! g) ≠ [] → length (running g example_state) = 2).
Proof.
  assert (rtc step (start 2 example_groups) example_state) as H.
  { apply (rtc_l _ _ (mkState [(0, []); (0, [3]); (1, [5]); (0, [4])] [[]; []])).
    - eexists 0, 1, _. split; [reflexivity|]. by right.
    - apply rtc_once. eexists 1, 3, _. split; [reflexivity|]. by left. }
  split; [exact H|]. by apply (concurrency_limited 2 example_groups).
Defined.

(** The first coroutine raises at once; the second one makes a request before the
    caller is woken up, the third one does not. *)
Example stragglers :
  let perform (q : nat) : M (list nat) unit := λ w, (w ++ [q], if decide (q = 1) then Raise ValueError else Ok tt) in
  gather perform (λ w _, if decide (length w ≤ 1) then 0 else 1) [[1; 2]; [3]; [4; 5]] [] = ([1; 3], Raise ValueError).
Proof. vm_compute. reflexivity. Qed.
End Gather.
