(* ===== verification/Etcd.v ===== *)
(** * etcd: the client and dumps of prefixes ([common/etcd.py],
      [coordinator/plugins/etcd.py])

    The client of the JSON gateway of etcd, the dump of all keys with given
    prefixes and its restoration.  The server is a parameter; its laws state
    what etcd documents of the three calls the client makes, and that its
    gateway leaves members with default values out of JSON objects. *)

From stdpp Require Import base gmap strings list.
From Stdlib Require Import NArith Lia Strings.Byte.
From S2P Require Import Prelude Base64 Gather.

#[global] Program Instance byte_countable : Countable byte :=
  inj_countable' Byte.to_N (λ n, default x00 (Byte.of_N n)) _.
Next Obligation. intros b. simpl. by rewrite Byte.of_to_N. Qed.

Module Etcd.
Import Base64 Gather.
Notation bytes := (list byte).

(** ** Comparison of [bytes] objects *)
Fixpoint bytes_lt (a b : bytes) : bool :=
  match a, b with
  | _, [] => false
  | [], _ :: _ => true
  | x :: a', y :: b' => (Byte.to_N x <? Byte.to_N y)%N || ((Byte.to_N x =? Byte.to_N y)%N && bytes_lt a' b')
  end.
Definition bytes_le (a b : bytes) : bool := negb (bytes_lt b a).

(** ** What is sent to the server, and the members of its replies that are
    used, each of which can be missing.  A falsy reply is [None]. *)
Inductive Request : Type :=
| kv_deleterange_request (key : string) (range_end : option string)
| kv_range_request (key : string) (range_end : option string)
| kv_put_request (key value : string).

Record KeyValue : Type := mkKeyValue { json_key : option string; json_value : option string }.
Record Reply : Type := mkReply { reply_kvs : option (list KeyValue) }.

(** [d[key]] *)
Definition member {A} (o : option A) : res A := match o with Some a => Ok a | None => Raise KeyError end.

(** ** [ETCDClient] *)
Section client.
Context {W : Type} (request : Request → M W (option Reply)).

(** [if range_end: ...; assert key <= range_end] *)
Definition encode_range_end (key : bytes) (range_end : option bytes) : res (option string) :=
  match range_end with
  | None | Some [] => Ok None
  | Some e => if bytes_le key e then Ok (Some (b64encode e)) else Raise AssertionError
  end.

Definition kv_deleterange (key : bytes) (range_end : option bytes) : M W (option Reply) :=
  e ← lift_res (encode_range_end key range_end);
  request (kv_deleterange_request (b64encode key) e).

Definition dict_of_kvs (kvs : list KeyValue) : res (list (string * string)) :=
  fold_res (λ d kv, k ← member (json_key kv); v ← member (json_value kv); Ok (dict_set k v d)) [] kvs.

Definition kv_range (key : bytes) (range_end : option bytes) : M W (list (string * string)) :=
  e ← lift_res (encode_range_end key range_end);
  result ← request (kv_range_request (b64encode key) e);
  match result with
  | None => mret []
  | Some reply => lift_res (kvs ← member (reply_kvs reply); dict_of_kvs kvs)
  end.

Definition kv_put_b64 (key value : string) : M W (option Reply) := request (kv_put_request key value).
Definition kv_put (key value : bytes) : M W (option Reply) := kv_put_b64 (b64encode key) (b64encode value).

(** [range_end = bytearray(prefix); range_end[-1] += 1] *)
Definition incr_last (prefix : bytes) : res bytes :=
  match last prefix with
  | None => Raise IndexError
  | Some b =>
      match Byte.of_N (Byte.to_N b + 1) with
      | Some b' => Ok (take (pred (length prefix)) prefix ++ [b'])
      | None => Raise ValueError
      end
  end.
Definition prefix_delete (prefix : bytes) : M W (option Reply) :=
  range_end ← lift_res (incr_last prefix);
  kv_deleterange prefix (Some range_end).
Definition prefix_get (prefix : bytes) : M W (list (string * string)) :=
  range_end ← lift_res (incr_last prefix);
  kv_range prefix (Some range_end).
End client.

(** ** Dumps *)
Record ETCDKey : Type := mkETCDKey { key_b64 : string; value_b64 : string }.
Record ETCDPrefixDump : Type := mkETCDPrefixDump { prefix_b64 : string; keys : list ETCDKey }.
Record ETCDDump : Type := mkETCDDump { prefixes : list ETCDPrefixDump }.

#[global] Instance ETCDKey_eq_dec : EqDecision ETCDKey. Proof. solve_decision. Defined.
#[global] Instance ETCDPrefixDump_eq_dec : EqDecision ETCDPrefixDump. Proof. solve_decision. Defined.
#[global] Instance ETCDDump_eq_dec : EqDecision ETCDDump. Proof. solve_decision. Defined.

Definition key_bytes (key : ETCDKey) : res bytes := b64decode (key_b64 key).
Definition value_bytes (key : ETCDKey) : res bytes := b64decode (value_b64 key).
Definition set_value_bytes (value : bytes) (key : ETCDKey) : ETCDKey := mkETCDKey (key_b64 key) (b64encode value).

Section dump.
Context {W : Type} (request : Request → M W (option Reply)) (pick : W → nat → nat).

Definition get_etcd_prefix_dump (prefix : bytes) : M W (option ETCDPrefixDump) :=
  kvs ← prefix_get request prefix;
  match kvs with
  | [] => mret None
  | _ => mret (Some (mkETCDPrefixDump (b64encode prefix) ((λ kv, mkETCDKey kv.1 kv.2) <$> kvs)))
  end.

(** [asyncio.gather]: the prefixes are read concurrently. *)
Definition get_etcd_dump (prefixes : list bytes) : M W (option ETCDDump) :=
  prefix_ranges ← gather_values pick (get_etcd_prefix_dump <$> prefixes);
  if existsb (λ r, match r with None => true | Some _ => false end) prefix_ranges then mret None
  else mret (Some (mkETCDDump (omap id prefix_ranges))).

(** The loops return [false] at the first call without a reply. *)
Fixpoint put_keys (l : list ETCDKey) : M W bool :=
  match l with
  | [] => mret true
  | key :: l' =>
      result ← kv_put_b64 request (key_b64 key) (value_b64 key);
      match result with None => mret false | Some _ => put_keys l' end
  end.
Definition restore_etcd_prefix (prefix : ETCDPrefixDump) : M W bool :=
  p ← lift_res (b64decode (prefix_b64 prefix));
  result ← prefix_delete request p;
  match result with None => mret false | Some _ => put_keys (keys prefix) end.
Fixpoint restore_prefixes (l : list ETCDPrefixDump) : M W bool :=
  match l with
  | [] => mret true
  | prefix :: l' =>
      ok ← restore_etcd_prefix prefix;
      if (ok : bool) then restore_prefixes l' else mret false
  end.
Definition restore_etcd_dump (dump : ETCDDump) : M W bool := restore_prefixes (prefixes dump).
End dump.

(** ** The range of a prefix *)
Lemma to_N_inj (x y : byte) : Byte.to_N x = Byte.to_N y → x = y.
Proof. intros H. apply (f_equal Byte.of_N) in H. rewrite !Byte.of_to_N in H. congruence. Qed.

Lemma bytes_lt_nil a : bytes_lt a [] = false.
Proof. by destruct a. Qed.

Lemma incr_last_cons x y p : incr_last (x :: y :: p) = (e ← incr_last (y :: p); Ok (x :: e)).
Proof.
  unfold incr_last. change (last (x :: y :: p)) with (last (y :: p)). destruct (last (y :: p)) as [b|]; [|done].
  by destruct (Byte.of_N _).
Qed.

Lemma incr_last_one x e : incr_last [x] = Ok e → ∃ y, e = [y] ∧ Byte.to_N y = (Byte.to_N x + 1)%N.
Proof.
  unfold incr_last. simpl. destruct (Byte.of_N _) as [y|] eqn:E; [|done]. intros [= <-]. exists y. split; [done|].
  by apply Byte.to_of_N in E.
Qed.

(** The keys from a prefix to its [range_end] are those that begin with it. *)
Lemma prefix_range (p e k : bytes) :
  incr_last p = Ok e → bytes_le p k = true ∧ bytes_lt k e = true ↔ p `prefix_of` k.
Proof.
  revert e k. unfold bytes_le. induction p as [|x p IH]; intros e k He; [done|].
  destruct k as [|c k]; [split; [by intros [? _]|by intros ?%prefix_nil_not]|].
  cbn [bytes_lt]. rewrite negb_true_iff, orb_false_iff, andb_false_iff, N.ltb_ge, N.eqb_neq. destruct p as [|y p].
  - apply incr_last_one in He as (z & -> & Hz). cbn [bytes_lt].
    rewrite !bytes_lt_nil, andb_false_r, orb_false_r, N.ltb_lt. split.
    + intros [[H1 _] H2]. assert (x = c) as -> by (apply to_N_inj; lia). apply prefix_cons, prefix_nil.
    + intros H. apply prefix_cons_inv_1 in H as ->. rewrite Hz. split; [split; [done|by right]|lia].
  - rewrite incr_last_cons in He. apply rbind_inv_ok in He as (e' & He & [= <-]). specialize (IH e' k He).
    rewrite negb_true_iff in IH. cbn [bytes_lt]. rewrite orb_true_iff, andb_true_iff, N.ltb_lt, N.eqb_eq. split.
    + intros [[H1 H1'] H2]. assert (x = c) as -> by (apply to_N_inj; lia).
      apply prefix_cons, IH. destruct H1' as [?|?], H2 as [?|[_ ?]]; [lia|done|lia|done].
    + intros H. pose proof (prefix_cons_inv_1 _ _ _ _ H) as ->. apply prefix_cons_inv_2, IH in H as [H1 H2].
      split; [split; [done|by right]|by right].
Qed.

Lemma incr_last_app p e : incr_last p = Ok e → p ≠ [] ∧ e ≠ [] ∧ e ≠ [x00] ∧ bytes_le p e = true.
Proof.
  unfold bytes_le. revert e. induction p as [|x [|y p] IH]; intros e He; [done| |].
  - apply incr_last_one in He as (z & -> & Hz). cbn [bytes_lt]. split; [done|]. split; [done|]. split.
    + intros [= ->]. simpl in Hz. lia.
    + rewrite andb_false_r, orb_false_r. apply negb_true_iff, N.ltb_ge. lia.
  - rewrite incr_last_cons in He. apply rbind_inv_ok in He as (e' & He & [= <-]).
    destruct (IH e' He) as (_ & He' & _ & Hle). cbn [bytes_lt]. split; [done|]. split; [done|]. split.
    + intros [= _ ->]. done.
    + apply negb_true_iff in Hle. rewrite N.ltb_irrefl, N.eqb_refl. simpl. by rewrite Hle.
Qed.

Lemma b64encode_inj a b : b64encode a = b64encode b → a = b.
Proof. intros H. apply (f_equal b64decode) in H. rewrite !b64_decode_encode in H. congruence. Qed.
(** ** What the server promises

    [None] for the end of a range is the single key; [x00] is no upper bound.
    Members with an empty value are left out of the JSON objects of a reply. *)
Definition in_range (key : bytes) (range_end : option bytes) (k : bytes) : bool :=
  match range_end with
  | None => bool_decide (k = key)
  | Some e => bytes_le key k && (bool_decide (e = [x00]) || bytes_lt k e)
  end.
Definition json_bytes (b : bytes) : option string := match b with [] => None | _ => Some (b64encode b) end.
Definition json_key_value (kv : bytes * bytes) : KeyValue := mkKeyValue (json_bytes kv.1) (json_bytes kv.2).
Definition json_list {A} (l : list A) : option (list A) := match l with [] => None | _ => Some l end.

(** The keys of the store in a range, and the others. *)
Definition inside (key : bytes) (range_end : option bytes) (s : gmap bytes bytes) : gmap bytes bytes :=
  filter (λ kv, in_range key range_end kv.1 = true) s.
Definition outside (key : bytes) (range_end : option bytes) (s : gmap bytes bytes) : gmap bytes bytes :=
  filter (λ kv, in_range key range_end kv.1 = false) s.

(** A request that is not answered may have been served. *)
Class EtcdSpec {W} (request : Request → M W (option Reply)) (store : W → gmap bytes bytes) : Prop := {
  range_reply key e w w' r :
    request (kv_range_request (b64encode key) (b64encode <$> e)) w = (w', r) →
    store w' = store w ∧ ∀ reply, r = Ok (Some reply) →
      ∃ l, l ≡ₚ map_to_list (inside key e (store w)) ∧ reply = mkReply (json_list (json_key_value <$> l));
  delete_reply key e w w' r :
    request (kv_deleterange_request (b64encode key) (b64encode <$> e)) w = (w', r) →
    (store w' = outside key e (store w) ∨ store w' = store w) ∧
    ∀ reply, r = Ok (Some reply) → store w' = outside key e (store w);
  put_reply key value w w' r :
    request (kv_put_request (b64encode key) (b64encode value)) w = (w', r) →
    (store w' = <[key := value]> (store w) ∨ store w' = store w) ∧
    ∀ reply, r = Ok (Some reply) → store w' = <[key := value]> (store w);
}.

(** The keys of a store that begin with a prefix. *)
Definition below (p : bytes) (s : gmap bytes bytes) : gmap bytes bytes := filter (λ kv, p `prefix_of` kv.1) s.

Section spec.
Context {W : Type} (request : Request → M W (option Reply)) (store : W → gmap bytes bytes) (pick : W → nat → nat).
Context `{!EtcdSpec request store}.

Lemma in_range_prefix p e k : incr_last p = Ok e → in_range p (Some e) k = true ↔ p `prefix_of` k.
Proof using Type.
  intros He. pose proof (incr_last_app p e He) as (_ & _ & H0 & _). simpl. rewrite bool_decide_eq_false_2 by done.
  rewrite andb_true_iff. by apply prefix_range.
Qed.

Lemma inside_prefix p e s : incr_last p = Ok e → inside p (Some e) s = below p s.
Proof using Type. intros He. apply map_filter_ext. intros k v _. by apply in_range_prefix. Qed.

Lemma outside_prefix p e s k : incr_last p = Ok e →
  outside p (Some e) s !! k = if decide (p `prefix_of` k) then None else s !! k.
Proof using Type.
  intros He. pose proof (in_range_prefix p e k He) as Hk. unfold outside. rewrite map_lookup_filter.
  destruct (s !! k) as [v|] eqn:E; [|by case_decide]. cbn [mbind option_bind fst]. destruct (in_range p (Some e) k).
  - rewrite option_guard_False, decide_True by (by try apply Hk). done.
  - rewrite option_guard_True, decide_False by (try done; by intros ?%Hk). done.
Qed.

Lemma encode_end p e : incr_last p = Ok e → encode_range_end p (Some e) = Ok (b64encode <$> Some e).
Proof using Type. intros He. apply incr_last_app in He as (_ & H & _ & Hle). unfold encode_range_end. destruct e; [done|]. by rewrite Hle. Qed.

(** *** Reading a prefix *)
Definition has_value (kv : bytes * bytes) : bool := match kv.2 with [] => false | _ => true end.
Definition encoded (kv : bytes * bytes) : string * string := (b64encode kv.1, b64encode kv.2).

Lemma dict_of_reply l : Forall (λ kv, kv.1 ≠ []) l → NoDup l.*1 →
  dict_of_kvs (json_key_value <$> l) = if forallb has_value l then Ok (encoded <$> l) else Raise KeyError.
Proof using Type.
  unfold dict_of_kvs. intros Hk Hnd.
  assert (∀ acc : list (string * string), (∀ kv, kv ∈ l → b64encode kv.1 ∉ acc.*1) →
    fold_res (λ d kv, k ← member (json_key kv); v ← member (json_value kv); Ok (dict_set k v d)) acc (json_key_value <$> l) =
      if forallb has_value l then Ok (acc ++ (encoded <$> l)) else Raise KeyError) as Hgen.
  2: { apply (Hgen []). intros kv _. apply not_elem_of_nil. }
  revert Hnd. induction Hk as [|[[|b k] v] l Hb Hk IH]; intros Hnd acc Hacc; [by rewrite app_nil_r|done|].
  apply NoDup_cons in Hnd as [Hni Hnd]. destruct v as [|c v]; [done|].
  cbn [fmap list_fmap fold_res json_key_value json_key json_value json_bytes fst snd member mbind res_bind forallb has_value andb].
  rewrite dict_set_new by (apply (Hacc (b :: k, c :: v)); by left). rewrite IH; [|done|].
  - by rewrite <- app_assoc.
  - intros kv Hkv. rewrite fmap_app, elem_of_app. intros [H|H]; [by apply (Hacc kv); [by right|]|].
    apply list_elem_of_singleton, b64encode_inj in H. apply Hni. simpl in *. rewrite <- H. by apply list_elem_of_fmap_2.
Qed.

Lemma below_keys p s l : p ≠ [] → l ≡ₚ map_to_list (below p s) → Forall (λ kv, kv.1 ≠ []) l ∧ NoDup l.*1.
Proof using Type.
  intros Hp Hl. split.
  - apply Forall_forall. intros kv Hkv. rewrite Hl in Hkv. destruct kv as [k v]. apply elem_of_map_to_list in Hkv.
    apply map_lookup_filter_Some in Hkv as [_ Hk]. simpl in *. intros ->. by apply prefix_nil_inv in Hk.
  - rewrite Hl. apply NoDup_fst_map_to_list.
Qed.
(** A prefix is dumped when it has a key and no key of it an empty value. *)
Definition dumpable (s : gmap bytes bytes) (p : bytes) : bool :=
  bool_decide (below p s ≠ ∅) && forallb has_value (map_to_list (below p s)).

Lemma forallb_Permutation {A} (f : A → bool) l l' : l ≡ₚ l' → forallb f l = forallb f l'.
Proof using Type. intros Hl. apply eq_true_iff_eq. rewrite !forallb_forall. split; intros H x Hx; apply H; by (rewrite Hl || rewrite <- Hl). Qed.

Lemma prefix_get_run p e w w' r : incr_last p = Ok e → prefix_get request p w = (w', r) →
  store w' = store w ∧ ∃ ra l, request (kv_range_request (b64encode p) (b64encode <$> Some e)) w = (w', ra) ∧
    l ≡ₚ map_to_list (below p (store w)) ∧
    r = match ra with
        | Ok (Some _) => if dumpable (store w) p then Ok (encoded <$> l) else Raise KeyError
        | Ok None => Ok []
        | Raise ex => Raise ex
        end.
Proof using EtcdSpec0.
  intros He. unfold prefix_get, kv_range. rewrite He. erewrite (bind_ok (lift_res (Ok e))) by reflexivity.
  rewrite (encode_end _ _ He). erewrite (bind_ok (lift_res (Ok _))) by reflexivity.
  destruct (request (kv_range_request _ _) w) as [w1 ra] eqn:Er. pose proof (range_reply p (Some e) w w1 ra Er) as [Hs Hl].
  rewrite (inside_prefix _ _ _ He) in Hl.
  destruct ra as [[reply|]|ex]; unfold mbind at 1, M_bind at 1; rewrite Er; intros [= <- <-]; (split; [done|]);
    [|exists (Ok None), (map_to_list (below p (store w))); done|exists (Raise ex), (map_to_list (below p (store w))); done].
  destruct (Hl reply eq_refl) as (l & Hp & ->). exists (Ok (Some (mkReply (json_list (json_key_value <$> l))))), l.
  split; [done|]. split; [done|]. pose proof (incr_last_app p e He) as (Hne & _).
  destruct (below_keys p (store w) l Hne Hp) as [Hk Hnd]. unfold dumpable. rewrite <- (forallb_Permutation _ _ _ Hp).
  destruct l as [|kv l].
  - symmetry in Hp. apply Permutation_nil_r, map_to_list_empty_iff in Hp. rewrite Hp. done.
  - rewrite bool_decide_eq_true_2.
    2: { intros E. rewrite E, map_to_list_empty in Hp. by apply Permutation_nil_r in Hp. }
    exact (dict_of_reply (kv :: l) Hk Hnd).
Qed.

Definition etcd_key (kv : bytes * bytes) : ETCDKey := mkETCDKey (b64encode kv.1) (b64encode kv.2).

(** A dump that holds exactly the keys of a store below a prefix. *)
Definition dump_of (s : gmap bytes bytes) (p : bytes) (d : ETCDPrefixDump) : Prop :=
  prefix_b64 d = b64encode p ∧ (∃ e, incr_last p = Ok e) ∧
  ∃ l, l ≡ₚ map_to_list (below p s) ∧ keys d = etcd_key <$> l.

Lemma get_etcd_prefix_dump_run p w w' r : get_etcd_prefix_dump request p w = (w', r) →
  store w' = store w ∧ (∀ d, r = Ok (Some d) → dump_of (store w) p d ∧ dumpable (store w) p = true) ∧
  (r = Ok None → ∃ e w1, request (kv_range_request (b64encode p) (b64encode <$> Some e)) w = (w1, Ok None)) ∧
  (∀ ex, r = Raise ex → (∀ e, incr_last p ≠ Ok e) ∨ (ex = KeyError ∧ dumpable (store w) p = false) ∨ ∃ e w1, request (kv_range_request (b64encode p) (b64encode <$> Some e)) w = (w1, Raise ex)).
Proof using EtcdSpec0.
  clear pick. unfold get_etcd_prefix_dump. destruct (incr_last p) as [e|ex] eqn:He.
  2: { unfold prefix_get. rewrite He. intros [= <- <-]. split; [done|]. split; [done|]. split; [done|]. intros ex' [= <-]. left. done. }
  destruct (prefix_get request p w) as [w1 r1] eqn:E. destruct (prefix_get_run p e w w1 r1 He E) as (Hs & ra & l & Hra & Hl & ->).
  unfold mbind, M_bind. rewrite E. destruct ra as [[reply|]|ex]; [|intros [= <- <-]; naive_solver..].
  destruct (dumpable (store w) p) eqn:Hd; [|intros [= <- <-]; naive_solver]. destruct l as [|kv l].
  { symmetry in Hl. apply Permutation_nil_r, map_to_list_empty_iff in Hl. unfold dumpable in Hd. by rewrite Hl in Hd. }
  intros [= <- <-]. split; [done|]. split; [|done]. intros d [= <-]. split; [|done]. split; [done|]. split; [by exists e|].
  exists (kv :: l). split; [done|]. simpl. f_equal. by rewrite <- list_fmap_compose.
Qed.

Lemma get_etcd_dump_run ps w w' r : get_etcd_dump request pick ps w = (w', r) →
  store w' = store w ∧ (∀ d, r = Ok (Some d) → Forall2 (λ p pd, dump_of (store w) p pd ∧ dumpable (store w) p = true) ps (prefixes d)).
Proof using EtcdSpec0.
  unfold get_etcd_dump. intros Hrun. destruct (gather_values pick (get_etcd_prefix_dump request <$> ps) w) as [w1 r1] eqn:E.
  destruct (gather_values_spec pick (get_etcd_prefix_dump request <$> ps) (λ w1, store w1 = store w)
    (λ i o, ∀ d, o = Some d → ∃ p, ps !! i = Some p ∧ dump_of (store w) p d ∧ dumpable (store w) p = true) w w1 r1) as [Hs Hr]; [|done|done|].
  { intros i m w2 w3 r2 Hm Hw2 Hrun2. rewrite list_lookup_fmap in Hm. destruct (ps !! i) as [p|] eqn:Ep; [|done]. injection Hm as <-.
    apply get_etcd_prefix_dump_run in Hrun2 as (H1 & H2 & _). rewrite Hw2 in H1, H2. split; [done|].
    intros o -> d ->. exists p. split; [done|]. by apply H2. }
  unfold mbind, M_bind in Hrun. rewrite E in Hrun. destruct r1 as [os|ex]; [|by injection Hrun as <- <-].
  destruct (existsb _ os) eqn:Ee; injection Hrun as <- <-; (split; [done|]); [done|]. intros d [= <-]. cbn [prefixes].
  destruct (Hr os eq_refl) as [Hlen Hos]. rewrite length_fmap in Hlen. clear Hr E.
  revert ps Hlen Hos. induction os as [|o os IH]; intros [|p ps] Hlen Hos; try done.
  cbn [existsb] in Ee. destruct o as [d|]; [|done]. cbn [omap list_omap id]. constructor.
  - destruct (Hos 0 (Some d) eq_refl d eq_refl) as (p' & [= <-] & H). done.
  - apply IH; [done|simpl in Hlen; lia|]. intros i o Ho. by apply (Hos (S i) o).
Qed.
(** *** Restoring a prefix *)
Lemma prefix_delete_run p e w w' r : incr_last p = Ok e → prefix_delete request p w = (w', r) →
  (store w' = outside p (Some e) (store w) ∨ store w' = store w) ∧
  ∀ reply, r = Ok (Some reply) → store w' = outside p (Some e) (store w).
Proof using EtcdSpec0.
  intros He. unfold prefix_delete, kv_deleterange. rewrite He. erewrite (bind_ok (lift_res (Ok e))) by reflexivity.
  rewrite (encode_end _ _ He). erewrite (bind_ok (lift_res (Ok _))) by reflexivity. apply delete_reply.
Qed.

Lemma put_keys_run l w w' r : NoDup l.*1 → put_keys request (etcd_key <$> l) w = (w', r) →
  (∀ k, k ∉ l.*1 → store w' !! k = store w !! k) ∧ (r = Ok true → ∀ k v, (k, v) ∈ l → store w' !! k = Some v).
Proof using EtcdSpec0.
  intros Hnd. revert w. induction l as [|[k v] l IH]; intros w.
  { intros [= <- <-]. split; [done|]. intros _ k v ?%not_elem_of_nil. done. }
  rewrite fmap_cons in Hnd. apply NoDup_cons in Hnd as [Hni Hnd]. cbn [fmap list_fmap put_keys]. unfold kv_put_b64. cbn [key_b64 value_b64 etcd_key fst snd].
  destruct (request (kv_put_request (b64encode k) (b64encode v)) w) as [w1 ra] eqn:Er.
  pose proof (put_reply k v w w1 ra Er) as [Hput Hok].
  assert (∀ k', k' ≠ k → store w1 !! k' = store w !! k') as Hother.
  { intros k' Hk'. destruct Hput as [-> | ->]; [|done]. by rewrite lookup_insert_ne. }
  unfold mbind, M_bind. rewrite Er. destruct ra as [[reply|]|ex].
  - intros Hrun. destruct (IH Hnd w1 Hrun) as [H1 H2]. split.
    + intros k' Hk'. change (((k, v) :: l).*1) with (k :: l.*1) in Hk'. apply not_elem_of_cons in Hk' as [Hne Hk'].
      rewrite H1 by done. by apply Hother.
    + intros -> k' v' Hin. apply elem_of_cons in Hin as [[= -> ->]|Hin]; [|by apply H2].
      rewrite H1 by done. rewrite (Hok reply eq_refl). by rewrite lookup_insert_eq.
  - intros [= <- <-]. split; [|done]. intros k' Hk'. apply Hother. intros ->. apply Hk'. by left.
  - intros [= <- <-]. split; [|done]. intros k' Hk'. apply Hother. intros ->. apply Hk'. by left.
Qed.

Lemma below_lookup p s k : below p s !! k = if decide (p `prefix_of` k) then s !! k else None.
Proof using Type.
  unfold below. rewrite map_lookup_filter. destruct (s !! k) as [v|]; [|by case_decide]. cbn [mbind option_bind fst].
  case_decide; [by rewrite option_guard_True|by rewrite option_guard_False].
Qed.

(** Keys without the prefix stay as they are, however the restoration ends. *)
Lemma restore_etcd_prefix_run s p d w w' r : dump_of s p d → restore_etcd_prefix request d w = (w', r) →
  (∀ k, ¬ p `prefix_of` k → store w' !! k = store w !! k) ∧
  (r = Ok true → ∀ k, p `prefix_of` k → store w' !! k = s !! k).
Proof using EtcdSpec0.
  clear pick. intros (Hp & [e He] & l & Hl & Hkeys). unfold restore_etcd_prefix. rewrite Hp, b64_decode_encode.
  erewrite (bind_ok (lift_res (Ok p))) by reflexivity.
  destruct (prefix_delete request p w) as [w1 ra] eqn:Er. destruct (prefix_delete_run p e w w1 ra He Er) as [Hdel Hok].
  assert (∀ k, ¬ p `prefix_of` k → store w1 !! k = store w !! k) as Hother.
  { intros k Hk. destruct Hdel as [-> | ->]; [|done]. rewrite (outside_prefix _ _ _ _ He). by rewrite decide_False. }
  unfold mbind, M_bind. rewrite Er, Hkeys. destruct ra as [[reply|]|ex]; [|intros [= <- <-]; done..].
  intros Hrun. pose proof (incr_last_app p e He) as (Hne & _).
  destruct (below_keys p s l Hne Hl) as [_ Hnd]. destruct (put_keys_run l w1 w' r Hnd Hrun) as [H1 H2].
  assert (∀ k v, (k, v) ∈ l ↔ p `prefix_of` k ∧ s !! k = Some v) as Hin.
  { intros k v. rewrite Hl, elem_of_map_to_list, below_lookup. case_decide; naive_solver. }
  assert (∀ k, s !! k = None ∨ ¬ p `prefix_of` k → k ∉ l.*1) as Hni.
  { intros k Hk Hin'. apply list_elem_of_fmap in Hin' as ([k' v] & -> & Hkv). apply Hin in Hkv. naive_solver. }
  split.
  - intros k Hk. rewrite H1 by auto. by apply Hother.
  - intros -> k Hk. destruct (s !! k) as [v|] eqn:Ek; [by apply H2, Hin|]. rewrite H1 by auto.
    rewrite (Hok reply eq_refl), (outside_prefix _ _ _ _ He). by rewrite decide_True.
Qed.

Lemma restore_prefixes_run s ps ds w w' r : Forall2 (dump_of s) ps ds → restore_prefixes request ds w = (w', r) →
  (∀ k, Forall (λ p, ¬ p `prefix_of` k) ps → store w' !! k = store w !! k) ∧
  (r = Ok true → ∀ k, Exists (λ p, p `prefix_of` k) ps → store w' !! k = s !! k).
Proof using EtcdSpec0.
  intros HF. revert w. induction HF as [|p d ps ds Hd HF IH]; intros w.
  { intros [= <- <-]. split; [done|]. intros _ k ?%Exists_nil. done. }
  cbn [restore_prefixes]. destruct (restore_etcd_prefix request d w) as [w1 ra] eqn:Er.
  destruct (restore_etcd_prefix_run s p d w w1 ra Hd Er) as [Hout Hin]. unfold mbind, M_bind. rewrite Er.
  destruct ra as [[]|ex].
  - intros Hrun. destruct (IH w1 Hrun) as [H1 H2]. split.
    + intros k [Hp Hk]%Forall_cons. rewrite H1 by done. by apply Hout.
    + intros -> k Hk. destruct (decide (Exists (λ q, q `prefix_of` k) ps)) as [He|Hn]; [by apply (H2 eq_refl)|].
      rewrite H1.
      2: { apply Forall_forall. intros q Hq Hk'. apply Hn, Exists_exists. by exists q. }
      apply Hin; [done|]. by apply Exists_cons in Hk as [Hk|Hk].
  - intros [= <- <-]. split; [|done]. intros k [Hp Hk]%Forall_cons. by apply Hout.
  - intros [= <- <-]. split; [|done]. intros k [Hp Hk]%Forall_cons. by apply Hout.
Qed.

(** C10: What was dumped of one store is restored into another: every key with one
    of the prefixes is then as it was, and gone where it was not there.  No
    other key changes, not even when the restoration fails half-way. *)
Theorem etcd_dump_restored (ps : list bytes) (w1 w1' : W) (dump : ETCDDump)
    (Hdump : get_etcd_dump request pick ps w1 = (w1', Ok (Some dump))) (w2 w2' : W) (r : res bool)
    (Hrestore : restore_etcd_dump request dump w2 = (w2', r)) :
  (∀ k, Forall (λ p, ¬ p `prefix_of` k) ps → store w2' !! k = store w2 !! k) ∧
  (r = Ok true → ∀ k, Exists (λ p, p `prefix_of` k) ps → store w2' !! k = store w1 !! k).
Proof using EtcdSpec0.
  apply get_etcd_dump_run in Hdump as [_ HF]. specialize (HF dump eq_refl).
  eapply restore_prefixes_run; [|exact Hrestore]. eapply Forall2_impl; [exact HF|]. by intros p d [? _].
Qed.

(** When the server answers everything, the dump of the prefixes ends in a
    dump exactly if each prefix has a key and no key an empty value; otherwise
    it ends in [KeyError], because the gateway leaves out empty members. *)
Theorem etcd_dump_outcome (ps : list bytes) (Hps : Forall (λ p, ∃ e, incr_last p = Ok e) ps)
    (Hanswers : ∀ key e w, ∃ w' reply, request (kv_range_request (b64encode key) (b64encode <$> e)) w = (w', Ok (Some reply))) (w w' : W) (r : res (option ETCDDump))
    (Hrun : get_etcd_dump request pick ps w = (w', r)) :
  if forallb (dumpable (store w)) ps then ∃ dump, r = Ok (Some dump) ∧ Forall2 (dump_of (store w)) ps (prefixes dump)
  else r = Raise KeyError.
Proof using EtcdSpec0.
  pose proof (get_etcd_dump_run ps w w' r Hrun) as [_ HF]. unfold get_etcd_dump in Hrun.
  destruct (gather_values pick (get_etcd_prefix_dump request <$> ps) w) as [w1 r1] eqn:E.
  rewrite Forall_forall in Hps. unfold mbind, M_bind in Hrun. rewrite E in Hrun. destruct r1 as [os|ex].
  - destruct (gather_values_spec pick (get_etcd_prefix_dump request <$> ps) (λ w1, store w1 = store w)
      (λ i o, ∃ p d, o = Some d ∧ ps !! i = Some p ∧ dumpable (store w) p = true) w w1 (Ok os)) as [_ Hr]; [|done|done|].
    { intros i m w2 w3 r2 Hm Hw2 Hrun2. rewrite list_lookup_fmap in Hm. destruct (ps !! i) as [p|] eqn:Ep; [|done]. injection Hm as <-.
      apply get_etcd_prefix_dump_run in Hrun2 as (H1 & H2 & H3 & _). rewrite Hw2 in H1, H2. split; [done|].
      intros [d|] ->; [|destruct (H3 eq_refl) as (q & w4 & Hq); destruct (Hanswers p (Some q) w2) as (? & ? & ?); congruence].
      exists p, d. split; [done|]. split; [done|]. by destruct (H2 d eq_refl). }
    destruct (Hr os eq_refl) as [Hlen Hos]. rewrite length_fmap in Hlen.
    assert (forallb (dumpable (store w)) ps = true) as ->.
    { apply forallb_forall. intros p Hp. apply list_elem_of_In, list_elem_of_lookup in Hp as [i Hi].
      destruct (lookup_lt_is_Some_2 os i) as [o Ho]; [rewrite Hlen; by eapply lookup_lt_Some|].
      destruct (Hos i o Ho) as (p' & d & _ & Hp' & Hd). congruence. }
    destruct (existsb _ os) eqn:Ee.
    + apply existsb_exists in Ee as (o & Ho%list_elem_of_In & Hn). apply list_elem_of_lookup in Ho as [i Hi].
      by destruct (Hos i o Hi) as (p' & d & -> & _).
    + injection Hrun as <- <-. eexists. split; [done|]. eapply Forall2_impl; [by apply HF|]. by intros p d [? _].
  - injection Hrun as <- <-.
    apply (gather_values_raise_in pick (get_etcd_prefix_dump request <$> ps) (λ w1, store w1 = store w)) in E as (i & m & w2 & w2' & Hm & Hs & Hrun2); [| |done].
    + rewrite list_lookup_fmap in Hm. destruct (ps !! i) as [p|] eqn:Ep; [|done]. injection Hm as <-.
      assert (p ∈ ps) as Hp by by eapply list_elem_of_lookup_2. destruct (Hps p Hp) as [e He].
      apply get_etcd_prefix_dump_run in Hrun2 as (_ & _ & _ & H4). destruct (H4 ex eq_refl) as [Hn|[[-> Hd]|(q & w3 & Hq)]].
      * by destruct (Hn e).
      * rewrite Hs in Hd. replace (forallb _ ps) with false; [done|]. symmetry. apply not_true_iff_false. rewrite forallb_forall.
        intros Hall. rewrite (Hall p) in Hd by by apply list_elem_of_In. done.
      * destruct (Hanswers p (Some q) w2) as (? & ? & ?). congruence.
    + intros i m w2 w3 r2 Hm Hw2 Hrun2. rewrite list_lookup_fmap in Hm. destruct (ps !! i) as [p|]; [|done]. injection Hm as <-.
      apply get_etcd_prefix_dump_run in Hrun2 as (H1 & _). by rewrite H1.
Qed.
End spec.

(** ** A server in memory *)
Module Memory.
Definition decode_end (range_end : option string) : res (option bytes) :=
  match range_end with None => Ok None | Some e => e ← b64decode e; Ok (Some e) end.

Definition serve (q : Request) : M (gmap bytes bytes) (option Reply) := λ s,
  match q with
  | kv_range_request key range_end =>
      match (k ← b64decode key; e ← decode_end range_end; Ok (k, e)) with
      | Ok (k, e) => (s, Ok (Some (mkReply (json_list (json_key_value <$> map_to_list (inside k e s))))))
      | Raise _ => (s, Ok None)
      end
  | kv_deleterange_request key range_end =>
      match (k ← b64decode key; e ← decode_end range_end; Ok (k, e)) with
      | Ok (k, e) => (outside k e s, Ok (Some (mkReply None)))
      | Raise _ => (s, Ok None)
      end
  | kv_put_request key value =>
      match (k ← b64decode key; v ← b64decode value; Ok (k, v)) with
      | Ok (k, v) => (<[k := v]> s, Ok (Some (mkReply None)))
      | Raise _ => (s, Ok None)
      end
  end.

Lemma decode_end_encoded e : decode_end (b64encode <$> e) = Ok e.
Proof. destruct e as [e|]; [|done]. simpl. by rewrite b64_decode_encode. Qed.

#[global] Instance serve_spec : EtcdSpec serve id.
Proof.
  split; intros k e s s' r; cbn [serve]; rewrite ?decode_end_encoded, !b64_decode_encode; cbn [mbind res_bind].
  - intros [= <- <-]. split; [done|]. intros reply [= <-]. by exists (map_to_list (inside k e s)).
  - intros [= <- <-]. split; [by left|done].
  - intros [= <- <-]. split; [by left|done].
Qed.

Definition source : gmap bytes bytes := <[[x61; x62] := [x01; x02]]> (<[[x61; x63] := [x03]]> (<[[x62] := [x04]]> ∅)).
Definition target : gmap bytes bytes := <[[x61; x64] := [x05]]> (<[[x62] := [x06]]> ∅).
Definition first_pick : gmap bytes bytes → nat → nat := λ _ _, 0.
Definition dump : ETCDDump :=
  match get_etcd_dump serve first_pick [[x61]] source with (_, Ok (Some d)) => d | _ => mkETCDDump [] end.
Definition restored : gmap bytes bytes := fst (restore_etcd_dump serve dump target).

Definition dumped (o : res (option ETCDDump)) : bool := match o with Ok (Some _) => true | _ => false end.
Definition succeeded (o : res bool) : bool := match o with Ok true => true | _ => false end.

Lemma etcd_dump_restored_witness : restored !! [x61; x63] = Some [x03] ∧ restored !! [x62] = Some [x06].
Proof.
  assert (dumped (snd (get_etcd_dump serve first_pick [[x61]] source)) = true) as Hd by (vm_compute; reflexivity).
  assert (succeeded (snd (restore_etcd_dump serve dump target)) = true) as Hr by (vm_compute; reflexivity).
  unfold restored, dump in *. destruct (get_etcd_dump serve first_pick [[x61]] source) as [w1' [[d|]|e]] eqn:Ed; [|discriminate Hd..].
  destruct (restore_etcd_dump serve d target) as [w2' [[]|e]] eqn:Er; [|discriminate Hr..].
  destruct (etcd_dump_restored serve id first_pick [[x61]] source w1' d Ed target w2' (Ok true) Er) as [Hout Hin].
  split.
  - transitivity (source !! [x61; x63]); [|vm_compute; reflexivity]. apply (Hin eq_refl). apply Exists_cons_hd. by exists [x63].
  - transitivity (target !! [x62]); [|vm_compute; reflexivity]. apply Hout. constructor; [|constructor]. intros [l Hl]. discriminate Hl.
Defined.

Lemma etcd_dump_outcome_witness : snd (get_etcd_dump serve first_pick [[x61]; [x63]] source) = Raise KeyError.
Proof.
  destruct (get_etcd_dump serve first_pick [[x61]; [x63]] source) as [w' r] eqn:E.
  assert (Forall (λ p, ∃ e, incr_last p = Ok e) [[x61]; [x63]]) as Hps by (repeat constructor; eexists; vm_compute; reflexivity).
  assert (∀ key e s, ∃ s' reply, serve (kv_range_request (b64encode key) (b64encode <$> e)) s = (s', Ok (Some reply))) as Hanswers.
  { intros key e s. cbn [serve]. rewrite decode_end_encoded, b64_decode_encode. cbn [mbind res_bind]. eauto. }
  pose proof (etcd_dump_outcome serve id first_pick [[x61]; [x63]] Hps Hanswers source w' r E) as H.
  assert (forallb (dumpable (id source)) [[x61]; [x63]] = false) as Hf by (vm_compute; reflexivity).
  rewrite Hf in H. exact H.
Defined.
End Memory.
End Etcd.
