(* ===== verification/ZooKeeper.v ===== *)
(** * ZooKeeper ([coordinator/plugins/zookeeper.py])

    The in-memory client [FakeZooKeeperClient], its connections, watches and
    transactions.  No operation suspends while it holds the lock of the
    storage, so each one is atomic together with the watches it triggers.
    Values are byte strings.  [Kazoo] has the client that calls the kazoo
    library for each operation. *)

From stdpp Require Import base gmap strings list sorting.
From Stdlib Require Import ZArith Lia Ascii.
From S2P Require Import Prelude.

Module ZooKeeper.
Local Open Scope nat_scope.

(** The components of a path; the root is [[""]]. *)
Notation Parts := (list string).
Definition parse_path (path : string) : Parts := split_on "/"%char (rstrip "/"%char path).
(** ["/".join(parts)] *)
Definition path_of (parts : Parts) : string := join_on "/"%char parts.

Inductive EventType : Type := CREATED | DELETED | CHANGED | CHILD.
#[global] Instance EventType_eq_dec : EqDecision EventType.
Proof. solve_decision. Defined.

Record WatchedEvent : Type := mkEvent {
  event_type : EventType;
  event_path : string;
}.

(** The client, its open connections - numbered - and their watches: a watcher
    is a number too, and [fired] is what the watchers were called with. *)
Record client : Type := mkClient {
  storage : gmap Parts string;
  connections : list nat;
  watches : gmap (nat * Parts) (list nat);
  fired : list (nat * WatchedEvent);
}.

Definition initial : client := mkClient {[ [""] := "" ]} [] ∅ [].
Definition with_storage (s : gmap Parts string) (z : client) : client := mkClient s (connections z) (watches z) (fired z).

(** [ChangeWatch.has_changed] *)
Definition has_changed (watch : nat) (z : client) : bool := bool_decide (watch ∈ (fired z).*1).

(** [trigger]: watches are popped, then called. *)
Definition pop_watches (parts : Parts) (acc : list nat * gmap (nat * Parts) (list nat)) (c : nat) :
    list nat * gmap (nat * Parts) (list nat) :=
  (acc.1 ++ default [] (acc.2 !! (c, parts)), delete (c, parts) acc.2).
Definition trigger (parts : Parts) (event : WatchedEvent) (z : client) : client :=
  let '(all_watches, ws) := foldl (pop_watches parts) ([], watches z) (connections z) in
  mkClient (storage z) (connections z) ws (fired z ++ ((λ w, (w, event)) <$> all_watches)).
Definition trigger_all (parts_and_events : list (Parts * WatchedEvent)) (z : client) : client :=
  foldl (λ z pe, trigger pe.1 pe.2 z) z parts_and_events.

(** ** Operations on the locked storage *)

(** [while len(parent_parts) and parent_parts not in storage], where
    [parent_parts] are the first [n] parts. *)
Fixpoint make_parents (makepath : bool) (parts : Parts) (n : nat) : M (gmap Parts string) Parts :=
  match n with
  | 0 => mret []
  | S n' =>
      let parent_parts := take n parts in
      s ← get;
      match s !! parent_parts with
      | Some _ => mret parent_parts
      | None =>
          if makepath then modify (<[parent_parts := ""]>) ;; make_parents makepath parts n'
          else raise (ZooKeeperError NoNode)
      end
  end.

Definition create_locked (path value : string) (makepath : bool) : M (gmap Parts string) (Parts * WatchedEvent) :=
  let parts := parse_path path in
  s ← get;
  match s !! parts with
  | Some _ => raise (ZooKeeperError NodeExists)
  | None =>
      modify (<[parts := value]>) ;;
      parent_parts ← make_parents makepath parts (length parts - 1);
      mret (parent_parts, mkEvent CREATED (path_of parent_parts))
  end.

(** [parts[:-1]] *)
Definition parent (k : Parts) : Parts := removelast k.

(** Tuples are compared lexicographically. *)
Fixpoint parts_leb (a b : Parts) : bool :=
  match a, b with
  | [], _ => true
  | _, [] => false
  | x :: a', y :: b' => if decide (x = y) then parts_leb a' b' else str_leb x y
  end.

Definition delete_sort_leb (a b : Parts * WatchedEvent) : bool :=
  let code (e : WatchedEvent) := if decide (event_type e = CHILD) then 0 else 1 in
  (length b.1 <? length a.1) || (length a.1 =? length b.1) && (code a.2 <=? code b.2).

Definition delete_locked (path : string) (recursive : bool) : M (gmap Parts string) (list (Parts * WatchedEvent)) :=
  let parts := parse_path path in
  s ← get;
  let deleted_items := filter (λ k, take (length parts) k = parts) (py_sorted parts_leb (map_to_list s).*1) in
  if decide (length deleted_items = 0) then raise (ZooKeeperError NoNode)
  else if negb recursive && (1 <? length deleted_items) then raise (ZooKeeperError NotEmpty)
  else
    modify (λ s, foldl (λ s k, delete k s) s deleted_items) ;;
    let parent_items := py_sorted parts_leb (remove_dups (parent <$> deleted_items)) in
    mret (py_sorted delete_sort_leb (((λ k, (k, mkEvent DELETED (path_of k))) <$> deleted_items) ++
                                     ((λ k, (k, mkEvent CHILD (path_of k))) <$> parent_items))).

Definition on_storage {A} (m : M (gmap Parts string) A) : M client A := zoom storage with_storage m.

(** ** [FakeZooKeeperConnection] *)
Definition connected (c : nat) : M client unit := z ← get; py_assert (bool_decide (c ∈ connections z)).
Definition add_watch (c : nat) (parts : Parts) (watch : option nat) (z : client) : client :=
  match watch with
  | None => z
  | Some w => mkClient (storage z) (connections z)
                (<[(c, parts) := default [] (watches z !! (c, parts)) ++ [w]]> (watches z)) (fired z)
  end.

Definition enter (c : nat) : M client unit :=
  modify (λ z, mkClient (storage z) (connections z ++ [c]) (watches z) (fired z)).
(** [list.remove] raises [ValueError] when there is nothing to remove. *)
Definition exit (c : nat) : M client unit :=
  z ← get;
  match list_find (λ x, x = c) (connections z) with
  | None => raise ValueError
  | Some (i, _) => put (mkClient (storage z) (delete i (connections z)) (watches z) (fired z))
  end.

Definition get_node (c : nat) (path : string) (watch : option nat) : M client string :=
  connected c ;;
  let parts := parse_path path in
  z ← get;
  match storage z !! parts with
  | None => raise (ZooKeeperError NoNode)
  | Some value => modify (add_watch c parts watch) ;; mret value
  end.

Definition children (s : gmap Parts string) (parts : Parts) : list string :=
  py_sorted str_leb ((λ k, default "" (last k)) <$> filter (λ k, parent k = parts) (map_to_list s).*1).

Definition get_children (c : nat) (path : string) (watch : option nat) : M client (list string) :=
  connected c ;;
  let parts := parse_path path in
  z ← get;
  match storage z !! parts with
  | None => raise (ZooKeeperError NoNode)
  | Some _ => modify (add_watch c parts watch) ;; mret (children (storage z) parts)
  end.

Definition create (c : nat) (path value : string) : M client unit :=
  connected c ;;
  '(parent_parts, event) ← on_storage (create_locked path value true);
  modify (trigger parent_parts event).

(** [ZooKeeperConnection.try_create] *)
Definition try_create (c : nat) (path value : string) : M client bool :=
  try_except (create c path value ;; mret true) (λ e, bool_decide (e = ZooKeeperError NodeExists)) (λ _, mret false).

Definition set_node (c : nat) (path value : string) : M client unit :=
  connected c ;;
  let parts := parse_path path in
  z ← get;
  match storage z !! parts with
  | None => raise (ZooKeeperError NoNode)
  | Some _ =>
      modify (λ z, with_storage (<[parts := value]> (storage z)) z) ;;
      modify (trigger parts (mkEvent CHANGED (path_of parts)))
  end.

Definition delete_node (c : nat) (path : string) (recursive : bool) : M client unit :=
  connected c ;;
  parts_and_events ← on_storage (delete_locked path recursive);
  modify (trigger_all parts_and_events).

(** [exists] *)
Definition node_exists (path : string) : M client bool :=
  z ← get; mret (bool_decide (is_Some (storage z !! parse_path path))).

(** ** [FakeZooKeeperTransaction] *)
Record transaction : Type := mkTransaction {
  operations : list (string * string);
  committed : bool;
}.
Definition new_transaction : transaction := mkTransaction [] false.

Definition txn_create (path value : string) (t : transaction) : res transaction :=
  if committed t then Raise AssertionError
  else Ok (mkTransaction (operations t ++ [(path, value)]) false).

(** The loop of [commit], after [results] successes: the triggers, or the
    results of a transaction that failed. *)
Fixpoint commit_loop (ops : list (string * string)) (results : nat) (triggers : list (Parts * WatchedEvent))
    (storage_copy : gmap Parts string) :
    gmap Parts string * (list (Parts * WatchedEvent) + list (option zk_error)) :=
  match ops with
  | [] => (storage_copy, inl triggers)
  | (path, value) :: rest =>
      match create_locked path value false storage_copy with
      | (s, Ok t) => commit_loop rest (S results) (triggers ++ [t]) s
      | (s, Raise (ZooKeeperError e)) =>
          (s, inr (replicate results (Some RolledBack) ++ [Some e] ++ replicate (length rest) (Some RuntimeInconsistency)))
      | (s, Raise _) => (s, inr []) (* [create_locked] raises nothing else *)
      end
  end.

Definition commit (t : transaction) : M client transaction :=
  z ← get;
  match commit_loop (operations t) 0 [] (storage z) with
  | (_, inr results) => raise (TransactionError results)
  | (storage_copy, inl triggers) =>
      modify (with_storage storage_copy) ;; modify (trigger_all triggers) ;; mret (mkTransaction (operations t) true)
  end.

(** ** Requests, for what other clients may do *)
Inductive request : Type :=
| Get (path : string) (watch : option nat)
| GetChildren (path : string) (watch : option nat)
| Create (path value : string)
| SetValue (path value : string)
| Delete (path : string) (recursive : bool)
| Commit (ops : list (string * string))
| Enter
| Exit.

(** The state after a request of a connection, whether it succeeds or raises. *)
Definition perform (c : nat) (r : request) (z : client) : client :=
  match r with
  | Get path watch => (get_node c path watch z).1
  | GetChildren path watch => (get_children c path watch z).1
  | Create path value => (create c path value z).1
  | SetValue path value => (set_node c path value z).1
  | Delete path recursive => (delete_node c path recursive z).1
  | Commit ops => (commit (mkTransaction ops false) z).1
  | Enter => (enter c z).1
  | Exit => (exit c z).1
  end.

(** ** What creating does *)
Notation keys s := (map_to_list s).*1.

Lemma elem_of_keys (s : gmap Parts string) k : k ∈ keys s ↔ is_Some (s !! k).
Proof.
  rewrite list_elem_of_fmap. split.
  - intros ([k' v] & -> & H%elem_of_map_to_list). by eexists.
  - intros [v H]. exists (k, v). split; [done|]. by apply elem_of_map_to_list.
Qed.

Lemma parse_path_nonempty path : parse_path path ≠ [].
Proof. unfold parse_path. destruct (rstrip _ path) as [|x t]; simpl; [done|]. case_match; [done|]. by case_match. Qed.

Lemma take_lt_ne {A} (l : list A) i j : i < j → j ≤ length l → take i l ≠ take j l.
Proof. intros Hij Hj E. apply (f_equal length) in E. rewrite !length_take in E. lia. Qed.

Lemma parent_take (l : Parts) j : 0 < j → j ≤ length l → parent (take j l) = take (j - 1) l.
Proof.
  intros H0 Hj. unfold parent. rewrite removelast_firstn_len, length_take, take_take. f_equal. lia.
Qed.

(** [s'] is [s] with the nodes for the first [m + 1] to [n] parts added. *)
Record added (parts : Parts) (m n : nat) (value : nat → string) (s s' : gmap Parts string) : Prop := {
  added_new j : m < j → j ≤ n → s !! take j parts = None ∧ s' !! take j parts = Some (value j);
  added_old k : (∀ j, m < j → j ≤ n → k ≠ take j parts) → s' !! k = s !! k;
}.

Lemma added_keeps parts m n value s s' k : added parts m n value s s' → is_Some (s !! k) → s' !! k = s !! k.
Proof. intros [Hn Ho] [v Hk]. apply Ho. intros j Hj Hjn ->. destruct (Hn j Hj Hjn). congruence. Qed.

Lemma make_parents_spec mk parts n s :
  n ≤ length parts →
  match make_parents mk parts n s with
  | (s', Ok p) => ∃ m, m ≤ n ∧ p = take m parts ∧ (m = 0 ∨ is_Some (s !! p)) ∧ added parts m n (λ _, "") s s' ∧
                       (mk = false → m = n)
  | (s', Raise e) => mk = false ∧ e = ZooKeeperError NoNode ∧ 0 < n ∧ s !! take n parts = None
  end.
Proof.
  revert s. induction n as [|n IH]; intros s Hn; cbn [make_parents].
  { exists 0. split; [done|]. split; [done|]. split; [by left|]. split; [|done]. split; [lia|done]. }
  rewrite (bind_ok get _ s s s) by done. destruct (s !! take (S n) parts) as [v|] eqn:Ev.
  { exists (S n). split; [done|]. split; [done|]. split; [right; by rewrite Ev|]. split; [|done]. split; [lia|done]. }
  destruct mk; [|split; [done|]; split; [done|]; split; [lia|done]].
  rewrite (bind_ok (modify _) _ s _ tt) by done. specialize (IH (<[take (S n) parts := ""]> s) ltac:(lia)).
  assert (∀ j, j ≤ n → <[take (S n) parts := ""]> s !! take j parts = s !! take j parts) as Hlt.
  { intros j Hj. rewrite lookup_insert_ne; [done|]. apply not_eq_sym, take_lt_ne; lia. }
  destruct (make_parents true parts n _) as [s' [p|e]]; [|by destruct IH].
  destruct IH as (m & Hm & -> & Hex & [Hnew Hold] & _). exists m. split; [lia|]. split; [done|]. split.
  { rewrite Hlt in Hex by done. done. }
  split; [|done]. split.
  - intros j Hj Hjn. destruct (decide (j = S n)) as [->|Hne].
    + split; [done|]. rewrite Hold; [by rewrite lookup_insert_eq|]. intros i Hi Hin. apply not_eq_sym, take_lt_ne; lia.
    + rewrite <- (Hlt j) by lia. apply Hnew; lia.
  - intros k Hk. rewrite Hold; [|intros j Hj Hjn; apply Hk; lia]. rewrite lookup_insert_ne; [done|].
    apply not_eq_sym, Hk; lia.
Qed.

Lemma create_locked_spec path value mk s :
  let parts := parse_path path in
  let n := length parts in
  match create_locked path value mk s with
  | (s', Ok (p, event)) => ∃ m, m < n ∧ p = take m parts ∧ (m = 0 ∨ is_Some (s !! p)) ∧
      added parts m n (λ j, if decide (j = n) then value else "") s s' ∧ (mk = false → m = n - 1)
  | (s', Raise e) => e = ZooKeeperError NodeExists ∧ is_Some (s !! parts) ∧ s' = s ∨
      mk = false ∧ e = ZooKeeperError NoNode ∧ s !! parts = None ∧ 1 < n ∧ s !! parent parts = None
  end.
Proof.
  intros parts n. assert (0 < n) as Hpos by (unfold n, parts; pose proof (parse_path_nonempty path); by destruct (parse_path path); [|simpl; lia]).
  unfold create_locked. fold parts. rewrite (bind_ok get _ s s s) by done.
  destruct (s !! parts) as [v|] eqn:Ev; [left; by split; [|split]|].
  rewrite (bind_ok (modify _) _ s _ tt) by done. fold n.
  assert (take n parts = parts) as Hall by apply firstn_all.
  assert (∀ j, j < n → <[parts := value]> s !! take j parts = s !! take j parts) as Hlt.
  { intros j Hj. rewrite lookup_insert_ne; [done|]. rewrite <- Hall at 1. apply not_eq_sym, take_lt_ne; [done|unfold n; lia]. }
  pose proof (make_parents_spec mk parts (n - 1) (<[parts := value]> s) ltac:(lia)) as Hmp.
  unfold mbind, M_bind. destruct (make_parents mk parts (n - 1) _) as [s' [p|e]]; cbn.
  - destruct Hmp as (m & Hm & -> & Hex & [Hnew Hold] & Hmk). exists m. rewrite Hlt in Hex by lia.
    split; [lia|]. split; [done|]. split; [done|]. split; [|done]. split.
    + intros j Hj Hjn. case_decide as E.
      * subst j. rewrite Hall. split; [done|]. rewrite Hold; [by rewrite lookup_insert_eq|].
        intros i Hi Hin E. rewrite <- Hall in E at 1. symmetry in E. revert E. apply take_lt_ne; unfold n; lia.
      * rewrite <- (Hlt j) by lia. apply Hnew; lia.
    + intros k Hk. rewrite Hold; [|intros j Hj Hjn; apply Hk; lia]. rewrite lookup_insert_ne; [done|].
      intros <-. apply (Hk n); [lia|done|done].
  - right. destruct Hmp as (-> & -> & Hn & Hno). split; [done|]. split; [done|]. split; [done|]. split; [lia|].
    rewrite <- Hall, parent_take by (done || unfold n; lia). by rewrite <- Hlt by lia.
Qed.

(** ** What the watches promise *)
Definition same_at (s s' : gmap Parts string) (k : Parts) : Prop := s' !! k = s !! k ∧ children s' k = children s k.

Lemma same_at_trans s1 s2 s3 k : same_at s1 s2 k → same_at s2 s3 k → same_at s1 s3 k.
Proof. intros [H1 H2] [H3 H4]. split; congruence. Qed.

Lemma children_ext s s' k : (∀ x, parent x = k → is_Some (s' !! x) ↔ is_Some (s !! x)) → children s' k = children s k.
Proof.
  intros H. unfold children. apply py_sorted_eq.
  - apply str_leb_total.
  - intros a b c. apply str_leb_trans.
  - apply str_leb_antisym.
  - apply fmap_Permutation, NoDup_Permutation; [apply NoDup_filter, NoDup_fst_map_to_list..|].
    intros x. rewrite !list_elem_of_filter, !elem_of_keys. naive_solver.
Qed.

(** The connection [c] is open and its watcher [w] is set on [k]. *)
Definition watching (z : client) (c : nat) (k : Parts) (w : nat) : Prop :=
  c ∈ connections z ∧ w ∈ default [] (watches z !! (c, k)).

Record keeps (c : nat) (z z' : client) : Prop := {
  keeps_fired w : w ∈ (fired z).*1 → w ∈ (fired z').*1;
  keeps_open : c ∈ connections z → c ∈ connections z';
  keeps_watch k w : watching z c k w → is_Some (storage z !! k) →
    w ∈ (fired z').*1 ∨ watching z' c k w ∧ same_at (storage z) (storage z') k;
}.

#[global] Instance keeps_preorder c : PreOrder (keeps c).
Proof.
  split.
  - intros z. split; [done|done|]. intros k w Hw _. right. by split.
  - intros z1 z2 z3 [F1 O1 W1] [F2 O2 W2]. split; [auto|auto|]. intros k w Hw Hk.
    destruct (W1 k w Hw Hk) as [Hf|[Hw2 [Hv Hc]]]; [left; auto|].
    destruct (W2 k w Hw2) as [Hf|[Hw3 Hs]]; [by rewrite Hv|by left|right].
    split; [done|]. by eapply same_at_trans.
Qed.

Lemma pop_watches_spec parts cs l0 ws :
  let r := foldl (pop_watches parts) (l0, ws) cs in
  (∀ c k, r.2 !! (c, k) = if decide (c ∈ cs ∧ k = parts) then None else ws !! (c, k)) ∧
  l0 ⊆ r.1 ∧ ∀ c, c ∈ cs → default [] (ws !! (c, parts)) ⊆ r.1.
Proof.
  revert l0 ws. induction cs as [|c cs IH]; intros l0 ws; cbn [foldl].
  { cbn. split; [|split; [done|by intros c ?%not_elem_of_nil]]. intros c k. rewrite decide_False; [done|]. by intros [?%not_elem_of_nil _]. }
  destruct (IH (l0 ++ default [] (ws !! (c, parts))) (delete (c, parts) ws)) as (H1 & H2 & H3). split; [|split].
  - intros c' k. rewrite H1. destruct (decide (c' = c ∧ k = parts)) as [[-> ->]|Hne].
    + rewrite lookup_delete_eq, (decide_True (P:=c ∈ c :: cs ∧ _)) by (split; [by left|done]). by case_decide.
    + rewrite lookup_delete_ne by (intros [= <- <-]; tauto). apply decide_ext. rewrite elem_of_cons. naive_solver.
  - intros x Hx. apply H2, elem_of_app. by left.
  - intros c' [->|Hin]%elem_of_cons.
    + intros x Hx. apply H2, elem_of_app. by right.
    + destruct (decide (c' = c)) as [->|Hne]; [intros x Hx; apply H2, elem_of_app; by right|].
      pose proof (H3 c' Hin) as H. rewrite lookup_delete_ne in H by congruence. done.
Qed.

Lemma trigger_spec parts event z :
  let z' := trigger parts event z in
  storage z' = storage z ∧ connections z' = connections z ∧
  (∀ c k, watches z' !! (c, k) = if decide (c ∈ connections z ∧ k = parts) then None else watches z !! (c, k)) ∧
  (∀ w, w ∈ (fired z).*1 → w ∈ (fired z').*1) ∧
  (∀ c w, watching z c parts w → w ∈ (fired z').*1).
Proof.
  unfold trigger. pose proof (pop_watches_spec parts (connections z) [] (watches z)) as (H1 & _ & H3).
  destruct (foldl _ _ _) as [all ws]. cbn in *. split; [done|]. split; [done|]. split; [done|].
  rewrite fmap_app, <- list_fmap_compose. cbn. rewrite list_fmap_id. split.
  - intros w Hw. apply elem_of_app. by left.
  - intros c w [Hc Hw]. apply elem_of_app. right. by apply (H3 c Hc).
Qed.

Lemma trigger_all_spec pes z :
  let z' := trigger_all pes z in
  storage z' = storage z ∧ connections z' = connections z ∧
  (∀ w, w ∈ (fired z).*1 → w ∈ (fired z').*1) ∧
  (∀ c k w, watching z c k w → w ∈ (fired z').*1 ∨ k ∉ pes.*1 ∧ watching z' c k w).
Proof.
  revert z. induction pes as [|[k0 e] pes IH]; intros z; cbn [trigger_all foldl].
  { split; [done|]. split; [done|]. split; [done|]. intros c k w Hw. right. split; [apply not_elem_of_nil|done]. }
  pose proof (trigger_spec k0 e z) as (T1 & T2 & T3 & T4 & T5).
  destruct (IH (trigger k0 e z)) as (H1 & H2 & H3 & H4). unfold trigger_all in *. cbn [fst snd].
  rewrite H1, H2, T1, T2. split; [done|]. split; [done|]. split; [auto|]. intros c k w Hw.
  destruct (decide (k = k0)) as [->|Hne]; [left; by eapply H3, T5|].
  destruct (H4 c k w) as [Hf|[Hn Hw']].
  - destruct Hw as [Hc Hw]. split; [by rewrite T2|]. rewrite T3, decide_False by naive_solver. done.
  - by left.
  - right. split; [|done]. change (k ∉ k0 :: pes.*1). rewrite not_elem_of_cons. done.
Qed.

(** A change of the storage together with the triggers of what it affects. *)
Lemma change_keeps c z s' pes :
  (∀ k, is_Some (storage z !! k) → k ∉ pes.*1 → same_at (storage z) s' k) →
  keeps c z (trigger_all pes (with_storage s' z)).
Proof.
  intros Hs. pose proof (trigger_all_spec pes (with_storage s' z)) as (H1 & H2 & H3 & H4). split.
  - apply H3.
  - by rewrite H2.
  - intros k w Hw Hk. destruct (H4 c k w Hw) as [Hf|[Hn Hw']]; [by left|right]. split; [done|]. rewrite H1. by apply Hs.
Qed.

Lemma added_same parts m n value s s' k :
  n ≤ length parts → added parts m n value s s' → is_Some (s !! k) → k ≠ take m parts → same_at s s' k.
Proof.
  intros Hn Ha Hk Hne. split; [by eapply added_keeps|]. apply children_ext. intros x Hx.
  destruct (decide (is_Some (s !! x))) as [Hs|Hs]; [by rewrite (added_keeps _ _ _ _ _ _ _ Ha Hs)|].
  rewrite (added_old _ _ _ _ _ _ Ha); [done|]. intros j Hj Hjn ->. rewrite parent_take in Hx by lia.
  destruct (decide (j - 1 = m)) as [<-|Hjm]; [by subst|].
  destruct (added_new _ _ _ _ _ _ Ha (j - 1)) as [Hno _]; [lia..|]. rewrite Hx in Hno. rewrite Hno in Hk. by destruct Hk.
Qed.

Lemma create_locked_same path value mk s s' pe k :
  create_locked path value mk s = (s', Ok pe) → is_Some (s !! k) → is_Some (s' !! k) ∧ (k ≠ pe.1 → same_at s s' k).
Proof.
  intros H Hk. pose proof (create_locked_spec path value mk s) as Hs. cbv zeta in Hs. rewrite H in Hs. destruct pe as [p e].
  destruct Hs as (m & Hm & -> & _ & Ha & _). split; [by rewrite (added_keeps _ _ _ _ _ _ _ Ha Hk)|].
  intros Hne. by apply (added_same _ _ _ _ _ _ _ (le_n _) Ha).
Qed.

Lemma commit_loop_same ops results triggers s s' triggers' k :
  commit_loop ops results triggers s = (s', inl triggers') → is_Some (s !! k) →
  is_Some (s' !! k) ∧ (∀ pe, pe ∈ triggers → pe ∈ triggers') ∧ (k ∉ triggers'.*1 → same_at s s' k).
Proof.
  revert results triggers s. induction ops as [|[path value] ops IH]; intros results triggers s H Hk; cbn in H.
  { injection H as <- <-. by split; [|split]. }
  destruct (create_locked path value false s) as [s1 [pe|[]]] eqn:Ec; try discriminate H.
  destruct (create_locked_same _ _ _ _ _ _ _ Ec Hk) as [Hk1 Hs1]. destruct (IH _ _ _ H Hk1) as (Hk' & Hin & Hs').
  split; [done|]. split; [intros p Hp; apply Hin, elem_of_app; by left|]. intros Hn.
  eapply same_at_trans; [apply Hs1|by apply Hs']. intros ->. apply Hn, list_elem_of_fmap. exists pe. split; [done|].
  apply Hin, elem_of_app. right. by left.
Qed.

Lemma foldl_delete_lookup (ks : list Parts) (s : gmap Parts string) k :
  foldl (λ s k, delete k s) s ks !! k = if decide (k ∈ ks) then None else s !! k.
Proof.
  revert s. induction ks as [|k0 ks IH]; intros s; cbn [foldl]; [by rewrite decide_False by apply not_elem_of_nil|].
  rewrite IH. destruct (decide (k = k0)) as [->|Hne].
  - rewrite lookup_delete_eq, (decide_True (P:=k0 ∈ k0 :: ks)) by by left. by case_decide.
  - rewrite lookup_delete_ne by done. apply decide_ext. rewrite elem_of_cons. naive_solver.
Qed.

(** The subtree of a node, in the order of its keys. *)
Definition subtree (parts : Parts) (s : gmap Parts string) : list Parts :=
  filter (λ k, take (length parts) k = parts) (py_sorted parts_leb (keys s)).

Lemma elem_of_subtree parts s k : k ∈ subtree parts s ↔ take (length parts) k = parts ∧ is_Some (s !! k).
Proof. unfold subtree. by rewrite list_elem_of_filter, elem_of_py_sorted, elem_of_keys. Qed.

Lemma delete_locked_run path recursive s :
  let parts := parse_path path in
  match delete_locked path recursive s with
  | (s', Ok pes) => s' = foldl (λ s k, delete k s) s (subtree parts s) ∧
      pes ≡ₚ ((λ k, (k, mkEvent DELETED (path_of k))) <$> subtree parts s) ++
             ((λ k, (k, mkEvent CHILD (path_of k))) <$> py_sorted parts_leb (remove_dups (parent <$> subtree parts s)))
  | (s', Raise e) => s' = s ∧ (e = ZooKeeperError NoNode ∧ subtree parts s = [] ∨
      e = ZooKeeperError NotEmpty ∧ recursive = false ∧ 1 < length (subtree parts s))
  end.
Proof.
  intros parts. unfold delete_locked. rewrite (bind_ok get _ s s s) by done. fold parts. fold (subtree parts s).
  case_decide as Hl.
  { split; [done|]. left. split; [done|]. by apply nil_length_inv. }
  destruct recursive; cbn [negb andb].
  - cbn. split; [done|]. apply py_sorted_Permutation.
  - destruct (1 <? length (subtree parts s)) eqn:E; [|cbn; split; [done|]; apply py_sorted_Permutation].
    split; [done|]. right. split; [done|]. split; [done|]. by apply Nat.ltb_lt.
Qed.

Lemma delete_keeps_same path recursive s s' pes k :
  delete_locked path recursive s = (s', Ok pes) → is_Some (s !! k) → k ∉ pes.*1 → same_at s s' k.
Proof.
  intros H Hk Hn. pose proof (delete_locked_run path recursive s) as Hd. cbv zeta in Hd. rewrite H in Hd.
  destruct Hd as [-> Hp]. set (sub := subtree (parse_path path) s) in *. rewrite Hp in Hn.
  rewrite fmap_app, <- !list_fmap_compose in Hn. change (fst ∘ _) with (λ k : Parts, k) in Hn.
  assert (k ∉ sub ∧ ∀ x, x ∈ sub → parent x ≠ k) as [Hk1 Hk2].
  { rewrite not_elem_of_app in Hn. destruct Hn as [Hn1 Hn2]. rewrite list_fmap_id in Hn1. split; [done|].
    intros x Hx <-. apply Hn2. cbn. rewrite list_fmap_id. apply elem_of_py_sorted, elem_of_remove_dups. by apply list_elem_of_fmap_2. }
  split; [by rewrite foldl_delete_lookup, decide_False|]. apply children_ext. intros x <-.
  rewrite foldl_delete_lookup. case_decide as Hx; [|done]. by destruct (Hk2 x Hx).
Qed.

Lemma zk_on_storage_run {A} (m : M (gmap Parts string) A) z s r :
  m (storage z) = (s, r) → on_storage m z = (with_storage s z, r).
Proof. intros H. unfold on_storage, zoom. by rewrite H. Qed.

Lemma with_storage_same z : with_storage (storage z) z = z.
Proof. by destruct z. Qed.

Lemma connected_run {A} c (m : M client A) z :
  (connected c ;; m) z = if decide (c ∈ connections z) then m z else (z, Raise AssertionError).
Proof.
  unfold connected, get, mbind, M_bind, py_assert. case_decide.
  - by rewrite bool_decide_true.
  - by rewrite bool_decide_false.
Qed.

Lemma add_watch_keeps c c' parts watch z : keeps c z (add_watch c' parts watch z).
Proof.
  destruct watch as [w|]; [|done]. split; [done|done|]. intros k w' [Hc Hw] Hk. right. split; [|by split].
  split; [done|]. cbn. destruct (decide ((c', parts) = (c, k))) as [E|E].
  - rewrite E, lookup_insert_eq. injection E as -> ->. apply elem_of_app. by left.
  - by rewrite lookup_insert_ne.
Qed.

Lemma create_keeps c c' path value z : keeps c z (create c' path value z).1.
Proof.
  unfold create. rewrite connected_run. case_decide; [|done].
  destruct (create_locked path value true (storage z)) as [s r] eqn:E. pose proof (zk_on_storage_run _ _ _ _ E) as Hr.
  destruct r as [[p ev]|e].
  - rewrite (bind_ok _ _ _ _ _ Hr). apply (change_keeps c z s [(p, ev)]).
    intros k Hk Hn. apply (create_locked_same _ _ _ _ _ _ _ E Hk). intros ->. apply Hn. by left.
  - rewrite (bind_raise _ _ _ _ _ Hr). pose proof (create_locked_spec path value true (storage z)) as Hs.
    cbv zeta in Hs. rewrite E in Hs. destruct Hs as [(_ & _ & ->)|[? _]]; [|done]. by rewrite with_storage_same.
Qed.

Lemma set_keeps c c' path value z : keeps c z (set_node c' path value z).1.
Proof.
  unfold set_node. rewrite connected_run. case_decide; [|done]. rewrite (bind_ok get _ z z z) by done.
  destruct (storage z !! parse_path path) as [v|] eqn:Ev; [|done].
  apply (change_keeps c z (<[parse_path path := value]> (storage z)) [(parse_path path, mkEvent CHANGED (path_of (parse_path path)))]).
  intros k Hk Hn. assert (k ≠ parse_path path) as Hne by (intros ->; apply Hn; by left).
  split; [by rewrite lookup_insert_ne|]. apply children_ext. intros x _.
  destruct (decide (parse_path path = x)) as [<-|Hx]; [by rewrite lookup_insert_eq, Ev|by rewrite lookup_insert_ne].
Qed.

Lemma delete_keeps c c' path recursive z : keeps c z (delete_node c' path recursive z).1.
Proof.
  unfold delete_node. rewrite connected_run. case_decide; [|done].
  destruct (delete_locked path recursive (storage z)) as [s r] eqn:E. pose proof (zk_on_storage_run _ _ _ _ E) as Hr.
  destruct r as [pes|e].
  - rewrite (bind_ok _ _ _ _ _ Hr). apply change_keeps. intros k Hk Hn. by eapply delete_keeps_same.
  - rewrite (bind_raise _ _ _ _ _ Hr). pose proof (delete_locked_run path recursive (storage z)) as Hs.
    cbv zeta in Hs. rewrite E in Hs. destruct Hs as [-> _]. by rewrite with_storage_same.
Qed.

Lemma commit_keeps c t z : keeps c z (commit t z).1.
Proof.
  unfold commit. rewrite (bind_ok get _ z z z) by done.
  destruct (commit_loop (operations t) 0 [] (storage z)) as [s [triggers|results]] eqn:E; [|done].
  apply (change_keeps c z s triggers). intros k Hk. by eapply commit_loop_same.
Qed.

Lemma exit_keeps c c' z : c ≠ c' → keeps c z (exit c' z).1.
Proof.
  intros Hne. unfold exit. rewrite (bind_ok get _ z z z) by done.
  destruct (list_find (λ x, x = c') (connections z)) as [[i x]|] eqn:E; [|done].
  apply list_find_Some in E as (Hi & -> & _). assert (c ∈ connections z → c ∈ delete i (connections z)) as Hc.
  { rewrite list_elem_of_lookup. intros [j Hj]. apply list_elem_of_lookup. destruct (decide (j < i)).
    - exists j. by rewrite list_lookup_delete_lt.
    - exists (j - 1). rewrite list_lookup_delete_ge.
      + destruct (decide (j = i)) as [->|]; [congruence|]. by replace (S (j - 1)) with j by lia.
      + destruct (decide (j = i)) as [->|]; [congruence|lia]. }
  split; [done|exact Hc|]. intros k w [Ho Hw] Hk. right. split; [|by split]. split; [by apply Hc|done].
Qed.

(** What any request of another connection does to the watches of [c]. *)
Lemma perform_keeps c c' r z : c ≠ c' → keeps c z (perform c' r z).
Proof.
  intros Hne. destruct r; cbn [perform].
  - unfold get_node. rewrite connected_run. case_decide; [|done]. rewrite (bind_ok get _ z z z) by done.
    destruct (storage z !! parse_path path); [apply add_watch_keeps|done].
  - unfold get_children. rewrite connected_run. case_decide; [|done]. rewrite (bind_ok get _ z z z) by done.
    destruct (storage z !! parse_path path); [apply add_watch_keeps|done].
  - apply create_keeps.
  - apply set_keeps.
  - apply delete_keeps.
  - apply commit_keeps.
  - split; [done|intros Hc; apply elem_of_app; by left|]. intros k w [Ho Hw] Hk. right. split; [|by split].
    split; [apply elem_of_app; by left|done].
  - by apply exit_keeps.
Qed.

(** The requests of other clients, in the order they are served. *)
Definition others (rs : list (nat * request)) (z : client) : client := foldl (λ z cr, perform cr.1 cr.2 z) z rs.

Lemma others_keeps c rs z : Forall (λ cr, cr.1 ≠ c) rs → keeps c z (others rs z).
Proof.
  intros Hrs. revert z. induction Hrs as [|cr rs Hcr Hrs IH]; intros z; [done|]. cbn.
  transitivity (perform cr.1 cr.2 z); [by apply perform_keeps, not_eq_sym|apply IH].
Qed.

(** C19: Watches miss nothing.  Whatever requests the other connections make -
    reads, creations with missing parents, updates, recursive deletions,
    transactions, connecting and closing - a watcher that an open connection
    has set on an existing node has been called by the end, unless the node
    still has the same value and the same children, and the watcher is still
    set on it. *)
Theorem watches_never_miss (rs : list (nat * request)) (z : client) (c w : nat) (k : Parts) :
  Forall (λ cr, cr.1 ≠ c) rs → watching z c k w → is_Some (storage z !! k) →
  let z' := others rs z in
  has_changed w z' = true ∨
  watching z' c k w ∧ storage z' !! k = storage z !! k ∧ children (storage z') k = children (storage z) k.
Proof.
  intros Hrs Hw Hk z'. destruct (keeps_watch _ _ _ (others_keeps c rs z Hrs) k w Hw Hk) as [Hf|[Hw' [Hv Hc]]]; [left|by right].
  by apply bool_decide_eq_true.
Qed.

(** ** Transactions *)

(** Creating nodes one after the other, each under an existing parent. *)
Inductive creates : gmap Parts string → list (string * string) → gmap Parts string → Prop :=
| creates_nil s : creates s [] s
| creates_cons s path value ops s' :
    s !! parse_path path = None →
    (length (parse_path path) = 1 ∨ is_Some (s !! parent (parse_path path))) →
    creates (<[parse_path path := value]> s) ops s' →
    creates s ((path, value) :: ops) s'.

Definition create_fails (s : gmap Parts string) (path : string) (e : zk_error) : Prop :=
  let parts := parse_path path in
  e = NodeExists ∧ is_Some (s !! parts) ∨
  e = NoNode ∧ s !! parts = None ∧ 1 < length parts ∧ s !! parent parts = None.

Lemma create_no_makepath path value s :
  let parts := parse_path path in
  match create_locked path value false s with
  | (s', Ok _) => s' = <[parts := value]> s ∧ s !! parts = None ∧ (length parts = 1 ∨ is_Some (s !! parent parts))
  | (s', Raise e) => ∃ err, e = ZooKeeperError err ∧ create_fails s path err
  end.
Proof.
  intros parts. pose proof (create_locked_spec path value false s) as H. cbv zeta in H. fold parts in H.
  assert (0 < length parts) as Hpos by (unfold parts; pose proof (parse_path_nonempty path); by destruct (parse_path path); [|simpl; lia]).
  assert (take (length parts) parts = parts) as Hall by apply firstn_all.
  destruct (create_locked path value false s) as [s' [[p ev]|e]].
  - destruct H as (m & _ & -> & Hex & [Hnew Hold] & Hm). rewrite Hm in * by done.
    destruct (Hnew (length parts)) as [Hno Hs']; [lia..|]. rewrite Hall in Hno, Hs'. rewrite decide_True in Hs' by done.
    split; [|split; [done|]].
    + apply map_eq. intros k. destruct (decide (parts = k)) as [<-|Hne]; [by rewrite lookup_insert_eq|].
      rewrite lookup_insert_ne by done. apply Hold. intros j Hj Hjn ->. apply Hne. by replace j with (length parts) by lia.
    + destruct Hex as [E|Hex]; [left; lia|right]. by rewrite <- (parent_take parts (length parts)), Hall in Hex by lia.
  - destruct H as [(-> & Hs & _)|(_ & -> & H)]; eexists; (split; [done|]); [by left|by right].
Qed.

Lemma commit_loop_spec ops results triggers s :
  match commit_loop ops results triggers s with
  | (s', inl _) => creates s ops s'
  | (_, inr rs) => ∃ pre path value post s1 err, ops = pre ++ (path, value) :: post ∧ creates s pre s1 ∧
      create_fails s1 path err ∧
      rs = replicate (results + length pre) (Some RolledBack) ++ [Some err] ++ replicate (length post) (Some RuntimeInconsistency)
  end.
Proof.
  revert results triggers s. induction ops as [|[path value] ops IH]; intros results triggers s; cbn [commit_loop]; [constructor|].
  pose proof (create_no_makepath path value s) as Hc. cbv zeta in Hc.
  destruct (create_locked path value false s) as [s1 [t|e]].
  - destruct Hc as (-> & Hno & Hp). specialize (IH (S results) (triggers ++ [t]) (<[parse_path path := value]> s)).
    destruct (commit_loop ops _ _ _) as [s' [ts|rs]]; [by constructor|].
    destruct IH as (pre & path' & value' & post & s2 & err & -> & Hpre & Hf & ->).
    exists ((path, value) :: pre), path', value', post, s2, err. split; [done|]. split; [by constructor|]. split; [done|].
    cbn [length]. by replace (results + S (length pre)) with (S results + length pre) by lia.
  - destruct Hc as (err & -> & Hf). exists [], path, value, ops, s, err. split; [done|]. split; [constructor|]. split; [done|].
    cbn [length]. by rewrite Nat.add_0_r.
Qed.

Lemma transaction_spec (ops : list (string * string)) (z : client) :
  match commit (mkTransaction ops false) z with
  | (z', Ok t) => committed t = true ∧ connections z' = connections z ∧ creates (storage z) ops (storage z')
  | (z', Raise e) => z' = z ∧ ∃ pre path value post s err,
      ops = pre ++ (path, value) :: post ∧ creates (storage z) pre s ∧ create_fails s path err ∧
      e = TransactionError (replicate (length pre) (Some RolledBack) ++ [Some err] ++
                            replicate (length post) (Some RuntimeInconsistency))
  end.
Proof.
  unfold commit. rewrite (bind_ok get _ z z z) by done. cbn [operations].
  pose proof (commit_loop_spec ops 0 [] (storage z)) as H.
  destruct (commit_loop ops 0 [] (storage z)) as [s [triggers|rs]].
  - cbn. split; [done|]. pose proof (trigger_all_spec triggers (with_storage s z)) as (-> & -> & _). by split.
  - split; [done|]. destruct H as (pre & path & value & post & s1 & err & -> & Hpre & Hf & ->).
    by exists pre, path, value, post, s1, err.
Qed.

(** Transactions are atomic.  A commit either creates all its nodes, one
    after the other, or changes nothing and raises [TransactionError] with a
    result per operation: the operations before the first one that cannot be
    applied were rolled back, that one reports why - the node exists, or its
    parent does not - and those after it were not attempted. *)
Theorem transaction_atomic (ops : list (string * string)) (z : client) :
  match commit (mkTransaction ops false) z with
  | (z', Ok t) => committed t = true ∧ connections z' = connections z ∧ creates (storage z) ops (storage z')
  | (z', Raise e) => z' = z ∧ ∃ pre path value post s err,
      ops = pre ++ (path, value) :: post ∧ creates (storage z) pre s ∧ create_fails s path err ∧
      e = TransactionError (replicate (length pre) (Some RolledBack) ++ [Some err] ++
                            replicate (length post) (Some RuntimeInconsistency))
  end.
Proof. apply transaction_spec. Qed.

(** ** The storage is a forest *)
Definition well_formed (s : gmap Parts string) : Prop :=
  ∀ k, is_Some (s !! k) → k ≠ [] ∧ (1 < length k → is_Some (s !! parent k)).

Lemma parent_length (k : Parts) : length (parent k) = length k - 1.
Proof. unfold parent. rewrite removelast_firstn_len, length_take. lia. Qed.

Lemma added_well_formed parts m value s s' :
  m < length parts → (m = 0 ∨ is_Some (s !! take m parts)) → added parts m (length parts) value s s' →
  well_formed s → well_formed s'.
Proof.
  intros Hm Hex Ha Hwf k Hk. destruct (decide (is_Some (s !! k))) as [Hs|Hs].
  { destruct (Hwf k Hs) as [Hne Hp]. split; [done|]. intros Hl. rewrite (added_keeps _ _ _ _ _ _ _ Ha (Hp Hl)). by apply Hp. }
  destruct (decide (Exists (λ j, k = take j parts) (seq (S m) (length parts - m)))) as [He|He].
  - apply Exists_exists in He as (j & Hj & ->). apply elem_of_seq in Hj.
    split; [intros E; apply (f_equal length) in E; rewrite length_take in E; simpl in E; lia|].
    intros Hl. rewrite length_take in Hl. rewrite parent_take by lia. destruct (decide (j - 1 = m)) as [E|Hjm].
    + destruct Hex as [->|Hex]; [lia|]. rewrite E. by rewrite (added_keeps _ _ _ _ _ _ _ Ha Hex).
    + destruct (added_new _ _ _ _ _ _ Ha (j - 1)) as [_ ->]; [lia..|]. by eexists.
  - rewrite (added_old _ _ _ _ _ _ Ha) in Hk; [done|]. intros j Hj Hjn ->. apply He, Exists_exists. exists j.
    split; [apply elem_of_seq; lia|done].
Qed.

Lemma create_locked_wf path value mk s s' r :
  create_locked path value mk s = (s', Ok r) → well_formed s → well_formed s'.
Proof.
  intros H. pose proof (create_locked_spec path value mk s) as Hs. cbv zeta in Hs. rewrite H in Hs. destruct r as [p e].
  destruct Hs as (m & Hm & -> & Hex & Ha & _). by eapply added_well_formed.
Qed.

Lemma delete_wf parts s : well_formed s → well_formed (foldl (λ s k, delete k s) s (subtree parts s)).
Proof.
  intros Hwf k. rewrite foldl_delete_lookup. case_decide as Hk; [by intros []|]. intros Hs.
  destruct (Hwf k Hs) as [Hne Hp]. split; [done|]. intros Hl. rewrite foldl_delete_lookup, decide_False; [by apply Hp|].
  intros [Hd _]%elem_of_subtree. apply Hk, elem_of_subtree. split; [|done].
  unfold parent in Hd. rewrite removelast_firstn_len, take_take in Hd.
  assert (length parts ≤ pred (length k)) as Hlen.
  { rewrite <- Hd at 1. rewrite length_take. lia. }
  rewrite <- Hd at 2. f_equal. lia.
Qed.

(** A property of the storage that the operations on it preserve is preserved
    by requests; [Q] restricts the paths that are created. *)
Section preserves.
Context (P : gmap Parts string → Prop) (Q : string → Prop).
Context (Pcreate : ∀ path value mk s s' r, Q path → create_locked path value mk s = (s', Ok r) → P s → P s').
Context (Pset : ∀ k v v' s, s !! k = Some v' → P s → P (<[k := v]> s)).
Context (Pdelete : ∀ parts s, P s → P (foldl (λ s k, delete k s) s (subtree parts s))).

Definition created_paths (r : request) : list string :=
  match r with Create path _ => [path] | Commit ops => ops.*1 | _ => [] end.

Lemma commit_loop_preserves ops results triggers s s' ts :
  Forall Q ops.*1 → commit_loop ops results triggers s = (s', inl ts) → P s → P s'.
Proof using Pcreate.
  revert results triggers s. induction ops as [|[path value] ops IH]; intros results triggers s HQ H HP; cbn in H, HQ.
  { by injection H as <- _. }
  apply Forall_cons in HQ as [Hp HQ]. destruct (create_locked path value false s) as [s1 [t|[]]] eqn:E; try discriminate H.
  eapply IH; [done|exact H|]. by eapply Pcreate.
Qed.

Lemma create_preserves c path value z : Q path → P (storage z) → P (storage (create c path value z).1).
Proof using Pcreate.
  intros HQ HP. unfold create. rewrite connected_run. case_decide; [|done].
  destruct (create_locked path value true (storage z)) as [s r] eqn:E. pose proof (zk_on_storage_run _ _ _ _ E) as Hr.
  destruct r as [[p ev]|e].
  - rewrite (bind_ok _ _ _ _ _ Hr). cbn. pose proof (trigger_spec p ev (with_storage s z)) as (-> & _). by eapply Pcreate.
  - rewrite (bind_raise _ _ _ _ _ Hr). pose proof (create_locked_spec path value true (storage z)) as Hs.
    cbv zeta in Hs. rewrite E in Hs. by destruct Hs as [(_ & _ & ->)|[? _]].
Qed.

Lemma set_preserves c path value z : P (storage z) → P (storage (set_node c path value z).1).
Proof using Pset.
  intros HP. unfold set_node. rewrite connected_run. case_decide; [|done]. rewrite (bind_ok get _ z z z) by done.
  destruct (storage z !! parse_path path) as [v|] eqn:Ev; [|done].
  pose proof (trigger_spec (parse_path path) (mkEvent CHANGED (path_of (parse_path path)))
    (with_storage (<[parse_path path := value]> (storage z)) z)) as (Hst & _).
  match goal with |- P ?x => change x with (storage (trigger (parse_path path) (mkEvent CHANGED (path_of (parse_path path)))
    (with_storage (<[parse_path path := value]> (storage z)) z))) end. rewrite Hst. by eapply Pset.
Qed.

Lemma delete_preserves c path recursive z : P (storage z) → P (storage (delete_node c path recursive z).1).
Proof using Pdelete.
  intros HP. unfold delete_node. rewrite connected_run. case_decide; [|done].
  destruct (delete_locked path recursive (storage z)) as [s r] eqn:E. pose proof (zk_on_storage_run _ _ _ _ E) as Hr.
  pose proof (delete_locked_run path recursive (storage z)) as Hs. cbv zeta in Hs. rewrite E in Hs. destruct r as [pes|e].
  - rewrite (bind_ok _ _ _ _ _ Hr). cbn. pose proof (trigger_all_spec pes (with_storage s z)) as (-> & _).
    destruct Hs as [-> _]. by apply Pdelete.
  - rewrite (bind_raise _ _ _ _ _ Hr). by destruct Hs as [-> _].
Qed.

Lemma perform_preserves c r z : Forall Q (created_paths r) → P (storage z) → P (storage (perform c r z)).
Proof using Pcreate Pset Pdelete.
  intros HQ HP. destruct r as [path watch|path watch|path value|path value|path recursive|ops| |]; cbn [perform].
  - unfold get_node. rewrite connected_run. case_decide; [|done]. rewrite (bind_ok get _ z z z) by done.
    destruct (storage z !! parse_path path); [destruct watch; exact HP|exact HP].
  - unfold get_children. rewrite connected_run. case_decide; [|done]. rewrite (bind_ok get _ z z z) by done.
    destruct (storage z !! parse_path path); [destruct watch; exact HP|exact HP].
  - apply create_preserves; [by inversion HQ|done].
  - by apply set_preserves.
  - by apply delete_preserves.
  - unfold commit. rewrite (bind_ok get _ z z z) by done. cbn [operations].
    destruct (commit_loop ops 0 [] (storage z)) as [s [triggers|results]] eqn:E; [|done].
    pose proof (trigger_all_spec triggers (with_storage s z)) as (Hst & _).
    change (P (storage (trigger_all triggers (with_storage s z)))). rewrite Hst. by eapply commit_loop_preserves.
  - done.
  - unfold exit. rewrite (bind_ok get _ z z z) by done. destruct (list_find _ _) as [[i x]|]; exact HP.
Qed.

Lemma others_preserves rs z :
  Forall (λ cr, Forall Q (created_paths cr.2)) rs → P (storage z) → P (storage (others rs z)).
Proof using Pcreate Pset Pdelete.
  intros Hrs. revert z. induction Hrs as [|[c r] rs Hr Hrs IH]; intros z HP; [done|]. by apply IH, perform_preserves.
Qed.
End preserves.

Lemma set_wf k (v v' : string) s : s !! k = Some v' → well_formed s → well_formed (<[k := v]> s).
Proof.
  intros Hk Hwf x. assert (∀ y, is_Some (<[k := v]> s !! y) ↔ is_Some (s !! y)) as Hy; [|rewrite !Hy; apply Hwf].
  intros y. destruct (decide (k = y)) as [<-|]; [by rewrite lookup_insert_eq, Hk|by rewrite lookup_insert_ne].
Qed.

(** C39: The storage is always a forest: from the initial client, after any
    requests of any connections, whether they succeed or raise, every node
    that is not at the top has its parent stored too - also after an
    operation that failed half way, such as a rolled back transaction. *)
Theorem storage_well_formed (rs : list (nat * request)) : well_formed (storage (others rs initial)).
Proof.
  apply (others_preserves well_formed (λ _, True)).
  - intros path value mk s s' r _. apply create_locked_wf.
  - apply set_wf.
  - apply delete_wf.
  - apply Forall_forall. intros cr _. by apply Forall_forall.
  - intros k. cbn. intros [v [<- _]%lookup_singleton_Some]. split; [done|]. simpl. lia.
Qed.

(** Connection 1 watches the root; connection 2 creates a node two levels down,
    whose missing parent is added to the root. *)
Definition example_client : client := others [(1, Enter); (1, GetChildren "/" (Some 7)); (2, Enter)] initial.

Lemma watches_never_miss_witness :
  let z' := others [(2, Create "/a/b/" "v")] example_client in
  (has_changed 7 z' = true ∨
   watching z' 1 [""] 7 ∧ storage z' !! [""] = storage example_client !! [""] ∧
   children (storage z') [""] = children (storage example_client) [""]) ∧
  children (storage z') [""] = ["a"] ∧ storage z' !! ["";"a";"b"] = Some "v".
Proof.
  split; [|vm_compute; done]. apply watches_never_miss.
  - repeat constructor. discriminate.
  - split; vm_compute; by left.
  - vm_compute. by eexists.
Defined.

(** The second operation fails: nothing is created. *)
Example transaction_example :
  snd (commit (mkTransaction [("/a", "1"); ("/b/c", "2"); ("/d", "3")] false) initial) =
    Raise (TransactionError [Some RolledBack; Some NoNode; Some RuntimeInconsistency]) ∧
  storage (fst (commit (mkTransaction [("/a", "1"); ("/a/b", "2")] false) initial)) !! ["";"a";"b"] = Some "2" ∧
  (fired (others [(2, Enter); (2, GetChildren "/a" (Some 3)); (2, Get "/a/b" (Some 4)); (2, Delete "/a" true)]
     (fst (commit (mkTransaction [("/a", "1"); ("/a/b", "2")] false) initial)))) =
    [(4, mkEvent DELETED "/a/b"); (3, mkEvent CHILD "/a")].
Proof. vm_compute. done. Qed.
End ZooKeeper.
