(* ===== verification/Flink.v ===== *)
(** * The Flink plugin ([coordinator/plugins/flink/steps.py])

    The tables of Flink are a tree of ZooKeeper nodes.  [RetrieveDataStep]
    reads it, while other clients may change it, and [RestoreDataStep] writes
    it back.  A [str] is represented by its UTF-8 encoding. *)

From stdpp Require Import base gmap strings list.
From Stdlib Require Import NArith Lia Ascii.
From S2P Require Import Prelude PyText ZooKeeper.

Module Flink.
Import Utf8 ZooKeeper.
Local Open Scope nat_scope.

(** ** Data: a node with a value, or a dictionary of nodes.  *)
Inductive value : Type :=
| VStr (s : string)
| VDict (items : list (string * value)).

(** A state shared with other clients: before each operation on the
    connection, the next batch of their requests is served. *)
Definition W : Type := client * list (list (nat * request)).
Definition interleave : M W unit := λ w,
  match w.2 with
  | [] => (w, Ok tt)
  | rs :: script => ((others rs w.1, script), Ok tt)
  end.
Definition on_client {A} (m : M client A) : M W A := zoom fst (λ z w, (z, w.2)) m.
Definition call {A} (m : M client A) : M W A := interleave ;; on_client m.

(** [async with zookeeper_client.connect() as connection] *)
Definition with_connection {A} (c : nat) (body : M W A) : M W A :=
  _ ← on_client (enter c);
  ((λ w, let '(w1, r) := body w in
         match on_client (exit c) w1 with
         | (w2, Ok _) => (w2, r)
         | (w2, Raise e) => (w2, Raise e)
         end) : M W A).

Definition child_path (path child : string) : string := path +:+ String "/" child.

(** ** [RetrieveDataStep].  The recursion is as deep as the tree: [fuel]. *)
Section steps.
Context (c : nat) (change_watch : nat).

Fixpoint get_data_recursively (fuel : nat) (zk_prefix current_node : string) : M W (list (string * value)) :=
  match fuel with
  | 0 => raise OutOfFuel
  | S fuel' =>
      ex ← call (node_exists zk_prefix);
      if (ex : bool) then
        children ← call (get_children c current_node (Some change_watch));
        collect children (λ child,
          v ← call (get_node c (child_path current_node child) (Some change_watch));
          if decide (v ≠ "") then
            s ← lift_res (decode v);
            mret (child, VStr s)
          else
            items ← get_data_recursively fuel' zk_prefix (child_path current_node child);
            mret (child, VDict items))
      else mret []
  end.

Definition get_result (fuel : nat) (zk_path : string) : M W (list (string * value)) :=
  ex ← call (node_exists zk_path);
  if (ex : bool) then
    items ← get_data_recursively fuel zk_path zk_path;
    mret [(zk_path, VDict items)]
  else mret [].

(** [results.update(result)] *)
Definition update (results result : list (string * value)) : list (string * value) :=
  foldl (λ d kv, dict_set kv.1 kv.2 d) results result.

Fixpoint get_results (fuel : nat) (zk_paths : list string) (results : list (string * value)) : M W (list (string * value)) :=
  match zk_paths with
  | [] => mret results
  | zk_path :: rest =>
      result ← get_result fuel zk_path;
      get_results fuel rest (update results result)
  end.

Definition retrieve_data (fuel : nat) (zk_paths : list string) : M W (list (string * value)) :=
  with_connection c (
    results ← get_results fuel zk_paths [];
    w ← get;
    if has_changed change_watch w.1 then raise TransientException else mret results).

(** ** [RestoreDataStep]: going through the keys of a dictionary and looking
    each one up is going through its items. *)
Fixpoint restore_value (zk_path : string) (v : value) : M W unit :=
  match v with
  | VDict items =>
      call (create c zk_path "") ;;
      (fix restore_items (items : list (string * value)) : M W unit :=
         match items with
         | [] => mret tt
         | (key, v') :: rest => restore_value (child_path zk_path key) v' ;; restore_items rest
         end) items
  | VStr s => if decide (s ≠ "") then call (create c zk_path (encode s)) else mret tt
  end.

Definition restore_data_at (zk_path : string) (data : list (string * value)) (current_node_path : string) : M W unit :=
  match dict_get data current_node_path with
  | Some v => restore_value zk_path v
  | None => mret tt
  end.

(** [FlinkManifest.data]; an empty one is skipped. *)
Definition restore_data (zk_paths : list string) (data : option (list (string * value))) : M W unit :=
  match data with
  | None | Some [] => mret tt
  | Some data => with_connection c (for_each zk_paths (λ zk_path, restore_data_at zk_path data zk_path))
  end.
End steps.

(** [PrepareFlinkManifestStep] and [FlinkManifestStep]: [dict()] and
    [parse_obj], where a missing [data] is the default [{}]. *)
Definition prepare_flink_manifest (results : list (string * value)) : value := VDict [("data", VDict results)].
Definition flink_manifest (plugin_data : value) : res (option (list (string * value))) :=
  match plugin_data with
  | VStr _ => Raise ValueError
  | VDict items =>
      match dict_get items "data" with
      | None => Ok (Some [])
      | Some (VDict data) => Ok (Some data)
      | Some (VStr _) => Raise ValueError
      end
  end.

(** ** Paths *)
Definition good (x : string) : Prop := x ≠ "" ∧ free_of "/"%char x = true.
(** The parts of an absolute path without empty components. *)
Definition canonical (k : Parts) : Prop := ∃ r, k = "" :: r ∧ Forall good r.
Definition all_canonical (s : gmap Parts string) : Prop := ∀ k, is_Some (s !! k) → canonical k.

Lemma canonical_nonempty k : canonical k → k ≠ [].
Proof. by intros (r & -> & _). Qed.

Lemma canonical_snoc k x : canonical k → good x → canonical (k ++ [x]).
Proof. intros (r & -> & Hr) Hx. exists (r ++ [x]). split; [done|]. apply Forall_app. split; [done|by apply Forall_singleton]. Qed.

Lemma canonical_app k r : canonical (k ++ r) → k ≠ [] → canonical k ∧ Forall good r.
Proof.
  intros (l & E & Hl) Hk. destruct k as [|x k]; [done|]. injection E as -> <-. apply Forall_app in Hl as [H1 H2].
  split; [by exists k|done].
Qed.

Lemma path_of_snoc k x : k ≠ [] → path_of (k ++ [x]) = child_path (path_of k) x.
Proof.
  unfold path_of, child_path. induction k as [|y [|y' k] IH]; [done|done|]. intros _.
  change (join_on "/"%char ((y :: y' :: k) ++ [x])) with (y +:+ String "/" (join_on "/"%char ((y' :: k) ++ [x]))).
  rewrite IH by done. change (join_on "/"%char (y :: y' :: k)) with (y +:+ String "/" (join_on "/"%char (y' :: k))).
  exact (string_app_assoc y (String "/" (join_on "/"%char (y' :: k))) (String "/" x)).
Qed.

Lemma rstrip_free ch t : free_of ch t = true → rstrip ch t = t.
Proof.
  induction t as [|a t IH]; [done|]. simpl. intros [Ha Ht]%andb_prop. rewrite IH by done.
  apply negb_true_iff in Ha. rewrite Ha. by destruct t.
Qed.

Lemma rstrip_app ch s t : t ≠ "" → free_of ch t = true → rstrip ch (s +:+ t) = s +:+ t.
Proof.
  intros Hne Ht. induction s as [|a s IH]; [by apply rstrip_free|].
  change (String a s +:+ t) with (String a (s +:+ t)). cbn [rstrip]. rewrite IH.
  destruct s; [|done]. by destruct t.
Qed.

Lemma parse_path_of k : canonical k → parse_path (path_of k) = k.
Proof.
  intros (r & -> & Hr). unfold parse_path. assert (forallb (free_of "/"%char) ("" :: r) = true) as Hfree.
  { apply forallb_forall. intros x [<-|Hx]; [done|]. rewrite Forall_forall in Hr. by apply list_elem_of_In, Hr in Hx as [_ ?]. }
  assert (rstrip "/"%char (path_of ("" :: r)) = path_of ("" :: r)) as ->; [|by apply split_on_join].
  destruct r as [|x r _] using rev_ind; [done|]. apply Forall_app in Hr as [_ [[Hne Hx] _]%Forall_cons].
  change ("" :: r ++ [x]) with (("" :: r) ++ [x]). rewrite path_of_snoc by done. unfold child_path.
  change (String "/" x) with ("/" +:+ x). rewrite string_app_assoc. by apply rstrip_app.
Qed.

Lemma elem_of_children s k x : all_canonical s → k ≠ [] → x ∈ children s k ↔ is_Some (s !! (k ++ [x])).
Proof.
  intros Hs Hk. unfold children. rewrite elem_of_py_sorted, list_elem_of_fmap. split.
  - intros (key & -> & [<- Hkey%elem_of_keys]%list_elem_of_filter).
    destruct key as [|y key _] using rev_ind; [by destruct (canonical_nonempty _ (Hs _ Hkey))|].
    unfold parent. by rewrite removelast_last, last_snoc.
  - intros H. exists (k ++ [x]). rewrite last_snoc. split; [done|]. apply list_elem_of_filter.
    split; [by apply removelast_last|by apply elem_of_keys].
Qed.

Lemma children_NoDup s k : all_canonical s → NoDup (children s k).
Proof.
  intros Hs. unfold children. rewrite py_sorted_Permutation. apply NoDup_fmap_2_strong; [|apply NoDup_filter, NoDup_fst_map_to_list].
  intros a b [Ha1 Ha2%elem_of_keys]%list_elem_of_filter [Hb1 Hb2%elem_of_keys]%list_elem_of_filter E.
  destruct a as [|x a _] using rev_ind; [by destruct (canonical_nonempty _ (Hs _ Ha2))|].
  destruct b as [|y b _] using rev_ind; [by destruct (canonical_nonempty _ (Hs _ Hb2))|].
  unfold parent in *. rewrite removelast_last in *. rewrite !last_snoc in E. simpl in E. by subst.
Qed.

Lemma children_good s k : all_canonical s → k ≠ [] → Forall good (children s k).
Proof.
  intros Hs Hk. apply Forall_forall. intros x Hx%elem_of_children; [|done..].
  apply Hs, canonical_app in Hx as [_ H]; [|done]. by inversion H.
Qed.

(** *** Canonical keys stay canonical *)
Definition request_ok (c : nat) (cr : nat * request) : Prop :=
  cr.1 ≠ c ∧ Forall (λ p, canonical (parse_path p)) (created_paths cr.2).

Lemma create_canonical path v mk s s' r :
  canonical (parse_path path) → create_locked path v mk s = (s', Ok r) → all_canonical s → all_canonical s'.
Proof.
  intros Hp H Hs k Hk. pose proof (create_locked_spec path v mk s) as Hc. cbv zeta in Hc. rewrite H in Hc. destruct r as [p e].
  destruct Hc as (m & Hm & _ & _ & Ha & _). set (parts := parse_path path) in *.
  destruct (decide (Exists (λ j, k = take j parts) (seq (S m) (length parts - m)))) as [He|He].
  - apply Exists_exists in He as (j & Hj & ->). apply elem_of_seq in Hj. rewrite <- (take_drop j parts) in Hp.
    apply canonical_app in Hp as [Hp _]; [done|]. intros E. apply (f_equal length) in E. rewrite length_take in E. simpl in E. lia.
  - rewrite (added_old _ _ _ _ _ _ Ha) in Hk; [by apply Hs|]. intros j Hj Hjn ->. apply He, Exists_exists. exists j.
    split; [apply elem_of_seq; lia|done].
Qed.

Lemma others_canonical c rs z :
  Forall (request_ok c) rs → all_canonical (storage z) → all_canonical (storage (others rs z)).
Proof.
  intros Hrs. apply (others_preserves all_canonical (λ p, canonical (parse_path p))).
  - intros path v mk s s' r. apply create_canonical.
  - intros k v v' s Hk Hs x. destruct (decide (k = x)) as [<-|]; [intros _; apply Hs; by eexists|].
    rewrite lookup_insert_ne by done. apply Hs.
  - intros parts s Hs k. rewrite foldl_delete_lookup. case_decide; [by intros []|]. apply Hs.
  - eapply Forall_impl; [exact Hrs|]. by intros cr [_ H].
Qed.

(** ** What a storage reads as *)
Lemma value_rect' (P : value → Prop) :
  (∀ s, P (VStr s)) → (∀ items, Forall (λ xv, P xv.2) items → P (VDict items)) → ∀ v, P v.
Proof.
  intros Hs Hd. fix IH 1. intros [s|items]; [apply Hs|]. apply Hd.
  induction items as [|[x v] items IHi]; constructor; [apply IH|exact IHi].
Qed.

(** The value is that of the node [k], [K] holding of all the nodes read. *)
Fixpoint reads_child (s : gmap Parts string) (K : Parts → Prop) (k : Parts) (v : value) : Prop :=
  match v with
  | VStr x => s !! k = Some x ∧ x ≠ "" ∧ K k
  | VDict items =>
      s !! k = Some "" ∧ K k ∧ items.*1 = children s k ∧
      (fix reads_items (items : list (string * value)) : Prop :=
         match items with
         | [] => True
         | (x, v') :: rest => reads_child s K (k ++ [x]) v' ∧ reads_items rest
         end) items
  end.

(** The items are the children of the node [k]. *)
Definition reads (s : gmap Parts string) (K : Parts → Prop) (k : Parts) (items : list (string * value)) : Prop :=
  items.*1 = children s k ∧ Forall (λ xv, reads_child s K (k ++ [xv.1]) xv.2) items.

Lemma reads_child_dict s K k items :
  reads_child s K k (VDict items) ↔ s !! k = Some "" ∧ K k ∧ reads s K k items.
Proof.
  cbn [reads_child]. unfold reads.
  assert (∀ l : list (string * value), (fix reads_items (items : list (string * value)) : Prop :=
         match items with
         | [] => True
         | (x, v') :: rest => reads_child s K (k ++ [x]) v' ∧ reads_items rest
         end) l ↔ Forall (λ xv, reads_child s K (k ++ [xv.1]) xv.2) l) as ->; [|tauto].
  induction l as [|[x v] l IH]; [by split|]. rewrite Forall_cons, IH. done.
Qed.

Section retrieval.
Context (c change_watch : nat).

Notation K z := (λ k, watching z c k change_watch).
Notation unfired z := (change_watch ∉ (fired z).*1).

Lemma reads_keeps z z' v : keeps c z z' → unfired z' → ∀ k,
  reads_child (storage z) (K z) k v → reads_child (storage z') (K z') k v.
Proof.
  intros Hk Hun. induction v as [x|items IH] using value_rect'; intros k.
  - intros (Hs & Hx & Hw). destruct (keeps_watch _ _ _ Hk k change_watch Hw) as [|[Hw' [Hv _]]]; [by eexists|done|].
    split; [by rewrite Hv|done].
  - rewrite !reads_child_dict. intros (Hs & Hw & Hch & HF).
    destruct (keeps_watch _ _ _ Hk k change_watch Hw) as [|[Hw' [Hv Hc]]]; [by eexists|done|].
    split; [by rewrite Hv|]. split; [done|]. split; [by rewrite Hc|].
    rewrite Forall_forall in *. intros xv Hin. by apply (IH xv Hin), HF.
Qed.

(** *** The moments of a retrieval

    Between two of its calls the next batch of the other clients is served;
    its own calls write nothing. *)
Inductive move : W → W → Prop :=
| move_others z rs script : move (z, rs :: script) (others rs z, script)
| move_read w w' : storage w'.1 = storage w.1 → w'.2 = w.2 → move w w'.
Definition moves : W → W → Prop := rtc move.

Lemma call_moves {A} (m : M client A) w : (∀ z, storage (fst (m z)) = storage z) → moves w (fst (call m w)).
Proof.
  intros Hm. unfold call. apply (R_bind moves).
  - destruct w as [z [|rs script]]; unfold interleave; cbn; [done|]. apply rtc_once. constructor.
  - intros [] w1. unfold on_client, zoom. pose proof (Hm w1.1) as H. destruct (m w1.1) as [z r]. apply rtc_once. by apply move_read.
Qed.

Lemma connected_storage {A} (m : M client A) z : (storage (fst (m z)) = storage z) → storage (fst ((connected c ;; m) z)) = storage z.
Proof. intros Hm. rewrite connected_run. by case_decide. Qed.
Lemma get_children_storage path watch z : storage (fst (get_children c path watch z)) = storage z.
Proof.
  unfold get_children. apply connected_storage. rewrite (bind_ok get _ z z z) by done.
  destruct (storage z !! parse_path path); [|done]. by destruct watch.
Qed.
Lemma get_node_storage path watch z : storage (fst (get_node c path watch z)) = storage z.
Proof.
  unfold get_node. apply connected_storage. rewrite (bind_ok get _ z z z) by done.
  destruct (storage z !! parse_path path); [|done]. by destruct watch.
Qed.

Lemma get_data_moves fuel prefix current w : moves w (fst (get_data_recursively c change_watch fuel prefix current w)).
Proof.
  revert current w. induction fuel as [|fuel IH]; intros current w; [done|]. cbn [get_data_recursively].
  apply (R_bind moves); [by apply call_moves|]. intros [] w1; [|done].
  apply (R_bind moves); [apply call_moves, get_children_storage|]. intros children w2. apply (R_collect moves). intros child w3.
  apply (R_bind moves); [apply call_moves, get_node_storage|]. intros v w4. case_decide.
  - apply (R_bind moves); [done|]. done.
  - apply (R_bind moves); [apply IH|]. done.
Qed.

Lemma get_result_moves fuel path w : moves w (fst (get_result c change_watch fuel path w)).
Proof.
  unfold get_result. apply (R_bind moves); [by apply call_moves|]. intros [] w1; [|done].
  apply (R_bind moves); [apply get_data_moves|]. done.
Qed.

(** The node did not exist at some moment between [w] and [w']; it was there
    and then it was not. *)
Definition missing (w w' : W) (k : Parts) : Prop := ∃ wm, moves w wm ∧ storage wm.1 !! k = None ∧ moves wm w'.
Definition vanished (w w' : W) (k : Parts) : Prop := ∃ wm, moves w wm ∧ is_Some (storage wm.1 !! k) ∧ missing wm w' k.

Lemma missing_later w w' w2 k : missing w w' k → moves w' w2 → missing w w2 k.
Proof. intros (wm & H1 & H2 & H3) H. exists wm. split; [done|]. split; [done|]. by etrans. Qed.
Lemma missing_earlier w w' w2 k : moves w w' → missing w' w2 k → missing w w2 k.
Proof. intros H (wm & H1 & H2 & H3). exists wm. split; [by etrans|]. done. Qed.
Lemma vanished_later w w' w2 k : vanished w w' k → moves w' w2 → vanished w w2 k.
Proof. intros (wm & H1 & H2 & H3) H. exists wm. split; [done|]. split; [done|]. by eapply missing_later. Qed.

Record ok (w : W) : Prop := {
  ok_open : c ∈ connections w.1;
  ok_script : Forall (Forall (request_ok c)) w.2;
  ok_keys : all_canonical (storage w.1);
}.

Lemma interleave_spec w : ok w → ∃ w1, interleave w = (w1, Ok tt) ∧ ok w1 ∧ keeps c w.1 w1.1.
Proof.
  intros [Ho Hs Hk]. destruct w as [z [|rs script]]; unfold interleave; cbn [fst snd] in *.
  - by exists (z, []).
  - apply Forall_cons in Hs as [Hrs Hs]. exists (others rs z, script). split; [done|].
    assert (keeps c z (others rs z)) as Hke by (apply others_keeps; eapply Forall_impl; [exact Hrs|by intros cr [? _]]).
    split; [|done]. split; [by apply (keeps_open _ _ _ Hke)|done|by eapply others_canonical].
Qed.

(** A call on the connection that changes nothing but the watches. *)
Lemma call_spec {A} (m : M client A) w w' a :
  ok w → (∀ z, keeps c z (m z).1 ∧ storage (m z).1 = storage z) → call m w = (w', Ok a) →
  ∃ z1, keeps c w.1 z1 ∧ c ∈ connections z1 ∧ m z1 = (w'.1, Ok a) ∧ ok w' ∧ keeps c w.1 w'.1.
Proof.
  intros Hok Hm Hc. destruct (interleave_spec w Hok) as (w1 & Hi & [Ho Hs Hk] & Hke). unfold call in Hc.
  rewrite (bind_ok _ _ _ _ _ Hi) in Hc. unfold on_client, zoom in Hc. destruct (Hm w1.1) as [Hkm Hst].
  destruct (m w1.1) as [z' r] eqn:E. cbn [fst snd] in *. injection Hc as <- ->. exists w1.1.
  split; [done|]. split; [done|]. split; [done|]. split; [|by transitivity w1.1].
  split; cbn [fst snd]; [by apply (keeps_open _ _ _ Hkm)|done|by rewrite Hst].
Qed.

Lemma call_exists_spec path w w' b :
  ok w → call (node_exists path) w = (w', Ok b) →
  ok w' ∧ keeps c w.1 w'.1 ∧ b = bool_decide (is_Some (storage w'.1 !! parse_path path)).
Proof.
  intros Hok Hc. apply call_spec in Hc as (z1 & _ & _ & Hm & Hok' & Hk); [|done|by intros z].
  split; [done|]. split; [done|]. by injection Hm as <- <-.
Qed.

Lemma watching_added z k : c ∈ connections z → watching (add_watch c k (Some change_watch) z) c k change_watch.
Proof. intros Hc. split; [done|]. cbn. rewrite lookup_insert_eq. apply elem_of_app. right. by left. Qed.

Lemma get_children_run path watch z :
  c ∈ connections z → get_children c path watch z =
    match storage z !! parse_path path with
    | None => (z, Raise (ZooKeeperError NoNode))
    | Some _ => (add_watch c (parse_path path) watch z, Ok (children (storage z) (parse_path path)))
    end.
Proof.
  intros Hc. unfold get_children. rewrite connected_run, decide_True by done. rewrite (bind_ok get _ z z z) by done.
  by destruct (storage z !! parse_path path).
Qed.

Lemma get_node_run path watch z :
  c ∈ connections z → get_node c path watch z =
    match storage z !! parse_path path with
    | None => (z, Raise (ZooKeeperError NoNode))
    | Some v => (add_watch c (parse_path path) watch z, Ok v)
    end.
Proof.
  intros Hc. unfold get_node. rewrite connected_run, decide_True by done. rewrite (bind_ok get _ z z z) by done.
  by destruct (storage z !! parse_path path).
Qed.

Lemma add_watch_storage k watch z : storage (add_watch c k watch z) = storage z.
Proof. by destruct watch. Qed.

Lemma call_children_spec k w w' l :
  ok w → canonical k → call (get_children c (path_of k) (Some change_watch)) w = (w', Ok l) →
  ok w' ∧ keeps c w.1 w'.1 ∧ is_Some (storage w'.1 !! k) ∧ l = children (storage w'.1) k ∧ watching w'.1 c k change_watch.
Proof.
  intros Hok Hcan Hc. apply call_spec in Hc as (z1 & _ & Ho & Hm & Hok' & Hk); [|done|].
  - rewrite get_children_run, parse_path_of in Hm by done. destruct (storage z1 !! k) as [v|] eqn:E; [|done].
    injection Hm as Hw' <-. split; [done|]. split; [done|]. rewrite <- Hw'. cbn [storage add_watch]. rewrite E. split; [by eexists|].
    split; [done|by apply watching_added].
  - intros z. unfold get_children. rewrite connected_run. case_decide; [|done]. rewrite (bind_ok get _ z z z) by done.
    destruct (storage z !! _); [split; [apply add_watch_keeps|done]|done].
Qed.

Lemma call_get_spec k w w' v :
  ok w → canonical k → call (get_node c (path_of k) (Some change_watch)) w = (w', Ok v) →
  ok w' ∧ keeps c w.1 w'.1 ∧ storage w'.1 !! k = Some v ∧ watching w'.1 c k change_watch.
Proof.
  intros Hok Hcan Hc. apply call_spec in Hc as (z1 & _ & Ho & Hm & Hok' & Hk); [|done|].
  - rewrite get_node_run, parse_path_of in Hm by done. destruct (storage z1 !! k) as [v'|] eqn:E; [|done].
    injection Hm as Hw' <-. split; [done|]. split; [done|]. rewrite <- Hw'. split; [done|by apply watching_added].
  - intros z. unfold get_node. rewrite connected_run. case_decide; [|done]. rewrite (bind_ok get _ z z z) by done.
    destruct (storage z !! _); [split; [apply add_watch_keeps|done]|done].
Qed.

(** The prefix exists and is watched: its deletion would not go unnoticed. *)
Definition held (kp : Parts) (z : client) : Prop := watching z c kp change_watch ∧ is_Some (storage z !! kp).

Lemma held_keeps kp z z' : keeps c z z' → unfired z' → held kp z → held kp z'.
Proof.
  intros Hk Hun [Hw He]. destruct (keeps_watch _ _ _ Hk kp change_watch Hw He) as [|[Hw' [Hv _]]]; [done|].
  split; [done|by rewrite Hv].
Qed.

Lemma unfired_before z z' : keeps c z z' → unfired z' → unfired z.
Proof. intros Hk Hun Hf. by apply Hun, (keeps_fired _ _ _ Hk). Qed.

Lemma rec_bind_ok {A B} (m : M W A) (f : A → M W B) w w' b :
  (m ≫= f) w = (w', Ok b) → ∃ w1 a, m w = (w1, Ok a) ∧ f a w1 = (w', Ok b).
Proof. apply bind_inv_ok. Qed.

(** One child of the node [k]; [rec] reads the node below. *)
Section children.
Context (kp : Parts) (rec : string → M W (list (string * value))).

Definition rec_reads : Prop := ∀ k w w' items,
  ok w → canonical k → rec (path_of k) w = (w', Ok items) →
  ok w' ∧ keeps c w.1 w'.1 ∧
  (unfired w'.1 → held kp w.1 → watching w'.1 c k change_watch ∧ reads (storage w'.1) (K w'.1) k items).

Definition read_child (k : Parts) (child : string) : M W (string * value) :=
  v ← call (get_node c (child_path (path_of k) child) (Some change_watch));
  if decide (v ≠ "") then
    s ← lift_res (decode v);
    mret (child, VStr s)
  else
    items ← rec (child_path (path_of k) child);
    mret (child, VDict items).

Lemma decode_ok v s : decode v = Ok s → s = v.
Proof. unfold decode. destruct (valid_utf8 v); congruence. Qed.

Lemma read_child_spec k child w w' xv :
  rec_reads → ok w → canonical k → good child → read_child k child w = (w', Ok xv) →
  ok w' ∧ keeps c w.1 w'.1 ∧ xv.1 = child ∧
  (unfired w'.1 → held kp w.1 → reads_child (storage w'.1) (K w'.1) (k ++ [xv.1]) xv.2).
Proof.
  intros Hrec Hok Hk Hg Hrun. unfold read_child in Hrun. rewrite <- path_of_snoc in Hrun by by apply canonical_nonempty.
  assert (canonical (k ++ [child])) as Hkc by by apply canonical_snoc.
  apply rec_bind_ok in Hrun as (w1 & v & Hget & Hrun). apply call_get_spec in Hget as (Hok1 & Hke1 & Hv & Hw); [|done..].
  case_decide as Hne.
  - apply rec_bind_ok in Hrun as (w2 & s & Hd & Hrun). injection Hd as <- Hd. apply decode_ok in Hd as ->.
    injection Hrun as <- <-. done.
  - assert (v = "") as -> by (destruct (decide (v = "")); tauto).
    apply rec_bind_ok in Hrun as (w2 & items & Hr & Hrun). injection Hrun as <- <-.
    apply Hrec in Hr as (Hok2 & Hke2 & Hreads); [|done..]. split; [done|]. split; [by transitivity w1.1|]. split; [done|].
    intros Hun Hh. cbn [fst snd]. rewrite reads_child_dict.
    destruct (Hreads Hun) as [Hw2 HR]; [by eapply held_keeps, Hh; [done|eapply unfired_before]|].
    split; [|done]. destruct (keeps_watch _ _ _ Hke2 _ _ Hw) as [|[_ [Hv2 _]]]; [by eexists|done|by rewrite Hv2].
Qed.

Lemma read_children_spec k children w w' items :
  rec_reads → ok w → canonical k → Forall good children → collect children (read_child k) w = (w', Ok items) →
  ok w' ∧ keeps c w.1 w'.1 ∧ items.*1 = children ∧
  (unfired w'.1 → held kp w.1 → Forall (λ xv, reads_child (storage w'.1) (K w'.1) (k ++ [xv.1]) xv.2) items).
Proof.
  intros Hrec Hok Hk Hg. revert w items Hok. induction Hg as [|child children Hc Hg IH]; intros w items Hok Hrun.
  { injection Hrun as <- <-. split; [done|]. split; [done|]. split; [done|]. constructor. }
  cbn [collect] in Hrun. apply rec_bind_ok in Hrun as (w1 & xv & H1 & Hrun).
  apply rec_bind_ok in Hrun as (w2 & xvs & H2 & Hrun). injection Hrun as <- <-.
  apply read_child_spec in H1 as (Hok1 & Hke1 & Hx & Hr1); [|done..]. apply IH in H2 as (Hok2 & Hke2 & Hxs & Hr2); [|done].
  split; [done|]. split; [by transitivity w1.1|]. split; [csimpl; by rewrite Hx, Hxs|]. intros Hun Hh.
  assert (unfired w1.1) as Hun1 by by eapply unfired_before. constructor.
  - eapply reads_keeps; [exact Hke2|done|]. by apply Hr1.
  - apply Hr2; [done|]. by eapply held_keeps.
Qed.
End children.

Lemma get_data_spec fuel kp k w w' items :
  ok w → canonical kp → canonical k →
  get_data_recursively c change_watch fuel (path_of kp) (path_of k) w = (w', Ok items) →
  ok w' ∧ keeps c w.1 w'.1 ∧
  (unfired w'.1 → (held kp w.1 → watching w'.1 c k change_watch ∧ reads (storage w'.1) (K w'.1) k items) ∧
                  (k = kp → items = [] ∧ missing w w' kp ∨ held kp w'.1 ∧ reads (storage w'.1) (K w'.1) k items)).
Proof.
  intros Hok Hkp. revert k w w' items Hok. induction fuel as [|fuel IH]; intros k w w' items Hok Hk Hrun; [done|].
  cbn [get_data_recursively] in Hrun. apply rec_bind_ok in Hrun as (w1 & ex & Hex & Hrun).
  pose proof (call_moves (node_exists (path_of kp)) w ltac:(done)) as Hmv. rewrite Hex in Hmv. cbn [fst] in Hmv.
  apply call_exists_spec in Hex as (Hok1 & Hke1 & ->); [|done]. rewrite parse_path_of in Hrun by done.
  destruct (bool_decide _) eqn:Eex.
  - apply rec_bind_ok in Hrun as (w2 & l & Hl & Hrun).
    apply call_children_spec in Hl as (Hok2 & Hke2 & Hs & -> & Hw); [|done..].
    assert (rec_reads kp (get_data_recursively c change_watch fuel (path_of kp))) as Hrec.
    { intros k' v v' items' Hok' Hk' Hr. apply IH in Hr as (H1 & H2 & H3); [|done..]. split; [done|]. split; [done|].
      intros Hun Hh. by apply H3. }
    apply (read_children_spec kp _ k) in Hrun as (Hok3 & Hke3 & Hx & Hr);
      [|done..|apply children_good; [apply (ok_keys _ Hok2)|by apply canonical_nonempty]].
    split; [done|]. split; [by transitivity w1.1; [|transitivity w2.1]|]. intros Hun.
    assert (unfired w2.1) as Hun2 by by eapply unfired_before.
    destruct (keeps_watch _ _ _ Hke3 k change_watch Hw Hs) as [|[Hw' [Hv Hc]]]; [done|]. split.
    + intros Hh. split; [done|]. split; [by rewrite Hc|]. apply Hr; [done|]. eapply held_keeps; [exact Hke2|done|].
      eapply held_keeps; [exact Hke1| |done]. by eapply unfired_before.
    + intros ->. right. split; [split; [done|by rewrite Hv]|]. split; [by rewrite Hc|]. by apply Hr.
  - injection Hrun as <- <-. split; [done|]. split; [done|]. intros Hun. split.
    2: { intros _. left. split; [done|]. exists w1. split; [done|]. split; [|done]. by apply bool_decide_eq_false, eq_None_not_Some in Eex. }
    intros Hh. apply (held_keeps _ _ _ Hke1 Hun) in Hh as [_ Hh]. apply bool_decide_eq_false in Eex. done.
Qed.

Lemma reads_mono s (K1 K2 : Parts → Prop) v : (∀ k, K1 k → K2 k) → ∀ k, reads_child s K1 k v → reads_child s K2 k v.
Proof.
  intros HK. induction v as [x|items IH] using value_rect'; intros k; [intros (? & ? & ?); repeat split; auto|].
  rewrite !reads_child_dict. intros (Hs & Hw & Hch & HF). split; [done|]. split; [auto|]. split; [done|].
  rewrite Forall_forall in *. intros xv Hin. by apply (IH xv Hin), HF.
Qed.

(** A result for a path: what is stored there, or empty when the path vanished
    since [w0], before it was watched. *)
Definition top_reads (w0 w : W) (p : string) (v : value) : Prop :=
  ∃ k items, p = path_of k ∧ canonical k ∧ v = VDict items ∧
    (items = [] ∧ vanished w0 w k ∨ held k w.1 ∧ reads (storage w.1) (K w.1) k items).

Lemma top_reads_keeps w0 w w' p v : keeps c w.1 w'.1 → moves w w' → unfired w'.1 → top_reads w0 w p v → top_reads w0 w' p v.
Proof.
  intros Hk Hmv Hun (k & items & Hp & Hc & Hv & HR). exists k, items. split; [done|]. split; [done|]. split; [done|].
  destruct HR as [[-> Hva]|[[Hw Hs] [Hch HF]]]; [left; split; [done|by eapply vanished_later]|right].
  destruct (keeps_watch _ _ _ Hk k change_watch Hw Hs) as [|[Hw' [Hv' Hc']]]; [done|].
  split; [split; [done|by rewrite Hv']|]. split; [by rewrite Hc'|].
  eapply Forall_impl; [exact HF|]. intros xv. by apply reads_keeps.
Qed.

Lemma get_result_spec fuel k w w' result :
  ok w → canonical k → get_result c change_watch fuel (path_of k) w = (w', Ok result) →
  ok w' ∧ keeps c w.1 w'.1 ∧
  (result = [] ∧ missing w w' k ∨
   ∃ items, result = [(path_of k, VDict items)] ∧ (unfired w'.1 → top_reads w w' (path_of k) (VDict items))).
Proof.
  intros Hok Hk Hrun. unfold get_result in Hrun. apply rec_bind_ok in Hrun as (w1 & ex & Hex & Hrun).
  pose proof (call_moves (node_exists (path_of k)) w ltac:(done)) as Hmv. rewrite Hex in Hmv. cbn [fst] in Hmv.
  apply call_exists_spec in Hex as (Hok1 & Hke1 & ->); [|done]. rewrite parse_path_of in Hrun by done. destruct (bool_decide _) eqn:Eex.
  - apply bool_decide_eq_true in Eex. apply rec_bind_ok in Hrun as (w2 & items & Hd & Hrun). injection Hrun as <- <-.
    apply get_data_spec in Hd as (Hok2 & Hke2 & Hr); [|done..]. split; [done|]. split; [by transitivity w1.1|].
    right. exists items. split; [done|]. intros Hun. exists k, items. split; [done|]. split; [done|]. split; [done|].
    destruct (Hr Hun) as [_ [[-> Hmi]|H]]; [done| |by right]. left. split; [done|]. by exists w1.
  - apply bool_decide_eq_false, eq_None_not_Some in Eex. injection Hrun as <- <-. split; [done|]. split; [done|]. left. split; [done|]. by exists w1.
Qed.

Lemma dict_get_update results p v q :
  dict_get (update results [(p, v)]) q = if decide (p = q) then Some v else dict_get results q.
Proof.
  cbn [update foldl fst snd]. unfold dict_set. case_decide as H; [subst q; by rewrite dict_get_alter_eq|by rewrite dict_get_alter_ne].
Qed.

Lemma get_results_spec fuel paths w0 w w' results0 results :
  ok w → moves w0 w → Forall (λ p, ∃ k, canonical k ∧ p = path_of k) paths →
  get_results c change_watch fuel paths results0 w = (w', Ok results) →
  ok w' ∧ keeps c w.1 w'.1 ∧ moves w w' ∧
  (∀ k, canonical k → path_of k ∈ paths → is_Some (dict_get results (path_of k)) ∨ missing w w' k) ∧
  (∀ p, is_Some (dict_get results0 p) → is_Some (dict_get results p)) ∧
  (∀ p, is_Some (dict_get results p) → is_Some (dict_get results0 p) ∨ p ∈ paths) ∧
  (unfired w'.1 → (∀ p v, dict_get results0 p = Some v → top_reads w0 w p v) → ∀ p v, dict_get results p = Some v → top_reads w0 w' p v).
Proof.
  intros Hok Hm0 Hps. revert w results0 Hok Hm0. induction Hps as [|p paths (k & Hk & ->) _ IH]; intros w results0 Hok Hm0 Hrun.
  { injection Hrun as <- <-. split; [done|]. split; [done|]. split; [done|]. split; [intros ? ? []%not_elem_of_nil|]. split; [done|]. split; [by left|auto]. }
  cbn [get_results] in Hrun. apply rec_bind_ok in Hrun as (w1 & result & H1 & Hrun).
  pose proof (get_result_moves fuel (path_of k) w) as Hmv. rewrite H1 in Hmv. cbn [fst] in Hmv.
  apply get_result_spec in H1 as (Hok1 & Hke1 & Hres); [|done..].
  apply IH in Hrun as (Hok2 & Hke2 & Hmv2 & Hmiss & Hold & Hdom & Hrest); [|done|by etrans].
  split; [done|]. split; [by transitivity w1.1|]. split; [by etrans|]. split; [|split; [|split]].
  - intros k' Hk' [Hp|Hp]%elem_of_cons.
    + assert (k' = k) as -> by by rewrite <- (parse_path_of k'), <- (parse_path_of k), Hp.
      destruct Hres as [[-> Hmi]|(items & -> & _)]; [right; by eapply missing_later|left].
      apply Hold. rewrite dict_get_update, decide_True by done. by eexists.
    + destruct (Hmiss k' Hk' Hp) as [?|?]; [by left|right; by eapply missing_earlier].
  - intros p Hp. apply Hold. destruct Hres as [[-> _]|(items & -> & _)]; [done|]. rewrite dict_get_update. by case_decide.
  - intros p Hp. destruct (Hdom p Hp) as [H|H]; [|right; by right]. destruct Hres as [[-> _]|(items & -> & _)]; [by left|].
    rewrite dict_get_update in H. case_decide; [right; subst; by left|by left].
  - intros Hun H0. apply Hrest; [done|].
    assert (unfired w1.1) as Hun1 by by eapply unfired_before. intros p v Hv.
    destruct Hres as [[-> _]|(items & -> & Hr)]; [cbn [update foldl] in Hv; by eapply top_reads_keeps, H0|].
    rewrite dict_get_update in Hv. case_decide as Hkp; [subst p; injection Hv as <-|by eapply top_reads_keeps, H0].
    destruct (Hr Hun1) as (k' & items' & Hp & Hc & Hv & HR). exists k', items'. split; [done|]. split; [done|]. split; [done|].
    destruct HR as [[-> (wm & Ha & Hb & Hc')]|HR]; [left; split; [done|]|by right]. exists wm. split; [by etrans|]. done.
Qed.

Lemma exit_storage z z' r : exit c z = (z', r) → storage z' = storage z.
Proof.
  unfold exit. rewrite (bind_ok get _ z z z) by done. destruct (list_find _ _) as [[i x]|]; by intros [= <- _].
Qed.

Lemma with_connection_ok {A} (body : M W A) w w' a :
  with_connection c body w = (w', Ok a) →
  ∃ w1, body ((enter c w.1).1, w.2) = (w1, Ok a) ∧ storage w'.1 = storage w1.1 ∧ w'.2 = w1.2.
Proof.
  unfold with_connection. destruct w as [z script].
  erewrite (bind_ok (on_client (enter c)) _ _ _ tt) by (unfold on_client, zoom; cbn; reflexivity). cbn [fst snd enter modify].
  destruct (body _) as [w1 r]. unfold on_client, zoom. destruct (exit c w1.1) as [z2 [[]|e]] eqn:Ex; [|done].
  intros [= <- ->]. exists w1. split; [done|]. split; [by apply exit_storage in Ex|done].
Qed.

(** What is backed up is consistent, whatever other clients do meanwhile.
    When their requests are interleaved with the retrieval - any batch of
    reads, creations, updates, deletions and transactions before each call -
    and the retrieval succeeds, that is no watch has fired, then for each
    of the paths, and for nothing else, there are three cases.  The result is the tree that
    ZooKeeper holds there at the end: the same children in order, the values of the leaves,
    at every level.  Or there is no result, and the path did not exist at some moment of the retrieval.
    Or the result is empty: the path did exist, and then did not, at two moments of
    the retrieval, so it was deleted after it was first seen to exist
    and before it was watched. *)
Theorem retrieve_consistent (fuel : nat) (paths : list string) (w w' : W) (results : list (string * value)) :
  Forall (λ p, ∃ k, canonical k ∧ p = path_of k) paths →
  Forall (Forall (request_ok c)) w.2 → all_canonical (storage w.1) →
  retrieve_data c change_watch fuel paths w = (w', Ok results) →
  moves w w' ∧ (∀ p, is_Some (dict_get results p) → p ∈ paths) ∧
  ∀ k, canonical k → path_of k ∈ paths →
    match dict_get results (path_of k) with
    | None => missing w w' k
    | Some v => ∃ items, v = VDict items ∧
        (is_Some (storage w'.1 !! k) ∧ reads (storage w'.1) (λ _, True) k items ∨ items = [] ∧ vanished w w' k)
    end.
Proof.
  intros Hps Hscript Hkeys Hrun. apply with_connection_ok in Hrun as (w1 & Hbody & Hst & Hsc).
  apply rec_bind_ok in Hbody as (w2 & results' & Hres & Hbody). rewrite (bind_ok get _ w2 w2 w2) in Hbody by done.
  destruct (has_changed change_watch w2.1) eqn:Ech; [done|]. injection Hbody as <- ->.
  assert (moves w ((enter c w.1).1, w.2)) as Hm0 by (by apply rtc_once, move_read).
  assert (moves w2 w') as Hm2 by (by apply rtc_once, move_read).
  apply bool_decide_eq_false in Ech.
  apply (get_results_spec fuel paths w) in Hres as (_ & _ & Hm1 & Hmiss & _ & Hdom & HR); [|split; [apply elem_of_app; right; by left|done|done]|done|done].
  split; [by etrans; [|etrans]|]. split.
  { intros p Hp. apply Hdom in Hp as [Hp|Hp]; [by destruct Hp|done]. }
  intros k Hk Hkp. destruct (dict_get results (path_of k)) as [v|] eqn:Ev.
  - destruct (HR Ech ltac:(done) _ _ Ev) as (k' & items & Hp & Hk' & -> & Hr). exists items. split; [done|].
    assert (k' = k) as -> by by rewrite <- (parse_path_of k'), <- (parse_path_of k), Hp.
    destruct Hr as [[-> Hva]|[[_ Hs] [Hch HF]]]; [right; split; [done|by eapply vanished_later]|left]. rewrite Hst. split; [done|]. split; [done|].
    eapply Forall_impl; [exact HF|]. intros xv. by apply reads_mono.
  - destruct (Hmiss k Hk Hkp) as [[v Hv]|Hmi]; [congruence|]. eapply missing_earlier; [exact Hm0|]. by eapply missing_later.
Qed.
End retrieval.

(** ** Without interference *)
Section quiet.
Context (c change_watch : nat).
Notation T := (λ _ : Parts, True).

Lemma call_quiet {A} (m : M client A) z z' r : m z = (z', r) → call m (z, []) = ((z', []), r).
Proof. intros H. unfold call, interleave, on_client, zoom, mbind, M_bind. cbn. by rewrite H. Qed.

(** States that differ at most by their watches. *)
Definition like (z : client) (w : W) : Prop :=
  w.2 = [] ∧ connections w.1 = connections z ∧ storage w.1 = storage z ∧ fired w.1 = fired z.

Lemma like_call_get z w k v :
  like z w → c ∈ connections z → canonical k → storage z !! k = Some v →
  ∃ w', call (get_node c (path_of k) (Some change_watch)) w = (w', Ok v) ∧ like z w'.
Proof.
  intros (Hw & Hc & Hs & Hf) Ho Hk Hv. destruct w as [z1 script]. cbn in *. subst script. eexists. split.
  - apply call_quiet. rewrite get_node_run, parse_path_of by (done || by rewrite Hc). by rewrite Hs, Hv.
  - by split.
Qed.

Lemma like_call_children z w k :
  like z w → c ∈ connections z → canonical k → is_Some (storage z !! k) →
  ∃ w', call (get_children c (path_of k) (Some change_watch)) w = (w', Ok (children (storage z) k)) ∧ like z w'.
Proof.
  intros (Hw & Hc & Hs & Hf) Ho Hk [v Hv]. destruct w as [z1 script]. cbn in *. subst script. eexists. split.
  - apply call_quiet. rewrite get_children_run, parse_path_of by (done || by rewrite Hc). by rewrite Hs, Hv.
  - by split.
Qed.

Lemma like_call_exists z w k :
  like z w → canonical k → call (node_exists (path_of k)) w = (w, Ok (bool_decide (is_Some (storage z !! k)))).
Proof.
  intros (Hw & Hc & Hs & Hf) Hk. destruct w as [z1 script]. cbn in *. subst script. apply call_quiet.
  unfold node_exists. rewrite (bind_ok get _ z1 z1 z1) by done. by rewrite parse_path_of, Hs.
Qed.

Lemma get_data_total fuel kp k z w :
  like z w → c ∈ connections z → all_canonical (storage z) → canonical kp → is_Some (storage z !! kp) →
  canonical k → is_Some (storage z !! k) →
  (∀ rel v, storage z !! (k ++ rel) = Some v → length rel < fuel ∧ valid_utf8 v = true) →
  ∃ w' items, get_data_recursively c change_watch fuel (path_of kp) (path_of k) w = (w', Ok items) ∧ like z w' ∧
    reads (storage z) T k items.
Proof.
  intros Hl Ho Hall Hkp Hskp. revert k w Hl. induction fuel as [|fuel IH]; intros k w Hl Hk Hs Hf.
  { destruct Hs as [v Hv]. destruct (Hf [] v) as [Hlt _]; [by rewrite app_nil_r|lia]. }
  cbn [get_data_recursively]. erewrite bind_ok by by apply like_call_exists. rewrite bool_decide_true by done.
  destruct (like_call_children z w k) as (w1 & Hc1 & Hl1); [done..|]. erewrite bind_ok by exact Hc1.
  pose proof (children_good _ k Hall (canonical_nonempty _ Hk)) as Hgood. rewrite Forall_forall in Hgood.
  match goal with |- context [collect _ ?f] => destruct (collect_inv (like z)
    (λ child xv, xv.1 = child ∧ reads_child (storage z) T (k ++ [child]) xv.2) (children (storage z) k) f w1 Hl1) as (w' & items & Hrun & Hl' & HF) end.
  - intros child w2 Hchild Hl2. pose proof (Hgood _ Hchild) as Hg. apply elem_of_children in Hchild as [v Hv]; [|done|by apply canonical_nonempty].
    rewrite <- path_of_snoc by by apply canonical_nonempty.
    assert (canonical (k ++ [child])) as Hkc by by apply canonical_snoc.
    destruct (like_call_get z w2 (k ++ [child]) v) as (w3 & Hget & Hl3); [done..|]. erewrite bind_ok by exact Hget.
    case_decide as Hne.
    + destruct (Hf [child] v Hv) as [_ Hutf]. unfold decode. rewrite Hutf. by exists w3, (child, VStr v).
    + assert (v = "") as -> by (destruct (decide (v = "")); tauto).
      destruct (IH (k ++ [child]) w3) as (w4 & items & Hrec & Hl4 & Hreads); [done|done|by eexists| |].
      { intros rel v Hrel. rewrite <- app_assoc in Hrel. destruct (Hf _ _ Hrel) as [Hlt ?]. simpl in Hlt. split; [lia|done]. }
      erewrite bind_ok by exact Hrec. exists w4, (child, VDict items). split; [done|]. split; [done|]. split; [done|].
      by apply reads_child_dict.
  - exists w', items. split; [exact Hrun|]. split; [done|]. split.
    + clear -HF. induction HF as [|x xv l l2 [<- _] _ IH]; [done|]. csimpl. by rewrite IH.
    + clear -HF. induction HF as [|x xv l k' [<- H] _ IH]; by constructor.
Qed.

Lemma path_of_inj k k' : canonical k → canonical k' → path_of k = path_of k' → k = k'.
Proof. intros Hk Hk' E. by rewrite <- (parse_path_of k), <- (parse_path_of k'), E. Qed.

(** The trees that are backed up. *)
Definition flink_tree (fuel : nat) (s : gmap Parts string) (k : Parts) : Prop :=
  (is_Some (s !! k) → s !! k = Some "") ∧
  ∀ rel v, s !! (k ++ rel) = Some v → length rel < fuel ∧ valid_utf8 v = true ∧
    (v ≠ "" → ∀ rel', rel' ≠ [] → s !! (k ++ rel ++ rel') = None).

Lemma get_results_total fuel ks z w results0 :
  like z w → c ∈ connections z → all_canonical (storage z) → NoDup ks →
  Forall (λ k, canonical k ∧ flink_tree fuel (storage z) k) ks →
  ∃ w' results, get_results c change_watch fuel (path_of <$> ks) results0 w = (w', Ok results) ∧ like z w' ∧
    (∀ k, k ∈ ks → if decide (is_Some (storage z !! k))
       then ∃ items, dict_get results (path_of k) = Some (VDict items) ∧ reads (storage z) T k items
       else dict_get results (path_of k) = dict_get results0 (path_of k)) ∧
    (∀ p, p ∉ path_of <$> ks → dict_get results p = dict_get results0 p).
Proof.
  intros Hl Ho Hall Hnd HF. revert w results0 Hl Hnd.
  induction HF as [|k ks [Hk Ht] HF IH]; intros w results0 Hl Hnd.
  { exists w, results0. split; [done|]. split; [done|]. split; [by intros k ?%not_elem_of_nil|done]. }
  apply NoDup_cons in Hnd as [Hni Hnd]. assert (path_of k ∉ path_of <$> ks) as Hpi.
  { intros (k' & E & Hin)%list_elem_of_fmap. rewrite Forall_forall in HF. destruct (HF k' Hin) as [Hk' _].
    apply path_of_inj in E as ->; done. }
  assert (∃ w1 result, get_result c change_watch fuel (path_of k) w = (w1, Ok result) ∧ like z w1 ∧
    if decide (is_Some (storage z !! k)) then ∃ items, result = [(path_of k, VDict items)] ∧ reads (storage z) T k items else result = [])
    as (w1 & result & Hrun & Hl1 & Hres).
  { unfold get_result. erewrite bind_ok by by apply like_call_exists. case_decide as Hs.
    - rewrite bool_decide_true by done. destruct (get_data_total fuel k k z w) as (w1 & items & Hrun & Hl1 & Hr); [done..| |].
      { intros rel v Hv. by destruct (proj2 Ht rel v Hv) as (? & ? & _). }
      erewrite bind_ok by exact Hrun. exists w1, [(path_of k, VDict items)]. split; [done|]. split; [done|]. by exists items.
    - rewrite bool_decide_false by done. by exists w, []. }
  csimpl. cbn [get_results]. erewrite bind_ok by exact Hrun.
  destruct (IH w1 (update results0 result) Hl1 Hnd) as (w' & results & Hrun' & Hl' & Hin & Hout).
  exists w', results. split; [exact Hrun'|]. split; [done|].
  assert (∀ p, p ≠ path_of k → dict_get (update results0 result) p = dict_get results0 p) as Hupd.
  { intros p Hp. case_decide; [destruct Hres as (items & -> & _)|by rewrite Hres]. cbn. by apply dict_get_alter_ne. }
  split.
  - intros k' [->|Hk']%elem_of_cons.
    + rewrite (Hout (path_of k) Hpi). case_decide; [|by rewrite Hres].
      destruct Hres as (items & -> & Hr). exists items. split; [|done]. cbn. by apply dict_get_alter_eq.
    + specialize (Hin k' Hk'). case_decide; [done|]. rewrite Hin. apply Hupd. intros E. apply Hpi. rewrite <- E. by apply list_elem_of_fmap_2.
  - intros p [Hp1 Hp2]%not_elem_of_cons. rewrite Hout by done. by apply Hupd.
Qed.

(** *** Writing a tree *)
Lemma create_quiet k v z :
  canonical k → c ∈ connections z → storage z !! k = None →
  ∃ z', call (create c (path_of k) v) (z, []) = ((z', []), Ok tt) ∧ connections z' = connections z ∧
    storage z' !! k = Some v ∧
    (∀ key, is_Some (storage z !! key) → storage z' !! key = storage z !! key) ∧
    (∀ key, key ≠ k → is_Some (storage z !! parent k) ∨ ¬ key `prefix_of` k → storage z' !! key = storage z !! key).
Proof.
  intros Hk Ho Hno. pose proof (create_locked_spec (path_of k) v true (storage z)) as Hs. cbv zeta in Hs.
  rewrite parse_path_of in Hs by done. destruct (create_locked (path_of k) v true (storage z)) as [s [[p ev]|e]] eqn:E.
  2: { destruct Hs as [(_ & [v' Hv'] & _)|[? _]]; [congruence|done]. }
  destruct Hs as (m & Hm & -> & Hex & Ha & _). exists (trigger (take m k) ev (with_storage s z)).
  pose proof (trigger_spec (take m k) ev (with_storage s z)) as (Hst & Hco & _). rewrite Hst, Hco. cbn [storage with_storage connections].
  split; [|split; [done|split; [|split]]].
  - apply call_quiet. unfold create. rewrite connected_run, decide_True by done.
    by rewrite (bind_ok _ _ _ _ _ (zk_on_storage_run _ _ _ _ E)).
  - destruct (added_new _ _ _ _ _ _ Ha (length k)) as [_ H]; [lia..|]. rewrite firstn_all in H. by rewrite decide_True in H.
  - intros key. by eapply added_keeps.
  - intros key Hne Hor. apply (added_old _ _ _ _ _ _ Ha). intros j Hj Hjk ->.
    assert (j ≠ length k) as Hjn by (intros ->; by rewrite firstn_all in Hne). destruct Hor as [Hp|Hnp].
    + destruct (added_new _ _ _ _ _ _ Ha (length k - 1)) as [H _]; [lia..|].
      rewrite <- parent_take, firstn_all in H by lia. rewrite H in Hp. by destruct Hp.
    + apply Hnp. exists (drop j k). by rewrite take_drop.
Qed.

(** The node below the root of a tree. *)
Fixpoint at_path (v : value) (rel : Parts) : option string :=
  match v, rel with
  | VStr x, [] => Some x
  | VStr _, _ :: _ => None
  | VDict _, [] => Some ""
  | VDict items, x :: rel' =>
      (fix go (items : list (string * value)) : option string :=
         match items with
         | [] => None
         | (y, v') :: rest => if decide (y = x) then at_path v' rel' else go rest
         end) items
  end.

Lemma at_path_dict items x rel : at_path (VDict items) (x :: rel) = dict_get items x ≫= λ v, at_path v rel.
Proof. cbn [at_path]. induction items as [|[y v] items IH]; [done|]. cbn [dict_get]. by case_decide. Qed.

Fixpoint writable (v : value) : Prop :=
  match v with
  | VStr x => x ≠ ""
  | VDict items => NoDup items.*1 ∧
      (fix go (items : list (string * value)) : Prop :=
         match items with [] => True | (x, v') :: rest => good x ∧ writable v' ∧ go rest end) items
  end.

Lemma writable_dict items :
  writable (VDict items) ↔ NoDup items.*1 ∧ Forall (λ xv, good xv.1 ∧ writable xv.2) items.
Proof.
  cbn [writable]. assert (∀ l : list (string * value), (fix go (items : list (string * value)) : Prop :=
    match items with [] => True | (x, v') :: rest => good x ∧ writable v' ∧ go rest end) l ↔
    Forall (λ xv, good xv.1 ∧ writable xv.2) l) as ->; [|done].
  induction l as [|[x v] l IH]; [by split|]. rewrite Forall_cons, IH. cbn. tauto.
Qed.

(** Writing [v] at [k], where nothing is yet. *)
Definition restores (k : Parts) (v : value) : Prop := ∀ z,
  canonical k → c ∈ connections z → (∀ rel, storage z !! (k ++ rel) = None) →
  ∃ z', restore_value c (path_of k) v (z, []) = ((z', []), Ok tt) ∧ connections z' = connections z ∧
    (∀ rel, storage z' !! (k ++ rel) = at_path v rel) ∧
    (∀ key, is_Some (storage z !! key) → storage z' !! key = storage z !! key) ∧
    (∀ key, ¬ k `prefix_of` key → is_Some (storage z !! parent k) ∨ ¬ key `prefix_of` k → storage z' !! key = storage z !! key).

Fixpoint restore_items (zk_path : string) (items : list (string * value)) : M W unit :=
  match items with
  | [] => mret tt
  | (key, v') :: rest => restore_value c (child_path zk_path key) v' ;; restore_items zk_path rest
  end.

Lemma restore_value_dict zk_path items w :
  restore_value c zk_path (VDict items) w = (call (create c zk_path "") ;; restore_items zk_path items) w.
Proof.
  cbn [restore_value]. unfold mbind, M_bind. destruct (call _ w) as [w1 [[]|e]]; [|done].
  revert w1. induction items as [|[x v] items IH]; intros w1; [done|]. cbn [restore_items].
  unfold mbind, M_bind in *. destruct (restore_value _ _ _ w1) as [w2 [[]|e]]; [apply IH|done].
Qed.

Lemma restore_items_spec k items z :
  canonical k → c ∈ connections z → is_Some (storage z !! k) → NoDup items.*1 →
  Forall (λ xv, good xv.1 ∧ restores (k ++ [xv.1]) xv.2) items →
  (∀ x rel, x ∈ items.*1 → storage z !! (k ++ x :: rel) = None) →
  ∃ z', restore_items (path_of k) items (z, []) = ((z', []), Ok tt) ∧ connections z' = connections z ∧
    (∀ x rel, x ∈ items.*1 → storage z' !! (k ++ x :: rel) = dict_get items x ≫= λ v, at_path v rel) ∧
    (∀ key, (∀ x rel, x ∈ items.*1 → key ≠ k ++ x :: rel) → storage z' !! key = storage z !! key).
Proof.
  intros Hk Ho Hs Hnd HF. revert z Ho Hs. induction HF as [|[x v] items [Hg Hv] HF IH]; intros z Ho Hs Hno.
  { exists z. split; [done|]. split; [done|]. split; [by intros x rel ?%not_elem_of_nil|done]. }
  csimpl in Hnd. csimpl in Hno. apply NoDup_cons in Hnd as [Hni Hnd]. cbn [fst snd] in *.
  destruct (Hv z) as (z1 & Hrun & Hc1 & Hat & Hold & Hfr); [by apply canonical_snoc|done| |].
  { intros rel. rewrite <- app_assoc. apply Hno. by left. }
  assert (∀ key, ¬ (k ++ [x]) `prefix_of` key → storage z1 !! key = storage z !! key) as Hfr'.
  { intros key Hkey. apply Hfr; [done|]. left. unfold parent. by rewrite removelast_last. }
  assert (∀ y rel, y ≠ x → ¬ (k ++ [x]) `prefix_of` (k ++ y :: rel)) as Hpre.
  { intros y rel Hne [l Hl]. rewrite <- app_assoc in Hl. apply app_inv_head in Hl. cbn in Hl. congruence. }
  destruct (IH Hnd z1) as (z' & Hrun' & Hc' & Hat' & Hfr2); [by rewrite Hc1|by rewrite Hold| |].
  { intros y rel Hy. rewrite Hfr'; [apply Hno; by right|]. apply Hpre. by intros ->. }
  exists z'. split; [|split; [by rewrite Hc'|split]].
  - cbn [restore_items]. rewrite <- path_of_snoc by by apply canonical_nonempty. by erewrite bind_ok by exact Hrun.
  - intros y rel Hy. cbn [dict_get]. destruct (decide (x = y)) as [<-|Hne].
    + cbn [mbind option_bind]. rewrite <- Hat, <- app_assoc. apply Hfr2. intros y' rel' Hy' E.
      apply app_inv_head in E. cbn in E. injection E as <- _. done.
    + apply Hat'. csimpl in Hy. apply elem_of_cons in Hy as [->|Hy]; [done|done].
  - intros key Hkey. rewrite Hfr2; [|intros y rel Hy; apply Hkey; by right]. apply Hfr'. intros [l ->].
    apply (Hkey x l); [by left|by rewrite <- app_assoc].
Qed.

Lemma restore_value_spec v : writable v → ∀ k, restores k v.
Proof.
  induction v as [x|items IH] using value_rect'; intros Hw k z Hk Ho Hno.
  - cbn [restore_value]. rewrite decide_True by exact Hw.
    destruct (create_quiet k (encode x) z) as (z' & Hrun & Hc & Hnew & Hold & Hfr); [done|done|by rewrite <- (Hno []), app_nil_r|].
    exists z'. split; [done|]. split; [done|]. split; [|split; [done|]].
    + intros [|y rel]; [by rewrite app_nil_r|]. cbn [at_path]. rewrite Hfr; [done| |].
      * intros E. apply (f_equal length) in E. rewrite length_app in E. simpl in E. lia.
      * right. intros [l E]. apply (f_equal length) in E. rewrite !length_app in E. simpl in E. lia.
    + intros key Hkey Hor. apply Hfr; [intros ->; by apply Hkey|done].
  - apply writable_dict in Hw as [Hnd HF].
    destruct (create_quiet k "" z) as (z1 & Hrun & Hc & Hnew & Hold & Hfr); [done|done|by rewrite <- (Hno []), app_nil_r|].
    assert (∀ x rel, storage z1 !! (k ++ x :: rel) = None) as Hno1.
    { intros x rel. rewrite Hfr; [done| |].
      - intros E. apply (f_equal length) in E. rewrite length_app in E. simpl in E. lia.
      - right. intros [l E]. apply (f_equal length) in E. rewrite !length_app in E. simpl in E. lia. }
    destruct (restore_items_spec k items z1) as (z' & Hrun' & Hc' & Hat & Hfr2); [done|by rewrite Hc|by rewrite Hnew|done| |done|].
    { rewrite Forall_forall in *. intros xv Hin. destruct (HF xv Hin). split; [done|]. by apply (IH xv Hin). }
    assert (∀ key, ¬ k `prefix_of` key → storage z' !! key = storage z1 !! key) as Hfr3.
    { intros key Hkey. apply Hfr2. intros x rel _ ->. apply Hkey. by exists (x :: rel). }
    exists z'. split; [rewrite restore_value_dict; by erewrite bind_ok by exact Hrun|]. split; [by rewrite Hc'|]. split; [|split].
    + intros [|x rel].
      * rewrite app_nil_r. cbn [at_path]. rewrite Hfr2; [done|]. intros x rel _ E.
        apply (f_equal length) in E. rewrite length_app in E. simpl in E. lia.
      * rewrite at_path_dict. destruct (decide (x ∈ items.*1)) as [Hx|Hx]; [by apply Hat|].
        rewrite (proj2 (dict_get_None items x) Hx). cbn. rewrite Hfr2; [done|]. intros y rel' Hy E.
        apply app_inv_head in E. injection E as <- _. done.
    + intros key Hkey. assert (¬ k `prefix_of` key) as Hnp by (intros [l ->]; rewrite Hno in Hkey; by destruct Hkey).
      rewrite Hfr3 by done. by apply Hold.
    + intros key Hkey Hor. rewrite Hfr3 by done. apply Hfr; [intros ->; by apply Hkey|done].
Qed.

Lemma reads_child_writable s v : all_canonical s → ∀ k, k ≠ [] → reads_child s T k v → writable v.
Proof.
  intros Hall. induction v as [x|items IH] using value_rect'; intros k Hk; [by intros (_ & Hx & _)|].
  rewrite reads_child_dict, writable_dict. intros (_ & _ & Hch & HF). split; [rewrite Hch; by apply children_NoDup|].
  pose proof (children_good s k Hall Hk) as Hg. rewrite <- Hch, Forall_forall in Hg. rewrite Forall_forall in *. intros xv Hin. split.
  - by apply Hg, list_elem_of_fmap_2.
  - apply (IH xv Hin (k ++ [xv.1])); [by destruct k|by apply HF].
Qed.

Lemma absent_below s k rel : well_formed s → k ≠ [] → s !! k = None → s !! (k ++ rel) = None.
Proof.
  intros Hwf Hk Hno. induction rel as [|x rel IH] using rev_ind; [by rewrite app_nil_r|].
  destruct (s !! (k ++ rel ++ [x])) as [v|] eqn:E; [|done]. exfalso.
  destruct (Hwf (k ++ rel ++ [x])) as [_ Hp]; [by eexists|]. rewrite app_assoc in Hp. unfold parent in Hp.
  rewrite removelast_last, IH in Hp. destruct Hp as [v' [=]]. rewrite !length_app. destruct k; [done|simpl; lia].
Qed.

Lemma reads_child_at_path s v : all_canonical s → well_formed s → ∀ k rel,
  k ≠ [] → (∀ r x, s !! (k ++ r) = Some x → x ≠ "" → ∀ r', r' ≠ [] → s !! (k ++ r ++ r') = None) →
  reads_child s T k v → s !! (k ++ rel) = at_path v rel.
Proof.
  intros Hall Hwf. induction v as [x|items IH] using value_rect'; intros k rel Hk Hleaf.
  - intros (Hs & Hx & _). destruct rel as [|y rel]; [by rewrite app_nil_r|]. cbn [at_path].
    apply (Hleaf [] x); [by rewrite app_nil_r|done|done].
  - rewrite reads_child_dict. intros (Hs & _ & Hch & HF). destruct rel as [|x rel]; [by rewrite app_nil_r|].
    rewrite at_path_dict, (app_assoc k [x] rel : k ++ x :: rel = _). destruct (dict_get items x) as [v|] eqn:E; cbn.
    + apply dict_get_elem_of in E; [|rewrite Hch; by apply children_NoDup].
      rewrite Forall_forall in HF, IH. apply (IH (x, v) E); [by destruct k| |by apply (HF _ E)].
      intros r y Hy Hne r' Hr'. rewrite <- app_assoc in *. by apply (Hleaf ([x] ++ r) y).
    + apply dict_get_None in E. apply absent_below; [done|by destruct k|]. rewrite Hch in E.
      destruct (s !! (k ++ [x])) eqn:Ex; [|done]. exfalso. apply E, elem_of_children; [done..|by eexists].
Qed.

(** What restoring under several paths does. *)
Definition apart (k k' : Parts) : Prop := ¬ k `prefix_of` k' ∧ ¬ k' `prefix_of` k.

Lemma restore_all (f : Parts → M W unit) (s : gmap Parts string) ks z :
  ForallOrdPairs apart ks →
  Forall (λ k, ∀ z, c ∈ connections z → (∀ rel, storage z !! (k ++ rel) = None) →
    ∃ z', f k (z, []) = ((z', []), Ok tt) ∧ connections z' = connections z ∧
      (∀ rel, storage z' !! (k ++ rel) = s !! (k ++ rel)) ∧
      (∀ key, is_Some (storage z !! key) → storage z' !! key = storage z !! key) ∧
      (∀ key, apart k key → storage z' !! key = storage z !! key)) ks →
  c ∈ connections z → (∀ k rel, k ∈ ks → storage z !! (k ++ rel) = None) →
  ∃ z', for_each ks f (z, []) = ((z', []), Ok tt) ∧ connections z' = connections z ∧
    (∀ k rel, k ∈ ks → storage z' !! (k ++ rel) = s !! (k ++ rel)) ∧
    (∀ key, is_Some (storage z !! key) → storage z' !! key = storage z !! key) ∧
    (∀ key, Forall (λ k, apart k key) ks → storage z' !! key = storage z !! key).
Proof.
  intros Hap HF. revert z Hap. induction HF as [|k ks Hk HF IH]; intros z Hap Ho Hno.
  { exists z. split; [done|]. split; [done|]. split; [by intros k rel ?%not_elem_of_nil|done]. }
  inversion Hap as [|? ? Hapk Hap']; subst.
  destruct (Hk z Ho) as (z1 & Hrun & Hc1 & Hat1 & Hold1 & Hfr1); [intros rel; apply Hno; by left|].
  assert (∀ k' rel, k' ∈ ks → apart k (k' ++ rel) ∧ apart k' (k ++ rel)) as Hext.
  { intros k' rel Hin. rewrite Forall_forall in Hapk. destruct (Hapk k' Hin) as [H1 H2]. unfold apart.
    split; split; intros Hp.
    - destruct (prefix_weak_total k k' (k' ++ rel)); [done|by apply prefix_app_r|done|done].
    - apply H2. by eapply prefix_app_l.
    - destruct (prefix_weak_total k k' (k ++ rel)); [by apply prefix_app_r|done|done|done].
    - apply H1. by eapply prefix_app_l. }
  destruct (IH z1 Hap') as (z' & Hrun' & Hc' & Hat' & Hold' & Hfr').
  { by rewrite Hc1. }
  { intros k' rel Hin. rewrite Hfr1; [apply Hno; by right|]. by apply Hext. }
  exists z'. split; [cbn [for_each]; by erewrite bind_ok by exact Hrun|]. split; [by rewrite Hc'|]. split; [|split].
  - intros k' rel [->|Hin]%elem_of_cons; [|by apply Hat']. rewrite <- Hat1. apply Hfr'.
    apply Forall_forall. intros k2 Hin. by apply Hext.
  - intros key Hkey. rewrite Hold'; [by apply Hold1|]. by rewrite Hold1.
  - intros key [Hkk Hkey]%Forall_cons. rewrite Hfr' by done. by apply Hfr1.
Qed.

Lemma with_connection_run {A} (body : M W A) z z1 r :
  body ((enter c z).1, []) = ((z1, []), r) → c ∈ connections z1 →
  ∃ z2, with_connection c body (z, []) = ((z2, []), r) ∧ storage z2 = storage z1 ∧ fired z2 = fired z1.
Proof.
  intros Hb Ho. unfold with_connection.
  erewrite (bind_ok (on_client (enter c)) _ _ _ tt) by (unfold on_client, zoom; cbn; reflexivity).
  cbn [fst snd enter modify] in *. rewrite Hb. unfold on_client, zoom, exit. cbn [fst snd].
  rewrite (bind_ok get _ z1 z1 z1) by done. destruct (list_find _ _) as [[i x]|] eqn:E.
  - by eexists.
  - exfalso. apply list_find_None in E. rewrite Forall_forall in E. by apply (E c).
Qed.

Lemma for_each_fmap {S A B} (g : A → B) (f : B → M S unit) l : for_each (g <$> l) f = for_each l (λ x, f (g x)).
Proof. induction l as [|x l IH]; [done|]. csimpl. cbn [for_each]. by rewrite IH. Qed.

Lemma apart_NoDup ks : ForallOrdPairs apart ks → NoDup ks.
Proof.
  induction 1 as [|k ks Hk _ IH]; constructor; [|done]. intros Hin. rewrite Forall_forall in Hk.
  by destruct (Hk k Hin) as [[] _].
Qed.

Lemma retrieve_quiet fuel ks z :
  all_canonical (storage z) → change_watch ∉ (fired z).*1 → ForallOrdPairs apart ks →
  Forall (λ k, canonical k ∧ flink_tree fuel (storage z) k) ks →
  ∃ z' results, retrieve_data c change_watch fuel (path_of <$> ks) (z, []) = ((z', []), Ok results) ∧
    storage z' = storage z ∧
    (∀ k, k ∈ ks → if decide (is_Some (storage z !! k))
       then ∃ items, dict_get results (path_of k) = Some (VDict items) ∧ reads (storage z) T k items
       else dict_get results (path_of k) = None).
Proof.
  intros Hall Hun Hap HF. set (z0 := (enter c z).1).
  destruct (get_results_total fuel ks z0 (z0, []) []) as ([z1 script] & results & Hrun & (Hs1 & Hc1 & Hst1 & Hf1) & Hin & _);
    [by split|apply elem_of_app; right; by left|done|by apply apart_NoDup|done|].
  cbn [fst snd] in *. subst script.
  assert ((r ← get_results c change_watch fuel (path_of <$> ks) [];
           w ← get; if has_changed change_watch w.1 then raise TransientException else mret r) (z0, []) = ((z1, []), Ok results)) as Hbody.
  { erewrite bind_ok by exact Hrun. erewrite (bind_ok get) by done. cbn [fst]. unfold has_changed.
    rewrite bool_decide_false by (by rewrite Hf1). done. }
  destruct (with_connection_run _ z z1 (Ok results) Hbody) as (z2 & Hw & Hst & _).
  { rewrite Hc1. apply elem_of_app. right. by left. }
  exists z2, results. split; [exact Hw|]. split; [by rewrite Hst, Hst1|exact Hin].
Qed.

(** Backup and restore of Flink's tables.  When nobody interferes, the
    retrieval of the trees below the given paths succeeds, the manifest it is
    put into gives the same data back, and writing it to a ZooKeeper where
    nothing is stored below those paths recreates every node of the trees with
    its value and nothing else below the paths, leaving every other existing
    node as it was.  The paths are absolute and none is below another one; in
    the trees only leaves have values, which are valid UTF-8. *)
Theorem flink_roundtrip (fuel : nat) (ks : list Parts) (zs zt : client) :
  well_formed (storage zs) → all_canonical (storage zs) → change_watch ∉ (fired zs).*1 →
  ForallOrdPairs apart ks → Forall (λ k, canonical k ∧ flink_tree fuel (storage zs) k) ks →
  (∀ k rel, k ∈ ks → storage zt !! (k ++ rel) = None) →
  ∃ zs' results data zt',
    retrieve_data c change_watch fuel (path_of <$> ks) (zs, []) = ((zs', []), Ok results) ∧
    storage zs' = storage zs ∧
    flink_manifest (prepare_flink_manifest results) = Ok data ∧
    restore_data c (path_of <$> ks) data (zt, []) = ((zt', []), Ok tt) ∧
    (∀ k rel, k ∈ ks → storage zt' !! (k ++ rel) = storage zs !! (k ++ rel)) ∧
    (∀ key, is_Some (storage zt !! key) → storage zt' !! key = storage zt !! key).
Proof.
  intros Hwf Hall Hun Hap HF Hno. destruct (retrieve_quiet fuel ks zs) as (zs' & results & Hret & Hst & Hres); [done..|].
  exists zs', results, (Some results). rewrite Forall_forall in HF.
  assert (∀ k rel, k ∈ ks → storage zs !! k = None → storage zs !! (k ++ rel) = None) as Habs.
  { intros k rel Hin. apply absent_below; [done|]. by apply canonical_nonempty, HF. }
  assert (Forall (λ k, ∀ z, c ∈ connections z → (∀ rel, storage z !! (k ++ rel) = None) →
    ∃ z', restore_data_at c (path_of k) results (path_of k) (z, []) = ((z', []), Ok tt) ∧ connections z' = connections z ∧
      (∀ rel, storage z' !! (k ++ rel) = storage zs !! (k ++ rel)) ∧
      (∀ key, is_Some (storage z !! key) → storage z' !! key = storage z !! key) ∧
      (∀ key, apart k key → storage z' !! key = storage z !! key)) ks) as Hone.
  { apply Forall_forall. intros k Hin z Ho Hz. destruct (HF k Hin) as [Hk [Htop Ht]].
    pose proof (canonical_nonempty _ Hk) as Hkne. specialize (Hres k Hin). unfold restore_data_at. case_decide as Hs.
    - destruct Hres as (items & -> & Hr).
      assert (reads_child (storage zs) T k (VDict items)) as Hrc by (rewrite reads_child_dict; split; [by apply Htop|done]).
      destruct (restore_value_spec (VDict items)) with k z as (z' & Hrun & Hc & Hat & Hold & Hfr); [by eapply reads_child_writable|done..|].
      exists z'. split; [exact Hrun|]. split; [done|]. split; [|split; [done|]].
      + intros rel. rewrite Hat. symmetry. apply (reads_child_at_path _ _ Hall Hwf); [done| |done].
        intros r x Hx Hne. by apply (Ht r x Hx).
      + intros key [H1 H2]. apply Hfr; [done|by right].
    - rewrite Hres. exists z. split; [done|]. split; [done|]. split; [|done]. intros rel. rewrite Hz. symmetry.
      apply Habs; [done|]. destruct (storage zs !! k); [|done]. by destruct Hs; eexists. }
  destruct (restore_all (λ k, restore_data_at c (path_of k) results (path_of k)) (storage zs) ks (enter c zt).1)
    as (z1 & Hrun & Hc1 & Hat & Hold & _); [done|done|apply elem_of_app; right; by left|done|].
  rewrite <- (for_each_fmap path_of (λ p, restore_data_at c p results p)) in Hrun.
  destruct (with_connection_run _ zt z1 (Ok tt) Hrun) as (z2 & Hw & Hst2 & _); [rewrite Hc1; apply elem_of_app; right; by left|].
  destruct results as [|kv results].
  - exists zt. split; [done|]. split; [done|]. split; [done|]. split; [done|]. split; [|done].
    intros k rel Hin. rewrite Hno by done. symmetry. apply Habs; [done|]. specialize (Hres k Hin).
    case_decide as Hs; [by destruct Hres as (items & [=] & _)|]. destruct (storage zs !! k); [by destruct Hs; eexists|done].
  - exists z2. split; [done|]. split; [done|]. split; [done|]. split; [exact Hw|]. rewrite Hst2. split; [exact Hat|exact Hold].
Qed.
End quiet.

(** ** Examples *)
Definition example_requests : list (nat * request) :=
  [(2, Enter); (2, Create "/catalog/db/t1" "CREATE TABLE"); (2, Create "/catalog/db/empty" ""); (2, Create "/other" "x")].
Definition example_source : client := others example_requests initial.
Definition catalog : Parts := ["";"catalog"].

Lemma example_requests_ok c : c ≠ 2 → Forall (request_ok c) example_requests.
Proof.
  intros Hc. repeat constructor; try done.
  - exists ["catalog";"db";"t1"]. split; [done|]. by repeat constructor.
  - exists ["catalog";"db";"empty"]. split; [done|]. by repeat constructor.
  - exists ["other"]. split; [done|]. by repeat constructor.
Qed.

Lemma example_canonical : all_canonical (storage example_source).
Proof.
  apply (others_canonical 1); [by apply example_requests_ok|]. intros k [v Hk].
  cbn in Hk. apply lookup_singleton_Some in Hk as [<- _]. by exists [].
Qed.

(** An unrelated node is created while the catalog is read. *)
Definition example_script : list (list (nat * request)) := [[]; [(2, Create "/other/y" "z")]].
Definition example_results : list (string * value) :=
  [("/catalog", VDict [("db", VDict [("empty", VDict []); ("t1", VStr "CREATE TABLE")])])].

Lemma retrieve_consistent_witness :
  let r := retrieve_data 1 9 4 ["/catalog"] (example_source, example_script) in
  snd r = Ok example_results ∧ moves (example_source, example_script) (fst r) ∧ (∀ p, is_Some (dict_get example_results p) → p ∈ ["/catalog"]) ∧
  ∀ k, canonical k → path_of k ∈ ["/catalog"] →
    match dict_get example_results (path_of k) with
    | None => missing (example_source, example_script) (fst r) k
    | Some v => ∃ items, v = VDict items ∧
        (is_Some (storage (fst r).1 !! k) ∧ reads (storage (fst r).1) (λ _, True) k items ∨
         items = [] ∧ vanished (example_source, example_script) (fst r) k)
    end.
Proof.
  intros r. assert (snd r = Ok example_results) as Hr by (vm_compute; reflexivity). split; [exact Hr|].
  apply (retrieve_consistent 1 9 4 ["/catalog"] (example_source, example_script) (fst r) example_results).
  - apply Forall_singleton. exists catalog. split; [|reflexivity]. exists ["catalog"]. split; [done|]. by repeat constructor.
  - constructor; [constructor|]. constructor; [|constructor]. constructor; [|constructor]. split; [done|].
    apply Forall_singleton. exists ["other";"y"]. split; [done|]. by repeat constructor.
  - apply example_canonical.
  - fold r. destruct r as [w' x]. cbn in Hr. by rewrite Hr.
Defined.

Definition example_nodes : list (Parts * string) :=
  [([""], ""); (["";"other"], "x"); (["";"catalog"], ""); (["";"catalog";"db"], ""); (["";"catalog";"db";"empty"], "");
   (["";"catalog";"db";"t1"], "CREATE TABLE")].

Lemma example_storage : storage example_source = list_to_map example_nodes.
Proof. apply (bool_decide_unpack _). vm_compute. exact I. Qed.

Lemma example_lookup k v : storage example_source !! k = Some v → (k, v) ∈ example_nodes.
Proof. rewrite example_storage. apply elem_of_list_to_map_2. Qed.

Lemma example_tree : flink_tree 4 (storage example_source) catalog.
Proof.
  split; [rewrite example_storage; done|]. intros rel v Hv%example_lookup. unfold example_nodes in Hv.
  repeat (apply elem_of_cons in Hv as [Hv|Hv]); try (by apply not_elem_of_nil in Hv); injection Hv; intros; subst; try discriminate;
    (split; [simpl; lia|split; [reflexivity|intros Hne rel' Hr']]); try done.
  destruct (storage example_source !! _) as [v|] eqn:E; [|done]. apply example_lookup in E. unfold example_nodes in E.
  repeat (apply elem_of_cons in E as [E|E]); try (by apply not_elem_of_nil in E); injection E; intros; try discriminate; by subst.
Qed.

Lemma flink_roundtrip_witness :
  (∃ zs' results data zt',
    retrieve_data 1 9 4 ["/catalog"] (example_source, []) = ((zs', []), Ok results) ∧
    storage zs' = storage example_source ∧
    flink_manifest (prepare_flink_manifest results) = Ok data ∧
    restore_data 1 ["/catalog"] data (initial, []) = ((zt', []), Ok tt) ∧
    (∀ k rel, k ∈ [catalog] → storage zt' !! (k ++ rel) = storage example_source !! (k ++ rel)) ∧
    (∀ key, is_Some (storage initial !! key) → storage zt' !! key = storage initial !! key)) ∧
  snd (retrieve_data 1 9 4 ["/catalog"] (example_source, [])) = Ok example_results.
Proof.
  split; [|vm_compute; reflexivity]. apply (flink_roundtrip 1 9 4 [catalog] example_source initial).
  - apply (others_preserves well_formed (λ _, True)); [intros path v mk s s' r _; apply create_locked_wf|apply set_wf|apply delete_wf| |].
    + apply Forall_forall. intros cr _. by apply Forall_forall.
    + intros k [v Hk]. cbn in Hk. apply lookup_singleton_Some in Hk as [<- _]. split; [done|]. simpl. lia.
  - apply example_canonical.
  - vm_compute. intros H. inversion H.
  - repeat constructor.
  - apply Forall_singleton. split; [exists ["catalog"]; split; [done|by repeat constructor]|apply example_tree].
  - intros k rel ->%list_elem_of_singleton. apply lookup_singleton_ne. discriminate.
Defined.

(** A table that is dropped while the catalog is read makes the backup fail,
    with a transient exception ... *)
Example concurrent_drop_detected :
  snd (retrieve_data 1 9 4 ["/catalog"] (example_source, replicate 4 [] ++ [[(2, Delete "/catalog/db/t1" false)]])) =
    Raise TransientException.
Proof. vm_compute. reflexivity. Qed.

(** ... but the deletion of the whole catalog between the two checks that it
    exists is backed up as an empty catalog. *)
Example concurrent_delete_missed :
  snd (retrieve_data 1 9 4 ["/catalog"] (example_source, [[]; [(2, Delete "/catalog" true)]])) = Ok [("/catalog", VDict [])].
Proof. vm_compute. reflexivity. Qed.
End Flink.
