(* ===== verification/Steps.v ===== *)
(** * Steps and their runner ([StepsContext] of [coordinator/plugins/base.py],
      [SteppedCoordinatorOp] of [coordinator/coordinator.py],
      [coordinator/manifest.py])

    A coordinator operation is a list of steps run in order under the cluster
    lock; a step reads the results of earlier steps from the context and acts
    on the world: the two object storages, the nodes, the clock and the
    status of the operation. *)

From stdpp Require Import base gmap strings list.
From Stdlib Require Import ZArith Lia Strings.Byte.
From S2P Require Import Prelude Progress Ipc Storage Op CassModel ChParts ChManifest Etcd ZooKeeper Flink.

Local Open Scope Z_scope.

(** ** Step classes, the keys of [StepsContext.step_results] *)
Inductive StepClass : Type :=
| cls_SnapshotStep | cls_ListHexdigestsStep | cls_UploadBlocksStep | cls_SnapshotClearStep
| cls_SnapshotReleaseStep | cls_UploadManifestStep | cls_BackupNameStep | cls_BackupManifestStep
| cls_MapNodesStep | cls_RestoreStep | cls_ListBackupsStep | cls_ListDeltaBackupsStep
| cls_DeltaManifestsStep | cls_RestoreDeltasStep | cls_ComputeKeptBackupsStep
| cls_DeleteBackupManifestsStep | cls_DeleteBackupAndDeltaManifestsStep | cls_DeleteDanglingHexdigestsStep
| cls_plugin (name : string).
#[global] Instance StepClass_eq_dec : EqDecision StepClass. Proof. solve_decision. Defined.

(** The results steps return. *)
Inductive StepValue : Type :=
| VNone
| VStrings (X : gset string)
| VMins (l : list ManifestMin)
| VSnapshots (l : list SnapshotResult)
| VUploads (l : list SnapshotUploadResult)
| VNodeResults (l : list NodeResult)
| VName (name : string)
| VManifest (m : BackupManifest)
| VManifests (l : list BackupManifest)
| VNodeMap (l : list (option nat))
| VPluginData (json : string)
| VHash (h : string)
| VNodes (l : list CoordinatorNode)
| VCassandraManifest (m : CassModel.CassandraManifest)
| VAccessEntities (l : list ChParts.AccessEntity)
| VDatabasesAndTables (databases : list ChManifest.ReplicatedDatabase) (tables : list ChParts.Table)
| VMacros (l : list (gmap (list N) (list Byte.byte)))
| VObjectStorageFiles (l : list ChManifest.ClickHouseObjectStorageFiles)
| VClickHouseManifest (m : ChManifest.ClickHouseManifest)
| VDatabasesReplicas (l : list (list Byte.byte * list ChManifest.DatabaseReplica))
| VVersions (l : list (Z * Z))
| VEtcdDump (d : Etcd.ETCDDump)
| VFlinkData (data : list (string * Flink.value))
| VFlinkManifest (data : option (list (string * Flink.value))).

Definition is_VNone (v : StepValue) : bool := match v with VNone => true | _ => false end.

(** ** [StepsContext] *)
Record StepsContext : Type := mkStepsContext {
  attempt : Z;
  attempt_start : Z;
  step_results : list (StepClass * StepValue);
}.

Definition get_result (ctx : StepsContext) (c : StepClass) : res StepValue :=
  match dict_get (step_results ctx) c with Some v => Ok v | None => Raise KeyError end.

Definition set_result (c : StepClass) (v : StepValue) (ctx : StepsContext) : res StepsContext :=
  let ok := Ok (mkStepsContext (attempt ctx) (attempt_start ctx) (dict_set c v (step_results ctx))) in
  match dict_get (step_results ctx) c with
  | Some old => if negb (is_VNone old) || negb (is_VNone v) then Raise RuntimeError else ok
  | None => ok
  end.

(** Typed access: Python would fail on the first use of a value of another
    type; [TypeError] stands for that failure. *)
Definition get_strings (ctx : StepsContext) (c : StepClass) : res (gset string) :=
  get_result ctx c ≫= λ v, match v with VStrings X => Ok X | _ => Raise TypeError end.
Definition get_mins (ctx : StepsContext) (c : StepClass) : res (list ManifestMin) :=
  get_result ctx c ≫= λ v, match v with VMins X => Ok X | _ => Raise TypeError end.
Definition get_snapshots (ctx : StepsContext) (c : StepClass) : res (list SnapshotResult) :=
  get_result ctx c ≫= λ v, match v with VSnapshots X => Ok X | _ => Raise TypeError end.
Definition get_uploads (ctx : StepsContext) (c : StepClass) : res (list SnapshotUploadResult) :=
  get_result ctx c ≫= λ v, match v with VUploads X => Ok X | _ => Raise TypeError end.
Definition get_name (ctx : StepsContext) (c : StepClass) : res string :=
  get_result ctx c ≫= λ v, match v with VName X => Ok X | _ => Raise TypeError end.
Definition get_manifest (ctx : StepsContext) (c : StepClass) : res BackupManifest :=
  get_result ctx c ≫= λ v, match v with VManifest X => Ok X | _ => Raise TypeError end.
Definition get_manifests (ctx : StepsContext) (c : StepClass) : res (list BackupManifest) :=
  get_result ctx c ≫= λ v, match v with VManifests X => Ok X | _ => Raise TypeError end.
Definition get_node_map (ctx : StepsContext) (c : StepClass) : res (list (option nat)) :=
  get_result ctx c ≫= λ v, match v with VNodeMap X => Ok X | _ => Raise TypeError end.
Definition get_plugin_data (ctx : StepsContext) (c : StepClass) : res string :=
  get_result ctx c ≫= λ v, match v with VPluginData X => Ok X | _ => Raise TypeError end.

Definition get_hash (ctx : StepsContext) (c : StepClass) : res string :=
  get_result ctx c ≫= λ v, match v with VHash X => Ok X | _ => Raise TypeError end.
Definition get_nodes (ctx : StepsContext) (c : StepClass) : res (list CoordinatorNode) :=
  get_result ctx c ≫= λ v, match v with VNodes X => Ok X | _ => Raise TypeError end.
Definition get_cassandra_manifest (ctx : StepsContext) (c : StepClass) : res CassModel.CassandraManifest :=
  get_result ctx c ≫= λ v, match v with VCassandraManifest X => Ok X | _ => Raise TypeError end.

Definition get_access_entities (ctx : StepsContext) (c : StepClass) : res (list ChParts.AccessEntity) :=
  get_result ctx c ≫= λ v, match v with VAccessEntities X => Ok X | _ => Raise TypeError end.
Definition get_databases_and_tables (ctx : StepsContext) (c : StepClass) : res (list ChManifest.ReplicatedDatabase * list ChParts.Table) :=
  get_result ctx c ≫= λ v, match v with VDatabasesAndTables X Y => Ok (X, Y) | _ => Raise TypeError end.
Definition get_macros (ctx : StepsContext) (c : StepClass) : res (list (gmap (list N) (list Byte.byte))) :=
  get_result ctx c ≫= λ v, match v with VMacros X => Ok X | _ => Raise TypeError end.
Definition get_object_storage_files (ctx : StepsContext) (c : StepClass) : res (list ChManifest.ClickHouseObjectStorageFiles) :=
  get_result ctx c ≫= λ v, match v with VObjectStorageFiles X => Ok X | _ => Raise TypeError end.
Definition get_clickhouse_manifest (ctx : StepsContext) (c : StepClass) : res ChManifest.ClickHouseManifest :=
  get_result ctx c ≫= λ v, match v with VClickHouseManifest X => Ok X | _ => Raise TypeError end.
Definition get_databases_replicas_result (ctx : StepsContext) (c : StepClass) : res (list (list Byte.byte * list ChManifest.DatabaseReplica)) :=
  get_result ctx c ≫= λ v, match v with VDatabasesReplicas X => Ok X | _ => Raise TypeError end.
Definition get_versions (ctx : StepsContext) (c : StepClass) : res (list (Z * Z)) :=
  get_result ctx c ≫= λ v, match v with VVersions X => Ok X | _ => Raise TypeError end.

Definition get_etcd_dump_result (ctx : StepsContext) (c : StepClass) : res Etcd.ETCDDump :=
  get_result ctx c ≫= λ v, match v with VEtcdDump X => Ok X | _ => Raise TypeError end.
Definition get_optional_etcd_dump (ctx : StepsContext) (c : StepClass) : res (option Etcd.ETCDDump) :=
  get_result ctx c ≫= λ v, match v with VEtcdDump X => Ok (Some X) | VNone => Ok None | _ => Raise TypeError end.
Definition get_flink_data (ctx : StepsContext) (c : StepClass) : res (list (string * Flink.value)) :=
  get_result ctx c ≫= λ v, match v with VFlinkData X => Ok X | _ => Raise TypeError end.
Definition get_flink_manifest (ctx : StepsContext) (c : StepClass) : res (option (list (string * Flink.value))) :=
  get_result ctx c ≫= λ v, match v with VFlinkManifest X => Ok X | _ => Raise TypeError end.

(** ** The world steps act on

    [w_json] and [w_hex] are the two object storages, [w_env] the nodes,
    [w_clock] the readings [utils.now()] will return (microseconds),
    [w_shutting_down] the coordinator's flag. *)
Record world (SJ SH SE : Type) : Type := mkWorld {
  w_json : SJ;
  w_hex : SH;
  w_env : SE;
  w_clock : nat → Z;
  w_op : Op.OpState;
  w_shutting_down : bool;
}.
Arguments mkWorld {SJ SH SE}. Arguments w_json {SJ SH SE}. Arguments w_hex {SJ SH SE}.
Arguments w_env {SJ SH SE}. Arguments w_clock {SJ SH SE}. Arguments w_op {SJ SH SE}.
Arguments w_shutting_down {SJ SH SE}.

Section world.
Context {SJ SH SE : Type}.
Local Notation W := (world SJ SH SE).

Definition on_json {A} (m : M SJ A) : M W A :=
  zoom w_json (λ x w, mkWorld x (w_hex w) (w_env w) (w_clock w) (w_op w) (w_shutting_down w)) m.
Definition on_hex {A} (m : M SH A) : M W A :=
  zoom w_hex (λ x w, mkWorld (w_json w) x (w_env w) (w_clock w) (w_op w) (w_shutting_down w)) m.
Definition on_env {A} (m : M SE A) : M W A :=
  zoom w_env (λ x w, mkWorld (w_json w) (w_hex w) x (w_clock w) (w_op w) (w_shutting_down w)) m.
Definition set_op (x : Op.OpState) (w : W) : W :=
  mkWorld (w_json w) (w_hex w) (w_env w) (w_clock w) x (w_shutting_down w).
Definition skip_clock (n : nat) (w : W) : W :=
  mkWorld (w_json w) (w_hex w) (w_env w) (λ i, w_clock w (n + i)%nat) (w_op w) (w_shutting_down w).

(** [utils.now()] *)
Definition now : M W Z := λ w, (skip_clock 1 w, Ok (w_clock w 0)).

Lemma on_json_run {A} (m : M SJ A) w s r :
  m (w_json w) = (s, r) →
  on_json m w = (mkWorld s (w_hex w) (w_env w) (w_clock w) (w_op w) (w_shutting_down w), r).
Proof. intros H. unfold on_json, zoom. by rewrite H. Qed.
Lemma on_hex_run {A} (m : M SH A) w s r :
  m (w_hex w) = (s, r) →
  on_hex m w = (mkWorld (w_json w) s (w_env w) (w_clock w) (w_op w) (w_shutting_down w), r).
Proof. intros H. unfold on_hex, zoom. by rewrite H. Qed.

(** ** [SteppedCoordinatorOp] *)
Record Step : Type := mkMutStep {
  step_class : StepClass;
  run_step : StepsContext → M W StepValue;
  (** What running the step does to the results of earlier steps, which are
      objects it can mutate: for most steps, nothing. *)
  mutate_results : StepsContext → StepsContext;
}.

Definition caught_by_try_run (e : exn) : bool :=
  bool_decide (e = StepFailedError ∨ e = WaitResultError).

(** [try_run]; the context is private to the attempt, so it is returned with
    the verdict. *)
Fixpoint try_run (steps : list Step) (ctx : StepsContext) : M W (StepsContext * bool) :=
  match steps with
  | [] => mret (ctx, true)
  | step :: steps' => λ w,
      if w_shutting_down w then (w, Ok (ctx, false))
      else match run_step step ctx w with
           | (w', Ok r) =>
               match set_result (step_class step) r (mutate_results step ctx) with
               | Ok ctx' => try_run steps' ctx' w'
               | Raise e => (w', Raise e)
               end
           | (w', Raise e) => if caught_by_try_run e then (w', Ok (ctx, false)) else (w', Raise e)
           end
  end.

Definition add_result (c : StepClass) (v : StepValue) (ctx : StepsContext) : StepsContext :=
  mkStepsContext (attempt ctx) (attempt_start ctx) (dict_set c v (step_results ctx)).

Lemma try_run_cons st steps ctx w w1 v :
  w_shutting_down w = false → run_step st ctx w = (w1, Ok v) →
  dict_get (step_results ctx) (step_class st) = None → mutate_results st ctx = ctx →
  try_run (st :: steps) ctx w = try_run steps (add_result (step_class st) v ctx) w1.
Proof. intros Hs Hr Hg Hm. cbn [try_run]. rewrite Hs, Hr, Hm. unfold set_result. by rewrite Hg. Qed.

Definition set_status_fail (self : Z) : M W unit := Op.on_op w_op set_op (Op.set_status_fail self).

(** The loop over the attempts [n], [n+1], ... of which [left] remain: [true]
    when an attempt succeeded. *)
Fixpoint attempts_loop (steps : list Step) (n : Z) (left : nat) : M W bool :=
  match left with
  | O => mret false
  | S left' =>
      t ← now;
      ok ← try_except (r ← try_run steps (mkStepsContext n t []); mret (snd r))
             is_transient (λ _, mret false);
      if (ok : bool) then mret true else attempts_loop steps (n + 1) left'
  end.

Definition run_with_lock (self : Z) (attempts : nat) (steps : list Step) : M W unit :=
  ok ← try_except (attempts_loop steps 1 attempts) is_permanent (λ _, mret false);
  if (ok : bool) then mret tt else set_status_fail self.

(** *** What it means for an attempt, and for an operation, to succeed *)

(** Every step ran, in order, each with the results of the previous ones. *)
Inductive completes : list Step → StepsContext → W → StepsContext → W → Prop :=
| completes_nil ctx w : completes [] ctx w ctx w
| completes_cons step steps ctx w v w1 ctx1 ctx' w' :
    w_shutting_down w = false →
    run_step step ctx w = (w1, Ok v) →
    set_result (step_class step) v (mutate_results step ctx) = Ok ctx1 →
    completes steps ctx1 w1 ctx' w' →
    completes (step :: steps) ctx w ctx' w'.

Lemma completes_app l1 l2 ctx w ctx' w' :
  completes (l1 ++ l2) ctx w ctx' w' → ∃ ctx1 w1, completes l1 ctx w ctx1 w1 ∧ completes l2 ctx1 w1 ctx' w'.
Proof.
  revert ctx w. induction l1 as [|st l1 IH]; intros ctx w H; [exists ctx, w; split; [constructor|done]|].
  simpl in H. inversion H as [|? ? ? ? v w1 ctx1 ? ? Hs Hr Hc Hrest]; subst.
  destruct (IH _ _ Hrest) as (ctx2 & w2 & H1 & H2). exists ctx2, w2. split; [by econstructor|done].
Qed.

Lemma completes_cons_inv st l ctx w ctx' w' :
  completes (st :: l) ctx w ctx' w' →
  ∃ v w1 ctx1, run_step st ctx w = (w1, Ok v) ∧ set_result (step_class st) v (mutate_results st ctx) = Ok ctx1 ∧ completes l ctx1 w1 ctx' w'.
Proof. inversion 1; subst. eauto 10. Qed.

Lemma set_result_spec c v ctx ctx1 :
  set_result c v ctx = Ok ctx1 →
  get_result ctx1 c = Ok v ∧ ∀ c' v', get_result ctx c' = Ok v' → is_VNone v' = false → get_result ctx1 c' = Ok v'.
Proof.
  unfold set_result, get_result. intros H.
  assert (ctx1 = mkStepsContext (attempt ctx) (attempt_start ctx) (dict_set c v (step_results ctx)) ∧
    ∀ old, dict_get (step_results ctx) c = Some old → is_VNone old = true) as [-> Hold].
  { destruct (dict_get (step_results ctx) c) as [old|]; [|by injection H as <-].
    destruct (is_VNone old) eqn:E1, (is_VNone v); simpl in H; try done. injection H as <-. naive_solver. }
  simpl. unfold dict_set. split; [by rewrite dict_get_alter_eq|]. intros c' v' Hc' Hv'.
  destruct (decide (c = c')) as [->|Hne]; [|by rewrite dict_get_alter_ne].
  destruct (dict_get (step_results ctx) c') as [old|] eqn:E; [|done]. injection Hc' as ->.
  specialize (Hold v' eq_refl). congruence.
Qed.

(** A result stays for the steps that follow, when they do not change it. *)
Definition pure_step (st : Step) : Prop := ∀ ctx, mutate_results st ctx = ctx.

Lemma completes_keeps l ctx w ctx' w' c v :
  completes l ctx w ctx' w' → Forall pure_step l →
  get_result ctx c = Ok v → is_VNone v = false → get_result ctx' c = Ok v.
Proof.
  induction 1 as [|? ? ? ? ? ? ? ? ? _ _ Hset _ IH]; [done|]. intros [Hp Hl]%Forall_cons Hg Hv. apply IH; [done| |done].
  rewrite Hp in Hset. by apply (set_result_spec _ _ _ _ Hset).
Qed.

Definition fresh_context (n : Z) (w : W) : StepsContext := mkStepsContext n (w_clock w 0) [].

(** The attempt gave up in a way that allows another one. *)
Definition attempt_retryable (steps : list Step) (n : Z) (w w' : W) : Prop :=
  (∃ ctx, try_run steps (fresh_context n w) (skip_clock 1 w) = (w', Ok (ctx, false))) ∨
  (∃ e, try_run steps (fresh_context n w) (skip_clock 1 w) = (w', Raise e) ∧ is_transient e).

Inductive succeeds (steps : list Step) : Z → nat → W → W → Prop :=
| succeeds_now n left w ctx w' :
    completes steps (fresh_context n w) (skip_clock 1 w) ctx w' →
    succeeds steps n (S left) w w'
| succeeds_later n left w w1 w' :
    attempt_retryable steps n w w1 →
    succeeds steps (n + 1) left w1 w' →
    succeeds steps n (S left) w w'.

Lemma try_run_true_iff steps ctx w ctx' w' :
  try_run steps ctx w = (w', Ok (ctx', true)) ↔ completes steps ctx w ctx' w'.
Proof.
  split.
  - revert ctx w. induction steps as [|st steps IH]; intros ctx w; simpl.
    + intros [= <- <-]. constructor.
    + destruct (w_shutting_down w) eqn:Es; [done|].
      destruct (run_step st ctx w) as [w1 [v|e]] eqn:Er; [|by destruct (caught_by_try_run e)].
      destruct (set_result (step_class st) v (mutate_results st ctx)) as [ctx1|e] eqn:E1; [|done].
      intros H. econstructor; eauto.
  - induction 1 as [|st steps ctx w v w1 ctx1 ctx' w' Hs Hr Hset Hc IH]; [done|].
    simpl. by rewrite Hs, Hr, Hset.
Qed.

(** The three ways an attempt of the loop can end. *)
Lemma attempts_loop_run steps n left w :
  let '(w1, r) := try_run steps (fresh_context n w) (skip_clock 1 w) in
  attempts_loop steps n (S left) w =
  match r with
  | Ok (_, true) => (w1, Ok true)
  | Ok (_, false) => attempts_loop steps (n + 1) left w1
  | Raise e => if is_transient e then attempts_loop steps (n + 1) left w1 else (w1, Raise e)
  end.
Proof.
  destruct (try_run steps (fresh_context n w) (skip_clock 1 w)) as [w1 r] eqn:E.
  cbn [attempts_loop]. erewrite bind_ok by done. unfold fresh_context in E. unfold try_except.
  unfold mbind at 1, M_bind at 1. unfold mbind at 1, M_bind at 1. rewrite E.
  destruct r as [[ctx []]|e]; [done|done|]. by destruct (is_transient e).
Qed.

Lemma attempts_loop_true_iff steps n left w w' :
  attempts_loop steps n left w = (w', Ok true) ↔ succeeds steps n left w w'.
Proof.
  split.
  - revert n w. induction left as [|left IH]; intros n w; [done|].
    pose proof (attempts_loop_run steps n left w) as H.
    destruct (try_run steps (fresh_context n w) (skip_clock 1 w)) as [w1 r] eqn:E. rewrite H.
    destruct r as [[ctx []]|e].
    + intros [= <-]. apply try_run_true_iff in E. by econstructor.
    + intros Hl. eapply succeeds_later; [left; eauto|auto].
    + destruct (is_transient e) eqn:Et; [|done]. intros Hl.
      eapply succeeds_later; [right|by apply IH]. exists e. split; [done|]. by rewrite Et.
  - induction 1 as [n left w ctx w' Hc|n left w w1 w' Ha Hs IH].
    + apply try_run_true_iff in Hc. pose proof (attempts_loop_run steps n left w) as H.
      by rewrite Hc in H.
    + pose proof (attempts_loop_run steps n left w) as H.
      destruct Ha as [[ctx E]|[e [E Et]]]; rewrite E in H; rewrite H; [done|].
      apply Is_true_true_1 in Et. by rewrite Et.
Qed.

Lemma attempts_loop_invariant (P : W → Prop) steps n left w :
  (∀ w k, P w → P (skip_clock k w)) →
  (∀ st ctx w, st ∈ steps → P w → P (fst (run_step st ctx w))) →
  P w → P (fst (attempts_loop steps n left w)).
Proof.
  intros Hclock Hsteps. assert (∀ ctx w, P w → P (fst (try_run steps ctx w))) as Htry.
  { clear n left w. induction steps as [|st steps IH]; intros ctx w Hw; simpl; [done|].
    destruct (w_shutting_down w); [done|].
    pose proof (Hsteps st ctx w ltac:(by left) Hw) as H1.
    destruct (run_step st ctx w) as [w1 [v|e]]; simpl in *; [|by destruct (caught_by_try_run e)].
    destruct (set_result _ v _); [|done]. apply IH; [|done]. intros ????. apply Hsteps. by right. }
  revert n w. induction left as [|left IH]; intros n w Hw; [done|].
  pose proof (attempts_loop_run steps n left w) as H.
  pose proof (Htry (fresh_context n w) (skip_clock 1 w) (Hclock _ _ Hw)) as H1.
  destruct (try_run steps (fresh_context n w) (skip_clock 1 w)) as [w1 r]. simpl in H1. rewrite H.
  destruct r as [[ctx []]|e]; [done|by apply IH|]. destruct (is_transient e); [by apply IH|done].
Qed.

(** Marking the running operation failed, as the wrapper then sees it. *)
Lemma fail_recorded (self : Z) (w w2 : W) (r : res unit) :
  self ≠ 0 → Op.op_id (Op.op_info (w_op w)) = self → Op.op_status (Op.op_info (w_op w)) = Some Op.running →
  set_status_fail self w = (w2, r) → Op.wrapper_status self (w_op w2) r = Some Op.fail.
Proof.
  intros Hs Hid Hst. unfold set_status_fail, Op.on_op, zoom, Op.set_status_fail.
  unfold mbind, M_bind. rewrite Op.set_status_run by done. rewrite decide_True by done.
  rewrite decide_True by (rewrite Hst; naive_solver). intros [= <- <-].
  unfold Op.wrapper_status. simpl. by rewrite decide_True by done.
Qed.

(** C28: An operation whose steps do not themselves touch its status, started
    in the background, is reported [done] exactly when one of its allowed
    attempts ran every step to completion, in order and without a shutdown
    request, all earlier attempts having failed in a retryable way; otherwise
    it is reported [fail]. *)
Theorem operation_done_iff_attempt_succeeds (self : Z) (attempts : nat) (steps : list Step) (w : W) :
  self ≠ 0 →
  Op.op_id (Op.op_info (w_op w)) = self →
  Op.op_status (Op.op_info (w_op w)) = Some Op.starting →
  (∀ st ctx w, st ∈ steps → w_op (fst (run_step st ctx w)) = w_op w) →
  let w1 := set_op (Op.with_status Op.running (w_op w)) w in
  let final := fst (Op.async_wrapper (H := Op.zoom_setter w_op set_op) self (run_with_lock self attempts steps) w) in
  ((∃ w2, succeeds steps 1 attempts w1 w2) ∧ Op.op_status (Op.op_info (w_op final)) = Some Op.done_) ∨
  ((¬ ∃ w2, succeeds steps 1 attempts w1 w2) ∧ Op.op_status (Op.op_info (w_op final)) = Some Op.fail).
Proof.
  intros Hs Hid Hst Hframe w1 final.
  assert (w_op (fst (attempts_loop steps 1 attempts w1)) = w_op w1) as Hop.
  { apply (attempts_loop_invariant (λ w', w_op w' = w_op w1)); [done| |done].
    intros st ctx w' Hin Hw'. by rewrite Hframe. }
  pose proof (attempts_loop_true_iff steps 1 attempts w1) as Hiff.
  destruct (run_with_lock self attempts steps w1) as [w2 r] eqn:Erun.
  destruct (Op.async_wrapper_spec w_op set_op (λ _ _, eq_refl) self (run_with_lock self attempts steps) w w2 r
    Hs Hid Hst Erun) as (w3 & r' & Hwrap & Hstat & _). subst final. rewrite Hwrap. simpl. rewrite Hstat.
  unfold run_with_lock, try_except in Erun. unfold mbind at 1, M_bind at 1 in Erun.
  destruct (attempts_loop steps 1 attempts w1) as [wl [ok|e]] eqn:El; simpl in Hop.
  - destruct ok.
    + injection Erun as <- <-. left. split; [eexists; by apply Hiff|].
      unfold Op.wrapper_status. rewrite Hop. simpl. by rewrite (decide_True (P := _ = self)).
    + right. split; [intros [w' Hw']; apply Hiff in Hw'; congruence|].
      by apply (fail_recorded self wl w2 r); rewrite ?Hop.
  - right. split; [intros [w' Hw']; apply Hiff in Hw'; congruence|].
    destruct (is_permanent e) eqn:Ep.
    + by apply (fail_recorded self wl w2 r); rewrite ?Hop.
    + injection Erun as <- <-. unfold Op.wrapper_status. rewrite Hop. simpl.
      rewrite decide_True by done. by destruct e.
Qed.
End world.
Arguments Step : clear implicits.
Arguments mkMutStep {SJ SH SE}.
Notation mkStep c r := (mkMutStep c r (λ ctx, ctx)).

(** One attempt whose only step succeeds. *)
Definition example_world : world unit unit unit :=
  mkWorld tt tt tt (λ _, 0) (Op.mkOpState (Op.mkInfo 3 "cleanup" (Some Op.starting)) (Some 3) 4) false.
Definition example_step : Step unit unit unit := mkStep cls_ListHexdigestsStep (λ _, mret (VStrings ∅)).

Lemma operation_done_iff_attempt_succeeds_witness :
  let w1 := set_op (Op.with_status Op.running (w_op example_world)) example_world in
  let final := fst (Op.async_wrapper (H := Op.zoom_setter w_op set_op) 3 (run_with_lock 3 2 [example_step]) example_world) in
  ((∃ w2, succeeds [example_step] 1 2 w1 w2) ∧ Op.op_status (Op.op_info (w_op final)) = Some Op.done_) ∨
  ((¬ ∃ w2, succeeds [example_step] 1 2 w1 w2) ∧ Op.op_status (Op.op_info (w_op final)) = Some Op.fail).
Proof.
  apply (operation_done_iff_attempt_succeeds 3 2 [example_step] example_world); [done..|].
  by intros st ctx w ->%list_elem_of_singleton.
Defined.

(** ** Manifests in a storage ([coordinator/manifest.py])

    [msgspec] is a parameter: what the code relies on is that decoding what
    was encoded gives it back, and that the three fields of [ManifestMin] can
    be decoded from the encoding of a whole manifest. *)
Class ManifestCodec (B : Type) : Type := {
  encode_manifest : BackupManifest → B;
  decode_manifest : B → res BackupManifest;
  decode_min : B → res ManifestMin;
  decode_encode m : decode_manifest (encode_manifest m) = Ok m;
  decode_min_manifest b m : decode_manifest b = Ok m → decode_min b = Ok (from_manifest m);
}.

Definition set_filename (name : string) (m : BackupManifest) : BackupManifest :=
  mkBackupManifest (bm_start m) (bm_end m) (bm_attempt m) (bm_snapshot_results m) (bm_upload_results m)
    (bm_plugin m) (bm_plugin_data m) name.

Section manifests.
Context {SJ B : Type} (ops : StorageOps SJ B) `{!ManifestCodec B}.

Definition download_backup_manifest (backup_name : string) : M SJ BackupManifest :=
  b ← st_open ops backup_name;
  m ← lift_res (decode_manifest b);
  py_assert (bool_decide (bm_filename m = "" ∨ bm_filename m = backup_name)) ;;
  mret (set_filename backup_name m).

Definition download_backup_min_manifest (backup_name : string) : M SJ ManifestMin :=
  b ← st_open ops backup_name;
  m ← lift_res (decode_min b);
  py_assert (bool_decide (mm_filename m = "" ∨ mm_filename m = backup_name)) ;;
  mret (mkManifestMin (mm_start m) (mm_end m) backup_name).

Context `{!StorageSpec ops}.

(** The manifest a storage holds under a name. *)
Definition stored_manifest (s : SJ) (name : string) (m : BackupManifest) : Prop :=
  ∃ b, st_lookup (ops:=ops) s name = Some b ∧ decode_manifest b = Ok m ∧
       (bm_filename m = "" ∨ bm_filename m = name).

Lemma download_spec s name m :
  st_inv (ops:=ops) s → stored_manifest s name m →
  ∃ s', download_backup_manifest name s = (s', Ok (set_filename name m)) ∧ st_inv (ops:=ops) s' ∧
        ∀ n, st_lookup (ops:=ops) s' n = st_lookup (ops:=ops) s n.
Proof.
  intros Hi (b & Hb & Hd & Hf). pose proof (st_open_spec s name Hi (st_lookup_name _ _ _ Hi Hb)) as Ho.
  rewrite Hb in Ho. destruct Ho as (s' & Ho & Hi' & Hlk). exists s'. split; [|done].
  unfold download_backup_manifest. rewrite (bind_ok _ _ _ _ _ Ho), Hd.
  erewrite bind_ok by done. by rewrite bool_decide_true.
Qed.

Lemma download_min_spec s name m :
  st_inv (ops:=ops) s → stored_manifest s name m →
  ∃ s', download_backup_min_manifest name s = (s', Ok (from_manifest (set_filename name m))) ∧
        st_inv (ops:=ops) s' ∧ ∀ n, st_lookup (ops:=ops) s' n = st_lookup (ops:=ops) s n.
Proof.
  intros Hi (b & Hb & Hd & Hf). pose proof (st_open_spec s name Hi (st_lookup_name _ _ _ Hi Hb)) as Ho.
  rewrite Hb in Ho. destruct Ho as (s' & Ho & Hi' & Hlk). exists s'. split; [|done].
  unfold download_backup_min_manifest. rewrite (bind_ok _ _ _ _ _ Ho).
  rewrite (decode_min_manifest _ _ Hd).
  erewrite bind_ok by done. by rewrite bool_decide_true.
Qed.

Lemma stored_manifest_ext s s' name m :
  (∀ n, st_lookup (ops:=ops) s' n = st_lookup (ops:=ops) s n) →
  stored_manifest s name m → stored_manifest s' name m.
Proof. intros H (b & Hb & ?). exists b. by rewrite H. Qed.

Lemma stored_manifest_inj s name m m' :
  stored_manifest s name m → stored_manifest s name m' → m = m'.
Proof. intros (b & Hb & Hd & _) (b' & Hb' & Hd' & _). congruence. Qed.
End manifests.

(** The codec of a storage that keeps manifests as they are, for examples. *)
Definition identity_codec : ManifestCodec BackupManifest := {|
  encode_manifest m := m; decode_manifest := Ok; decode_min m := Ok (from_manifest m);
  decode_encode m := eq_refl;
  decode_min_manifest b m H := match H in _ = r return match r with Ok m' => Ok (from_manifest b) = Ok (from_manifest m') | Raise _ => True end with eq_refl => eq_refl end;
|}.
