(* ===== verification/NodeMapping.v ===== *)
(** * Matching nodes to backed-up nodes ([coordinator/plugins/base.py])

    [get_node_to_backup_index] and its two strategies: by availability
    zone for a full restore, by explicit request for a partial one.  A
    mapping is a list with one entry per configured node: the index of the
    snapshot the node restores, or [None]. *)

From stdpp Require Import base gmap strings list sorting.
From Stdlib Require Import ZArith Lia.
From S2P Require Import Prelude Progress Ipc.

Module NodeMapping.

(** [collections.Counter] and its [most_common] *)
Definition counter (l : list string) : list (string * nat) :=
  foldl (λ d a, dict_alter (λ o, S (default 0 o)) a d) [] l.

Definition count_geb (a b : string * nat) : bool := b.2 <=? a.2.
Definition most_common (d : list (string * nat)) : list (string * nat) := py_sorted count_geb d.

(** The innermost loop: the first free node of the zone takes the backup. *)
Fixpoint assign_first (naz : string) (bi : nat) (nodes : list CoordinatorNode)
    (mapping : list (option nat)) : list (option nat) :=
  match nodes, mapping with
  | node :: nodes', m :: ms =>
      if decide (node_az node ≠ naz ∨ m ≠ None) then m :: assign_first naz bi nodes' ms
      else Some bi :: ms
  | _, _ => mapping
  end.

(** The loop over the snapshot results, for one pair of zones. *)
Definition assign_zone (baz naz : string) (nodes : list CoordinatorNode)
    (srs : list (nat * SnapshotResult)) (mapping : list (option nat)) : list (option nat) :=
  foldl (λ m p, if decide (sr_az p.2 ≠ baz) then m else assign_first naz p.1 nodes m) mapping srs.

Definition zone_step (srs : list SnapshotResult) (nodes : list CoordinatorNode)
    (m : list (option nat)) (p : (string * nat) * (string * nat)) : res (list (option nat)) :=
  let '((baz, bn), (naz, nn)) := p in
  if nn <? bn then Raise InsufficientNodesException
  else Ok (assign_zone baz naz nodes (enumerate srs) m).

Definition get_node_to_backup_index_from_azs (srs : list SnapshotResult) (nodes : list CoordinatorNode)
    (azs_in_backup azs_in_nodes : list (string * nat)) : res (list (option nat)) :=
  fold_res (zone_step srs nodes) (replicate (length nodes) None)
           (zip (most_common azs_in_backup) (most_common azs_in_nodes)).

(** [{x: i for i, x in enumerate(l)}]: the last occurrence wins. *)
Definition index_dict (l : list string) : list (string * nat) :=
  foldl (λ d p, dict_set p.2 p.1 d) [] (enumerate l).

Definition resolve_node (nodes : list CoordinatorNode) (r : PartialRestoreRequestNode) : res nat :=
  match node_index r with
  | Some z => if (z <? 0)%Z || (Z.of_nat (length nodes) <=? z)%Z then Raise NotFoundException
              else Ok (Z.to_nat z)
  | None => match node_url r ≫= dict_get (index_dict (node_url_ <$> nodes)) with
            | Some i => Ok i
            | None => Raise NotFoundException
            end
  end.

Definition resolve_backup (srs : list SnapshotResult) (r : PartialRestoreRequestNode) : res nat :=
  match backup_index r with
  | Some z => if (z <? 0)%Z || (Z.of_nat (length srs) <=? z)%Z then Raise NotFoundException
              else Ok (Z.to_nat z)
  | None => match backup_hostname r ≫= dict_get (index_dict (sr_hostname <$> srs)) with
            | Some i => Ok i
            | None => Raise NotFoundException
            end
  end.

Definition partial_step (srs : list SnapshotResult) (nodes : list CoordinatorNode)
    (m : list (option nat)) (r : PartialRestoreRequestNode) : res (list (option nat)) :=
  ni ← resolve_node nodes r; bi ← resolve_backup srs r; Ok (<[ni := Some bi]> m).

Definition get_node_to_backup_index_from_partial_restore_nodes
    (partial : list PartialRestoreRequestNode) (srs : list SnapshotResult)
    (nodes : list CoordinatorNode) : res (list (option nat)) :=
  fold_res (partial_step srs nodes) (replicate (length nodes) None) partial.

Definition get_node_to_backup_index (partial : option (list PartialRestoreRequestNode))
    (srs : list SnapshotResult) (nodes : list CoordinatorNode) : res (list (option nat)) :=
  match partial with
  | Some (r :: rs) => get_node_to_backup_index_from_partial_restore_nodes (r :: rs) srs nodes
  | _ =>
    if length nodes <? length srs then Raise InsufficientNodesException
    else
      let azs_in_backup := counter (sr_az <$> srs) in
      let azs_in_nodes := counter (node_az <$> nodes) in
      if length azs_in_nodes <? length azs_in_backup then Raise InsufficientAZsException
      else get_node_to_backup_index_from_azs srs nodes azs_in_backup azs_in_nodes
  end.

(** ** Counters *)
Definition occurrences {A} `{EqDecision A} (a : A) (l : list A) : nat := length (filter (λ x, x = a) l).

Lemma counter_snoc l a : counter (l ++ [a]) = dict_alter (λ o, S (default 0 o)) a (counter l).
Proof. unfold counter. by rewrite foldl_app. Qed.

Lemma counter_NoDup l : NoDup (counter l).*1.
Proof.
  induction l as [|a l IH] using rev_ind; [constructor|].
  rewrite counter_snoc. by apply dict_alter_NoDup.
Qed.

Lemma counter_keys l a : a ∈ (counter l).*1 ↔ a ∈ l.
Proof.
  induction l as [|x l IH] using rev_ind; [done|].
  rewrite counter_snoc, dict_alter_keys. case_decide; set_solver.
Qed.

Lemma counter_get l a :
  dict_get (counter l) a = if decide (a ∈ l) then Some (occurrences a l) else None.
Proof.
  induction l as [|x l IH] using rev_ind; [done|].
  rewrite counter_snoc. unfold occurrences in *. rewrite filter_app, length_app.
  destruct (decide (x = a)) as [->|Hne].
  - rewrite dict_get_alter_eq, IH, (decide_True (P := a ∈ l ++ [a])) by (apply elem_of_app; right; by left).
    rewrite filter_cons_True by done. simpl. f_equal.
    destruct (decide (a ∈ l)) as [Hin|Hin]; simpl; [lia|].
    assert (filter (λ x, x = a) l = []) as ->; [|done].
    apply filter_nil_iff. intros y Hy ->. done.
  - rewrite dict_get_alter_ne, IH, filter_cons_False, Nat.add_0_r by done.
    assert (a ∈ l ++ [x] ↔ a ∈ l) as Heq.
    { rewrite elem_of_app, list_elem_of_singleton. naive_solver. }
    destruct (decide (a ∈ l)), (decide (a ∈ l ++ [x])); tauto.
Qed.

Lemma counter_elem_of l a n : (a, n) ∈ counter l ↔ a ∈ l ∧ n = occurrences a l.
Proof.
  rewrite <- (dict_get_elem_of _ _ _ (counter_NoDup l)), counter_get.
  case_decide; naive_solver.
Qed.

Lemma most_common_elem_of l a n : (a, n) ∈ most_common (counter l) ↔ a ∈ l ∧ n = occurrences a l.
Proof. unfold most_common. by rewrite elem_of_py_sorted, counter_elem_of. Qed.

Lemma most_common_NoDup l : NoDup (most_common (counter l)).*1.
Proof.
  unfold most_common. rewrite py_sorted_Permutation. apply counter_NoDup.
Qed.

Lemma most_common_sorted d : StronglySorted (λ a b, b.2 ≤ a.2) (most_common d).
Proof.
  eapply StronglySorted_impl; [|apply (py_sorted_StronglySorted count_geb)].
  - intros a b H. by apply Nat.leb_le.
  - intros a b. unfold count_geb. rewrite !Nat.leb_le. lia.
  - intros a b c. unfold count_geb. rewrite !Nat.leb_le. lia.
Qed.

(** ** One zone *)
Definition free_nodes (naz : string) (nodes : list CoordinatorNode) (m : list (option nat)) : nat :=
  length (filter (λ p, node_az p.1 = naz ∧ p.2 = None) (zip nodes m)).

Definition assigned (m : list (option nat)) : list nat := omap id m.

(** [m'] extends [m] with entries of [bs], on nodes of zone [naz]. *)
Definition extends_with (naz : string) (nodes : list CoordinatorNode) (bs : list nat)
    (m m' : list (option nat)) : Prop :=
  length m' = length m ∧
  ∀ i b, m' !! i = Some (Some b) →
    m !! i = Some (Some b) ∨
    (b ∈ bs ∧ ∃ node, nodes !! i = Some node ∧ node_az node = naz).

Lemma assign_first_spec naz b nodes m :
  0 < free_nodes naz nodes m →
  assigned (assign_first naz b nodes m) ≡ₚ b :: assigned m ∧
  free_nodes naz nodes (assign_first naz b nodes m) = free_nodes naz nodes m - 1 ∧
  extends_with naz nodes [b] m (assign_first naz b nodes m).
Proof.
  unfold free_nodes, extends_with. revert m.
  induction nodes as [|node nodes IH]; intros [|x ms] Hfree; simpl in *; try lia.
  destruct (decide (node_az node ≠ naz ∨ x ≠ None)) as [Hskip|Htake].
  - rewrite filter_cons_False in Hfree by (simpl; naive_solver).
    destruct (IH ms Hfree) as (H1 & H2 & H3 & H4). split_and!.
    + unfold assigned in *. simpl. destruct x; simpl; [|done]. rewrite H1. apply Permutation_swap.
    + simpl. rewrite !filter_cons_False by (simpl; naive_solver). done.
    + simpl. by rewrite H3.
    + intros [|i] b' Hi; simpl in *; [by left|]. by apply H4.
  - assert (node_az node = naz ∧ x = None) as [Haz ->].
    { split; [destruct (decide (node_az node = naz)); tauto|destruct x; [exfalso; apply Htake; by right|done]]. }
    split_and!.
    + done.
    + rewrite filter_cons_False by (simpl; naive_solver).
      rewrite filter_cons_True by (split; [exact Haz|done]). simpl. lia.
    + done.
    + intros [|i] b' Hi; simpl in *; [|by left]. injection Hi as <-. right.
      split; [by left|]. by exists node.
Qed.

Definition zone_indices (baz : string) (srs : list (nat * SnapshotResult)) : list nat :=
  (filter (λ p, sr_az p.2 = baz) srs).*1.

Lemma assign_zone_spec baz naz nodes srs m :
  length (zone_indices baz srs) ≤ free_nodes naz nodes m →
  let m' := assign_zone baz naz nodes srs m in
  assigned m' ≡ₚ assigned m ++ zone_indices baz srs ∧
  extends_with naz nodes (zone_indices baz srs) m m'.
Proof.
  unfold assign_zone, zone_indices. revert m.
  induction srs as [|[bi sr] srs IH]; intros m Hle; simpl.
  { split; [by rewrite app_nil_r|]. split; [done|]. by left. }
  destruct (decide (sr_az sr = baz)) as [Haz|Haz].
  - rewrite filter_cons_True in Hle |- * by done.
    rewrite decide_False by (simpl; tauto). csimpl in *.
    destruct (assign_first_spec naz bi nodes m) as (H1 & H2 & H3 & H4); [lia|].
    destruct (IH (assign_first naz bi nodes m)) as (I1 & I2 & I3); [simpl in *; lia|].
    split; [|split].
    + rewrite I1, H1. simpl. by rewrite Permutation_middle.
    + by rewrite I2.
    + intros i b Hi. destruct (I3 i b Hi) as [Hi'|[Hb Hn]].
      * destruct (H4 i b Hi') as [?|[Hb Hn]]; [by left|]. right. split; [|done]. set_solver.
      * right. split; [|done]. set_solver.
  - rewrite filter_cons_False in Hle |- * by done.
    rewrite decide_True by done. by apply IH.
Qed.

(** ** The loop over the pairs of zones *)
Lemma zone_indices_length baz srs :
  length (zone_indices baz (enumerate srs)) = occurrences baz (sr_az <$> srs).
Proof.
  unfold zone_indices, occurrences. rewrite length_fmap, length_filter_fmap.
  rewrite <- (enumerate_snd srs) at 2. by rewrite length_filter_fmap.
Qed.

Lemma zone_indices_elem_of baz srs b :
  b ∈ zone_indices baz (enumerate srs) ↔ ∃ sr, srs !! b = Some sr ∧ sr_az sr = baz.
Proof.
  unfold zone_indices. rewrite list_elem_of_fmap. split.
  - intros ([b' sr] & -> & [Haz Hin]%list_elem_of_filter). apply elem_of_enumerate in Hin. eauto.
  - intros (sr & Hsr & Haz). exists (b, sr). split; [done|].
    apply list_elem_of_filter. split; [done|]. by apply elem_of_enumerate.
Qed.

Lemma free_nodes_all naz nodes m :
  length m = length nodes →
  (∀ i b node, m !! i = Some (Some b) → nodes !! i = Some node → node_az node ≠ naz) →
  free_nodes naz nodes m = occurrences naz (node_az <$> nodes).
Proof.
  intros Hlen Hfree. unfold free_nodes, occurrences. rewrite length_filter_fmap.
  rewrite <- (fst_zip nodes m) at 2 by lia. rewrite length_filter_fmap.
  f_equal. apply filter_ext_in. intros [node x] Hin. simpl.
  split; [tauto|]. intros Haz. split; [done|].
  apply list_elem_of_lookup in Hin as (i & [H1 H2]%lookup_zip_Some).
  destruct x as [b|]; [|done]. by destruct (Hfree i b node).
Qed.

Section zones.
Context (srs : list SnapshotResult) (nodes : list CoordinatorNode).

Let idx (p : (string * nat) * (string * nat)) : list nat := zone_indices p.1.1 (enumerate srs).

Definition mapping_inv (pre : list ((string * nat) * (string * nat))) (m : list (option nat)) : Prop :=
  length m = length nodes ∧
  assigned m ≡ₚ concat (idx <$> pre) ∧
  (∀ i b, m !! i = Some (Some b) →
     ∃ node p, nodes !! i = Some node ∧ p ∈ pre ∧ p.2.1 = node_az node ∧ b ∈ idx p).

Lemma mapping_inv_init : mapping_inv [] (replicate (length nodes) None).
Proof.
  split; [by rewrite length_replicate|]. split.
  - assert (assigned (replicate (length nodes) None) = []) as ->; [|done].
    induction (length nodes); [done|]. simpl. done.
  - intros i b Hi. apply lookup_replicate in Hi as [[=] _].
Qed.

Lemma mapping_inv_step pre p m m' :
  mapping_inv pre m → p.2.1 ∉ (λ p, p.2.1) <$> pre →
  p.1.2 = occurrences p.1.1 (sr_az <$> srs) → p.2.2 = occurrences p.2.1 (node_az <$> nodes) →
  zone_step srs nodes m p = Ok m' → mapping_inv (pre ++ [p]) m'.
Proof.
  destruct p as [[baz bn] [naz nn]]. intros (Hlen & Hperm & Hin) Hni Hbn Hnn Hstep.
  simpl in *. destruct (nn <? bn) eqn:Hlt; [done|]. apply Nat.ltb_ge in Hlt.
  injection Hstep as <-.
  destruct (assign_zone_spec baz naz nodes (enumerate srs) m) as (H1 & H2 & H3).
  { rewrite zone_indices_length, free_nodes_all; [lia|done|].
    intros i b node Hi Hnode Haz. destruct (Hin i b Hi) as (node' & p & Hn & Hp & Haz' & _).
    apply Hni. apply list_elem_of_fmap. exists p. split; [|done]. congruence. }
  split; [lia|]. split.
  - rewrite H1, Hperm, fmap_app, concat_app. simpl. by rewrite app_nil_r.
  - intros i b Hi. destruct (H3 i b Hi) as [Hi'|[Hb (node & Hn & Haz)]].
    + destruct (Hin i b Hi') as (node & p & ? & Hp & ?). exists node, p. split_and!; try tauto.
      apply elem_of_app. by left.
    + exists node, ((baz, bn), (naz, nn)). split_and!; try done. apply elem_of_app. right. by left.
Qed.
End zones.

Lemma zip_snd_NoDup {A B C} (f : B → C) (l : list A) (k : list B) :
  NoDup (f <$> k) → NoDup ((λ p, f p.2) <$> zip l k).
Proof.
  revert l. induction k as [|y k IH]; intros [|x l] Hnd; csimpl; try constructor.
  - intros (p & Hp & Hin)%list_elem_of_fmap. apply NoDup_cons in Hnd as [Hy _]. apply Hy.
    apply list_elem_of_fmap. exists p.2. split; [done|]. destruct p. by eapply elem_of_zip_r.
  - apply NoDup_cons in Hnd as [_ Hnd]. by apply IH.
Qed.

Abbreviation zone_pairs srs nodes :=
  (zip (most_common (counter (sr_az <$> srs))) (most_common (counter (node_az <$> nodes)))).

Lemma from_azs_inv (srs : list SnapshotResult) (nodes : list CoordinatorNode) m :
  get_node_to_backup_index_from_azs srs nodes (counter (sr_az <$> srs)) (counter (node_az <$> nodes)) = Ok m →
  mapping_inv srs nodes (zone_pairs srs nodes) m.
Proof.
  intros H. unfold get_node_to_backup_index_from_azs in H.
  eapply (fold_res_ind (mapping_inv srs nodes)); [apply mapping_inv_init| |exact H].
  intros pre p post m1 m2 Hl Hinv Hstep. destruct p as [[baz bn] [naz nn]].
  assert (((baz, bn), (naz, nn)) ∈ zone_pairs srs nodes) as Hin.
  { rewrite Hl. apply elem_of_app. right. by left. }
  eapply mapping_inv_step; [done| | | |done]; simpl.
  - pose proof (zip_snd_NoDup fst (most_common (counter (sr_az <$> srs))) _
      (most_common_NoDup (node_az <$> nodes))) as Hnd.
    rewrite Hl, fmap_app in Hnd. apply NoDup_app in Hnd as (_ & Hd & _).
    intros Hnaz. apply (Hd naz Hnaz). csimpl. by left.
  - apply elem_of_zip_l, most_common_elem_of in Hin. tauto.
  - apply elem_of_zip_r, most_common_elem_of in Hin. tauto.
Qed.

Definition zones_of (l : list ((string * nat) * (string * nat))) : list (string * string) :=
  (λ p, (p.1.1, p.2.1)) <$> l.

Lemma zones_of_fst l : (zones_of l).*1 = l.*1.*1.
Proof. unfold zones_of. by rewrite <- !list_fmap_compose. Qed.

Lemma zones_of_snd l : (zones_of l).*2 = (λ p, p.2.1) <$> l.
Proof. unfold zones_of. by rewrite <- !list_fmap_compose. Qed.

Lemma counter_length l : length (most_common (counter l)) = length (counter l).
Proof. apply py_sorted_length. Qed.

Lemma zone_indices_cover (srs : list SnapshotResult) :
  concat ((λ p, zone_indices p.1 (enumerate srs)) <$> most_common (counter (sr_az <$> srs)))
  ≡ₚ seq 0 (length srs).
Proof.
  rewrite <- enumerate_fst.
  rewrite <- (concat_filter_Permutation (λ p, sr_az p.2) (most_common (counter (sr_az <$> srs))).*1
    (enumerate srs)).
  - apply reflexive_eq. induction (most_common (counter (sr_az <$> srs))) as [|[a n] l IH]; [done|].
    csimpl. rewrite fmap_app. by f_equal.
  - apply most_common_NoDup.
  - rewrite Forall_forall. intros [b sr] Hin. simpl.
    apply list_elem_of_fmap. exists (sr_az sr, occurrences (sr_az sr) (sr_az <$> srs)).
    split; [done|]. apply most_common_elem_of. split; [|done].
    apply elem_of_enumerate, list_elem_of_lookup_2 in Hin. by apply list_elem_of_fmap_2.
Qed.

(** ** Domination of sorted lists of counts *)
Lemma sorted_count_above (ys : list (string * nat)) k y :
  StronglySorted (λ a b, b.2 ≤ a.2) ys → ys !! k = Some y →
  length (filter (λ p, y.2 < p.2) ys) ≤ k.
Proof.
  intros HS Hk. rewrite <- (take_drop k ys), filter_app, length_app.
  assert (filter (λ p, y.2 < p.2) (drop k ys) = []) as ->.
  { apply filter_nil_iff. intros p Hp. apply list_elem_of_lookup in Hp as [j Hj].
    rewrite lookup_drop in Hj. destruct j as [|j].
    - rewrite Nat.add_0_r in Hj. simplify_eq. lia.
    - pose proof (StronglySorted_lookup _ ys k (k + S j) y p HS ltac:(lia) Hk Hj). simpl in *. lia. }
  simpl. pose proof (length_filter (λ p, y.2 < p.2) (take k ys)). rewrite length_take in *. lia.
Qed.

Lemma count_prefix_above (im : list (string * nat)) k t :
  (∀ j p, j ≤ k → im !! j = Some p → t < p.2) → k < length im →
  k < length (filter (λ p, t < p.2) im).
Proof.
  revert k. induction im as [|p im IH]; intros k Hall Hk; simpl in *; [lia|].
  rewrite filter_cons_True by (apply (Hall 0 p); [lia|done]). simpl.
  destruct k as [|k]; [lia|]. apply -> Nat.succ_lt_mono. apply IH; [|lia].
  intros j q Hj Hq. apply (Hall (S j) q); [lia|done].
Qed.

(** If each entry of the sorted list [xs] fits in an entry of [ys], with
    different entries for different ones, the k-th largest fits in the k-th
    largest. *)
Lemma sorted_domination (xs ys im : list (string * nat)) :
  StronglySorted (λ a b, b.2 ≤ a.2) xs → StronglySorted (λ a b, b.2 ≤ a.2) ys →
  Forall2 (λ x y, x.2 ≤ y.2) xs im → im ⊆+ ys →
  Forall2 (λ x y, x.2 ≤ y.2) xs (take (length xs) ys).
Proof.
  intros Hxs Hys Hfit Hsub. pose proof (Forall2_length _ _ _ Hfit) as Hlen.
  pose proof (submseteq_length _ _ Hsub) as Hle.
  apply Forall2_same_length_lookup. split; [rewrite length_take; lia|].
  intros k x y Hx Hy.
  assert (k < length xs) as Hk by (by eapply lookup_lt_Some).
  rewrite lookup_take_lt in Hy by lia.
  destruct (decide (x.2 ≤ y.2)) as [|Hgt]; [done|exfalso].
  pose proof (sorted_count_above ys k y Hys Hy) as Hup.
  pose proof (filter_length_submseteq (λ p, y.2 < p.2) im ys Hsub) as Hmono.
  enough (k < length (filter (λ p, y.2 < p.2) im)) by lia.
  apply count_prefix_above; [|lia].
  intros j p Hj Hp. destruct (lookup_lt_is_Some_2 xs j) as [x' Hx']; [lia|].
  pose proof (Forall2_lookup_lr _ _ _ _ _ _ Hfit Hx' Hp) as Hfit'. simpl in Hfit'.
  destruct (decide (j = k)) as [->|Hne]; [simplify_eq; lia|].
  pose proof (StronglySorted_lookup _ xs j k x' x Hxs ltac:(lia) Hx' Hx). simpl in *. lia.
Qed.

(** ** Properties *)

(** Every backed up node is assigned to exactly one node. *)
Lemma full_restore_assigned (srs : list SnapshotResult) (nodes : list CoordinatorNode) (m : list (option nat)) :
  get_node_to_backup_index None srs nodes = Ok m → length m = length nodes ∧ assigned m ≡ₚ seq 0 (length srs).
Proof.
  simpl. destruct (length nodes <? length srs) eqn:H1; [done|].
  destruct (length (counter (node_az <$> nodes)) <? length (counter (sr_az <$> srs))) eqn:H2; [done|].
  intros H. apply Nat.ltb_ge in H2. apply from_azs_inv in H as (Hlen & Hperm & _). split; [done|].
  rewrite Hperm, <- zone_indices_cover.
  rewrite <- (fst_zip (most_common (counter (sr_az <$> srs))) (most_common (counter (node_az <$> nodes)))) at 2
    by (rewrite !counter_length; done).
  by rewrite <- list_fmap_compose.
Qed.

(** C5: A successful full restore restores every backed-up node exactly once:
    the indices assigned to the configured nodes are a rearrangement of the
    indices of the manifest's snapshots; and zones are respected, in that the
    pairs (zone of the snapshot, zone of the node) form a one-to-one relation. *)
Theorem full_restore_bijective (srs : list SnapshotResult) (nodes : list CoordinatorNode) (m : list (option nat)) :
  get_node_to_backup_index None srs nodes = Ok m →
  length m = length nodes ∧
  assigned m ≡ₚ seq 0 (length srs) ∧
  ∃ zones : list (string * string), NoDup zones.*1 ∧ NoDup zones.*2 ∧
    ∀ i b, m !! i = Some (Some b) →
      ∃ node sr, nodes !! i = Some node ∧ srs !! b = Some sr ∧ (sr_az sr, node_az node) ∈ zones.
Proof.
  intros Hm. destruct (full_restore_assigned _ _ _ Hm) as [Hlen Hassigned]. revert Hm.
  simpl. destruct (length nodes <? length srs) eqn:H1; [done|].
  destruct (length (counter (node_az <$> nodes)) <? length (counter (sr_az <$> srs))) eqn:H2; [done|].
  intros H. apply Nat.ltb_ge in H2. apply from_azs_inv in H as (_ & _ & Hin).
  set (mcb := most_common (counter (sr_az <$> srs))) in *.
  set (mcn := most_common (counter (node_az <$> nodes))) in *.
  assert ((zip mcb mcn).*1 = mcb) as Hfst.
  { apply fst_zip. unfold mcb, mcn. rewrite !counter_length. done. }
  split; [done|]. split; [done|].
  exists (zones_of (zip mcb mcn)). rewrite zones_of_fst, zones_of_snd, Hfst. split_and!.
  - apply most_common_NoDup.
  - apply (zip_snd_NoDup fst), most_common_NoDup.
  - intros i b Hi. destruct (Hin i b Hi) as (node & p & Hn & Hp & Haz & Hb).
    apply zone_indices_elem_of in Hb as (sr & Hsr & Hsaz).
    exists node, sr. split_and!; try done. apply list_elem_of_fmap. exists p.
    split; [|done]. by rewrite Hsaz, Haz.
Qed.

Definition demo_sr (az host : string) : SnapshotResult :=
  mkSnapshotResult host az new_progress 0 None None 0 0 None.
Definition demo_srs : list SnapshotResult := [demo_sr "a" "h0"; demo_sr "b" "h1"; demo_sr "a" "h2"].
Definition demo_nodes : list CoordinatorNode :=
  [mkCoordinatorNode "u0" "x"; mkCoordinatorNode "u1" "y"; mkCoordinatorNode "u2" "y"; mkCoordinatorNode "u3" "y"].

Lemma full_restore_bijective_witness :
  assigned [Some 1; Some 0; Some 2; None] ≡ₚ seq 0 (length demo_srs).
Proof.
  apply (full_restore_bijective demo_srs demo_nodes). vm_compute. reflexivity.
Defined.

(** A one-to-one assignment of the backed-up zones to zones of the cluster
    that have room for them. *)
Definition zone_embedding (srs : list SnapshotResult) (nodes : list CoordinatorNode)
    (zones : list (string * string)) : Prop :=
  NoDup zones.*1 ∧ NoDup zones.*2 ∧
  (∀ sr, sr ∈ srs → sr_az sr ∈ zones.*1) ∧
  Forall (λ p, occurrences p.1 (sr_az <$> srs) ≤ occurrences p.2 (node_az <$> nodes)) zones.

Lemma zone_step_ok srs nodes m p m' : zone_step srs nodes m p = Ok m' → p.1.2 ≤ p.2.2.
Proof.
  destruct p as [[baz bn] [naz nn]]. simpl. destruct (nn <? bn) eqn:E; [done|].
  intros _. by apply Nat.ltb_ge.
Qed.

Lemma from_azs_embedding srs nodes m :
  length (counter (sr_az <$> srs)) ≤ length (counter (node_az <$> nodes)) →
  get_node_to_backup_index_from_azs srs nodes (counter (sr_az <$> srs)) (counter (node_az <$> nodes)) = Ok m →
  zone_embedding srs nodes (zones_of (zone_pairs srs nodes)).
Proof.
  intros Hle H. unfold get_node_to_backup_index_from_azs in H.
  assert ((zone_pairs srs nodes).*1 = most_common (counter (sr_az <$> srs))) as Hfst.
  { apply fst_zip. by rewrite !counter_length. }
  unfold zone_embedding. rewrite zones_of_fst, zones_of_snd, Hfst. split_and!.
  - apply most_common_NoDup.
  - apply (zip_snd_NoDup fst), most_common_NoDup.
  - intros sr Hsr. apply list_elem_of_fmap. exists (sr_az sr, occurrences (sr_az sr) (sr_az <$> srs)).
    split; [done|]. apply most_common_elem_of. split; [by apply list_elem_of_fmap_2|done].
  - unfold zones_of. rewrite Forall_fmap, Forall_forall. intros [[baz bn] [naz nn]] Hin. simpl.
    destruct (fold_res_elem _ _ _ _ _ H Hin) as (m1 & m2 & Hs%zone_step_ok). simpl in Hs.
    pose proof (elem_of_zip_l _ _ _ _ Hin) as [_ ->]%most_common_elem_of.
    pose proof (elem_of_zip_r _ _ _ _ Hin) as [_ ->]%most_common_elem_of. done.
Qed.

Section embedding.
Context (srs : list SnapshotResult) (nodes : list CoordinatorNode) (zones : list (string * string)).
Context (Hemb : zone_embedding srs nodes zones).

Let bz := sr_az <$> srs.
Let nz := node_az <$> nodes.
Let target (a : string) : string := default "" (dict_get zones a).
Let image (p : string * nat) : string * nat := (target p.1, occurrences (target p.1) nz).

Lemma target_spec a : a ∈ bz →
  (a, target a) ∈ zones ∧ occurrences a bz ≤ occurrences (target a) nz ∧ target a ∈ nz.
Proof.
  destruct Hemb as (Hnd & _ & Hcov & Hfit). intros Ha.
  apply list_elem_of_fmap in Ha as (sr & -> & Hsr).
  assert (dict_get zones (sr_az sr) ≠ None) as Hget.
  { rewrite dict_get_None. specialize (Hcov sr Hsr). tauto. }
  destruct (dict_get zones (sr_az sr)) as [a'|] eqn:E; [|done].
  assert (target (sr_az sr) = a') as Ht by (unfold target; by rewrite E).
  rewrite Ht. apply dict_get_elem_of in E; [|done].
  rewrite Forall_forall in Hfit. specialize (Hfit _ E). simpl in Hfit. split_and!; [done|done|].
  assert (0 < occurrences (sr_az sr) bz).
  { unfold occurrences. assert (sr_az sr ∈ filter (λ x, x = sr_az sr) bz) as Hin.
    { apply list_elem_of_filter. split; [done|]. by apply list_elem_of_fmap_2. }
    destruct (filter (λ x, x = sr_az sr) bz); [by apply not_elem_of_nil in Hin|simpl; lia]. }
  assert (0 < occurrences a' nz) as Hpos by (unfold bz, nz in *; lia).
  unfold occurrences in Hpos. destruct (filter (λ x, x = a') nz) as [|x l] eqn:Ef; [simpl in *; lia|].
  assert (x ∈ filter (λ x, x = a') nz) as [-> Hx]%list_elem_of_filter by (rewrite Ef; by left). done.
Qed.

Lemma target_inj a b : a ∈ bz → b ∈ bz → target a = target b → a = b.
Proof.
  destruct Hemb as (_ & Hnd2 & _). intros Ha Hb Heq.
  apply target_spec in Ha as [Ha _]. apply target_spec in Hb as [Hb _].
  apply list_elem_of_lookup in Ha as [i Hi]. apply list_elem_of_lookup in Hb as [j Hj].
  assert (i = j) as ->; [|by simplify_eq].
  eapply (NoDup_lookup zones.*2 i j (target a)); [done|..]; rewrite list_lookup_fmap.
  - by rewrite Hi.
  - rewrite Hj. simpl. by rewrite Heq.
Qed.

Lemma image_keys_NoDup : NoDup (target <$> (most_common (counter bz)).*1).
Proof.
  apply NoDup_fmap_2_strong; [|apply most_common_NoDup].
  intros x y Hx Hy. assert (∀ z, z ∈ (most_common (counter bz)).*1 → z ∈ bz) as Hsub.
  { intros z Hz. unfold most_common in Hz. rewrite py_sorted_Permutation in Hz. by apply counter_keys. }
  auto using target_inj.
Qed.

Lemma image_submseteq : image <$> most_common (counter bz) ⊆+ most_common (counter nz).
Proof.
  apply NoDup_submseteq.
  - apply (NoDup_fmap_1 fst). pose proof image_keys_NoDup as Hnd.
    rewrite <- list_fmap_compose in Hnd. by rewrite <- list_fmap_compose.
  - intros p ([a n] & -> & [Ha _]%most_common_elem_of)%list_elem_of_fmap.
    apply most_common_elem_of. split; [|done]. by apply target_spec.
Qed.

Lemma embedding_pairs_fit :
  Forall (λ p, p.1.2 ≤ p.2.2) (zip (most_common (counter bz)) (most_common (counter nz))).
Proof.
  pose proof (sorted_domination (most_common (counter bz)) (most_common (counter nz))
    (image <$> most_common (counter bz)) (most_common_sorted _) (most_common_sorted _)) as Hdom.
  apply Forall_lookup. intros k [x y] [Hx Hy]%lookup_zip_Some. simpl.
  assert (k < length (most_common (counter bz))) by (by eapply lookup_lt_Some).
  assert (Forall2 (λ x y, x.2 ≤ y.2) (most_common (counter bz)) (image <$> most_common (counter bz))) as Hfit.
  { apply Forall2_fmap_r, Forall_Forall2_diag, Forall_forall.
    intros [a n] [Ha ->]%most_common_elem_of. simpl. by apply target_spec. }
  specialize (Hdom Hfit image_submseteq).
  eapply (Forall2_lookup_lr _ _ _ k x y Hdom); [done|]. by rewrite lookup_take_lt.
Qed.

Lemma embedding_lengths :
  length srs ≤ length nodes ∧ length (counter bz) ≤ length (counter nz).
Proof.
  split.
  - assert (length bz ≤ length nz); [|unfold bz, nz in *; by rewrite !length_fmap in *].
    rewrite <- (sum_classes_eq (counter bz).*1 bz).
    + etransitivity; [|apply (sum_classes_le (target <$> (counter bz).*1) nz)].
      * rewrite <- (list_fmap_compose target). apply sum_list_le, Forall_forall.
        intros a Ha. rewrite counter_keys in Ha. destruct (target_spec a Ha) as (_ & Hle & _). exact Hle.
      * pose proof image_keys_NoDup as Hnd. unfold most_common in Hnd.
        by rewrite py_sorted_Permutation in Hnd.
    + apply counter_NoDup.
    + apply Forall_forall. intros x Hx. by apply counter_keys.
  - pose proof (submseteq_length _ _ image_submseteq) as H.
    by rewrite length_fmap, !counter_length in H.
Qed.
End embedding.

(** The zone matching is optimal: a full restore is refused only when no
    one-to-one assignment of backed-up zones to zones of the cluster with
    enough nodes exists, and a refusal is one of the two "insufficient"
    errors. *)
Theorem full_restore_succeeds_iff (srs : list SnapshotResult) (nodes : list CoordinatorNode) :
  ((∃ m, get_node_to_backup_index None srs nodes = Ok m) ↔ (∃ zones, zone_embedding srs nodes zones)) ∧
  (∀ e, get_node_to_backup_index None srs nodes = Raise e →
     e = InsufficientNodesException ∨ e = InsufficientAZsException).
Proof.
  split; [split|].
  - intros [m H]. simpl in H. destruct (length nodes <? length srs); [done|].
    destruct (length (counter _) <? length (counter _)) eqn:H2; [done|]. apply Nat.ltb_ge in H2.
    eexists. by eapply from_azs_embedding.
  - intros [zones Hemb]. destruct (embedding_lengths _ _ _ Hemb) as [Hl1 Hl2]. simpl.
    apply Nat.ltb_ge in Hl1 as ->. apply Nat.ltb_ge in Hl2 as ->.
    apply fold_res_ok. intros [[baz bn] [naz nn]] m1 Hin.
    pose proof (embedding_pairs_fit _ _ _ Hemb) as Hfit. rewrite Forall_forall in Hfit.
    specialize (Hfit _ Hin). simpl in *. apply Nat.ltb_ge in Hfit as ->. eauto.
  - intros e. simpl. destruct (length nodes <? length srs); [intros [= <-]; by left|].
    destruct (length (counter _) <? length (counter _)); [intros [= <-]; by right|].
    intros H. apply fold_res_raise in H as ([[baz bn] [naz nn]] & m1 & _ & Hs). simpl in Hs.
    destruct (nn <? bn); [|done]. injection Hs as <-. by left.
Qed.

(** ** Partial restores *)
Lemma index_dict_spec (l : list string) x i : dict_get (index_dict l) x = Some i → l !! i = Some x.
Proof.
  unfold index_dict. assert (∀ l' d, (∀ x i, dict_get d x = Some i → l !! i = Some x) →
    (∀ p, p ∈ l' → l !! p.1 = Some p.2) →
    ∀ x i, dict_get (foldl (λ d p, dict_set p.2 p.1 d) d l') x = Some i → l !! i = Some x) as Hgen.
  { induction l' as [|[j y] l' IH]; intros d Hd Hl; [done|]. simpl.
    apply IH; [|intros p Hp; apply Hl; by right].
    intros x' i'. unfold dict_set. destruct (decide (y = x')) as [->|Hne].
    - rewrite dict_get_alter_eq. intros [= <-]. apply (Hl (j, x')). by left.
    - rewrite dict_get_alter_ne by done. apply Hd. }
  apply Hgen; [done|]. intros [j y] Hp. by apply elem_of_enumerate.
Qed.

Lemma resolve_node_lt nodes r i : resolve_node nodes r = Ok i → i < length nodes.
Proof.
  unfold resolve_node. destruct (node_index r) as [z|].
  - destruct ((z <? 0)%Z || (Z.of_nat (length nodes) <=? z)%Z) eqn:E; [done|].
    apply orb_false_iff in E as [H1%Z.ltb_ge H2%Z.leb_gt]. intros [= <-]. lia.
  - destruct (node_url r) as [u|]; simpl; [|done].
    destruct (dict_get _ u) eqn:E; [|done]. intros [= <-].
    apply index_dict_spec, lookup_lt_Some in E. by rewrite length_fmap in E.
Qed.

Lemma resolve_backup_lt srs r b : resolve_backup srs r = Ok b → b < length srs.
Proof.
  unfold resolve_backup. destruct (backup_index r) as [z|].
  - destruct ((z <? 0)%Z || (Z.of_nat (length srs) <=? z)%Z) eqn:E; [done|].
    apply orb_false_iff in E as [H1%Z.ltb_ge H2%Z.leb_gt]. intros [= <-]. lia.
  - destruct (backup_hostname r) as [u|]; simpl; [|done].
    destruct (dict_get _ u) eqn:E; [|done]. intros [= <-].
    apply index_dict_spec, lookup_lt_Some in E. by rewrite length_fmap in E.
Qed.

Lemma resolve_error srs nodes r e :
  resolve_node nodes r = Raise e ∨ resolve_backup srs r = Raise e → e = NotFoundException.
Proof.
  unfold resolve_node, resolve_backup. intros [H|H]; repeat case_match; congruence.
Qed.

(** The backups that the requests assign to node [i], in request order. *)
Definition backups_for (srs : list SnapshotResult) (nodes : list CoordinatorNode) (i : nat)
    (reqs : list PartialRestoreRequestNode) : list nat :=
  omap (λ r, match resolve_node nodes r, resolve_backup srs r with
             | Ok j, Ok b => if decide (j = i) then Some b else None
             | _, _ => None
             end) reqs.

(** A partial restore that is accepted maps each node to the backup of the
    last request that names it (by index or by URL) and leaves the nodes no
    request names alone; every request was resolved to an existing node and
    an existing snapshot, and a refusal is always [NotFoundException]. *)
Theorem partial_restore_last_request_wins (r : PartialRestoreRequestNode) (rs : list PartialRestoreRequestNode)
    (srs : list SnapshotResult) (nodes : list CoordinatorNode) :
  (∀ m, get_node_to_backup_index (Some (r :: rs)) srs nodes = Ok m →
     length m = length nodes ∧
     (∀ i, i < length nodes → m !! i = Some (last (backups_for srs nodes i (r :: rs)))) ∧
     (∀ q, q ∈ r :: rs → ∃ i b, resolve_node nodes q = Ok i ∧ i < length nodes ∧
                                resolve_backup srs q = Ok b ∧ b < length srs)) ∧
  (∀ e, get_node_to_backup_index (Some (r :: rs)) srs nodes = Raise e → e = NotFoundException).
Proof.
  split.
  - intros m H. simpl get_node_to_backup_index in H.
    assert (length m = length nodes ∧
      ∀ i, i < length nodes → m !! i = Some (last (backups_for srs nodes i (r :: rs)))) as [Hlen Hm].
    { eapply (fold_res_ind (λ pre m, length m = length nodes ∧
        ∀ i, i < length nodes → m !! i = Some (last (backups_for srs nodes i pre)))); [| |exact H].
      - split; [by rewrite length_replicate|]. intros i Hi. simpl. by apply lookup_replicate.
      - intros pre q post m1 m2 _ [Hlen IH] Hs. unfold partial_step in Hs.
        apply rbind_inv_ok in Hs as (ni & Hn & Hs). apply rbind_inv_ok in Hs as (bi & Hb & [= <-]).
        split; [by rewrite length_insert|]. intros i Hi. unfold backups_for. rewrite omap_app. simpl.
        rewrite Hn, Hb. destruct (decide (ni = i)) as [->|Hne].
        + rewrite list_lookup_insert_eq by lia. by rewrite last_snoc.
        + rewrite list_lookup_insert_ne, app_nil_r by done. by apply IH. }
    split_and!; [done|done|]. intros q Hq.
    destruct (fold_res_elem _ _ _ _ _ H Hq) as (m1 & m2 & Hs). unfold partial_step in Hs.
    apply rbind_inv_ok in Hs as (ni & Hn & Hs). apply rbind_inv_ok in Hs as (bi & Hb & _).
    exists ni, bi. split_and!; [done|by eapply resolve_node_lt|done|by eapply resolve_backup_lt].
  - intros e H. simpl get_node_to_backup_index in H.
    apply fold_res_raise in H as (q & m1 & _ & Hs). unfold partial_step in Hs.
    destruct (resolve_node nodes q) eqn:E1; simpl in Hs; [|by apply (resolve_error srs nodes q); left; congruence].
    destruct (resolve_backup srs q) eqn:E2; simpl in Hs; [done|].
    apply (resolve_error srs nodes q). right. congruence.
Qed.

Example partial_restore_example :
  get_node_to_backup_index
    (Some [mkPartialRestoreRequestNode (Some 0%Z) None None (Some "u2");
           mkPartialRestoreRequestNode None (Some "h1") (Some 2%Z) None]) demo_srs demo_nodes
  = Ok [None; None; Some 1; None].
Proof. reflexivity. Qed.

End NodeMapping.
