(* ===== verification/UploadPlan.v ===== *)
(** * Distribution of uploads over the nodes ([coordinator/plugins/base.py])

    [NodeIndexData], [build_node_index_datas]: which node uploads which of
    the files that object storage does not have yet. *)

From stdpp Require Import base gmap strings list sorting.
From Stdlib Require Import ZArith Lia.
From S2P Require Import Prelude Progress Ipc.

Module UploadPlan.

Record NodeIndexData : Type := mkNodeIndexData {
  nid_node_index : nat;
  nid_sshashes : list SnapshotHash;
  nid_total_size : Z;
}.

Definition append_sshash (h : SnapshotHash) (d : NodeIndexData) : NodeIndexData :=
  mkNodeIndexData (nid_node_index d) (nid_sshashes d ++ [h]) (nid_total_size d + hash_size h).

(** [sshash_to_node_indexes.setdefault(snapshot_hash, []).append(i)] *)
Definition add_holder (i : nat) (d : list (SnapshotHash * list nat)) (h : SnapshotHash) : list (SnapshotHash * list nat) :=
  dict_alter (λ o, default [] o ++ [i]) h d.

Definition sshash_to_node_indexes (snapshots : list SnapshotResult) : list (SnapshotHash * list nat) :=
  foldl (λ d p, foldl (add_holder p.1) d (default [] (sr_hashes p.2))) [] (enumerate snapshots).

(** Sort key [(len(indexes), -sshash.size)], compared as a tuple. *)
Definition todo_leb (a b : SnapshotHash * list nat) : bool :=
  (length a.2 <? length b.2) ||
  ((length a.2 =? length b.2) && (hash_size b.1 <=? hash_size a.1)%Z).

(** [min((node_index_datas[i].total_size, i) for i in indexes)[1]] *)
Definition load_of (datas : list NodeIndexData) (i : nat) : Z :=
  default 0%Z (nid_total_size <$> datas !! i).
Definition load_ltb (datas : list NodeIndexData) (i j : nat) : bool :=
  (load_of datas i <? load_of datas j)%Z ||
  ((load_of datas i =? load_of datas j)%Z && (i <? j)).
Definition least_loaded (datas : list NodeIndexData) (i : nat) (l : list nat) : nat :=
  foldl (λ best j, if load_ltb datas j best then j else best) i l.

Definition allocate (hexdigests : gset string) (datas : list NodeIndexData)
    (item : SnapshotHash * list nat) : res (list NodeIndexData) :=
  if decide (hash_hexdigest item.1 ∈ hexdigests) then Ok datas
  else match item.2 with
       | [] => Raise ValueError
       | i :: l => Ok (alter (append_sshash item.1) (least_loaded datas i l) datas)
       end.

Definition build_node_index_datas (hexdigests : gset string) (snapshots : list SnapshotResult)
    (node_indices : list nat) : res (list NodeIndexData) :=
  if decide (length snapshots = length node_indices) then
    let datas := (λ i, mkNodeIndexData i [] 0) <$> node_indices in
    datas ← fold_res (allocate hexdigests) datas (py_sorted todo_leb (sshash_to_node_indexes snapshots));
    Ok (filter (λ d, nid_sshashes d ≠ []) datas)
  else Raise AssertionError.

(** ** The table of holders *)
Definition holders_inv (pre : list (nat * SnapshotHash)) (d : list (SnapshotHash * list nat)) : Prop :=
  NoDup d.*1 ∧
  (∀ h, h ∈ d.*1 ↔ h ∈ pre.*2) ∧
  (∀ h l, (h, l) ∈ d → l ≠ [] ∧ ∀ i, i ∈ l ↔ (i, h) ∈ pre).

Lemma add_holder_inv pre i h d :
  holders_inv pre d → holders_inv (pre ++ [(i, h)]) (add_holder i d h).
Proof.
  intros (Hnd & Hkeys & Hval). unfold add_holder. split_and!.
  - by apply dict_alter_NoDup.
  - intros h'. rewrite dict_alter_keys, fmap_app, elem_of_app, <- Hkeys.
    destruct (decide (h ∈ d.*1)) as [Hin|Hin].
    + csimpl. rewrite list_elem_of_singleton. split; [by left|]. by intros [?| ->].
    + by rewrite elem_of_app.
  - intros h' l Hin. apply dict_get_elem_of in Hin; [|by apply dict_alter_NoDup].
    destruct (decide (h = h')) as [<-|Hne].
    + rewrite dict_get_alter_eq in Hin. injection Hin as <-.
      split; [by destruct (default [] (dict_get d h))|].
      intros j. rewrite !elem_of_app, !list_elem_of_singleton.
      destruct (dict_get d h) as [l|] eqn:E; simpl.
      * apply dict_get_elem_of in E; [|done]. destruct (Hval _ _ E) as [_ Hl]. rewrite Hl.
        split; [|naive_solver]. intros [?| ->]; auto.
      * apply dict_get_None in E. split; [intros [[]%not_elem_of_nil| ->]; auto|].
        intros [Hp|[= ->]]; [|by right]. exfalso. apply E, Hkeys.
        apply list_elem_of_fmap. by exists (j, h).
    + rewrite dict_get_alter_ne in Hin by done. apply dict_get_elem_of in Hin; [|done].
      destruct (Hval _ _ Hin) as [Hnil Hl]. split; [done|]. intros j. rewrite Hl, elem_of_app.
      rewrite list_elem_of_singleton. split; [by left|]. intros [?|[= -> ->]]; done.
Qed.

(** All (holder, hash) pairs of the snapshots, in traversal order. *)
Definition holdings (snapshots : list SnapshotResult) : list (nat * SnapshotHash) :=
  enumerate snapshots ≫= λ p, pair p.1 <$> default [] (sr_hashes p.2).

Lemma elem_of_holdings snapshots i h :
  (i, h) ∈ holdings snapshots ↔
  ∃ sr, snapshots !! i = Some sr ∧ h ∈ default [] (sr_hashes sr).
Proof.
  unfold holdings. rewrite list_elem_of_bind. split.
  - intros ([j sr] & (h' & [= <- <-] & Hh)%list_elem_of_fmap & Hin%elem_of_enumerate). eauto.
  - intros (sr & Hsr & Hh). exists (i, sr). split; [by apply list_elem_of_fmap_2|].
    by apply elem_of_enumerate.
Qed.

Lemma add_holders_inv pre i hs d :
  holders_inv pre d →
  holders_inv (pre ++ (pair i <$> hs)) (foldl (add_holder i) d hs).
Proof.
  revert pre d. induction hs as [|h hs IH]; intros pre d Hd; csimpl.
  - by rewrite app_nil_r.
  - rewrite cons_middle, app_assoc. by apply IH, add_holder_inv.
Qed.

Lemma holders_of_snapshots snapshots : holders_inv (holdings snapshots) (sshash_to_node_indexes snapshots).
Proof.
  unfold sshash_to_node_indexes, holdings.
  assert (∀ l pre d, holders_inv pre d →
    holders_inv (pre ++ (l ≫= λ p : nat * SnapshotResult, pair p.1 <$> default [] (sr_hashes p.2)))
      (foldl (λ d p, foldl (add_holder p.1) d (default [] (sr_hashes p.2))) d l)) as Hgen.
  { induction l as [|p l IH]; intros pre d Hd; csimpl; [by rewrite app_nil_r|].
    rewrite app_assoc. by apply IH, add_holders_inv. }
  apply (Hgen _ []). split_and!; [constructor|done|]. by intros h l ?%not_elem_of_nil.
Qed.

(** ** Least loaded holder *)
Lemma least_loaded_spec datas i l :
  least_loaded datas i l ∈ i :: l ∧
  ∀ j, j ∈ i :: l → (load_of datas (least_loaded datas i l) ≤ load_of datas j)%Z.
Proof.
  unfold least_loaded. revert i. induction l as [|x l IH]; intros i; simpl.
  { split; [by left|]. intros j ->%list_elem_of_singleton. done. }
  destruct (load_ltb datas x i) eqn:E.
  - destruct (IH x) as [H1 H2]. split; [set_solver|].
    intros j [->|Hj]%elem_of_cons; [|by apply H2].
    etransitivity; [apply (H2 x); by left|]. unfold load_ltb in E. lia.
  - destruct (IH i) as [H1 H2]. split; [set_solver|].
    intros j [->|[->|Hj]%elem_of_cons]%elem_of_cons; [apply H2; by left| |apply H2; by right].
    etransitivity; [apply (H2 i); by left|]. unfold load_ltb in E. lia.
Qed.

(** ** The allocation loop *)
Definition planned (datas : list NodeIndexData) : list SnapshotHash := datas ≫= nid_sshashes.

Lemma planned_alter h k datas :
  k < length datas → planned (alter (append_sshash h) k datas) ≡ₚ h :: planned datas.
Proof.
  unfold planned. revert k. induction datas as [|d datas IH]; intros [|k] Hk; csimpl in *; try lia.
  - rewrite <- app_assoc. simpl. by rewrite <- Permutation_middle.
  - rewrite IH by lia. by rewrite <- Permutation_middle.
Qed.

Definition data_wf (d : NodeIndexData) : Prop :=
  nid_total_size d = foldr Z.add 0%Z (hash_size <$> nid_sshashes d).

Lemma append_sshash_wf h d : data_wf d → data_wf (append_sshash h d).
Proof.
  unfold data_wf. intros Hd. simpl. rewrite Hd, fmap_app, foldr_app. csimpl.
  generalize (hash_size <$> nid_sshashes d). intros l. induction l as [|x l IH]; simpl; lia.
Qed.

Lemma alter_Forall {A} (P : A → Prop) (f : A → A) k (l : list A) :
  (∀ x, P x → P (f x)) → Forall P l → Forall P (alter f k l).
Proof.
  intros Hf HP. revert k. induction HP as [|x l Hx HP IH]; intros [|k]; constructor; auto.
Qed.

Lemma alter_fmap_id {A B} (g : A → B) (f : A → A) k (l : list A) :
  (∀ x, g (f x) = g x) → g <$> alter f k l = g <$> l.
Proof.
  intros Hgf. revert k. induction l as [|x l IH]; intros [|k]; csimpl; f_equal; auto.
Qed.

Section plan.
Context (hexdigests : gset string) (node_indices : list nat).

Definition plan_inv (pre : list (SnapshotHash * list nat)) (datas : list NodeIndexData) : Prop :=
  nid_node_index <$> datas = node_indices ∧
  planned datas ≡ₚ filter (λ h, hash_hexdigest h ∉ hexdigests) pre.*1 ∧
  (∀ k d h, datas !! k = Some d → h ∈ nid_sshashes d → ∃ l, (h, l) ∈ pre ∧ k ∈ l) ∧
  Forall data_wf datas.

Lemma plan_inv_init : plan_inv [] ((λ i, mkNodeIndexData i [] 0) <$> node_indices).
Proof.
  split_and!.
  - rewrite <- list_fmap_compose. apply list_fmap_id.
  - unfold planned. induction node_indices; done.
  - intros k d h Hd Hh. rewrite list_lookup_fmap in Hd.
    destruct (node_indices !! k); simplify_eq/=. by apply not_elem_of_nil in Hh.
  - apply Forall_fmap, Forall_true. done.
Qed.

Lemma plan_inv_step pre item datas datas' :
  plan_inv pre datas → Forall (λ i, i < length node_indices) item.2 →
  allocate hexdigests datas item = Ok datas' → plan_inv (pre ++ [item]) datas'.
Proof.
  destruct item as [h idxs]. intros (Hni & Hperm & Hheld & Hwf) Hidx Hal. unfold allocate in Hal. simpl in *.
  assert (∀ k d h0, datas !! k = Some d → h0 ∈ nid_sshashes d →
    ∃ l, (h0, l) ∈ pre ++ [(h, idxs)] ∧ k ∈ l) as Hheld'.
  { intros k d h0 Hd Hh0. destruct (Hheld k d h0 Hd Hh0) as (l & Hl & Hk). exists l.
    split; [apply elem_of_app; by left|done]. }
  unfold plan_inv. rewrite fmap_app, filter_app. csimpl.
  destruct (decide (hash_hexdigest h ∈ hexdigests)) as [Hin|Hin].
  - injection Hal as <-. rewrite filter_cons_False by tauto. by rewrite app_nil_r.
  - destruct idxs as [|i l]; [done|]. injection Hal as <-.
    rewrite filter_cons_True by done. destruct (least_loaded_spec datas i l) as [Hk _].
    set (k := least_loaded datas i l) in *.
    assert (k < length datas) as Hlt.
    { rewrite Forall_forall in Hidx. rewrite <- Hni, length_fmap in Hidx. by apply Hidx. }
    split_and!.
    + by rewrite alter_fmap_id.
    + rewrite planned_alter, Hperm by done. by rewrite Permutation_cons_append.
    + intros k' d h0 Hd Hh0. destruct (decide (k' = k)) as [->|Hne].
      * rewrite list_lookup_alter_eq in Hd. destruct (datas !! k) as [d0|] eqn:E; simplify_eq/=.
        apply elem_of_app in Hh0 as [Hh0| ->%list_elem_of_singleton]; [by eapply Hheld'|].
        exists (i :: l). split; [|done]. apply elem_of_app. right. by left.
      * rewrite list_lookup_alter_ne in Hd by done. by eapply Hheld'.
    + apply alter_Forall; [apply append_sshash_wf|done].
Qed.
End plan.

(** ** Properties *)
Lemma todo_items snapshots h l :
  (h, l) ∈ py_sorted todo_leb (sshash_to_node_indexes snapshots) →
  l ≠ [] ∧ ∀ i, i ∈ l ↔ ∃ sr, snapshots !! i = Some sr ∧ h ∈ default [] (sr_hashes sr).
Proof.
  rewrite elem_of_py_sorted. intros Hin.
  destruct (holders_of_snapshots snapshots) as (_ & _ & Hval). destruct (Hval _ _ Hin) as [Hnil Hl].
  split; [done|]. intros i. by rewrite Hl, elem_of_holdings.
Qed.

Lemma todo_keys snapshots :
  NoDup (py_sorted todo_leb (sshash_to_node_indexes snapshots)).*1 ∧
  ∀ h, h ∈ (py_sorted todo_leb (sshash_to_node_indexes snapshots)).*1 ↔
       ∃ i sr, snapshots !! i = Some sr ∧ h ∈ default [] (sr_hashes sr).
Proof.
  destruct (holders_of_snapshots snapshots) as (Hnd & Hkeys & _). split.
  - by rewrite py_sorted_Permutation.
  - intros h. rewrite py_sorted_Permutation, Hkeys, list_elem_of_fmap. split.
    + intros ([i h'] & -> & Hin%elem_of_holdings). eauto.
    + intros (i & sr & H). exists (i, h). split; [done|]. apply elem_of_holdings. eauto.
Qed.

Lemma todo_in_range snapshots (node_indices : list nat) h l :
  length snapshots = length node_indices →
  (h, l) ∈ py_sorted todo_leb (sshash_to_node_indexes snapshots) →
  Forall (λ i, i < length node_indices) l.
Proof.
  intros Hlen [_ Hl]%todo_items. apply Forall_forall. intros i Hi.
  apply Hl in Hi as (sr & Hsr & _). rewrite <- Hlen. by eapply lookup_lt_Some.
Qed.

Lemma allocation_loop_inv hexdigests snapshots node_indices datas :
  length snapshots = length node_indices →
  fold_res (allocate hexdigests) ((λ i, mkNodeIndexData i [] 0) <$> node_indices)
    (py_sorted todo_leb (sshash_to_node_indexes snapshots)) = Ok datas →
  plan_inv hexdigests node_indices (py_sorted todo_leb (sshash_to_node_indexes snapshots)) datas.
Proof.
  intros Hlen H. eapply (fold_res_ind (plan_inv hexdigests node_indices)); [apply plan_inv_init| |exact H].
  intros pre [h l] post d1 d2 Hl Hinv Hal. eapply plan_inv_step; [done| |done].
  eapply todo_in_range; [done|]. rewrite Hl. apply elem_of_app. right. by left.
Qed.

Lemma build_plan_spec (hexdigests : gset string) (snapshots : list SnapshotResult) (node_indices : list nat) :
  length snapshots = length node_indices →
  ∃ datas, build_node_index_datas hexdigests snapshots node_indices = Ok datas ∧
    NoDup (planned datas) ∧
    (∀ h, h ∈ planned datas ↔ hash_hexdigest h ∉ hexdigests ∧
            ∃ i sr, snapshots !! i = Some sr ∧ h ∈ default [] (sr_hashes sr)) ∧
    (∀ d h, d ∈ datas → h ∈ nid_sshashes d →
       ∃ i sr, node_indices !! i = Some (nid_node_index d) ∧
               snapshots !! i = Some sr ∧ h ∈ default [] (sr_hashes sr)) ∧
    Forall (λ d, data_wf d ∧ nid_sshashes d ≠ []) datas.
Proof.
  intros Hlen. unfold build_node_index_datas. rewrite decide_True by done.
  destruct (fold_res_ok (allocate hexdigests) (py_sorted todo_leb (sshash_to_node_indexes snapshots))
    ((λ i, mkNodeIndexData i [] 0) <$> node_indices)) as [datas Hd].
  { intros [h l] s [Hnil _]%todo_items. unfold allocate. simpl. case_decide; [eauto|].
    destruct l; [done|eauto]. }
  rewrite Hd. simpl. eexists. split; [done|].
  destruct (allocation_loop_inv _ _ _ _ Hlen Hd) as (Hni & Hperm & Hheld & Hwf).
  destruct (todo_keys snapshots) as [Hnd Hkeys].
  assert (planned (filter (λ d, nid_sshashes d ≠ []) datas) = planned datas) as Hpl.
  { clear. unfold planned. induction datas as [|d datas IH]; [done|].
    destruct (decide (nid_sshashes d ≠ [])) as [Hne|He].
    - rewrite filter_cons_True by done. csimpl. by rewrite IH.
    - rewrite filter_cons_False by done. csimpl. destruct (nid_sshashes d); [done|]. by destruct He. }
  split_and!.
  - rewrite Hpl, Hperm. by apply NoDup_filter.
  - intros h. by rewrite Hpl, Hperm, list_elem_of_filter, Hkeys.
  - intros d h [_ Hdin]%list_elem_of_filter Hh.
    apply list_elem_of_lookup in Hdin as [k Hk]. destruct (Hheld k d h Hk Hh) as (l & Hl & Hkl).
    apply todo_items in Hl as [_ Hl]. apply Hl in Hkl as (sr & Hsr & Hh'). exists k, sr.
    split; [|done]. by rewrite <- Hni, list_lookup_fmap, Hk.
  - apply Forall_forall. intros d [Hne Hdin]%list_elem_of_filter. split; [|done].
    rewrite Forall_forall in Hwf. by apply Hwf.
Qed.

(** C6: The upload plan is complete, minimal and feasible: planning succeeds
    whenever there is one snapshot per node; every hash that some node holds
    and object storage lacks is planned exactly once, nothing else is; each
    planned hash goes to a node whose snapshot holds it; and each node's
    total is the sum of its hashes. *)
Theorem upload_plan_exact (hexdigests : gset string) (snapshots : list SnapshotResult) (node_indices : list nat) :
  length snapshots = length node_indices →
  ∃ datas, build_node_index_datas hexdigests snapshots node_indices = Ok datas ∧
    NoDup (planned datas) ∧
    (∀ h, h ∈ planned datas ↔ hash_hexdigest h ∉ hexdigests ∧
            ∃ i sr, snapshots !! i = Some sr ∧ h ∈ default [] (sr_hashes sr)) ∧
    (∀ d h, d ∈ datas → h ∈ nid_sshashes d →
       ∃ i sr, node_indices !! i = Some (nid_node_index d) ∧
               snapshots !! i = Some sr ∧ h ∈ default [] (sr_hashes sr)) ∧
    Forall (λ d, data_wf d ∧ nid_sshashes d ≠ []) datas.
Proof. apply build_plan_spec. Qed.

Definition demo_snapshot (hs : list (string * Z)) : SnapshotResult :=
  mkSnapshotResult "h" "az" new_progress 0 None None 0 0
    (Some ((λ p, mkSnapshotHash p.1 p.2) <$> hs)).
Definition demo_snapshots : list SnapshotResult :=
  [demo_snapshot [("x", 10%Z); ("y", 4%Z)]; demo_snapshot [("x", 10%Z); ("z", 3%Z); ("old", 1%Z)]].

Example demo_plan :
  build_node_index_datas {["old"]} demo_snapshots [0; 1] =
  Ok [mkNodeIndexData 0 [mkSnapshotHash "y" 4] 4;
      mkNodeIndexData 1 [mkSnapshotHash "z" 3; mkSnapshotHash "x" 10] 13].
Proof. vm_compute. reflexivity. Qed.

Lemma upload_plan_exact_witness :
  ∃ datas, build_node_index_datas {["old"]} demo_snapshots [0; 1] = Ok datas ∧ NoDup (planned datas).
Proof.
  destruct (upload_plan_exact {["old"]} demo_snapshots [0; 1] eq_refl) as (datas & H & Hnd & _).
  exists datas. split; assumption.
Defined.

(** ** Fairness *)
Lemma load_of_alter h k datas i :
  k < length datas →
  load_of (alter (append_sshash h) k datas) i =
  (load_of datas i + if decide (i = k) then hash_size h else 0)%Z.
Proof.
  intros Hk. unfold load_of. case_decide as Hik; [subst i|].
  - rewrite list_lookup_alter_eq. destruct (lookup_lt_is_Some_2 datas k Hk) as [d ->]. done.
  - rewrite list_lookup_alter_ne by done. lia.
Qed.

Definition balanced (n : nat) (S : Z) (datas : list NodeIndexData) : Prop :=
  length datas = n ∧ ∀ i j, i < n → j < n → (load_of datas i ≤ load_of datas j + S)%Z.

Lemma allocate_balanced hexdigests n S datas item datas' :
  balanced n S datas → (0 ≤ hash_size item.1 ≤ S)%Z → (∀ i, i < n ↔ i ∈ item.2) →
  allocate hexdigests datas item = Ok datas' → balanced n S datas'.
Proof.
  destruct item as [h l]. intros [Hlen Hbal] Hsz Hall. unfold allocate. simpl in *.
  case_decide; [intros [= <-]; done|]. destruct l as [|i0 l]; [done|]. intros [= <-].
  destruct (least_loaded_spec datas i0 l) as [Hin Hmin]. set (k := least_loaded datas i0 l) in *.
  assert (k < n) as Hk by (by apply Hall).
  split; [by rewrite length_alter|].
  intros i j Hi Hj. rewrite !load_of_alter by lia.
  pose proof (Hbal i j Hi Hj). pose proof (Hmin i (proj1 (Hall i) Hi)). pose proof (Hmin j (proj1 (Hall j) Hj)).
  repeat case_decide; subst; lia.
Qed.

(** Fairness: when every node holds every file, the greedy plan is balanced
    up to one file. For a bound [S] on the file sizes, the totals of any two
    nodes that upload differ by at most [S]; and if some node is left
    without work, no node uploads more than [S]. *)
Theorem upload_plan_balanced (hexdigests : gset string) (snapshots : list SnapshotResult)
    (node_indices : list nat) (S : Z) (datas : list NodeIndexData) :
  (∀ i j sr sr' h, snapshots !! i = Some sr → snapshots !! j = Some sr' →
     h ∈ default [] (sr_hashes sr) → h ∈ default [] (sr_hashes sr')) →
  (∀ i sr h, snapshots !! i = Some sr → h ∈ default [] (sr_hashes sr) → (0 ≤ hash_size h ≤ S)%Z) →
  (0 ≤ S)%Z →
  build_node_index_datas hexdigests snapshots node_indices = Ok datas →
  (∀ d d', d ∈ datas → d' ∈ datas → (nid_total_size d ≤ nid_total_size d' + S)%Z) ∧
  (length datas < length node_indices → ∀ d, d ∈ datas → (nid_total_size d ≤ S)%Z).
Proof.
  intros Hrep Hsize HS H. unfold build_node_index_datas in H.
  destruct (decide (length snapshots = length node_indices)) as [Hlen|]; [|done].
  apply rbind_inv_ok in H as (ds & Hd & [= <-]).
  destruct (allocation_loop_inv _ _ _ _ Hlen Hd) as (Hni & _ & _ & Hwf).
  assert (balanced (length node_indices) S ds) as [Hl Hbal].
  { eapply (fold_res_ind (λ _, balanced (length node_indices) S)); [| |exact Hd].
    - split; [by rewrite length_fmap|]. intros i j Hi Hj. unfold load_of.
      rewrite !list_lookup_fmap. destruct (node_indices !! i), (node_indices !! j); simpl; lia.
    - intros pre [h l] post d1 d2 Hpost Hb Hal.
      assert ((h, l) ∈ py_sorted todo_leb (sshash_to_node_indexes snapshots)) as [Hnil Hit]%todo_items.
      { rewrite Hpost. apply elem_of_app. right. by left. }
      assert (∃ i sr, snapshots !! i = Some sr ∧ h ∈ default [] (sr_hashes sr)) as (i0 & sr0 & Hsr0 & Hh0).
      { destruct l as [|i l]; [done|]. destruct (proj1 (Hit i) (list_elem_of_here _ _)) as (sr & ?). eauto. }
      apply (allocate_balanced hexdigests _ S d1 (h, l)); [done|exact (Hsize _ _ _ Hsr0 Hh0)| |done]. cbn [snd]. intros i. rewrite Hit. split.
      + intros Hi. rewrite <- Hlen in Hi. destruct (lookup_lt_is_Some_2 _ _ Hi) as [sr Hsr]. eauto.
      + intros (sr & Hsr & _). rewrite <- Hlen. by eapply lookup_lt_Some. }
  assert (∀ d, d ∈ ds → ∃ i, i < length node_indices ∧ nid_total_size d = load_of ds i) as Hload.
  { intros d [i Hi]%list_elem_of_lookup. exists i. split; [rewrite <- Hl; by eapply lookup_lt_Some|].
    unfold load_of. by rewrite Hi. }
  split.
  - intros d d' [_ Hin]%list_elem_of_filter [_ Hin']%list_elem_of_filter.
    destruct (Hload d Hin) as (i & Hi & ->), (Hload d' Hin') as (j & Hj & ->). auto.
  - intros Hshort d [_ Hin]%list_elem_of_filter. destruct (Hload d Hin) as (i & Hi & ->).
    assert (∃ d0, d0 ∈ ds ∧ nid_sshashes d0 = []) as (d0 & Hd0 & Hnil).
    { rewrite <- Hl in Hshort. clear -Hshort. induction ds as [|d0 ds IH]; simpl in *; [lia|].
      destruct (decide (nid_sshashes d0 ≠ [])) as [Hne|He].
      - rewrite filter_cons_True in Hshort by done. simpl in *.
        destruct IH as (d1 & ? & ?); [lia|]. exists d1. split; [by right|done].
      - exists d0. split; [by left|]. destruct (nid_sshashes d0); [done|]. by destruct He. }
    destruct (Hload d0 Hd0) as (j & Hj & Hjl). specialize (Hbal i j Hi Hj).
    rewrite Forall_forall in Hwf. specialize (Hwf d0 Hd0). unfold data_wf in Hwf.
    rewrite Hnil in Hwf. simpl in Hwf. lia.
Qed.

Definition demo_replicas : list SnapshotResult :=
  [demo_snapshot [("x", 10%Z); ("y", 4%Z); ("z", 3%Z)]; demo_snapshot [("x", 10%Z); ("y", 4%Z); ("z", 3%Z)]].

Lemma upload_plan_balanced_witness :
  build_node_index_datas ∅ demo_replicas [0; 1] =
    Ok [mkNodeIndexData 0 [mkSnapshotHash "x" 10] 10;
        mkNodeIndexData 1 [mkSnapshotHash "y" 4; mkSnapshotHash "z" 3] 7] ∧
  (10 ≤ 7 + 10)%Z.
Proof.
  split; [vm_compute; reflexivity|].
  assert (∀ i sr, demo_replicas !! i = Some sr → sr = demo_snapshot [("x", 10%Z); ("y", 4%Z); ("z", 3%Z)]) as Hsr.
  { intros [|[|i]] sr Hi; [by injection Hi as <-|by injection Hi as <-|discriminate Hi]. }
  refine (proj1 (upload_plan_balanced ∅ demo_replicas [0; 1] 10 _ _ _ _ _)
    (mkNodeIndexData 0 [mkSnapshotHash "x" 10] 10)
    (mkNodeIndexData 1 [mkSnapshotHash "y" 4; mkSnapshotHash "z" 3] 7) _ _); [..|vm_compute; reflexivity| |].
  - intros i j sr sr' h Hi%Hsr Hj%Hsr. by subst.
  - intros i sr h ->%Hsr Hh. simpl in Hh.
    repeat (apply elem_of_cons in Hh as [->|Hh]; [simpl; lia|]). by apply not_elem_of_nil in Hh.
  - lia.
  - by left.
  - right. by left.
Defined.

End UploadPlan.
