(* ===== verification/NodeLock.v ===== *)
(** * The lock of a node ([node/state.py], the lock endpoints of [node/api.py])

    A node is locked by at most one locker, for a limited time.  [clock i] is
    the [i]-th reading of [time.monotonic()] made by a call; durations are in
    the unit of the clock. *)

From stdpp Require Import base gmap strings list.
From Stdlib Require Import ZArith Lia.
From S2P Require Import Prelude.

Local Open Scope Z_scope.

Module NodeLock.

Record LockEntry : Type := mkLockEntry {
  locker : string;
  locked_until : Z;
}.

(** [_lock] of [NodeState]. *)
Definition state : Type := option LockEntry.

(** [is_locked]: [None] is [False]; the string is falsy when empty. *)
Definition is_locked (now : Z) (st : state) : option string :=
  match st with
  | None => None
  | Some l => if locked_until l <? now then None else Some (locker l)
  end.

Definition truthy (o : option string) : bool :=
  match o with Some s => bool_decide (s ≠ "") | None => false end.

Definition state_lock (now : Z) (who : string) (ttl : Z) : M state unit :=
  put (Some (mkLockEntry who (now + ttl))).

Definition state_unlock : M state unit :=
  st ← get; py_assert (bool_decide (is_Some st)) ;; put None.

(** ** The endpoints, each under [mutate_lock].  The result is the value of
    ["locked"] in the response. *)
Definition lock (clock : nat → Z) (who : string) (ttl : Z) : M state bool :=
  st ← get;
  if truthy (is_locked (clock 0%nat) st) then raise (HTTPException 409)
  else state_lock (clock 1%nat) who ttl ;; mret true.

Definition relock (clock : nat → Z) (who : string) (ttl : Z) : M state bool :=
  st ← get;
  if negb (truthy (is_locked (clock 0%nat) st)) then raise (HTTPException 409)
  else if decide (is_locked (clock 1%nat) st ≠ Some who) then raise (HTTPException 403)
  else state_lock (clock 2%nat) who ttl ;; mret true.

Definition unlock (clock : nat → Z) (who : string) : M state bool :=
  st ← get;
  if negb (truthy (is_locked (clock 0%nat) st)) then raise (HTTPException 409)
  else if decide (is_locked (clock 1%nat) st ≠ Some who) then raise (HTTPException 403)
  else state_unlock ;; mret false.

(** ** [still_locked_callback]

    The generator yields [True] while the lock is held by the original locker
    and [False] for ever after. *)
Record callback : Type := mkCallback {
  original_locker : string;
  exhausted : bool;
}.

Definition still_locked_callback (st : state) : res callback :=
  match st with
  | None => Raise AssertionError
  | Some l => Ok (mkCallback (locker l) false)
  end.

Definition call (now : Z) (st : state) (cb : callback) : bool * callback :=
  if exhausted cb then (false, cb)
  else if decide (is_locked now st = Some (original_locker cb)) then (true, cb)
  else (false, mkCallback (original_locker cb) true).

(** The calls of one callback along a history of the node. *)
Fixpoint calls (cb : callback) (history : list (Z * state)) : list bool :=
  match history with
  | [] => []
  | (now, st) :: h => let '(b, cb') := call now st cb in b :: calls cb' h
  end.

(** ** Requests *)
Inductive request : Type :=
| Lock (who : string) (ttl : Z)
| Relock (who : string) (ttl : Z)
| Unlock (who : string).

Definition who_asks (r : request) : string :=
  match r with Lock w _ | Relock w _ | Unlock w => w end.

Definition handle (clock : nat → Z) (r : request) : M state bool :=
  match r with
  | Lock who ttl => lock clock who ttl
  | Relock who ttl => relock clock who ttl
  | Unlock who => unlock clock who
  end.

(** [who] holds the lock at least until [until]. *)
Definition holds (who : string) (until : Z) (st : state) : Prop :=
  ∃ l, st = Some l ∧ locker l = who ∧ until ≤ locked_until l.

Lemma holds_is_locked who until st now : holds who until st → now ≤ until → is_locked now st = Some who.
Proof.
  intros (l & -> & <- & Hl) Hn. simpl. assert ((locked_until l <? now) = false) as -> by lia. done.
Qed.

(** What a request does while [who] holds the lock. *)
Lemma handle_held who until st clock r :
  who ≠ "" → holds who until st → (∀ i, clock i ≤ until) →
  match r with
  | Lock _ _ => handle clock r st = (st, Raise (HTTPException 409))
  | Relock w ttl => if decide (w = who) then handle clock r st = (Some (mkLockEntry who (clock 2%nat + ttl)), Ok true)
                    else handle clock r st = (st, Raise (HTTPException 403))
  | Unlock w => if decide (w = who) then handle clock r st = (None, Ok false)
                else handle clock r st = (st, Raise (HTTPException 403))
  end.
Proof.
  intros Hw Hh Hc.
  pose proof (holds_is_locked _ _ _ (clock 0%nat) Hh (Hc 0%nat)) as H0.
  pose proof (holds_is_locked _ _ _ (clock 1%nat) Hh (Hc 1%nat)) as H1.
  assert (truthy (is_locked (clock 0%nat) st) = true) as Ht.
  { rewrite H0. simpl. by apply bool_decide_eq_true. }
  destruct r as [w ttl|w ttl|w]; simpl; unfold lock, relock, unlock; erewrite bind_ok by done; rewrite Ht; simpl.
  - done.
  - rewrite H1. case_decide as He.
    + subst. rewrite decide_False by auto. done.
    + rewrite decide_True by congruence. done.
  - rewrite H1. case_decide as He.
    + subst. rewrite decide_False by auto. destruct Hh as (l & -> & _). done.
    + rewrite decide_True by congruence. done.
Qed.

(** A history: requests in the order the mutex serialises them, each with its
    readings of the clock. *)
Fixpoint run (history : list ((nat → Z) * request)) (st : state) : state * list (res bool) :=
  match history with
  | [] => (st, [])
  | (clock, r) :: h =>
      let '(st1, o) := handle clock r st in
      let '(st2, os) := run h st1 in (st2, o :: os)
  end.

(** Mutual exclusion on a node.  While a locker (with a non-empty name)
    holds the lock, that is up to the end of its lease, any sequence of
    requests by other lockers is refused request by request, with 409 for
    [lock] and 403 for [relock] and [unlock], and the lease stays. *)
Theorem node_lock_exclusive (who : string) (until : Z) (history : list ((nat → Z) * request)) (st : state) :
  who ≠ "" → holds who until st →
  Forall (λ cr, who_asks cr.2 ≠ who ∧ ∀ i, cr.1 i ≤ until) history →
  run history st =
  (st, (λ cr, Raise (HTTPException (match cr.2 with Lock _ _ => 409 | _ => 403 end))) <$> history).
Proof.
  intros Hw Hh Hall. induction Hall as [|[clock r] h [Hr Hc] Hall IH]; [done|].
  cbn [run]. pose proof (handle_held who until st clock r Hw Hh Hc) as H. simpl in Hr, Hc.
  assert (handle clock r st = (st, Raise (HTTPException (match r with Lock _ _ => 409 | _ => 403 end)))) as ->.
  { destruct r as [w ttl|w ttl|w]; simpl in Hr |- *; [done|by rewrite decide_False in H|by rewrite decide_False in H]. }
  by rewrite IH.
Qed.

Lemma node_lock_exclusive_witness :
  run [(λ _, 50, Lock "b" 100); (λ _, 60, Relock "b" 100); (λ _, 70, Unlock "b")] (Some (mkLockEntry "a" 100)) =
  (Some (mkLockEntry "a" 100), [Raise (HTTPException 409); Raise (HTTPException 403); Raise (HTTPException 403)]).
Proof.
  apply (node_lock_exclusive "a" 100 [(λ _, 50, Lock "b" 100); (λ _, 60, Relock "b" 100); (λ _, 70, Unlock "b")]
    (Some (mkLockEntry "a" 100))).
  - done.
  - exists (mkLockEntry "a" 100). done.
  - repeat constructor; done.
Defined.

(** A granted lock request makes the requester the holder for its whole
    time to live; the requester can extend and release it while it is held,
    and an expired lock can be taken by anyone. *)
Theorem lock_grants_lease (clock : nat → Z) (r : request) (st st' : state) :
  (∀ i, clock i ≤ clock (S i)) →
  (handle clock r st = (st', Ok true) →
     ∃ ttl, (r = Lock (who_asks r) ttl ∨ r = Relock (who_asks r) ttl) ∧ holds (who_asks r) (clock 0%nat + ttl) st') ∧
  (handle clock r st = (st', Ok false) → r = Unlock (who_asks r) ∧ st' = None) ∧
  (∀ who ttl, r = Lock who ttl → is_locked (clock 0%nat) st = None →
     handle clock r st = (Some (mkLockEntry who (clock 1%nat + ttl)), Ok true)).
Proof.
  intros Hmono. pose proof (Hmono 0%nat) as H0. pose proof (Hmono 1%nat) as H1.
  split; [|split].
  - destruct r as [w ttl|w ttl|w]; simpl; unfold lock, relock, unlock; erewrite bind_ok by done.
    + destruct (truthy _); [done|]. intros [= <-]. exists ttl. split; [by left|].
      eexists. split; [done|]. simpl. split; [done|lia].
    + destruct (negb _); [done|]. case_decide; [done|]. intros [= <-]. exists ttl. split; [by right|].
      eexists. split; [done|]. simpl. split; [done|lia].
    + destruct (negb _); [done|]. case_decide; [done|]. intros H2. minv H2. by injection H2.
  - destruct r as [w ttl|w ttl|w]; simpl; unfold lock, relock, unlock; erewrite bind_ok by done.
    + by destruct (truthy _).
    + destruct (negb _); [done|]. by case_decide.
    + destruct (negb _); [done|]. case_decide; [done|]. intros H2. minv H2. injection H2 as <-.
      split; [done|]. unfold state_unlock in H3. minv H3. minv H3. by injection H3.
  - intros who ttl -> Hl. simpl. unfold lock. erewrite bind_ok by done. by rewrite Hl.
Qed.

Lemma lock_grants_lease_witness :
  let clock (i : nat) := 10 + Z.of_nat i in
  handle clock (Lock "b" 5) (Some (mkLockEntry "a" 7)) = (Some (mkLockEntry "b" 16), Ok true) ∧
  ∃ ttl, (Lock "b" 5 = Lock "b" ttl ∨ Lock "b" 5 = Relock "b" ttl) ∧ holds "b" (10 + ttl) (Some (mkLockEntry "b" 16)).
Proof.
  intros clock. split; [reflexivity|].
  apply (lock_grants_lease clock (Lock "b" 5) (Some (mkLockEntry "a" 7)) (Some (mkLockEntry "b" 16))); [|reflexivity].
  intros i. unfold clock. lia.
Defined.

(** A background operation never regains a lost lock: the answers of
    its callback are [True] up to some call and [False] from then on, even if
    the same locker takes the lock again, and a [True] answer means that the
    operation's locker holds an unexpired lock at that instant. *)
Theorem still_locked_monotone (cb : callback) (history : list (Z * state)) :
  exhausted cb = false →
  ∃ k, calls cb history = replicate k true ++ replicate (length history - k) false ∧ (k ≤ length history)%nat ∧
    ∀ i now st, (i < k)%nat → history !! i = Some (now, st) → is_locked now st = Some (original_locker cb).
Proof.
  assert (∀ l h, calls (mkCallback l true) h = replicate (length h) false) as Hex.
  { intros l h. induction h as [|[now st] h IH]; [done|]. simpl. by rewrite IH. }
  intros He. induction history as [|[now st] h IH].
  { exists 0%nat. split; [done|]. split; [done|]. intros; lia. }
  cbn [calls]. unfold call. rewrite He. case_decide as Hl.
  - destruct IH as (k & -> & Hk & Hi). exists (S k). split; [done|]. split; [simpl; lia|].
    intros [|i] now' st' Hlt Hlook; simpl in Hlook; [by injection Hlook as <- <-|].
    eapply Hi; [|done]. lia.
  - exists 0%nat. split; [|split; [simpl; lia|intros; lia]]. rewrite Hex. done.
Qed.

Lemma still_locked_monotone_witness :
  let l := Some (mkLockEntry "a" 100) in
  ∃ k, calls (mkCallback "a" false) [(1, l); (2, None); (3, l)] = replicate k true ++ replicate (3 - k) false ∧
    (k ≤ 3)%nat ∧ ∀ i now st, (i < k)%nat → [(1, l); (2, None); (3, l)] !! i = Some (now, st) →
      is_locked now st = Some "a".
Proof.
  intros l. apply (still_locked_monotone (mkCallback "a" false) [(1, l); (2, None); (3, l)]). reflexivity.
Defined.
End NodeLock.
