(* ===== verification/Cluster.v ===== *)
(** * The cluster of nodes, seen from the coordinator ([coordinator/cluster.py],
      [httpx_request] of [common/utils.py], the lock handling of
      [LockedCoordinatorOp] in [coordinator/coordinator.py] and
      [coordinator/lockops.py])

    What the coordinator knows of the outside is a record of operations
    [ClusterEnv] on an abstract environment [E]: one HTTP exchange with a
    node, one poll of a status URL, the clock and sleeping. *)

From stdpp Require Import base gmap strings list.
From Stdlib Require Import ZArith Lia.
From S2P Require Import Prelude Progress Ipc Op Utils NodeLock.

Local Open Scope Z_scope.

Module Cluster.

(** ** HTTP exchanges *)

(** A decoded JSON body, by what the coordinator can make of it; [BEmpty] is a
    falsy value. *)
Inductive Body : Type :=
| BLocked (locked : bool)
| BStart (op_id : Z) (status_url : string)
| BMetadata (m : MetadataResult)
| BSnapshot (r : SnapshotResult)
| BUpload (r : SnapshotUploadResult)
| BNode (r : NodeResult)
| BSchemaHash (r : CassandraGetSchemaHashResult)
| BEmpty
| BOther.

(** What [client.request] does: a response, possibly without a JSON body, an
    exception that [httpx_request] catches, or another one. *)
Inductive Reply : Type :=
| Replied (status : Z) (body : option Body)
| HttpFailure
| OtherFailure.

Inductive Result : Type :=
| RNone
| RException
| RResponse (status : Z) (body : option Body)
| RJson (body : Body).

Definition is_error (status : Z) : bool := (400 <=? status) && (status <=? 599).

(** [httpx_request] as awaited by [gather(return_exceptions=True)]. *)
Definition httpx_request (json ignore_status_code : bool) (reply : Reply) : Result :=
  match reply with
  | Replied status body =>
      if negb (is_error status) || ignore_status_code then
        if json then match body with Some b => RJson b | None => RException end
        else RResponse status body
      else RNone
  | HttpFailure => RNone
  | OtherFailure => RException
  end.

(** Urls of a node are [f"{node.url}/{url}"]; lock calls are kept apart from
    the other urls, whose query strings are empty. *)
Inductive Path : Type :=
| PLock (call : LockCall) (locker : string) (ttl : Z)
| PPath (url : string).

Record ClusterEnv (E : Type) : Type := mkClusterEnv {
  env_request : CoordinatorNode → Path → NodeRequest → M E Reply;
  env_poll : string → M E (option Body);
  env_now : M E Z;
  env_sleep : Z → M E unit;
}.
Arguments env_request {E}. Arguments env_poll {E}. Arguments env_now {E}. Arguments env_sleep {E}.

Record PollConfig : Type := mkPollConfig {
  delay_start : Z; delay_multiplier : Z; delay_max : Z; poll_duration : Z; maximum_failures : Z;
}.

Inductive LockResult : Type := ok | failure | exception.
#[global] Instance LockResult_eq_dec : EqDecision LockResult. Proof. solve_decision. Defined.

Lemma collect_length {W A B} (l : list A) (f : A → M W B) w w' ys :
  collect l f w = (w', Ok ys) → length ys = length l.
Proof.
  revert w ys. induction l as [|x l IH]; intros w ys H; [by injection H as <- <-|].
  cbn [collect] in H. minv H. minv H. injection H as <- <-. simpl. f_equal. by eapply IH.
Qed.

Section cluster.
Context {E : Type} (env : ClusterEnv E) (cluster_nodes : list CoordinatorNode).

(** ** [request_from_nodes]

    The [result_url] written into each request is not part of [NodeRequest]. *)
Definition request_from_nodes (url : Path) (req : option NodeRequest) (reqs : option (list NodeRequest))
    (nodes : option (list CoordinatorNode)) (json ignore_status_code : bool) : M E (list Result) :=
  let nodes := default cluster_nodes nodes in
  match nodes with
  | [] => mret []
  | _ =>
      reqs ← match reqs with
             | Some l => py_assert (bool_decide (req = None)) ;; mret l
             | None => mret ((λ _, default PlainNodeRequest req) <$> nodes)
             end;
      py_assert (bool_decide (reqs ≠ [])) ;;
      py_assert (bool_decide (length reqs = length nodes)) ;;
      collect (zip reqs nodes) (λ rn, r ← env_request env rn.2 url rn.1;
                                      mret (httpx_request json ignore_status_code r))
  end.

Lemma request_from_nodes_length url req reqs nodes json ignore e e' rs :
  request_from_nodes url req reqs nodes json ignore e = (e', Ok rs) → length rs = length (default cluster_nodes nodes).
Proof.
  unfold request_from_nodes. destruct (default cluster_nodes nodes) as [|n ns]; [by intros [= <- <-]|].
  intros (e1 & l & _ & H)%bind_inv_ok. apply bind_inv_ok in H as (e2 & [] & _ & H). apply bind_inv_ok in H as (e3 & [] & Ha & H).
  unfold py_assert in Ha. case_bool_decide as Hlen; [|done]. apply collect_length in H. rewrite H, length_zip_with. lia.
Qed.

(** ** Lock calls *)
Definition expected_result (call : LockCall) : bool :=
  match call with LockCall_lock | LockCall_relock => true | LockCall_unlock => false end.

(** One iteration of the loop over the results. *)
Definition lock_result_step (call : LockCall) (rv : LockResult) (result : Result) : res LockResult :=
  match result with
  | RJson _ => Raise AssertionError
  | RNone | RException => Ok (if decide (rv = failure) then failure else exception)
  | RResponse status body =>
      if is_error status then Ok failure
      else match body with
           | Some (BLocked b) => Ok (if Bool.eqb b (expected_result call) then rv else failure)
           | _ => Ok failure
           end
  end.

Definition request_lock_call_from_nodes (call : LockCall) (locker : string) (ttl : Z)
    (nodes : list CoordinatorNode) : M E LockResult :=
  results ← request_from_nodes (PLock call locker ttl) None None (Some nodes) false true;
  lift_res (fold_res (lock_result_step call) ok (take (length nodes) results)).

Definition request_lock (locker : string) (ttl : Z) : M E LockResult :=
  request_lock_call_from_nodes LockCall_lock locker ttl cluster_nodes.
Definition request_unlock (locker : string) : M E LockResult :=
  request_lock_call_from_nodes LockCall_unlock locker 0 cluster_nodes.
Definition request_relock (node : CoordinatorNode) (locker : string) (ttl : Z) : M E LockResult :=
  py_assert (bool_decide (node ∈ cluster_nodes)) ;;
  request_lock_call_from_nodes LockCall_relock locker ttl [node].

(** [acquire_cluster_lock] up to the function it returns. *)
Definition acquire_cluster_lock (locker : string) (ttl : Z) : M E unit :=
  r ← request_lock locker ttl;
  if decide (r = ok) then mret tt
  else request_unlock locker ;; raise (HTTPException 409).

(** ** [LockOps] of [coordinator/lockops.py]; [set_status_fail] is the
    operation's. *)
Definition lockops_lock (set_status_fail : M E unit) (locker : string) (ttl : Z) : M E unit :=
  r ← request_lock locker ttl;
  if decide (r = ok) then mret tt else set_status_fail ;; request_unlock locker ;; mret tt.

(** [unlock] compares the coroutine object [cluster.request_unlock(...)],
    which it does not await, with [LockResult.ok]: the comparison is false and
    no request is sent. *)
Definition lockops_unlock (set_status_fail : M E unit) (locker : string) : M E unit :=
  let is_LockResult_ok_of_a_coroutine := false in
  if negb is_LockResult_ok_of_a_coroutine then set_status_fail else mret tt.

(** ** [wait_successful_results] *)

(** The checks of the first loop: the status urls. *)
Definition start_url (r : Result) : res string :=
  match r with
  | RNone | RException | RJson BEmpty => Raise WaitResultError
  | RJson (BStart _ url) => Ok url
  | RJson _ | RResponse _ _ => Raise ValueError
  end.

Fixpoint start_urls (rs : list Result) : res (list string) :=
  match rs with
  | [] => Ok []
  | r :: rs' => url ← start_url r; urls ← start_urls rs'; Ok (url :: urls)
  end.

Section wait.
Context (poll_config : PollConfig).
(** The result class: how a body is decoded and where its progress is. *)
Context {NR : Type} (decode : Body → res NR) (progress : NR → Progress).
(** [progress_handler], when one is set. *)
Context (progress_handler : option (Progress → M E unit)).

Definition backoff_config : Backoff.config :=
  Backoff.mkConfig (delay_start poll_config) None (delay_multiplier poll_config)
    (Some (delay_max poll_config)) (Some (poll_duration poll_config)).

(** One node of one round: index [i], its url; the state of the round is the
    results so far and the failure counts. *)
Definition poll_node (i : nat) (url : string) (st : list (option NR) * list Z) :
    M E (list (option NR) * list Z) :=
  let '(results, failures) := st in
  let result := default None (results !! i) in
  if match result with Some r => final (progress r) | None => false end then mret st
  else
    r ← env_poll env url;
    match r with
    | None =>
        let n := default 0 (failures !! i) + 1 in
        if maximum_failures poll_config <=? n then raise WaitResultError
        else mret (results, <[i := n]> failures)
    | Some body =>
        r ← lift_res (decode body);
        let results := <[i := Some r]> results in
        let failures := <[i := 0]> failures in
        match progress_handler with
        | Some h => h (Progress.merge (Progress.OneShot (progress <$> omap id results)))
        | None => mret tt
        end ;;
        if Progress.finished_failed (progress r) then raise WaitResultError else mret (results, failures)
    end.

Fixpoint poll_round (i : nat) (urls : list string) (st : list (option NR) * list Z) :
    M E (list (option NR) * list Z) :=
  match urls with
  | [] => mret st
  | url :: urls' => st' ← poll_node i url st; poll_round (S i) urls' st'
  end.

Definition all_final (results : list (option NR)) : bool :=
  forallb (λ r, match r with Some x => final (progress x) | None => false end) results.

(** The [async for]; a pass takes one unit of fuel, [None] is out of fuel. *)
Fixpoint poll_loop (fuel : nat) (it : Backoff.iter) (urls : list string)
    (st : list (option NR) * list Z) : M E (option (list NR)) :=
  match fuel with
  | O => mret None
  | S fuel' =>
      t ← env_now env;
      n ← lift_res (Backoff.next backoff_config it t);
      match n with
      | (None, _) => raise WaitResultError
      | (Some (_, d), it') =>
          (if 0 <? d then env_sleep env d else mret tt) ;;
          st' ← poll_round 0 urls st;
          if all_final st'.1 then mret (Some (omap id st'.1)) else poll_loop fuel' it' urls st'
      end
  end.

Definition wait_successful_results (fuel : nat) (start_results : list Result) : M E (option (list NR)) :=
  urls ← lift_res (start_urls start_results);
  if decide (length urls ≠ length start_results) then raise WaitResultError
  else poll_loop fuel Backoff.new_iter urls (replicate (length urls) None, replicate (length urls) 0).

(** *** Soundness: what is returned is final and successful *)
Definition not_failed (o : option NR) : Prop :=
  match o with Some r => Progress.finished_failed (progress r) = false | None => True end.

Definition round_ok (n : nat) (st : list (option NR) * list Z) : Prop :=
  length st.1 = n ∧ Forall not_failed st.1.

Lemma poll_node_ok n i url st e e' st' :
  round_ok n st → poll_node i url st e = (e', Ok st') → round_ok n st'.
Proof.
  destruct st as [results failures]. intros [Hlen Hall] H. unfold poll_node in H.
  destruct (match default None (results !! i) with Some r => _ | None => _ end); [by injection H as <- <-|].
  minv H. destruct a as [body|].
  - minv H. minv H. destruct (Progress.finished_failed (progress a)) eqn:Ef; [done|]. injection H as <- <-.
    split; simpl; [by rewrite length_insert|]. apply Forall_insert; [done|]. done.
  - destruct (_ <=? _); [done|]. injection H as <- <-. by split.
Qed.

Lemma poll_round_ok n i urls st e e' st' :
  round_ok n st → poll_round i urls st e = (e', Ok st') → round_ok n st'.
Proof.
  revert i st e. induction urls as [|url urls IH]; intros i st e Hst H; cbn [poll_round] in H.
  - by injection H as <- <-.
  - minv H. eapply IH; [|exact H]. by eapply poll_node_ok.
Qed.

Lemma all_final_successful results :
  Forall not_failed results → all_final results = true →
  length (omap id results) = length results ∧
  Forall (λ r, Progress.finished_successfully (progress r) = true) (omap id results).
Proof.
  unfold all_final. induction 1 as [|[r|] results Hr Hall IH]; cbn [forallb]; [done| |done].
  intros [Hf Hrest]%andb_true_iff. destruct (IH Hrest) as [Hl Hs].
  change (omap id (Some r :: results)) with (r :: omap id results).
  split; [cbn [length]; by rewrite Hl|].
  constructor; [|done]. simpl in Hr. unfold Progress.finished_failed in Hr. rewrite Hf in Hr.
  by destruct (Progress.finished_successfully (progress r)).
Qed.

Lemma poll_loop_sound n fuel it urls st e e' rs :
  round_ok n st → poll_loop fuel it urls st e = (e', Ok (Some rs)) →
  length rs = n ∧ Forall (λ r, Progress.finished_successfully (progress r) = true) rs.
Proof.
  revert it st e. induction fuel as [|fuel IH]; intros it st e Hst H; [done|].
  cbn [poll_loop] in H. minv H. minv H. destruct a0 as [[[k d]|] it']; [|done].
  minv H. minv H. pose proof (poll_round_ok _ _ _ _ _ _ _ Hst H3) as Hst'.
  destruct (all_final a1.1) eqn:Ef.
  - injection H as <- <-. destruct Hst' as [Hlen Hnf].
    destruct (all_final_successful _ Hnf Ef) as [Hl Hs]. split; [congruence|done].
  - by eapply IH.
Qed.

Lemma start_urls_length rs urls : start_urls rs = Ok urls → length urls = length rs.
Proof.
  revert urls. induction rs as [|r rs IH]; intros urls H; cbn [start_urls] in H; [by injection H as <-|].
  apply rbind_inv_ok in H as (u & _ & H). apply rbind_inv_ok in H as (us & Hus & H).
  injection H as <-. simpl. f_equal. auto.
Qed.

Lemma wait_sound fuel start_results e e' rs :
  wait_successful_results fuel start_results e = (e', Ok (Some rs)) →
  length rs = length start_results ∧ Forall (λ r, Progress.finished_successfully (progress r) = true) rs.
Proof.
  unfold wait_successful_results. intros H. minv H. unfold lift_res in H0. injection H0 as <- Hu.
  case_decide as Hl; [done|]. apply poll_loop_sound with (n := length start_results) in H; [done|].
  apply start_urls_length in Hu. split; simpl; [by rewrite length_replicate|].
  apply Forall_replicate. done.
Qed.

(** *** Moves: what the loop preserves

    [R] relates an environment to those its actions lead to. *)
Section moves.
Context (R : E → E → Prop) `{!PreOrder R}.
Context (HRnow : ∀ e, R e (fst (env_now env e))) (HRsleep : ∀ d e, R e (fst (env_sleep env d e)))
  (HRpoll : ∀ url e, R e (fst (env_poll env url e)))
  (HRhandler : ∀ h p e, progress_handler = Some h → R e (fst (h p e))).

Lemma request_from_nodes_R path req reqs nodes j ig e :
  (∀ node path req e, R e (fst (env_request env node path req e))) →
  R e (fst (request_from_nodes path req reqs nodes j ig e)).
Proof using PreOrder0.
  intros Hreq. assert (∀ b e, R e (fst (py_assert b e))) as Hassert by (intros [] e1; simpl; reflexivity).
  unfold request_from_nodes. destruct (default cluster_nodes nodes) as [|n ns]; [simpl; reflexivity|].
  apply (R_bind R).
  { destruct reqs; [|simpl; reflexivity]. apply (R_bind R); [apply Hassert|]. intros; simpl; reflexivity. }
  intros l e1. apply (R_bind R); [apply Hassert|]. intros _ e2. apply (R_bind R); [apply Hassert|]. intros _ e3.
  apply (R_collect R). intros rn e4. apply (R_bind R); [apply Hreq|]. intros; simpl; reflexivity.
Qed.

Lemma poll_node_R i url st e : R e (fst (poll_node i url st e)).
Proof using PreOrder0 HRpoll HRhandler.
  destruct st as [results failures]. unfold poll_node.
  destruct (match default None (results !! i) with Some r => _ | None => _ end); [simpl; reflexivity|].
  apply (R_bind R); [apply HRpoll|]. intros [body|] e1.
  - apply (R_bind R); [simpl; reflexivity|]. intros r e2. apply (R_bind R).
    + destruct progress_handler as [h|] eqn:Eh; [by apply HRhandler|simpl; reflexivity].
    + intros _ e3. destruct (Progress.finished_failed _); simpl; reflexivity.
  - destruct (_ <=? _); simpl; reflexivity.
Qed.

Lemma poll_round_R i urls st e : R e (fst (poll_round i urls st e)).
Proof using PreOrder0 HRpoll HRhandler.
  revert i st e. induction urls as [|url urls IH]; intros i st e; [simpl; reflexivity|].
  cbn [poll_round]. apply (R_bind R); [apply poll_node_R|]. intros. apply IH.
Qed.

Lemma poll_loop_R fuel it urls st e : R e (fst (poll_loop fuel it urls st e)).
Proof using PreOrder0 HRnow HRsleep HRpoll HRhandler.
  revert it st e. induction fuel as [|fuel IH]; intros it st e; [simpl; reflexivity|].
  cbn [poll_loop]. apply (R_bind R); [apply HRnow|]. intros t e1. apply (R_bind R); [simpl; reflexivity|].
  intros [[[n d]|] it'] e2; [|simpl; reflexivity]. apply (R_bind R).
  - destruct (0 <? d); [apply HRsleep|simpl; reflexivity].
  - intros _ e3. apply (R_bind R); [apply poll_round_R|]. intros st' e4.
    destruct (all_final st'.1); [simpl; reflexivity|apply IH].
Qed.

Lemma wait_R fuel start_results e : R e (fst (wait_successful_results fuel start_results e)).
Proof using PreOrder0 HRnow HRsleep HRpoll HRhandler.
  unfold wait_successful_results. apply (R_bind R); [simpl; reflexivity|]. intros urls e1.
  case_decide; [simpl; reflexivity|]. apply poll_loop_R.
Qed.
End moves.

(** *** Provenance: each result is the answer to a poll of its own url *)
Section provenance.
Context (R : E → E → Prop) `{!PreOrder R} (Q : string → NR → E → Prop).
(** Every action of the loop moves the environment along [R], [Q] is stable
    along [R], and a successful answer establishes it. *)
Context (HRnow : ∀ e, R e (fst (env_now env e))) (HRsleep : ∀ d e, R e (fst (env_sleep env d e)))
  (HRpoll : ∀ url e, R e (fst (env_poll env url e)))
  (HRhandler : ∀ h p e, progress_handler = Some h → R e (fst (h p e)))
  (HQ : ∀ url r e e', R e e' → Q url r e → Q url r e').
Context (Inv : E → Prop) (HInv : ∀ e e', R e e' → Inv e → Inv e').
Context (HQpoll : ∀ url e e' b r, Inv e → env_poll env url e = (e', Ok (Some b)) → decode b = Ok r →
  Progress.finished_successfully (progress r) = true → Q url r e').

Definition from_polls (urls : list string) (results : list (option NR)) (e : E) : Prop :=
  ∀ i r, results !! i = Some (Some r) → Progress.finished_successfully (progress r) = true →
    ∃ url, urls !! i = Some url ∧ Q url r e.

Lemma poll_node_provenance urls i url st e e' st' :
  urls !! i = Some url → Inv e → from_polls urls st.1 e → poll_node i url st e = (e', Ok st') →
  R e e' ∧ from_polls urls st'.1 e'.
Proof using All.
  destruct st as [results failures]. intros Hurl Hi Hf H. unfold poll_node in H.
  destruct (match default None (results !! i) with Some r => _ | None => _ end).
  { injection H as <- <-. split; [reflexivity|done]. }
  apply bind_inv_ok in H as (e1 & a & Hp & H). pose proof (HRpoll url e) as HR1. rewrite Hp in HR1. simpl in HR1.
  assert (from_polls urls results e1) as Hf1.
  { intros j r Hj Hr. destruct (Hf j r Hj Hr) as (u & Hu & Hq). eauto. }
  destruct a as [body|].
  - apply bind_inv_ok in H as (e2 & r & Hd & H). unfold lift_res in Hd. injection Hd as <- Hd.
    apply bind_inv_ok in H as (e3 & [] & Hh & H).
    assert (R e1 e3) as HR3.
    { destruct progress_handler as [h|] eqn:Eh; [|by injection Hh as <-].
      pose proof (HRhandler h (Progress.merge (Progress.OneShot (progress <$> omap id (<[i:=Some r]> results)))) e1 eq_refl) as Hx.
      by rewrite Hh in Hx. }
    destruct (Progress.finished_failed (progress r)); [done|]. injection H as <- <-.
    split; [by etrans|]. intros j r' Hj Hr'. simpl in Hj. destruct (decide (i = j)) as [<-|Hne].
    + rewrite list_lookup_insert_eq in Hj.
      * injection Hj as <-. exists url. split; [done|]. apply (HQ _ _ e1); [done|].
        by apply (HQpoll url e e1 body).
      * apply lookup_lt_Some in Hj. by rewrite length_insert in Hj.
    + rewrite list_lookup_insert_ne in Hj by done. destruct (Hf1 j r' Hj Hr') as (u & Hu & Hq). eauto.
  - destruct (_ <=? _); [done|]. injection H as <- <-. by split.
Qed.

Lemma poll_round_provenance urls pre post st e e' st' :
  urls = pre ++ post → Inv e → from_polls urls st.1 e → poll_round (length pre) post st e = (e', Ok st') →
  R e e' ∧ from_polls urls st'.1 e'.
Proof using All.
  revert pre st e. induction post as [|url post IH]; intros pre st e Hu Hi Hf H; cbn [poll_round] in H.
  - injection H as <- <-. split; [reflexivity|done].
  - apply bind_inv_ok in H as (e1 & st1 & H1 & H).
    destruct (poll_node_provenance urls (length pre) url st e e1 st1) as [HR1 Hf1]; [|done..|].
    { rewrite Hu. by apply list_lookup_middle. }
    destruct (IH (pre ++ [url]) st1 e1) as [HR2 Hf2].
    { rewrite Hu. by rewrite <- app_assoc. }
    { eauto. }
    { done. }
    { rewrite length_app. simpl. by replace (length pre + 1)%nat with (S (length pre)) by lia. }
    split; [by etrans|done].
Qed.

Lemma poll_loop_provenance fuel it urls st e e' rs :
  round_ok (length urls) st → Inv e → from_polls urls st.1 e → poll_loop fuel it urls st e = (e', Ok (Some rs)) →
  R e e' ∧ Forall2 (λ url r, Q url r e') urls rs.
Proof using All.
  revert it st e. induction fuel as [|fuel IH]; intros it st e Hok Hi Hf H; [done|]. cbn [poll_loop] in H.
  apply bind_inv_ok in H as (e1 & t & Hn & H). pose proof (HRnow e) as HR1. rewrite Hn in HR1. simpl in HR1.
  apply bind_inv_ok in H as (e2 & n & Hl & H). unfold lift_res in Hl. injection Hl as <- Hl.
  destruct n as [[[k d]|] it']; [|done]. apply bind_inv_ok in H as (e3 & [] & Hsl & H).
  assert (R e1 e3) as HR3.
  { destruct (0 <? d); [|by injection Hsl as <-]. pose proof (HRsleep d e1) as Hx. by rewrite Hsl in Hx. }
  assert (R e e3) as HR03 by (by etrans).
  apply bind_inv_ok in H as (e4 & st4 & Hr & H).
  assert (from_polls urls st.1 e3) as Hf3.
  { intros j r Hj Hx. destruct (Hf j r Hj Hx) as (u & Hu & Hq). eauto. }
  destruct (poll_round_provenance urls [] urls st e3 e4 st4 eq_refl) as [HR4 Hf4]; [eauto|done|done|].
  pose proof (poll_round_ok _ _ _ _ _ _ _ Hok Hr) as Hok4.
  destruct (all_final st4.1) eqn:Ef.
  - injection H as <- <-. split; [by etrans|]. destruct Hok4 as [Hlen Hnf].
    destruct (all_final_successful _ Hnf Ef) as [Hl4 Hs4].
    assert (∀ j r, omap id st4.1 !! j = Some r → st4.1 !! j = Some (Some r)) as Hlook.
    { clear -Ef. unfold all_final in Ef. induction st4.1 as [|[x|] l IHl]; intros j r Hj; [done| |done].
      cbn [forallb] in Ef. apply andb_true_iff in Ef as [_ Ef].
      change (omap id (Some x :: l)) with (x :: omap id l) in Hj.
      destruct j as [|j]; simpl in *; [congruence|auto]. }
    apply Forall2_same_length_lookup. split; [congruence|]. intros j url r Hu Hr4.
    rewrite Forall_forall in Hs4. pose proof (Hs4 r (list_elem_of_lookup_2 _ _ _ Hr4)) as Hsr.
    destruct (Hf4 j r (Hlook j r Hr4) Hsr) as (u & Hu' & Hq). by assert (u = url) as -> by congruence.
  - destruct (IH it' st4 e4 Hok4) as [HR5 Hall]; [eauto|done|done|]. split; [|done].
    etrans; [exact HR03|]. by etrans.
Qed.

Lemma wait_provenance fuel start_results e e' rs :
  Inv e → wait_successful_results fuel start_results e = (e', Ok (Some rs)) →
  R e e' ∧ ∃ urls, start_urls start_results = Ok urls ∧ Forall2 (λ url r, Q url r e') urls rs.
Proof using All.
  unfold wait_successful_results. intros Hi H. apply bind_inv_ok in H as (e1 & urls & Hu & H).
  unfold lift_res in Hu. injection Hu as <- Hu. case_decide as Hl; [done|].
  assert (round_ok (length urls) (replicate (length urls) None, replicate (length urls) 0)) as Hok.
  { split; [apply length_replicate|]. by apply Forall_replicate. }
  assert (from_polls urls (replicate (length urls) None) e) as Hf.
  { intros j r Hj. by apply lookup_replicate in Hj as [? _]. }
  destruct (poll_loop_provenance _ _ _ _ _ _ _ Hok Hi Hf H) as [HR Hall].
  split; [done|]. by exists urls.
Qed.
End provenance.

(** What the loop does to the environment, action by action, and the moment at
    which a result was the answer to a poll of a url. *)
Inductive loop_action : E → E → Prop :=
| action_now e : loop_action e (fst (env_now env e))
| action_sleep d e : loop_action e (fst (env_sleep env d e))
| action_poll url e : loop_action e (fst (env_poll env url e))
| action_handler h p e : progress_handler = Some h → loop_action e (fst (h p e)).
Definition during : E → E → Prop := rtc loop_action.
Definition answered (e e' : E) (url : string) (r : NR) : Prop :=
  ∃ e1 e2 body, during e e1 ∧ env_poll env url e1 = (e2, Ok (Some body)) ∧ during e2 e' ∧ decode body = Ok r.

Lemma wait_answered fuel start_results e e' rs :
  wait_successful_results fuel start_results e = (e', Ok (Some rs)) →
  ∃ urls, start_urls start_results = Ok urls ∧ Forall2 (answered e e') urls rs.
Proof.
  intros H. apply (wait_provenance during (λ url r x, answered e x url r)) with (Inv := during e) in H as (_ & urls & Hu & HF).
  - by exists urls.
  - intros x. apply rtc_once. constructor.
  - intros d x. apply rtc_once. constructor.
  - intros url x. apply rtc_once. constructor.
  - intros h p x Hh. by apply rtc_once, action_handler.
  - intros url r x x' Hx (e1 & e2 & b & H1 & Hp & H2 & Hd). exists e1, e2, b. split; [done|]. split; [done|]. split; [by etrans|done].
  - intros x x' H1 H2. by etrans.
  - intros url x x' b r Hx Hp Hd _. by exists x, x', b.
  - done.
Qed.

(** *** Termination: the duration bounds the number of passes *)
Section termination.
Context (time : E → Z) (step : Z).
(** The clock reads the time of the environment, nothing sets it back, and a
    sleep takes at least [step], even if it is woken up early. *)
Context (Hnow : ∀ e, env_now env e = (e, Ok (time e))).
Context (Hsleep : ∀ d e, time e + step ≤ time (fst (env_sleep env d e))).
Context (Hpoll : ∀ url e, time e ≤ time (fst (env_poll env url e))).
Context (Hhandler : ∀ h p e, progress_handler = Some h → time e ≤ time (fst (h p e))).
Context (Hstep : 0 < step) (Hstart : 1 ≤ delay_start poll_config)
  (Hmult : 1 ≤ delay_multiplier poll_config) (Hmax : 1 ≤ delay_max poll_config).

Lemma poll_round_time i urls st e : time e ≤ time (fst (poll_round i urls st e)).
Proof using Hpoll Hhandler.
  assert (PreOrder (λ e e', time e ≤ time e')) by (split; [by intros x|intros x y z; lia]).
  by apply (poll_round_R (λ e e', time e ≤ time e')).
Qed.

Lemma poll_loop_terminates t0 it fuel urls st e :
  Backoff.iter_ok t0 it → t0 + poll_duration poll_config - time e < (Z.of_nat fuel - 1) * step → (1 ≤ fuel)%nat →
  snd (poll_loop fuel it urls st e) ≠ Ok None.
Proof using All.
  revert it st e. induction fuel as [|fuel IH]; intros it st e Hit Hf H1; [lia|].
  cbn [poll_loop]. rewrite (bind_ok _ _ _ _ _ (Hnow e)).
  destruct (Backoff.next_ok backoff_config t0 it (time e) Hit) as (o & it' & Hnext).
  assert (∀ m, Backoff.maximum backoff_config = Some m → 0 ≤ m) as Hm by (intros m [= <-]; lia).
  assert (0 ≤ Backoff.initial backoff_config) as Hi by (simpl; lia).
  destruct (Backoff.next_spec backoff_config Hi Hmult Hm t0 it (time e) o it' Hit Hnext) as (Hit' & Hr & Hg).
  unfold lift_res at 1. rewrite Hnext. unfold mbind at 1, M_bind at 1.
  destruct o as [[n d]|]; [|done]. destruct (Hg n d eq_refl) as (-> & _ & Hd).
  destruct Hd as [[? _]|(Hn & Hdel & Hdur)]; [destruct Hit; lia|].
  specialize (Hdur _ eq_refl).
  assert (0 < d) as Hd.
  { rewrite Hdel. unfold Backoff.raw_delay. simpl.
    assert (1 ≤ delay_start poll_config * delay_multiplier poll_config ^ (Backoff.retry it + 1 - 1)).
    { assert (0 < delay_multiplier poll_config ^ (Backoff.retry it + 1 - 1)) by (apply Z.pow_pos_nonneg; lia). nia. }
    lia. }
  assert ((0 <? d) = true) as -> by (by apply Z.ltb_lt).
  pose proof (Hsleep d e) as Hs. unfold mbind at 1, M_bind at 1.
  destruct (env_sleep env d e) as [e1 [[]|x]]; simpl in Hs |- *; [|done].
  pose proof (poll_round_time 0 urls st e1) as Hp. unfold mbind at 1, M_bind at 1.
  destruct (poll_round 0 urls st e1) as [e2 [st'|x]]; simpl in Hp |- *; [|done].
  destruct (all_final st'.1); [done|]. destruct fuel as [|fuel]; [lia|].
  apply IH; [done| |lia]. nia.
Qed.

Lemma wait_terminates fuel start_results e :
  0 ≤ poll_duration poll_config → poll_duration poll_config < (Z.of_nat fuel - 2) * step →
  snd (wait_successful_results fuel start_results e) ≠ Ok None.
Proof using All.
  intros Hd Hf. unfold wait_successful_results, lift_res.
  destruct (start_urls start_results) as [urls|x]; [|done]. unfold mbind at 1, M_bind at 1.
  case_decide; [done|]. destruct fuel as [|fuel]; [nia|].
  cbn [poll_loop]. rewrite (bind_ok _ _ _ _ _ (Hnow e)).
  unfold lift_res at 1. unfold Backoff.next, Backoff.delay. simpl. unfold mbind at 1, M_bind at 1.
  set (st := (_, _)). pose proof (poll_round_time 0 urls st e) as Hp. unfold mbind at 1, M_bind at 1.
  rewrite Z.ltb_irrefl. unfold mret at 1, M_ret at 1. cbn iota beta. unfold mbind, M_bind.
  destruct (poll_round 0 urls st e) as [e2 [st'|x]]; simpl in Hp |- *; [|done].
  destruct (all_final st'.1); [done|].
  apply (poll_loop_terminates (time e)); [split; simpl; [lia|done]| |]; nia.
Qed.

(** C30: Waiting for node results always ends.  If the clock advances by at
    least [step] whenever the loop sleeps, more than [duration / step + 2]
    passes are never needed; the wait then either raises, or returns exactly
    one result per started operation, in their order: each is what the url of
    its operation answered to a poll made during the wait, final and without failure. *)
Theorem wait_successful_results_total fuel start_results e :
  0 ≤ poll_duration poll_config → poll_duration poll_config < (Z.of_nat fuel - 2) * step →
  match wait_successful_results fuel start_results e with
  | (_, Ok None) => False
  | (e', Ok (Some rs)) =>
      length rs = length start_results ∧
      Forall (λ r, Progress.finished_successfully (progress r) = true) rs ∧
      ∃ urls, start_urls start_results = Ok urls ∧ Forall2 (answered e e') urls rs
  | (_, Raise _) => True
  end.
Proof using All.
  intros Hd Hf. pose proof (wait_terminates fuel start_results e Hd Hf) as Ht.
  destruct (wait_successful_results fuel start_results e) as [e' [[rs|]|x]] eqn:Ew; simpl in *; [|done|done].
  pose proof (wait_sound _ _ _ _ _ Ew) as [Hlen Hall]. pose proof (wait_answered _ _ _ _ _ Ew). done.
Qed.
End termination.
End wait.

(** ** What a lock result says about the nodes' answers *)
Definition positive (call : LockCall) (r : Result) : Prop :=
  ∃ status, r = RResponse status (Some (BLocked (expected_result call))) ∧ is_error status = false.

Lemma lock_step_ok call rv r :
  lock_result_step call rv r = Ok ok → rv = ok ∧ positive call r.
Proof.
  destruct r as [| |status body|b]; simpl; [by destruct (decide _)|by destruct (decide _)| |done].
  destruct (is_error status) eqn:He; [done|]. destruct body as [[]|]; try done.
  destruct (Bool.eqb locked (expected_result call)) eqn:Eb; [|done].
  apply Bool.eqb_prop in Eb as ->. intros [= ->]. split; [done|]. by exists status.
Qed.

Lemma fold_lock_ok call results rv :
  fold_res (lock_result_step call) rv results = Ok ok → rv = ok ∧ Forall (positive call) results.
Proof.
  revert rv. induction results as [|r results IH]; intros rv H; simpl in H.
  - injection H as ->. split; [done|constructor].
  - apply rbind_inv_ok in H as (rv1 & H1 & H2). destruct (IH _ H2) as [-> Hall].
    apply lock_step_ok in H1 as [-> Hp]. split; [done|by constructor].
Qed.

Lemma fold_lock_ok_complete call results :
  Forall (positive call) results → fold_res (lock_result_step call) ok results = Ok ok.
Proof.
  induction 1 as [|r results (status & -> & He) Hall IH]; [done|]. simpl. rewrite He, Bool.eqb_reflx. done.
Qed.

(** The exchanges of a request to several nodes, one after the other. *)
Lemma request_from_nodes_run url nodes e :
  nodes ≠ [] →
  request_from_nodes url None None (Some nodes) false true e =
  collect (zip ((λ _, PlainNodeRequest) <$> nodes) nodes) (λ rn,
    r ← env_request env rn.2 url rn.1; mret (httpx_request false true r)) e.
Proof.
  intros Hn. unfold request_from_nodes. simpl. destruct nodes as [|n nodes]; [done|].
  assert ((λ _ : CoordinatorNode, PlainNodeRequest) <$> n :: nodes ≠ []) as Hne
    by (intros Hx; by apply (f_equal length) in Hx).
  erewrite bind_ok by done. rewrite (bool_decide_true _ Hne). erewrite bind_ok by done.
  rewrite bool_decide_true by (by rewrite length_fmap). erewrite bind_ok by done. done.
Qed.
End cluster.

(** A node whose operation ends at the second poll. *)
Definition example_env : ClusterEnv Z := {|
  env_request _ _ _ := mret HttpFailure;
  env_poll _ := t ← get; mret (Some (BNode (mkNodeResult "h" "az" (mkProgress 1 0 1 (0 <? t)))));
  env_now := get;
  env_sleep d := modify (λ t, t + Z.max 1 d);
|}.

Definition decode_node (b : Body) : res NodeResult :=
  match b with BNode r => Ok r | _ => Raise DecodeError end.

Lemma wait_successful_results_total_witness :
  match wait_successful_results example_env (mkPollConfig 1 2 60 10 5) decode_node nr_progress None 13
               [RJson (BStart 1 "u")] 0 with
  | (_, Ok None) => False
  | (e', Ok (Some rs)) =>
      length rs = 1%nat ∧ Forall (λ r, Progress.finished_successfully (nr_progress r) = true) rs ∧
      ∃ urls, start_urls [RJson (BStart 1 "u")] = Ok urls ∧ Forall2 (answered example_env decode_node None 0 e') urls rs
  | (_, Raise _) => True
  end.
Proof.
  apply (wait_successful_results_total example_env [] (mkPollConfig 1 2 60 10 5) decode_node nr_progress None (λ t, t) 1);
    simpl; try lia; done || (intros; lia).
Defined.
End Cluster.
