(* ===== verification/ClusterLock.v ===== *)
(** * The cluster lock: coordinators and nodes together

    [Cluster] run on nodes that are [NodeLock] states.  The network is
    adversarial: it can lose a request or its response.  Each exchange has
    its own readings of the node's clock.  Coordinators are told apart by
    their lockers, which [get_locker] makes unique. *)

From stdpp Require Import base gmap strings list.
From Stdlib Require Import ZArith Lia.
From S2P Require Import Prelude Progress Ipc Op Utils NodeLock Cluster.

Local Open Scope Z_scope.

Module ClusterLock.
Import Cluster.

Inductive fault : Type := Delivered | LostResponse | LostRequest.

Record net : Type := mkNet {
  net_nodes : gmap string NodeLock.state;
  (** What happens to the exchanges to come, in order. *)
  schedule : list (fault * (nat → Z));
}.

Definition to_request (call : LockCall) (who : string) (ttl : Z) : NodeLock.request :=
  match call with
  | LockCall_lock => NodeLock.Lock who ttl
  | LockCall_relock => NodeLock.Relock who ttl
  | LockCall_unlock => NodeLock.Unlock who
  end.

(** The HTTP response of a lock endpoint. *)
Definition response (r : res bool) : Reply :=
  match r with
  | Ok b => Replied 200 (Some (BLocked b))
  | Raise (HTTPException s) => Replied s (Some BOther)
  | Raise _ => Replied 500 None
  end.

Definition exchange (node : CoordinatorNode) (url : Path) (req : NodeRequest) : M net Reply := λ w,
  match schedule w with
  | [] => (w, Ok HttpFailure)
  | (f, clock) :: rest =>
      let quiet := (mkNet (net_nodes w) rest, Ok HttpFailure) in
      match f, url, net_nodes w !! node_url_ node with
      | LostRequest, _, _ | _, PPath _, _ | _, _, None => quiet
      | _, PLock call who ttl, Some st =>
          let '(st', r) := NodeLock.handle clock (to_request call who ttl) st in
          (mkNet (<[node_url_ node := st']> (net_nodes w)) rest,
           Ok (match f with Delivered => response r | _ => HttpFailure end))
      end
  end.

Definition net_env : ClusterEnv net := {|
  env_request := exchange;
  env_poll _ := mret None;
  env_now := mret 0;
  env_sleep _ := mret tt;
|}.

(** What coordinators do about the lock. *)
Inductive action : Type :=
| Call (call : LockCall) (who : string) (ttl : Z) (nodes : list CoordinatorNode)
| Acquire (who : string) (ttl : Z) (nodes : list CoordinatorNode).

Definition actor (a : action) : string := match a with Call _ who _ _ | Acquire who _ _ => who end.

Definition perform (a : action) : M net unit :=
  match a with
  | Call call who ttl nodes => request_lock_call_from_nodes net_env nodes call who ttl nodes ;; mret tt
  | Acquire who ttl nodes => acquire_cluster_lock net_env nodes who ttl
  end.

(** Coordinators handle their own failures. *)
Fixpoint perform_all (l : list action) (w : net) : net :=
  match l with
  | [] => w
  | a :: l' => perform_all l' (fst (perform a w))
  end.

Lemma exchange_total node call who ttl req w : ∃ w' rep, exchange node (PLock call who ttl) req w = (w', Ok rep).
Proof.
  unfold exchange. destruct (schedule w) as [|[f clock] rest]; [eauto|].
  destruct (net_nodes w !! node_url_ node) as [st|]; [|destruct f; eauto].
  destruct (NodeLock.handle _ _ _) as [st' o]. destruct f; eauto.
Qed.

(** Lock calls never produce a decoded mapping. *)
Definition not_json (r : Result) : Prop := match r with RJson _ => False | _ => True end.

Lemma collect_total (l : list (NodeRequest * CoordinatorNode)) call who ttl w :
  ∃ w' rs, collect l (λ rn, rep ← exchange rn.2 (PLock call who ttl) rn.1; mret (httpx_request false true rep)) w =
    (w', Ok rs) ∧ Forall not_json rs.
Proof.
  revert w. induction l as [|rn l IH]; intros w; [by exists w, []|].
  destruct (exchange_total rn.2 call who ttl rn.1 w) as (w1 & rep & E1).
  destruct (IH w1) as (w2 & rs & E2 & Hrs). exists w2, (httpx_request false true rep :: rs). split.
  - cbn [collect]. unfold mbind at 1, M_bind at 1. unfold mbind at 1, M_bind at 1. rewrite E1.
    unfold mret at 1, M_ret at 1. by rewrite (bind_ok _ _ _ _ _ E2).
  - constructor; [|done]. destruct rep; simpl; [|done|done]. by rewrite orb_true_r.
Qed.

Section exclusion.
Context (who : string) (until : Z) (held : gset string) (Hwho : who ≠ "").

(** [who] holds the nodes [held], and the exchanges to come happen before the
    end of its leases. *)
Definition net_held (w : net) : Prop :=
  (∀ u, u ∈ held → ∃ st, net_nodes w !! u = Some st ∧ NodeLock.holds who until st) ∧
  Forall (λ s, ∀ i, s.2 i ≤ until) (schedule w).

Lemma exchange_held node call other ttl req w w' r :
  other ≠ who → net_held w → exchange node (PLock call other ttl) req w = (w', r) →
  net_held w' ∧ ∃ rep, r = Ok rep ∧ (node_url_ node ∈ held → rep = HttpFailure ∨ ∃ s b, rep = Replied s b ∧ is_error s = true).
Proof using Hwho.
  intros Ho [Hh Hs]. unfold exchange. destruct (schedule w) as [|[f clock] rest] eqn:Es.
  { intros [= <- <-]. split; [by split; [|rewrite Es]|]. eexists. split; [done|]. by left. }
  apply Forall_cons in Hs as [Hc Hrest]. simpl in Hc.
  assert (net_held (mkNet (net_nodes w) rest)) as Hquiet by done.
  destruct (net_nodes w !! node_url_ node) as [st|] eqn:En.
  2: { destruct f; intros [= <- <-]; (split; [done|]); eexists; (split; [done|]); by left. }
  destruct (NodeLock.handle clock (to_request call other ttl) st) as [st' o] eqn:Eh.
  assert (node_url_ node ∈ held → st' = st ∧ ∃ s, o = Raise (HTTPException s) ∧ is_error s = true) as Hheld.
  { intros Hin. destruct (Hh _ Hin) as (st0 & Hst0 & Hl). assert (st0 = st) as -> by congruence.
    pose proof (NodeLock.handle_held who until st clock (to_request call other ttl) Hwho Hl Hc) as H.
    destruct call; simpl in H; [|rewrite decide_False in H by done|rewrite decide_False in H by done];
      unfold to_request in Eh; simpl in Eh; rewrite H in Eh; injection Eh as <- <-; split; eauto. }
  assert (net_held (mkNet (<[node_url_ node:=st']> (net_nodes w)) rest)) as Hnew.
  { split; [|done]. intros u Hu. simpl. destruct (decide (u = node_url_ node)) as [->|Hne].
    - rewrite lookup_insert_eq. destruct (Hheld Hu) as [-> _]. destruct (Hh _ Hu) as (st0 & Hst0 & Hl).
      exists st. split; [done|]. congruence.
    - rewrite lookup_insert_ne by done. auto. }
  destruct f; intros [= <- <-]; (split; [done|]); eexists; (split; [done|]).
  - intros Hin. destruct (Hheld Hin) as (_ & s & -> & He). right. simpl. eauto.
  - by left.
  - by left.
Qed.

Lemma collect_held call other ttl (l : list (NodeRequest * CoordinatorNode)) w w' r :
  other ≠ who → net_held w →
  collect l (λ rn, rep ← exchange rn.2 (PLock call other ttl) rn.1; mret (httpx_request false true rep)) w = (w', r) →
  net_held w' ∧ ∃ rs, r = Ok rs ∧ length rs = length l ∧
    ((∃ rn, rn ∈ l ∧ node_url_ rn.2 ∈ held) → ¬ Forall (positive call) rs).
Proof using Hwho.
  intros Ho. revert w w' r. induction l as [|rn l IH]; intros w w' r Hw Hrun.
  { injection Hrun as <- <-. split; [done|]. exists []. split; [done|]. split; [done|].
    intros (rn & ?%not_elem_of_nil & _). done. }
  cbn [collect] in Hrun. destruct (exchange rn.2 (PLock call other ttl) rn.1 w) as [w1 o] eqn:E1.
  destruct (exchange_held _ _ _ _ _ _ _ _ Ho Hw E1) as (Hw1 & rep & -> & Hrep).
  unfold mbind at 1, M_bind at 1 in Hrun. unfold mbind at 1, M_bind at 1 in Hrun. rewrite E1 in Hrun.
  unfold mret at 1, M_ret at 1 in Hrun. unfold mbind at 1, M_bind at 1 in Hrun.
  destruct (collect l _ w1) as [w2 o2] eqn:E2.
  destruct (IH w1 w2 o2 Hw1 E2) as (Hw2 & rs & -> & Hl & Hpos). injection Hrun as <- <-.
  split; [done|]. eexists. split; [done|]. split; [simpl; by rewrite Hl|].
  intros (rn' & [->|Hin]%elem_of_cons & Hheld) [Hp Hrest]%Forall_cons.
  - destruct (Hrep Hheld) as [->|(s & b & -> & He)]; simpl in Hp; destruct Hp as (status & Hp & Hne);
      [done|]. rewrite orb_true_r in Hp. injection Hp as -> _. congruence.
  - apply Hpos; eauto.
Qed.

Lemma lock_call_held call other ttl cluster nodes w w' r :
  other ≠ who → net_held w → request_lock_call_from_nodes net_env cluster call other ttl nodes w = (w', r) →
  net_held w' ∧ ((∃ n, n ∈ nodes ∧ node_url_ n ∈ held) → r ≠ Ok ok).
Proof using Hwho.
  intros Ho Hw Hrun. unfold request_lock_call_from_nodes in Hrun. destruct nodes as [|n nodes].
  { unfold mbind, M_bind in Hrun. simpl in Hrun. injection Hrun as <- _. split; [done|].
    intros (n & ?%not_elem_of_nil & _). done. }
  unfold mbind at 1, M_bind at 1 in Hrun.
  rewrite (request_from_nodes_run net_env cluster (PLock call other ttl) (n :: nodes) w) in Hrun by done.
  destruct (collect _ _ w) as [w1 o] eqn:Ec.
  destruct (collect_held _ _ _ _ _ _ _ Ho Hw Ec) as (Hw1 & rs & -> & Hl & Hpos).
  unfold lift_res in Hrun. injection Hrun as <- <-. split; [done|].
  intros (n' & Hn' & Hheld) Hok. rewrite take_ge in Hok.
  2: { rewrite Hl, length_zip_with. cbn [length]. lia. }
  apply fold_lock_ok in Hok as [_ Hall]. revert Hall. apply Hpos.
  apply list_elem_of_lookup in Hn' as [i Hi]. exists (PlainNodeRequest, n'). split; [|done].
  apply list_elem_of_lookup. exists i. apply lookup_zip_Some. split; [|done].
  by rewrite list_lookup_fmap, Hi.
Qed.

Lemma perform_held a w :
  actor a ≠ who → net_held w → net_held (fst (perform a w)).
Proof using Hwho.
  intros Ha Hw. destruct a as [call other ttl nodes|other ttl nodes]; simpl in Ha |- *.
  - destruct (request_lock_call_from_nodes net_env nodes call other ttl nodes w) as [w1 r] eqn:E1.
    destruct (lock_call_held _ _ _ _ _ _ _ _ Ha Hw E1) as [Hw1 _].
    unfold mbind, M_bind. rewrite E1. by destruct r.
  - unfold acquire_cluster_lock, request_lock, request_unlock, mbind, M_bind.
    destruct (request_lock_call_from_nodes net_env nodes LockCall_lock other ttl nodes w) as [w1 r] eqn:E1.
    destruct (lock_call_held _ _ _ _ _ _ _ _ Ha Hw E1) as [Hw1 _]. destruct r as [r|x]; [|done].
    destruct (decide (r = ok)); [done|].
    destruct (request_lock_call_from_nodes net_env nodes LockCall_unlock other 0 nodes w1) as [w2 r2] eqn:E2.
    destruct (lock_call_held _ _ _ _ _ _ _ _ Ha Hw1 E2) as [Hw2 _]. by destruct r2.
Qed.

Lemma perform_all_held l w :
  Forall (λ a, actor a ≠ who) l → net_held w → net_held (perform_all l w).
Proof using Hwho.
  intros Hl. revert w. induction Hl as [|a l Ha Hl IH]; intros w Hw; [done|].
  simpl. apply IH. by apply perform_held.
Qed.

(** C4: Mutual exclusion of the cluster.  Let a locker hold some nodes until a
    given instant.  However other coordinators lock, relock, unlock and try to
    acquire the cluster before that instant, and whatever the network loses,
    the locker still holds those nodes, and another coordinator that tries to
    acquire a cluster sharing one of them fails with the conflict error. *)
Theorem cluster_lock_exclusive (others : list action) (b : string) (ttl : Z) (nodes : list CoordinatorNode) (w : net) :
  net_held w → Forall (λ a, actor a ≠ who) others → b ≠ who →
  (∃ n, n ∈ nodes ∧ node_url_ n ∈ held) →
  let w1 := perform_all others w in
  net_held w1 ∧
  (∃ w2, acquire_cluster_lock net_env nodes b ttl w1 = (w2, Raise (HTTPException 409)) ∧ net_held w2).
Proof using Hwho.
  intros Hw Hothers Hb Hn w1. pose proof (perform_all_held others w Hothers Hw) as Hw1. fold w1 in Hw1.
  split; [done|]. unfold acquire_cluster_lock, request_lock, request_unlock, mbind, M_bind.
  assert (∀ call t w3 w4 r, request_lock_call_from_nodes net_env nodes call b t nodes w3 = (w4, r) → ∃ x, r = Ok x) as Hok.
  { intros call t w3 w4 r Hr. unfold request_lock_call_from_nodes in Hr. destruct nodes as [|n nodes].
    { destruct Hn as (n & ?%not_elem_of_nil & _). done. }
    unfold mbind at 1, M_bind at 1 in Hr.
    rewrite (request_from_nodes_run net_env _ _ (n :: nodes) w3) in Hr by done.
    destruct (collect_total (zip ((λ _, PlainNodeRequest) <$> n :: nodes) (n :: nodes)) call b t w3)
      as (w5 & rs & Hc & Hj). change (env_request net_env) with exchange in Hr. rewrite Hc in Hr. unfold lift_res in Hr. injection Hr as <- <-.
    apply fold_res_ok. intros x s Hx. apply elem_of_take in Hx as (i & Hx & _).
    apply list_elem_of_lookup_2 in Hx. rewrite Forall_forall in Hj. specialize (Hj x Hx).
    destruct x as [| |st bd|bd]; simpl; eauto; [|done].
    destruct (is_error st); [eauto|]. destruct bd as [[]|]; eauto. }
  destruct (request_lock_call_from_nodes net_env nodes LockCall_lock b ttl nodes w1) as [w2 r] eqn:E2.
  destruct (lock_call_held _ _ _ _ _ _ _ _ Hb Hw1 E2) as [Hw2 Hne].
  destruct (Hok _ _ _ _ _ E2) as [x ->]. rewrite decide_False by (intros ->; by apply Hne).
  destruct (request_lock_call_from_nodes net_env nodes LockCall_unlock b 0 nodes w2) as [w3 r] eqn:E3.
  destruct (lock_call_held _ _ _ _ _ _ _ _ Hb Hw2 E3) as [Hw3 _].
  destruct (Hok _ _ _ _ _ E3) as [y ->]. by exists w3.
Qed.
End exclusion.

(** ** Acquiring *)
Section acquiring.
Context (who : string) (t0 ttl : Z).

Definition clocks_ok (w : net) : Prop :=
  Forall (λ s, t0 ≤ s.2 0%nat ∧ ∀ i, s.2 i ≤ s.2 (S i)) (schedule w).

Definition held_at (u : string) (w : net) : Prop :=
  ∃ st, net_nodes w !! u = Some st ∧ NodeLock.holds who (t0 + ttl) st.

Lemma exchange_lock_positive node req w w' rep :
  clocks_ok w → exchange node (PLock LockCall_lock who ttl) req w = (w', Ok rep) →
  clocks_ok w' ∧ (positive LockCall_lock (httpx_request false true rep) →
    held_at (node_url_ node) w' ∧ ∀ u, held_at u w → held_at u w').
Proof.
  intros Hc. unfold exchange. destruct (schedule w) as [|[f clock] rest] eqn:Es.
  { intros [= <- <-]. split; [done|]. by intros (? & ? & _). }
  unfold clocks_ok in Hc. rewrite Es in Hc. apply Forall_cons in Hc as [[H0 Hmono] Hrest]. simpl in H0, Hmono.
  destruct (net_nodes w !! node_url_ node) as [st|] eqn:En.
  2: { destruct f; intros [= <- <-]; (split; [done|]); by intros (? & ? & _). }
  destruct (NodeLock.handle clock _ st) as [st' o] eqn:Eh.
  destruct f; intros [= <- <-]; (split; [done|]); [|by intros (? & ? & _)..].
  intros (status & Hr & He). simpl in Hr. destruct o as [b|x]; simpl in Hr.
  - injection Hr as <- ->. simpl in Eh. unfold NodeLock.lock in Eh. minv Eh.
    destruct (NodeLock.truthy _); [done|]. injection Eh as <-.
    assert (held_at (node_url_ node) (mkNet (<[node_url_ node:=Some (NodeLock.mkLockEntry who (clock 1%nat + ttl))]> (net_nodes w)) rest)) as Hnew.
    { eexists. simpl. split; [apply lookup_insert_eq|]. eexists. split; [done|]. split; [done|].
      simpl. specialize (Hmono 0%nat). lia. }
    split; [done|]. intros u (st0 & Hst0 & Hh). destruct (decide (u = node_url_ node)) as [->|Hne]; [done|].
    exists st0. simpl. by rewrite lookup_insert_ne.
  - destruct x; simpl in Hr; rewrite ?orb_true_r in Hr; by injection Hr.
Qed.

Lemma collect_lock_positive (l : list (NodeRequest * CoordinatorNode)) w w' rs :
  clocks_ok w →
  collect l (λ rn, rep ← exchange rn.2 (PLock LockCall_lock who ttl) rn.1; mret (httpx_request false true rep)) w = (w', Ok rs) →
  Forall (positive LockCall_lock) rs →
  (∀ u, held_at u w → held_at u w') ∧ ∀ rn, rn ∈ l → held_at (node_url_ rn.2) w'.
Proof.
  revert w rs. induction l as [|rn l IH]; intros w rs Hc Hrun Hpos.
  { injection Hrun as <- _. split; [done|]. by intros rn ?%not_elem_of_nil. }
  cbn [collect] in Hrun. minv Hrun. minv H. injection H as <- <-. minv Hrun. injection Hrun as <- <-.
  apply Forall_cons in Hpos as [Hp Hpos].
  destruct (exchange_lock_positive _ _ _ _ _ Hc H0) as [Hc1 H1]. destruct (H1 Hp) as [Hheld Hkeep].
  destruct (IH _ _ Hc1 H Hpos) as [Hk2 Hl]. split; [auto|].
  intros rn' [->|Hin]%elem_of_cons; [by apply Hk2|auto].
Qed.

(** A coordinator that acquires the cluster lock holds every node of the
    cluster for the whole time to live, counted from before the first
    request; nothing less than a positive answer of every node is taken for
    the lock. *)
Theorem acquire_holds_all_nodes (nodes : list CoordinatorNode) (w w' : net) :
  clocks_ok w → acquire_cluster_lock net_env nodes who ttl w = (w', Ok tt) →
  ∀ n, n ∈ nodes → held_at (node_url_ n) w'.
Proof.
  intros Hc Hrun n Hn. destruct nodes as [|n0 nodes]; [by apply not_elem_of_nil in Hn|].
  unfold acquire_cluster_lock, request_lock, request_lock_call_from_nodes in Hrun. minv Hrun. minv H.
  rewrite (request_from_nodes_run net_env _ _ (n0 :: nodes) w) in H0 by done.
  change (env_request net_env) with exchange in H0.
  destruct (decide (a = ok)) as [->|]; [|by minv Hrun]. injection Hrun as <-. injection H as -> Hfold.
  destruct (collect_total (zip ((λ _, PlainNodeRequest) <$> n0 :: nodes) (n0 :: nodes)) LockCall_lock who ttl w)
    as (w5 & rs & Hrs & _).
  pose proof (collect_length _ _ _ _ _ H0) as Hl.
  rewrite take_ge in Hfold by (rewrite Hl, length_zip_with; cbn [length]; lia).
  apply fold_lock_ok in Hfold as [_ Hpos].
  destruct (collect_lock_positive _ _ _ _ Hc H0 Hpos) as [_ Hall].
  apply list_elem_of_lookup in Hn as [i Hi]. apply (Hall (PlainNodeRequest, n)).
  apply list_elem_of_lookup. exists i. apply lookup_zip_Some. split; [|done]. by rewrite list_lookup_fmap, Hi.
Qed.
End acquiring.

(** ** Releasing *)
Section releasing.
Context (who : string) (until : Z) (Hwho : who ≠ "").

(** One exchange on a node held by [who]: its lock goes unless the request is
    lost, and no other node changes. *)
Lemma exchange_unlock node req w w' r f clock rest :
  schedule w = (f, clock) :: rest → (∀ i, clock i ≤ until) →
  held_at who 0 until (node_url_ node) w →
  exchange node (PLock LockCall_unlock who 0) req w = (w', r) →
  schedule w' = rest ∧
  net_nodes w' = match f with LostRequest => net_nodes w | _ => <[node_url_ node := None]> (net_nodes w) end.
Proof using Hwho.
  intros Hs Hc (st & Hst & Hh). unfold exchange. rewrite Hs, Hst.
  pose proof (NodeLock.handle_held who (0 + until) st clock (NodeLock.Unlock who) Hwho Hh Hc) as Hu.
  simpl in Hu. rewrite decide_True in Hu by done. simpl. rewrite Hu. by destruct f; intros [= <- <-].
Qed.

Lemma collect_unlock (l : list (NodeRequest * CoordinatorNode)) w w' r :
  NoDup (node_url_ <$> l.*2) → (length l <= length (schedule w))%nat →
  Forall (λ s, ∀ i, s.2 i ≤ until) (schedule w) →
  (∀ rn, rn ∈ l → held_at who 0 until (node_url_ rn.2) w) →
  collect l (λ rn, rep ← exchange rn.2 (PLock LockCall_unlock who 0) rn.1; mret (httpx_request false true rep)) w = (w', r) →
  (∀ u, u ∉ node_url_ <$> l.*2 → net_nodes w' !! u = net_nodes w !! u) ∧
  ∀ i rn f clock, l !! i = Some rn → schedule w !! i = Some (f, clock) →
    match f with
    | LostRequest => net_nodes w' !! node_url_ rn.2 = net_nodes w !! node_url_ rn.2
    | _ => net_nodes w' !! node_url_ rn.2 = Some None
    end.
Proof using Hwho.
  revert w r. induction l as [|rn l IH]; intros w r Hnd Hlen Hc Hh Hrun.
  { injection Hrun as <- <-. split; [done|]. by intros []. }
  csimpl in Hnd. apply NoDup_cons in Hnd as [Hni Hnd].
  destruct (schedule w) as [|[f clock] rest] eqn:Es; [simpl in Hlen; lia|].
  apply Forall_cons in Hc as [Hc0 Hc].
  destruct (exchange_total rn.2 LockCall_unlock who 0 rn.1 w) as (w1 & rep & E1).
  destruct (exchange_unlock rn.2 rn.1 w w1 _ f clock rest Es Hc0 ltac:(apply Hh; by left) E1) as [Hs1 Hn1].
  destruct (collect_total l LockCall_unlock who 0 w1) as (w2 & rs & E2 & _).
  cbn [collect] in Hrun. rewrite (bind_ok _ _ _ _ _ (bind_ok _ _ _ _ _ E1)) in Hrun.
  rewrite (bind_ok _ _ _ _ _ E2) in Hrun. injection Hrun as <- _.
  assert (∀ u, u ≠ node_url_ rn.2 → net_nodes w1 !! u = net_nodes w !! u) as Hother.
  { intros u Hu. rewrite Hn1. destruct f; [by rewrite lookup_insert_ne..|done]. }
  destruct (IH w1 (Ok rs)) as [IH1 IH2]; [done|rewrite Hs1; simpl in Hlen; lia|by rewrite Hs1| |done|].
  { intros rn' Hin. destruct (Hh rn' ltac:(by right)) as (st & Hst & Hhs). exists st. split; [|done].
    rewrite Hother; [done|]. intros He. apply Hni. rewrite <- He. apply list_elem_of_fmap. exists rn'.2. split; [done|].
    apply list_elem_of_fmap. by exists rn'. }
  split.
  - intros u [Hu1 Hu2]%not_elem_of_cons. by rewrite IH1, Hother.
  - intros [|i] rn' f' clock' Hl Hsc; simpl in Hl, Hsc.
    + simplify_eq. destruct f'; rewrite IH1, Hn1 by done; [by rewrite lookup_insert_eq..|done].
    + rewrite Hs1 in IH2. pose proof (IH2 i rn' f' clock' Hl Hsc) as H. destruct f'; [done|done|].
      rewrite H, Hother; [done|]. intros He. apply Hni. rewrite <- He. apply list_elem_of_fmap. exists rn'.2. split; [done|].
      apply list_elem_of_fmap. exists rn'. split; [done|]. by apply list_elem_of_lookup_2 in Hl.
Qed.

Lemma request_unlock_releases (nodes : list CoordinatorNode) (w w' : net) r :
  NoDup (node_url_ <$> nodes) → (length nodes <= length (schedule w))%nat →
  Forall (λ s, ∀ i, s.2 i ≤ until) (schedule w) →
  (∀ n, n ∈ nodes → held_at who 0 until (node_url_ n) w) →
  request_unlock net_env nodes who w = (w', r) →
  ∀ i n f clock, nodes !! i = Some n → schedule w !! i = Some (f, clock) →
    match f with
    | LostRequest => net_nodes w' !! node_url_ n = net_nodes w !! node_url_ n
    | _ => net_nodes w' !! node_url_ n = Some None
    end.
Proof using Hwho.
  intros Hnd Hlen Hc Hh Hrun i n f clock Hn Hs.
  destruct nodes as [|n0 nodes]; [done|]. unfold request_unlock, request_lock_call_from_nodes in Hrun.
  set (l := zip ((λ _, PlainNodeRequest) <$> n0 :: nodes) (n0 :: nodes)).
  assert (l.*2 = n0 :: nodes) as Hl by (unfold l; rewrite snd_zip; [done|by rewrite length_fmap]).
  destruct (collect_total l LockCall_unlock who 0 w) as (w1 & rs & E & _).
  assert (request_from_nodes net_env (n0 :: nodes) (PLock LockCall_unlock who 0) None None (Some (n0 :: nodes)) false true w
    = (w1, Ok rs)) as Hreq by (by rewrite request_from_nodes_run).
  rewrite (bind_ok _ _ _ _ _ Hreq) in Hrun. injection Hrun as <- _.
  destruct (collect_unlock l w w1 (Ok rs)) as [_ H]; [by rewrite Hl| |done| |done|].
  - rewrite <- (length_fmap snd), Hl. done.
  - intros rn Hin. apply Hh. rewrite <- Hl. apply list_elem_of_fmap. by exists rn.
  - apply (H i (PlainNodeRequest, n) f clock); [|done]. apply lookup_zip_Some. split; [|done].
    by rewrite list_lookup_fmap, Hn.
Qed.
End releasing.

(** Two coordinators and two nodes. *)
Definition node1 : CoordinatorNode := mkCoordinatorNode "n1" "az".
Definition node2 : CoordinatorNode := mkCoordinatorNode "n2" "az".
Definition free_net (s : list (fault * (nat → Z))) : net :=
  mkNet {["n1" := None; "n2" := None]} s.

Lemma acquire_holds_all_nodes_witness :
  let w := free_net [(Delivered, λ _, 10); (Delivered, λ _, 11)] in
  let w' := mkNet {["n1" := Some (NodeLock.mkLockEntry "a" 70); "n2" := Some (NodeLock.mkLockEntry "a" 71)]} [] in
  acquire_cluster_lock net_env [node1; node2] "a" 60 w = (w', Ok tt) ∧ held_at "a" 10 60 "n2" w'.
Proof.
  intros w w'. assert (acquire_cluster_lock net_env [node1; node2] "a" 60 w = (w', Ok tt)) as Hrun by (vm_compute; reflexivity).
  split; [exact Hrun|].
  refine (acquire_holds_all_nodes "a" 10 60 [node1; node2] w w' _ Hrun node2 _); [|right; by left].
  repeat constructor; simpl; lia.
Defined.

Lemma cluster_lock_exclusive_witness :
  let w := mkNet {["n1" := Some (NodeLock.mkLockEntry "a" 70); "n2" := None]} [(Delivered, λ _, 20); (LostResponse, λ _, 30)] in
  let w1 := perform_all [Call LockCall_unlock "c" 0 [node1]] w in
  net_held "a" 70 {["n1"]} w1 ∧
  (∃ w2, acquire_cluster_lock net_env [node1; node2] "b" 60 w1 = (w2, Raise (HTTPException 409)) ∧
    net_held "a" 70 {["n1"]} w2).
Proof.
  intros w w1.
  apply (cluster_lock_exclusive "a" 70 {["n1"]} ltac:(done) [Call LockCall_unlock "c" 0 [node1]] "b" 60 [node1; node2] w).
  - split; [|repeat constructor; simpl; lia]. intros u ->%elem_of_singleton. eexists. split; [reflexivity|].
    eexists. split; [reflexivity|]. done.
  - repeat constructor. done.
  - done.
  - exists node1. split; [by left|]. set_solver.
Defined.
End ClusterLock.
