(* ===== verification/Relock.v ===== *)
(** * Keeping the cluster lock ([LockedCoordinatorOp] of
      [coordinator/coordinator.py])

    While an operation runs, one task per node extends the lease of the
    operation on that node and cancels the operation when it cannot.  The
    loop runs on any [ClusterEnv]; what it guarantees is proved on a node
    with a clock, a lock and an adversarial connection, where other lockers
    interfere at any time. *)

From stdpp Require Import base gmap strings list.
From Stdlib Require Import ZArith Lia.
From S2P Require Import Prelude Progress Ipc Op Utils NodeLock Cluster.

Local Open Scope Z_scope.

Module Relock.
Import Cluster.

(** ** [_node_relock_loop]

    Times are in a unit that divides a tenth of the time to live; [slack] is
    the hundredth of a second.  The statistics are left out. *)
Record lease : Type := mkLease {
  lock_eol : Z;
  next_lock : Z;
}.

Inductive turn : Type := Again (l : lease) | CancelMain.

Section loop.
Context {E : Type} (env : ClusterEnv E) (cluster_nodes : list CoordinatorNode).
Context (locker : string) (ttl slack : Z).

Definition initial_lease (initial_lock_start : Z) : lease :=
  mkLease (initial_lock_start + ttl) (initial_lock_start + ttl / 2).

(** [while t < next_lock]; a turn takes one unit of fuel. *)
Fixpoint sleep_until (fuel : nat) (next t : Z) : M E Z :=
  if t <? next then
    match fuel with
    | O => raise OutOfFuel
    | S fuel' => env_sleep env (next - t + slack) ;; t' ← env_now env; sleep_until fuel' next t'
    end
  else mret t.

(** The body of [while True]. *)
Definition relock_turn (node : CoordinatorNode) (l : lease) : M E turn :=
  t ← env_now env;
  if lock_eol l <? t then mret CancelMain
  else
    t ← sleep_until 1 (next_lock l) t;
    r ← request_relock env cluster_nodes node locker ttl;
    match r with
    | ok => mret (Again (mkLease (t + ttl) (t + ttl / 2)))
    | failure => mret CancelMain
    | exception => env_sleep env (ttl / 10) ;; mret (Again l)
    end.

(** The first [turns] turns: the last lease and whether the loop still runs;
    otherwise it has cancelled the main task. *)
Fixpoint node_relock_loop (turns : nat) (node : CoordinatorNode) (l : lease) : M E (lease * bool) :=
  match turns with
  | O => mret (l, true)
  | S turns' =>
      r ← relock_turn node l;
      match r with
      | Again l' => node_relock_loop turns' node l'
      | CancelMain => mret (l, false)
      end
  end.
End loop.

(** The request for one node. *)
Lemma request_relock_run {E} (env : ClusterEnv E) cluster_nodes node locker ttl w w' rep :
  node ∈ cluster_nodes →
  env_request env node (PLock LockCall_relock locker ttl) PlainNodeRequest w = (w', Ok rep) →
  request_relock env cluster_nodes node locker ttl w =
  (w', lock_result_step LockCall_relock ok (httpx_request false true rep)).
Proof.
  intros Hn Hr. unfold request_relock. rewrite bool_decide_eq_true_2 by done.
  rewrite (bind_ok (py_assert true) _ _ _ _ eq_refl). unfold request_lock_call_from_nodes, request_from_nodes.
  simpl. rewrite (bind_ok _ _ w w' [httpx_request false true rep]).
  - unfold lift_res. simpl. by destruct (lock_result_step _ _ _).
  - rewrite (bind_ok (mret _) _ _ _ _ eq_refl). cbv beta. rewrite bool_decide_eq_true_2 by done.
    rewrite (bind_ok (py_assert true) _ _ _ _ eq_refl).
    rewrite (bind_ok (py_assert true) _ _ _ _ eq_refl). cbn [zip zip_with collect].
    unfold mbind, M_bind. simpl. by rewrite Hr.
Qed.

(** ** A node behind a slow, lossy connection

    Whenever time passes, requests of other lockers reach the node. *)
Inductive fault : Type := Delivered | LostResponse | LostRequest.

Record exchange : Type := mkExchange {
  travel : Z;
  ex_fault : fault;
  back : Z;
}.

Record link : Type := mkLink {
  l_now : Z;
  l_lock : NodeLock.state;
  (** The exchanges to come; the connection is down when there is none left. *)
  l_exchanges : list exchange;
  (** By how much the sleeps to come take longer than asked for. *)
  l_extra : nat → Z;
  (** What other lockers do while time passes, with the delays. *)
  l_others : nat → list (Z * NodeLock.request);
}.

(** A request at time [t]. *)
Definition at_node (t : Z) (r : NodeLock.request) (st : NodeLock.state) : NodeLock.state * res bool :=
  NodeLock.handle (λ _, t) r st.

Fixpoint others (t_end t : Z) (l : list (Z * NodeLock.request)) (st : NodeLock.state) : NodeLock.state :=
  match l with
  | [] => st
  | (d, r) :: l' => let t' := (t + Z.max 0 d) `min` t_end in others t_end t' l' (fst (at_node t' r st))
  end.

Definition advance (d : Z) (w : link) : link :=
  mkLink (l_now w + d) (others (l_now w + d) (l_now w) (l_others w 0%nat) (l_lock w)) (l_exchanges w) (l_extra w)
    (λ i, l_others w (S i)).

Definition link_sleep (d : Z) : M link unit := λ w,
  let w' := advance (d + Z.max 0 (l_extra w 0%nat)) w in
  (mkLink (l_now w') (l_lock w') (l_exchanges w') (λ i, l_extra w (S i)) (l_others w'), Ok tt).

Definition response (r : res bool) : Reply :=
  match r with
  | Ok b => Replied 200 (Some (BLocked b))
  | Raise (HTTPException s) => Replied s (Some BOther)
  | Raise _ => Replied 500 None
  end.

Definition to_request (call : LockCall) (who : string) (ttl : Z) : NodeLock.request :=
  match call with
  | LockCall_lock => NodeLock.Lock who ttl
  | LockCall_relock => NodeLock.Relock who ttl
  | LockCall_unlock => NodeLock.Unlock who
  end.

Definition next_exchange (w : link) : exchange := default (mkExchange 0 LostRequest 0) (head (l_exchanges w)).
Definition drop_exchange (w : link) : link :=
  mkLink (l_now w) (l_lock w) (tail (l_exchanges w)) (l_extra w) (l_others w).
Definition set_lock (st : NodeLock.state) (w : link) : link :=
  mkLink (l_now w) st (l_exchanges w) (l_extra w) (l_others w).

Definition link_request (node : CoordinatorNode) (url : Path) (req : NodeRequest) : M link Reply := λ w,
  let x := next_exchange w in
  let w1 := advance (Z.max 0 (travel x)) (drop_exchange w) in
  match ex_fault x, url with
  | LostRequest, _ | _, PPath _ => (advance (Z.max 0 (back x)) w1, Ok HttpFailure)
  | f, PLock call who ttl =>
      let '(st, r) := at_node (l_now w1) (to_request call who ttl) (l_lock w1) in
      (advance (Z.max 0 (back x)) (set_lock st w1),
       Ok (match f with Delivered => response r | _ => HttpFailure end))
  end.

Definition link_env : ClusterEnv link := {|
  env_request := link_request;
  env_poll _ := mret None;
  env_now := λ w, (w, Ok (l_now w));
  env_sleep := link_sleep;
|}.

Section guarantees.
Context (locker : string) (ttl slack : Z) (node : CoordinatorNode) (cluster_nodes : list CoordinatorNode).
Context (Hlocker : locker ≠ "") (Hnode : node ∈ cluster_nodes) (Httl : 0 < ttl) (H10 : (10 | ttl)) (Hslack : 0 <= slack).

(** Other lockers use other names. *)
Definition fair (w : link) : Prop :=
  ∀ i, Forall (λ dr : Z * NodeLock.request, NodeLock.who_asks dr.2 ≠ locker) (l_others w i).

(** The lease: the node is locked for the operation until [eol], or that
    time has passed. *)
Definition covered (eol : Z) (w : link) : Prop := NodeLock.holds locker eol (l_lock w) ∨ eol < l_now w.

Lemma others_held eol t_end t l st :
  t ≤ t_end → Forall (λ dr : Z * NodeLock.request, NodeLock.who_asks dr.2 ≠ locker) l →
  NodeLock.holds locker eol st ∨ eol < t → NodeLock.holds locker eol (others t_end t l st) ∨ eol < t_end.
Proof using Hlocker.
  intros Ht Hl. revert t st Ht. induction Hl as [|[d r] l Hr Hl IH]; intros t st Ht H; simpl.
  { destruct H; [by left|right; lia]. }
  apply IH; [lia|]. destruct (decide (eol < (t + Z.max 0 d) `min` t_end)) as [Hlt|Hge]; [by right|left].
  destruct H as [H|H]; [|lia]. set (t' := (t + Z.max 0 d) `min` t_end) in *.
  assert (nat → t' ≤ eol) as Ht' by (intros _; lia).
  pose proof (NodeLock.handle_held locker eol st (λ _, t') r Hlocker H Ht') as Hh.
  unfold at_node. simpl in Hr. destruct r as [x y|x y|x]; simpl in Hr; rewrite ?decide_False in Hh by done; by rewrite Hh.
Qed.

Lemma advance_covered eol d w :
  0 <= d → fair w → covered eol w → covered eol (advance d w) ∧ fair (advance d w) ∧ l_now (advance d w) = l_now w + d.
Proof using Hlocker.
  intros Hd Hf Hc. split; [|split; [intros i; apply Hf|done]].
  apply (others_held eol (l_now w + d) (l_now w) (l_others w 0%nat) (l_lock w)); [lia|apply Hf|done].
Qed.

Lemma sleep_covered eol d w :
  0 <= d → fair w → covered eol w →
  ∃ w', link_sleep d w = (w', Ok tt) ∧ covered eol w' ∧ fair w' ∧ l_exchanges w' = l_exchanges w ∧
    l_now w' = l_now w + d + Z.max 0 (l_extra w 0%nat) ∧ (∀ i, l_extra w' i = l_extra w (S i)).
Proof using Hlocker.
  intros Hd Hf Hc. destruct (advance_covered eol (d + Z.max 0 (l_extra w 0%nat)) w) as (H1 & H2 & H3); [lia|done|done|].
  eexists. split; [done|]. split_and!; [exact H1|exact H2|done|simpl; lia|done].
Qed.

(** [sleep_until] with one unit of fuel. *)
Lemma sleep_until_run eol next w :
  fair w → covered eol w →
  ∃ w', sleep_until link_env slack 1 next (l_now w) w = (w', Ok (l_now w')) ∧
    covered eol w' ∧ fair w' ∧ l_exchanges w' = l_exchanges w ∧
    Z.max (l_now w) next <= l_now w' <= Z.max (l_now w) (next + slack + Z.max 0 (l_extra w 0%nat)) ∧
    (∃ k, ∀ i, l_extra w' i = l_extra w (k + i)%nat).
Proof using Hlocker Hslack.
  intros Hf Hc. cbn [sleep_until]. destruct (Z.ltb_spec (l_now w) next) as [Hlt|Hge].
  - destruct (sleep_covered eol (next - l_now w + slack) w) as (w' & H1 & H2 & H3 & H4 & H5 & H6); [lia|done|done|].
    exists w'. rewrite (bind_ok _ _ _ _ _ H1). erewrite bind_ok by done.
    cbn [sleep_until]. destruct (Z.ltb_spec (l_now w') next); [lia|]. split_and!; try done; try lia. by exists 1%nat.
  - exists w. split_and!; try done; try lia. by exists 0%nat.
Qed.

(** *** The exchange *)
Definition max_trip (w : link) (trip : Z) : Prop :=
  0 <= trip ∧ Forall (λ x, Z.max 0 (travel x) + Z.max 0 (back x) <= trip) (l_exchanges w).

(** A relock that reaches the node. *)
Lemma at_node_relock eol t0 w :
  t0 <= l_now w → eol <= t0 + ttl → covered eol w →
  ∃ st b, at_node (l_now w) (NodeLock.Relock locker ttl) (l_lock w) = (st, b) ∧
    ((b = Ok true ∧ NodeLock.holds locker (t0 + ttl) st ∧ covered eol (set_lock st w)) ∨
     (∃ s, b = Raise (HTTPException s) ∧ is_error s = true ∧ st = l_lock w ∧ eol < l_now w)).
Proof using Hlocker.
  intros Ht He Hc. unfold at_node, NodeLock.handle, NodeLock.relock. erewrite bind_ok by done.
  assert (NodeLock.holds locker eol (l_lock w) → l_now w <= eol →
    NodeLock.is_locked (l_now w) (l_lock w) = Some locker) as Hheld by apply NodeLock.holds_is_locked.
  destruct (negb _) eqn:Hn.
  { do 2 eexists. split; [done|]. right. exists 409. split_and!; [done..|].
    destruct (Z.le_gt_cases (l_now w) eol) as [Hle|]; [|lia]. destruct Hc as [Hc|]; [|done].
    rewrite (Hheld Hc Hle) in Hn. simpl in Hn. by rewrite bool_decide_eq_true_2 in Hn. }
  case_decide as Hlk.
  { do 2 eexists. split; [done|]. right. exists 403. split_and!; [done..|].
    destruct (Z.le_gt_cases (l_now w) eol) as [Hle|]; [|lia]. destruct Hc as [Hc|]; [|done].
    by rewrite (Hheld Hc Hle) in Hlk. }
  assert (NodeLock.holds locker (t0 + ttl) (Some (NodeLock.mkLockEntry locker (l_now w + ttl)))) as Hh.
  { eexists. split; [done|]. split; [done|]. simpl. lia. }
  do 2 eexists. split; [done|]. left. split; [done|]. split; [exact Hh|]. left.
  destruct Hh as (l & Hl & Hlo & Hu). exists l. split_and!; [done..|lia].
Qed.

(** One exchange: an answer other than [ok] leaves the lease as it was. *)
Lemma relock_covered eol w trip :
  fair w → covered eol w → eol <= l_now w + ttl → max_trip w trip →
  ∃ w' r, request_relock link_env cluster_nodes node locker ttl w = (w', Ok r) ∧
    fair w' ∧ max_trip w' trip ∧ l_now w <= l_now w' <= l_now w + trip ∧ l_extra w' = l_extra w ∧
    l_exchanges w' = tail (l_exchanges w) ∧
    match r with
    | ok => covered (l_now w + ttl) w' ∧ ex_fault (next_exchange w) = Delivered
    | exception => covered eol w' ∧ ex_fault (next_exchange w) ≠ Delivered
    | failure => covered eol w' ∧ ex_fault (next_exchange w) = Delivered ∧ eol < l_now w + trip
    end.
Proof using Hlocker Hnode Httl.
  intros Hf Hc He [Htrip Hx]. set (x := next_exchange w). set (w1 := advance (Z.max 0 (travel x)) (drop_exchange w)).
  assert (Z.max 0 (travel x) + Z.max 0 (back x) <= trip) as Hxt.
  { unfold x, next_exchange. destruct Hx as [|y l Hy Hl]; simpl; [lia|done]. }
  destruct (advance_covered eol (Z.max 0 (travel x)) (drop_exchange w)) as (H1 & H2 & H3); [lia|done|done|].
  fold w1 in H1, H2, H3. change (l_now (drop_exchange w)) with (l_now w) in H3.
  assert (∀ e st, covered e (set_lock st w1) → ∃ w', advance (Z.max 0 (back x)) (set_lock st w1) = w' ∧ fair w' ∧
    max_trip w' trip ∧ l_now w <= l_now w' <= l_now w + trip ∧ l_extra w' = l_extra w ∧
    l_exchanges w' = tail (l_exchanges w) ∧ covered e w') as Hback.
  { intros e st Hce. destruct (advance_covered e (Z.max 0 (back x)) (set_lock st w1)) as (H4 & H5 & H6); [lia|done|done|].
    eexists. split; [done|]. split; [done|]. change (l_now (set_lock st w1)) with (l_now w1) in H6.
    split; [split; [done|apply Forall_tail, Hx]|]. split; [lia|]. by split_and!. }
  assert (set_lock (l_lock w1) w1 = w1) as Hid by (by destruct w1).
  assert (∀ f, ex_fault x = f → f ≠ LostRequest → link_request node (PLock LockCall_relock locker ttl) PlainNodeRequest w =
    (let '(st, r) := at_node (l_now w1) (NodeLock.Relock locker ttl) (l_lock w1) in
     (advance (Z.max 0 (back x)) (set_lock st w1), Ok (match f with Delivered => response r | _ => HttpFailure end))))
    as Hreq.
  { intros f Ef Hne. unfold link_request. fold x. rewrite Ef. by destruct f. }
  destruct (at_node_relock eol (l_now w) w1) as (st & b & Eat & Hb); [lia|lia|done|].
  destruct (ex_fault x) eqn:Ef.
  - specialize (Hreq Delivered eq_refl ltac:(done)). rewrite Eat in Hreq. destruct Hb as [(-> & Hh & Hcs)|(s & -> & Hs & -> & Hlate)].
    + destruct (Hback (l_now w + ttl) st) as (w' & E & ? & ? & ? & ? & ? & ?); [by left|].
      rewrite E in Hreq. exists w', ok. split; [|by do 5 (split; [done|])]. by rewrite (request_relock_run link_env _ _ _ _ _ _ _ Hnode Hreq).
    + destruct (Hback eol (l_lock w1)) as (w' & E & ? & ? & ? & ? & ? & ?); [by rewrite Hid|].
      rewrite E in Hreq. exists w', failure.
      split; [|do 6 (split; [done|]); split; [done|lia]]. rewrite (request_relock_run link_env _ _ _ _ _ _ _ Hnode Hreq).
      simpl. rewrite orb_true_r. simpl. by rewrite Hs.
  - specialize (Hreq LostResponse eq_refl ltac:(done)). rewrite Eat in Hreq.
    assert (covered eol (set_lock st w1)) as Hcs.
    { destruct Hb as [(_ & _ & ?)|(_ & _ & _ & -> & _)]; [done|by rewrite Hid]. }
    destruct (Hback eol st Hcs) as (w' & E & ? & ? & ? & ? & ? & ?).
    rewrite E in Hreq. exists w', exception. split; [|by do 5 (split; [done|])]. by rewrite (request_relock_run link_env _ _ _ _ _ _ _ Hnode Hreq).
  - destruct (Hback eol (l_lock w1)) as (w' & E & ? & ? & ? & ? & ? & ?); [by rewrite Hid|]. rewrite Hid in E.
    exists w', exception. split; [|by do 5 (split; [done|])]. assert (link_request node (PLock LockCall_relock locker ttl) PlainNodeRequest w = (w', Ok HttpFailure)) as Hl.
    { unfold link_request. fold x. rewrite Ef. fold w1. by rewrite E. }
    by rewrite (request_relock_run link_env _ _ _ _ _ _ _ Hnode Hl).
Qed.

(** *** A turn of the loop *)
Context (trip extra : Z) (Hextra : 0 <= extra) (Hlate : ttl / 2 + slack + extra <= ttl).

(** How long after the end of its lease the loop can still be asleep. *)
Definition overrun : Z := trip + ttl / 10 + extra.

Definition calm (w : link) : Prop := fair w ∧ max_trip w trip ∧ ∀ i, l_extra w i <= extra.

(** The lease dates from a time [t] before now, and is covered. *)
Definition alive (l : lease) (w : link) : Prop :=
  (∃ t, l = mkLease (t + ttl) (t + ttl / 2) ∧ t <= l_now w) ∧ calm w ∧ covered (lock_eol l) w.

Lemma ttl_tenths : ∃ u, 0 < u ∧ ttl = 10 * u ∧ ttl / 2 = 5 * u ∧ ttl / 10 = u.
Proof using Httl H10.
  clear -Httl H10. destruct H10 as [u ->]. exists u. split_and!; [lia|lia| |by apply Z.div_mul].
  replace (u * 10) with (5 * u * 2) by lia. by apply Z.div_mul.
Qed.

Lemma relock_turn_run l w :
  alive l w →
  ∃ w' r, relock_turn link_env cluster_nodes locker ttl slack node l w = (w', Ok r) ∧ calm w' ∧
    match r with
    | Again l' => alive l' w' ∧ l_now w' <= lock_eol l' + overrun ∧
        (ex_fault (next_exchange w) = Delivered ∧ l_now w' <= lock_eol l' - ttl + trip ∨
         ex_fault (next_exchange w) ≠ Delivered ∧ l' = l ∧ Z.max (l_now w) (next_lock l) + ttl / 10 <= l_now w') ∧
        l_exchanges w' = tail (l_exchanges w)
    | CancelMain => covered (lock_eol l) w' ∧ l_now w' <= Z.max (l_now w) (lock_eol l + overrun) ∧
        (lock_eol l < l_now w ∨ lock_eol l < Z.max (l_now w) (next_lock l + slack + extra) + trip)
    end.
Proof using All.
  intros ((t & -> & Ht) & (Hf & Htr & Hex) & Hc). destruct ttl_tenths as (u & Hu & Hu1 & Hu2 & Hu3).
  unfold relock_turn, overrun. simpl in *. erewrite (bind_ok (λ w, (w, Ok (l_now w)))) by done. simpl.
  destruct (Z.ltb_spec (t + ttl) (l_now w)) as [Hgt|Hle].
  { exists w, CancelMain. split; [done|]. split; [by split|]. split; [done|]. lia. }
  destruct (sleep_until_run (t + ttl) (t + ttl / 2) w Hf Hc) as (w1 & E1 & Hc1 & Hf1 & Hx1 & Ht1 & k & Hk).
  rewrite (bind_ok _ _ _ _ _ E1). pose proof (Hex 0%nat) as Hex0.
  assert (next_exchange w1 = next_exchange w) as Hne by (unfold next_exchange; by rewrite Hx1).
  destruct (relock_covered (t + ttl) w1 trip) as (w2 & r & E2 & Hf2 & Htr2 & Ht2 & Hex2 & Hx2 & Hr);
    [done|done|lia|by destruct Htr; split; [|rewrite Hx1]|].
  rewrite (bind_ok _ _ _ _ _ E2).
  assert (∀ i, l_extra w2 i <= extra) as Hexb by (intros i; rewrite Hex2, Hk; apply Hex).
  assert (0 <= trip) as Htrip by apply Htr.
  destruct r.
  - destruct Hr as [Hr Hd]. rewrite Hne in Hd. do 2 eexists. split; [done|]. split; [by split|]. simpl. split; [split; [|by split]|].
    { exists (l_now w1). split; [done|lia]. }
    split; [lia|]. split; [left; split; [done|lia]|]. by rewrite Hx2, Hx1.
  - destruct Hr as (Hr & Hd & Hlt). do 2 eexists. split; [done|]. split; [by split|]. split; [done|]. lia.
  - destruct Hr as (Hr & Hd). rewrite Hne in Hd.
    destruct (sleep_covered (t + ttl) (ttl / 10) w2) as (w3 & E3 & Hc3 & Hf3 & Hx3 & Ht3 & Hex3); [lia|done|done|].
    change (env_sleep link_env (ttl / 10)) with (link_sleep (ttl / 10)). rewrite (bind_ok _ _ _ _ _ E3).
    pose proof (Hexb 0%nat).
    assert (calm w3) as Hcalm.
    { split; [done|]. split; [destruct Htr2; split; [done|by rewrite Hx3]|]. intros i. rewrite Hex3. apply Hexb. }
    do 2 eexists. split; [done|]. split; [done|]. split; [split; [|by split]|].
    { exists t. split; [done|lia]. }
    simpl. split; [lia|]. split; [right; split_and!; [done|done|lia]|]. by rewrite Hx3, Hx2, Hx1.
Qed.

(** C31: However the connection behaves and whatever other lockers try: while the
    loop of a node has not cancelled the operation, and when it does so, the
    node is locked for the operation, or the lease ended at most [overrun]
    ago. *)
Theorem relock_lease_safe (turns : nat) (l : lease) (w : link) :
  alive l w → l_now w <= lock_eol l + overrun →
  ∃ w' l' running, node_relock_loop link_env cluster_nodes locker ttl slack turns node l w = (w', Ok (l', running)) ∧
    covered (lock_eol l') w' ∧ l_now w' <= lock_eol l' + overrun.
Proof using All.
  revert l w. induction turns as [|turns IH]; intros l w Ha Hn; cbn [node_relock_loop].
  { exists w, l, true. by destruct Ha as (_ & _ & ?). }
  destruct (relock_turn_run l w Ha) as (w1 & r & E & _ & Hr). rewrite (bind_ok _ _ _ _ _ E).
  destruct r as [l'|].
  - destruct Hr as (Ha' & Hn' & _). by apply IH.
  - destruct Hr as (Hc & Hn' & _). exists w1, l, false. split; [done|]. split; [done|]. lia.
Qed.

(** When no answer arrives any more, the operation is cancelled after at most
    six attempts. *)
Theorem relock_gives_up (l : lease) (w : link) :
  alive l w → Forall (λ x, ex_fault x ≠ Delivered) (l_exchanges w) →
  ∃ w', node_relock_loop link_env cluster_nodes locker ttl slack 7 node l w = (w', Ok (l, false)) ∧
    l_now w' <= Z.max (l_now w) (lock_eol l + overrun).
Proof using All.
  destruct ttl_tenths as (u & Hu & Hu1 & Hu2 & Hu3).
  assert (∀ k l w, alive l w → Forall (λ x, ex_fault x ≠ Delivered) (l_exchanges w) →
    (k <= 6)%nat → next_lock l + Z.of_nat (6 - k) * u <= Z.max (l_now w) (next_lock l) →
    ∃ w', node_relock_loop link_env cluster_nodes locker ttl slack (S k) node l w = (w', Ok (l, false)) ∧
      l_now w' <= Z.max (l_now w) (lock_eol l + overrun)) as Hk.
  { clear l w. induction k as [|k IH]; intros l w Ha Hx Hk Hn;
      destruct (relock_turn_run l w Ha) as (w1 & r & E & _ & Hr); cbn [node_relock_loop]; rewrite (bind_ok _ _ _ _ _ E);
      (destruct r as [l'|]; [|exists w1; split; [done|apply Hr]]);
      destruct Hr as (Ha' & Hn' & [[Hd _]|(_ & -> & Ht)] & Hx');
      try (exfalso; unfold next_exchange in Hd; destruct Hx as [|x xs Hx Hxs]; simpl in Hd; done).
    - exfalso. destruct Ha as ((t & -> & _) & _). simpl in *.
      assert (lock_eol (mkLease (t + ttl) (t + ttl / 2)) < l_now w) as Hlt by (simpl; lia).
      revert E. unfold relock_turn. erewrite (bind_ok (env_now link_env)) by done. simpl in Hlt |- *.
      by rewrite (proj2 (Z.ltb_lt _ _) Hlt).
    - assert (Z.of_nat (6 - k) * u = Z.of_nat (6 - S k) * u + u) as Hstep.
      { replace (6 - k)%nat with (S (6 - S k)) by lia. lia. }
      destruct (IH l w1 Ha') as (w2 & E2 & Ht2); [by rewrite Hx'; apply Forall_tail|lia|lia|].
      cbn [node_relock_loop] in E2. exists w2. split; [done|lia]. }
  intros Ha Hx. apply (Hk 6%nat); [done|done|lia|lia].
Qed.

(** As long as every exchange is answered within the time left, the lease is
    renewed turn after turn and the operation is never cancelled. *)
Theorem relock_renews (turns : nat) (l : lease) (w : link) :
  ttl / 2 + slack + extra + trip <= ttl →
  alive l w → l_now w <= lock_eol l - ttl + trip →
  (turns <= length (l_exchanges w))%nat → Forall (λ x, ex_fault x = Delivered) (l_exchanges w) →
  ∃ w' l', node_relock_loop link_env cluster_nodes locker ttl slack turns node l w = (w', Ok (l', true)) ∧
    NodeLock.holds locker (lock_eol l') (l_lock w') ∧ l_now w' <= lock_eol l' - ttl + trip.
Proof using All.
  intros Hfast. destruct ttl_tenths as (u & Hu & Hu1 & Hu2 & Hu3).
  revert l w. induction turns as [|turns IH]; intros l w Ha Hn Hlen Hx; cbn [node_relock_loop].
  { exists w, l. split; [done|]. split; [|done]. destruct Ha as (_ & Hcalm & [?|?]); [done|].
    destruct Hcalm as (_ & [? _] & _). lia. }
  destruct (relock_turn_run l w Ha) as (w1 & r & E & _ & Hr). rewrite (bind_ok _ _ _ _ _ E).
  assert (0 <= trip) as Htrip by apply Ha.
  assert (ex_fault (next_exchange w) = Delivered) as Hdel.
  { unfold next_exchange. destruct Hx; simpl in *; [lia|done]. }
  destruct r as [l'|].
  - destruct Hr as (Ha' & _ & [[_ Ht]|[? _]] & Hx'); [|done]. apply IH; [done|done| |rewrite Hx'; by apply Forall_tail].
    rewrite Hx'. destruct (l_exchanges w); simpl in *; lia.
  - exfalso. destruct Hr as (_ & _ & Hbad). destruct Ha as ((t & -> & Ht) & _). simpl in *. lia.
Qed.
End guarantees.

(** ** Ten minutes, in microseconds; exchanges take up to ten seconds and a
    sleep up to a second too long, while another locker keeps asking. *)
Definition second : Z := 1000000.
Definition example_ttl : Z := 600 * second.
Definition example_slack : Z := 10000.
Definition example_cluster_node : CoordinatorNode := mkCoordinatorNode "http://n1" "".
Definition example_link (exchanges : list exchange) : link :=
  mkLink (2 * second) (Some (NodeLock.mkLockEntry "a" (601 * second))) exchanges (λ _, second)
    (λ _, [(second, NodeLock.Lock "b" 60); (second, NodeLock.Unlock "b")]).
Definition example_lease : lease := initial_lease example_ttl second.

Lemma example_alive exchanges :
  Forall (λ x, Z.max 0 (travel x) + Z.max 0 (back x) <= 10 * second) exchanges →
  alive "a" example_ttl (10 * second) second example_lease (example_link exchanges).
Proof.
  intros Hx. split; [exists second; by split|]. split; [|left; by eexists].
  split; [|split; [by split|]].
  - intros i. repeat constructor; done.
  - intros i. apply Z.le_refl.
Qed.

(** A response is lost, then the node answers in time. *)
Definition example_exchanges : list exchange :=
  [mkExchange second LostResponse (9 * second); mkExchange second Delivered second].

Lemma relock_lease_safe_witness :
  let turns := node_relock_loop link_env [example_cluster_node] "a" example_ttl example_slack 2 example_cluster_node
    example_lease (example_link example_exchanges) in
  (∃ w' l' running, turns = (w', Ok (l', running)) ∧
    covered "a" (lock_eol l') w' ∧ l_now w' <= lock_eol l' + overrun example_ttl (10 * second) second) ∧
  (∃ l', snd turns = Ok (l', true) ∧ lock_eol example_lease < lock_eol l').
Proof.
  intros turns. split; [|eexists; split; [vm_compute; reflexivity|done]].
  apply (relock_lease_safe "a" example_ttl example_slack example_cluster_node [example_cluster_node]);
    [done|by apply list_elem_of_here|done|by exists (60 * second)|done|done|done| |done].
  apply example_alive. repeat constructor; unfold second; simpl; lia.
Defined.

Lemma relock_gives_up_witness :
  ∃ w', node_relock_loop link_env [example_cluster_node] "a" example_ttl example_slack 7 example_cluster_node
    example_lease (example_link (replicate 3 (mkExchange second LostRequest (9 * second)))) = (w', Ok (example_lease, false)) ∧
    l_now w' <= Z.max (2 * second) (lock_eol example_lease + overrun example_ttl (10 * second) second).
Proof.
  apply (relock_gives_up "a" example_ttl example_slack example_cluster_node [example_cluster_node] ltac:(done)
    ltac:(by apply list_elem_of_here) ltac:(done) ltac:(by exists (60 * second)) ltac:(done) (10 * second) second ltac:(done)
    ltac:(done) example_lease (example_link (replicate 3 (mkExchange second LostRequest (9 * second))))).
  - apply example_alive. repeat constructor; unfold second; simpl; lia.
  - repeat constructor; done.
Defined.

Lemma relock_renews_witness :
  ∃ w' l', node_relock_loop link_env [example_cluster_node] "a" example_ttl example_slack 2 example_cluster_node
    example_lease (example_link (replicate 3 (mkExchange second Delivered second))) = (w', Ok (l', true)) ∧
    NodeLock.holds "a" (lock_eol l') (l_lock w') ∧ l_now w' <= lock_eol l' - example_ttl + 10 * second.
Proof.
  apply (relock_renews "a" example_ttl example_slack example_cluster_node [example_cluster_node] ltac:(done)
    ltac:(by apply list_elem_of_here) ltac:(done) ltac:(by exists (60 * second)) ltac:(done) (10 * second) second ltac:(done)
    ltac:(done) 2 example_lease (example_link (replicate 3 (mkExchange second Delivered second)))); [done| |done|simpl; lia|].
  - apply example_alive. repeat constructor; unfold second; simpl; lia.
  - repeat constructor; done.
Defined.
End Relock.
