(* ===== verification/Datetime.v ===== *)
(** * Instants and their text

    [datetime.isoformat(timespec="seconds")] of an aware UTC instant, as
    [UploadManifestStep._make_backup_name] uses it: backup names are compared
    as strings, so the order of the text matters.  Instants are microseconds
    since 1970-01-01T00:00:00+00:00. *)

From stdpp Require Import base strings list.
From Stdlib Require Import ZArith Lia Ascii.
From S2P Require Import Prelude.

Local Open Scope Z_scope.

Module Datetime.

(** Proleptic Gregorian date of a day number. *)
Definition civil_from_days (z : Z) : Z * Z * Z :=
  let z := z + 719468 in
  let era := z / 146097 in
  let doe := z mod 146097 in
  let yoe := (doe - doe / 1460 + doe / 36524 - doe / 146096) / 365 in
  let doy := doe - (365 * yoe + yoe / 4 - yoe / 100) in
  let mp := (5 * doy + 2) / 153 in
  let d := doy - (153 * mp + 2) / 5 + 1 in
  let m := if mp <? 10 then mp + 3 else mp - 9 in
  (yoe + era * 400 + (if m <=? 2 then 1 else 0), m, d).

(** Decimal digits, most significant first, padded with zeros to a width. *)
Definition digit (n : Z) : ascii := ascii_of_nat (48 + Z.to_nat (n mod 10)).

Fixpoint pad (width : nat) (n : Z) : string :=
  match width with
  | O => EmptyString
  | S w => String (digit (n / 10 ^ Z.of_nat w)) (pad w n)
  end.

Record fields : Type := mkFields { year : Z; month : Z; day : Z; hour : Z; minute : Z; second : Z }.

Definition fields_of (t : Z) : fields :=
  let s := t / 1000000 in
  let '(y, m, d) := civil_from_days (s / 86400) in
  mkFields y m d (s / 3600 mod 24) (s / 60 mod 60) (s mod 60).

Definition isoformat_seconds (t : Z) : string :=
  let f := fields_of t in
  pad 4 (year f) +:+ "-" +:+ pad 2 (month f) +:+ "-" +:+ pad 2 (day f) +:+ "T" +:+
  pad 2 (hour f) +:+ ":" +:+ pad 2 (minute f) +:+ ":" +:+ pad 2 (second f) +:+ "+00:00".

Example iso_epoch : isoformat_seconds 0 = "1970-01-01T00:00:00+00:00".
Proof. reflexivity. Qed.
Example iso_leap : isoformat_seconds 1709210096000001 = "2024-02-29T12:34:56+00:00".
Proof. reflexivity. Qed.

(** ** Order *)

(** The date as one number whose order is the lexicographic one. *)
Definition date_key (p : Z * Z * Z) : Z := (p.1.1 * 12 + (p.1.2 - 1)) * 31 + (p.2 - 1).


Definition yoe (doe : Z) : Z := (doe - doe / 1460 + doe / 36524 - doe / 146096) / 365.
Definition year_start (y : Z) : Z := 365 * y + y / 4 - y / 100.
Definition month_of (doy : Z) : Z := (5 * doy + 2) / 153.
Definition day_of (doy : Z) : Z := doy - (153 * month_of doy + 2) / 5.

(** Months counted from March of year 0, then days. *)
Lemma date_key_eq z :
  let z := z + 719468 in
  let y := yoe (z mod 146097) in
  let doy := z mod 146097 - year_start y in
  date_key (civil_from_days (z - 719468)) = ((y + z / 146097 * 400) * 12 + month_of doy + 2) * 31 + day_of doy.
Proof.
  intros z' y doy. unfold civil_from_days, date_key. cbn [fst snd].
  replace (z' - 719468 + 719468) with z' by lia.
  change ((z' mod 146097 - z' mod 146097 / 1460 + z' mod 146097 / 36524 - z' mod 146097 / 146096) / 365) with y.
  change (z' mod 146097 - (365 * y + y / 4 - y / 100)) with doy.
  change ((5 * doy + 2) / 153) with (month_of doy). unfold day_of.
  destruct (month_of doy <? 10) eqn:E.
  - destruct (month_of doy + 3 <=? 2) eqn:E2; [|lia].
    exfalso. assert (0 ≤ doy ∨ doy < 0) as [?|?] by lia; unfold month_of in *.
    + assert (0 ≤ (5 * doy + 2) / 153) by (apply Z.div_pos; lia). lia.
    + subst doy y. revert H. unfold yoe, year_start. pose proof (Z.mod_pos_bound z' 146097). 
      generalize dependent (z' mod 146097). intros. clear E E2. Z.div_mod_to_equations. lia.
  - destruct (month_of doy - 9 <=? 2) eqn:E2; [lia|].
    exfalso. subst doy y. revert E E2. unfold month_of, yoe, year_start. pose proof (Z.mod_pos_bound z' 146097).
    generalize dependent (z' mod 146097). intros. Z.div_mod_to_equations. lia.
Qed.

Lemma yoe_spec doe :
  0 ≤ doe < 146097 →
  0 ≤ yoe doe ≤ 399 ∧ year_start (yoe doe) ≤ doe ∧ (yoe doe < 399 → doe < year_start (yoe doe + 1)) ∧
  doe - year_start (yoe doe) ≤ 365.
Proof.
  intros H. unfold yoe, year_start. split; [split; Z.div_mod_to_equations; lia|].
  split; [Z.div_mod_to_equations; lia|]. split; [intros Hy; revert Hy|]; Z.div_mod_to_equations; lia.
Qed.

Lemma yoe_succ doe :
  0 ≤ doe → doe + 1 < 146097 →
  yoe (doe + 1) = yoe doe ∨ yoe (doe + 1) = yoe doe + 1 ∧ doe + 1 = year_start (yoe doe + 1).
Proof. intros H0 H. unfold yoe, year_start. Z.div_mod_to_equations. lia. Qed.

Lemma month_day_spec doy : 0 ≤ doy ≤ 365 → 0 ≤ month_of doy ≤ 11 ∧ 0 ≤ day_of doy ≤ 30.
Proof. intros H. unfold day_of, month_of. Z.div_mod_to_equations. lia. Qed.

Lemma month_day_succ doy :
  0 ≤ doy ≤ 364 → month_of doy * 31 + day_of doy < month_of (doy + 1) * 31 + day_of (doy + 1).
Proof. intros H. unfold day_of, month_of. Z.div_mod_to_equations. lia. Qed.

(** The calendar order is the order of the days. *)
Lemma civil_succ z : date_key (civil_from_days z) < date_key (civil_from_days (z + 1)).
Proof.
  pose proof (date_key_eq z) as H1. pose proof (date_key_eq (z + 1)) as H2. cbv zeta in H1, H2.
  replace (z + 719468 - 719468) with z in H1 by lia. replace (z + 1 + 719468 - 719468) with (z + 1) in H2 by lia.
  replace (z + 1 + 719468) with (z + 719468 + 1) in H2 by lia. rewrite H1, H2. clear H1 H2.
  generalize (z + 719468). clear z. intros z.
  pose proof (Z.mod_pos_bound z 146097 ltac:(lia)) as Hb.
  set (doe := z mod 146097) in *.
  destruct (yoe_spec doe Hb) as (Hy & Hs & Hu & Hd). pose proof (month_day_spec (doe - year_start (yoe doe))) as Hmd.
  destruct (decide (doe + 1 < 146097)) as [Hlt|Hge].
  - assert ((z + 1) mod 146097 = doe + 1 ∧ (z + 1) / 146097 = z / 146097) as [-> ->].
    { subst doe. pose proof (Z.div_mod z 146097 ltac:(lia)) as He.
      split; symmetry; [apply (Z.mod_unique_pos _ _ (z / 146097))|apply (Z.div_unique_pos _ _ _ (z mod 146097 + 1))]; lia. }
    destruct (yoe_spec (doe + 1) ltac:(lia)) as (Hy' & Hs' & _ & Hd').
    destruct (yoe_succ doe ltac:(lia) Hlt) as [He|[He Hstart]].
    + rewrite He in *. pose proof (month_day_succ (doe - year_start (yoe doe)) ltac:(lia)) as Hm.
      replace (doe + 1 - year_start (yoe doe)) with (doe - year_start (yoe doe) + 1) by lia. lia.
    + rewrite He, Hstart. replace (year_start (yoe doe + 1) - year_start (yoe doe + 1)) with 0 by lia.
      change (month_of 0) with 0. change (day_of 0) with 0. lia.
  - assert (doe = 146096) as Hdoe by lia.
    assert ((z + 1) mod 146097 = 0 ∧ (z + 1) / 146097 = z / 146097 + 1) as [-> ->].
    { subst doe. pose proof (Z.div_mod z 146097 ltac:(lia)) as He.
      split; symmetry; [apply (Z.mod_unique_pos _ _ (z / 146097 + 1))|apply (Z.div_unique_pos _ _ _ 0)]; lia. }
    change (yoe 0) with 0. change (0 - year_start 0) with 0. change (month_of 0) with 0. change (day_of 0) with 0.
    lia.
Qed.

Lemma civil_lt a b : a < b → date_key (civil_from_days a) < date_key (civil_from_days b).
Proof.
  intros H. assert (∀ n : nat, date_key (civil_from_days a) < date_key (civil_from_days (a + 1 + Z.of_nat n))) as Hn.
  { induction n as [|n IH].
    - rewrite Z.add_0_r. apply civil_succ.
    - pose proof (civil_succ (a + 1 + Z.of_nat n)). replace (a + 1 + Z.of_nat (S n)) with (a + 1 + Z.of_nat n + 1) by lia.
      lia. }
  specialize (Hn (Z.to_nat (b - a - 1))). by replace (a + 1 + Z.of_nat (Z.to_nat (b - a - 1))) with b in Hn by lia.
Qed.

Lemma civil_month_day z y m d : civil_from_days z = (y, m, d) → 1 ≤ m ≤ 12 ∧ 1 ≤ d ≤ 31.
Proof.
  unfold civil_from_days. set (doe := (z + 719468) mod 146097). intros [= _ <- <-].
  pose proof (Z.mod_pos_bound (z + 719468) 146097 ltac:(lia)) as Hb. fold doe in Hb.
  destruct (yoe_spec doe Hb) as (_ & Hs & _ & Hd).
  pose proof (month_day_spec (doe - year_start (yoe doe)) ltac:(lia)) as [Hm Hday].
  change (doe - (365 * ((doe - doe / 1460 + doe / 36524 - doe / 146096) / 365) +
    (doe - doe / 1460 + doe / 36524 - doe / 146096) / 365 / 4 -
    (doe - doe / 1460 + doe / 36524 - doe / 146096) / 365 / 100)) with (doe - year_start (yoe doe)).
  set (doy := doe - year_start (yoe doe)) in *. change ((5 * doy + 2) / 153) with (month_of doy).
  unfold day_of in Hday. split; [|lia]. destruct (month_of doy <? 10) eqn:E; lia.
Qed.

(** *** Strings of digits *)
Lemma N_of_digit a : 0 ≤ a ≤ 9 → N_of_ascii (digit a) = Z.to_N (48 + a).
Proof.
  intros Ha. assert (a = 0 ∨ a = 1 ∨ a = 2 ∨ a = 3 ∨ a = 4 ∨ a = 5 ∨ a = 6 ∨ a = 7 ∨ a = 8 ∨ a = 9) as H by lia.
  destruct H as [->|[->|[->|[->|[->|[->|[->|[->|[->| ->]]]]]]]]]; reflexivity.
Qed.

Lemma digit_mod a : digit (a mod 10) = digit a.
Proof. unfold digit. by rewrite Z.mod_mod. Qed.

Lemma digit_compare a b : 0 ≤ a ≤ 9 → 0 ≤ b ≤ 9 → Ascii.compare (digit a) (digit b) = Z.compare a b.
Proof.
  intros Ha Hb. unfold Ascii.compare. rewrite !N_of_digit by done.
  rewrite Z2N.inj_compare by lia. destruct (Z.compare_spec a b); [subst; apply Z.compare_refl| |];
    [apply Z.compare_lt_iff|apply Z.compare_gt_iff]; lia.
Qed.

Definition then_compare (c1 c2 : comparison) : comparison := match c1 with Eq => c2 | c => c end.

Lemma compare_app s1 t1 s2 t2 :
  String.length s1 = String.length s2 →
  String.compare (s1 +:+ t1) (s2 +:+ t2) = then_compare (String.compare s1 s2) (String.compare t1 t2).
Proof.
  revert s2. induction s1 as [|c1 s1 IH]; intros [|c2 s2] Hl; simpl in Hl; try done.
  change ((String c1 s1) +:+ t1) with (String c1 (s1 +:+ t1)). change ((String c2 s2) +:+ t2) with (String c2 (s2 +:+ t2)).
  cbn [String.compare]. destruct (Ascii.compare c1 c2); [|done|done]. apply IH. lia.
Qed.

Lemma length_pad w n : String.length (pad w n) = w.
Proof. induction w as [|w IH]; [done|]. simpl. by rewrite IH. Qed.

Lemma pad_mod w n : pad w (n mod 10 ^ Z.of_nat w) = pad w n.
Proof.
  assert (∀ v, (v ≤ w)%nat → pad v (n mod 10 ^ Z.of_nat w) = pad v n) as H; [|by apply H].
  induction v as [|v IH]; intros Hv; [done|]. cbn [pad]. rewrite IH by lia. f_equal.
  rewrite <- digit_mod, <- (digit_mod (n / _)). f_equal.
  pose proof (Z.pow_pos_nonneg 10 (Z.of_nat v) ltac:(lia) ltac:(lia)) as Hp.
  replace (Z.of_nat w) with (Z.of_nat v + (1 + (Z.of_nat w - Z.of_nat v - 1))) by lia.
  rewrite Z.pow_add_r, Z.pow_add_r by lia. rewrite Z.pow_1_r.
  pose proof (Z.pow_pos_nonneg 10 (Z.of_nat w - Z.of_nat v - 1) ltac:(lia) ltac:(lia)) as Hq.
  set (p := 10 ^ Z.of_nat v) in *. set (q := 10 ^ (Z.of_nat w - Z.of_nat v - 1)) in *.
  assert (n / p = n mod (p * (10 * q)) / p + q * (n / (p * (10 * q))) * 10) as ->.
  { rewrite (Z.div_mod n (p * (10 * q))) at 1 by nia.
    replace (p * (10 * q) * (n / (p * (10 * q))) + n mod (p * (10 * q)))
      with (n mod (p * (10 * q)) + q * (n / (p * (10 * q))) * 10 * p) by ring.
    by rewrite Z.div_add by lia. }
  by rewrite Z.mod_add by lia.
Qed.

Lemma pad_compare w a b :
  0 ≤ a < 10 ^ Z.of_nat w → 0 ≤ b < 10 ^ Z.of_nat w → String.compare (pad w a) (pad w b) = Z.compare a b.
Proof.
  revert a b. induction w as [|w IH]; intros a b Ha Hb.
  { assert (a = b) as -> by (simpl in *; lia). by rewrite Z.compare_refl. }
  cbn [pad String.compare]. rewrite Nat2Z.inj_succ, Z.pow_succ_r in Ha, Hb by lia.
  pose proof (Z.pow_pos_nonneg 10 (Z.of_nat w) ltac:(lia) ltac:(lia)) as Hp.
  set (p := 10 ^ Z.of_nat w) in *.
  assert (0 ≤ a / p ≤ 9 ∧ 0 ≤ b / p ≤ 9) as [Hda Hdb].
  { split; split; try (apply Z.div_pos; lia); apply Z.lt_succ_r, Z.div_lt_upper_bound; lia. }
  rewrite digit_compare by done. rewrite <- (pad_mod w a), <- (pad_mod w b). fold p.
  rewrite (IH (a mod p) (b mod p)) by (apply Z.mod_pos_bound; lia).
  pose proof (Z.div_mod a p ltac:(lia)). pose proof (Z.div_mod b p ltac:(lia)).
  pose proof (Z.mod_pos_bound a p ltac:(lia)). pose proof (Z.mod_pos_bound b p ltac:(lia)).
  destruct (Z.compare_spec (a / p) (b / p)) as [He|Hl|Hg].
  - destruct (Z.compare_spec (a mod p) (b mod p)); symmetry;
      [apply Z.compare_eq_iff|apply Z.compare_lt_iff|apply Z.compare_gt_iff]; nia.
  - symmetry. apply Z.compare_lt_iff. nia.
  - symmetry. apply Z.compare_gt_iff. nia.
Qed.

(** *** The text of an instant *)
Definition in_range (t : Z) : Prop := 0 ≤ year (fields_of t) ≤ 9999.

Lemma fields_bounds t :
  1 ≤ month (fields_of t) ≤ 12 ∧ 1 ≤ day (fields_of t) ≤ 31 ∧
  0 ≤ hour (fields_of t) ≤ 23 ∧ 0 ≤ minute (fields_of t) ≤ 59 ∧ 0 ≤ second (fields_of t) ≤ 59.
Proof.
  unfold fields_of. destruct (civil_from_days _) as [[y m] d] eqn:E. apply civil_month_day in E as [Hm Hd].
  cbn [month day hour minute second].
  pose proof (Z.mod_pos_bound (t / 1000000 / 3600) 24). pose proof (Z.mod_pos_bound (t / 1000000 / 60) 60).
  pose proof (Z.mod_pos_bound (t / 1000000) 60). lia.
Qed.

Definition compare_fields (f g : fields) : comparison :=
  then_compare (Z.compare (year f) (year g)) (then_compare (Z.compare (month f) (month g))
  (then_compare (Z.compare (day f) (day g)) (then_compare (Z.compare (hour f) (hour g))
  (then_compare (Z.compare (minute f) (minute g)) (Z.compare (second f) (second g)))))).

Lemma time_of_day s :
  s = s / 86400 * 86400 + (s / 3600 mod 24) * 3600 + (s / 60 mod 60) * 60 + s mod 60.
Proof.
  replace 86400 with (3600 * 24) by done. rewrite <- Z.div_div by lia. replace 3600 with (60 * 60) by done.
  rewrite <- Z.div_div by lia.
  pose proof (Z.div_mod s 60). pose proof (Z.div_mod (s / 60) 60). pose proof (Z.div_mod (s / 60 / 60) 24). lia.
Qed.

Lemma compare_fields_lt a b :
  a / 1000000 < b / 1000000 → compare_fields (fields_of a) (fields_of b) = Lt.
Proof.
  intros Hs. pose proof (fields_bounds a) as Ha. pose proof (fields_bounds b) as Hb.
  unfold compare_fields. unfold fields_of in *.
  set (sa := a / 1000000) in *. set (sb := b / 1000000) in *.
  destruct (civil_from_days (sa / 86400)) as [[y1 m1] d1] eqn:E1.
  destruct (civil_from_days (sb / 86400)) as [[y2 m2] d2] eqn:E2.
  cbn [year month day hour minute second] in *.
  assert (date_key (y1, m1, d1) < date_key (y2, m2, d2) ∨
    (y1, m1, d1) = (y2, m2, d2) ∧ sa / 86400 = sb / 86400) as Hd.
  { destruct (decide (sa / 86400 = sb / 86400)) as [He|He].
    - right. split; [congruence|done].
    - left. rewrite <- E1, <- E2. apply civil_lt. pose proof (Z.div_le_mono sa sb 86400). lia. }
  unfold date_key in Hd. cbn [fst snd] in Hd. unfold then_compare.
  destruct Hd as [Hd|[[= <- <- <-] Hday]].
  - destruct (Z.compare_spec y1 y2); [|done|lia]. destruct (Z.compare_spec m1 m2); [|done|lia].
    destruct (Z.compare_spec d1 d2); [lia|done|lia].
  - rewrite !Z.compare_refl. pose proof (time_of_day sa) as Ta. pose proof (time_of_day sb) as Tb.
    rewrite <- Hday in Tb. clear E1 E2 Hday.
    destruct (Z.compare_spec (sa / 3600 mod 24) (sb / 3600 mod 24)); [|done|lia].
    destruct (Z.compare_spec (sa / 60 mod 60) (sb / 60 mod 60)); [|done|lia].
    destruct (Z.compare_spec (sa mod 60) (sb mod 60)); [lia|done|lia].
Qed.

Lemma compare_fields_antisym f g : compare_fields g f = CompOpp (compare_fields f g).
Proof.
  unfold compare_fields, then_compare. rewrite (Z.compare_antisym (year f)), (Z.compare_antisym (month f)),
    (Z.compare_antisym (day f)), (Z.compare_antisym (hour f)), (Z.compare_antisym (minute f)),
    (Z.compare_antisym (second f)).
  destruct (year f ?= year g), (month f ?= month g), (day f ?= day g), (hour f ?= hour g), (minute f ?= minute g),
    (second f ?= second g); reflexivity.
Qed.

Lemma compare_fields_spec a b :
  compare_fields (fields_of a) (fields_of b) = Z.compare (a / 1000000) (b / 1000000).
Proof.
  destruct (Z.compare_spec (a / 1000000) (b / 1000000)) as [He|Hl|Hg].
  - unfold compare_fields, fields_of. rewrite He. destruct (civil_from_days _) as [[y m] d].
    cbn [year month day hour minute second]. unfold then_compare. by rewrite !Z.compare_refl.
  - by apply compare_fields_lt.
  - rewrite <- (CompOpp_involutive (compare_fields _ _)), <- compare_fields_antisym.
    by rewrite compare_fields_lt.
Qed.

Lemma compare_refl (x : string) : String.compare x x = Eq.
Proof. pose proof (String.compare_antisym x x). by destruct (String.compare x x). Qed.

Lemma iso_compare a b :
  in_range a → in_range b →
  String.compare (isoformat_seconds a) (isoformat_seconds b) = Z.compare (a / 1000000) (b / 1000000).
Proof.
  unfold in_range. intros Ha Hb. rewrite <- compare_fields_spec.
  pose proof (fields_bounds a) as Ba. pose proof (fields_bounds b) as Bb.
  unfold isoformat_seconds, compare_fields. generalize dependent (fields_of a). generalize dependent (fields_of b).
  intros g Hg Bg f Hf Bf.
  assert (∀ s t1 t2, String.compare (s +:+ t1) (s +:+ t2) = String.compare t1 t2) as Hsame.
  { intros s t1 t2. rewrite compare_app by done. by rewrite compare_refl. }
  do 5 (rewrite compare_app by (by rewrite !length_pad); rewrite Hsame).
  rewrite compare_app by (by rewrite !length_pad). rewrite compare_refl. rewrite !pad_compare by (simpl; lia).
  by destruct (second f ?= second g).
Qed.

Lemma isoformat_leb (a b : Z) :
  in_range a → in_range b →
  (str_leb (isoformat_seconds a) (isoformat_seconds b) = true ↔ a / 1000000 ≤ b / 1000000).
Proof.
  intros Ha Hb. unfold str_leb, String.leb. rewrite iso_compare by done.
  destruct (Z.compare_spec (a / 1000000) (b / 1000000)); split; lia || done.
Qed.

(** Backup names sort chronologically: for instants of the years 0 to
    9999, the text of one is at most the text of the other, as strings, exactly
    when it is at most as late, to the second. *)
Theorem isoformat_order (a b : Z) :
  in_range a → in_range b →
  (str_leb (isoformat_seconds a) (isoformat_seconds b) = true ↔ a / 1000000 ≤ b / 1000000).
Proof. apply isoformat_leb. Qed.

Lemma isoformat_order_witness :
  str_leb (isoformat_seconds 1709210096000001) (isoformat_seconds 1709251200000000) = true ↔
  1709210096000001 / 1000000 ≤ 1709251200000000 / 1000000.
Proof. apply isoformat_order; split; vm_compute; discriminate. Defined.
End Datetime.
