(* ===== verification/Cleanup.v ===== *)
(** * Cleanup ([coordinator/cleanup.py] and the retention steps of
      [coordinator/plugins/base.py], [coordinator/plugins/cassandra/plugin.py])

    Which backups are kept, and what is deleted from the two object storages.
    The steps are verified against the [StorageSpec] interface; the cleanup of
    plugins with and without delta backups are the two step lists at the end. *)

From stdpp Require Import base gmap strings list sorting.
From Stdlib Require Import ZArith Lia.
From S2P Require Import Prelude Progress Ipc Storage Op Steps.

Local Open Scope Z_scope.

Module Cleanup.

(** ** Retention: [coalesce], [CleanupOp.__init__], [_prune_manifests] *)
Definition coalesce (a b : option Z) : option Z := match a with Some _ => a | None => b end.

Definition effective_retention (config : Retention) (req : CleanupRequest) : Retention :=
  match cr_retention req with
  | None => mkRetention (minimum_backups config) (maximum_backups config) (keep_days config)
  | Some r => mkRetention (coalesce (minimum_backups r) (minimum_backups config))
                (coalesce (maximum_backups r) (maximum_backups config))
                (coalesce (keep_days r) (keep_days config))
  end.

(** [timedelta.days] of a difference in microseconds: rounded down. *)
Definition days (delta : Z) : Z := delta / 86400000000.

(** Decreasing order of [(start, end, filename)]. *)
Definition newest_first (a b : ManifestMin) : bool :=
  if mm_start a =? mm_start b then
    if mm_end a =? mm_end b then str_leb (mm_filename b) (mm_filename a) else mm_end b <? mm_end a
  else mm_start b <? mm_start a.

Section prune.
Context (retention : Retention).

Definition reaches (bound : option Z) (n : nat) : bool :=
  match bound with Some b => Z.of_nat n <=? b | None => false end.
Definition exceeds (bound : option Z) (n : nat) : bool :=
  match bound with Some b => b <? Z.of_nat n | None => false end.

(** The [while] loop on the manifests, oldest first (the end of the Python
    list); [clock i] is what [utils.now()] returns in iteration [i]. *)
Fixpoint prune_loop (clock : nat → Z) (oldest_first : list ManifestMin) : list ManifestMin :=
  match oldest_first with
  | [] => []
  | oldest :: newer =>
      let again := prune_loop (λ i, clock (S i)) newer in
      if exceeds (maximum_backups retention) (length oldest_first) then again
      else if reaches (minimum_backups retention) (length oldest_first) then oldest_first
      else match keep_days retention with
           | Some d => if d <? days (clock 0%nat - mm_end oldest) then again else oldest_first
           | None => oldest_first
           end
  end.

Definition prune_manifests (clock : nat → Z) (manifests : list ManifestMin) : list ManifestMin :=
  let manifests := py_sorted newest_first manifests in
  if reaches (minimum_backups retention) (length manifests) then manifests
  else reverse (prune_loop clock (reverse manifests)).

(** [expired m t]: at time [t], [m] ended more than [keep_days] days ago. *)
Definition expired (m : ManifestMin) (t : Z) : Prop :=
  ∃ d, keep_days retention = Some d ∧ d < days (t - mm_end m).

(** The loop drops a prefix [gone] of [l] and keeps [kept]: manifest [i] is
    dropped because there are too many or because it is old and there are
    enough, and the loop stops because of the minimum or a recent backup. *)
Definition prune_split (clock : nat → Z) (l gone kept : list ManifestMin) : Prop :=
  l = gone ++ kept ∧
  (∀ mx, maximum_backups retention = Some mx → Z.of_nat (length kept) ≤ Z.max 0 mx) ∧
  (∀ i m, gone !! i = Some m →
     exceeds (maximum_backups retention) (length l - i) = true ∨
     reaches (minimum_backups retention) (length l - i) = false ∧ expired m (clock i)) ∧
  (∀ m rest, kept = m :: rest →
     reaches (minimum_backups retention) (length kept) = true ∨ ¬ expired m (clock (length gone))).

Lemma prune_split_drop clock m l gone kept :
  exceeds (maximum_backups retention) (S (length l)) = true ∨
    reaches (minimum_backups retention) (S (length l)) = false ∧ expired m (clock 0%nat) →
  prune_split (λ i, clock (S i)) l gone kept → prune_split clock (m :: l) (m :: gone) kept.
Proof.
  intros Hm (-> & Hmax & Hgone & Hkept). split; [done|]. split; [done|]. split; [|done].
  intros [|i] m' Hi; simpl in Hi.
  - injection Hi as <-. simpl length. by rewrite Nat.sub_0_r.
  - by apply Hgone in Hi.
Qed.

Lemma prune_split_keep clock m l :
  exceeds (maximum_backups retention) (S (length l)) = false →
  reaches (minimum_backups retention) (S (length l)) = true ∨ ¬ expired m (clock 0%nat) →
  prune_split clock (m :: l) [] (m :: l).
Proof.
  intros Hex Hm. split; [done|]. split; [|split; [done|]].
  - intros mx Hmx. rewrite Hmx in Hex. unfold exceeds in Hex. apply Z.ltb_ge in Hex. simpl. lia.
  - by intros m' rest [= <- <-].
Qed.

Lemma prune_loop_spec clock l :
  ∃ gone, prune_split clock l gone (prune_loop clock l).
Proof.
  revert clock. induction l as [|m l IH]; intros clock.
  { exists []. split; [done|]. split; [simpl; lia|]. by split. }
  destruct (IH (λ i, clock (S i))) as (gone & Hgone). cbn [prune_loop length].
  destruct (exceeds (maximum_backups retention) (S (length l))) eqn:Eex.
  { exists (m :: gone). apply prune_split_drop; auto. }
  destruct (reaches (minimum_backups retention) (S (length l))) eqn:Emin.
  { exists []. apply prune_split_keep; auto. }
  destruct (keep_days retention) as [d|] eqn:Ed.
  - destruct (d <? days (clock 0%nat - mm_end m)) eqn:Edays.
    + exists (m :: gone). apply prune_split_drop; [|done]. right. split; [done|].
      exists d. split; [done|by apply Z.ltb_lt].
    + exists []. apply prune_split_keep; [done|]. right. intros (d' & Hd' & Hlt).
      apply Z.ltb_ge in Edays. simplify_eq. lia.
  - exists []. apply prune_split_keep; [done|]. right. intros (d' & Hd & _). congruence.
Qed.

Lemma newest_first_total a b : newest_first a b = true ∨ newest_first b a = true.
Proof.
  unfold newest_first. destruct (mm_start a =? mm_start b) eqn:E1.
  - rewrite (Z.eqb_sym (mm_start b)), E1. destruct (mm_end a =? mm_end b) eqn:E2.
    + rewrite (Z.eqb_sym (mm_end b)), E2. destruct (str_leb_total (mm_filename a) (mm_filename b)); auto.
    + rewrite (Z.eqb_sym (mm_end b)), E2. lia.
  - rewrite (Z.eqb_sym (mm_start b)), E1. lia.
Qed.

Lemma newest_first_trans a b c : newest_first a b = true → newest_first b c = true → newest_first a c = true.
Proof.
  unfold newest_first. intros H1 H2.
  destruct (mm_start a =? mm_start b) eqn:E1, (mm_start b =? mm_start c) eqn:E2.
  - assert (mm_start a =? mm_start c = true) as -> by lia.
    destruct (mm_end a =? mm_end b) eqn:E3, (mm_end b =? mm_end c) eqn:E4.
    + assert (mm_end a =? mm_end c = true) as -> by lia. eauto using str_leb_trans.
    + assert (mm_end a =? mm_end c = false) as -> by lia. lia.
    + assert (mm_end a =? mm_end c = false) as -> by lia. lia.
    + assert (mm_end a =? mm_end c = false) as -> by lia. lia.
  - assert (mm_start a =? mm_start c = false) as -> by lia. lia.
  - assert (mm_start a =? mm_start c = false) as -> by lia. lia.
  - assert (mm_start a =? mm_start c = false) as -> by lia. lia.
Qed.

Lemma exceeds_true bound n : exceeds bound n = true ↔ ∃ b, bound = Some b ∧ b < Z.of_nat n.
Proof. destruct bound as [b|]; simpl; [rewrite Z.ltb_lt|]; naive_solver. Qed.
Lemma reaches_false bound n : reaches bound n = false ↔ ∀ b, bound = Some b → b < Z.of_nat n.
Proof. destruct bound as [b|]; simpl; [rewrite Z.leb_gt|]; naive_solver. Qed.
Lemma reaches_true bound n : reaches bound n = true ↔ ∃ b, bound = Some b ∧ Z.of_nat n ≤ b.
Proof. destruct bound as [b|]; simpl; [rewrite Z.leb_le|]; naive_solver. Qed.

(** Retention.  The manifests kept are the [k] newest ones.  All are kept
    when there are no more than [minimum_backups]; otherwise at most
    [maximum_backups] are kept, a manifest is dropped only because it is
    beyond the maximum, or because it ended more than [keep_days] days before
    a reading of the clock and at least [minimum_backups] newer ones stay,
    and the oldest manifest kept is within the minimum or not too old. *)
Theorem prune_keeps_newest (clock : nat → Z) (manifests : list ManifestMin) :
  let sorted := py_sorted newest_first manifests in
  let kept := prune_manifests clock manifests in
  sorted ≡ₚ manifests ∧ StronglySorted (λ a b, newest_first a b = true) sorted ∧
  kept = take (length kept) sorted ∧
  ((∃ mn, minimum_backups retention = Some mn ∧ Z.of_nat (length manifests) ≤ mn) → kept = sorted) ∧
  ((∀ mn, minimum_backups retention = Some mn → mn < Z.of_nat (length manifests)) →
   (∀ mx, maximum_backups retention = Some mx → Z.of_nat (length kept) ≤ Z.max 0 mx) ∧
   (∀ j m, sorted !! j = Some m → (length kept ≤ j)%nat →
      (∃ mx, maximum_backups retention = Some mx ∧ mx ≤ Z.of_nat j) ∨
      (∀ mn, minimum_backups retention = Some mn → mn ≤ Z.of_nat j) ∧ ∃ i, expired m (clock i)) ∧
   (∀ m, last kept = Some m →
      (∃ mn, minimum_backups retention = Some mn ∧ Z.of_nat (length kept) ≤ mn) ∨ ∃ i, ¬ expired m (clock i))).
Proof.
  intros sorted kept. split; [apply py_sorted_Permutation|].
  split; [apply py_sorted_StronglySorted; [apply newest_first_total|apply newest_first_trans]|].
  assert (length sorted = length manifests) as Hlen by apply py_sorted_length.
  subst kept. unfold prune_manifests. fold sorted. rewrite <- Hlen.
  destruct (reaches (minimum_backups retention) (length sorted)) eqn:Emin.
  { split; [by rewrite firstn_all|]. split; [done|]. apply reaches_true in Emin as (mn & Hmn & Hle).
    intros H. specialize (H mn Hmn). lia. }
  destruct (prune_loop_spec clock (reverse sorted)) as (gone & Hsplit & Hmax & Hgone & Hkept).
  set (kept := prune_loop clock (reverse sorted)) in *.
  assert (sorted = reverse kept ++ reverse gone) as Hs.
  { rewrite <- reverse_app, <- Hsplit. by rewrite reverse_involutive. }
  rewrite length_reverse. split; [rewrite Hs; by rewrite take_app_length' by (symmetry; apply length_reverse)|].
  split; [intros (mn & Hmn & Hle); rewrite reaches_false in Emin; specialize (Emin mn Hmn); lia|].
  intros _. split; [done|]. split.
  - intros j m Hj Hkj. rewrite Hs in Hj. rewrite lookup_app_r in Hj by (rewrite length_reverse; lia).
    rewrite length_reverse in Hj. assert (j - length kept < length gone)%nat as Hlt.
    { apply lookup_lt_Some in Hj. by rewrite length_reverse in Hj. }
    rewrite reverse_lookup in Hj by done. apply Hgone in Hj.
    assert (length sorted = length kept + length gone)%nat as Hls.
    { rewrite Hs, length_app, !length_reverse. lia. }
    rewrite length_reverse, Hls in Hj.
    replace (length kept + length gone - (length gone - S (j - length kept)))%nat with (S j) in Hj by lia.
    destruct Hj as [(mx & Hmx & ?)%exceeds_true|[Hmn He]]; [left; exists mx; split; [done|lia]|right].
    split; [|eauto]. intros mn Hm. rewrite reaches_false in Hmn. specialize (Hmn mn Hm). lia.
  - intros m Hlast. rewrite last_reverse in Hlast. destruct kept as [|m' rest] eqn:Ek; [done|].
    injection Hlast as ->. destruct (Hkept m rest eq_refl) as [(mn & ? & ?)%reaches_true|He]; eauto.
Qed.
End prune.

(** ** The steps *)
Section steps.
Context {SJ SH SE B BH : Type} (json : StorageOps SJ B) (hex : StorageOps SH BH) `{!ManifestCodec B}.
(** The order in which Python iterates over a set of strings. *)
Context (set_iter : gset string → list string).
Local Notation W := (world SJ SH SE).

Definition names_with_prefix (prefix : string) (names : list string) : gset string :=
  list_to_set (filter (λ b, startswith prefix b = true) names).

Definition ListBackupsStep : Step SJ SH SE := mkStep cls_ListBackupsStep (λ _,
  l ← on_json (st_list json); mret (VStrings (names_with_prefix JSON_BACKUP_PREFIX l))).

Definition ListDeltaBackupsStep : Step SJ SH SE := mkStep cls_ListDeltaBackupsStep (λ _,
  l ← on_json (st_list json); mret (VStrings (names_with_prefix JSON_DELTA_PREFIX l))).

Definition compute_kept_basebackups (retention : Retention) (explicit_delete : list string)
    (ctx : StepsContext) : M W (list ManifestMin) :=
  all_backup_names ← lift_res (get_strings ctx cls_ListBackupsStep);
  let kept_backup_names := all_backup_names ∖ list_to_set explicit_delete in
  manifests ← collect (set_iter kept_backup_names) (λ n, on_json (download_backup_min_manifest json n));
  w ← get;
  modify (skip_clock (length manifests)) ;;
  mret (prune_manifests retention (w_clock w) manifests).

(** [min(kept_backups, key=lambda b: b.start)]: the first one that starts first. *)
Fixpoint min_start (m : ManifestMin) (l : list ManifestMin) : ManifestMin :=
  match l with
  | [] => m
  | m' :: l' => min_start (if mm_start m' <? mm_start m then m' else m) l'
  end.

Definition compute_kept_deltas (kept_backups : list ManifestMin) (ctx : StepsContext) : M W (list ManifestMin) :=
  match kept_backups with
  | [] => mret []
  | m :: rest =>
      all_delta_names ← lift_res (get_strings ctx cls_ListDeltaBackupsStep);
      let oldest_kept_backup := min_start m rest in
      deltas ← collect (set_iter all_delta_names) (λ n, on_json (download_backup_min_manifest json n));
      mret (filter (λ d, mm_end oldest_kept_backup ≤ mm_end d) deltas)
  end.

Definition ComputeKeptBackupsStep (retention : Retention) (explicit_delete : list string)
    (retain_deltas : bool) : Step SJ SH SE := mkStep cls_ComputeKeptBackupsStep (λ ctx,
  kept_manifests ← compute_kept_basebackups retention explicit_delete ctx;
  if retain_deltas then
    kept_deltas ← compute_kept_deltas kept_manifests ctx; mret (VMins (kept_manifests ++ kept_deltas))
  else mret (VMins kept_manifests)).

(** The body shared by the two classes; [get_all_backups] is the overridden method. *)
Definition delete_manifests (get_all_backups : StepsContext → res (gset string)) (ctx : StepsContext) : M W StepValue :=
  all_backups ← lift_res (get_all_backups ctx);
  kept ← lift_res (get_mins ctx cls_ComputeKeptBackupsStep);
  let deleted_backups := all_backups ∖ list_to_set (mm_filename <$> kept) in
  for_each (set_iter deleted_backups) (λ n, on_json (st_delete json n)) ;;
  mret (VStrings deleted_backups).

Definition DeleteBackupManifestsStep : Step SJ SH SE := mkStep cls_DeleteBackupManifestsStep
  (delete_manifests (λ ctx, get_strings ctx cls_ListBackupsStep)).

Definition DeleteBackupAndDeltaManifestsStep : Step SJ SH SE := mkStep cls_DeleteBackupAndDeltaManifestsStep
  (delete_manifests (λ ctx, X ← get_strings ctx cls_ListBackupsStep;
                            Y ← get_strings ctx cls_ListDeltaBackupsStep; Ok (X ∪ Y))).

(** [assert result.hashes is not None], then discard each hexdigest. *)
Definition discard_result (extra : gset string) (sr : SnapshotResult) : res (gset string) :=
  match sr_hashes sr with
  | None => Raise AssertionError
  | Some hashes => Ok (foldl (λ X h, X ∖ {[hash_hexdigest h]}) extra hashes)
  end.

Fixpoint discard_kept (extra : gset string) (kept : list ManifestMin) : M W (gset string) :=
  match kept with
  | [] => mret extra
  | m :: kept' =>
      manifest ← on_json (download_backup_manifest json (mm_filename m));
      extra' ← lift_res (fold_res discard_result extra (bm_snapshot_results manifest));
      discard_kept extra' kept'
  end.

Definition DeleteDanglingHexdigestsStep : Step SJ SH SE := mkStep cls_DeleteDanglingHexdigestsStep (λ ctx,
  kept_manifests ← lift_res (get_mins ctx cls_ComputeKeptBackupsStep);
  l ← on_hex (st_list hex);
  extra_hexdigests ← discard_kept (list_to_set l) kept_manifests;
  for_each (set_iter extra_hexdigests) (λ h, on_hex (st_delete hex h)) ;;
  mret VNone).

(** [CoordinatorPlugin.get_cleanup_steps] *)
Definition get_cleanup_steps (retention : Retention) (explicit_delete : list string) : list (Step SJ SH SE) :=
  [ListBackupsStep; ComputeKeptBackupsStep retention explicit_delete false; DeleteBackupManifestsStep;
   DeleteDanglingHexdigestsStep].

(** [CassandraPlugin.get_cleanup_steps] *)
Definition cassandra_get_cleanup_steps (retention : Retention) (explicit_delete : list string) : list (Step SJ SH SE) :=
  [ListBackupsStep; ListDeltaBackupsStep; ComputeKeptBackupsStep retention explicit_delete true;
   DeleteBackupAndDeltaManifestsStep; DeleteDanglingHexdigestsStep].

(** ** Verification against the storage interface *)
Context `{!StorageSpec json} `{!StorageSpec hex}.
Context (set_iter_perm : ∀ X, set_iter X ≡ₚ elements X).

Notation jlookup w n := (st_lookup (ops:=json) (w_json w) n).
Notation hlookup w h := (st_lookup (ops:=hex) (w_hex w) h).

Definition storages_ok (w : W) : Prop := st_inv (ops:=json) (w_json w) ∧ st_inv (ops:=hex) (w_hex w).

(** [w'] differs from [w] at most by what reading the storages changes. *)
Definition quiet (w w' : W) : Prop :=
  storages_ok w' ∧ (∀ n, jlookup w' n = jlookup w n) ∧ (∀ h, hlookup w' h = hlookup w h) ∧
  w_clock w' = w_clock w ∧ w_shutting_down w' = w_shutting_down w.

Lemma quiet_refl w : storages_ok w → quiet w w.
Proof. done. Qed.
Lemma quiet_trans w1 w2 w3 : quiet w1 w2 → quiet w2 w3 → quiet w1 w3.
Proof.
  intros (_ & Hj & Hh & Hc & Hs) (Hok & Hj' & Hh' & Hc' & Hs'). split; [done|].
  split; [intros n; by rewrite Hj'|]. split; [intros n; by rewrite Hh'|]. split; congruence.
Qed.

Lemma elem_of_set_iter X x : x ∈ set_iter X ↔ x ∈ X.
Proof using set_iter_perm. by rewrite set_iter_perm, elem_of_elements. Qed.
Lemma NoDup_set_iter X : NoDup (set_iter X).
Proof using set_iter_perm. rewrite set_iter_perm. apply NoDup_elements. Qed.

Lemma quiet_json w s :
  storages_ok w → st_inv (ops:=json) s →
  (∀ n, st_lookup (ops:=json) s n = jlookup w n) →
  quiet w (mkWorld s (w_hex w) (w_env w) (w_clock w) (w_op w) (w_shutting_down w)).
Proof. intros [_ ?] ? ?. by repeat split. Qed.

Lemma list_names_spec w prefix :
  storages_ok w →
  ∃ w' X, (l ← on_json (st_list json); mret (VStrings (names_with_prefix prefix l))) w = (w', Ok (VStrings X)) ∧
    quiet w w' ∧ ∀ n, n ∈ X ↔ startswith prefix n = true ∧ is_Some (jlookup w n).
Proof.
  intros Hok. destruct (st_list_spec (w_json w) (proj1 Hok)) as (s & l & Hrun & Hi & Hlk & Hnd & Hel).
  erewrite bind_ok by (by eapply on_json_run). do 2 eexists. split; [done|].
  split; [by apply quiet_json|]. intros n. unfold names_with_prefix.
  by rewrite elem_of_list_to_set, list_elem_of_filter, Hel.
Qed.

(** The short form of the manifest stored under [n]. *)
Definition min_of (w : W) (n : string) (mm : ManifestMin) : Prop :=
  ∃ m, stored_manifest json (w_json w) n m ∧ mm = from_manifest (set_filename n m).

Lemma min_of_quiet w w' n mm : quiet w w' → min_of w' n mm ↔ min_of w n mm.
Proof.
  intros (_ & Hj & _). split; intros (m & Hm & ->); exists m; (split; [|done]);
    (eapply stored_manifest_ext; [|done]); intros k; by rewrite Hj.
Qed.

Lemma min_of_filename w n mm : min_of w n mm → mm_filename mm = n.
Proof. by intros (m & _ & ->). Qed.

Lemma collect_mins_spec w names :
  storages_ok w → (∀ n, n ∈ names → ∃ m, stored_manifest json (w_json w) n m) →
  ∃ w' mins, collect names (λ n, on_json (download_backup_min_manifest json n)) w = (w', Ok mins) ∧
    quiet w w' ∧ Forall2 (min_of w) names mins.
Proof.
  revert w. induction names as [|n names IH]; intros w Hok Hst.
  { exists w, []. split; [done|]. split; [by apply quiet_refl|constructor]. }
  destruct (Hst n) as [m Hm]; [by left|].
  destruct (download_min_spec json (w_json w) n m (proj1 Hok) Hm) as (s & Hrun & Hi & Hlk).
  apply on_json_run in Hrun. pose proof (quiet_json w s Hok Hi Hlk) as Hq1.
  set (w1 := mkWorld s _ _ _ _ _) in *.
  destruct (IH w1 (proj1 Hq1)) as (w2 & mins & Hrun2 & Hq2 & Hall).
  { intros n' Hn'. destruct (Hst n') as [m' Hm']; [by right|]. exists m'.
    by eapply stored_manifest_ext. }
  exists w2, (from_manifest (set_filename n m) :: mins). split; [|split].
  - cbn [collect]. rewrite (bind_ok _ _ _ _ _ Hrun). by rewrite (bind_ok _ _ _ _ _ Hrun2).
  - by eapply quiet_trans.
  - constructor; [by exists m|]. eapply Forall2_impl; [exact Hall|]. intros x y.
    by apply (min_of_quiet w w1).
Qed.

(** Deleting the names of a list, all present, deletes exactly those. *)
Lemma delete_jsons_spec w names :
  storages_ok w → NoDup names → (∀ n, n ∈ names → is_Some (jlookup w n)) →
  ∃ w', for_each names (λ n, on_json (st_delete json n)) w = (w', Ok tt) ∧ storages_ok w' ∧
    (∀ n, jlookup w' n = if decide (n ∈ names) then None else jlookup w n) ∧
    (∀ h, hlookup w' h = hlookup w h) ∧ w_shutting_down w' = w_shutting_down w.
Proof.
  revert w. induction names as [|n names IH]; intros w Hok Hnd Hpre.
  { exists w. split; [done|]. split; [done|]. split; [|done]. intros n. by rewrite decide_False by set_solver. }
  apply NoDup_cons in Hnd as [Hn Hnd]. destruct (Hpre n) as [b Hb]; [by left|].
  pose proof (st_delete_spec (w_json w) n (proj1 Hok) (st_lookup_name _ _ _ (proj1 Hok) Hb)) as Hd.
  rewrite Hb in Hd. destruct Hd as (s & Hrun & Hi & Hlk). apply on_json_run in Hrun.
  set (w1 := mkWorld s _ _ _ _ _) in *.
  destruct (IH w1) as (w2 & Hrun2 & Hok2 & Hj2 & Hh2 & Hs2); [by split; [|apply Hok]|done| |].
  { intros n' Hn'. simpl. rewrite Hlk. rewrite decide_False by (intros ->; done). apply Hpre. by right. }
  exists w2. split; [cbn [for_each]; by rewrite (bind_ok _ _ _ _ _ Hrun)|].
  split; [done|]. split; [|done]. intros n'. rewrite Hj2. simpl. rewrite Hlk.
  destruct (decide (n' ∈ names)); [by rewrite decide_True by (by right)|].
  destruct (decide (n' = n)) as [->|]; [by rewrite decide_True by left|].
  rewrite decide_False; [done|]. by intros [?|?]%elem_of_cons.
Qed.

Lemma delete_hexdigests_spec w names :
  storages_ok w → NoDup names → (∀ h, h ∈ names → is_Some (hlookup w h)) →
  ∃ w', for_each names (λ h, on_hex (st_delete hex h)) w = (w', Ok tt) ∧ storages_ok w' ∧
    (∀ h, hlookup w' h = if decide (h ∈ names) then None else hlookup w h) ∧
    (∀ n, jlookup w' n = jlookup w n) ∧ w_shutting_down w' = w_shutting_down w.
Proof.
  revert w. induction names as [|n names IH]; intros w Hok Hnd Hpre.
  { exists w. split; [done|]. split; [done|]. split; [|done]. intros n. by rewrite decide_False by set_solver. }
  apply NoDup_cons in Hnd as [Hn Hnd]. destruct (Hpre n) as [b Hb]; [by left|].
  pose proof (st_delete_spec (w_hex w) n (proj2 Hok) (st_lookup_name _ _ _ (proj2 Hok) Hb)) as Hd.
  rewrite Hb in Hd. destruct Hd as (s & Hrun & Hi & Hlk). apply on_hex_run in Hrun.
  set (w1 := mkWorld _ s _ _ _ _) in *.
  destruct (IH w1) as (w2 & Hrun2 & Hok2 & Hj2 & Hh2 & Hs2); [by split; [apply Hok|]|done| |].
  { intros n' Hn'. simpl. rewrite Hlk. rewrite decide_False by (intros ->; done). apply Hpre. by right. }
  exists w2. split; [cbn [for_each]; by rewrite (bind_ok _ _ _ _ _ Hrun)|].
  split; [done|]. split; [|done]. intros n'. rewrite Hj2. simpl. rewrite Hlk.
  destruct (decide (n' ∈ names)); [by rewrite decide_True by (by right)|].
  destruct (decide (n' = n)) as [->|]; [by rewrite decide_True by left|].
  rewrite decide_False; [done|]. by intros [?|?]%elem_of_cons.
Qed.

(** What the discarding loops leave. *)
Lemma discard_hashes_spec (hashes : list SnapshotHash) (extra : gset string) h :
  h ∈ foldl (λ X h, X ∖ {[hash_hexdigest h]}) extra hashes ↔ h ∈ extra ∧ h ∉ hash_hexdigest <$> hashes.
Proof.
  revert extra. induction hashes as [|x hashes IH]; intros extra; csimpl.
  - set_solver.
  - rewrite IH. set_solver.
Qed.

Definition has_hashes (m : BackupManifest) : Prop := Forall (λ sr, is_Some (sr_hashes sr)) (bm_snapshot_results m).

Lemma discard_results_spec (m : BackupManifest) (extra : gset string) :
  has_hashes m →
  ∃ extra', fold_res discard_result extra (bm_snapshot_results m) = Ok extra' ∧
    ∀ h, h ∈ extra' ↔ h ∈ extra ∧ h ∉ manifest_hexdigests m.
Proof.
  unfold has_hashes, manifest_hexdigests. intros Hall. revert extra.
  induction Hall as [|sr srs [hs Hs] Hall IH]; intros extra; csimpl.
  - exists extra. split; [done|]. set_solver.
  - destruct (IH (foldl (λ X h, X ∖ {[hash_hexdigest h]}) extra hs)) as (extra' & Hrun & Hel).
    exists extra'. split; [rewrite <- Hrun; unfold discard_result at 2; by rewrite Hs|].
    intros h. rewrite Hel, discard_hashes_spec, Hs. simpl. set_solver.
Qed.

(** [h] is referenced by a manifest of [kept]. *)
Definition referenced (w : W) (kept : list ManifestMin) (h : string) : Prop :=
  ∃ mm m, mm ∈ kept ∧ stored_manifest json (w_json w) (mm_filename mm) m ∧ h ∈ manifest_hexdigests m.

Definition restorable (w : W) (n : string) : Prop := ∃ m, stored_manifest json (w_json w) n m ∧ has_hashes m.

Lemma discard_kept_spec w extra kept :
  storages_ok w → (∀ mm, mm ∈ kept → restorable w (mm_filename mm)) →
  ∃ w' extra', discard_kept extra kept w = (w', Ok extra') ∧ quiet w w' ∧
    ∀ h, h ∈ extra' ↔ h ∈ extra ∧ ¬ referenced w kept h.
Proof.
  revert w extra. induction kept as [|mm kept IH]; intros w extra Hok Hst.
  { exists w, extra. split; [done|]. split; [by apply quiet_refl|]. intros h. split; [|naive_solver].
    intros Hh. split; [done|]. intros (mm & m & ?%not_elem_of_nil & _). done. }
  destruct (Hst mm) as (m & Hm & Hh); [by left|].
  destruct (download_spec json (w_json w) _ m (proj1 Hok) Hm) as (s & Hrun & Hi & Hlk).
  apply on_json_run in Hrun. pose proof (quiet_json w s Hok Hi Hlk) as Hq1.
  set (w1 := mkWorld s _ _ _ _ _) in *.
  destruct (discard_results_spec m extra Hh) as (extra1 & Hrun1 & Hel1).
  destruct (IH w1 extra1 (proj1 Hq1)) as (w2 & extra2 & Hrun2 & Hq2 & Hel2).
  { intros mm' Hmm'. destruct (Hst mm') as (m' & Hm' & Hh'); [by right|]. exists m'. split; [|done].
    by eapply stored_manifest_ext. }
  exists w2, extra2. split; [|split; [by eapply quiet_trans|]].
  - cbn [discard_kept]. rewrite (bind_ok _ _ _ _ _ Hrun). cbn [set_filename bm_snapshot_results].
    rewrite Hrun1. done.
  - intros h. rewrite Hel2, Hel1. split.
    + intros [[He Hn1] Hn2]. split; [done|]. intros (mm' & m' & [->|Hin]%elem_of_cons & Hm' & Hh').
      * by rewrite (stored_manifest_inj json _ _ _ _ Hm' Hm) in Hh'.
      * apply Hn2. exists mm', m'. split; [done|]. split; [|done]. by eapply stored_manifest_ext.
    + intros [He Hn]. split; [split; [done|]|].
      * intros Hh'. apply Hn. exists mm, m. split; [by left|done].
      * intros (mm' & m' & Hin & Hm' & Hh'). apply Hn. exists mm', m'. split; [by right|]. split; [|done].
        eapply stored_manifest_ext; [|done]. intros n. symmetry. apply Hlk.
Qed.

(** [w'] holds what [w] holds; the clock may have been read. *)
Definition calm (w w' : W) : Prop :=
  storages_ok w' ∧ (∀ n, jlookup w' n = jlookup w n) ∧ (∀ h, hlookup w' h = hlookup w h) ∧
  w_shutting_down w' = w_shutting_down w.

Lemma quiet_calm w w' : quiet w w' → calm w w'.
Proof. intros (? & ? & ? & _ & ?). by split. Qed.
Lemma calm_trans w1 w2 w3 : calm w1 w2 → calm w2 w3 → calm w1 w3.
Proof.
  intros (_ & Hj & Hh & Hs) (Hok & Hj' & Hh' & Hs'). split; [done|].
  split; [intros n; by rewrite Hj'|]. split; [intros n; by rewrite Hh'|congruence].
Qed.
Lemma calm_skip_clock w k : storages_ok w → calm w (skip_clock k w).
Proof. intros H. split; [exact H|]. by split. Qed.
Lemma min_of_calm w w' n mm : calm w w' → min_of w' n mm ↔ min_of w n mm.
Proof.
  intros (_ & Hj & _). split; intros (m & Hm & ->); exists m; (split; [|done]);
    (eapply stored_manifest_ext; [|done]); intros k; by rewrite Hj.
Qed.
Lemma restorable_calm w w' n : calm w w' → restorable w n → restorable w' n.
Proof.
  intros (_ & Hj & _) (m & Hm & Hh). exists m. split; [|done]. by eapply stored_manifest_ext.
Qed.

Lemma mins_filenames w names mins : Forall2 (min_of w) names mins → mm_filename <$> mins = names.
Proof.
  induction 1 as [|n mm ns mms Hm Hall IH]; [done|]. csimpl. f_equal; [by eapply min_of_filename|done].
Qed.

(** The manifests of the names of a set. *)
Definition mins_of (w : W) (X : gset string) (mins : list ManifestMin) : Prop :=
  NoDup (mm_filename <$> mins) ∧ ∀ mm, mm ∈ mins ↔ ∃ n, n ∈ X ∧ min_of w n mm.

Lemma download_mins_spec w (X : gset string) :
  storages_ok w → (∀ n, n ∈ X → restorable w n) →
  ∃ w' mins, collect (set_iter X) (λ n, on_json (download_backup_min_manifest json n)) w = (w', Ok mins) ∧
    quiet w w' ∧ mins_of w X mins.
Proof using set_iter_perm.
  intros Hok Hst. destruct (collect_mins_spec w (set_iter X) Hok) as (w' & mins & Hrun & Hq & Hall).
  { intros n Hn. apply elem_of_set_iter in Hn. destruct (Hst n Hn) as (m & Hm & _). eauto. }
  exists w', mins. split; [done|]. split; [done|]. split.
  - rewrite (mins_filenames w (set_iter X) mins Hall). apply NoDup_set_iter.
  - intros mm. split.
    + intros Hin. apply list_elem_of_lookup in Hin as [i Hi].
      destruct (Forall2_lookup_r _ _ _ _ _ Hall Hi) as (n & Hn & Hm). exists n. split; [|done].
      apply elem_of_set_iter. by eapply list_elem_of_lookup_2.
    + intros (n & Hn & Hm). apply elem_of_set_iter, list_elem_of_lookup in Hn as [i Hi].
      destruct (Forall2_lookup_l _ _ _ _ _ Hall Hi) as (mm' & Hi' & (m' & Hm' & ->)).
      destruct Hm as (m & Hm & ->). rewrite (stored_manifest_inj json _ _ _ _ Hm Hm').
      by eapply list_elem_of_lookup_2.
Qed.

Lemma prune_sub retention clock mins mm :
  mm ∈ prune_manifests retention clock mins → mm ∈ mins.
Proof.
  unfold prune_manifests. destruct (reaches _ _); [by rewrite elem_of_py_sorted|].
  destruct (prune_loop_spec retention clock (reverse (py_sorted newest_first mins))) as (gone & Hs & _).
  rewrite elem_of_reverse. intros Hin. rewrite <- (elem_of_py_sorted newest_first).
  rewrite <- elem_of_reverse, Hs. apply elem_of_app. by right.
Qed.

Lemma kept_basebackups_spec w retention explicit ctx X :
  storages_ok w → get_strings ctx cls_ListBackupsStep = Ok X → (∀ n, n ∈ X → restorable w n) →
  ∃ w' mins, compute_kept_basebackups retention explicit ctx w =
      (w', Ok (prune_manifests retention (w_clock w) mins)) ∧
    calm w w' ∧ mins_of w (X ∖ list_to_set explicit) mins.
Proof using set_iter_perm.
  intros Hok HX Hst. destruct (download_mins_spec w (X ∖ list_to_set explicit) Hok) as (w1 & mins & Hrun & Hq & Hm).
  { intros n [Hn _]%elem_of_difference. auto. }
  exists (skip_clock (length mins) w1), mins. split; [|split; [|done]].
  - unfold compute_kept_basebackups. rewrite HX. erewrite bind_ok by done. rewrite (bind_ok _ _ _ _ _ Hrun).
    destruct Hq as (_ & _ & _ & Hc & _). rewrite <- Hc. done.
  - eapply calm_trans; [by apply quiet_calm|]. apply calm_skip_clock, Hq.
Qed.

(** The deltas kept with [bases]. *)
Definition kept_deltas_of (w : W) (Y : gset string) (bases deltas : list ManifestMin) : Prop :=
  match bases with
  | [] => deltas = []
  | m :: rest => ∀ d, d ∈ deltas ↔ mm_end (min_start m rest) ≤ mm_end d ∧ ∃ n, n ∈ Y ∧ min_of w n d
  end.

Lemma kept_deltas_spec w bases ctx Y :
  storages_ok w → get_strings ctx cls_ListDeltaBackupsStep = Ok Y → (∀ n, n ∈ Y → restorable w n) →
  ∃ w' deltas, compute_kept_deltas bases ctx w = (w', Ok deltas) ∧ calm w w' ∧ kept_deltas_of w Y bases deltas.
Proof using set_iter_perm.
  intros Hok HY Hst. destruct bases as [|m rest].
  { exists w, []. split; [done|]. split; [|done]. by apply quiet_calm, quiet_refl. }
  destruct (download_mins_spec w Y Hok Hst) as (w1 & mins & Hrun & Hq & Hm).
  exists w1. eexists. split; [|split; [by apply quiet_calm|]].
  - unfold compute_kept_deltas. rewrite HY. erewrite bind_ok by done. by rewrite (bind_ok _ _ _ _ _ Hrun).
  - intros d. rewrite list_elem_of_filter. f_equiv. apply Hm.
Qed.

Lemma delete_manifests_spec w get_all ctx X kept :
  storages_ok w → get_all ctx = Ok X → get_mins ctx cls_ComputeKeptBackupsStep = Ok kept →
  (∀ n, n ∈ X → is_Some (jlookup w n)) →
  ∃ w', delete_manifests get_all ctx w = (w', Ok (VStrings (X ∖ list_to_set (mm_filename <$> kept)))) ∧
    storages_ok w' ∧
    (∀ n, jlookup w' n = if decide (n ∈ X ∧ n ∉ mm_filename <$> kept) then None else jlookup w n) ∧
    (∀ h, hlookup w' h = hlookup w h) ∧ w_shutting_down w' = w_shutting_down w.
Proof using set_iter_perm.
  intros Hok HX Hk Hpre.
  destruct (delete_jsons_spec w (set_iter (X ∖ list_to_set (mm_filename <$> kept))) Hok (NoDup_set_iter _))
    as (w' & Hrun & Hok' & Hj & Hrest).
  { intros n Hn. apply elem_of_set_iter, elem_of_difference in Hn as [Hn _]. auto. }
  exists w'. split; [|split; [done|split; [|done]]].
  - unfold delete_manifests. rewrite HX, Hk. erewrite bind_ok by done. erewrite bind_ok by done.
    by rewrite (bind_ok _ _ _ _ _ Hrun).
  - intros n. rewrite Hj. apply decide_ext. rewrite elem_of_set_iter, elem_of_difference, elem_of_list_to_set. done.
Qed.

Lemma delete_dangling_spec w ctx kept :
  storages_ok w → get_mins ctx cls_ComputeKeptBackupsStep = Ok kept →
  (∀ mm, mm ∈ kept → restorable w (mm_filename mm)) →
  ∃ w', run_step DeleteDanglingHexdigestsStep ctx w = (w', Ok VNone) ∧ storages_ok w' ∧
    (∀ n, jlookup w' n = jlookup w n) ∧
    (∀ h, referenced w kept h → hlookup w' h = hlookup w h) ∧
    (∀ h, ¬ referenced w kept h → hlookup w' h = None).
Proof using set_iter_perm.
  intros Hok Hk Hst.
  destruct (st_list_spec (w_hex w) (proj2 Hok)) as (s & l & Hlist & Hi & Hlk & Hnd & Hel).
  apply on_hex_run in Hlist. set (w1 := mkWorld _ s _ _ _ _) in Hlist.
  assert (calm w w1) as Hq1 by (by repeat split; try apply Hok).
  destruct (discard_kept_spec w1 (list_to_set l) kept (proj1 Hq1)) as (w2 & extra & Hdis & Hq2 & Hex).
  { intros mm Hmm. eapply restorable_calm; [done|auto]. }
  pose proof (calm_trans _ _ _ Hq1 (quiet_calm _ _ Hq2)) as (Hok2 & Hj2 & Hh2 & Hs2).
  assert (∀ h, h ∈ extra ↔ is_Some (hlookup w h) ∧ ¬ referenced w kept h) as Hextra.
  { intros h. rewrite Hex, elem_of_list_to_set, Hel. done. }
  destruct (delete_hexdigests_spec w2 (set_iter extra) Hok2 (NoDup_set_iter _)) as (w3 & Hdel & Hok3 & Hh3 & Hj3 & Hs3).
  { intros h Hh. rewrite Hh2. apply elem_of_set_iter, Hextra in Hh. tauto. }
  exists w3. split; [|split; [done|split; [|split]]].
  - unfold DeleteDanglingHexdigestsStep. cbn [run_step]. rewrite Hk. erewrite bind_ok by done.
    rewrite (bind_ok _ _ _ _ _ Hlist), (bind_ok _ _ _ _ _ Hdis). by rewrite (bind_ok _ _ _ _ _ Hdel).
  - intros n. by rewrite Hj3, Hj2.
  - intros h Hr. rewrite Hh3, Hh2. rewrite decide_False; [done|].
    intros Hh%elem_of_set_iter. apply Hextra in Hh. tauto.
  - intros h Hr. rewrite Hh3. case_decide as Hin; [done|]. rewrite Hh2.
    destruct (hlookup w h) as [b|] eqn:E; [|done]. exfalso. apply Hin, elem_of_set_iter, Hextra.
    split; [rewrite E; eauto|done].
Qed.

(** *** The two cleanup operations *)

Definition has_prefix (prefixes : list string) (n : string) : Prop :=
  ∃ p, p ∈ prefixes ∧ startswith p n = true.

(** Every manifest of the storage can be decoded and lists its files. *)
Definition manifests_restorable (prefixes : list string) (w : W) : Prop :=
  ∀ n, has_prefix prefixes n → is_Some (jlookup w n) → restorable w n.

(** The storages after a cleanup that keeps the manifests [kept]. *)
Definition cleaned (prefixes : list string) (kept : list ManifestMin) (w w' : W) : Prop :=
  (∀ n, has_prefix prefixes n → n ∉ mm_filename <$> kept → jlookup w' n = None) ∧
  (∀ n, ¬ (has_prefix prefixes n ∧ n ∉ mm_filename <$> kept) → jlookup w' n = jlookup w n) ∧
  (∀ h, referenced w kept h → hlookup w' h = hlookup w h) ∧
  (∀ h, ¬ referenced w kept h → hlookup w' h = None).

(** The last two steps, common to both operations. *)
Lemma delete_steps_spec w w1 st get_all ctx X kept prefixes :
  calm w w1 → w_shutting_down w = false →
  run_step st = delete_manifests get_all → mutate_results st ctx = ctx → get_all ctx = Ok X →
  get_mins ctx cls_ComputeKeptBackupsStep = Ok kept →
  step_class st ≠ cls_ComputeKeptBackupsStep → step_class st ≠ cls_DeleteDanglingHexdigestsStep →
  dict_get (step_results ctx) (step_class st) = None →
  dict_get (step_results ctx) cls_DeleteDanglingHexdigestsStep = None →
  (∀ n, n ∈ X ↔ has_prefix prefixes n ∧ is_Some (jlookup w n)) →
  (∀ mm, mm ∈ kept → restorable w (mm_filename mm)) →
  ∃ ctx' w', try_run [st; DeleteDanglingHexdigestsStep] ctx w1 = (w', Ok (ctx', true)) ∧ cleaned prefixes kept w w'.
Proof using set_iter_perm.
  intros (Hok & Hj & Hh & Hs) Hsd Hst Hpure HX Hk Hne1 Hne2 Hg1 Hg2 HXel Hkept.
  destruct (delete_manifests_spec w1 get_all ctx X kept Hok HX Hk) as (w2 & Hrun & Hok2 & Hj2 & Hh2 & Hs2).
  { intros n Hn. rewrite Hj. apply HXel in Hn. tauto. }
  rewrite <- Hst in Hrun. rewrite (try_run_cons _ _ _ _ _ _ (eq_trans Hs Hsd) Hrun Hg1 Hpure).
  set (ctx1 := add_result _ _ _).
  assert (∀ mm m, mm ∈ kept → stored_manifest json (w_json w2) (mm_filename mm) m ↔
                              stored_manifest json (w_json w) (mm_filename mm) m) as Hsame.
  { intros mm m Hmm. assert (jlookup w2 (mm_filename mm) = jlookup w (mm_filename mm)) as He.
    { rewrite Hj2, decide_False, Hj; [done|]. intros [_ Hn]. apply Hn, list_elem_of_fmap. eauto. }
    unfold stored_manifest. by setoid_rewrite He. }
  assert (∀ h, referenced w2 kept h ↔ referenced w kept h) as Href.
  { intros h. split; intros (mm & m & Hin & Hm & Hhm); exists mm, m; (split; [done|]); (split; [|done]);
      by apply Hsame in Hm. }
  destruct (delete_dangling_spec w2 ctx1 kept Hok2) as (w3 & Hrun3 & Hok3 & Hj3 & Hh3 & Hh3').
  { unfold get_mins, get_result, ctx1, add_result, dict_set. simpl.
    rewrite dict_get_alter_ne by done. exact Hk. }
  { intros mm Hmm. destruct (Hkept mm Hmm) as (m & Hm & Hhm). exists m. split; [|done]. by apply Hsame. }
  erewrite try_run_cons; [|by rewrite Hs2, Hs|exact Hrun3| |done].
  2: { unfold ctx1, add_result, dict_set. simpl. by rewrite dict_get_alter_ne. }
  do 2 eexists. split; [done|]. split; [|split; [|split]].
  - intros n Hp Hn. rewrite Hj3, Hj2. case_decide as Hd; [done|]. rewrite Hj.
    destruct (jlookup w n) as [b|] eqn:E; [|done]. exfalso. apply Hd. split; [|done]. apply HXel.
    rewrite E. eauto.
  - intros n Hn. rewrite Hj3, Hj2, Hj. rewrite decide_False; [done|]. intros [Hx%HXel Hk']. tauto.
  - intros h Hr. rewrite Hh3 by by apply Href. by rewrite Hh2, Hh.
  - intros h Hr. apply Hh3'. by rewrite Href.
Qed.

(** C2: Cleanup without deltas.  On storages whose backup manifests can be
    read, every step succeeds, the backups kept are the retention rule applied
    to the backups that were not explicitly deleted, exactly the other backup
    manifests disappear, every file referenced by a kept backup stays, and
    every file no kept backup references disappears. *)
Theorem cleanup_exact (retention : Retention) (explicit : list string) (n t : Z) (w : W) :
  storages_ok w → w_shutting_down w = false → manifests_restorable [JSON_BACKUP_PREFIX] w →
  ∃ ctx' w' X mins,
    try_run (get_cleanup_steps retention explicit) (mkStepsContext n t []) w = (w', Ok (ctx', true)) ∧
    (∀ n, n ∈ X ↔ startswith JSON_BACKUP_PREFIX n = true ∧ is_Some (jlookup w n) ∧ n ∉ explicit) ∧
    mins_of w X mins ∧
    cleaned [JSON_BACKUP_PREFIX] (prune_manifests retention (w_clock w) mins) w w'.
Proof using set_iter_perm.
  intros Hok Hsd Hst.
  destruct (list_names_spec w JSON_BACKUP_PREFIX Hok) as (w1 & X & Hrun1 & Hq1 & HX).
  pose proof Hq1 as (Hok1 & Hj1 & Hh1 & Hc1 & Hs1).
  unfold get_cleanup_steps. erewrite try_run_cons; [|exact Hsd|exact Hrun1|done|done].
  set (ctx1 := add_result _ _ _).
  destruct (kept_basebackups_spec w1 retention explicit ctx1 X Hok1 eq_refl) as (w2 & mins & Hrun2 & Hc2 & Hm).
  { intros k Hk. eapply restorable_calm; [by apply quiet_calm|]. apply Hst; apply HX in Hk as [? ?]; [|done].
    exists JSON_BACKUP_PREFIX. split; [by left|done]. }
  rewrite Hc1 in Hrun2.
  assert (run_step (ComputeKeptBackupsStep retention explicit false) ctx1 w1 =
    (w2, Ok (VMins (prune_manifests retention (w_clock w) mins)))) as Hrun2'.
  { cbn [run_step ComputeKeptBackupsStep]. by rewrite (bind_ok _ _ _ _ _ Hrun2). }
  erewrite try_run_cons; [|by rewrite Hs1|exact Hrun2'|done|done]. set (ctx2 := add_result _ _ _).
  assert (mins_of w (X ∖ list_to_set explicit) mins) as Hm'.
  { destruct Hm as [Hnd Hel]. split; [done|]. intros mm. rewrite Hel.
    by setoid_rewrite (min_of_quiet w w1). }
  destruct (delete_steps_spec w w2 DeleteBackupManifestsStep _ ctx2 X
    (prune_manifests retention (w_clock w) mins) [JSON_BACKUP_PREFIX]
    (calm_trans _ _ _ (quiet_calm _ _ Hq1) Hc2) Hsd eq_refl eq_refl eq_refl) as (ctx' & w' & Hrun & Hclean); try done.
  { intros k. rewrite HX. split; [intros [? ?]; split; [|done]; eexists; split; [by left|done]|].
    intros [(p & ->%list_elem_of_singleton & ?) ?]. done. }
  { intros mm Hmm%prune_sub. apply Hm' in Hmm as (k & [Hk _]%elem_of_difference & Hmin).
    rewrite (min_of_filename _ _ _ Hmin). apply HX in Hk as [? ?]. apply Hst; [|done].
    eexists. split; [by left|done]. }
  exists ctx', w', (X ∖ list_to_set explicit), mins. split; [done|]. split; [|done].
  intros k. rewrite elem_of_difference, elem_of_list_to_set, HX. tauto.
Qed.

(** Cleanup with deltas (Cassandra).  The same, for base backups and delta
    backups: the base backups kept follow the retention rule, the deltas kept
    are those that ended no earlier than the oldest kept base backup (none
    when no base backup is kept), and the two storages are left with exactly
    the kept manifests and the files they reference. *)
Theorem cassandra_cleanup_exact (retention : Retention) (explicit : list string) (n t : Z) (w : W) :
  storages_ok w → w_shutting_down w = false →
  manifests_restorable [JSON_BACKUP_PREFIX; JSON_DELTA_PREFIX] w →
  ∃ ctx' w' X Y mins deltas,
    let bases := prune_manifests retention (w_clock w) mins in
    try_run (cassandra_get_cleanup_steps retention explicit) (mkStepsContext n t []) w = (w', Ok (ctx', true)) ∧
    (∀ n, n ∈ X ↔ startswith JSON_BACKUP_PREFIX n = true ∧ is_Some (jlookup w n) ∧ n ∉ explicit) ∧
    (∀ n, n ∈ Y ↔ startswith JSON_DELTA_PREFIX n = true ∧ is_Some (jlookup w n)) ∧
    mins_of w X mins ∧ kept_deltas_of w Y bases deltas ∧
    cleaned [JSON_BACKUP_PREFIX; JSON_DELTA_PREFIX] (bases ++ deltas) w w'.
Proof using set_iter_perm.
  intros Hok Hsd Hst.
  destruct (list_names_spec w JSON_BACKUP_PREFIX Hok) as (w1 & X & Hrun1 & Hq1 & HX).
  destruct (list_names_spec w1 JSON_DELTA_PREFIX (proj1 Hq1)) as (w2 & Y & Hrun2 & Hq2 & HY).
  pose proof (quiet_trans _ _ _ Hq1 Hq2) as Hq. pose proof Hq as (Hok2 & Hj2 & Hh2 & Hc2 & Hs2).
  assert (∀ k, k ∈ Y ↔ startswith JSON_DELTA_PREFIX k = true ∧ is_Some (jlookup w k)) as HY'.
  { intros k. rewrite HY. destruct Hq1 as (_ & Hj1 & _). by rewrite Hj1. }
  unfold cassandra_get_cleanup_steps. erewrite try_run_cons; [|exact Hsd|exact Hrun1|done|done].
  erewrite try_run_cons; [|by destruct Hq1 as (_ & _ & _ & _ & ->)|exact Hrun2|done|done].
  set (ctx2 := add_result _ _ _).
  assert (∀ k, k ∈ X ∨ k ∈ Y → restorable w k) as HstXY.
  { intros k [Hk|Hk]; [apply HX in Hk as [Hp Hl]|apply HY' in Hk as [Hp Hl]]; (apply Hst; [|done]);
      eexists; (split; [|exact Hp]); [by left|by right; left]. }
  destruct (kept_basebackups_spec w2 retention explicit ctx2 X Hok2 eq_refl) as (w3 & mins & Hrun3 & Hc3 & Hm).
  { intros k Hk. eapply restorable_calm; [by apply quiet_calm|auto]. }
  rewrite Hc2 in Hrun3. set (bases := prune_manifests retention (w_clock w) mins) in *.
  pose proof (calm_trans _ _ _ (quiet_calm _ _ Hq) Hc3) as Hcalm3.
  destruct (kept_deltas_spec w3 bases ctx2 Y (proj1 Hc3) eq_refl) as (w4 & deltas & Hrun4 & Hc4 & Hdel).
  { intros k Hk. eapply restorable_calm; [exact Hcalm3|auto]. }
  pose proof (calm_trans _ _ _ Hcalm3 Hc4) as Hcalm4.
  assert (run_step (ComputeKeptBackupsStep retention explicit true) ctx2 w2 = (w4, Ok (VMins (bases ++ deltas)))) as Hrun.
  { cbn [run_step ComputeKeptBackupsStep]. rewrite (bind_ok _ _ _ _ _ Hrun3). by rewrite (bind_ok _ _ _ _ _ Hrun4). }
  erewrite try_run_cons; [|by rewrite Hs2|exact Hrun|done|done]. set (ctx3 := add_result _ _ _).
  assert (mins_of w (X ∖ list_to_set explicit) mins) as Hm'.
  { destruct Hm as [Hnd Hel]. split; [done|]. intros mm. rewrite Hel. by setoid_rewrite (min_of_quiet w w2). }
  assert (kept_deltas_of w Y bases deltas) as Hdel'.
  { unfold kept_deltas_of in *. destruct bases; [done|]. intros d. rewrite Hdel.
    by setoid_rewrite (min_of_calm w w3). }
  destruct (delete_steps_spec w w4 DeleteBackupAndDeltaManifestsStep _ ctx3 (X ∪ Y) (bases ++ deltas)
    [JSON_BACKUP_PREFIX; JSON_DELTA_PREFIX] Hcalm4 Hsd eq_refl eq_refl eq_refl) as (ctx' & w' & Hfin & Hclean); try done.
  { intros k. rewrite elem_of_union, HX, HY'. unfold has_prefix. split.
    - intros [[? ?]|[? ?]]; (split; [|done]); eexists; (split; [|done]); [by left|by right; left].
    - intros [(p & Hp & ?) ?]. apply elem_of_cons in Hp as [->|Hp]; [by left|].
      apply list_elem_of_singleton in Hp as ->. by right. }
  { intros mm [Hmm%prune_sub|Hmm]%elem_of_app.
    - apply Hm' in Hmm as (k & [Hk _]%elem_of_difference & Hmin). rewrite (min_of_filename _ _ _ Hmin). auto.
    - unfold kept_deltas_of in Hdel'. destruct bases; [subst; by apply not_elem_of_nil in Hmm|].
      apply Hdel' in Hmm as (_ & k & Hk & Hmin). rewrite (min_of_filename _ _ _ Hmin). auto. }
  exists ctx', w', (X ∖ list_to_set explicit), Y, mins, deltas. split; [done|].
  split; [intros k; rewrite elem_of_difference, elem_of_list_to_set, HX; tauto|]. done.
Qed.

Lemma min_start_le m l x : x ∈ m :: l → mm_start (min_start m l) ≤ mm_start x.
Proof.
  revert m x. induction l as [|y l IH]; intros m x; simpl.
  - intros ->%list_elem_of_singleton. lia.
  - intros Hx. destruct (mm_start y <? mm_start m) eqn:E.
    + apply elem_of_cons in Hx as [->|Hx]; [|by apply IH].
      assert (mm_start (min_start y l) ≤ mm_start y) by (apply IH; by left). lia.
    + apply Z.ltb_ge in E. assert (mm_start (min_start m l) ≤ mm_start m) by (apply IH; by left).
      apply elem_of_cons in Hx as [->|Hx]; [lia|]. apply elem_of_cons in Hx as [->|Hx]; [lia|].
      apply IH. by right.
Qed.

Lemma min_start_elem m l : min_start m l ∈ m :: l.
Proof.
  revert m. induction l as [|y l IH]; intros m; simpl; [by left|].
  destruct (mm_start y <? mm_start m).
  - right. apply IH.
  - specialize (IH m). apply elem_of_cons in IH as [->|IH]; [by left|]. right. by right.
Qed.

(** Backup and delta operations exclude each other: of two manifests, one
    ended before the other started. *)
Definition exclusive (a b : ManifestMin) : Prop :=
  a = b ∨ mm_end a < mm_start b ∨ mm_end b < mm_start a.

(** Under the mutual exclusion of backups and deltas, the deltas a
    cleanup keeps include every delta that restoring any kept base backup
    would apply (those that start no earlier than it, as
    [DeltaManifestsStep] selects them). *)
Theorem needed_deltas_kept (w w' : W) (ctx : StepsContext) (Y : gset string) (bases deltas : list ManifestMin)
    (b d : ManifestMin) (n : string) :
  storages_ok w → get_strings ctx cls_ListDeltaBackupsStep = Ok Y → (∀ n, n ∈ Y → restorable w n) →
  compute_kept_deltas bases ctx w = (w', Ok deltas) →
  (∀ x y, x ∈ d :: bases → y ∈ d :: bases → exclusive x y) →
  (∀ x, x ∈ d :: bases → mm_start x ≤ mm_end x) →
  b ∈ bases → n ∈ Y → min_of w n d → mm_start b ≤ mm_start d → d ∈ deltas.
Proof using set_iter_perm.
  intros Hok HY Hst Hrun Hex Hint Hb Hn Hd Hle.
  destruct (kept_deltas_spec w bases ctx Y Hok HY Hst) as (w2 & deltas2 & Hrun2 & _ & Hk).
  rewrite Hrun in Hrun2. injection Hrun2 as <- <-. destruct bases as [|m rest]; [by apply not_elem_of_nil in Hb|].
  apply Hk. split; [|eauto].
  pose proof (min_start_le m rest b Hb) as Hmin. set (o := min_start m rest) in *.
  assert (o ∈ m :: rest) as Ho by apply min_start_elem.
  pose proof (Hint o ltac:(by right)) as Hoi. pose proof (Hint d ltac:(by left)) as Hdi.
  destruct (Hex o d ltac:(by right) ltac:(by left)) as [->|[?|?]]; lia.
Qed.
End steps.

(** ** A storage with two base backups and a delta *)
#[local] Existing Instance identity_codec.

Definition example_json : StorageOps (gmap string BackupManifest) BackupManifest := FileStorage.json_ops (λ _, false).
Definition example_hex : StorageOps (gmap string string) string := FileStorage.hexdigest_ops.

Definition example_manifest (start end_ : Z) (digest : string) : BackupManifest :=
  mkBackupManifest start end_ 1
    [mkSnapshotResult "host" "az" (mkProgress 1 0 1 true) start None None 1 1 (Some [mkSnapshotHash digest 1])]
    [] files_plugin "{}" "".

Definition example_world : world (gmap string BackupManifest) (gmap string string) unit :=
  mkWorld (<["backup-1.json" := example_manifest 10 20 "aa"]>
           (<["backup-2.json" := example_manifest 30 40 "bb"]>
            (<["delta-1.json" := example_manifest 50 60 "cc"]> ∅)))
    (<["aa.dat" := "x"]> (<["bb.dat" := "y"]> (<["cc.dat" := "z"]> ∅)))
    tt (λ _, 100) Op.initial false.

Lemma example_restorable prefixes : manifests_restorable (SE:=unit) (SH:=gmap string string) example_json prefixes example_world.
Proof.
  intros n _ [b Hb]. exists b. split.
  - exists b. split; [done|]. split; [done|]. left. revert Hb. simpl. case_decide; [done|].
    intros [[_ <-]|[_ [[_ <-]|[_ [[_ <-]|[_ He]]%lookup_insert_Some]]%lookup_insert_Some]]%lookup_insert_Some;
      [done..|]. by rewrite lookup_empty in He.
  - revert Hb. simpl. case_decide; [done|].
    intros [[_ <-]|[_ [[_ <-]|[_ [[_ <-]|[_ He]]%lookup_insert_Some]]%lookup_insert_Some]]%lookup_insert_Some;
      [repeat constructor; eauto..|]. by rewrite lookup_empty in He.
Qed.

Lemma example_storages_ok : storages_ok (SE:=unit) example_json example_hex example_world.
Proof. by split; intros f b _. Qed.

(** One backup at most: the older one, its file and the delta's file go. *)
Definition example_retention : Retention := mkRetention (Some 1) (Some 1) None.

Lemma cleanup_exact_witness :
  (∃ ctx' w' X mins,
    try_run (get_cleanup_steps example_json example_hex elements example_retention []) (mkStepsContext 1 0 []) example_world
      = (w', Ok (ctx', true)) ∧
    (∀ n, n ∈ X ↔ startswith JSON_BACKUP_PREFIX n = true ∧
                  is_Some (st_lookup (ops:=example_json) (w_json example_world) n) ∧ n ∉ []) ∧
    mins_of example_json example_world X mins ∧
    cleaned example_json example_hex [JSON_BACKUP_PREFIX]
      (prune_manifests example_retention (w_clock example_world) mins) example_world w') ∧
  elements (dom (w_hex (fst (try_run (get_cleanup_steps example_json example_hex elements example_retention [])
    (mkStepsContext 1 0 []) example_world)))) = ["bb.dat"].
Proof.
  split; [|vm_compute; reflexivity].
  apply (cleanup_exact example_json example_hex elements (λ X, reflexivity _) example_retention [] 1 0 example_world);
    [apply example_storages_ok|reflexivity|apply example_restorable].
Defined.

Lemma cassandra_cleanup_exact_witness :
  (∃ ctx' w' X Y mins deltas,
    let bases := prune_manifests example_retention (w_clock example_world) mins in
    try_run (cassandra_get_cleanup_steps example_json example_hex elements example_retention [])
      (mkStepsContext 1 0 []) example_world = (w', Ok (ctx', true)) ∧
    (∀ n, n ∈ X ↔ startswith JSON_BACKUP_PREFIX n = true ∧
                  is_Some (st_lookup (ops:=example_json) (w_json example_world) n) ∧ n ∉ []) ∧
    (∀ n, n ∈ Y ↔ startswith JSON_DELTA_PREFIX n = true ∧
                  is_Some (st_lookup (ops:=example_json) (w_json example_world) n)) ∧
    mins_of example_json example_world X mins ∧ kept_deltas_of example_json example_world Y bases deltas ∧
    cleaned example_json example_hex [JSON_BACKUP_PREFIX; JSON_DELTA_PREFIX] (bases ++ deltas) example_world w') ∧
  size (dom (w_hex (fst (try_run (cassandra_get_cleanup_steps example_json example_hex elements example_retention [])
    (mkStepsContext 1 0 []) example_world)))) = 2%nat.
Proof.
  split; [|vm_compute; reflexivity].
  apply (cassandra_cleanup_exact example_json example_hex elements (λ X, reflexivity _) example_retention [] 1 0
    example_world); [apply example_storages_ok|reflexivity|apply example_restorable].
Defined.

Lemma needed_deltas_kept_witness :
  let b := mkManifestMin 30 40 "backup-2" in
  let d := mkManifestMin 50 60 "delta-1" in
  let ctx := mkStepsContext 1 0 [(cls_ListDeltaBackupsStep, VStrings {["delta-1"]})] in
  compute_kept_deltas example_json elements [b] ctx example_world = (example_world, Ok [d]) ∧ d ∈ [d].
Proof.
  intros b d ctx. assert (compute_kept_deltas example_json elements [b] ctx example_world = (example_world, Ok [d])) as Hrun
    by (vm_compute; reflexivity).
  split; [exact Hrun|].
  apply (needed_deltas_kept example_json example_hex elements (λ X, reflexivity _) example_world example_world ctx
    {["delta-1"]} [b] [d] b d "delta-1").
  - apply example_storages_ok.
  - reflexivity.
  - intros n ->%elem_of_singleton. apply (example_restorable [JSON_DELTA_PREFIX]); [|by eexists].
    exists JSON_DELTA_PREFIX. split; [by left|reflexivity].
  - exact Hrun.
  - intros x y [->| ->%list_elem_of_singleton]%elem_of_cons [->| ->%list_elem_of_singleton]%elem_of_cons;
      unfold exclusive; simpl; auto; lia.
  - intros x [->| ->%list_elem_of_singleton]%elem_of_cons; simpl; lia.
  - by left.
  - set_solver.
  - eexists. split; [eexists; split; [reflexivity|]; split; [reflexivity|by left]|reflexivity].
  - simpl. lia.
Defined.
End Cleanup.
