(* ===== verification/BackupRestore.v ===== *)
(** * The steps of backups and restores ([coordinator/plugins/base.py],
      [coordinator/plugins/files.py])

    Every step that talks to the nodes or reads and writes the storages, over
    a world whose nodes are the [ClusterEnv] of the section.  The loop that
    polls the nodes has the fuel [fuel]; [Cluster.wait_successful_results_total]
    says how much is enough. *)

From stdpp Require Import base gmap strings list sorting.
From Stdlib Require Import ZArith Lia Ascii.
From S2P Require Import Prelude Progress Ipc Storage Op Utils Steps NodeMapping UploadPlan NodeLock Cluster Datetime.

Local Open Scope Z_scope.

Module BackupRestore.
Import Cluster.

(** ** Results of node operations

    A body is decoded as its own class, or as the base class [NodeResult]. *)
Definition decode_snapshot_result (b : Body) : res SnapshotResult :=
  match b with BSnapshot r => Ok r | _ => Raise DecodeError end.
Definition decode_upload_result (b : Body) : res SnapshotUploadResult :=
  match b with BUpload r => Ok r | _ => Raise DecodeError end.
Definition decode_node_result (b : Body) : res NodeResult :=
  match b with
  | BNode r => Ok r
  | BSnapshot r => Ok (mkNodeResult (sr_hostname r) (sr_az r) (sr_progress r))
  | BUpload r => Ok (mkNodeResult (ur_hostname r) (ur_az r) (ur_progress r))
  | BSchemaHash r => Ok (mkNodeResult (shr_hostname r) (shr_az r) (shr_progress r))
  | _ => Raise DecodeError
  end.

Section steps.
Context {SJ SH SE B BH : Type} (json : StorageOps SJ B) (hex : StorageOps SH BH) `{!ManifestCodec B}.
Local Notation W := (world SJ SH SE).
Context (env : ClusterEnv W) (cluster_nodes : list CoordinatorNode) (poll_config : PollConfig) (fuel : nat).
(** The handler [SteppedCoordinatorOp._progress_handler] installs. *)
Context (progress_handler : option (Progress → M W unit)).

(** [cluster.request_from_nodes] and [cluster.wait_successful_results] *)
Definition request (url : string) (req : option NodeRequest) (reqs : option (list NodeRequest))
    (nodes : option (list CoordinatorNode)) : M W (list Result) :=
  request_from_nodes env cluster_nodes (PPath url) req reqs nodes true false.

Definition wait {NR} (decode : Body → res NR) (progress : NR → Progress) (start_results : list Result) : M W (list NR) :=
  r ← wait_successful_results env poll_config decode progress progress_handler fuel start_results;
  match r with Some l => mret l | None => raise OutOfFuel end.

(** ** [get_nodes_metadata] *)
Definition metadata_of (r : Result) : res MetadataResult :=
  match r with
  | RNone => Ok (mkMetadataResult "" [])
  | RResponse _ (Some (BMetadata m)) => Ok m
  | RResponse _ _ => Raise DecodeError
  | RException | RJson _ => Raise TypeError
  end.

Definition get_nodes_metadata (nodes : option (list CoordinatorNode)) : M W (list MetadataResult) :=
  responses ← request_from_nodes env cluster_nodes (PPath "metadata") None None nodes false false;
  collect responses (λ r, lift_res (metadata_of r)).

(** [set.intersection] of the features; it needs at least one set. *)
Definition common_features (l : list MetadataResult) : res (gset string) :=
  match l with
  | [] => Raise TypeError
  | m :: l' => Ok (foldl (λ X m, X ∩ list_to_set (md_features m)) (list_to_set (md_features m)) l')
  end.

(** ** Backup *)
Definition SnapshotStep (groups : list SnapshotGroup) (snapshot_request : string)
    (nodes_to_snapshot : option (list CoordinatorNode)) : Step SJ SH SE := mkStep cls_SnapshotStep (λ _,
  nodes_metadata ← get_nodes_metadata None;
  features ← lift_res (common_features nodes_metadata);
  start_results ← request snapshot_request (Some (create_snapshot_request groups features)) None nodes_to_snapshot;
  l ← wait decode_snapshot_result sr_progress start_results;
  mret (VSnapshots l)).

Definition ListHexdigestsStep : Step SJ SH SE := mkStep cls_ListHexdigestsStep (λ _,
  l ← on_hex (st_list hex); mret (VStrings (list_to_set l))).

Definition upload_request_for (storage_name : string) (validate_file_hashes : bool) (metadata : list MetadataResult)
    (d : UploadPlan.NodeIndexData) : res NodeRequest :=
  match metadata !! UploadPlan.nid_node_index d with
  | None => Raise IndexError
  | Some m =>
      Ok (if decide (feature_value validate_file_hashes_f ∈ md_features m)
          then SnapshotUploadRequestV20221129 (UploadPlan.nid_sshashes d) storage_name validate_file_hashes
          else SnapshotUploadRequest (UploadPlan.nid_sshashes d) storage_name)
  end.

Definition start_upload (storage_name : string) (validate_file_hashes : bool) (upload_request : string)
    (metadata : list MetadataResult) (d : UploadPlan.NodeIndexData) : M W (list Result) :=
  req ← lift_res (upload_request_for storage_name validate_file_hashes metadata d);
  node ← lift_res (match cluster_nodes !! UploadPlan.nid_node_index d with Some n => Ok n | None => Raise IndexError end);
  start_result ← request upload_request (Some req) None (Some [node]);
  if decide (length start_result ≠ 1%nat) then raise StepFailedError else mret start_result.

Definition upload_node_index_datas (storage_name : string) (datas : list UploadPlan.NodeIndexData)
    (validate_file_hashes : bool) (upload_request : string) : M W (list SnapshotUploadResult) :=
  metadata ← get_nodes_metadata None;
  start_results ← collect datas (start_upload storage_name validate_file_hashes upload_request metadata);
  wait decode_upload_result ur_progress (concat start_results).

Definition UploadBlocksStep (storage_name : string) (validate_file_hashes : bool) (upload_request : string)
    (list_hexdigests_step : StepClass) : Step SJ SH SE := mkStep cls_UploadBlocksStep (λ ctx,
  hexdigests ← lift_res (get_strings ctx list_hexdigests_step);
  snapshots ← lift_res (get_snapshots ctx cls_SnapshotStep);
  datas ← lift_res (UploadPlan.build_node_index_datas hexdigests snapshots (seq 0 (length cluster_nodes)));
  l ← upload_node_index_datas storage_name datas validate_file_hashes upload_request;
  mret (VUploads l)).

Definition first_root_globs (l : list SnapshotResult) : res (list string) :=
  match l with
  | [] => Raise IndexError
  | sr :: _ => match sr_state sr with Some st => Ok (root_globs st) | None => Raise AssertionError end
  end.

Definition SnapshotClearStep (clear_request : string) : Step SJ SH SE := mkStep cls_SnapshotClearStep (λ ctx,
  snapshot_results ← lift_res (get_snapshots ctx cls_SnapshotStep);
  globs ← lift_res (first_root_globs snapshot_results);
  start_results ← request clear_request (Some (SnapshotClearRequest globs)) None None;
  l ← wait decode_node_result nr_progress start_results;
  mret (VNodeResults l)).

Definition hexdigests_from_hashes (hashes : option (list SnapshotHash)) : res (list string) :=
  match hashes with Some l => Ok (hash_hexdigest <$> l) | None => Raise AssertionError end.

Definition SnapshotReleaseStep : Step SJ SH SE := mkStep cls_SnapshotReleaseStep (λ ctx,
  snapshot_results ← lift_res (get_snapshots ctx cls_SnapshotStep);
  nodes_metadata ← get_nodes_metadata None;
  if negb (bool_decide (nodes_metadata ≠ [])) ||
     negb (forallb (λ m, bool_decide (feature_value release_snapshot_files_f ∈ md_features m)) nodes_metadata)
  then mret (VNodeResults [])
  else
    reqs ← collect snapshot_results (λ s, hs ← lift_res (hexdigests_from_hashes (sr_hashes s));
                                          mret (SnapshotReleaseRequest hs));
    start_results ← request "release" None (Some reqs) None;
    l ← wait decode_node_result nr_progress start_results;
    mret (VNodeResults l)).

Definition make_backup_name (backup_prefix : string) (ctx : StepsContext) : string :=
  backup_prefix +:+ Datetime.isoformat_seconds (attempt_start ctx).

(** [end] defaults to the time the manifest is built. *)
Definition UploadManifestStep (plugin : Plugin) (plugin_manifest_step snapshot_step upload_step : option StepClass)
    (backup_prefix : string) : Step SJ SH SE := mkStep cls_UploadManifestStep (λ ctx,
  plugin_data ← lift_res (match plugin_manifest_step with Some c => get_plugin_data ctx c | None => Ok "{}" end);
  snapshot_results ← lift_res (match snapshot_step with Some c => get_snapshots ctx c | None => Ok [] end);
  upload_results ← lift_res (match upload_step with Some c => get_uploads ctx c | None => Ok [] end);
  end_ ← now;
  let manifest := encode_manifest (mkBackupManifest (attempt_start ctx) end_ (attempt ctx) snapshot_results
                                     upload_results plugin plugin_data "") in
  on_json (st_upload json (make_backup_name backup_prefix ctx) manifest) ;;
  mret VNone).

(** ** Restore *)
Definition BackupNameStep (requested_name : string) : Step SJ SH SE := mkStep cls_BackupNameStep (λ _,
  if decide (requested_name = "") then
    l ← on_json (st_list json);
    match last (py_sorted str_leb l) with
    | Some n => mret (VName n)
    | None => raise IndexError
    end
  else if startswith JSON_BACKUP_PREFIX requested_name then mret (VName requested_name)
  else mret (VName (JSON_BACKUP_PREFIX +:+ requested_name))).

Definition BackupManifestStep : Step SJ SH SE := mkStep cls_BackupManifestStep (λ ctx,
  backup_name ← lift_res (get_name ctx cls_BackupNameStep);
  py_assert (bool_decide (backup_name ≠ "")) ;;
  m ← on_json (download_backup_manifest json backup_name);
  mret (VManifest m)).

Definition MapNodesStep (partial : option (list PartialRestoreRequestNode)) : Step SJ SH SE := mkStep cls_MapNodesStep (λ ctx,
  m ← lift_res (get_manifest ctx cls_BackupManifestStep);
  l ← lift_res (NodeMapping.get_node_to_backup_index partial (bm_snapshot_results m) cluster_nodes);
  mret (VNodeMap l)).

Definition nonempty {A} (o : option (list A)) : bool := match o with Some (_ :: _) => true | _ => false end.

Definition root_globs_of (l : list SnapshotResult) (i : nat) : res (list string) :=
  match l !! i with
  | None => Raise IndexError
  | Some sr => match sr_state sr with Some st => Ok (root_globs st) | None => Raise AssertionError end
  end.

(** The request for one node of a restore: its url and body, or nothing. *)
Definition restore_request (storage_name backup_name : string) (partial : option (list PartialRestoreRequestNode))
    (snapshot_results : list SnapshotResult) (backup_index : option nat) : res (option (string * NodeRequest)) :=
  match backup_index with
  | Some i =>
      globs ← root_globs_of snapshot_results i;
      Ok (Some ("download", SnapshotDownloadRequest storage_name backup_name i globs))
  | None =>
      if nonempty partial then Ok None
      else globs ← root_globs_of snapshot_results 0; Ok (Some ("clear", SnapshotClearRequest globs))
  end.

(** The loop over the nodes: [None] is the early [return []]. *)
Fixpoint start_restores (storage_name backup_name : string) (partial : option (list PartialRestoreRequestNode))
    (snapshot_results : list SnapshotResult) (l : list (CoordinatorNode * option nat)) : M W (option (list Result)) :=
  match l with
  | [] => mret (Some [])
  | (node, backup_index) :: l' =>
      r ← lift_res (restore_request storage_name backup_name partial snapshot_results backup_index);
      match r with
      | None => start_restores storage_name backup_name partial snapshot_results l'
      | Some (op, node_request) =>
          start_result ← request op (Some node_request) None (Some [node]);
          if decide (length start_result ≠ 1%nat) then mret None
          else
            rest ← start_restores storage_name backup_name partial snapshot_results l';
            mret ((start_result ++.) <$> rest)
      end
  end.

Definition RestoreStep (storage_name : string) (partial : option (list PartialRestoreRequestNode)) : Step SJ SH SE :=
  mkStep cls_RestoreStep (λ ctx,
  backup_name ← lift_res (get_name ctx cls_BackupNameStep);
  m ← lift_res (get_manifest ctx cls_BackupManifestStep);
  node_to_backup_index ← lift_res (get_node_map ctx cls_MapNodesStep);
  if decide (bm_snapshot_results m = []) then raise MissingSnapshotResultsException
  else
    o ← start_restores storage_name backup_name partial (bm_snapshot_results m) (zip cluster_nodes node_to_backup_index);
    match o with
    | None => mret (VNodeResults [])
    | Some start_results => l ← wait decode_node_result nr_progress start_results; mret (VNodeResults l)
    end).

(** ** Deltas *)
Definition start_leb (a b : BackupManifest) : bool := bm_start a <=? bm_start b.

Definition DeltaManifestsStep : Step SJ SH SE := mkStep cls_DeltaManifestsStep (λ ctx,
  m ← lift_res (get_manifest ctx cls_BackupManifestStep);
  names ← on_json (st_list json);
  let delta_names := py_sorted str_leb (filter (λ d, startswith JSON_DELTA_PREFIX d = true) names) in
  deltas ← collect delta_names (λ n, on_json (download_backup_manifest json n));
  mret (VManifests (py_sorted start_leb (filter (λ d, bm_start m ≤ bm_start d) deltas)))).

Definition contains_partial_restore_hostnames (partial : list PartialRestoreRequestNode) (m : BackupManifest) : bool :=
  existsb (λ sr, bool_decide (Some (sr_hostname sr) ∈ backup_hostname <$> partial)) (bm_snapshot_results m).

(** The comprehension over the assigned backup indexes, for both requests. *)
Definition delta_requests (mk : nat → list string → NodeRequest) (m : BackupManifest)
    (node_to_backup_index : list (option nat)) : res (list NodeRequest) :=
  fold_res (λ acc i, globs ← root_globs_of (bm_snapshot_results m) i; Ok (acc ++ [mk i globs]))
    [] (omap id node_to_backup_index).

(** A request to [nodes] that must at least start, and its completion. *)
Definition run_on_nodes (url : string) (req : option NodeRequest) (reqs : option (list NodeRequest))
    (nodes : list CoordinatorNode) : M W unit :=
  start_results ← request url req reqs (Some nodes);
  if decide (start_results = []) then raise StepFailedError
  else wait decode_node_result nr_progress start_results ;; mret tt.

Definition download_delta (storage_name delta_name : string) (nodes : list CoordinatorNode)
    (node_to_backup_index : list (option nat)) (m : BackupManifest) : M W unit :=
  reqs ← lift_res (delta_requests (λ i globs, SnapshotDownloadRequest storage_name delta_name i globs) m node_to_backup_index);
  run_on_nodes "delta/download" None (Some reqs) nodes.

Definition restore_delta (restore_delta_url : string) (restore_delta_request : NodeRequest) (nodes : list CoordinatorNode) : M W unit :=
  run_on_nodes restore_delta_url (Some restore_delta_request) None nodes.

Definition clear_delta (nodes : list CoordinatorNode) (node_to_backup_index : list (option nat)) (m : BackupManifest) : M W unit :=
  reqs ← lift_res (delta_requests (λ _ globs, SnapshotClearRequest globs) m node_to_backup_index);
  run_on_nodes "delta/clear" None (Some reqs) nodes.

Definition restore_one_delta (storage_name restore_delta_url : string) (restore_delta_request : NodeRequest)
    (partial : option (list PartialRestoreRequestNode)) (m : BackupManifest) : M W unit :=
  if match partial with Some (p :: ps) => negb (contains_partial_restore_hostnames (p :: ps) m) | _ => false end
  then mret tt
  else
    mapping ← lift_res (NodeMapping.get_node_to_backup_index partial (bm_snapshot_results m) cluster_nodes);
    nodes ← lift_res (fold_res (λ acc p, match p.2 with
                                          | None => Ok acc
                                          | Some _ => match cluster_nodes !! p.1 with
                                                      | Some n => Ok (acc ++ [n])
                                                      | None => Raise IndexError
                                                      end
                                          end) [] (enumerate mapping));
    download_delta storage_name (bm_filename m) nodes mapping m ;;
    restore_delta restore_delta_url restore_delta_request nodes ;;
    clear_delta nodes mapping m.

Definition RestoreDeltasStep (storage_name restore_delta_url : string) (restore_delta_request : NodeRequest)
    (partial : option (list PartialRestoreRequestNode)) (delta_manifests_step : StepClass) : Step SJ SH SE :=
  mkStep cls_RestoreDeltasStep (λ ctx,
  deltas ← lift_res (get_manifests ctx delta_manifests_step);
  for_each (py_sorted start_leb deltas)
    (restore_one_delta storage_name restore_delta_url restore_delta_request partial) ;;
  mret VNone).

(** ** [FilesPlugin] *)
Definition files_get_backup_steps (storage_name : string) (globs : list string) : list (Step SJ SH SE) :=
  [SnapshotStep (simple_group <$> globs) "snapshot" None;
   ListHexdigestsStep;
   UploadBlocksStep storage_name true "upload" cls_ListHexdigestsStep;
   UploadManifestStep files_plugin None (Some cls_SnapshotStep) (Some cls_UploadBlocksStep) JSON_BACKUP_PREFIX].

Definition files_get_restore_steps (storage_name : string) (req : RestoreRequest) : list (Step SJ SH SE) :=
  [BackupNameStep (rr_name req); BackupManifestStep; MapNodesStep (rr_partial_restore_nodes req);
   RestoreStep storage_name (rr_partial_restore_nodes req)].


(** ** What a backup leaves in object storage *)
Context `{!StorageSpec json} `{!StorageSpec hex}.

Notation jlookup w n := (st_lookup (ops:=json) (w_json w) n).
Notation hlookup w h := (st_lookup (ops:=hex) (w_hex w) h).

Definition hashes_of (req : NodeRequest) : list SnapshotHash :=
  match req with
  | SnapshotUploadRequest hs _ | SnapshotUploadRequestV20221129 hs _ _ => hs
  | _ => []
  end.

(** What the nodes promise to the coordinator, with a predicate that remembers
    which upload a status url stands for: no action of theirs removes a file
    from object storage or breaks the storages, and an upload that reports
    success has stored every hash it was asked for. *)
Class NodesContract : Type := {
  started : W → string → list SnapshotHash → Prop;
  moves (w w' : W) : Prop :=
    (st_inv (ops:=json) (w_json w) → st_inv (ops:=json) (w_json w')) ∧
    (st_inv (ops:=hex) (w_hex w) → st_inv (ops:=hex) (w_hex w')) ∧
    (∀ h, is_Some (hlookup w h) → is_Some (hlookup w' h)) ∧
    (∀ url hs, started w url hs → started w' url hs);
  nodes_request_moves node path req w : moves w (fst (env_request env node path req w));
  nodes_poll_moves url w : moves w (fst (env_poll env url w));
  nodes_now_moves w : moves w (fst (env_now env w));
  nodes_sleep_moves d w : moves w (fst (env_sleep env d w));
  nodes_handler_moves h p w : progress_handler = Some h → moves w (fst (h p w));
  nodes_upload_started node req w w' status id url :
    env_request env node (PPath "upload") req w = (w', Ok (Replied status (Some (BStart id url)))) →
    is_error status = false → started w' url (hashes_of req);
  nodes_upload_done url w w' hs r :
    started w url hs → env_poll env url w = (w', Ok (Some (BUpload r))) →
    Progress.finished_successfully (ur_progress r) = true →
    ∀ h, h ∈ hs → is_Some (hlookup w' (hash_hexdigest h));
}.
Context {contract : NodesContract}.

#[local] Instance moves_preorder : PreOrder moves.
Proof.
  split.
  - intros w. split; [done|]. split; [done|]. by split.
  - intros w1 w2 w3 (H1 & H2 & H3 & H4) (H1' & H2' & H3' & H4').
    split; [auto|]. split; [auto|]. split; [auto|]. intros; auto.
Qed.

(** A procedure all of whose effects are moves. *)
Definition moving {A} (m : M W A) : Prop := ∀ w, moves w (fst (m w)).

Lemma moving_ret {A} (a : A) : moving (mret a).
Proof. intros w. simpl. reflexivity. Qed.
Lemma moving_raise {A} e : moving (raise (A:=A) e).
Proof. intros w. simpl. reflexivity. Qed.
Lemma moving_lift {A} (r : res A) : moving (lift_res r).
Proof. intros w. simpl. reflexivity. Qed.
Lemma moving_assert b : moving (py_assert b).
Proof. destruct b; [apply moving_ret|apply moving_raise]. Qed.
Lemma moving_bind {A C} (m : M W A) (f : A → M W C) : moving m → (∀ a, moving (f a)) → moving (m ≫= f).
Proof. intros Hm Hf w. apply R_bind; [apply moves_preorder|apply Hm|intros; apply Hf]. Qed.
Lemma moving_collect {A C} (l : list A) (f : A → M W C) : (∀ a, moving (f a)) → moving (collect l f).
Proof.
  intros Hf. induction l as [|x l IH]; [apply moving_ret|]. cbn [collect].
  apply moving_bind; [done|]. intros y. apply moving_bind; [done|]. intros ys. apply moving_ret.
Qed.
Lemma moving_ok {A} (m : M W A) w w' r : moving m → m w = (w', r) → moves w w'.
Proof. intros Hm H. specialize (Hm w). by rewrite H in Hm. Qed.

Lemma moving_request_from_nodes path req reqs nodes j i :
  moving (request_from_nodes env cluster_nodes path req reqs nodes j i).
Proof.
  unfold request_from_nodes. destruct (default cluster_nodes nodes) as [|n ns]; [apply moving_ret|].
  apply moving_bind.
  { destruct reqs; [|apply moving_ret]. apply moving_bind; [apply moving_assert|]. intros _. apply moving_ret. }
  intros l. apply moving_bind; [apply moving_assert|]. intros _. apply moving_bind; [apply moving_assert|].
  intros _. apply moving_collect. intros rn. apply moving_bind; [intros w; apply nodes_request_moves|].
  intros r. apply moving_ret.
Qed.

Lemma moving_wait {NR} (decode : Body → res NR) progress start_results : moving (wait decode progress start_results).
Proof.
  unfold wait. apply moving_bind.
  - intros w. apply wait_R; [apply moves_preorder|apply nodes_now_moves|apply nodes_sleep_moves
      |apply nodes_poll_moves|apply nodes_handler_moves].
  - intros [l|]; [apply moving_ret|apply moving_raise].
Qed.

Lemma moving_get_nodes_metadata nodes : moving (get_nodes_metadata nodes).
Proof.
  apply moving_bind; [apply moving_request_from_nodes|]. intros l. apply moving_collect.
  intros r. apply moving_lift.
Qed.

Lemma moving_SnapshotStep groups url nodes ctx : moving (run_step (SnapshotStep groups url nodes) ctx).
Proof.
  apply moving_bind; [apply moving_get_nodes_metadata|]. intros md. apply moving_bind; [apply moving_lift|].
  intros fs. apply moving_bind; [apply moving_request_from_nodes|]. intros rs.
  apply moving_bind; [apply moving_wait|]. intros l. apply moving_ret.
Qed.

(** *** Uploading blocks *)
Lemma start_urls_app l1 l2 urls :
  start_urls (l1 ++ l2) = Ok urls → ∃ u1 u2, urls = u1 ++ u2 ∧ start_urls l1 = Ok u1 ∧ start_urls l2 = Ok u2.
Proof.
  revert urls. induction l1 as [|r l1 IH]; intros urls H; [by exists [], urls|].
  change ((r :: l1) ++ l2) with (r :: (l1 ++ l2)) in H. cbn [start_urls] in H.
  apply rbind_inv_ok in H as (u & Hu & H). apply rbind_inv_ok in H as (us & Hus & [= <-]).
  destruct (IH _ Hus) as (u1 & u2 & -> & H1 & H2). exists (u :: u1), u2. split; [done|].
  split; [|done]. cbn [start_urls]. by rewrite Hu, H1.
Qed.

Lemma start_upload_started storage vfh md d w w' rs urls :
  start_upload storage vfh "upload" md d w = (w', Ok rs) → start_urls rs = Ok urls →
  moves w w' ∧ ∃ url, urls = [url] ∧ started w' url (UploadPlan.nid_sshashes d).
Proof.
  intros H Hu. assert (moves w w') as Hmv.
  { eapply moving_ok; [|exact H]. apply moving_bind; [apply moving_lift|]. intros req.
    apply moving_bind; [apply moving_lift|]. intros node. apply moving_bind; [apply moving_request_from_nodes|].
    intros l. case_decide; [apply moving_raise|apply moving_ret]. }
  split; [done|]. unfold start_upload in H.
  apply bind_inv_ok in H as (w1 & req & Hreq & H). unfold lift_res in Hreq. injection Hreq as <- Hreq.
  apply bind_inv_ok in H as (w2 & node & Hnode & H). unfold lift_res in Hnode. injection Hnode as <- Hnode.
  apply bind_inv_ok in H as (w3 & l & Hl & H). case_decide as Hlen; [done|]. injection H as <- <-.
  assert (hashes_of req = UploadPlan.nid_sshashes d) as Hh.
  { unfold upload_request_for in Hreq. destruct (md !! _); [|done]. case_decide; by injection Hreq as <-. }
  unfold request, request_from_nodes in Hl. simpl in Hl.
  apply bind_inv_ok in Hl as (w4 & l4 & Hl4 & Hl). injection Hl4 as <- <-.
  apply bind_inv_ok in Hl as (w5 & [] & Hl5 & Hl). injection Hl5 as <-.
  apply bind_inv_ok in Hl as (w6 & [] & Hl6 & Hl). injection Hl6 as <-.
  cbn [collect zip zip_with fmap list_fmap] in Hl.
  apply bind_inv_ok in Hl as (w7 & x & Hx & Hl). apply bind_inv_ok in Hx as (w8 & rep & Hrep & Hx).
  injection Hx as <- <-. apply bind_inv_ok in Hl as (w9 & ys & Hys & Hl). injection Hys as <- <-.
  injection Hl as <- <-. cbn [start_urls] in Hu. apply rbind_inv_ok in Hu as (url & Hurl & Hu).
  injection Hu as <-. exists url. split; [done|]. rewrite <- Hh. simpl in Hrep.
  destruct rep as [status body| |]; [|done|done]. simpl in Hurl. rewrite orb_false_r in Hurl.
  destruct (is_error status) eqn:Ee; [done|]. simpl in Hurl. destruct body as [b|]; [|done].
  destruct b; try done. injection Hurl as <-. by eapply nodes_upload_started.
Qed.

Lemma start_uploads_started storage vfh md datas w w' rss urls :
  collect datas (start_upload storage vfh "upload" md) w = (w', Ok rss) → start_urls (concat rss) = Ok urls →
  moves w w' ∧ Forall2 (λ d url, started w' url (UploadPlan.nid_sshashes d)) datas urls.
Proof.
  revert w rss urls. induction datas as [|d datas IH]; intros w rss urls H Hu.
  { injection H as <- <-. injection Hu as <-. split; [reflexivity|constructor]. }
  cbn [collect] in H. apply bind_inv_ok in H as (w1 & rs & H1 & H). apply bind_inv_ok in H as (w2 & rss' & H2 & H).
  injection H as <- <-. simpl in Hu. apply start_urls_app in Hu as (u1 & u2 & -> & Hu1 & Hu2).
  destruct (start_upload_started _ _ _ _ _ _ _ _ H1 Hu1) as (Hm1 & url & -> & Hst).
  destruct (IH _ _ _ H2 Hu2) as [Hm2 Hall]. split; [by etrans|]. simpl. constructor; [|done].
  destruct Hm2 as (_ & _ & _ & Hm2). auto.
Qed.

Lemma uploads_stored storage datas vfh w w' l :
  upload_node_index_datas storage datas vfh "upload" w = (w', Ok l) →
  moves w w' ∧ ∀ d h, d ∈ datas → h ∈ UploadPlan.nid_sshashes d → is_Some (hlookup w' (hash_hexdigest h)).
Proof.
  intros H. unfold upload_node_index_datas in H. apply bind_inv_ok in H as (w1 & md & Hmd & H).
  pose proof (moving_ok _ _ _ _ (moving_get_nodes_metadata None) Hmd) as Hm1.
  apply bind_inv_ok in H as (w2 & rss & Hrss & H). unfold wait in H.
  apply bind_inv_ok in H as (w3 & [l'|] & Hw & H); [|done]. injection H as <- <-.
  assert (∃ urls, start_urls (concat rss) = Ok urls) as [urls Hurls].
  { unfold wait_successful_results in Hw. apply bind_inv_ok in Hw as (? & urls & Hx & _).
    unfold lift_res in Hx. injection Hx as _ Hx. eauto. }
  destruct (start_uploads_started _ _ _ _ _ _ _ _ Hrss Hurls) as [Hm2 Hall].
  set (Q := λ (url : string) (r : SnapshotUploadResult) (w : W), ∀ hs h, started w2 url hs → h ∈ hs → is_Some (hlookup w (hash_hexdigest h))).
  assert (∀ url r v v', moves v v' → Q url r v → Q url r v') as HQstable.
  { intros url r v v' (_ & _ & Hmono & _) Hq hs h Hs Hin. eapply Hmono, Hq; done. }
  assert (∀ v v', moves v v' → moves w2 v → moves w2 v') as HInv by (intros v v' Hm Hi; by etrans).
  assert (∀ url v v' b r, moves w2 v → env_poll env url v = (v', Ok (Some b)) → decode_upload_result b = Ok r →
    Progress.finished_successfully (ur_progress r) = true → Q url r v') as HQpoll.
  { intros url v v' b r Hi Hp Hd Hs hs h Hst Hin. destruct b; try done. injection Hd as ->.
    destruct Hi as (_ & _ & _ & Hi).
    exact (nodes_upload_done url v v' hs _ (Hi _ _ Hst) Hp Hs h Hin). }
  destruct (wait_provenance env cluster_nodes poll_config decode_upload_result ur_progress progress_handler moves
    Q nodes_now_moves nodes_sleep_moves nodes_poll_moves nodes_handler_moves HQstable (moves w2) HInv
    HQpoll fuel (concat rss) w2 w3 l' ltac:(reflexivity) Hw) as [Hm3 (urls' & Hurls' & HQ)].
  split; [etrans; [exact Hm1|]; by etrans|]. intros d h Hd Hh.
  assert (urls' = urls) as -> by congruence.
  apply list_elem_of_lookup in Hd as [i Hi].
  destruct (Forall2_lookup_l _ _ _ _ _ Hall Hi) as (url & Hu & Hst).
  destruct (Forall2_lookup_l _ _ _ _ _ HQ Hu) as (r & _ & Hq). eapply Hq; done.
Qed.

(** *** The whole backup *)
Lemma planned_elem h datas : h ∈ UploadPlan.planned datas → ∃ d, d ∈ datas ∧ h ∈ UploadPlan.nid_sshashes d.
Proof. unfold UploadPlan.planned. intros (d & Hh & Hd)%list_elem_of_bind. eauto. Qed.

Lemma elem_of_manifest_hexdigests m x :
  x ∈ manifest_hexdigests m ↔
  ∃ i sr h, bm_snapshot_results m !! i = Some sr ∧ h ∈ default [] (sr_hashes sr) ∧ x = hash_hexdigest h.
Proof.
  unfold manifest_hexdigests. rewrite list_elem_of_bind. setoid_rewrite list_elem_of_fmap.
  setoid_rewrite list_elem_of_lookup at 2. naive_solver.
Qed.

(** The steps of a backup between the snapshot and the manifest: afterwards
    every file of the snapshot is in object storage. *)
Lemma UploadBlocksStep_complete storage vfh ctx w w' v X snapshots :
  run_step (UploadBlocksStep storage vfh "upload" cls_ListHexdigestsStep) ctx w = (w', Ok v) →
  get_strings ctx cls_ListHexdigestsStep = Ok X → get_snapshots ctx cls_SnapshotStep = Ok snapshots →
  (∀ h, h ∈ X → is_Some (hlookup w h)) →
  moves w w' ∧ ∀ i sr h, snapshots !! i = Some sr → h ∈ default [] (sr_hashes sr) → is_Some (hlookup w' (hash_hexdigest h)).
Proof.
  intros H HX Hsn Hpre. cbn [run_step UploadBlocksStep] in H. rewrite HX, Hsn in H.
  apply bind_inv_ok in H as (w1 & X' & Hx & H). injection Hx as <- <-.
  apply bind_inv_ok in H as (w1 & sn & Hx & H). injection Hx as <- <-.
  apply bind_inv_ok in H as (w1 & datas & Hx & H). injection Hx as <- Hplan.
  apply bind_inv_ok in H as (w1 & l & Hup & H). injection H as <- <-.
  destruct (uploads_stored _ _ _ _ _ _ Hup) as [Hm Hstored]. split; [done|]. intros i sr h Hi Hh.
  assert (length snapshots = length (seq 0 (length cluster_nodes))) as Hlen.
  { unfold UploadPlan.build_node_index_datas in Hplan. by case_decide. }
  destruct (UploadPlan.build_plan_spec X snapshots _ Hlen) as (datas' & Hplan' & _ & Hiff & _).
  assert (datas' = datas) as -> by congruence.
  destruct (decide (hash_hexdigest h ∈ X)) as [Hin|Hnin].
  - destruct Hm as (_ & _ & Hm & _). auto.
  - assert (h ∈ UploadPlan.planned datas) as Hpl by (apply Hiff; eauto).
    apply planned_elem in Hpl as (d & Hd & Hhd). by eapply Hstored.
Qed.

(** C3: Backup completeness.  When the nodes keep their contract and an
    attempt of a file backup runs to completion, object storage holds under
    the name of the backup a manifest of the snapshot the nodes reported, and
    holds every file that this manifest references. *)
Theorem backup_complete (storage : string) (globs : list string) (n t : Z) (w w' : W) (ctx' : StepsContext) :
  st_inv (ops:=json) (w_json w) → st_inv (ops:=hex) (w_hex w) →
  (∀ m, st_value (ops:=json) (encode_manifest m)) →
  st_name (ops:=json) (JSON_BACKUP_PREFIX +:+ Datetime.isoformat_seconds t) →
  try_run (files_get_backup_steps storage globs) (mkStepsContext n t []) w = (w', Ok (ctx', true)) →
  ∃ m, stored_manifest json (w_json w') (JSON_BACKUP_PREFIX +:+ Datetime.isoformat_seconds t) m ∧
    get_snapshots ctx' cls_SnapshotStep = Ok (bm_snapshot_results m) ∧ bm_start m = t ∧ bm_attempt m = n ∧
    ∀ h, h ∈ manifest_hexdigests m → is_Some (hlookup w' h).
Proof.
  intros Hj Hx Hval Hname H. apply try_run_true_iff in H. unfold files_get_backup_steps in H.
  inversion H as [|st1 sts1 c1 u1 v1 w1 ctx1 c1' u1' _ Hrun1 Hset1 H1]; subst; clear H.
  inversion H1 as [|st2 sts2 c2 u2 v2 w2 ctx2 c2' u2' _ Hrun2 Hset2 H2]; subst; clear H1.
  inversion H2 as [|st3 sts3 c3 u3 v3 w3 ctx3 c3' u3' _ Hrun3 Hset3 H3]; subst; clear H2.
  inversion H3 as [|st4 sts4 c4 u4 v4 w4 ctx4 c4' u4' _ Hrun4 Hset4 H4]; subst; clear H3.
  inversion H4; subst; clear H4.
  pose proof (moving_ok _ _ _ _ (moving_SnapshotStep _ _ _ _) Hrun1) as Hm1.
  assert (∃ snapshots, v1 = VSnapshots snapshots) as [snapshots ->].
  { cbn [run_step SnapshotStep] in Hrun1. do 4 (apply bind_inv_ok in Hrun1 as (? & ? & _ & Hrun1)).
    injection Hrun1 as _ <-. eauto. }
  injection Hset1 as <-.
  destruct Hm1 as (Hj1 & Hx1 & _). specialize (Hj1 Hj). specialize (Hx1 Hx).
  destruct (st_list_spec (w_hex w1) Hx1) as (s2 & l2 & Hl2 & Hi2 & Hlk2 & _ & Hel2). apply on_hex_run in Hl2.
  cbn [run_step ListHexdigestsStep] in Hrun2. rewrite (bind_ok _ _ _ _ _ Hl2) in Hrun2. injection Hrun2 as <- <-.
  injection Hset2 as <-. set (w2 := mkWorld _ s2 _ _ _ _) in *.
  destruct (UploadBlocksStep_complete _ _ _ _ _ _ (list_to_set l2) snapshots Hrun3 eq_refl eq_refl) as [Hm3 Hall].
  { intros h Hh. simpl. rewrite Hlk2. apply Hel2. by apply elem_of_list_to_set in Hh. }
  assert (∃ ups, v3 = VUploads ups) as [ups ->].
  { cbn [run_step UploadBlocksStep] in Hrun3. do 4 (apply bind_inv_ok in Hrun3 as (? & ? & _ & Hrun3)).
    injection Hrun3 as _ <-. eauto. }
  injection Hset3 as <-. destruct Hm3 as (Hj3 & _ & _). specialize (Hj3 Hj1).
  cbn [run_step UploadManifestStep] in Hrun4. unfold now in Hrun4.
  do 4 (erewrite bind_ok in Hrun4 by done).
  set (m := mkBackupManifest _ _ _ _ _ _ _ _) in Hrun4.
  destruct (st_upload_spec (w_json w3) _ (encode_manifest m) Hj3 Hname (Hval m)) as (s4 & Hu4 & _ & Hlk4).
  erewrite bind_ok in Hrun4 by (eapply on_json_run; exact Hu4). injection Hrun4 as <- <-. injection Hset4 as <-.
  exists m. split; [|split; [done|split; [done|split; [done|]]]].
  - exists (encode_manifest m). simpl. rewrite Hlk4, decide_True by done. split; [done|].
    split; [apply decode_encode|by left].
  - intros h (i & sr & sh & Hi & Hsh & ->)%elem_of_manifest_hexdigests. simpl. by eapply Hall.
Qed.
End steps.

(** ** Which backup is restored *)
Section backup_name.
Context {SJ SH SE B BH : Type} (json : StorageOps SJ B) (hex : StorageOps SH BH) `{!StorageSpec json}.
Local Notation W := (world SJ SH SE).
Notation jlookup w n := (st_lookup (ops:=json) (w_json w) n).

Lemma last_sorted_max l x :
  last (py_sorted str_leb l) = Some x → x ∈ l ∧ ∀ y, y ∈ l → str_leb y x = true.
Proof.
  intros H. pose proof (py_sorted_StronglySorted str_leb str_leb_total str_leb_trans l) as HS.
  rewrite last_lookup in H. split.
  - apply (elem_of_py_sorted str_leb). by eapply list_elem_of_lookup_2.
  - intros y Hy. apply (elem_of_py_sorted str_leb) in Hy. apply list_elem_of_lookup in Hy as [i Hi].
    pose proof (lookup_lt_Some _ _ _ Hi) as Hlt.
    destruct (decide (i = pred (length (py_sorted str_leb l)))) as [->|Hne].
    + assert (x = y) as -> by congruence. apply str_leb_refl.
    + eapply (StronglySorted_lookup (λ a b, str_leb a b = true)); [exact HS| |exact Hi|exact H]. lia.
Qed.

Lemma backup_name_run (w w' : W) ctx v :
  st_inv (ops:=json) (w_json w) → run_step (BackupNameStep json "") ctx w = (w', Ok v) →
  ∃ x, v = VName x ∧ is_Some (jlookup w x) ∧ ∀ y, is_Some (jlookup w y) → str_leb y x = true.
Proof.
  intros Hi H. cbn [run_step BackupNameStep] in H. rewrite decide_True in H by done.
  destruct (st_list_spec (w_json w) Hi) as (s & l & Hl & _ & _ & _ & Hel). apply on_json_run in Hl.
  rewrite (bind_ok _ _ _ _ _ Hl) in H. destruct (last (py_sorted str_leb l)) as [x|] eqn:Elast; [|done].
  injection H as _ <-. apply last_sorted_max in Elast as [Hx Hmax]. exists x. split; [done|].
  split; [by apply Hel|]. intros y Hy. by apply Hmax, Hel.
Qed.

Lemma str_leb_app p a b : str_leb (p +:+ a) (p +:+ b) = str_leb a b.
Proof.
  unfold str_leb, String.leb. rewrite Datetime.compare_app by done.
  by rewrite (Datetime.compare_refl p).
Qed.

(** With no name requested and only base backups in storage, the restore
    takes the most recent one (to the second): names are compared as strings,
    which is the order of their instants. *)
Theorem latest_backup_selected (w w' : W) (ctx : StepsContext) (v : StepValue) (times : list Z) :
  st_inv (ops:=json) (w_json w) →
  Forall Datetime.in_range times →
  (∀ n, is_Some (jlookup w n) ↔ n ∈ (λ t, JSON_BACKUP_PREFIX +:+ Datetime.isoformat_seconds t) <$> times) →
  run_step (BackupNameStep json "") ctx w = (w', Ok v) →
  ∃ t, t ∈ times ∧ v = VName (JSON_BACKUP_PREFIX +:+ Datetime.isoformat_seconds t) ∧
    ∀ t', t' ∈ times → t' / 1000000 ≤ t / 1000000.
Proof.
  intros Hi Hr Hn H. destruct (backup_name_run w w' ctx v Hi H) as (x & -> & Hx & Hmax).
  apply Hn, list_elem_of_fmap in Hx as (t & -> & Ht). exists t. split; [done|]. split; [done|].
  intros t' Ht'. rewrite Forall_forall in Hr.
  assert (str_leb (JSON_BACKUP_PREFIX +:+ Datetime.isoformat_seconds t') (JSON_BACKUP_PREFIX +:+ Datetime.isoformat_seconds t) = true) as Hle.
  { apply Hmax, Hn, list_elem_of_fmap. eauto. }
  rewrite str_leb_app in Hle. apply Datetime.isoformat_leb in Hle; auto.
Qed.

(** As soon as storage holds a delta manifest, a restore with no name
    requested selects a delta, not a base backup: the names are not filtered
    by their prefix, and the prefix of deltas sorts after that of backups. *)
Theorem delta_shadows_backups (w w' : W) (ctx : StepsContext) (v : StepValue) (d : string) :
  st_inv (ops:=json) (w_json w) →
  is_Some (jlookup w (JSON_DELTA_PREFIX +:+ d)) →
  run_step (BackupNameStep json "") ctx w = (w', Ok v) →
  ∃ x, v = VName x ∧ startswith JSON_BACKUP_PREFIX x = false.
Proof.
  intros Hi Hd H. destruct (backup_name_run w w' ctx v Hi H) as (x & -> & _ & Hmax). exists x. split; [done|].
  specialize (Hmax _ Hd). destruct (startswith JSON_BACKUP_PREFIX x) eqn:E; [|done]. exfalso.
  assert (∃ y, x = "b" +:+ y) as [y ->].
  { destruct x as [|c x]; [done|]. unfold startswith, JSON_BACKUP_PREFIX in E. cbn [String.prefix] in E.
    destruct (ascii_dec "b"%char c) as [<-|]; [by exists x|done]. }
  vm_compute in Hmax. discriminate Hmax.
Qed.
End backup_name.

(** ** A cluster of one node that stores what it is asked for *)
#[local] Existing Instance identity_codec.
Definition example_json : StorageOps (gmap string BackupManifest) BackupManifest := FileStorage.json_ops (λ _, false).
Definition example_hex : StorageOps (gmap string string) string := FileStorage.hexdigest_ops.
Notation example_W := (world (gmap string BackupManifest) (gmap string string) unit).

Definition example_snapshot : SnapshotResult :=
  mkSnapshotResult "host" "az" (mkProgress 1 0 1 true) 0 None None 1 1 (Some [mkSnapshotHash "aa" 1]).

Definition store_hashes (hs : list SnapshotHash) (dir : gmap string string) : gmap string string :=
  foldl (λ d h, <[hash_hexdigest h +:+ ".dat" := "x"]> d) dir hs.

Definition example_request (node : CoordinatorNode) (path : Path) (req : NodeRequest) : M example_W Reply := λ w,
  match path with
  | PPath "metadata" => (w, Ok (Replied 200 (Some (BMetadata (mkMetadataResult "1" (feature_value <$> all_features))))))
  | PPath "snapshot" => (w, Ok (Replied 200 (Some (BStart 1 "s"))))
  | PPath "upload" =>
      if forallb (λ h, bool_decide (hash_hexdigest h ≠ "")) (hashes_of req) then
        (mkWorld (w_json w) (store_hashes (hashes_of req) (w_hex w)) (w_env w) (w_clock w) (w_op w) (w_shutting_down w),
         Ok (Replied 200 (Some (BStart 2 "u"))))
      else (w, Ok HttpFailure)
  | _ => (w, Ok HttpFailure)
  end.

Definition example_env : ClusterEnv example_W := {|
  env_request := example_request;
  env_poll url := mret (Some (if decide (url = "s") then BSnapshot example_snapshot
                              else BUpload (mkSnapshotUploadResult "host" "az" (mkProgress 1 0 1 true) 1 1)));
  env_now := mret 0;
  env_sleep _ := mret tt;
|}.

Definition stored (h : SnapshotHash) (dir : gmap string string) : Prop :=
  hash_hexdigest h ≠ "" ∧ is_Some (dir !! (hash_hexdigest h +:+ ".dat")).

Lemma store_hashes_keeps hs dir f : is_Some (dir !! f) → is_Some (store_hashes hs dir !! f).
Proof.
  unfold store_hashes. revert dir. induction hs as [|h hs IH]; intros dir H; [done|]. simpl. apply IH.
  destruct (decide (hash_hexdigest h +:+ ".dat" = f)) as [->|Hne].
  - rewrite lookup_insert_eq. eauto.
  - by rewrite lookup_insert_ne.
Qed.

Lemma store_hashes_stores hs dir h :
  h ∈ hs → is_Some (store_hashes hs dir !! (hash_hexdigest h +:+ ".dat")).
Proof.
  revert dir. induction hs as [|h' hs IH]; intros dir Hin; [by apply not_elem_of_nil in Hin|].
  apply elem_of_cons in Hin as [->|Hin]; [|by apply IH].
  change (is_Some (store_hashes hs (<[hash_hexdigest h' +:+ ".dat" := "x"]> dir) !! (hash_hexdigest h' +:+ ".dat"))).
  apply store_hashes_keeps. rewrite lookup_insert_eq. eauto.
Qed.

#[local] Program Instance example_contract :
  NodesContract example_json example_hex example_env None := {|
  started w url hs := ∀ h, h ∈ hs → stored h (w_hex w);
|}.
Next Obligation.
  intros node path req w. unfold example_env, env_request, example_request.
  assert (∀ r : res Reply, let w' := fst (w, r) in
    (st_inv (ops:=example_json) (w_json w) → st_inv (ops:=example_json) (w_json w')) ∧
    (st_inv (ops:=example_hex) (w_hex w) → st_inv (ops:=example_hex) (w_hex w')) ∧
    (∀ h, is_Some (st_lookup (ops:=example_hex) (w_hex w) h) → is_Some (st_lookup (ops:=example_hex) (w_hex w') h)) ∧
    (∀ (url : string) (hs : list SnapshotHash), (∀ h, h ∈ hs → stored h (w_hex w)) → ∀ h, h ∈ hs → stored h (w_hex w'))) as Hsame.
  { intros r. simpl. split; [done|]. split; [done|]. by split. }
  repeat case_match; try apply Hsame.
  split; [done|]. split; [by intros _ ? ? _|]. split.
  - intros h. simpl. case_decide; [done|]. apply store_hashes_keeps.
  - intros u hs Hs h Hin. destruct (Hs h Hin) as [Hne Hst]. split; [done|]. simpl. by apply store_hashes_keeps.
Qed.
Next Obligation. intros. split; [done|]. split; [done|]. by split. Qed.
Next Obligation. intros. split; [done|]. split; [done|]. by split. Qed.
Next Obligation. intros. split; [done|]. split; [done|]. by split. Qed.
Next Obligation. done. Qed.
Next Obligation.
  intros node req w w' status id url H _ h Hin. unfold example_env, env_request, example_request in H.
  destruct (forallb _ (hashes_of req)) eqn:E; [|done]. injection H as <- _ _ _.
  rewrite forallb_forall in E. split.
  - apply list_elem_of_In in Hin. specialize (E h Hin). by apply bool_decide_eq_true in E.
  - by apply store_hashes_stores.
Qed.
Next Obligation.
  intros url w w' hs r Hs H _ h Hin. injection H as <- _. destruct (Hs h Hin) as [Hne Hst]. simpl.
  by rewrite decide_False.
Qed.

Definition example_world : example_W := mkWorld ∅ ∅ tt (λ _, 1000000) Op.initial false.

Lemma backup_complete_witness :
  let r := try_run (files_get_backup_steps example_json example_hex example_env [mkCoordinatorNode "n" "az"]
             (mkPollConfig 1 2 60 10 5) 3 None "st" ["*"]) (mkStepsContext 1 0 []) example_world in
  ∃ ctx', snd r = Ok (ctx', true) ∧
  ∃ m, stored_manifest example_json (w_json (fst r)) "backup-1970-01-01T00:00:00+00:00" m ∧
    get_snapshots ctx' cls_SnapshotStep = Ok (bm_snapshot_results m) ∧ bm_start m = 0 ∧ bm_attempt m = 1 ∧
    ∀ h, h ∈ manifest_hexdigests m → is_Some (st_lookup (ops:=example_hex) (w_hex (fst r)) h).
Proof.
  intros r. destruct (snd r) as [[ctx' b]|e] eqn:E; [|vm_compute in E; discriminate E].
  assert (b = true) as -> by (vm_compute in E; injection E; congruence).
  exists ctx'. split; [reflexivity|].
  apply (backup_complete example_json example_hex example_env [mkCoordinatorNode "n" "az"]
    (mkPollConfig 1 2 60 10 5) 3 None "st" ["*"] 1 0 example_world (fst r) ctx').
  - by intros f b _.
  - by intros f b _.
  - done.
  - done.
  - change (r = (fst r, Ok (ctx', true))). rewrite <- E. apply surjective_pairing.
Defined.

(** Two backups, then a delta as well. *)
Definition names_world (names : list string) : example_W :=
  mkWorld (list_to_map ((λ n, (n +:+ ".json", mkBackupManifest 0 0 1 [] [] files_plugin "{}" "")) <$> names)) ∅ tt
    (λ _, 0) Op.initial false.

Lemma latest_backup_selected_witness :
  let w := names_world ["backup-1970-01-01T00:00:01+00:00"; "backup-1970-01-01T00:00:00+00:00"] in
  ∃ t, t ∈ [0; 1000000] ∧ VName "backup-1970-01-01T00:00:01+00:00" = VName (JSON_BACKUP_PREFIX +:+ Datetime.isoformat_seconds t) ∧
    ∀ t', t' ∈ [0; 1000000] → t' / 1000000 ≤ t / 1000000.
Proof.
  intros w. apply (latest_backup_selected (SH:=gmap string string) (SE:=unit) example_json w w (mkStepsContext 1 0 [])
    (VName "backup-1970-01-01T00:00:01+00:00") [0; 1000000]).
  - by intros f b _.
  - repeat constructor; vm_compute; discriminate.
  - intros n. split.
    + intros [b Hb]. simpl in Hb. case_decide as Hn; [done|].
      apply lookup_insert_Some in Hb as [[Hb _]|[_ Hb]];
        [apply FileStorage.to_path_inj in Hb; [|reflexivity]; subst; right; by left|].
      apply lookup_insert_Some in Hb as [[Hb _]|[_ Hb]];
        [apply FileStorage.to_path_inj in Hb; [|reflexivity]; subst; by left|]. by rewrite lookup_empty in Hb.
    + intros [->|Hn]%elem_of_cons; [by eexists|]. apply list_elem_of_singleton in Hn as ->. by eexists.
  - vm_compute. reflexivity.
Defined.

Lemma delta_shadows_backups_witness :
  let w := names_world ["backup-1970-01-01T00:00:01+00:00"; "delta-1970-01-01T00:00:00+00:00"] in
  ∃ x, VName "delta-1970-01-01T00:00:00+00:00" = VName x ∧ startswith JSON_BACKUP_PREFIX x = false.
Proof.
  intros w. apply (delta_shadows_backups (SH:=gmap string string) (SE:=unit) example_json w w (mkStepsContext 1 0 [])
    (VName "delta-1970-01-01T00:00:00+00:00") "1970-01-01T00:00:00+00:00").
  - by intros f b _.
  - by eexists.
  - vm_compute. reflexivity.
Defined.
End BackupRestore.
