(* ===== verification/FileSystem.v ===== *)
(** * The file system of a node

    Files down to inodes, because a link shares the contents of the file it was
    made from; entries are named by their path relative to the root of their
    tree, which always exists, with [/] between its components.  What the
    standard library does to a tree of names: creating directories, unlinking.
    Links to directories are left out, and so are the sizes and times of
    directories, and permissions. *)

From stdpp Require Import base gmap strings list sorting.
From Stdlib Require Import ZArith Lia Ascii Strings.Byte.
From S2P Require Import Prelude.

Local Open Scope Z_scope.

Module FileSystem.

Record inode : Type := mkInode {
  data : list byte;
  mtime : Z;
}.

(** A symbolic link is resolved to the inode of a file unless it dangles. *)
Inductive entry : Type :=
| Regular (ino : nat)
| Symlink (target : option nat)
| Directory.
#[global] Instance entry_eq_dec : EqDecision entry. Proof. solve_decision. Defined.

Notation tree := (gmap string entry).

Record fs : Type := mkFs {
  inodes : gmap nat inode;
  src : tree;
  dst : tree;
}.

Definition with_src (f : tree → tree) (s : fs) : fs := mkFs (inodes s) (f (src s)) (dst s).
Definition with_dst (f : tree → tree) (s : fs) : fs := mkFs (inodes s) (src s) (f (dst s)).

(** Following an entry to a file. *)
Definition target (e : entry) : option nat :=
  match e with Regular i => Some i | Symlink t => t | Directory => None end.

Definition resolve (s : fs) (t : tree) (p : string) : option inode :=
  e ← t !! p; i ← target e; inodes s !! i.

(** ** Directories

    The paths of the directories a path is in, from the top. *)
Definition ancestors (p : string) : list string :=
  (λ n, join_on "/"%char (take n (split_on "/"%char p))) <$> seq 1 (length (split_on "/"%char p) - 1).

(** Nothing can be in a file, or in a link to one. *)
Definition blocks (e : option entry) : bool :=
  match e with Some (Regular _) | Some (Symlink (Some _)) => true | _ => false end.

(** The error of looking up a path that is not there. *)
Definition missing_error (t : tree) (p : string) : exn :=
  if existsb (λ q, blocks (t !! q)) (ancestors p) then NotADirectoryError else FileNotFoundError.

(** [open] for reading *)
Definition open_path (s : fs) (t : tree) (p : string) : res inode :=
  match t !! p with
  | None => Raise (missing_error t p)
  | Some Directory => Raise IsADirectoryError
  | Some e => match target e ≫= (inodes s !!.) with Some n => Ok n | None => Raise FileNotFoundError end
  end.

(** One after the other, each in the previous one. *)
Fixpoint make_dirs (l : list string) : M tree unit := λ t,
  match l with
  | [] => (t, Ok tt)
  | q :: l' =>
      match t !! q with
      | Some Directory => make_dirs l' t
      | None => make_dirs l' (<[q := Directory]> t)
      | Some (Symlink None) => (t, Raise FileExistsError)
      | Some _ => (t, Raise (match l' with [] => FileExistsError | _ => NotADirectoryError end))
      end
  end.
(** [path.mkdir(parents=True, exist_ok=True)], and [path.parent.mkdir(...)] *)
Definition mkdir (p : string) : M tree unit := make_dirs (ancestors p ++ [p]).
Definition mkdir_parent (p : string) : M tree unit := make_dirs (ancestors p).

(** [path.unlink(missing_ok=True)] *)
Definition unlink (p : string) : M tree unit := λ t,
  match t !! p with
  | Some Directory => (t, Raise IsADirectoryError)
  | Some _ => (delete p t, Ok tt)
  | None => match missing_error t p with FileNotFoundError => (t, Ok tt) | e => (t, Raise e) end
  end.

(** [os.link] of [e], in a directory that must be there. *)
Definition link (p : string) (e : entry) : M tree unit := λ t,
  if forallb (λ q, bool_decide (t !! q = Some Directory)) (ancestors p) then
    match t !! p, e with
    | Some _, _ => (t, Raise FileExistsError)
    | None, Directory => (t, Raise PermissionError)
    | None, _ => (<[p := e]> t, Ok tt)
    end
  else (t, Raise (missing_error t p)).

(** Entries are in directories. *)
Definition tree_wf (t : tree) : Prop :=
  ∀ p q, is_Some (t !! p) → q ∈ ancestors p → t !! q = Some Directory.

(** ** Facts of paths *)
Local Notation parts p := (split_on "/"%char p).

Lemma parts_join (n : nat) p : (0 < n)%nat → parts (join_on "/"%char (take n (parts p))) = take n (parts p).
Proof.
  intros Hn. apply split_on_join.
  - pose proof (split_on_nonempty "/"%char p). destruct (parts p); [done|]. destruct n; [lia|done].
  - apply forallb_forall. intros x Hx. pose proof (split_on_parts "/"%char p) as Hf. rewrite Forall_forall in Hf. apply Hf.
    apply list_elem_of_In in Hx. by eapply elem_of_take in Hx as (i & Hx & _); eapply list_elem_of_lookup_2.
Qed.

Lemma elem_of_ancestors p q :
  q ∈ ancestors p ↔ ∃ n, (0 < n < length (parts p))%nat ∧ q = join_on "/"%char (take n (parts p)).
Proof.
  unfold ancestors. rewrite list_elem_of_fmap. split.
  - intros (n & -> & [H1 H2]%elem_of_seq). exists n. split; [lia|done].
  - intros (n & Hn & ->). exists n. split; [done|]. apply elem_of_seq. lia.
Qed.

Lemma ancestors_shorter p q : q ∈ ancestors p → (length (parts q) < length (parts p))%nat.
Proof. intros (n & Hn & ->)%elem_of_ancestors. rewrite parts_join by lia. rewrite length_take. lia. Qed.
Lemma ancestors_irrefl p : p ∉ ancestors p.
Proof. intros H%ancestors_shorter. lia. Qed.

Lemma ancestors_trans p q r : q ∈ ancestors p → r ∈ ancestors q → r ∈ ancestors p.
Proof.
  intros (n & Hn & ->)%elem_of_ancestors (m & Hm & ->)%elem_of_ancestors. rewrite parts_join in Hm |- * by lia.
  rewrite length_take in Hm. rewrite take_take, Nat.min_l by lia. apply elem_of_ancestors. exists m. split; [lia|done].
Qed.

(** The last one is the parent. *)
Lemma ancestors_parent p : ancestors p = [] ∨ ∃ d, ancestors p = ancestors d ++ [d] ∧ parts d = removelast (parts p).
Proof.
  destruct (length (parts p)) as [|[|n]] eqn:E.
  - left. unfold ancestors. by rewrite E.
  - left. unfold ancestors. by rewrite E.
  - right. exists (join_on "/"%char (take (S n) (parts p))).
    assert (parts (join_on "/"%char (take (S n) (parts p))) = take (S n) (parts p)) as Hd by (apply parts_join; lia).
    split; [|rewrite Hd, removelast_firstn_len, E; done]. unfold ancestors. rewrite Hd, length_take, E.
    replace (S (S n) - 1)%nat with (n + 1)%nat by lia. replace (S n `min` S (S n) - 1)%nat with n by lia.
    rewrite seq_app, fmap_app. f_equal. apply list_fmap_ext. intros i x Hx%lookup_seq. f_equal. rewrite take_take. f_equal. lia.
Qed.

(** ** Facts of trees *)
Lemma missing_not_blocked t p : (∀ q, q ∈ ancestors p → blocks (t !! q) = false) → missing_error t p = FileNotFoundError.
Proof.
  intros H. unfold missing_error. destruct (existsb _ _) eqn:E; [|done]. apply existsb_exists in E as (q & Hq%list_elem_of_In & Hb).
  by rewrite H in Hb.
Qed.

Lemma open_resolve s t p n : resolve s t p = Some n → open_path s t p = Ok n.
Proof.
  unfold resolve, open_path. destruct (t !! p) as [e|]; [|done]. simpl. intros H. destruct e as [i|o|]; simpl in *; [| |done].
  - by rewrite H.
  - by rewrite H.
Qed.

(** A place for a directory. *)
Definition roomy (e : option entry) : Prop := e = None ∨ e = Some Directory.
Lemma roomy_blocks e : roomy e → blocks e = false.
Proof. by intros [->| ->]. Qed.

Definition dirs_made (l : list string) (t t' : tree) : Prop :=
  ∀ x, t' !! x = if decide (x ∈ l) then Some Directory else t !! x.

Lemma make_dirs_run l t :
  (∀ q, q ∈ l → roomy (t !! q)) → ∃ t', make_dirs l t = (t', Ok tt) ∧ dirs_made l t t'.
Proof.
  revert t. induction l as [|q l IH]; intros t Hl; [by exists t|].
  assert (∀ t1, (∀ x, t1 !! x = if decide (x = q) then Some Directory else t !! x) →
    ∃ t', make_dirs l t1 = (t', Ok tt) ∧ dirs_made (q :: l) t t') as Hgo.
  { intros t1 Ht1. destruct (IH t1) as (t' & Hrun & Hm).
    - intros x Hx. rewrite Ht1. case_decide; [by right|]. apply Hl. by right.
    - exists t'. split; [done|]. intros x. rewrite Hm, Ht1. destruct (decide (x ∈ l)) as [Hx|Hx]; [by rewrite decide_True by by right|].
      destruct (decide (x = q)) as [->|Hq]; [by rewrite decide_True by left|]. by rewrite decide_False by by apply not_elem_of_cons. }
  cbn [make_dirs]. destruct (Hl q) as [E|E]; [by left|rewrite E..]; apply Hgo; intros x; (case_decide as Hx; [subst x|]).
  - apply lookup_insert_eq.
  - by rewrite lookup_insert_ne by done.
  - done.
  - done.
Qed.

Lemma unlink_run p t :
  t !! p ≠ Some Directory → (∀ q, q ∈ ancestors p → blocks (t !! q) = false) → unlink p t = (delete p t, Ok tt).
Proof.
  intros Hp Ha. unfold unlink. destruct (t !! p) as [[]|] eqn:E; [done..|].
  rewrite missing_not_blocked by done. by rewrite delete_id.
Qed.

Lemma link_run p e t :
  (∀ q, q ∈ ancestors p → t !! q = Some Directory) → t !! p = None → e ≠ Directory → link p e t = (<[p := e]> t, Ok tt).
Proof.
  intros Ha Hp He. unfold link. assert (forallb (λ q, bool_decide (t !! q = Some Directory)) (ancestors p) = true) as ->.
  - apply forallb_forall. intros q Hq%list_elem_of_In. by apply bool_decide_eq_true, Ha.
  - rewrite Hp. by destruct e.
Qed.

Lemma mkdir_all_run l t :
  (∀ q x, q ∈ l → x ∈ ancestors q ++ [q] → roomy (t !! x)) →
  ∃ t', for_each l mkdir t = (t', Ok tt) ∧ dirs_made (l ≫= λ q, ancestors q ++ [q]) t t'.
Proof.
  revert t. induction l as [|q l IH]; intros t Hl; [by exists t|].
  destruct (make_dirs_run (ancestors q ++ [q]) t) as (t1 & Hrun & H1); [intros x; apply Hl; by left|].
  destruct (IH t1) as (t2 & Hrun2 & H2).
  { intros q' x Hq' Hx. rewrite H1. case_decide; [by right|]. apply (Hl q'); [by right|done]. }
  exists t2. split; [cbn [for_each]; by rewrite (bind_ok _ _ _ _ _ Hrun)|]. intros x. rewrite H2, H1. csimpl.
  destruct (decide (x ∈ l ≫= _)) as [Hx|Hx]; [by rewrite decide_True by (apply elem_of_app; by right)|].
  destruct (decide (x ∈ ancestors q ++ [q])) as [Hq|Hq]; [by rewrite decide_True by (apply elem_of_app; by left)|].
  rewrite decide_False; [done|]. by intros [?|?]%elem_of_app.
Qed.

Lemma unlink_all_run l t :
  (∀ p, p ∈ l → t !! p ≠ Some Directory ∧ ∀ q, q ∈ ancestors p → blocks (t !! q) = false) →
  ∃ t', for_each l unlink t = (t', Ok tt) ∧ ∀ x, t' !! x = if decide (x ∈ l) then None else t !! x.
Proof.
  revert t. induction l as [|p l IH]; intros t Hl; [by exists t|].
  destruct (Hl p) as [Hp Ha]; [by left|].
  assert (∀ x, delete p t !! x = if decide (x = p) then None else t !! x) as H1.
  { intros x. case_decide as Hx; [subst; apply lookup_delete_eq|by apply lookup_delete_ne]. }
  destruct (IH (delete p t)) as (t2 & Hrun2 & H2).
  { intros q Hq. destruct (Hl q) as [Hq1 Hq2]; [by right|]. split; [rewrite H1; by case_decide|].
    intros x Hx. rewrite H1. case_decide; [done|]. by apply Hq2. }
  exists t2. split; [cbn [for_each]; by rewrite (bind_ok _ _ _ _ _ (unlink_run p t Hp Ha))|]. intros x. rewrite H2, H1.
  destruct (decide (x ∈ l)) as [Hx|Hx]; [by rewrite decide_True by by right|].
  destruct (decide (x = p)) as [->|Hq]; [by rewrite decide_True by left|]. by rewrite decide_False by by apply not_elem_of_cons.
Qed.

Lemma dirs_made_wf p t t' : tree_wf t → dirs_made (ancestors p) t t' → (∀ q, q ∈ ancestors p → roomy (t !! q)) → tree_wf t'.
Proof.
  intros Hwf Hm Hr x y Hx Hy. rewrite Hm in Hx |- *. destruct (decide (y ∈ _)) as [|Hy']; [done|].
  destruct (decide (x ∈ _)) as [Hx'|]; [destruct Hy'; by apply (ancestors_trans p x)|by apply (Hwf x)].
Qed.

(** A new entry in a directory, where there is no directory. *)
Lemma insert_wf p e t :
  tree_wf t → (∀ q, q ∈ ancestors p → t !! q = Some Directory) → t !! p ≠ Some Directory → tree_wf (<[p := e]> t).
Proof.
  intros Hwf Ha Hp x y Hx Hy. assert (y ≠ p) as Hne.
  { intros ->. destruct (decide (x = p)) as [->|Hxp]; [by apply (ancestors_irrefl p)|]. rewrite lookup_insert_ne in Hx by done.
    by apply Hp, (Hwf x). }
  rewrite lookup_insert_ne by done. destruct (decide (x = p)) as [->|Hxp]; [by apply Ha|].
  rewrite lookup_insert_ne in Hx by done. by apply (Hwf x).
Qed.

Lemma tree_wf_check t :
  forallb (λ pe, forallb (λ q, bool_decide (t !! q = Some Directory)) (ancestors pe.1)) (map_to_list t) = true → tree_wf t.
Proof.
  intros H p q [e Hp] Hq. rewrite forallb_forall in H. specialize (H (p, e)). rewrite forallb_forall in H.
  apply (bool_decide_eq_true (t !! q = Some Directory)), H; [|by apply list_elem_of_In].
  apply list_elem_of_In. by apply elem_of_map_to_list.
Qed.

(** Two files are not one below the other. *)
Lemma not_below t p q e : tree_wf t → t !! p = Some e → e ≠ Directory → is_Some (t !! q) → p ∉ ancestors q.
Proof. intros Hwf Hp He Hq Hin. rewrite (Hwf q p Hq Hin) in Hp. congruence. Qed.

(** ** What the standard library answers *)
Example ancestors_example : ancestors "a/b/c" = ["a"; "a/b"].
Proof. reflexivity. Qed.
Example mkdir_file : snd (mkdir "a/b" {["a" := Regular 0]}) = Raise NotADirectoryError ∧ snd (mkdir "a" {["a" := Regular 0]}) = Raise FileExistsError.
Proof. done. Qed.
Example link_missing : snd (link "a/b" (Regular 0) ∅) = Raise FileNotFoundError.
Proof. done. Qed.
Example unlink_directory : snd (unlink "a" {["a" := Directory]}) = Raise IsADirectoryError.
Proof. done. Qed.
End FileSystem.
