(* ===== verification/NodeSnapshot.v ===== *)
(** * Snapshots on a node ([node/snapshotter.py], [node/sqlite_snapshot.py],
      [node/snapshot.py], [node/snapshot_groups.py])

    A snapshot is a directory [dst] of hard links to the files of the database
    in [src], and a table of rows describing them.  When [dst] is below [src],
    as it is by default, [src] is modelled without it.  The walk sees the
    directories and files of one moment.  The database writes to its files
    while the snapshot runs: [n_interference] holds what it does to the file
    system before each access of the snapshotter, and is empty when it is
    quiescent. *)

From stdpp Require Import base gmap strings list sorting.
From Stdlib Require Import ZArith Lia Sorted Ascii Strings.Byte.
From S2P Require Import Prelude Progress Ipc Utils Base64 FileSystem.
Import FileSystem.

Local Open Scope Z_scope.

Definition ASTACUS_TMPDIR : string := ".astacus".

Module NodeSnapshot.

(** The rows of [snapshot_files], by their primary key. *)
Definition db : Type := gmap string SnapshotFile.

Record node : Type := mkNode {
  n_fs : fs;
  n_db : db;
  n_interference : list (fs → fs);
}.

Definition set_fs (s : fs) (w : node) : node := mkNode s (n_db w) (n_interference w).
Definition set_db (d : db) (w : node) : node := mkNode (n_fs w) d (n_interference w).

(** ** [SQLiteSnapshot]: the queries *)
Definition path_leb (a b : SnapshotFile) : bool := str_leb (relative_path a) (relative_path b).
Definition digest_leb (a b : SnapshotFile) : bool := str_leb (hexdigest a) (hexdigest b).

Definition rows (d : db) : list SnapshotFile := (map_to_list d).*2.
Definition snapshot_len (d : db) : Z := Z.of_nat (size d).
Definition get_file (d : db) (relative_path : string) : option SnapshotFile := d !! relative_path.
Definition get_files_for_digest (d : db) (h : string) : list SnapshotFile :=
  py_sorted path_leb (filter (λ f, hexdigest f = h) (rows d)).
Definition get_all_files (d : db) : list SnapshotFile := py_sorted path_leb (rows d).
Definition get_all_paths (d : db) : list string := relative_path <$> get_all_files d.
Definition get_total_size (d : db) : Z := foldr Z.add 0 (file_size <$> rows d).
Definition get_all_digests (d : db) : list SnapshotHash :=
  (λ f, mkSnapshotHash (hexdigest f) (file_size f)) <$>
    py_sorted digest_leb (filter (λ f, hexdigest f ≠ "") (rows d)).

Section snapshotter.
(** [glob_match] is the matching of [wcmatch] with [GLOBSTAR], [digest] the
    hexadecimal BLAKE2s digest; [same_root] says that [dst] is [src], and
    [src_parts] are the components of the absolute path of [src]. *)
Context (glob_match : string → string → bool) (digest : list byte → string)
  (same_root : bool) (src_parts : list string).

(** ** [CompiledGroups] *)
Definition matches (g : SnapshotGroup) (relative_path : string) : bool :=
  glob_match (root_glob g) relative_path &&
  bool_decide (rpartition_last "/"%char relative_path ∉ excluded_names g).
Definition get_matching (groups : list SnapshotGroup) (relative_path : string) : list SnapshotGroup :=
  filter (λ g, matches g relative_path = true) groups.
Definition any_match (groups : list SnapshotGroup) (relative_path : string) : bool :=
  existsb (λ g, matches g relative_path) groups.
Definition groups_root_globs (groups : list SnapshotGroup) : list string := root_glob <$> groups.

(** [_same_root_mode]: paths of [dst] are looked up in [src]. *)
Definition dst_tree (s : fs) : gmap string entry := if same_root then src s else dst s.
Definition set_dst (t : tree) (w : node) : node :=
  set_fs (if same_root then with_src (λ _, t) (n_fs w) else with_dst (λ _, t) (n_fs w)) w.
Definition on_dst {A} (m : M tree A) : M node A := zoom (λ w, dst_tree (n_fs w)) set_dst m.

(** What the database does before the next access. *)
Definition tick : M node unit := λ w,
  match n_interference w with
  | [] => (w, Ok tt)
  | f :: l => (mkNode (f (n_fs w)) (n_db w) l, Ok tt)
  end.

Section groups.
Context (groups : list SnapshotGroup).

(** [_file_in_src]; what [stat] says of a directory is not kept track of. *)
Definition file_in_src (p : string) : M node SnapshotFile :=
  tick ;;
  w ← get;
  match src (n_fs w) !! p with
  | Some Directory => mret (mkSnapshotFile p 0 0 "" None)
  | _ =>
      n ← lift_res (open_path (n_fs w) (src (n_fs w)) p);
      mret (mkSnapshotFile p (Z.of_nat (length (data n))) (mtime n) "" None)
  end.

(** [SnapshotFile.open_for_reading] on [dst] *)
Definition open_for_reading (f : SnapshotFile) : M node (SizeLimitedFile.t (Byte:=byte)) :=
  tick ;;
  w ← get;
  n ← lift_res (open_path (n_fs w) (dst_tree (n_fs w)) (relative_path f));
  mret (SizeLimitedFile.mk (data n) 0 (file_size f)).

(** [hash_hexdigest_readable]: the digest of the concatenated chunks. *)
Definition read_buffer : Z := 1000000.
Definition hash_hexdigest_readable (f : SizeLimitedFile.t (Byte:=byte)) : option string :=
  digest <$> SizeLimitedFile.read_all (S (length (SizeLimitedFile.limited f))) read_buffer f.

(** [_embedded_file_size_max_for_file] *)
Definition embedded_file_size_max_for_file (p : string) : res (option Z) :=
  match get_matching groups p with
  | [] => Raise AssertionError
  | head :: tail =>
      if forallb (λ g, bool_decide (embedded_file_size_max g = embedded_file_size_max head)) tail
      then Ok (embedded_file_size_max head) else Raise ValueError
  end.

(** The callback of [_compute_digests]. *)
Definition compute_digest (f : SnapshotFile) : M node SnapshotFile :=
  h ← open_for_reading f;
  limit ← lift_res (embedded_file_size_max_for_file (relative_path f));
  if match limit with None => true | Some m => file_size f <=? m end then
    match content_b64 f with
    | None => mret (mkSnapshotFile (relative_path f) (file_size f) (mtime_ns f) (hexdigest f)
                      (Some (Base64.b64encode (fst (SizeLimitedFile.read h None)))))
    | Some _ => mret f
    end
  else if decide (hexdigest f = "") then
    match hash_hexdigest_readable h with
    | Some x => mret (mkSnapshotFile (relative_path f) (file_size f) (mtime_ns f) x (content_b64 f))
    | None => raise OutOfFuel
    end
  else mret f.

(** [_maybe_link] *)
Definition maybe_link (p : string) : M node unit :=
  if same_root then mret tt
  else
    on_dst (unlink p) ;;
    tick ;;
    w ← get;
    match src (n_fs w) !! p with
    | Some e => on_dst (link p e)
    | None => raise (missing_error (src (n_fs w)) p)
    end.

(** The walk of [_list_files_and_create_directories]: the directories above a
    file's directory must not be [ASTACUS_TMPDIR]. *)
Definition skipped (dir : list string) : bool := bool_decide (ASTACUS_TMPDIR ∈ removelast (src_parts ++ dir)).
Definition below_tmpdir (p : string) : bool := skipped (removelast (split_on "/"%char p)).
Definition is_regular (e : entry) : bool := match e with Regular _ => true | _ => false end.
Definition listed (p : string) (e : entry) : bool :=
  negb (below_tmpdir p) && is_regular e && any_match groups p.
Definition walked (s : fs) : list string :=
  py_sorted str_leb (filter (λ q, skipped (split_on "/"%char q) = false)
    (fst <$> filter (λ pe, pe.2 = Directory) (map_to_list (src s)))).
Definition list_files : M node (list string) :=
  tick ;;
  w ← get;
  for_each (walked (n_fs w)) (λ q, on_dst (mkdir q)) ;;
  mret (fst <$> filter (λ pe, listed pe.1 pe.2 = true) (map_to_list (src (n_fs w)))).

(** [_compare_current_snapshot]: rows without a file go, with their links;
    the rows that stay come first, then the files without a row. *)
Definition compare_current_snapshot (files : list string) : M node (list (string * option SnapshotFile)) :=
  w ← get;
  let removed := filter (λ p, p ∉ files) (map_to_list (n_db w)).*1 in
  let d := filter (λ pf : string * SnapshotFile, pf.1 ∈ files) (n_db w) in
  put (set_db d w) ;;
  (if same_root then mret tt else for_each removed (λ p, on_dst (unlink p))) ;;
  mret (((λ pf, (pf.1, Some pf.2)) <$> map_to_list d) ++
        ((λ p, (p, None)) <$> filter (λ p, d !! p = None) files)).

(** One file of [_compare_with_src]: what it yields, if anything. *)
Definition compare_with_src (x : string * option SnapshotFile) : M node (option SnapshotFile) :=
  try_except
    (new ← file_in_src x.1;
     if match x.2 with None => true | Some e => negb (underlying_file_is_the_same e new) end then
       maybe_link x.1 ;; mret (Some new)
     else mret None)
    (λ e, bool_decide (e = FileNotFoundError))
    (λ _, mret None).

(** [_upsert_files] *)
Definition upsert_files (files : list SnapshotFile) : M node unit :=
  modify (λ w, set_db (foldl (λ d f, <[relative_path f := f]> d) (n_db w) files) w).

(** [perform_snapshot]: the rows change in one transaction, the links do not. *)
Definition transaction {A} (m : M node A) : M node A := λ w,
  match m w with
  | (w', Raise e) => (set_db (n_db w) w', Raise e)
  | r => r
  end.

Definition perform_snapshot : M node unit :=
  transaction (
    files ← list_files;
    new_or_existing ← compare_current_snapshot files;
    for_upsert ← collect new_or_existing compare_with_src;
    with_digests ← collect (omap id for_upsert) compute_digest;
    upsert_files with_digests).

(** [get_snapshot_state] *)
Definition get_snapshot_state (w : node) : SnapshotState :=
  mkSnapshotState (groups_root_globs groups) (get_all_files (n_db w)).
End groups.

(** [release]: the links of the files with one of the digests go, their rows
    stay. *)
Definition release (hexdigests : list string) : M node unit :=
  transaction (
    w ← get;
    let paths := fst <$> filter (λ pf : string * SnapshotFile, hexdigest pf.2 ∈ filter (λ h, h ≠ "") hexdigests)
                           (map_to_list (n_db w)) in
    for_each paths (λ p, on_dst (unlink p))).

(** ** Faithful snapshots *)

(** A row holds the contents of a file: embedded, or by their digest. *)
Definition encodes (f : SnapshotFile) (d : list byte) : Prop :=
  (hexdigest f = "" ∧ content_b64 f = Some (Base64.b64encode d)) ∨
  (hexdigest f = digest d ∧ content_b64 f = None).

Definition describes (f : SnapshotFile) (p : string) (n : inode) : Prop :=
  relative_path f = p ∧ file_size f = Z.of_nat (length (data n)) ∧ mtime_ns f = mtime n ∧ encodes f (data n).

Definition linked (s : fs) (p : string) (n : inode) : Prop :=
  ∃ n', resolve s (dst_tree s) p = Some n' ∧ data n' = data n.

(** What holds between two snapshots: as long as a file keeps the size and
    modification time of its row, the row describes it and its link holds its
    contents. *)
Definition honest (w : node) : Prop :=
  ∀ p f, n_db w !! p = Some f → relative_path f = p ∧
    ∀ n, resolve (n_fs w) (src (n_fs w)) p = Some n →
      file_size f = Z.of_nat (length (data n)) → mtime_ns f = mtime n →
      encodes f (data n) ∧ linked (n_fs w) p n.

(** Names refer to existing inodes, and are in directories. *)
Definition fs_wf (s : fs) : Prop :=
  (∀ p i, src s !! p = Some (Regular i) → is_Some (inodes s !! i)) ∧ tree_wf (src s).

Definition in_groups (groups : list SnapshotGroup) (s : fs) (p : string) : Prop :=
  ∃ e, src s !! p = Some e ∧ listed groups p e = true.

(** The links have room: no path that is a directory now was linked as a file,
    or has a row, and no path that is a file now is a directory in [dst]; and
    the links of the rows are in no other link. *)
Definition fits (groups : list SnapshotGroup) (w : node) : Prop :=
  same_root = true ∨
  (∀ q, src (n_fs w) !! q = Some Directory → roomy (dst (n_fs w) !! q)) ∧
  (∀ p, in_groups groups (n_fs w) p → dst (n_fs w) !! p ≠ Some Directory) ∧
  ∀ p, is_Some (n_db w !! p) → src (n_fs w) !! p ≠ Some Directory ∧ dst (n_fs w) !! p ≠ Some Directory ∧
    ∀ q, q ∈ ancestors p → blocks (dst (n_fs w) !! q) = false.

(** The groups of a path agree on the size limit of embedded files. *)
Definition groups_agree (groups : list SnapshotGroup) (p : string) : Prop :=
  ∃ m, embedded_file_size_max_for_file groups p = Ok m.

Section faithful.
Context (groups : list SnapshotGroup).

Lemma in_groups_regular s p : in_groups groups s p → ∃ i, src s !! p = Some (Regular i).
Proof. intros (e & He & [[_ Hl]%andb_prop _]%andb_prop). destruct e as [i| |]; [by exists i|done..]. Qed.

Lemma in_groups_resolve s p : fs_wf s → in_groups groups s p → ∃ i n, src s !! p = Some (Regular i) ∧ inodes s !! i = Some n ∧ resolve s (src s) p = Some n.
Proof.
  intros [Hwf _] [i He]%in_groups_regular. destruct (Hwf _ _ He) as [n Hn]. exists i, n. split; [done|]. split; [done|].
  unfold resolve. rewrite He. simpl. done.
Qed.

(** The directories above a listed file are directories of the source. *)
Lemma in_groups_above s p q : fs_wf s → in_groups groups s p → q ∈ ancestors p → src s !! q = Some Directory.
Proof. intros [_ Hwf] [i Hi]%in_groups_regular. by apply Hwf; rewrite Hi. Qed.

(** Accesses to names of the snapshot. *)
Lemma on_dst_run {A} (m : M tree A) w t r : m (dst_tree (n_fs w)) = (t, r) → on_dst m w = (set_dst t w, r).
Proof. intros H. unfold on_dst, zoom. by rewrite H. Qed.
Lemma set_dst_same w : set_dst (dst_tree (n_fs w)) w = w.
Proof. unfold set_dst, dst_tree, with_src, with_dst. destruct w as [[]]. by destruct same_root. Qed.
Lemma dst_tree_set t w : dst_tree (n_fs (set_dst t w)) = t.
Proof. unfold set_dst, dst_tree. by destruct same_root. Qed.
Lemma set_dst_set t t' w : set_dst t' (set_dst t w) = set_dst t' w.
Proof. unfold set_dst, with_src, with_dst. by destruct same_root. Qed.
Lemma for_each_on_dst {X} (l : list X) (m : X → M tree unit) w t r :
  for_each l m (dst_tree (n_fs w)) = (t, r) → for_each l (λ x, on_dst (m x)) w = (set_dst t w, r).
Proof.
  revert w. induction l as [|x l IH]; intros w; cbn [for_each].
  - intros [= <- <-]. by rewrite set_dst_same.
  - destruct (m x (dst_tree (n_fs w))) as [t1 [[]|e]] eqn:E.
    + rewrite (bind_ok _ _ _ _ _ E), (bind_ok _ _ _ _ _ (on_dst_run _ _ _ _ E)). intros H.
      rewrite (IH (set_dst t1 w)); [by rewrite set_dst_set|]. by rewrite dst_tree_set.
    + rewrite (bind_raise _ _ _ _ _ E), (bind_raise _ _ _ _ _ (on_dst_run _ _ _ _ E)). by intros [= <- <-].
Qed.

Lemma elem_of_walked s q : q ∈ walked s ↔ src s !! q = Some Directory ∧ skipped (split_on "/"%char q) = false.
Proof.
  unfold walked. rewrite elem_of_py_sorted, list_elem_of_filter, list_elem_of_fmap. split.
  - intros [Hs ([q' e] & -> & [He Hin%elem_of_map_to_list]%list_elem_of_filter)]. simpl in *. by subst e.
  - intros [Hq Hs]. split; [done|]. exists (q, Directory). split; [done|]. apply list_elem_of_filter. split; [done|]. by apply elem_of_map_to_list.
Qed.

(** The directory of a listed file is walked, so it is made, and all above it. *)
Lemma listed_dirs_made s p q :
  fs_wf s → in_groups groups s p → q ∈ ancestors p → q ∈ walked s ≫= λ d, ancestors d ++ [d].
Proof.
  intros Hwf Hg Hq. destruct (ancestors_parent p) as [E|(d & E & Hd)]; [rewrite E in Hq; by apply not_elem_of_nil in Hq|].
  apply list_elem_of_bind. exists d. split; [by rewrite <- E|]. apply elem_of_walked. split.
  - apply (in_groups_above s p); [done..|]. rewrite E. apply elem_of_app. right. by left.
  - destruct Hg as (e & _ & Hl). apply andb_prop in Hl as [[Hb _]%andb_prop _]. apply negb_true_iff in Hb.
    unfold below_tmpdir in Hb. by rewrite Hd.
Qed.

(** What became of a name of the snapshot in the walk. *)
Definition walk_made (s : fs) (t : tree) : Prop := ∀ x,
  t !! x = dst_tree s !! x ∨ dst_tree s !! x = None ∧ t !! x = Some Directory ∧ src s !! x = Some Directory.

Lemma walk_made_src s t : same_root = true → walk_made s t → t = src s.
Proof.
  intros Hsr Hm. apply map_eq. intros x. destruct (Hm x) as [Hx|(Hx & _ & Hx2)]; unfold dst_tree in Hx; rewrite Hsr in Hx; [done|congruence].
Qed.

Lemma list_files_run w :
  n_interference w = [] → fs_wf (n_fs w) → fits groups w →
  ∃ files t, list_files groups w = (set_dst t w, Ok files) ∧ NoDup files ∧ (∀ p, p ∈ files ↔ in_groups groups (n_fs w) p) ∧
    walk_made (n_fs w) t ∧ ∀ p q, p ∈ files → q ∈ ancestors p → t !! q = Some Directory.
Proof.
  intros Hq Hwf Hfits.
  assert (∀ x, x ∈ walked (n_fs w) ≫= (λ d, ancestors d ++ [d]) → src (n_fs w) !! x = Some Directory ∧ roomy (dst_tree (n_fs w) !! x)) as Hroom.
  { intros x (d & Hx & [Hd _]%elem_of_walked)%list_elem_of_bind.
    assert (src (n_fs w) !! x = Some Directory) as Hsx.
    { apply elem_of_app in Hx as [Hx| ->%list_elem_of_singleton]; [|done]. apply (proj2 Hwf d); [by rewrite Hd|done]. }
    split; [done|]. unfold dst_tree. destruct Hfits as [->|(Hf & _)]; [by right|]. destruct same_root; [by right|by apply Hf]. }
  destruct (mkdir_all_run (walked (n_fs w)) (dst_tree (n_fs w))) as (t & Hrun & Hm).
  { intros q x Hwq Hx. apply Hroom, list_elem_of_bind. by exists q. }
  set (files := fst <$> filter (λ pe, listed groups pe.1 pe.2 = true) (map_to_list (src (n_fs w)))).
  assert (∀ p, p ∈ files ↔ in_groups groups (n_fs w) p) as Hfiles.
  { intros p. unfold files. rewrite list_elem_of_fmap. split.
    - intros ([p' e] & -> & Hin). apply list_elem_of_filter in Hin as [Hl Hin%elem_of_map_to_list]. by exists e.
    - intros (e & He & Hl). exists (p, e). split; [done|]. apply list_elem_of_filter. split; [done|].
      by apply elem_of_map_to_list. }
  exists files, t. split; [|split; [|split; [done|split]]].
  - unfold list_files. rewrite (bind_ok tick _ w w tt); [|unfold tick; by rewrite Hq].
    rewrite (bind_ok get _ w w w) by done. by rewrite (bind_ok _ _ _ _ _ (for_each_on_dst _ _ _ _ _ Hrun)).
  - eapply sublist_NoDup; [apply (NoDup_fst_map_to_list (src (n_fs w)))|]. apply fmap_sublist, sublist_filter.
  - intros x. rewrite Hm. case_decide as Hx; [|by left]. destruct (Hroom x Hx) as [Hs [Hn|Hn]]; [by right|by left].
  - intros p q Hp%Hfiles Hin. rewrite Hm, decide_True; [done|]. by apply (listed_dirs_made _ p).
Qed.

(** What [stat] says of a path. *)
Definition fresh_row (p : string) (n : inode) : SnapshotFile :=
  mkSnapshotFile p (Z.of_nat (length (data n))) (mtime n) "" None.

Lemma file_in_src_run w p n :
  n_interference w = [] → resolve (n_fs w) (src (n_fs w)) p = Some n →
  file_in_src p w = (w, Ok (fresh_row p n)).
Proof.
  intros Hq Hn. unfold file_in_src. rewrite (bind_ok tick _ w w tt); [|unfold tick; by rewrite Hq].
  rewrite (bind_ok get _ w w w) by done. rewrite (open_resolve _ _ _ _ Hn).
  unfold resolve in Hn. by destruct (src (n_fs w) !! p) as [[]|].
Qed.

(** A link can be made under a name of the snapshot. *)
Definition linkable (t : tree) (p : string) : Prop :=
  t !! p ≠ Some Directory ∧ ∀ q, q ∈ ancestors p → t !! q = Some Directory.

Lemma maybe_link_run w p e :
  n_interference w = [] → src (n_fs w) !! p = Some e → e ≠ Directory → (same_root = false → linkable (dst (n_fs w)) p) →
  maybe_link p w = (if same_root then w else set_fs (with_dst <[p := e]> (n_fs w)) w, Ok tt).
Proof.
  intros Hq He Hne Hl. unfold maybe_link. unfold on_dst, set_dst, dst_tree. destruct same_root; [done|]. cbn iota.
  destruct (Hl eq_refl) as [Hp Ha].
  assert (∀ w1 t r m, m (dst (n_fs w1)) = (t, r) →
    zoom (λ w, dst (n_fs w)) (λ t w, set_fs (with_dst (λ _, t) (n_fs w)) w) m w1 = (set_fs (with_dst (λ _, t) (n_fs w1)) w1, r : res unit)) as Hz.
  { intros w1 t r m Hm. unfold zoom. by rewrite Hm. }
  rewrite (bind_ok _ _ _ _ tt (Hz w _ _ _ (unlink_run p _ Hp ltac:(intros q Hin; by rewrite Ha)))).
  set (w1 := set_fs (with_dst _ _) w). rewrite (bind_ok tick _ w1 w1 tt); [|unfold tick; simpl; by rewrite Hq].
  rewrite (bind_ok get _ w1 w1 w1) by done. subst w1. simpl. rewrite He.
  rewrite (Hz (set_fs (with_dst (λ _, delete p (dst (n_fs w))) (n_fs w)) w) _ _ _ (link_run p e (delete p (dst (n_fs w))) ltac:(intros q Hin; rewrite lookup_delete_ne; [by apply Ha|intros ->; by apply (ancestors_irrefl q)]) (lookup_delete_eq _ _) Hne)).
  unfold set_fs, with_dst. simpl. by rewrite insert_delete_eq.
Qed.

(** Whether a file needs a new link and a new row. *)
Definition outdated (x : string * option SnapshotFile) (n : inode) : bool :=
  match x.2 with None => true | Some e => negb (underlying_file_is_the_same e (fresh_row x.1 n)) end.

Lemma compare_with_src_run w x i n :
  n_interference w = [] → src (n_fs w) !! x.1 = Some (Regular i) → inodes (n_fs w) !! i = Some n →
  (same_root = false → linkable (dst (n_fs w)) x.1) →
  compare_with_src x w =
    if outdated x n then
      (if same_root then w else set_fs (with_dst <[x.1 := Regular i]> (n_fs w)) w, Ok (Some (fresh_row x.1 n)))
    else (w, Ok None).
Proof.
  intros Hq He Hn Hl. unfold compare_with_src, try_except.
  erewrite bind_ok; [|by apply file_in_src_run; [done|]; unfold resolve; rewrite He; simpl; exact Hn].
  change (match x.2 with Some e => negb (underlying_file_is_the_same e (fresh_row x.1 n)) | None => true end) with (outdated x n).
  destruct (outdated x n); [|done]. by erewrite bind_ok by (by apply (maybe_link_run _ _ (Regular i))).
Qed.

(** The row to write for a file, if any, and the links after a pass. *)
Definition update (s : fs) (x : string * option SnapshotFile) : option SnapshotFile :=
  n ← resolve s (src s) x.1; if outdated x n then Some (fresh_row x.1 n) else None.
Definition relink (s : fs) (d : gmap string entry) (x : string * option SnapshotFile) : gmap string entry :=
  if same_root then d
  else match update s x, src s !! x.1 with Some _, Some e => <[x.1 := e]> d | _, _ => d end.

(** A file that was linked is in the way of no other. *)
Lemma relink_linkable s d x y :
  tree_wf (src s) → (∃ i, src s !! x.1 = Some (Regular i)) → is_Some (src s !! y) → linkable d y → linkable (relink s d x) y.
Proof.
  intros Hwf [i Hi] Hy [Hd Ha]. unfold relink. destruct same_root; [done|]. destruct (update s x); [|done]. rewrite Hi. split.
  - destruct (decide (x.1 = y)) as [->|Hne]; [by rewrite lookup_insert_eq|by rewrite lookup_insert_ne].
  - intros q Hq. rewrite lookup_insert_ne; [by apply Ha|]. intros <-. by apply (not_below (src s) x.1 y (Regular i)).
Qed.

Lemma collect_compare_run L w :
  n_interference w = [] → tree_wf (src (n_fs w)) → (same_root = false → ∀ x, x ∈ L → linkable (dst (n_fs w)) x.1) →
  (∀ x, x ∈ L → ∃ i n, src (n_fs w) !! x.1 = Some (Regular i) ∧ inodes (n_fs w) !! i = Some n) →
  ∃ outs, collect L compare_with_src w =
      (set_fs (with_dst (λ d, foldl (relink (n_fs w)) d L) (n_fs w)) w, Ok outs) ∧
    omap id outs = omap (update (n_fs w)) L.
Proof.
  revert w. induction L as [|x L IH]; intros w Hq Hwf Hlink Hsrc.
  { exists []. by destruct w as [[]]. }
  destruct (Hsrc x) as (i & n & He & Hn); [by left|].
  assert (resolve (n_fs w) (src (n_fs w)) x.1 = Some n) as Hres by (unfold resolve; rewrite He; simpl; exact Hn).
  cbn [collect]. pose proof (compare_with_src_run w x i n Hq He Hn ltac:(intros Hsr; apply Hlink; [done|by left])) as Hc.
  set (w1 := fst (compare_with_src x w)).
  assert (n_interference w1 = [] ∧ src (n_fs w1) = src (n_fs w) ∧ inodes (n_fs w1) = inodes (n_fs w) ∧
    w1 = set_fs (with_dst (λ d, relink (n_fs w) d x) (n_fs w)) w) as (Hq1 & Hs1 & Hi1 & Hw1).
  { subst w1. rewrite Hc. unfold relink, update. rewrite Hres. simpl. rewrite He.
    destruct w as [[ii ss dd] db intf]. simpl in *. by destruct (outdated x n), same_root. }
  destruct (IH w1) as (outs & Hrun & Hout); [done|by rewrite Hs1| |by rewrite Hs1, Hi1; intros y Hy; apply Hsrc; right|].
  { intros Hsr y Hy. rewrite Hw1. simpl. apply relink_linkable; [done|by exists i| |apply Hlink; [done|by right]].
    destruct (Hsrc y) as (j & m & Hj & _); [by right|by rewrite Hj]. }
  assert (∀ y, update (n_fs w1) y = update (n_fs w) y) as Hupd.
  { intros y. unfold update, resolve. by rewrite Hs1, Hi1. }
  assert (∀ d y, relink (n_fs w1) d y = relink (n_fs w) d y) as Hrel.
  { intros d y. unfold relink. by rewrite Hupd, Hs1. }
  assert (snd (compare_with_src x w) = Ok (update (n_fs w) x)) as Hsnd.
  { rewrite Hc. unfold update. rewrite Hres. simpl. by destruct (outdated x n). }
  exists (update (n_fs w) x :: outs). split.
  - erewrite (bind_ok (compare_with_src x) _ w w1); [|subst w1; rewrite <- Hsnd; apply surjective_pairing].
    erewrite bind_ok by exact Hrun. unfold mret, M_ret. f_equal.
    assert (∀ d, foldl (relink (n_fs w1)) d L = foldl (relink (n_fs w)) d L) as Hfold.
    { clear -Hrel. induction L as [|y L IH]; intros d; [done|]. simpl. by rewrite Hrel, IH. }
    unfold set_fs, with_dst. rewrite Hs1, Hi1, Hfold, Hw1. done.
  - csimpl. rewrite Hout. assert (omap (update (n_fs w1)) L = omap (update (n_fs w)) L) as ->.
    { clear -Hupd. induction L as [|y L IH]; [done|]. csimpl. by rewrite IH, Hupd. }
    by destruct (update (n_fs w) x).
Qed.

Lemma relink_lookup_ne s L d p :
  (∀ x, x ∈ L → x.1 = p → update s x = None) → foldl (relink s) d L !! p = d !! p.
Proof.
  revert d. induction L as [|x L IH]; intros d Hx; [done|]. simpl.
  rewrite IH by (intros y Hy; apply Hx; by right). unfold relink. destruct same_root; [done|].
  destruct (decide (x.1 = p)) as [E|E].
  - by rewrite (Hx x (list_elem_of_here _ _) E).
  - destruct (update s x), (src s !! x.1); try done. by rewrite lookup_insert_ne.
Qed.

Lemma relink_lookup_eq s L d x f e :
  same_root = false → NoDup L.*1 → x ∈ L → update s x = Some f → src s !! x.1 = Some e →
  foldl (relink s) d L !! x.1 = Some e.
Proof.
  intros Hsr Hnd Hx Hu He. revert d. induction L as [|y L IH]; intros d; [by apply not_elem_of_nil in Hx|].
  simpl. apply NoDup_cons in Hnd as [Hni Hnd]. apply elem_of_cons in Hx as [<-|Hx]; [|by apply IH].
  rewrite relink_lookup_ne.
  - unfold relink. rewrite Hsr, Hu, He. by rewrite lookup_insert_eq.
  - intros z Hz Hzx. exfalso. apply Hni. rewrite <- Hzx. by apply list_elem_of_fmap_2.
Qed.

(** What became of a name of the snapshot when stale links went. *)
Definition stale_gone (w : node) (files : list string) (s : fs) : Prop := ∀ x,
  dst_tree s !! x = dst_tree (n_fs w) !! x ∨
  x ∉ files ∧ is_Some (n_db w !! x) ∧ same_root = false ∧ dst_tree s !! x = None.

Lemma compare_current_run w files :
  NoDup files →
  (same_root = false → ∀ p, p ∉ files → is_Some (n_db w !! p) →
     dst (n_fs w) !! p ≠ Some Directory ∧ ∀ q, q ∈ ancestors p → blocks (dst (n_fs w) !! q) = false) →
  ∃ s L, compare_current_snapshot files w =
      (mkNode s (filter (λ pf : string * SnapshotFile, pf.1 ∈ files) (n_db w)) (n_interference w), Ok L) ∧
    src s = src (n_fs w) ∧ inodes s = inodes (n_fs w) ∧ stale_gone w files s ∧
    NoDup L.*1 ∧ (∀ p, p ∈ L.*1 ↔ p ∈ files) ∧ (∀ x, x ∈ L → x.2 = n_db w !! x.1).
Proof.
  intros Hnd Hclear. unfold compare_current_snapshot.
  set (d := filter (λ pf : string * SnapshotFile, pf.1 ∈ files) (n_db w)).
  set (removed := filter (λ p, p ∉ files) (map_to_list (n_db w)).*1).
  assert (∀ p, p ∈ removed ↔ p ∉ files ∧ is_Some (n_db w !! p)) as Hrem.
  { intros p. unfold removed. rewrite list_elem_of_filter, list_elem_of_fmap. split; intros [? H]; (split; [done|]).
    - destruct H as ([q f] & -> & Hin%elem_of_map_to_list). by exists f.
    - destruct H as [f Hf]. exists (p, f). split; [done|]. by apply elem_of_map_to_list. }
  assert (∃ s, (if same_root then mret tt else for_each removed (λ p, on_dst (unlink p))) (set_db d w) =
      (mkNode s d (n_interference w), Ok tt) ∧ src s = src (n_fs w) ∧ inodes s = inodes (n_fs w) ∧ stale_gone w files s) as (s & Hrun & Hs & Hi & Hg).
  { unfold stale_gone. destruct same_root eqn:Hsr.
    - exists (n_fs w). split; [done|]. split; [done|]. split; [done|]. intros x. by left.
    - destruct (unlink_all_run removed (dst (n_fs w))) as (t & Hrun & Ht); [intros p [Hp1 Hp2]%Hrem; by apply Hclear|].
      exists (with_dst (λ _, t) (n_fs w)). split; [|split; [done|split; [done|]]].
      + rewrite (for_each_on_dst removed unlink (set_db d w) t (Ok tt)); [unfold set_dst; by rewrite Hsr|]. unfold dst_tree. by rewrite Hsr.
      + intros x. unfold dst_tree. rewrite Hsr. simpl. rewrite Ht. case_decide as Hx; [right|by left]. apply Hrem in Hx. by destruct Hx. }
  exists s. eexists.
  assert (∀ p, p ∈ files → d !! p = n_db w !! p) as Hd.
  { intros p Hp. subst d. destruct (n_db w !! p) as [f|] eqn:E.
    - by apply map_lookup_filter_Some.
    - apply map_lookup_filter_None. by left. }
  split; [|split; [done|split; [done|split; [done|split; [|split]]]]].
  - rewrite (bind_ok get _ w w w) by done. cbn zeta. rewrite (bind_ok (put _) _ w (set_db d w) tt) by done.
    rewrite (bind_ok _ _ _ _ _ Hrun). done.
  - rewrite fmap_app, <- !list_fmap_compose. apply NoDup_app. split; [|split].
    + apply (NoDup_fst_map_to_list d).
    + intros p Hp Hp2. apply list_elem_of_fmap in Hp as ([p' f] & -> & Hin%elem_of_map_to_list).
      apply list_elem_of_fmap in Hp2 as (q & Hq & Hin2). apply list_elem_of_filter in Hin2 as [Hn _].
      cbn in Hq. subst q. by pose proof (eq_trans (eq_sym Hin) Hn).
    + change (NoDup (id <$> filter (λ p, d !! p = None) files)). rewrite list_fmap_id. by apply NoDup_filter.
  - intros p. rewrite fmap_app, <- !list_fmap_compose, elem_of_app. split.
    + intros [Hp|Hp].
      * apply list_elem_of_fmap in Hp as ([p' f] & -> & Hin%elem_of_map_to_list).
        by apply map_lookup_filter_Some in Hin as [_ Hin].
      * apply list_elem_of_fmap in Hp as (q & -> & Hin). by apply list_elem_of_filter in Hin as [_ ?].
    + intros Hp. destruct (d !! p) as [f|] eqn:E.
      * left. apply list_elem_of_fmap. exists (p, f). split; [done|]. by apply elem_of_map_to_list.
      * right. apply list_elem_of_fmap. exists p. split; [done|]. by apply list_elem_of_filter.
  - intros x. rewrite elem_of_app. intros [Hx|Hx].
    + apply list_elem_of_fmap in Hx as ([p' f] & -> & Hin%elem_of_map_to_list).
      apply map_lookup_filter_Some in Hin as [Hin _]. done.
    + apply list_elem_of_fmap in Hx as (q & -> & Hin). apply list_elem_of_filter in Hin as [Hn Hq].
      by rewrite Hd in Hn.
Qed.

(** Digests of freshly linked files. *)
Lemma compute_digest_run w p n n' :
  n_interference w = [] → resolve (n_fs w) (dst_tree (n_fs w)) p = Some n' → data n' = data n →
  groups_agree groups p →
  ∃ f, compute_digest groups (fresh_row p n) w = (w, Ok f) ∧ describes f p n.
Proof.
  intros Hq Hn' Hd [m Hm]. unfold compute_digest.
  erewrite (bind_ok (open_for_reading _)).
  2:{ unfold open_for_reading. rewrite (bind_ok tick _ w w tt); [|unfold tick; by rewrite Hq].
      rewrite (bind_ok get _ w w w) by done. simpl. rewrite (open_resolve _ _ _ _ Hn'). reflexivity. }
  cbn [relative_path fresh_row]. rewrite Hm. erewrite bind_ok by done. cbn [content_b64 hexdigest fresh_row file_size].
  assert (SizeLimitedFile.limited (SizeLimitedFile.mk (data n') 0 (Z.of_nat (length (data n)))) = data n) as Hlim.
  { unfold SizeLimitedFile.limited. simpl. rewrite Nat2Z.id, Hd. by apply take_ge. }
  destruct (match m with Some m => _ | None => true end).
  - eexists. split; [done|]. split; [done|]. split; [done|]. split; [done|]. left. split; [done|]. cbn [content_b64].
    rewrite SizeLimitedFile.read_spec by done. cbn [fst SizeLimitedFile.tell SizeLimitedFile.file_size].
    rewrite Hlim. do 2 f_equal. rewrite drop_0. apply take_ge. lia.
  - rewrite decide_True by done. unfold hash_hexdigest_readable.
    rewrite SizeLimitedFile.read_all_run by (simpl; unfold read_buffer; lia). rewrite Hlim, drop_0.
    eexists. split; [done|]. split; [done|]. split; [done|]. split; [done|]. by right.
Qed.

Lemma update_Some s x f :
  update s x = Some f → ∃ n, resolve s (src s) x.1 = Some n ∧ f = fresh_row x.1 n.
Proof.
  unfold update. destruct (resolve s (src s) x.1) as [n|]; simpl; [|done].
  destruct (outdated x n); intros [= <-]. eauto.
Qed.

Lemma update_None s x f n :
  update s x = None → x.2 = Some f → resolve s (src s) x.1 = Some n →
  file_size f = Z.of_nat (length (data n)) ∧ mtime_ns f = mtime n.
Proof.
  unfold update. intros Hu Hx Hn. rewrite Hn in Hu. simpl in Hu.
  destruct (outdated x n) eqn:E; [done|]. unfold outdated in E. rewrite Hx in E. apply negb_false_iff in E.
  unfold underlying_file_is_the_same in E. simpl in E.
  apply andb_prop in E as [[E1 _]%andb_prop E2]. lia.
Qed.

Lemma update_paths_sublist s L : sublist (relative_path <$> omap (update s) L) L.*1.
Proof.
  induction L as [|x L IH]; [constructor|]. csimpl. destruct (update s x) as [f|] eqn:E; [|by constructor].
  apply update_Some in E as (n & _ & ->). csimpl. by constructor.
Qed.

Lemma upsert_lookup_ne l (d : db) p :
  p ∉ relative_path <$> l → foldl (λ d f, <[relative_path f := f]> d) d l !! p = d !! p.
Proof.
  revert d. induction l as [|f l IH]; intros d Hp; [done|]. csimpl in Hp. apply not_elem_of_cons in Hp as [Hne Hp].
  cbn [foldl]. rewrite IH by done. by apply lookup_insert_ne.
Qed.

Lemma upsert_lookup_eq l (d : db) f :
  NoDup (relative_path <$> l) → f ∈ l → foldl (λ d f, <[relative_path f := f]> d) d l !! relative_path f = Some f.
Proof.
  revert d. induction l as [|g l IH]; intros d Hnd Hf; [by apply not_elem_of_nil in Hf|].
  csimpl in Hnd. apply NoDup_cons in Hnd as [Hni Hnd]. simpl. apply elem_of_cons in Hf as [->|Hf]; [|by apply IH].
  rewrite upsert_lookup_ne by done. apply lookup_insert_eq.
Qed.

(** The links of the files that were linked again, and of the others. *)
Lemma linked_outdated s L x f n s' :
  fs_wf s → NoDup L.*1 → x ∈ L → update s x = Some f → in_groups groups s x.1 →
  resolve s (src s) x.1 = Some n → s' = with_dst (λ d, foldl (relink s) d L) s →
  resolve s' (dst_tree s') x.1 = Some n.
Proof.
  intros Hwf Hnd Hx Hu Hg Hn ->. destruct (in_groups_resolve s x.1 Hwf Hg) as (i & n' & He & Hi & _).
  unfold dst_tree, resolve. simpl. destruct same_root eqn:Hsr; simpl.
  - exact Hn.
  - rewrite (relink_lookup_eq s L (dst s) x f (Regular i)) by done. simpl.
    unfold resolve in Hn. rewrite He in Hn. simpl in Hn. done.
Qed.

(** What became of a name of the snapshot before files are linked. *)
Definition settled (w : node) (files : list string) (s : fs) : Prop :=
  (∀ x, dst_tree s !! x = dst_tree (n_fs w) !! x ∨
    x ∉ files ∧ is_Some (n_db w !! x) ∧ same_root = false ∧ dst_tree s !! x = None ∨
    dst_tree (n_fs w) !! x = None ∧ dst_tree s !! x = Some Directory ∧ src (n_fs w) !! x = Some Directory) ∧
  ∀ p q, p ∈ files → q ∈ ancestors p → dst_tree s !! q = Some Directory.

Lemma settle (w : node) (files : list string) t s :
  fs_wf (n_fs w) → fits groups w → (∀ p, p ∈ files ↔ in_groups groups (n_fs w) p) → walk_made (n_fs w) t →
  (∀ p q, p ∈ files → q ∈ ancestors p → t !! q = Some Directory) → stale_gone (set_dst t w) files s →
  settled w files s.
Proof.
  intros Hwf Hfits Hfiles Hmade Habove Hgone. unfold stale_gone in Hgone. rewrite dst_tree_set in Hgone. split.
  - intros x. destruct (Hgone x) as [->|H]; [|right; left; exact H]. destruct (Hmade x) as [->|(? & ? & ?)]; [by left|by right; right].
  - intros p q Hp Hq. destruct (Hgone q) as [->|(_ & Hrow & Hsr & _)]; [by apply (Habove p)|].
    destruct Hfits as [?|(_ & _ & Hf)]; [congruence|]. destruct (Hf q Hrow) as (Hn & _). destruct Hn.
    apply (in_groups_above _ p); [done|by apply Hfiles|done].
Qed.

(** Nothing is in the way of the removal of stale links. *)
Lemma stale_clear (w : node) (files : list string) t :
  fits groups w → walk_made (n_fs w) t → same_root = false →
  ∀ p, p ∉ files → is_Some (n_db w !! p) → t !! p ≠ Some Directory ∧ ∀ q, q ∈ ancestors p → blocks (t !! q) = false.
Proof.
  intros Hfits Hmade Hsr p _ Hrow. destruct Hfits as [?|(_ & _ & Hf)]; [congruence|].
  destruct (Hf p Hrow) as (Hs & Hd & Ha). assert (dst_tree (n_fs w) = dst (n_fs w)) as Hdt by (unfold dst_tree; by rewrite Hsr).
  unfold walk_made in Hmade. rewrite Hdt in Hmade. split.
  - destruct (Hmade p) as [->|(_ & _ & ?)]; done.
  - intros q Hq. destruct (Hmade q) as [->|(_ & -> & _)]; [by apply Ha|done].
Qed.

Lemma settled_files w (files : list string) s p :
  settled w files s → (∀ p, p ∈ files ↔ in_groups groups (n_fs w) p) → p ∈ files → dst_tree s !! p = dst_tree (n_fs w) !! p.
Proof.
  intros [Hset _] Hfiles Hp. destruct (Hset p) as [?|[(? & _)|(_ & _ & Hd)]]; [done..|].
  apply Hfiles, in_groups_regular in Hp as [i Hi]. congruence.
Qed.

Lemma settled_linkable w (files : list string) s p :
  settled w files s → fits groups w → (∀ p, p ∈ files ↔ in_groups groups (n_fs w) p) → same_root = false → p ∈ files → linkable (dst s) p.
Proof.
  intros Hset Hfits Hfiles Hsr Hp. assert (dst s = dst_tree s) as -> by (unfold dst_tree; by rewrite Hsr). split.
  - rewrite (settled_files w files) by done. unfold dst_tree. rewrite Hsr. destruct Hfits as [?|(_ & Hf & _)]; [congruence|]. by apply Hf, Hfiles.
  - intros q Hq. by apply (proj2 Hset p).
Qed.

(** A whole snapshot: the state after the links are made is [w2], the rows
    written are [ys]; [L] pairs the listed files with their previous rows. *)
Lemma perform_snapshot_run (w : node) :
  n_interference w = [] → fs_wf (n_fs w) → fits groups w →
  (∀ p, in_groups groups (n_fs w) p → groups_agree groups p) →
  ∃ (files : list string) s (L : list (string * option SnapshotFile)) (ys : list SnapshotFile), let s2 := with_dst (λ d, foldl (relink s) d L) s in
    let d := filter (λ pf : string * SnapshotFile, pf.1 ∈ files) (n_db w) in
    perform_snapshot groups w =
      (mkNode s2 (foldl (λ d f, <[relative_path f := f]> d) d ys) (n_interference w), Ok tt) ∧
    (∀ p, p ∈ files ↔ in_groups groups (n_fs w) p) ∧
    src s = src (n_fs w) ∧ inodes s = inodes (n_fs w) ∧ settled w files s ∧
    NoDup L.*1 ∧ (∀ p, p ∈ L.*1 ↔ p ∈ files) ∧ (∀ x, x ∈ L → x.2 = n_db w !! x.1) ∧
    Forall2 (λ f0 f, ∃ p n, resolve s (src s) p = Some n ∧ f0 = fresh_row p n ∧ describes f p n ∧ linked s2 p n)
      (omap (update s) L) ys.
Proof.
  intros Hq Hwf Hfits Hag. destruct (list_files_run w Hq Hwf Hfits) as (files & t & Hlf & Hndf & Hfiles & Hmade & Habove).
  set (w0 := set_dst t w) in Hlf.
  assert (n_interference w0 = [] ∧ n_db w0 = n_db w ∧ inodes (n_fs w0) = inodes (n_fs w) ∧ src (n_fs w0) = src (n_fs w)) as (Hq0 & Hdb0 & Hi0 & Hs0).
  { unfold w0, set_dst. split; [done|]. split; [done|]. destruct same_root eqn:Hsr; [|done]. split; [done|]. simpl. by apply walk_made_src. }
  destruct (compare_current_run w0 files Hndf) as (s & L & Hcc & Hs & Hi & Hgone & HndL & HL & Hx).
  { intros Hsr. assert (dst (n_fs w0) = t) as -> by (unfold w0, set_dst; by rewrite Hsr). rewrite Hdb0. by apply stale_clear. }
  pose proof (settle w files t s Hwf Hfits Hfiles Hmade Habove Hgone) as Hset.
  rewrite Hdb0 in Hcc, Hx. rewrite Hs0 in Hs. rewrite Hi0 in Hi.
  assert (n_interference w0 = n_interference w) as Hqq by congruence. rewrite Hqq in Hcc. clearbody w0.
  set (d := filter _ (n_db w)) in Hcc. set (w1 := mkNode s d (n_interference w)) in Hcc.
  assert (fs_wf s) as Hwfs by (split; rewrite Hs; [intros p i; rewrite Hi; apply Hwf|apply Hwf]).
  assert (∀ x, x ∈ L → in_groups groups s x.1) as HLin.
  { intros x Hxl. unfold in_groups. rewrite Hs. apply Hfiles, HL, list_elem_of_fmap_2, Hxl. }
  destruct (collect_compare_run L w1) as (outs & Hcomp & Houts); [done|apply Hwfs| | |].
  { intros Hsr x Hxl. apply (settled_linkable w files); [done..|]. by apply HL, list_elem_of_fmap_2. }
  { intros x Hxl. destruct (in_groups_resolve s x.1 Hwfs (HLin x Hxl)) as (i & n & ? & ? & _). by exists i, n. }
  set (s2 := with_dst (λ d, foldl (relink s) d L) s) in *.
  set (w2 := set_fs s2 w1). change (set_fs _ w1) with w2 in Hcomp. change (n_fs w1) with s in *.
  destruct (collect_pure (λ f0 f, ∃ p n, resolve s (src s) p = Some n ∧ f0 = fresh_row p n ∧ describes f p n ∧ linked s2 p n)
    (omap id outs) (compute_digest groups) w2) as (ys & Hdig & HF).
  { rewrite Houts. intros f (x & Hxl & Hu)%list_elem_of_omap. destruct (update_Some _ _ _ Hu) as (n & Hn & ->).
    pose proof (linked_outdated s L x _ n s2 Hwfs HndL Hxl Hu (HLin x Hxl) Hn eq_refl) as Hl.
    destruct (compute_digest_run w2 x.1 n n) as (f & Hf & Hd); [done|exact Hl|done|by apply Hag, Hfiles, HL, list_elem_of_fmap_2|].
    exists f. split; [done|]. exists x.1, n. split; [done|]. split; [done|]. split; [done|]. by exists n. }
  exists files, s, L, ys. split; [|by rewrite <- Houts].
  unfold perform_snapshot, transaction. erewrite bind_ok by exact Hlf. erewrite bind_ok by exact Hcc.
  erewrite bind_ok by exact Hcomp. by erewrite bind_ok by exact Hdig.
Qed.

(** A row that is kept: nothing changed, and its link is the previous one. *)
Lemma kept_row w s L x f n :
  honest w → src s = src (n_fs w) → inodes s = inodes (n_fs w) →
  dst_tree s !! x.1 = dst_tree (n_fs w) !! x.1 →
  (∀ y, y ∈ L → y.2 = n_db w !! y.1) → x ∈ L → n_db w !! x.1 = Some f → update s x = None →
  resolve s (src s) x.1 = Some n →
  describes f x.1 n ∧ linked (with_dst (λ d, foldl (relink s) d L) s) x.1 n.
Proof.
  intros Hh Hs Hi Hdst Hx Hxl Hf Hu Hn.
  destruct (update_None s x f n Hu) as [Hsz Hmt]; [by rewrite (Hx x Hxl)|done|].
  assert (resolve (n_fs w) (src (n_fs w)) x.1 = Some n) as Hn0 by (rewrite <- Hn; unfold resolve; by rewrite Hs, Hi).
  destruct (Hh _ _ Hf) as [Hrp Hhon]. destruct (Hhon n Hn0 Hsz Hmt) as [Henc (n' & Hn' & Hdat)].
  split; [done|]. exists n'. split; [|done]. rewrite <- Hn'. unfold resolve. simpl. rewrite Hi. unfold dst_tree at 1. simpl.
  assert ((if same_root then src s else foldl (relink s) (dst s) L) !! x.1 = dst_tree s !! x.1) as ->; [|by rewrite Hdst].
  unfold dst_tree. destruct same_root; [done|]. apply relink_lookup_ne. intros y Hy Hyx.
  assert (y = x) as ->; [|done]. pose proof (Hx _ Hy) as H1. pose proof (Hx _ Hxl) as H2.
  clear -Hyx H1 H2. destruct x, y. simpl in *. congruence.
Qed.

(** What a snapshot leaves, in terms of the source files. *)
Definition faithful (w w' : node) : Prop :=
  n_interference w' = [] ∧ src (n_fs w') = src (n_fs w) ∧ inodes (n_fs w') = inodes (n_fs w) ∧ honest w' ∧ fits groups w' ∧
  (∀ p, is_Some (n_db w' !! p) ↔ in_groups groups (n_fs w) p) ∧
  (∀ p f n, n_db w' !! p = Some f → resolve (n_fs w) (src (n_fs w)) p = Some n →
     describes f p n ∧ linked (n_fs w') p n).

(** After a snapshot the links have room for the next one. *)
Lemma relinked_fits w (files : list string) s L d intf :
  fs_wf (n_fs w) → fits groups w → settled w files s → src s = src (n_fs w) →
  (∀ p, p ∈ files ↔ in_groups groups (n_fs w) p) → (∀ p, p ∈ L.*1 ↔ p ∈ files) → (∀ p, is_Some (d !! p) → p ∈ files) →
  fits groups (mkNode (with_dst (λ d, foldl (relink s) d L) s) d intf).
Proof.
  intros Hwf Hfits Hset Hs Hfiles HL Hd. destruct same_root eqn:Hsr; [by left|]. right. simpl. rewrite Hs.
  assert (dst_tree s = dst s ∧ dst_tree (n_fs w) = dst (n_fs w)) as [E1 E2] by (unfold dst_tree; by rewrite Hsr).
  assert (∀ q, src (n_fs w) !! q = Some Directory → foldl (relink s) (dst s) L !! q = dst s !! q) as Hdir.
  { intros q Hq. apply relink_lookup_ne. intros x Hx Hxq. exfalso.
    assert (q ∈ files) as Hin by (rewrite <- Hxq; by apply HL, list_elem_of_fmap_2). apply Hfiles, in_groups_regular in Hin as [i Hi]. congruence. }
  assert (∀ l t p, linkable t p → (∀ x, x ∈ l → x ∈ L) → p ∈ files → linkable (foldl (relink s) t l) p) as Hlink.
  { intros l. induction l as [|x l IH]; intros t p Ht Hl Hp; [done|]. simpl. apply IH; [|intros y Hy; apply Hl; by right|done].
    assert (∀ y, y ∈ files → ∃ i, src s !! y = Some (Regular i)) as Hreg by (intros y Hy%Hfiles; rewrite Hs; by apply in_groups_regular in Hy).
    apply relink_linkable; [rewrite Hs; apply Hwf| | |done].
    - apply Hreg, HL, list_elem_of_fmap_2, Hl. by left.
    - destruct (Hreg p Hp) as [i ->]. done. }
  assert (∀ p, p ∈ files → linkable (foldl (relink s) (dst s) L) p) as Hall.
  { intros p Hp. apply Hlink; [|done|done]. by apply (settled_linkable w files). }
  split; [|split].
  - intros q Hq. rewrite Hdir by done. rewrite <- E1. destruct (proj1 Hset q) as [->|[(_ & _ & _ & ->)|(_ & -> & _)]]; [|by left|by right].
    rewrite E2. destruct Hfits as [?|(Hf & _)]; [congruence|]. by apply Hf.
  - intros p (e & He & Hl). apply Hall, Hfiles. exists e. simpl in He. by rewrite Hs in He.
  - intros p Hp%Hd. destruct (Hall p Hp) as [Hp1 Hp2]. split; [|split; [done|]].
    + apply Hfiles, in_groups_regular in Hp as [i ->]. done.
    + intros q Hq. by rewrite Hp2.
Qed.

Lemma perform_snapshot_faithful (w : node) :
  n_interference w = [] → fs_wf (n_fs w) → honest w → fits groups w →
  (∀ p, in_groups groups (n_fs w) p → groups_agree groups p) →
  ∃ w', perform_snapshot groups w = (w', Ok tt) ∧ faithful w w'.
Proof.
  intros Hq Hwf Hh Hfits Hag.
  destruct (perform_snapshot_run w Hq Hwf Hfits Hag) as (files & s & L & ys & Hrun & Hfiles & Hs & Hi & Hset & HndL & HL & Hx & HF).
  pose proof (λ p, settled_files w files s p Hset Hfiles) as Hdst.
  set (s2 := with_dst (λ d, foldl (relink s) d L) s) in *. set (d := filter _ (n_db w)) in Hrun.
  eexists. split; [exact Hrun|]. set (w3 := mkNode s2 _ _).
  assert (relative_path <$> ys = relative_path <$> omap (update s) L) as Hpaths.
  { clear -HF. induction HF as [|f0 f l k (p & n & _ & -> & (Hp & _) & _) HF IH]; [done|]. csimpl. by rewrite IH, Hp. }
  assert (NoDup (relative_path <$> ys)) as Hnd.
  { rewrite Hpaths. eapply sublist_NoDup; [exact HndL|apply update_paths_sublist]. }
  assert (∀ x f, x ∈ L → update s x = Some f → x.1 ∈ relative_path <$> ys) as Hupd.
  { intros x f Hxl Hu. rewrite Hpaths. apply list_elem_of_fmap. exists f.
    split; [by apply update_Some in Hu as (? & _ & ->)|]. apply list_elem_of_omap. eauto. }
  assert (∀ p f, n_db w3 !! p = Some f → p ∈ files ∧ relative_path f = p ∧
    ∀ n, resolve s (src s) p = Some n → describes f p n ∧ linked s2 p n) as Hrow.
  { intros p f Hf. destruct (decide (p ∈ relative_path <$> ys)) as [Hp|Hp].
    - apply list_elem_of_fmap in Hp as (f' & -> & Hy). simpl in Hf. rewrite upsert_lookup_eq in Hf by done.
      injection Hf as <-. pose proof (list_elem_of_fmap_2 relative_path _ _ Hy) as Hp'. rewrite Hpaths in Hp'.
      split; [apply HL; eapply elem_of_submseteq; [exact Hp'|apply sublist_submseteq, update_paths_sublist]|]. split; [done|].
      apply list_elem_of_lookup in Hy as [j Hy]. destruct (Forall2_lookup_r _ _ _ _ _ HF Hy) as (f0 & _ & p & n & Hn & _ & Hd & Hl).
      intros n'. rewrite (proj1 Hd), Hn. by intros [= <-].
    - simpl in Hf. rewrite upsert_lookup_ne in Hf by done. subst d.
      apply map_lookup_filter_Some in Hf as [Hf Hpf]. simpl in Hpf. split; [done|]. split; [by apply (Hh p f)|].
      intros n Hn. apply HL, list_elem_of_fmap in Hpf as Hxl. destruct Hxl as (x & -> & Hxl).
      apply (kept_row w s L x f n Hh Hs Hi); [by apply Hdst, HL|done|done|done| |done].
      destruct (update s x) eqn:E; [|done]. exfalso. eauto. }
  split; [done|]. split; [done|]. split; [done|]. split; [|split; [|split]].
  - intros p f Hf. destruct (Hrow p f Hf) as (_ & Hrp & Hd). split; [done|]. intros n Hn _ _.
    destruct (Hd n Hn) as ((_ & _ & _ & He) & Hl). split; [exact He|exact Hl].
  - apply (relinked_fits w files); try done. intros p [f Hf]. by apply (Hrow p f).
  - intros p. rewrite <- Hfiles. split; [by intros [f Hf]; apply (Hrow p f Hf)|]. intros Hp.
    destruct (decide (p ∈ relative_path <$> ys)) as [Hy|Hy].
    + apply list_elem_of_fmap in Hy as (f & -> & Hy). simpl. rewrite upsert_lookup_eq by done. eauto.
    + simpl. rewrite upsert_lookup_ne by done. apply HL, list_elem_of_fmap in Hp as Hxl. destruct Hxl as (x & -> & Hxl).
      destruct (x.2) as [f|] eqn:E; [exists f; apply map_lookup_filter_Some; split; [rewrite <- E; symmetry; exact (Hx x Hxl)|by apply HL]|].
      exfalso. apply HL, Hfiles in Hp. apply (in_groups_resolve _ _ Hwf) in Hp as (i & n & _ & _ & Hn).
      apply Hy, (Hupd x (fresh_row x.1 n) Hxl). unfold update, resolve. rewrite Hs, Hi. unfold resolve in Hn. rewrite Hn.
      simpl. unfold outdated. by rewrite E.
  - intros p f n Hf Hn. apply (Hrow p f Hf). rewrite <- Hn. unfold resolve. by rewrite Hs, Hi.
Qed.

Lemma elem_of_get_all_files (d : db) f : f ∈ get_all_files d ↔ ∃ p, d !! p = Some f.
Proof.
  unfold get_all_files, rows. rewrite elem_of_py_sorted, list_elem_of_fmap. split.
  - intros ([p f'] & -> & Hin%elem_of_map_to_list). eauto.
  - intros [p Hp]. exists (p, f). split; [done|]. by apply elem_of_map_to_list.
Qed.

Lemma get_all_paths_NoDup (d : db) :
  (∀ p f, d !! p = Some f → relative_path f = p) → NoDup (get_all_paths d).
Proof.
  intros Hk. unfold get_all_paths, get_all_files, rows. rewrite py_sorted_Permutation, <- list_fmap_compose.
  assert ((relative_path ∘ snd) <$> map_to_list d = (map_to_list d).*1) as ->; [|apply NoDup_fst_map_to_list].
  apply list_fmap_ext. intros i [p f] Hi. simpl. apply Hk, elem_of_map_to_list. by eapply list_elem_of_lookup_2.
Qed.

(** C26: Snapshots are faithful.  When the database is quiescent, the rows and
    links of the previous snapshot are honest and there is room for the new
    links - no path of a row or link became a directory since, and no directory
    became a file - a snapshot succeeds, leaves the source files alone, reports
    each regular file matched by the groups exactly once, and each row
    describes its file - size, modification time, and the embedded contents
    or the digest - while its link holds the same contents.  The result is
    honest again, and has room, for the next snapshot. *)
Theorem snapshot_faithful (w : node) :
  n_interference w = [] → fs_wf (n_fs w) → honest w → fits groups w →
  (∀ p, in_groups groups (n_fs w) p → groups_agree groups p) →
  ∃ w', perform_snapshot groups w = (w', Ok tt) ∧ faithful w w' ∧
    let files := state_files (get_snapshot_state groups w') in
    NoDup (relative_path <$> files) ∧
    (∀ p, p ∈ relative_path <$> files ↔ in_groups groups (n_fs w) p) ∧
    (∀ f n, f ∈ files → resolve (n_fs w) (src (n_fs w)) (relative_path f) = Some n →
       describes f (relative_path f) n ∧ linked (n_fs w') (relative_path f) n).
Proof.
  intros Hq Hwf Hh Hfits Hag. destruct (perform_snapshot_faithful w Hq Hwf Hh Hfits Hag) as (w' & Hrun & Hf).
  exists w'. split; [done|]. split; [done|]. destruct Hf as (_ & _ & _ & Hh' & _ & Hdom & Hrow).
  assert (∀ p f, n_db w' !! p = Some f → relative_path f = p) as Hk by (intros p f Hf; apply (Hh' p f Hf)).
  intros files. split; [by apply get_all_paths_NoDup|]. split.
  - intros p. rewrite <- Hdom. rewrite list_elem_of_fmap. split.
    + intros (f & -> & [q Hp]%elem_of_get_all_files). rewrite (Hk q f Hp). by exists f.
    + intros [f Hf]. exists f. split; [by rewrite (Hk p f Hf)|]. apply elem_of_get_all_files. by exists p.
  - intros f n [p Hp]%elem_of_get_all_files. rewrite (Hk p f Hp). by apply Hrow.
Qed.
End faithful.
End snapshotter.

(** Two files, one of which is already in the snapshot and was rewritten. *)
Definition example_node : node :=
  mkNode (mkFs {[0%nat := mkInode [x61; x62] 5; 1%nat := mkInode [x63] 7; 2%nat := mkInode [] 1]}
               {["a" := Regular 0; "dir" := Directory; "dir/b" := Regular 1; "link" := Symlink None]} {["a" := Regular 2]})
         {["a" := mkSnapshotFile "a" 0 1 "" (Some "")]} [].

Definition example_digest (d : list byte) : string := "d" +:+ Base64.b64encode d.
Lemma example_digest_inj d d' : example_digest d = example_digest d' → d = d'.
Proof.
  intros H. change (String "d" (Base64.b64encode d) = String "d" (Base64.b64encode d')) in H. injection H as H.
  apply (f_equal Base64.b64decode) in H. rewrite !Base64.b64_decode_encode in H. congruence.
Qed.

Definition example_groups : list SnapshotGroup := [mkSnapshotGroup "**" [] (Some 1)].

Lemma snapshot_faithful_witness :
  let run := perform_snapshot (λ _ _, true) example_digest false ["data"] example_groups in
  ∃ w', run example_node = (w', Ok tt) ∧
    faithful (λ _ _, true) example_digest false ["data"] example_groups example_node w' ∧
    let files := state_files (get_snapshot_state example_groups w') in
    NoDup (relative_path <$> files) ∧
    (∀ p, p ∈ relative_path <$> files ↔ in_groups (λ _ _, true) ["data"] example_groups (n_fs example_node) p) ∧
    (∀ f n, f ∈ files → resolve (n_fs example_node) (src (n_fs example_node)) (relative_path f) = Some n →
       describes example_digest f (relative_path f) n ∧ linked false (n_fs w') (relative_path f) n).
Proof.
  apply snapshot_faithful.
  - reflexivity.
  - split; [|apply tree_wf_check; vm_compute; reflexivity]. intros p i H. simpl in H.
    repeat (apply lookup_insert_Some in H as [[_ H]|[_ H]]; [simplify_eq; try by eexists|]).
    apply lookup_singleton_Some in H as [_ H]. done.
  - intros p f H. cbn [example_node n_db] in H. apply lookup_singleton_Some in H as [<- <-]. split; [done|]. intros n Hn. vm_compute in Hn.
    injection Hn as <-. done.
  - right. split; [|split].
    + intros q Hq. left. cbn [example_node n_fs src dst] in *. apply lookup_singleton_ne. intros <-. vm_compute in Hq. discriminate Hq.
    + intros p _ H. cbn [example_node n_fs dst] in H. by apply lookup_singleton_Some in H as [_ H].
    + intros p [f H]. cbn [example_node n_db] in H. apply lookup_singleton_Some in H as [<- _]. split; [|split]; [discriminate..|].
      intros q []%not_elem_of_nil.
  - intros p _. exists (Some 1). reflexivity.
Defined.

Example snapshot_example :
  let w' := fst (perform_snapshot (λ _ _, true) example_digest false ["data"] example_groups example_node) in
  state_files (get_snapshot_state example_groups w') =
    [mkSnapshotFile "a" 2 5 "dYWI=" None; mkSnapshotFile "dir/b" 1 7 "" (Some "Yw==")] ∧
  dst (n_fs w') = {["a" := Regular 0; "dir" := Directory; "dir/b" := Regular 1]}.
Proof. vm_compute. done. Qed.

(** A path that was a file in the last snapshot and is a directory now: every
    snapshot from now on fails, and leaves the snapshot as it was. *)
Definition file_became_directory : node :=
  mkNode (mkFs {[0%nat := mkInode [x61] 5; 1%nat := mkInode [x63] 7]}
               {["a" := Directory; "a/b" := Regular 1]} {["a" := Regular 0]})
         {["a" := mkSnapshotFile "a" 1 5 "" (Some "YQ==")]} [].
Lemma file_became_directory_fails :
  perform_snapshot (λ _ _, true) example_digest false ["data"] example_groups file_became_directory =
    (file_became_directory, Raise FileExistsError).
Proof. vm_compute. reflexivity. Qed.

(** And one that was a directory and is a file now: the stale link below it goes,
    but the directory stays, and the file cannot be linked in its place; the
    snapshot keeps the row of a link that is gone. *)
Definition directory_became_file : node :=
  mkNode (mkFs {[0%nat := mkInode [x61] 5; 1%nat := mkInode [x63] 7]}
               {["a" := Regular 1]} {["a" := Directory; "a/b" := Regular 0]})
         {["a/b" := mkSnapshotFile "a/b" 1 5 "" (Some "YQ==")]} [].
Lemma directory_became_file_fails :
  let run := perform_snapshot (λ _ _, true) example_digest false ["data"] example_groups in
  let '(w1, r1) := run directory_became_file in
  r1 = Raise IsADirectoryError ∧ n_db w1 = n_db directory_became_file ∧ dst (n_fs w1) = {["a" := Directory]} ∧
  run w1 = (w1, Raise IsADirectoryError).
Proof. vm_compute. split_and!; reflexivity. Qed.
End NodeSnapshot.
