(* ===== verification/NodeTransfer.v ===== *)
(** * Moving files between a node and object storage ([node/uploader.py],
      [node/download.py], [node/clear.py], [node/snapshot_op.py])

    The uploader stores the files of a snapshot under their digests, the
    downloader rebuilds the files of a snapshot state in the source
    directory.  Worker threads are run one item after the other, in the order
    in which their results are consumed. *)

From stdpp Require Import base gmap strings list sorting.
From Stdlib Require Import ZArith Lia Sorted Ascii Strings.Byte.
From S2P Require Import Prelude Progress Ipc Storage Utils Base64 FileSystem NodeSnapshot.
Import FileSystem NodeSnapshot.

Local Open Scope Z_scope.

Module NodeTransfer.

(** The node, the object storage, the progress of the operation's result and
    the [sizes] of the uploader. *)
Record xfer (SH : Type) : Type := mkXfer {
  x_node : node;
  x_store : SH;
  x_progress : Progress;
  x_total : Z;
  x_stored : Z;
}.
Arguments mkXfer {SH}. Arguments x_node {SH}. Arguments x_store {SH}.
Arguments x_progress {SH}. Arguments x_total {SH}. Arguments x_stored {SH}.

Section transfer.
Context (glob_match : string → string → bool) (digest : list byte → string)
  (same_root : bool) (src_parts : list string).
(** The storage of hexdigests, and the size it reports as stored. *)
Context {SH : Type} (hex : StorageOps SH (list byte)) (stored_size : list byte → Z).
(** [still_running_callback] and [check_op_id] of the operation. *)
Context (still_running : M (xfer SH) bool) (check_op_id : M (xfer SH) unit).

Definition on_node {A} (m : M node A) : M (xfer SH) A :=
  zoom x_node (λ n w, mkXfer n (x_store w) (x_progress w) (x_total w) (x_stored w)) m.
Definition on_store {A} (m : M SH A) : M (xfer SH) A :=
  zoom x_store (λ s w, mkXfer (x_node w) s (x_progress w) (x_total w) (x_stored w)) m.
Definition on_progress {A} (m : M Progress A) : M (xfer SH) A :=
  zoom x_progress (λ p w, mkXfer (x_node w) (x_store w) p (x_total w) (x_stored w)) m.

(** ** [Uploader] *)

(** The callback of [progress] a worker returns, with the two sizes. *)
Inductive upload_outcome : Type :=
| upload_success (size stored : Z)
| upload_failure
| upload_missing.

Definition is_file (p : string) : M node bool :=
  tick ;; w ← get; mret (bool_decide (is_Some (resolve (n_fs w) (dst_tree same_root (n_fs w)) p))).

(** [current_hexdigest != snapshotfile.hexdigest] *)
Definition hash_changed (f : SnapshotFile) : M node bool :=
  h ← open_for_reading same_root f;
  match hash_hexdigest_readable digest h with
  | Some x => mret (bool_decide (x ≠ hexdigest f))
  | None => raise OutOfFuel
  end.

Definition upload_file (h : string) (f : SnapshotFile) : M (xfer SH) (option (Z * Z)) :=
  try_except
    (file ← on_node (open_for_reading same_root f);
     let contents := fst (SizeLimitedFile.read file None) in
     on_store (st_upload hex h contents) ;;
     mret (Some (Z.of_nat (length contents), stored_size contents)))
    is_astacus (λ _, mret None).

(** The loop of [_upload_hexdigest_in_thread] over the files of a digest. *)
Fixpoint upload_from (validate_file_hashes : bool) (h : string) (files : list SnapshotFile) : M (xfer SH) upload_outcome :=
  match files with
  | [] => mret upload_missing
  | f :: rest =>
      here ← on_node (is_file (relative_path f));
      if negb here then upload_from validate_file_hashes h rest
      else
        changed ← (if validate_file_hashes then on_node (hash_changed f) else mret false);
        if (changed : bool) then upload_from validate_file_hashes h rest
        else
          r ← upload_file h f;
          match r with
          | None => mret upload_failure
          | Some (size, stored) =>
              changed ← (if validate_file_hashes then on_node (hash_changed f) else mret false);
              if (changed : bool) then on_store (st_delete hex h) ;; upload_from validate_file_hashes h rest
              else mret (upload_success size stored)
          end
  end.

Definition upload_hexdigest_in_thread (validate_file_hashes : bool) (work : string * list SnapshotFile) :
    M (xfer SH) upload_outcome :=
  py_assert (bool_decide (work.1 ≠ "")) ;;
  w ← get;
  upload_from validate_file_hashes work.1 (get_files_for_digest (n_db (x_node w)) work.1).

(** [_result_cb] *)
Definition upload_result_cb (map_in : string * list SnapshotFile) (map_out : upload_outcome) : M (xfer SH) bool :=
  let '(total, stored) := match map_out with upload_success a b => (a, b) | _ => (0, 0) end in
  modify (λ w, mkXfer (x_node w) (x_store w) (x_progress w) (x_total w + total) (x_stored w + stored)) ;;
  on_progress (match map_out with
               | upload_success _ _ => Progress.upload_success
               | upload_failure => Progress.upload_failure
               | upload_missing => Progress.upload_missing
               end) ;;
  still_running.

(** The key of the sort indexes the first file of each digest. *)
Definition largest_first (a b : string * list SnapshotFile) : bool :=
  match a.2, b.2 with f :: _, g :: _ => file_size g <=? file_size f | _, _ => true end.

Definition write_hashes_to_storage (hashes : list SnapshotHash) (validate_file_hashes : bool) : M (xfer SH) (Z * Z) :=
  w ← get;
  let todo := (λ h, (h, get_files_for_digest (n_db (x_node w)) h)) <$> remove_dups (hash_hexdigest <$> hashes) in
  if existsb (λ hf, bool_decide (hf.2 = [])) todo then raise IndexError
  else
    let todo := py_sorted largest_first todo in
    on_progress (Progress.start (Z.of_nat (length todo))) ;;
    modify (λ w, mkXfer (x_node w) (x_store w) (x_progress w) 0 0) ;;
    ok ← Files.parallel_map_to (upload_hexdigest_in_thread validate_file_hashes) upload_result_cb todo;
    (if (ok : bool) then mret tt else on_progress (Progress.add_fail 1)) ;;
    w ← get; mret (x_total w, x_stored w).

(** [UploadOp.upload] *)
Definition UploadOp_upload (hashes : list SnapshotHash) (validate_file_hashes : bool) : M (xfer SH) (Z * Z) :=
  check_op_id ;;
  r ← write_hashes_to_storage hashes validate_file_hashes;
  on_progress Progress.done ;; mret r.

Section groups.
Context (groups : list SnapshotGroup).

(** ** [SnapshotOp.perform_snapshot]: the fields of the result. *)
Definition SnapshotOp_perform_snapshot (end_ : Z) : M (xfer SH) (SnapshotState * list SnapshotHash * Z * Z * Z) :=
  check_op_id ;;
  on_node (perform_snapshot glob_match digest same_root src_parts groups) ;;
  w ← get;
  let state := get_snapshot_state groups (x_node w) in
  let hashes := (λ f, mkSnapshotHash (hexdigest f) (file_size f)) <$> filter (λ f, hexdigest f ≠ "") (state_files state) in
  on_progress Progress.done ;;
  mret (state, hashes, Z.of_nat (length (state_files state)), foldr Z.add 0 (file_size <$> state_files state), end_).

(** [ReleaseOp.release] *)
Definition ReleaseOp_release (hexdigests : list string) : M (xfer SH) unit :=
  check_op_id ;; on_node (release same_root hexdigests) ;; on_progress Progress.done.

(** [ClearOp.clear]: [config.root] is the source directory. *)
Definition on_src {A} (m : M tree A) : M node A :=
  zoom (λ w, src (n_fs w)) (λ t w, set_fs (with_src (λ _, t) (n_fs w)) w) m.
Definition unlink_src (p : string) : M (xfer SH) unit := on_node (on_src (unlink p)).

Definition ClearOp_clear (is_snapshot_outdated : bool) : M (xfer SH) unit :=
  check_op_id ;;
  (if is_snapshot_outdated then on_node (perform_snapshot glob_match digest same_root src_parts groups) else mret tt) ;;
  w ← get;
  on_progress (Progress.start (snapshot_len (n_db (x_node w)))) ;;
  for_each (get_all_paths (n_db (x_node w))) (λ p, unlink_src p ;; on_progress (Progress.add_success 1)) ;;
  on_progress Progress.done.

(** ** [Downloader]; [now_ns] is the modification time of a file just written. *)
Context (now_ns : Z).

Definition snapshotfile_already_exists (f : SnapshotFile) : M (xfer SH) bool :=
  w ← get;
  mret (match get_file (n_db (x_node w)) (relative_path f) with
        | Some e => equals_excluding_mtime e f
        | None => false
        end).

Definition new_ino (s : fs) : nat := fresh (dom (inodes s)).

(** The temporary file of [open_path_with_atomic_rename] becomes the target: a
    new inode, whatever file was there. *)
Definition install (p : string) (d : list byte) (s : fs) : fs :=
  mkFs (<[new_ino s := mkInode d now_ns]> (inodes s)) (<[p := Regular (new_ino s)]> (src s)) (dst s).
Definition rename_to (p : string) (d : list byte) : M node unit :=
  w ← get;
  if decide (src (n_fs w) !! p = Some Directory) then raise IsADirectoryError else put (set_fs (install p d (n_fs w)) w).

(** [os.utime], which follows symbolic links *)
Definition utime (p : string) (mtime : Z) : M (xfer SH) unit := on_node (
  w ← get;
  match src (n_fs w) !! p with
  | None => raise (missing_error (src (n_fs w)) p)
  | Some Directory => mret tt
  | Some e =>
      match target e with
      | None => raise FileNotFoundError
      | Some i =>
          match inodes (n_fs w) !! i with
          | None => raise FileNotFoundError
          | Some n => put (set_fs (mkFs (<[i := mkInode (data n) mtime]> (inodes (n_fs w))) (src (n_fs w)) (dst (n_fs w))) w)
          end
      end
  end).

(** Modes are not part of the file system; [FileMode] has the one given here. *)
Definition download_snapshotfile (f : SnapshotFile) : M (xfer SH) unit :=
  exists_ ← snapshotfile_already_exists f;
  if (exists_ : bool) then mret tt
  else
    on_node (on_src (mkdir_parent (relative_path f))) ;;
    contents ← (if decide (hexdigest f ≠ "") then on_store (st_open hex (hexdigest f))
                else lift_res (match content_b64 f with
                               | None => Raise AssertionError
                               | Some b => Base64.b64decode b
                               end));
    on_node (rename_to (relative_path f) contents) ;;
    utime (relative_path f) (mtime_ns f).

(** [shutil.copy]: what is to be copied to a directory goes into it; an existing
    target is overwritten in place, through symbolic links; a missing one is
    created, in a directory that is there. *)
Definition copy_target (t : tree) (from to : string) : string :=
  if decide (t !! to = Some Directory) then to +:+ String "/"%char (rpartition_last "/"%char from) else to.
Definition copy (from to : string) : M node unit :=
  w ← get;
  let s := n_fs w in
  let to := copy_target (src s) from to in
  match src s !! from, src s !! from ≫= target with
  | None, _ => raise (missing_error (src s) from)
  | Some Directory, _ => raise IsADirectoryError
  | Some _, None => raise FileNotFoundError
  | Some _, Some i =>
      match inodes s !! i with
      | None => raise FileNotFoundError
      | Some n =>
          match src s !! to with
          | None => put (set_fs (install to (data n) s) w)
          | Some Directory => raise IsADirectoryError
          | Some e =>
              match target e with
              | Some j =>
                  if decide (i = j) then raise SameFileError
                  else put (set_fs (mkFs (<[j := mkInode (data n) now_ns]> (inodes s)) (src s) (dst s)) w)
              | None =>
                  put (set_fs (mkFs (<[new_ino s := mkInode (data n) now_ns]> (inodes s))
                                 (<[to := Symlink (Some (new_ino s))]> (src s)) (dst s)) w)
              end
          end
      end
  end.

Definition copy_snapshotfile (f_src f : SnapshotFile) : M (xfer SH) unit :=
  exists_ ← snapshotfile_already_exists f;
  if (exists_ : bool) then mret tt
  else
    on_node (on_src (mkdir_parent (relative_path f))) ;;
    on_node (copy (relative_path f_src) (relative_path f)) ;;
    utime (relative_path f) (mtime_ns f).

Definition download_snapshotfiles_from_storage (files : list SnapshotFile) : M (xfer SH) unit :=
  match files with
  | [] => raise IndexError
  | f :: rest => download_snapshotfile f ;; for_each rest (copy_snapshotfile f)
  end.

(** [hexdigest_to_snapshotfiles]: [setdefault(hexdigest, []).append(f)] *)
Definition by_hexdigest (files : list SnapshotFile) : list (string * list SnapshotFile) :=
  foldl (λ d f, if decide (hexdigest f = "") then d
                else dict_alter (λ o, default [] o ++ [f]) (hexdigest f) d) [] files.

Definition download_result_cb (map_in : list SnapshotFile) (map_out : unit) : M (xfer SH) bool :=
  match map_in with
  | [] => raise IndexError
  | f :: _ => on_progress (Progress.download_success ((file_size f + 1) * Z.of_nat (length map_in))) ;; still_running
  end.

Definition larger_first (a b : list SnapshotFile) : bool :=
  match a, b with f :: _, g :: _ => file_size g <=? file_size f | _, _ => true end.

(** [download_from_storage], without [copy_dst_owner]: [Chown] has what that
    adds before the end. *)
Definition download_from_storage (state : SnapshotState) : M (xfer SH) unit :=
  on_node (perform_snapshot glob_match digest same_root src_parts groups) ;;
  on_progress (Progress.start (foldr Z.add 0 ((λ f, 1 + file_size f) <$> state_files state))) ;;
  for_each (state_files state) (λ f,
    if decide (hexdigest f = "") then
      download_snapshotfile f ;; on_progress (Progress.download_success (file_size f + 1))
    else mret tt) ;;
  let all_snapshotfiles := py_sorted larger_first (by_hexdigest (state_files state)).*2 in
  ok ← Files.parallel_map_to download_snapshotfiles_from_storage download_result_cb all_snapshotfiles;
  if negb ok then on_progress (Progress.add_fail 1) ;; on_progress Progress.done
  else
    w ← get;
    for_each (filter (λ p, p ∉ relative_path <$> state_files state) (get_all_paths (n_db (x_node w)))) unlink_src ;;
    on_progress Progress.done.

(** [DownloadOp.download]; [snapshot_results] are those of the manifest, whose
    decoding needs the entry at [index]. *)
Definition download_snapshot (snapshot_results : list SnapshotResult) (index : nat) : res SnapshotResult :=
  match snapshot_results !! index with Some r => Ok r | None => Raise DecodeError end.

Definition DownloadOp_download (snapshot_results : list SnapshotResult) (index : nat) : M (xfer SH) unit :=
  snapshot ← lift_res (download_snapshot snapshot_results index);
  match sr_state snapshot with
  | None => raise AssertionError
  | Some state => check_op_id ;; download_from_storage state
  end.
End groups.

(** ** Uploads *)
Section upload.
Context `{!StorageSpec hex}.
Context (running : ∀ w, still_running w = (w, Ok true)) (current : ∀ w, check_op_id w = (w, Ok tt)).

(** The link of a row holds what the row says. *)
Definition good_row (s : fs) (f : SnapshotFile) : Prop :=
  ∃ n, resolve s (dst_tree same_root s) (relative_path f) = Some n ∧ digest (data n) = hexdigest f ∧
       file_size f = Z.of_nat (length (data n)) ∧ st_value (ops:=hex) (data n).

Lemma on_node_run {A} (m : M node A) w n r :
  m (x_node w) = (n, r) → on_node m w = (mkXfer n (x_store w) (x_progress w) (x_total w) (x_stored w), r).
Proof. intros H. unfold on_node, zoom. by rewrite H. Qed.
Lemma on_store_run {A} (m : M SH A) w s r :
  m (x_store w) = (s, r) → on_store m w = (mkXfer (x_node w) s (x_progress w) (x_total w) (x_stored w), r).
Proof. intros H. unfold on_store, zoom. by rewrite H. Qed.
Lemma on_progress_run {A} (m : M Progress A) w p r :
  m (x_progress w) = (p, r) → on_progress m w = (mkXfer (x_node w) (x_store w) p (x_total w) (x_stored w), r).
Proof. intros H. unfold on_progress, zoom. by rewrite H. Qed.

Lemma open_run (w : node) f n :
  n_interference w = [] → resolve (n_fs w) (dst_tree same_root (n_fs w)) (relative_path f) = Some n →
  open_for_reading same_root f w = (w, Ok (SizeLimitedFile.mk (data n) 0 (file_size f))).
Proof.
  intros Hq Hn. unfold open_for_reading. rewrite (bind_ok tick _ w w tt); [|unfold tick; by rewrite Hq].
  rewrite (bind_ok get _ w w w) by done. by rewrite (open_resolve _ _ _ _ Hn).
Qed.

Lemma hash_changed_run (w : node) f n :
  n_interference w = [] → resolve (n_fs w) (dst_tree same_root (n_fs w)) (relative_path f) = Some n →
  file_size f = Z.of_nat (length (data n)) →
  hash_changed f w = (w, Ok (bool_decide (digest (data n) ≠ hexdigest f))).
Proof.
  intros Hq Hn Hsz. unfold hash_changed. erewrite bind_ok by (by apply open_run).
  unfold hash_hexdigest_readable. rewrite SizeLimitedFile.read_all_run by (simpl; unfold read_buffer; lia).
  unfold SizeLimitedFile.limited. simpl. rewrite Hsz, Nat2Z.id, take_ge by lia. done.
Qed.

Lemma upload_from_good v f rest (w : xfer SH) :
  n_interference (x_node w) = [] → good_row (n_fs (x_node w)) f →
  st_inv (ops:=hex) (x_store w) → st_name (ops:=hex) (hexdigest f) →
  ∃ s d, upload_from v (hexdigest f) (f :: rest) w =
      (mkXfer (x_node w) s (x_progress w) (x_total w) (x_stored w), Ok (upload_success (file_size f) (stored_size d))) ∧
    digest d = hexdigest f ∧ st_inv (ops:=hex) s ∧
    ∀ m, st_lookup (ops:=hex) s m = if decide (m = hexdigest f) then Some d else st_lookup (ops:=hex) (x_store w) m.
Proof.
  intros Hq (n & Hn & Hdig & Hsz & Hv) Hinv Hname.
  destruct (st_upload_spec (x_store w) (hexdigest f) (data n) Hinv Hname Hv) as (s & Hup & Hinv' & Hlk).
  exists s, (data n). split; [|done]. set (w1 := mkXfer (x_node w) s (x_progress w) (x_total w) (x_stored w)).
  assert (∀ w', x_node w' = x_node w →
    (if v then on_node (hash_changed f) else mret false) w' = (w', Ok false)) as Hcheck.
  { intros w' Hw'. destruct v; [|done]. erewrite on_node_run; [|rewrite Hw'; by apply hash_changed_run].
    rewrite bool_decide_false by tauto. rewrite <- Hw'. by destruct w'. }
  cbn [upload_from]. erewrite bind_ok.
  2:{ erewrite on_node_run; [reflexivity|]. unfold is_file. rewrite (bind_ok tick _ _ (x_node w) tt); [|unfold tick; by rewrite Hq].
      by rewrite (bind_ok get _ _ (x_node w) (x_node w)). }
  rewrite bool_decide_true by eauto. cbn [negb].
  assert (mkXfer (x_node w) (x_store w) (x_progress w) (x_total w) (x_stored w) = w) as -> by (by destruct w).
  erewrite bind_ok by (by apply Hcheck).
  cbn iota. rewrite (bind_ok (upload_file (hexdigest f) f) _ w w1 (Some (file_size f, stored_size (data n)))).
  - by erewrite bind_ok by (by apply Hcheck).
  - unfold upload_file, try_except. erewrite bind_ok by (apply on_node_run; by apply open_run).
    assert (fst (SizeLimitedFile.read (SizeLimitedFile.mk (data n) 0 (file_size f)) None) = data n) as ->.
    { rewrite SizeLimitedFile.read_spec by done. unfold SizeLimitedFile.limited. simpl.
      rewrite drop_0, !take_ge by (rewrite ?length_take; lia). done. }
    cbn zeta. erewrite bind_ok by (apply on_store_run; exact Hup). rewrite Hsz. by destruct w.
Qed.

(** The files of a requested digest. *)
Definition uploadable (w : xfer SH) (h : string) : Prop :=
  h ≠ "" ∧ st_name (ops:=hex) h ∧ (∃ p f, n_db (x_node w) !! p = Some f ∧ hexdigest f = h) ∧
  ∀ p f, n_db (x_node w) !! p = Some f → hexdigest f = h → good_row (n_fs (x_node w)) f.

Lemma elem_of_files_for_digest d h f :
  f ∈ get_files_for_digest d h ↔ hexdigest f = h ∧ ∃ p, d !! p = Some f.
Proof.
  unfold get_files_for_digest, rows. rewrite elem_of_py_sorted, list_elem_of_filter, list_elem_of_fmap.
  split; intros [? H]; (split; [done|]).
  - destruct H as ([p f'] & -> & Hin%elem_of_map_to_list). eauto.
  - destruct H as [p Hp]. exists (p, f). split; [done|]. by apply elem_of_map_to_list.
Qed.

(** The state after the digests of [pre]. *)
Definition uploaded (w : xfer SH) (n : Z) (pre : list (string * list SnapshotFile)) (w' : xfer SH) : Prop :=
  x_node w' = x_node w ∧ x_progress w' = mkProgress (Z.of_nat (length pre)) 0 n false ∧
  st_inv (ops:=hex) (x_store w') ∧
  (∀ h, h ∈ pre.*1 → ∃ d, st_lookup (ops:=hex) (x_store w') h = Some d ∧ digest d = h) ∧
  (∀ h, h ∉ pre.*1 → st_lookup (ops:=hex) (x_store w') h = st_lookup (ops:=hex) (x_store w) h).

Lemma upload_one_run v (w w1 : xfer SH) n pre x :
  n_interference (x_node w) = [] → uploadable w x.1 → x.1 ∉ pre.*1 →
  Z.of_nat (length pre) < n → uploaded w n pre w1 →
  ∃ w2 y w3, upload_hexdigest_in_thread v x w1 = (w2, Ok y) ∧ upload_result_cb x y w2 = (w3, Ok true) ∧
    uploaded w n (pre ++ [x]) w3.
Proof.
  intros Hq (Hne & Hname & (p & f0 & Hp & Hf0) & Hgood) Hni Hlt (Hnode & Hprog & Hinv & Hdone & Hrest).
  destruct (get_files_for_digest (n_db (x_node w)) x.1) as [|f rest] eqn:Efiles.
  { exfalso. eapply not_elem_of_nil. rewrite <- Efiles. apply elem_of_files_for_digest. eauto. }
  assert (hexdigest f = x.1 ∧ good_row (n_fs (x_node w)) f) as [Hhf Hrow].
  { assert (f ∈ get_files_for_digest (n_db (x_node w)) x.1) as Hin by (rewrite Efiles; by left).
    apply elem_of_files_for_digest in Hin as [Hh [q Hqf]]. split; [done|]. by eapply Hgood. }
  rewrite <- Hhf in Hname. rewrite <- Hnode in Hq, Hrow.
  destruct (upload_from_good v f rest w1 Hq Hrow Hinv Hname) as (s & d & Hrun & Hdig & Hinv' & Hlk).
  do 3 eexists. split; [|split].
  - unfold upload_hexdigest_in_thread. rewrite bool_decide_true by done.
    rewrite (bind_ok (py_assert true) _ w1 w1 tt) by done. rewrite (bind_ok get _ w1 w1 w1) by done.
    rewrite Hnode, Efiles, <- Hhf. exact Hrun.
  - unfold upload_result_cb. cbn beta iota zeta.
    erewrite (bind_ok (modify _)) by done. erewrite bind_ok; [|apply on_progress_run].
    2:{ simpl. rewrite Hprog. apply Progress.add_success_run; lia. }
    apply running.
  - split; [done|]. split; [simpl; f_equal; rewrite length_app; simpl; lia|]. split; [done|].
    rewrite fmap_app. simpl. split.
    + intros h. rewrite Hlk, elem_of_app, list_elem_of_singleton, <- Hhf. intros [Hin| ->].
      * rewrite decide_False; [by apply Hdone|]. intros ->. by rewrite Hhf in Hin.
      * rewrite decide_True by done. by exists d.
    + intros h. rewrite Hlk, not_elem_of_app, list_elem_of_singleton, <- Hhf. intros [Hin Hneq].
      rewrite decide_False by done. by apply Hrest.
Qed.

(** The digests in the order in which they are uploaded. *)
Definition upload_order (w : xfer SH) (hashes : list SnapshotHash) : list (string * list SnapshotFile) :=
  py_sorted largest_first
    ((λ h, (h, get_files_for_digest (n_db (x_node w)) h)) <$> remove_dups (hash_hexdigest <$> hashes)).

Lemma upload_order_keys w hashes : (upload_order w hashes).*1 ≡ₚ remove_dups (hash_hexdigest <$> hashes).
Proof.
  unfold upload_order. rewrite py_sorted_Permutation, <- list_fmap_compose. by rewrite list_fmap_id.
Qed.

Lemma upload_all_run v (w : xfer SH) hashes n :
  n_interference (x_node w) = [] → st_inv (ops:=hex) (x_store w) →
  (∀ h, h ∈ hash_hexdigest <$> hashes → uploadable w h) → n = Z.of_nat (length (upload_order w hashes)) →
  ∃ w1, Files.parallel_map_to (upload_hexdigest_in_thread v) upload_result_cb (upload_order w hashes)
          (mkXfer (x_node w) (x_store w) (mkProgress 0 0 n false) 0 0) = (w1, Ok true) ∧
        uploaded w n (upload_order w hashes) w1.
Proof.
  intros Hq Hinv Hup Hn. apply Files.parallel_map_to_ind.
  { split; [done|]. split; [done|]. split; [done|]. split; [by intros h ?%not_elem_of_nil|done]. }
  pose proof (upload_order_keys w hashes) as Hperm. pose proof (NoDup_remove_dups (hash_hexdigest <$> hashes)) as Hnd.
  intros pre x post w1 Hl Hu. rewrite <- Hperm, Hl, fmap_app in Hnd. apply (upload_one_run _ w); [done| | | |done].
  - apply Hup, elem_of_remove_dups. rewrite <- Hperm, Hl, fmap_app. apply elem_of_app. right. by left.
  - apply NoDup_app in Hnd as (_ & Hd & _). intros Hin. apply (Hd _ Hin). by left.
  - rewrite Hn, Hl, length_app. simpl. lia.
Qed.

Lemma write_hashes_run v (w : xfer SH) hashes :
  n_interference (x_node w) = [] → st_inv (ops:=hex) (x_store w) → x_progress w = new_progress →
  (∀ h, h ∈ hash_hexdigest <$> hashes → uploadable w h) →
  ∃ w1, write_hashes_to_storage hashes v w = (w1, Ok (x_total w1, x_stored w1)) ∧
    uploaded w (Z.of_nat (length (upload_order w hashes))) (upload_order w hashes) w1.
Proof.
  intros Hq Hinv Hprog Hup. destruct (upload_all_run v w hashes _ Hq Hinv Hup eq_refl) as (w1 & Hmap & Hu).
  exists w1. split; [|done].
  unfold write_hashes_to_storage. rewrite (bind_ok get _ w w w) by done. cbn zeta.
  assert (existsb (λ hf, bool_decide (hf.2 = []))
    ((λ h, (h, get_files_for_digest (n_db (x_node w)) h)) <$> remove_dups (hash_hexdigest <$> hashes)) = false) as ->.
  { apply not_true_iff_false. intros (hf & Hin & Hb)%existsb_exists. apply bool_decide_eq_true in Hb.
    apply list_elem_of_In, list_elem_of_fmap in Hin as (h & -> & Hh). simpl in Hb.
    destruct (Hup h) as (_ & _ & (p & f & Hp & Hf) & _); [by apply elem_of_remove_dups|].
    eapply not_elem_of_nil. rewrite <- Hb. apply elem_of_files_for_digest. eauto. }
  change (py_sorted largest_first _) with (upload_order w hashes).
  erewrite bind_ok by (apply on_progress_run; rewrite Hprog; apply Progress.start_run).
  erewrite bind_ok by done. cbn [x_node x_store x_progress]. by erewrite bind_ok by exact Hmap.
Qed.

(** An upload stores what it was asked for.  When each requested digest
    has files in the snapshot whose links hold contents of that digest, and
    nothing interferes, the upload operation finishes successfully and the
    storage then holds, under every requested digest, contents with that
    digest; no other object changes. *)
Theorem upload_stores_hashes (w : xfer SH) (hashes : list SnapshotHash) (validate_file_hashes : bool) :
  n_interference (x_node w) = [] → st_inv (ops:=hex) (x_store w) → x_progress w = new_progress →
  (∀ h, h ∈ hash_hexdigest <$> hashes → uploadable w h) →
  ∃ w' sizes, UploadOp_upload hashes validate_file_hashes w = (w', Ok sizes) ∧
    Progress.finished_successfully (x_progress w') = true ∧ x_node w' = x_node w ∧
    st_inv (ops:=hex) (x_store w') ∧
    (∀ h, h ∈ hash_hexdigest <$> hashes → ∃ d, st_lookup (ops:=hex) (x_store w') h = Some d ∧ digest d = h) ∧
    (∀ h, h ∉ hash_hexdigest <$> hashes → st_lookup (ops:=hex) (x_store w') h = st_lookup (ops:=hex) (x_store w) h).
Proof.
  intros Hq Hinv Hprog Hup.
  destruct (write_hashes_run validate_file_hashes w hashes Hq Hinv Hprog Hup) as (w1 & Hrun & Hnode & Hpr & Hinv1 & Hdone & Hrest).
  assert (∀ h, h ∈ (upload_order w hashes).*1 ↔ h ∈ hash_hexdigest <$> hashes) as Hel.
  { intros h. by rewrite upload_order_keys, elem_of_remove_dups. }
  set (n := Z.of_nat (length (upload_order w hashes))) in *.
  exists (mkXfer (x_node w1) (x_store w1) (mkProgress n 0 n true) (x_total w1) (x_stored w1)), (x_total w1, x_stored w1).
  split; [|split; [|split; [exact Hnode|split; [exact Hinv1|split]]]].
  - unfold UploadOp_upload. erewrite bind_ok by apply current. erewrite bind_ok by exact Hrun.
    erewrite bind_ok by (apply on_progress_run; rewrite Hpr; by apply Progress.done_run). reflexivity.
  - unfold Progress.finished_successfully. simpl. apply Z.eqb_refl.
  - intros h Hh. by apply Hdone, Hel.
  - intros h Hh. apply Hrest. by rewrite Hel.
Qed.
End upload.

(** ** Downloads *)

(** The contents of a regular file of the source directory. *)
Definition content (s : fs) (p : string) : option inode :=
  match src s !! p with Some (Regular i) => inodes s !! i | _ => None end.

(** No two names of the source directory share an inode. *)
Definition separate (s : fs) : Prop :=
  ∀ p q i, src s !! p = Some (Regular i) → src s !! q = Some (Regular i) → p = q.
Definition fs_ok (s : fs) : Prop := fs_wf s ∧ separate s.

(** From [s] to [s'] the file [p] became [n] and nothing else changed, but for
    directories that were made above it. *)
Definition made_above (s s' : fs) (p q : string) : Prop :=
  src s !! q = None ∧ src s' !! q = Some Directory ∧ q ∈ ancestors p.
Definition rewritten (s : fs) (p : string) (n : inode) (s' : fs) : Prop :=
  fs_ok s' ∧ content s' p = Some n ∧
  ∀ q, q ≠ p → (src s' !! q = src s !! q ∨ made_above s s' p q) ∧ content s' q = content s q.
(** There is room for the file [p]: no directory in its place, and directories
    or nothing above it. *)
Definition room_for (s : fs) (p : string) : Prop :=
  src s !! p ≠ Some Directory ∧ ∀ q, q ∈ ancestors p → roomy (src s !! q).
(** The directories above it are there. *)
Definition based (s : fs) (p : string) : Prop :=
  src s !! p ≠ Some Directory ∧ ∀ q, q ∈ ancestors p → src s !! q = Some Directory.

Section files.
Context (now_ns : Z).

Lemma new_ino_fresh s i : is_Some (inodes s !! i) → i ≠ new_ino s.
Proof. intros Hi ->. apply elem_of_dom in Hi. by apply (is_fresh (dom (inodes s))). Qed.

(** A fresh inode under the name [p]. *)
Lemma rewritten_new s p n n0 :
  fs_ok s → based s p → rewritten s p n (mkFs (<[new_ino s := n]> (<[new_ino s := n0]> (inodes s))) (<[p := Regular (new_ino s)]> (src s)) (dst s)).
Proof.
  intros [[Hwf Htree] Hsep] [Hp Ha]. split; [split; [split|]|split].
  - intros q i. simpl. destruct (decide (q = p)) as [->|Hq].
    + rewrite lookup_insert_eq. intros [= <-]. rewrite lookup_insert_eq. eauto.
    + rewrite lookup_insert_ne by done. intros Hi%Hwf. pose proof (new_ino_fresh s i Hi).
      by rewrite !lookup_insert_ne by done.
  - by apply insert_wf.
  - intros q1 q2 i. simpl. destruct (decide (q1 = p)) as [->|H1], (decide (q2 = p)) as [->|H2]; [done| | |];
      rewrite ?lookup_insert_eq, ?lookup_insert_ne by done.
    + intros [= <-] Hi. exfalso. by apply (new_ino_fresh s (new_ino s) (Hwf _ _ Hi)).
    + intros Hi [= <-]. exfalso. by apply (new_ino_fresh s (new_ino s) (Hwf _ _ Hi)).
    + apply Hsep.
  - unfold content. simpl. by rewrite !lookup_insert_eq.
  - intros q Hq. unfold content. simpl. rewrite lookup_insert_ne by done. split; [by left|].
    destruct (src s !! q) as [[i| |]|] eqn:E; [|done..]. pose proof (new_ino_fresh s i (Hwf _ _ E)).
    by rewrite !lookup_insert_ne by done.
Qed.

(** New contents for the inode that [p] names. *)
Lemma rewritten_in_place s p i n n0 :
  fs_ok s → src s !! p = Some (Regular i) →
  rewritten s p n (mkFs (<[i := n]> (<[i := n0]> (inodes s))) (src s) (dst s)).
Proof.
  intros [[Hwf Htree] Hsep] Hp. split; [split; [split; [|exact Htree]|]|split].
  - intros q j Hj. simpl in *. destruct (decide (i = j)) as [->|Hne]; [rewrite lookup_insert_eq; eauto|].
    rewrite !lookup_insert_ne by done. by eapply Hwf.
  - exact Hsep.
  - unfold content. simpl. by rewrite Hp, lookup_insert_eq.
  - intros q Hq. split; [by left|]. unfold content. simpl. destruct (src s !! q) as [[j| |]|] eqn:E; [|done..].
    assert (i ≠ j) as Hne by (intros ->; by apply Hq, (Hsep q p j)). by rewrite !lookup_insert_ne by done.
Qed.

Lemma utime_run p mt (w : xfer SH) i n :
  src (n_fs (x_node w)) !! p = Some (Regular i) → inodes (n_fs (x_node w)) !! i = Some n →
  utime p mt w = (mkXfer (set_fs (mkFs (<[i := mkInode (data n) mt]> (inodes (n_fs (x_node w)))) (src (n_fs (x_node w))) (dst (n_fs (x_node w)))) (x_node w))
                    (x_store w) (x_progress w) (x_total w) (x_stored w), Ok tt).
Proof.
  intros Hp Hi. unfold utime. erewrite on_node_run; [reflexivity|].
  rewrite (bind_ok get _ _ (x_node w) (x_node w)) by done. rewrite Hp. simpl. by rewrite Hi.
Qed.

(** A node with another file system. *)
Definition at_fs (w : xfer SH) (s : fs) : xfer SH :=
  mkXfer (set_fs s (x_node w)) (x_store w) (x_progress w) (x_total w) (x_stored w).

(** The directories above a file are made. *)
Definition above_made (s : fs) (p : string) (s1 : fs) : Prop :=
  inodes s1 = inodes s ∧ dst s1 = dst s ∧ dirs_made (ancestors p) (src s) (src s1).

Lemma above_made_src s p s1 q : above_made s p s1 → q ∉ ancestors p → src s1 !! q = src s !! q.
Proof. intros (_ & _ & Hm) Hq. rewrite Hm. by rewrite decide_False. Qed.

Lemma above_made_content s p s1 : room_for s p → above_made s p s1 → ∀ q, content s1 q = content s q.
Proof.
  intros [_ Hr] (Hi & _ & Hm) q. unfold content. rewrite Hi, Hm. case_decide as Hq; [|done]. by destruct (Hr q Hq) as [->| ->].
Qed.

Lemma above_made_ok s p s1 : fs_ok s → room_for s p → above_made s p s1 → fs_ok s1 ∧ based s1 p.
Proof.
  intros [[Hwf Htree] Hsep] [Hp Hr] (Hi & _ & Hm).
  assert (∀ q i, src s1 !! q = Some (Regular i) → src s !! q = Some (Regular i)) as Hreg.
  { intros q i. rewrite Hm. by case_decide. }
  split; [split; [split|]|split].
  - intros q i Hq%Hreg. rewrite Hi. by apply (Hwf q).
  - by apply (dirs_made_wf p (src s)).
  - intros q1 q2 i H1%Hreg H2%Hreg. by apply (Hsep q1 q2 i).
  - rewrite Hm, decide_False by apply ancestors_irrefl. done.
  - intros q Hq. rewrite Hm. by rewrite decide_True.
Qed.

Lemma mkdir_parent_run p (w : xfer SH) :
  room_for (n_fs (x_node w)) p →
  ∃ s1, on_node (on_src (mkdir_parent p)) w = (at_fs w s1, Ok tt) ∧ above_made (n_fs (x_node w)) p s1.
Proof.
  intros [_ Hr]. destruct (make_dirs_run (ancestors p) (src (n_fs (x_node w))) Hr) as (t & Hrun & Hm).
  exists (with_src (λ _, t) (n_fs (x_node w))). split; [|done]. erewrite on_node_run; [reflexivity|].
  unfold on_src, zoom, mkdir_parent. by rewrite Hrun.
Qed.

(** A file rewritten after the directories above it were made. *)
Lemma rewritten_above s p s1 n s' : room_for s p → above_made s p s1 → rewritten s1 p n s' → rewritten s p n s'.
Proof.
  intros Hr Hm (Hok & Hc & Hoth). split; [done|]. split; [done|]. intros q Hq. destruct (Hoth q Hq) as [Hs Hcq].
  rewrite Hcq, (above_made_content s p s1 Hr Hm). split; [|done].
  destruct Hs as [Hs|(Hs1 & Hs2 & Hin)].
  - destruct Hm as (_ & _ & Hm). rewrite Hm in Hs. case_decide as Hin; [|by left]. destruct (proj2 Hr q Hin) as [E|E]; [by right|left; congruence].
  - exfalso. destruct Hm as (_ & _ & Hm). rewrite Hm, decide_True in Hs1 by done. done.
Qed.

Lemma install_utime_run p d mt (w : xfer SH) :
  fs_ok (n_fs (x_node w)) → based (n_fs (x_node w)) p →
  ∃ s', (on_node (rename_to now_ns p d) ≫= λ _, utime p mt) w = (at_fs w s', Ok tt) ∧
        rewritten (n_fs (x_node w)) p (mkInode d mt) s'.
Proof.
  intros Hok Hb. eexists. split.
  - erewrite bind_ok.
    2:{ apply on_node_run. unfold rename_to. rewrite (bind_ok get _ _ (x_node w) (x_node w)) by done.
        rewrite decide_False by apply Hb. reflexivity. }
    unfold install. erewrite utime_run; [|simpl; apply lookup_insert_eq|simpl; apply lookup_insert_eq]. reflexivity.
  - simpl. by apply rewritten_new.
Qed.

Lemma copy_utime_run from to mt (w : xfer SH) n :
  fs_ok (n_fs (x_node w)) → content (n_fs (x_node w)) from = Some n → from ≠ to →
  based (n_fs (x_node w)) to → (∀ t, src (n_fs (x_node w)) !! to ≠ Some (Symlink t)) →
  ∃ s', (on_node (copy now_ns from to) ≫= λ _, utime to mt) w = (at_fs w s', Ok tt) ∧
        rewritten (n_fs (x_node w)) to (mkInode (data n) mt) s'.
Proof.
  intros Hok Hn Hne Hb Hsl. destruct Hok as [Hwf Hsep] eqn:Heq. clear Heq. unfold content in Hn.
  assert (copy_target (src (n_fs (x_node w))) from to = to) as Htgt by (unfold copy_target; by rewrite decide_False by apply Hb).
  destruct (src (n_fs (x_node w)) !! from) as [[i| |]|] eqn:Efrom; [|done..].
  destruct (src (n_fs (x_node w)) !! to) as [[j|t|]|] eqn:Eto; [|by specialize (Hsl t)|by destruct Hb|].
  - assert (i ≠ j) as Hij by (intros ->; by apply Hne, (Hsep from to j)). eexists. split.
    + erewrite bind_ok.
      2:{ apply on_node_run. unfold copy. rewrite (bind_ok get _ _ (x_node w) (x_node w)) by done. cbv zeta.
          rewrite Htgt, Efrom. simpl. rewrite Hn, Eto. simpl. rewrite decide_False by done. reflexivity. }
      erewrite utime_run; [|simpl; exact Eto|simpl; apply lookup_insert_eq]. reflexivity.
    + simpl. by apply rewritten_in_place.
  - eexists. split.
    + erewrite bind_ok.
      2:{ apply on_node_run. unfold copy. rewrite (bind_ok get _ _ (x_node w) (x_node w)) by done. cbv zeta.
          rewrite Htgt, Efrom. simpl. rewrite Hn, Eto. reflexivity. }
      erewrite utime_run; [|simpl; apply lookup_insert_eq|simpl; apply lookup_insert_eq]. reflexivity.
    + simpl. by apply rewritten_new.
Qed.
End files.

Section download.
Context `{!StorageSpec hex} (groups : list SnapshotGroup) (now_ns : Z).
Context (running : ∀ w, still_running w = (w, Ok true)) (current : ∀ w, check_op_id w = (w, Ok tt)).
(** The digest has no collisions and is not empty. *)
Context (digest_inj : ∀ d d', digest d = digest d' → d = d') (digest_nonempty : ∀ d, digest d ≠ "").

(** The contents of a file of a snapshot state can be had: embedded, or in
    storage. *)
Definition available (store : SH) (f : SnapshotFile) (d : list byte) : Prop :=
  file_size f = Z.of_nat (length d) ∧
  if decide (hexdigest f = "") then content_b64 f = Some (Base64.b64encode d)
  else st_name (ops:=hex) (hexdigest f) ∧ st_lookup (ops:=hex) store (hexdigest f) = Some d ∧ digest d = hexdigest f.

(** The file [f] is in place; one that was already there keeps its time. *)
Definition restored (store : SH) (s0 s : fs) (f : SnapshotFile) : Prop :=
  ∃ n, content s (relative_path f) = Some n ∧ available store f (data n) ∧
       (mtime n = mtime_ns f ∨ content s0 (relative_path f) = Some n).

(** The state of a download after the files [done], which started in [w0]. *)
Definition progressed (w0 : xfer SH) (p : Progress) (done : list SnapshotFile) (w : xfer SH) : Prop :=
  n_interference (x_node w) = [] ∧ n_db (x_node w) = n_db (x_node w0) ∧ fs_ok (n_fs (x_node w)) ∧
  st_inv (ops:=hex) (x_store w) ∧ (∀ h, st_lookup (ops:=hex) (x_store w) h = st_lookup (ops:=hex) (x_store w0) h) ∧
  x_progress w = p ∧
  (∀ f, f ∈ done → restored (x_store w0) (n_fs (x_node w0)) (n_fs (x_node w)) f) ∧
  (∀ q, q ∉ relative_path <$> done →
     (src (n_fs (x_node w)) !! q = src (n_fs (x_node w0)) !! q ∨
      ∃ g, g ∈ done ∧ made_above (n_fs (x_node w0)) (n_fs (x_node w)) (relative_path g) q) ∧
     content (n_fs (x_node w)) q = content (n_fs (x_node w0)) q).

(** The rows describe the source files as they were. *)
Definition rows_describe (w : xfer SH) : Prop :=
  ∀ p f, n_db (x_node w) !! p = Some f → relative_path f = p ∧
    ∃ n, content (n_fs (x_node w)) p = Some n ∧ describes digest f p n.

Lemma same_contents store e f n d :
  describes digest e (relative_path f) n → equals_excluding_mtime e f = true → available store f d → data n = d.
Proof.
  intros (_ & _ & _ & He) Heq [_ Hd]. apply bool_decide_eq_true in Heq. injection Heq as _ _ Hh Hb.
  destruct He as [[He Hc]|[He Hc]]; rewrite Hh in He; case_decide as Hf.
  - rewrite Hb, Hd in Hc. injection Hc as Hc. apply (f_equal Base64.b64decode) in Hc.
    rewrite !Base64.b64_decode_encode in Hc. congruence.
  - done.
  - exfalso. rewrite Hf in He. by eapply digest_nonempty.
  - destruct Hd as (_ & _ & Hd). apply digest_inj. congruence.
Qed.

Lemma progressed_rewritten w0 P done w f n s' :
  progressed w0 P done w → relative_path f ∉ relative_path <$> done →
  rewritten (n_fs (x_node w)) (relative_path f) n s' → available (x_store w0) f (data n) → mtime n = mtime_ns f →
  progressed w0 P (done ++ [f]) (at_fs w s').
Proof.
  intros (Hq & Hdb & Hok & Hinv & Hlk & HP & Hdone & Hrest) Hni (Hok' & Hc & Hoth) Hav Hmt.
  split; [done|]. split; [done|]. split; [done|]. split; [done|]. split; [done|]. split; [done|]. split.
  - intros g [Hg|Hg%list_elem_of_singleton]%elem_of_app.
    + destruct (Hdone g Hg) as (m & Hm & Hm2). exists m. split; [|done]. simpl.
      assert (relative_path g ≠ relative_path f) as Hne by (intros E; apply Hni; rewrite <- E; by apply list_elem_of_fmap_2).
      by rewrite (proj2 (Hoth _ Hne)).
    + subst g. exists n. split; [done|]. split; [done|]. by left.
  - intros q Hq'. rewrite fmap_app in Hq'. apply not_elem_of_app in Hq' as [H1 H2].
    assert (q ≠ relative_path f) as Hne by (intros ->; apply H2; by left).
    simpl. destruct (Hoth q Hne) as [Hsq ->], (Hrest q H1) as [Hsw ->]. split; [|done]. destruct Hsq as [->|(Hn & Hd & Hin)].
    + destruct Hsw as [?|(g & Hg & H0 & Hd & Hin)]; [by left|]. right. exists g. split; [apply elem_of_app; by left|].
      split; [done|]. split; [|done].
      destruct (Hoth q Hne) as [[->|(? & ? & _)] _]; [done|congruence].
    + right. destruct Hsw as [Hs0|(g & _ & _ & ? & _)]; [|congruence]. exists f. split; [apply elem_of_app; right; by left|].
      split; [congruence|done].
Qed.

(** A file the snapshot already has. *)
Lemma progressed_exists w0 P done w f d e :
  rows_describe w0 → progressed w0 P done w → relative_path f ∉ relative_path <$> done →
  n_db (x_node w) !! relative_path f = Some e → equals_excluding_mtime e f = true → available (x_store w0) f d →
  progressed w0 P (done ++ [f]) w.
Proof.
  intros Hrows (Hq & Hdb & Hok & Hinv & Hlk & HP & Hdone & Hrest) Hni He Heq Hav.
  rewrite Hdb in He. destruct (Hrows _ _ He) as (_ & n & Hn & Hd).
  pose proof (same_contents _ _ _ _ _ Hd Heq Hav) as <-. destruct (Hrest _ Hni) as [Hs Hc].
  split; [done|]. split; [done|]. split; [done|]. split; [done|]. split; [done|]. split; [done|]. split.
  - intros g [Hg|Hg%list_elem_of_singleton]%elem_of_app; [by apply Hdone|]. subst g. exists n.
    split; [by rewrite Hc|]. split; [done|]. by right.
  - intros q Hq'. rewrite fmap_app in Hq'. apply not_elem_of_app in Hq' as [H1 _]. destruct (Hrest q H1) as [Hsq ->].
    split; [|done]. destruct Hsq as [?|(g & Hg & ?)]; [by left|]. right. exists g. split; [apply elem_of_app; by left|done].
Qed.

(** Reading a file from storage. *)
Lemma progressed_store w0 P done w st' :
  progressed w0 P done w → st_inv (ops:=hex) st' → (∀ h, st_lookup (ops:=hex) st' h = st_lookup (ops:=hex) (x_store w) h) →
  progressed w0 P done (mkXfer (x_node w) st' (x_progress w) (x_total w) (x_stored w)).
Proof.
  intros (Hq & Hdb & Hok & Hinv & Hlk & HP & Hdone & Hrest) Hi Hl. split; [done|]. split; [done|]. split; [done|]. split; [done|].
  split; [intros h; simpl; by rewrite Hl|]. by split.
Qed.

(** No file is below another one. *)
Definition unnested (l : list SnapshotFile) : Prop := ∀ f g, f ∈ l → g ∈ l → relative_path f ∉ ancestors (relative_path g).

(** The files so far left room for the next one. *)
Lemma progressed_room w0 P done w f :
  progressed w0 P done w → relative_path f ∉ relative_path <$> done → unnested (done ++ [f]) →
  room_for (n_fs (x_node w0)) (relative_path f) → room_for (n_fs (x_node w)) (relative_path f).
Proof.
  intros (_ & _ & _ & _ & _ & _ & _ & Hrest) Hni Hun [Hp Ha]. split.
  - destruct (Hrest _ Hni) as [[->|(g & Hg & _ & _ & Hin)] _]; [done|]. exfalso.
    apply (Hun f g); [apply elem_of_app; right; by left|apply elem_of_app; by left|done].
  - intros q Hq. destruct (Hrest q) as [[->|(g & _ & _ & Hd & _)] _]; [|by apply Ha|by right].
    intros (g & -> & Hg)%list_elem_of_fmap.
    apply (Hun g f); [apply elem_of_app; by left|apply elem_of_app; right; by left|done].
Qed.

Lemma already_exists_run (w : xfer SH) f :
  snapshotfile_already_exists f w = (w, Ok (match n_db (x_node w) !! relative_path f with
                                            | Some e => equals_excluding_mtime e f | None => false end)).
Proof. done. Qed.

Lemma fetch_run w0 P done w f d :
  progressed w0 P done w → available (x_store w0) f d →
  ∃ st', (∀ n, (if decide (hexdigest f ≠ "") then on_store (st_open hex (hexdigest f))
      else lift_res (match content_b64 f with None => Raise AssertionError | Some b => Base64.b64decode b end))
      (mkXfer n (x_store w) (x_progress w) (x_total w) (x_stored w)) =
      (mkXfer n st' (x_progress w) (x_total w) (x_stored w), Ok d)) ∧
    progressed w0 P done (mkXfer (x_node w) st' (x_progress w) (x_total w) (x_stored w)).
Proof.
  intros Hpr [_ Hav]. pose proof Hpr as (_ & _ & _ & Hinv & Hlk & _).
  destruct (decide (hexdigest f = "")) as [Hh|Hh]; [rewrite decide_False by tauto|rewrite decide_True by tauto].
  - exists (x_store w). split; [|by apply progressed_store]. intros n. unfold lift_res. by rewrite Hav, Base64.b64_decode_encode.
  - destruct Hav as (Hname & Hd & _). pose proof (st_open_spec (x_store w) (hexdigest f) Hinv Hname) as Ho.
    rewrite Hlk, Hd in Ho. destruct Ho as (st' & Ho & Hinv' & Hlk'). exists st'. split; [|by apply progressed_store].
    intros n. by apply (on_store_run _ (mkXfer n (x_store w) (x_progress w) (x_total w) (x_stored w))).
Qed.

Lemma download_snapshotfile_run w0 P done w f d :
  rows_describe w0 → progressed w0 P done w → relative_path f ∉ relative_path <$> done → available (x_store w0) f d →
  unnested (done ++ [f]) → room_for (n_fs (x_node w0)) (relative_path f) →
  ∃ w', download_snapshotfile now_ns f w = (w', Ok tt) ∧ progressed w0 P (done ++ [f]) w'.
Proof.
  intros Hrows Hpr Hni Hav Hun Hroom. unfold download_snapshotfile. erewrite bind_ok by apply already_exists_run.
  destruct (match n_db (x_node w) !! relative_path f with Some e => equals_excluding_mtime e f | None => false end) eqn:Eeq.
  { destruct (n_db (x_node w) !! relative_path f) as [e|] eqn:Ee; [|done]. exists w. split; [done|]. by eapply progressed_exists. }
  pose proof (progressed_room _ _ _ _ _ Hpr Hni Hun Hroom) as Hroom'. pose proof Hpr as (_ & _ & Hok & _).
  destruct (mkdir_parent_run (relative_path f) w Hroom') as (s1 & Hmk & Hmade).
  destruct (above_made_ok _ _ _ Hok Hroom' Hmade) as [Hok1 Hb1].
  destruct (fetch_run w0 P done w f d Hpr Hav) as (st' & Hget & Hpr1).
  set (w2 := mkXfer (set_fs s1 (x_node w)) st' (x_progress w) (x_total w) (x_stored w)).
  destruct (install_utime_run now_ns (relative_path f) d (mtime_ns f) w2) as (s' & Hrun & Hrw); [done|done|].
  exists (at_fs w2 s'). split.
  - rewrite (bind_ok _ _ _ _ _ Hmk). rewrite (bind_ok _ _ _ _ _ (Hget (set_fs s1 (x_node w)))). exact Hrun.
  - apply (progressed_rewritten w0 P done (mkXfer (x_node w) st' (x_progress w) (x_total w) (x_stored w)) f (mkInode d (mtime_ns f)) s'); try done.
    by apply (rewritten_above _ _ s1).
Qed.

Lemma copy_snapshotfile_run w0 P done w f0 f d :
  rows_describe w0 → progressed w0 P done w → relative_path f ∉ relative_path <$> done → available (x_store w0) f d →
  f0 ∈ done → hexdigest f0 = hexdigest f → hexdigest f ≠ "" →
  unnested (done ++ [f]) → room_for (n_fs (x_node w0)) (relative_path f) →
  (∀ t, src (n_fs (x_node w0)) !! relative_path f ≠ Some (Symlink t)) →
  ∃ w', copy_snapshotfile now_ns f0 f w = (w', Ok tt) ∧ progressed w0 P (done ++ [f]) w'.
Proof.
  intros Hrows Hpr Hni Hav Hf0 Hsame Hne Hun Hroom Hsl. unfold copy_snapshotfile. erewrite bind_ok by apply already_exists_run.
  destruct (match n_db (x_node w) !! relative_path f with Some e => equals_excluding_mtime e f | None => false end) eqn:Eeq.
  { destruct (n_db (x_node w) !! relative_path f) as [e|] eqn:Ee; [|done]. exists w. split; [done|]. by eapply progressed_exists. }
  pose proof (progressed_room _ _ _ _ _ Hpr Hni Hun Hroom) as Hroom'.
  pose proof Hpr as (Hq & Hdb & Hok & Hinv & Hlk & HP & Hdone & Hrest).
  destruct (mkdir_parent_run (relative_path f) w Hroom') as (s1 & Hmk & Hmade).
  destruct (above_made_ok _ _ _ Hok Hroom' Hmade) as [Hok1 Hb1].
  destruct (Hdone f0 Hf0) as (n & Hn & [_ Hn2] & _). rewrite Hsame, decide_False in Hn2 by done.
  destruct Hn2 as (_ & Hn2 & _). assert (data n = d) as Hd.
  { destruct Hav as [_ Hav]. rewrite decide_False in Hav by done. destruct Hav as (_ & Hav & _). congruence. }
  destruct (copy_utime_run now_ns (relative_path f0) (relative_path f) (mtime_ns f) (at_fs w s1) n) as (s' & Hrun & Hrw).
  - done.
  - rewrite <- Hn. by apply (above_made_content _ (relative_path f)).
  - intros E. apply Hni. rewrite <- E. by apply list_elem_of_fmap_2.
  - done.
  - intros t. change (src s1 !! relative_path f ≠ Some (Symlink t)).
    rewrite (above_made_src _ _ _ _ Hmade) by apply ancestors_irrefl.
    destruct (Hrest _ Hni) as [[->|(_ & _ & _ & -> & _)] _]; [apply Hsl|done].
  - exists (at_fs w s'). split; [by rewrite (bind_ok _ _ _ _ _ Hmk)|].
    eapply progressed_rewritten; [done|done|by apply (rewritten_above _ _ s1)| |done]. simpl. by rewrite Hd.
Qed.

(** *** The files of one digest *)
Lemma dict_alter_append (k : string) f (d : list (string * list SnapshotFile)) :
  concat (dict_alter (λ o, default [] o ++ [f]) k d).*2 ≡ₚ f :: concat d.*2.
Proof.
  induction d as [|[k' g] d IH]; [done|]. cbn [dict_alter]. case_decide; csimpl.
  - rewrite <- app_assoc. simpl. by rewrite <- Permutation_middle.
  - rewrite IH. by rewrite <- Permutation_middle.
Qed.

Lemma elem_of_dict_alter_append (k k' : string) f d g :
  (k', g) ∈ dict_alter (λ o : option (list SnapshotFile), default [] o ++ [f]) k d →
  (k', g) ∈ d ∨ k' = k ∧ (g = [f] ∨ ∃ g0, (k, g0) ∈ d ∧ g = g0 ++ [f]).
Proof.
  induction d as [|[k1 g1] d IH]; cbn [dict_alter].
  - intros [= -> ->]%list_elem_of_singleton. by right; split; [|left].
  - case_decide as E.
    + subst k1. intros [[= -> ->]|Hin]%elem_of_cons.
      * right. split; [done|]. right. exists g1. split; [by left|done].
      * left. by right.
    + intros [[= -> ->]|Hin]%elem_of_cons; [left; by left|].
      destruct (IH Hin) as [?|[-> [->|(g0 & Hg0 & ->)]]]; [left; by right|right; by split; [|left]|].
      right. split; [done|]. right. exists g0. split; [by right|done].
Qed.

Lemma by_hexdigest_spec files :
  concat (by_hexdigest files).*2 ≡ₚ filter (λ f, hexdigest f ≠ "") files ∧
  ∀ k g, (k, g) ∈ by_hexdigest files → g ≠ [] ∧ k ≠ "" ∧ ∀ f, f ∈ g → hexdigest f = k.
Proof.
  induction files as [|f files [IH1 IH2]] using rev_ind; [split; [done|by intros k g ?%not_elem_of_nil]|].
  unfold by_hexdigest in *. rewrite foldl_app, filter_app. simpl. case_decide as Hf.
  - rewrite filter_cons_False by tauto. rewrite filter_nil, app_nil_r. done.
  - rewrite filter_cons_True by done. rewrite filter_nil. split.
    + rewrite dict_alter_append, IH1. by rewrite <- Permutation_cons_append.
    + intros k g [Hin|[-> Hg]]%elem_of_dict_alter_append; [by apply IH2|].
      destruct Hg as [->|(g0 & Hg0 & ->)].
      * split; [done|]. split; [done|]. by intros g ->%list_elem_of_singleton.
      * destruct (IH2 _ _ Hg0) as (_ & _ & Hall). split; [by destruct g0|]. split; [done|].
        intros g [Hg| ->%list_elem_of_singleton]%elem_of_app; auto.
Qed.

(** What each file of the snapshot state needs of the target. *)
Definition restorable (w0 : xfer SH) (f : SnapshotFile) : Prop :=
  (∃ d, available (x_store w0) f d) ∧ room_for (n_fs (x_node w0)) (relative_path f) ∧
  ∀ t, src (n_fs (x_node w0)) !! relative_path f ≠ Some (Symlink t).

Lemma unnested_app l k : unnested (l ++ k) → unnested l.
Proof. intros H f g Hf Hg. apply H; apply elem_of_app; by left. Qed.
Lemma unnested_perm l k : l ≡ₚ k → unnested l → unnested k.
Proof. intros Hp H f g Hf Hg. apply H; by rewrite Hp. Qed.

Lemma group_run w0 P done w k g :
  rows_describe w0 → progressed w0 P done w → NoDup (relative_path <$> done ++ g) → unnested (done ++ g) →
  g ≠ [] → k ≠ "" → (∀ f, f ∈ g → hexdigest f = k ∧ restorable w0 f) →
  ∃ w', download_snapshotfiles_from_storage now_ns g w = (w', Ok tt) ∧ progressed w0 P (done ++ g) w'.
Proof.
  intros Hrows Hpr Hnd Hun Hg Hk Hall. destruct g as [|f0 rest]; [done|]. clear Hg.
  assert (∀ f pre post, done ++ f0 :: rest = pre ++ f :: post → relative_path f ∉ relative_path <$> pre) as Hni.
  { intros f pre post E. rewrite E, fmap_app in Hnd. apply NoDup_app in Hnd as (_ & Hd & _).
    intros Hin. apply (Hd _ Hin). by left. }
  assert (∀ f pre post, done ++ f0 :: rest = pre ++ f :: post → unnested (pre ++ [f])) as Hun'.
  { intros f pre post E. apply (unnested_app _ post). rewrite <- app_assoc. simpl. by rewrite <- E. }
  destruct (Hall f0) as [Hk0 [[d0 Hd0] [Hr0 _]]]; [by left|].
  destruct (download_snapshotfile_run w0 P done w f0 d0) as (w1 & Hrun & Hpr1); [done..|by eapply Hni|done|by eapply Hun'|done|].
  destruct (for_each_ind (λ pre w, progressed w0 P (done ++ f0 :: pre) w) rest (copy_snapshotfile now_ns f0) w1)
    as (w' & Hrun' & Hpr').
  - done.
  - intros pre f post w2 E Hpr2. destruct (Hall f) as [Hkf [[d Hd] [Hrf Hsl]]].
    { right. rewrite E. apply elem_of_app. right. by left. }
    destruct (copy_snapshotfile_run w0 P (done ++ f0 :: pre) w2 f0 f d) as (w3 & Hrun3 & Hpr3); try done.
    + eapply (Hni f _ post). rewrite E. by rewrite <- app_assoc.
    + apply elem_of_app. right. by left.
    + congruence.
    + congruence.
    + apply (Hun' f _ post). rewrite E. by rewrite <- app_assoc.
    + exists w3. split; [done|]. by rewrite <- app_assoc in Hpr3.
  - exists w'. split; [|done]. cbn [download_snapshotfiles_from_storage]. by erewrite bind_ok by exact Hrun.
Qed.

(** *** The meter of a download counts a byte more than each file has. *)
Definition weight (l : list SnapshotFile) : Z := foldr Z.add 0 ((λ f, 1 + file_size f) <$> l).

Lemma weight_app l k : weight (l ++ k) = weight l + weight k.
Proof. unfold weight. induction l as [|f l IH]; csimpl; lia. Qed.

Lemma weight_perm l k : l ≡ₚ k → weight l = weight k.
Proof. unfold weight. induction 1; csimpl; lia. Qed.

Lemma weight_nonneg l : (∀ f, f ∈ l → 0 ≤ file_size f) → 0 ≤ weight l.
Proof.
  unfold weight. induction l as [|f l IH]; intros H; csimpl; [done|].
  pose proof (H f (list_elem_of_here _ _)). enough (0 ≤ foldr Z.add 0 ((λ f, 1 + file_size f) <$> l)) by lia.
  apply IH. intros g Hg. apply H. by right.
Qed.

Lemma weight_const f l : (∀ g, g ∈ l → file_size g = file_size f) → weight l = (file_size f + 1) * Z.of_nat (length l).
Proof.
  unfold weight. induction l as [|g l IH]; intros H; csimpl; [lia|].
  rewrite IH by (intros x Hx; apply H; by right). rewrite (H g) by left. lia.
Qed.

Lemma progressed_success w0 h t done w n :
  progressed w0 (mkProgress h 0 t false) done w → 0 < n → h + n ≤ t →
  ∃ w', on_progress (Progress.download_success n) w = (w', Ok tt) ∧ progressed w0 (mkProgress (h + n) 0 t false) done w'.
Proof.
  intros (Hq & Hdb & Hok & Hinv & Hlk & HP & Hdone & Hrest) Hn Ht. eexists. split.
  - apply on_progress_run. rewrite HP. by apply Progress.add_success_run.
  - done.
Qed.

(** *** The passes of a download *)
Definition embedded (files : list SnapshotFile) : list SnapshotFile := filter (λ f, hexdigest f = "") files.
Definition digested (files : list SnapshotFile) : list (list SnapshotFile) := py_sorted larger_first (by_hexdigest files).*2.

Lemma concat_perm {A} (l k : list (list A)) : l ≡ₚ k → concat l ≡ₚ concat k.
Proof.
  induction 1 as [|x l k _ IH|x y l|l k m _ IH1 _ IH2]; simpl; [done|by rewrite IH| |by rewrite IH1].
  rewrite !app_assoc. by rewrite (Permutation_app_comm x y).
Qed.

Lemma passes_perm files : embedded files ++ concat (digested files) ≡ₚ files.
Proof.
  unfold embedded, digested. rewrite (concat_perm _ _ (py_sorted_Permutation larger_first _)).
  rewrite (proj1 (by_hexdigest_spec files)). apply filter_app_complement.
Qed.

Section passes.
Context (w0 : xfer SH) (files : list SnapshotFile) (rows_ok : rows_describe w0)
  (paths_nodup : NoDup (relative_path <$> files))
  (files_unnested : unnested files) (all_restorable : ∀ f, f ∈ files → restorable w0 f).

Let meter (done : list SnapshotFile) : Progress := mkProgress (weight done) 0 (weight files) false.

Lemma size_nonneg f : f ∈ files → 0 ≤ file_size f.
Proof. intros Hf. destruct (all_restorable f Hf) as [[d [Hd _]] _]. lia. Qed.

Lemma weight_step done l rest : done ++ l ++ rest ≡ₚ files → weight done + weight l ≤ weight files.
Proof.
  intros Hp. rewrite <- (weight_perm _ _ Hp), !weight_app.
  enough (0 ≤ weight rest) by lia. apply weight_nonneg. intros f Hf. apply size_nonneg.
  rewrite <- Hp, !elem_of_app. by right; right.
Qed.

Lemma nodup_step (done l rest : list SnapshotFile) : done ++ l ++ rest ≡ₚ files → NoDup (relative_path <$> done ++ l).
Proof.
  intros Hp. pose proof paths_nodup as Hnd. rewrite <- Hp, app_assoc, fmap_app in Hnd. by apply NoDup_app in Hnd as (? & _).
Qed.

Lemma unnested_step (done l rest : list SnapshotFile) : done ++ l ++ rest ≡ₚ files → unnested (done ++ l).
Proof. intros Hp. apply (unnested_app _ rest). rewrite <- app_assoc. by apply (unnested_perm files). Qed.

Lemma embedded_run w :
  progressed w0 (meter []) [] w →
  ∃ w', for_each files (λ f,
    if decide (hexdigest f = "") then
      download_snapshotfile now_ns f ;; on_progress (Progress.download_success (file_size f + 1))
    else mret tt) w = (w', Ok tt) ∧ progressed w0 (meter (embedded files)) (embedded files) w'.
Proof.
  intros H0. apply (for_each_ind (λ pre w, progressed w0 (meter (embedded pre)) (embedded pre) w)); [done|].
  intros pre f post w1 E Hpr. case_decide as Hf.
  - assert (embedded (pre ++ [f]) = embedded pre ++ [f]) as Hsnoc.
    { unfold embedded. by rewrite filter_app, filter_cons_True, filter_nil. }
    assert (embedded pre ++ [f] ++ (embedded post ++ concat (digested files)) ≡ₚ files) as Hp.
    { etrans; [|apply passes_perm]. rewrite E at 2. unfold embedded at 3. rewrite filter_app, filter_cons_True by done.
      by rewrite <- !app_assoc. }
    assert (f ∈ files) as Hin by (rewrite E, elem_of_app; right; by left).
    destruct (all_restorable f Hin) as [[d Hd] [Hroom _]].
    destruct (download_snapshotfile_run w0 _ _ w1 f d rows_ok Hpr) as (w2 & Hrun & Hpr2); [|done|by eapply unnested_step|done|].
    { pose proof (nodup_step _ _ _ Hp) as Hnd. rewrite fmap_app in Hnd. apply NoDup_app in Hnd as (_ & Hd' & _).
      intros Hi. apply (Hd' _ Hi). by left. }
    pose proof (weight_step _ _ _ Hp) as Hw. pose proof (size_nonneg f Hin) as Hsz.
    assert (weight [f] = file_size f + 1) as Hwf by (unfold weight; simpl; lia). rewrite Hwf in Hw.
    destruct (progressed_success w0 _ _ _ w2 (file_size f + 1) Hpr2) as (w3 & Hs & Hpr3); [lia|done|].
    exists w3. rewrite Hsnoc. split; [by erewrite bind_ok by exact Hrun|]. unfold meter. by rewrite weight_app, Hwf.
  - exists w1. split; [done|]. unfold embedded in *. by rewrite filter_app, filter_cons_False, filter_nil, app_nil_r.
Qed.

Lemma digested_run w :
  progressed w0 (meter (embedded files)) (embedded files) w →
  ∃ w', Files.parallel_map_to (download_snapshotfiles_from_storage now_ns) download_result_cb (digested files) w = (w', Ok true) ∧
    progressed w0 (meter files) (embedded files ++ concat (digested files)) w'.
Proof.
  intros H0. destruct (Files.parallel_map_to_ind
    (λ pre w, progressed w0 (meter (embedded files ++ concat pre)) (embedded files ++ concat pre) w)
    (download_snapshotfiles_from_storage now_ns) download_result_cb (digested files) w) as (w' & Hrun & Hpr).
  - simpl. by rewrite app_nil_r.
  - intros pre g post w1 E Hpr. assert (g ∈ digested files) as Hg by (rewrite E, elem_of_app; right; by left).
    unfold digested in Hg. rewrite elem_of_py_sorted in Hg. apply list_elem_of_fmap in Hg as ([k g'] & -> & Hg). simpl in *.
    destruct (proj2 (by_hexdigest_spec files) k g' Hg) as (Hne & Hk & Hall).
    assert ((embedded files ++ concat pre) ++ g' ++ concat post ≡ₚ files) as Hp.
    { etrans; [|apply passes_perm]. rewrite E, concat_app. simpl. by rewrite !app_assoc. }
    assert (∀ f, f ∈ g' → f ∈ files) as Hsub by (intros f Hf; rewrite <- Hp, !elem_of_app; tauto).
    destruct (group_run w0 _ _ w1 k g' rows_ok Hpr) as (w2 & Hrun & Hpr2); [by eapply nodup_step|by eapply unnested_step|done|done| |].
    { intros f Hf. split; [by apply Hall|by apply all_restorable, Hsub]. }
    assert (weight g' = (file_size (default (mkSnapshotFile "" 0 0 "" None) (head g')) + 1) * Z.of_nat (length g')) as Hwg.
    { destruct g' as [|f0 g']; [done|]. apply weight_const. intros f Hf. simpl.
      destruct (all_restorable f (Hsub f Hf)) as [[d [Hd1 Hd]] _].
      destruct (all_restorable f0 (Hsub f0 (list_elem_of_here _ _))) as [[d0 [Hd01 Hd0]] _].
      rewrite (Hall f Hf), decide_False in Hd by done. rewrite (Hall f0), decide_False in Hd0 by (done || by left).
      destruct Hd as (_ & Hd & _), Hd0 as (_ & Hd0 & _). congruence. }
    pose proof (weight_step _ _ _ Hp) as Hw. destruct g' as [|f0 g']; [done|].
    change (weight (f0 :: g') = (file_size f0 + 1) * Z.of_nat (length (f0 :: g'))) in Hwg.
    pose proof (size_nonneg f0 (Hsub f0 (list_elem_of_here _ _))) as Hsz.
    destruct (progressed_success w0 _ _ _ w2 ((file_size f0 + 1) * Z.of_nat (length (f0 :: g'))) Hpr2) as (w3 & Hs & Hpr3).
    + cbn [length]. lia.
    + by rewrite <- Hwg.
    + exists w2, tt, w3. split; [done|]. split; [unfold download_result_cb; erewrite bind_ok by exact Hs; apply running|].
      rewrite concat_app. simpl concat. rewrite app_nil_r, app_assoc. unfold meter. rewrite (weight_app (_ ++ _)), Hwg. exact Hpr3.
  - exists w'. split; [done|]. unfold meter in *. by rewrite (weight_perm _ _ (passes_perm files)) in Hpr.
Qed.
End passes.

(** *** Removing what should not be there *)
Lemma unlink_src_run (l : list string) (w : xfer SH) :
  (∀ p, p ∈ l → src (n_fs (x_node w)) !! p ≠ Some Directory ∧ ∀ q, q ∈ ancestors p → blocks (src (n_fs (x_node w)) !! q) = false) →
  ∃ s', for_each l unlink_src w = (at_fs w s', Ok tt) ∧ inodes s' = inodes (n_fs (x_node w)) ∧
    ∀ p, src s' !! p = if decide (p ∈ l) then None else src (n_fs (x_node w)) !! p.
Proof.
  intros Hl. destruct (unlink_all_run l _ Hl) as (t & Hrun & Ht). exists (with_src (λ _, t) (n_fs (x_node w))).
  split; [|done]. clear Hl Ht. revert w Hrun. induction l as [|q l IH]; intros w; cbn [for_each].
  { intros [= <-]. by destruct w as [[[]]]. }
  destruct (unlink q (src (n_fs (x_node w)))) as [t1 [[]|e]] eqn:E; [|by rewrite (bind_raise _ _ _ _ _ E)].
  rewrite (bind_ok _ _ _ _ _ E). intros Hrun. set (w1 := at_fs w (with_src (λ _, t1) (n_fs (x_node w)))).
  rewrite (bind_ok (unlink_src q) _ w w1 tt).
  - by rewrite (IH w1 Hrun).
  - unfold unlink_src. erewrite on_node_run; [reflexivity|]. unfold on_src, zoom. by rewrite E.
Qed.

Lemma faithful_rows w w' :
  fs_wf (n_fs w) → faithful glob_match digest same_root src_parts groups w w' →
  ∀ p f, n_db w' !! p = Some f → relative_path f = p ∧ ∃ n, content (n_fs w') p = Some n ∧ describes digest f p n.
Proof.
  intros Hwf (_ & Hs & Hi & Hh & _ & Hdom & Hrow) p f Hf. split; [by apply (Hh p f)|].
  assert (in_groups glob_match src_parts groups (n_fs w) p) as Hg by (apply Hdom; eauto).
  destruct (in_groups_resolve _ _ _ _ _ Hwf Hg) as (i & n & Hp & Hn & Hr).
  exists n. split; [unfold content; by rewrite Hs, Hp, Hi|]. by apply (Hrow p f n).
Qed.

(** What a download leaves. *)
Definition downloaded (w : xfer SH) (files : list SnapshotFile) (w' : xfer SH) : Prop :=
  let s0 := n_fs (x_node w) in let s := n_fs (x_node w') in
  (∀ f, f ∈ files → restored (x_store w) s0 s f) ∧
  (∀ p, p ∉ relative_path <$> files → in_groups glob_match src_parts groups s0 p → src s !! p = None) ∧
  (∀ p, p ∉ relative_path <$> files → ¬ in_groups glob_match src_parts groups s0 p →
     (src s !! p = src s0 !! p ∨ ∃ f, f ∈ files ∧ made_above s0 s (relative_path f) p) ∧ content s p = content s0 p).

Lemma download_from_storage_run (w : xfer SH) (state : SnapshotState) :
  n_interference (x_node w) = [] → fs_ok (n_fs (x_node w)) → honest digest same_root (x_node w) →
  fits glob_match same_root src_parts groups (x_node w) →
  (∀ p, in_groups glob_match src_parts groups (n_fs (x_node w)) p → groups_agree glob_match groups p) →
  st_inv (ops:=hex) (x_store w) → x_progress w = new_progress →
  NoDup (relative_path <$> state_files state) → unnested (state_files state) → (∀ f, f ∈ state_files state → restorable w f) →
  ∃ w', download_from_storage groups now_ns state w = (w', Ok tt) ∧
    Progress.finished_successfully (x_progress w') = true ∧ downloaded w (state_files state) w'.
Proof.
  intros Hq [Hwf Hsep] Hh Hfits Hag Hinv Hprog Hnd Hun Hres. set (files := state_files state) in *.
  destruct (perform_snapshot_faithful glob_match digest same_root src_parts groups (x_node w) Hq Hwf Hh Hfits Hag) as (n1 & Hsnap & Hf).
  pose proof (faithful_rows _ _ Hwf Hf) as Hrows. destruct Hf as (Hq1 & Hs1 & Hi1 & Hh1 & _ & Hdom & _).
  set (w1 := mkXfer n1 (x_store w) (mkProgress 0 0 (weight files) false) (x_total w) (x_stored w)).
  assert (∀ p, content (n_fs n1) p = content (n_fs (x_node w)) p) as Hc1 by (intros p; unfold content; by rewrite Hs1, Hi1).
  assert (∀ f, f ∈ files → restorable w1 f) as Hres1.
  { intros f Hf. destruct (Hres f Hf) as [Hav [Hroom Hsl]]. split; [exact Hav|]. unfold room_for. simpl. by rewrite Hs1. }
  destruct (embedded_run w1 files Hrows Hnd Hun Hres1 w1) as (w2 & Hrun2 & Hpr2).
  { split; [done|]. split; [done|]. split; [split; [split; simpl; rewrite Hs1; [intros p i; rewrite Hi1; apply Hwf|apply Hwf]|intros p q i; simpl; rewrite Hs1; apply Hsep]|].
    split; [done|]. split; [done|]. split; [done|]. split; [by intros f ?%not_elem_of_nil|intros q _; by split; [left|]]. }
  destruct (digested_run w1 files Hrows Hnd Hun Hres1 w2 Hpr2) as (w3 & Hrun3 & Hpr3).
  destruct Hpr3 as (_ & Hdb3 & Hok3 & _ & Hlk3 & HP3 & Hdone & Hrest).
  assert (∀ p, p ∈ relative_path <$> embedded files ++ concat (digested files) ↔ p ∈ relative_path <$> files) as Hall.
  { intros p. by rewrite passes_perm. }
  assert (∀ p, p ∈ get_all_paths (n_db (x_node w3)) ↔ in_groups glob_match src_parts groups (n_fs (x_node w)) p) as Hpaths.
  { intros p. rewrite <- Hdom, Hdb3. simpl. unfold get_all_paths. rewrite list_elem_of_fmap. split.
    - intros (f & -> & [q Hf]%elem_of_get_all_files). rewrite (proj1 (Hrows q f Hf)). by exists f.
    - intros [f Hf]. exists f. split; [by rewrite (proj1 (Hrows p f Hf))|]. apply elem_of_get_all_files. eauto. }
  destruct (unlink_src_run (filter (λ p, p ∉ relative_path <$> files) (get_all_paths (n_db (x_node w3)))) w3) as (s4 & Hrun4 & Hi4 & Hs4).
  { intros p [Hni Hp%Hpaths]%list_elem_of_filter. apply in_groups_regular in Hp as [i Hp].
    assert (src (n_fs (x_node w3)) !! p = Some (Regular i)) as Hp3.
    { destruct (Hrest p) as [[->|(g & _ & Hn & _)] _]; [by rewrite Hall|by rewrite <- Hp; simpl; rewrite Hs1|]. simpl in Hn. rewrite Hs1 in Hn. congruence. }
    split; [by rewrite Hp3|]. intros q Hq'. rewrite (proj2 (proj1 Hok3) p q); [done|by rewrite Hp3|done]. }
  exists (mkXfer (set_fs s4 (x_node w3)) (x_store w3) (mkProgress (weight files) 0 (weight files) true) (x_total w3) (x_stored w3)).
  split; [|split].
  - unfold download_from_storage. erewrite bind_ok by (apply on_node_run; exact Hsnap). fold files.
    erewrite bind_ok by (apply on_progress_run; simpl; rewrite Hprog; apply Progress.start_run).
    change (foldr Z.add 0 ((λ f, 1 + file_size f) <$> files)) with (weight files). cbn [x_node x_store x_total x_stored]. fold w1.
    erewrite bind_ok by exact Hrun2. cbn zeta. change (py_sorted larger_first (by_hexdigest files).*2) with (digested files).
    erewrite bind_ok by exact Hrun3. cbn [negb]. rewrite (bind_ok get _ w3 w3 w3) by done.
    erewrite bind_ok by exact Hrun4.
    apply (on_progress_run _ (at_fs w3 s4)). simpl. rewrite HP3. by apply Progress.done_run.
  - unfold Progress.finished_successfully. simpl. apply Z.eqb_refl.
  - split; [|split]; simpl.
    + intros f Hf. destruct (Hdone f) as (n & Hn & Hav & Hmt); [by rewrite passes_perm|]. exists n. split.
      * unfold content in *. rewrite Hs4, Hi4, decide_False; [exact Hn|]. intros [Hni _]%list_elem_of_filter.
        by apply Hni, list_elem_of_fmap_2.
      * split; [exact Hav|]. simpl in Hmt. by rewrite Hc1 in Hmt.
    + intros p Hp Hg. rewrite Hs4, decide_True; [done|]. apply list_elem_of_filter. split; [done|]. by apply Hpaths.
    + intros p Hp Hg. destruct (Hrest p) as [Hr1 Hr2]; [by rewrite Hall|]. simpl in Hr2. rewrite Hc1 in Hr2.
      assert (src s4 !! p = src (n_fs (x_node w3)) !! p) as Hp4.
      { rewrite Hs4, decide_False; [done|]. intros [_ Hin%Hpaths]%list_elem_of_filter. done. }
      unfold content in *. rewrite Hp4, Hi4. split; [|done]. destruct Hr1 as [->|(g & Hg' & H0 & H1 & Hin)]; [left; simpl; by rewrite Hs1|right].
      exists g. split; [by rewrite <- (passes_perm files)|]. simpl in H0. rewrite Hs1 in H0. split; [done|]. by rewrite Hp4.
Qed.

(** Restores are exact.  Downloading a snapshot state whose contents can
    be had, onto a quiescent node without hard-linked names that has room
    for its files - no directory where one of them goes, no file where they need
    a directory - finishes successfully: every file of the state is in place
    with its contents and its modification time (or was already there with
    these contents), no other file matched by the groups remains, and files
    out of the groups keep their contents. *)
Theorem download_restores (w : xfer SH) (results : list SnapshotResult) (index : nat) (sr : SnapshotResult)
    (state : SnapshotState) :
  results !! index = Some sr → sr_state sr = Some state →
  n_interference (x_node w) = [] → fs_ok (n_fs (x_node w)) → honest digest same_root (x_node w) →
  fits glob_match same_root src_parts groups (x_node w) →
  (∀ p, in_groups glob_match src_parts groups (n_fs (x_node w)) p → groups_agree glob_match groups p) →
  st_inv (ops:=hex) (x_store w) → x_progress w = new_progress →
  NoDup (relative_path <$> state_files state) → unnested (state_files state) → (∀ f, f ∈ state_files state → restorable w f) →
  ∃ w', DownloadOp_download groups now_ns results index w = (w', Ok tt) ∧
    Progress.finished_successfully (x_progress w') = true ∧ downloaded w (state_files state) w'.
Proof.
  intros Hsr Hst Hq Hok Hh Hfits Hag Hinv Hprog Hnd Hun Hres.
  destruct (download_from_storage_run w state Hq Hok Hh Hfits Hag Hinv Hprog Hnd Hun Hres) as (w' & Hrun & H).
  exists w'. split; [|done]. unfold DownloadOp_download, download_snapshot. rewrite Hsr. erewrite bind_ok by done.
  rewrite Hst. by erewrite bind_ok by apply current.
Qed.


(** ** Releases *)
Lemma upload_from_missing v h files (w : xfer SH) :
  n_interference (x_node w) = [] →
  (∀ f, f ∈ files → resolve (n_fs (x_node w)) (dst_tree same_root (n_fs (x_node w))) (relative_path f) = None) →
  upload_from v h files w = (w, Ok upload_missing).
Proof.
  intros Hq. induction files as [|f files IH]; intros Hf; [done|]. cbn [upload_from].
  erewrite bind_ok.
  2:{ apply on_node_run. unfold is_file. rewrite (bind_ok tick _ _ (x_node w) tt); [|unfold tick; by rewrite Hq].
      by rewrite (bind_ok get _ _ (x_node w) (x_node w)). }
  rewrite Hf by left. rewrite bool_decide_false by (by intros []). cbn [negb].
  replace (mkXfer _ _ _ _ _) with w by (by destruct w). apply IH. intros g Hg. apply Hf. by right.
Qed.

(** Snapshots do not link a file again while its row is up to date. *)
Lemma snapshot_up_to_date (w : node) :
  n_interference w = [] → fs_wf (n_fs w) → fits glob_match same_root src_parts groups w →
  (∀ p, in_groups glob_match src_parts groups (n_fs w) p → groups_agree glob_match groups p) →
  (∀ p, is_Some (n_db w !! p) ↔ in_groups glob_match src_parts groups (n_fs w) p) →
  (∀ p f n, n_db w !! p = Some f → resolve (n_fs w) (src (n_fs w)) p = Some n → describes digest f p n) →
  ∃ w', perform_snapshot glob_match digest same_root src_parts groups w = (w', Ok tt) ∧ n_interference w' = [] ∧
    n_db w' = n_db w ∧ inodes (n_fs w') = inodes (n_fs w) ∧
    ∀ p, in_groups glob_match src_parts groups (n_fs w) p → dst_tree same_root (n_fs w') !! p = dst_tree same_root (n_fs w) !! p.
Proof.
  intros Hq Hwf Hfits Hag Hdom Hrows.
  destruct (perform_snapshot_run glob_match digest same_root src_parts groups w Hq Hwf Hfits Hag)
    as (files & s & L & ys & Hrun & Hfiles & Hs & Hi & Hset & _ & HL & Hx & HF).
  pose proof (λ p, settled_files glob_match same_root src_parts groups w files s p Hset Hfiles) as Hdst.
  assert (∀ x, x ∈ L → update s x = None) as Hnone.
  { intros x Hxl. assert (x.1 ∈ files) as Hin by (by apply HL, list_elem_of_fmap_2).
    apply Hfiles in Hin as Hg. pose proof Hg as [f Hf]%Hdom.
    destruct (in_groups_resolve _ _ _ _ _ Hwf Hg) as (i & n & _ & _ & Hr).
    destruct (Hrows _ _ _ Hf Hr) as (Hrp & Hsz & Hmt & _).
    unfold update, resolve. rewrite Hs, Hi. unfold resolve in Hr. rewrite Hr. simpl. unfold outdated.
    rewrite (Hx x Hxl), Hf. unfold underlying_file_is_the_same. simpl.
    by rewrite Hmt, Hrp, Hsz, !Z.eqb_refl, bool_decide_true. }
  assert (omap (update s) L = []) as Hom.
  { clear -Hnone. induction L as [|x L IH]; [done|]. csimpl. rewrite Hnone by left. apply IH. intros y Hy. apply Hnone. by right. }
  rewrite Hom in HF. inversion HF; subst ys. eexists. split; [exact Hrun|]. split; [done|]. split; [|split].
  - simpl. apply map_filter_id. intros p f Hf. simpl. apply Hfiles, Hdom. eauto.
  - done.
  - intros p Hp%Hfiles. rewrite <- (Hdst p Hp). unfold dst_tree. destruct same_root eqn:E; [done|]. simpl.
    apply relink_lookup_ne. intros x Hxl _. by apply Hnone.
Qed.

Lemma release_run (w : node) hs :
  same_root = false → fits glob_match same_root src_parts groups w →
  ∃ s, release same_root hs w = (set_fs s w, Ok tt) ∧ inodes s = inodes (n_fs w) ∧ src s = src (n_fs w) ∧
    (∀ p, dst s !! p = dst (n_fs w) !! p ∨ dst s !! p = None) ∧
    ∀ p f, n_db w !! p = Some f → hexdigest f ∈ hs → hexdigest f ≠ "" → dst s !! p = None.
Proof.
  intros Hsr Hfits. unfold release, transaction. rewrite (bind_ok get _ w w w) by done. cbn zeta.
  set (paths := fst <$> _).
  assert (∀ p, p ∈ paths ↔ ∃ f, n_db w !! p = Some f ∧ hexdigest f ∈ filter (λ h, h ≠ "") hs) as Hp.
  { intros p. unfold paths. rewrite list_elem_of_fmap. split.
    - intros ([q f] & -> & [Hf Hin%elem_of_map_to_list]%list_elem_of_filter). by exists f.
    - intros (f & Hf & Hh). exists (p, f). split; [done|]. apply list_elem_of_filter. split; [done|]. by apply elem_of_map_to_list. }
  destruct (unlink_all_run paths (dst (n_fs w))) as (t & Hrun & Ht).
  { intros p (f & Hf & _)%Hp. destruct Hfits as [?|(_ & _ & Hfit)]; [congruence|]. apply Hfit. by rewrite Hf. }
  exists (with_dst (λ _, t) (n_fs w)). split; [|split; [done|split; [done|split]]].
  - rewrite (for_each_on_dst same_root paths unlink w t (Ok tt)); [unfold set_dst; by rewrite Hsr|]. unfold dst_tree. by rewrite Hsr.
  - intros p. simpl. rewrite Ht. case_decide; [by right|by left].
  - intros p f Hf Hin Hne. simpl. rewrite Ht, decide_True; [done|]. apply Hp. exists f. split; [done|]. by apply list_elem_of_filter.
Qed.

(** Released files cannot be uploaded again.  After a release of a digest,
    the next snapshot does not restore the links of the unchanged files with
    that digest, because their rows still describe them; if the digest is
    needed again the upload reports it missing and stores nothing. *)
Theorem released_files_go_missing (w0 : node) (w : xfer SH) (h : string) (size : Z) (validate : bool) :
  same_root = false → fs_wf (n_fs w0) → n_interference w0 = [] →
  (∀ p, in_groups glob_match src_parts groups (n_fs w0) p → groups_agree glob_match groups p) →
  faithful glob_match digest same_root src_parts groups w0 (x_node w) → x_progress w = new_progress →
  h ≠ "" → (∃ p f, n_db (x_node w) !! p = Some f ∧ hexdigest f = h) →
  ∃ n1 n2 w3, release same_root [h] (x_node w) = (n1, Ok tt) ∧
    perform_snapshot glob_match digest same_root src_parts groups n1 = (n2, Ok tt) ∧
    UploadOp_upload [mkSnapshotHash h size] validate (mkXfer n2 (x_store w) (x_progress w) 0 0) = (w3, Ok (0, 0)) ∧
    Progress.finished_failed (x_progress w3) = true ∧ x_store w3 = x_store w.
Proof.
  intros Hsr Hwf Hq0 Hag (Hq & Hs & Hi & Hh & Hfits & Hdom & Hrow) Hprog Hne (p & f & Hf & Hfh).
  destruct (release_run (x_node w) [h] Hsr Hfits) as (s1 & Hrel & Hi1 & Hs1 & Hless & Hgone).
  assert (∀ p, in_groups glob_match src_parts groups s1 p ↔ in_groups glob_match src_parts groups (n_fs w0) p) as Hg.
  { intros q. unfold in_groups. by rewrite Hs1, Hs. }
  destruct (snapshot_up_to_date (set_fs s1 (x_node w))) as (n2 & Hsnap & Hq2 & Hdb2 & Hi2 & Hd2).
  { done. }
  { split; simpl; rewrite Hs1, Hs; [intros q i; rewrite Hi1, Hi; apply Hwf|apply Hwf]. }
  { right. destruct Hfits as [?|(F1 & F2 & F3)]; [congruence|]. simpl. rewrite Hs1. split; [|split].
    - intros q Hq'. destruct (Hless q) as [->| ->]; [by apply F1|by left].
    - intros q (e & He & Hl). simpl in He. rewrite Hs1 in He.
      destruct (Hless q) as [->| ->]; [|done]. apply F2. by exists e.
    - intros q Hq'. destruct (F3 q Hq') as (G1 & G2 & G3). split; [done|]. split.
      + by destruct (Hless q) as [->| ->].
      + intros x Hx. destruct (Hless x) as [->| ->]; [by apply G3|done]. }
  { intros q Hq'. by apply Hag, Hg. }
  { intros q. simpl. rewrite Hdom. symmetry. apply Hg. }
  { intros q g n. simpl. intros Hq' Hn. apply (Hrow q g n Hq'). rewrite <- Hn. unfold resolve. by rewrite Hs1, Hi1, Hs, Hi. }
  simpl in Hdb2, Hi2, Hd2.
  exists (set_fs s1 (x_node w)), n2. set (w2 := mkXfer n2 (x_store w) (x_progress w) 0 0).
  assert (∀ g, g ∈ get_files_for_digest (n_db n2) h → resolve (n_fs n2) (dst_tree same_root (n_fs n2)) (relative_path g) = None) as Hno.
  { intros g [Hgh [q Hqg]]%elem_of_files_for_digest. rewrite Hdb2 in Hqg. destruct (Hh _ _ Hqg) as [-> _].
    unfold resolve. rewrite Hd2 by (apply Hg, Hdom; eauto).
    simpl. unfold dst_tree at 1. rewrite Hsr. rewrite (Hgone q g Hqg) by (rewrite Hgh; [by left || done..]). done. }
  destruct (get_files_for_digest (n_db n2) h) as [|g rest] eqn:Ef.
  { exfalso. eapply not_elem_of_nil. rewrite <- Ef. apply elem_of_files_for_digest. rewrite Hdb2. eauto. }
  exists (mkXfer n2 (x_store w) (mkProgress 0 1 1 true) 0 0). split; [done|]. split; [done|]. split; [|done].
  unfold UploadOp_upload. erewrite bind_ok by apply current.
  rewrite (bind_ok _ _ w2 (mkXfer n2 (x_store w) (mkProgress 0 1 1 false) 0 0) (0, 0)); [done|].
  unfold write_hashes_to_storage. rewrite (bind_ok get _ w2 w2 w2) by done. cbn zeta.
  change (remove_dups (hash_hexdigest <$> [mkSnapshotHash h size])) with [h]. csimpl. rewrite Ef. cbn [existsb]. rewrite bool_decide_false by done. cbn [orb].
  erewrite bind_ok by (apply on_progress_run; simpl; rewrite Hprog; apply Progress.start_run).
  erewrite bind_ok by done. cbn [x_node x_store x_progress w2 py_sorted foldr py_insert Files.parallel_map_to length].
  set (w4 := mkXfer n2 (x_store w) (mkProgress 0 0 (Z.of_nat 1) false) 0 0).
  erewrite (bind_ok _ _ w4 (mkXfer n2 (x_store w) (mkProgress 0 1 1 false) 0 0) true); [done|].
  rewrite (bind_ok _ _ w4 w4 upload_missing).
  - rewrite (bind_ok (upload_result_cb _ _) _ w4 (mkXfer n2 (x_store w) (mkProgress 0 1 1 false) 0 0) true); [done|].
    unfold upload_result_cb. cbn beta iota zeta. erewrite bind_ok by done.
    erewrite bind_ok by (by apply on_progress_run). apply running.
  - unfold upload_hexdigest_in_thread. rewrite bool_decide_true by done. rewrite (bind_ok (py_assert true) _ w4 w4 tt) by done.
    rewrite (bind_ok get _ w4 w4 w4) by done. cbn [w4 x_node fst]. rewrite Ef. by apply upload_from_missing.
Qed.
End download.
End transfer.
End NodeTransfer.
