(* ===== verification/RoundTrip.v ===== *)
(** * From one node to another

    The snapshot of a node, the upload of what it reports and the download on
    another node, put together: what a backup stores is what a restore puts
    back.  The steps of the coordinator that lead there are in
    [BackupRestore]. *)

From stdpp Require Import base gmap strings list sorting.
From Stdlib Require Import ZArith Lia Strings.Byte.
From S2P Require Import Prelude Progress Ipc Storage Utils Base64 FileSystem NodeSnapshot NodeTransfer.
Import FileSystem NodeSnapshot NodeTransfer.

Local Open Scope Z_scope.

Module RoundTrip.

(** What a node is configured with: whether links go to the source directory
    itself, where that is, and the groups of the request. *)
Record config : Type := mkConfig {
  same_root : bool;
  src_parts : list string;
  groups : list SnapshotGroup;
}.

Section roundtrip.
Context (glob_match : string → string → bool) (digest : list byte → string)
  {SH : Type} (hex : StorageOps SH (list byte)) `{!StorageSpec hex} (stored_size : list byte → Z)
  (still_running : M (xfer SH) bool) (check_op_id : M (xfer SH) unit) (now_ns : Z).
Context (running : ∀ w, still_running w = (w, Ok true)) (current : ∀ w, check_op_id w = (w, Ok tt)).
Context (digest_inj : ∀ d d', digest d = digest d' → d = d') (digest_nonempty : ∀ d, digest d ≠ "").

Notation matched c s p := (in_groups glob_match (src_parts c) (groups c) s p).
Notation get_fs w := (n_fs (x_node w)).
Notation available store f d := (available digest hex store f d).



Definition healthy (c : config) (w : xfer SH) : Prop :=
  n_interference (x_node w) = [] ∧ fs_ok (get_fs w) ∧ honest digest (same_root c) (x_node w) ∧
  fits glob_match (same_root c) (src_parts c) (groups c) (x_node w) ∧ x_progress w = new_progress ∧
  st_inv (ops:=hex) (x_store w) ∧
  ∀ p, matched c (get_fs w) p → groups_agree glob_match (groups c) p.




(** The node has room for the files of another one: no link or directory where
    one of them goes, and no file where they need a directory. *)
Definition makes_room (s : fs) (p : string) : Prop :=
  (∀ t, src s !! p ≠ Some (Symlink t)) ∧ room_for s p.

End roundtrip.

(** ** A node of three files, and one with other files *)
Definition dir_store : StorageOps (gmap string (list byte)) (list byte) := FileStorage.hexdigest_ops.

Definition source_fs : fs :=
  mkFs {[0%nat := mkInode [x61; x62] 5; 1%nat := mkInode [x63] 7; 2%nat := mkInode [x61; x62] 8]}
       {["a" := Regular 0; "dir" := Directory; "dir/b" := Regular 1; "dir/c" := Regular 2]} ∅.
Definition target_fs : fs :=
  mkFs {[0%nat := mkInode [x64] 1; 1%nat := mkInode [x61; x62] 2]} {["old" := Regular 0; "a" := Regular 1]} ∅.
Definition at_rest (s : fs) : xfer (gmap string (list byte)) := mkXfer (mkNode s ∅ []) ∅ new_progress 0 0.
Definition example_config : config := mkConfig false ["data"] example_groups.
Definition embedding_config : config := mkConfig false ["data"] [mkSnapshotGroup "**" [] None].

Ltac map_cases H :=
  repeat (apply lookup_insert_Some in H as [[? H]|[? H]]; [simplify_eq|]);
  first [apply lookup_singleton_Some in H as [? H]; simplify_eq | rewrite lookup_empty in H; discriminate H | idtac].


Lemma target_ok : fs_ok target_fs.
Proof.
  split.
  - split; [|apply tree_wf_check; vm_compute; reflexivity]. intros p i H. unfold target_fs in H. simpl in H. map_cases H; by eexists.
  - intros p q i Hp Hq. unfold target_fs in Hp, Hq. simpl in Hp, Hq. map_cases Hp; map_cases Hq; done.
Qed.

Lemma example_healthy c s :
  (∀ p, groups_agree (λ _ _, true) (groups c) p) → fs_ok s → dst s = ∅ → healthy (λ _ _, true) example_digest dir_store c (at_rest s).
Proof.
  intros Hg Hs Hd. split; [done|]. split; [done|]. split; [intros p f H; vm_compute in H; discriminate H|].
  split; [right; simpl; rewrite Hd; split; [by left|]; split; [done|by intros p []]|].
  split; [done|]. split; [by intros f b _|]. intros p _. apply Hg.
Qed.

Lemma example_room p : p ∈ ["a"; "b"; "dir"; "dir/b"; "dir/c"] → makes_room target_fs p.
Proof.
  intros Hp. repeat (apply elem_of_cons in Hp as [->|Hp]; [split; [intros t H; vm_compute in H; discriminate H|split; [vm_compute; discriminate|]];
    intros q Hq; vm_compute in Hq; repeat (apply elem_of_cons in Hq as [->|Hq]; [by left|]); by apply not_elem_of_nil in Hq|]).
  by apply not_elem_of_nil in Hp.
Qed.


(** The same, computed: contents and times on the second node. *)
Example roundtrip_example :
  let snap := perform_snapshot (λ _ _, true) example_digest false ["data"] example_groups (mkNode source_fs ∅ []) in
  let state := get_snapshot_state example_groups (fst snap) in
  let store : gmap string (list byte) := {["dYWI=.dat" := [x61; x62]]} in
  let b := fst (download_from_storage (λ _ _, true) example_digest false ["data"] dir_store (λ w, (w, Ok true)) example_groups 3 state
             (mkXfer (mkNode target_fs ∅ []) store new_progress 0 0)) in
  (λ p, content (n_fs (x_node b)) p) <$> ["a"; "dir/b"; "dir/c"; "old"] =
  [Some (mkInode [x61; x62] 2); Some (mkInode [x63] 7); Some (mkInode [x61; x62] 8); None].
Proof. vm_compute. reflexivity. Qed.

(** What stands in the way of a restoration: a file where a directory is needed,
    and a directory where a file goes. *)
Definition blocked_fs (e : entry) (p : string) : fs := mkFs {[0%nat := mkInode [x64] 1]} {[p := e]} ∅.
Definition restore_one (p : string) (s : fs) : res unit :=
  snd (download_snapshotfile dir_store 3 (mkSnapshotFile p 1 7 "" (Some "Yw==")) (at_rest s)).
Example restore_blocked :
  restore_one "a/b" (blocked_fs (Regular 0) "a") = Raise FileExistsError ∧
  restore_one "a/b/c" (blocked_fs (Regular 0) "a") = Raise NotADirectoryError ∧
  restore_one "a" (blocked_fs Directory "a") = Raise IsADirectoryError.
Proof. vm_compute. split_and!; reflexivity. Qed.

Lemma download_restores_witness :
  let sr := mkSnapshotResult "h" "az" new_progress 0 None (Some (mkSnapshotState ["**"]
              [mkSnapshotFile "a" 2 5 "dYWI=" None; mkSnapshotFile "b" 1 7 "" (Some "Yw==")])) 2 3 None in
  let state := mkSnapshotState ["**"] [mkSnapshotFile "a" 2 5 "dYWI=" None; mkSnapshotFile "b" 1 7 "" (Some "Yw==")] in
  let w := mkXfer (mkNode target_fs ∅ []) {["dYWI=.dat" := [x61; x62]]} new_progress 0 0 in
  ∃ w', DownloadOp_download (λ _ _, true) example_digest false ["data"] dir_store (λ w, (w, Ok true)) (λ w, (w, Ok tt))
          example_groups 3 [sr] 0 w = (w', Ok tt) ∧
    Progress.finished_successfully (x_progress w') = true ∧
    downloaded (λ _ _, true) example_digest ["data"] dir_store example_groups w (state_files state) w'.
Proof.
  intros sr state w.
  apply (download_restores (λ _ _, true) example_digest false ["data"] dir_store (λ d, Z.of_nat (length d))
    (λ w, (w, Ok true)) (λ w, (w, Ok tt)) example_groups 3 (λ _, eq_refl) (λ _, eq_refl) example_digest_inj
    ltac:(intros d; discriminate) w [sr] 0 sr state).
  - reflexivity.
  - reflexivity.
  - reflexivity.
  - apply target_ok.
  - intros p f H. vm_compute in H. discriminate H.
  - apply (example_healthy example_config target_fs); [intros p; by eexists|apply target_ok|done].
  - intros p _. by eexists.
  - by intros f b _.
  - reflexivity.
  - apply NoDup_cons. split; [by intros [=]%list_elem_of_singleton|apply NoDup_singleton].
  - intros f g [->|[->|[]%not_elem_of_nil]%elem_of_cons]%elem_of_cons [->|[->|[]%not_elem_of_nil]%elem_of_cons]%elem_of_cons; apply not_elem_of_nil.
  - intros f [->|[->|[]%not_elem_of_nil]%elem_of_cons]%elem_of_cons.
    + split; [by exists [x61; x62]|]. destruct (example_room "a") as [Hl Hr]; [by left|by split].
    + split; [by exists [x63]|]. destruct (example_room "b") as [Hl Hr]; [right; by left|by split].
Defined.

Lemma upload_stores_hashes_witness :
  let w0 := mkNode (mkFs {[0%nat := mkInode [x61; x62] 5]} {["a" := Regular 0]} {["a" := Regular 0]})
              {["a" := mkSnapshotFile "a" 2 5 "dYWI=" None]} [] in
  let w := mkXfer w0 ∅ new_progress 0 0 in
  ∃ w' sizes, UploadOp_upload example_digest false dir_store (λ d, Z.of_nat (length d)) (λ w, (w, Ok true)) (λ w, (w, Ok tt))
      [mkSnapshotHash "dYWI=" 2; mkSnapshotHash "dYWI=" 3] true w = (w', Ok sizes) ∧
    Progress.finished_successfully (x_progress w') = true ∧ x_node w' = x_node w ∧
    st_inv (ops:=dir_store) (x_store w') ∧
    (∀ h, h ∈ ["dYWI="; "dYWI="] → ∃ d, st_lookup (ops:=dir_store) (x_store w') h = Some d ∧ example_digest d = h) ∧
    (∀ h, h ∉ ["dYWI="; "dYWI="] → st_lookup (ops:=dir_store) (x_store w') h = st_lookup (ops:=dir_store) (x_store w) h).
Proof.
  intros w0 w.
  apply (upload_stores_hashes example_digest false dir_store (λ d, Z.of_nat (length d))
    (λ w, (w, Ok true)) (λ w, (w, Ok tt)) (λ _, eq_refl) (λ _, eq_refl) w [mkSnapshotHash "dYWI=" 2; mkSnapshotHash "dYWI=" 3] true).
  - reflexivity.
  - by intros f b _.
  - reflexivity.
  - intros h Hh. assert (h = "dYWI=") as -> by (repeat (apply elem_of_cons in Hh as [->|Hh]; [done|]); by apply not_elem_of_nil in Hh).
    split; [done|]. split; [done|]. split; [by exists "a"; eexists|].
    intros p f H _. cbn [w w0 x_node n_db] in H. apply lookup_singleton_Some in H as [<- <-].
    exists (mkInode [x61; x62] 5). split; [reflexivity|]. done.
Defined.

(** A snapshot of one file, released. *)
Definition snapped : node :=
  mkNode (mkFs {[0%nat := mkInode [x61; x62] 5]} {["a" := Regular 0]} {["a" := Regular 0]})
    {["a" := mkSnapshotFile "a" 2 5 "dYWI=" None]} [].

Lemma snapped_faithful : faithful (λ _ _, true) example_digest false ["data"] example_groups snapped snapped.
Proof.
  assert (∀ p f n, n_db snapped !! p = Some f → resolve (n_fs snapped) (src (n_fs snapped)) p = Some n →
    describes example_digest f p n ∧ linked false (n_fs snapped) p n) as Hrows.
  { intros p f n Hf Hn. cbn [snapped n_db] in Hf. apply lookup_singleton_Some in Hf as [<- <-]. vm_compute in Hn.
    injection Hn as <-. split; [split; [done|split; [done|split; [done|by right]]]|by eexists; split]. }
  split; [done|]. split; [done|]. split; [done|]. split; [|split; [|split; [|done]]].
  - intros p f Hf. split; [cbn [snapped n_db] in Hf; by apply lookup_singleton_Some in Hf as [<- <-]|].
    intros n Hn _ _. destruct (Hrows p f n Hf Hn) as ((_ & _ & _ & ?) & ?). done.
  - right. cbn [snapped n_fs n_db src dst]. split; [|split].
    + intros q H. by apply lookup_singleton_Some in H as [_ H].
    + intros p _ H. by apply lookup_singleton_Some in H as [_ H].
    + intros p [f H]. apply lookup_singleton_Some in H as [<- _]. split; [discriminate|]. split; [discriminate|]. intros q []%not_elem_of_nil.
  - intros p. split.
    + intros [f Hf]. cbn [snapped n_db] in Hf. apply lookup_singleton_Some in Hf as [<- _]. by exists (Regular 0).
    + intros (e & He & _). cbn [snapped n_fs src] in He. apply lookup_singleton_Some in He as [<- _]. by eexists.
Qed.

Lemma released_files_go_missing_witness :
  let w := mkXfer snapped (∅ : gmap string (list byte)) new_progress 0 0 in
  ∃ n1 n2 w3, release false ["dYWI="] snapped = (n1, Ok tt) ∧
    perform_snapshot (λ _ _, true) example_digest false ["data"] example_groups n1 = (n2, Ok tt) ∧
    UploadOp_upload example_digest false dir_store (λ d, Z.of_nat (length d)) (λ w, (w, Ok true)) (λ w, (w, Ok tt))
      [mkSnapshotHash "dYWI=" 2] true (mkXfer n2 (x_store w) (x_progress w) 0 0) = (w3, Ok (0, 0)) ∧
    Progress.finished_failed (x_progress w3) = true ∧ x_store w3 = x_store w.
Proof.
  intros w.
  apply (released_files_go_missing (λ _ _, true) example_digest false ["data"] dir_store (λ d, Z.of_nat (length d))
    (λ w, (w, Ok true)) (λ w, (w, Ok tt)) example_groups (λ _, eq_refl) (λ _, eq_refl) snapped w "dYWI=" 2 true).
  - reflexivity.
  - split; [|apply tree_wf_check; vm_compute; reflexivity]. intros p i H. cbn [snapped n_fs src] in H.
    apply lookup_singleton_Some in H as [_ [= <-]]. by eexists.
  - reflexivity.
  - intros p _. by eexists.
  - apply snapped_faithful.
  - reflexivity.
  - discriminate.
  - exists "a". by eexists.
Defined.
End RoundTrip.
