(* ===== verification/ListBackups.v ===== *)
(** * Listing of backups ([coordinator/list.py], the list endpoints of
      [coordinator/api.py])

    What a listing reports of each backup, the statistics of its deduplicated
    files, and the cache of the last response that the endpoint keeps. *)

From stdpp Require Import base gmap strings list sorting.
From Stdlib Require Import ZArith Lia.
From S2P Require Import Prelude Progress Ipc Storage Steps.

Module ListBackups.
Local Open Scope Z_scope.

Definition zsum (l : list Z) : Z := foldr Z.add 0 l.

(** ** [compute_deduplicated_snapshot_file_stats] *)
Definition counters : Type := gmap string Z * gmap string Z.

(** One file: the counter of the node and the sizes of the cluster. *)
Definition count_file (acc : counters) (f : SnapshotFile) : counters :=
  let '(node_hexdigest_counter, hexdigest_sizes) := acc in
  (<[hexdigest f := default 0 (node_hexdigest_counter !! hexdigest f) + 1]> node_hexdigest_counter,
   match hexdigest_sizes !! hexdigest f with
   | Some _ => hexdigest_sizes
   | None => <[hexdigest f := file_size f]> hexdigest_sizes
   end).

Definition update_max (hexdigest_max_counts : gmap string Z) (item : string * Z) : gmap string Z :=
  <[item.1 := Z.max (default 0 (hexdigest_max_counts !! item.1)) item.2]> hexdigest_max_counts.

Definition count_node (acc : counters) (sr : SnapshotResult) : res counters :=
  let '(hexdigest_max_counts, hexdigest_sizes) := acc in
  match sr_state sr with
  | None => Raise AssertionError
  | Some state =>
      let '(counter, sizes) := foldl count_file (∅, hexdigest_sizes) (state_files state) in
      Ok (foldl update_max hexdigest_max_counts (map_to_list counter), sizes)
  end.

Definition compute_deduplicated_snapshot_file_stats (manifest : BackupManifest) : res (Z * Z) :=
  '(hexdigest_max_counts, hexdigest_sizes) ← fold_res count_node (∅, ∅) (bm_snapshot_results manifest);
  let items := map_to_list hexdigest_max_counts in
  total_size ← fold_res (λ t (item : string * Z),
    match hexdigest_sizes !! item.1 with Some size => Ok (t + item.2 * size) | None => Raise KeyError end) 0 items;
  Ok (zsum items.*2, total_size).

(** ** [_iter_backups], [_iter_storages], [list_backups] *)
Definition summary (backup_name : string) (manifest : BackupManifest) : res ListSingleBackup :=
  '(cluster_files, cluster_data_size) ← compute_deduplicated_snapshot_file_stats manifest;
  Ok (mkListSingleBackup backup_name (bm_start manifest) (bm_end manifest) (bm_plugin manifest) (bm_attempt manifest)
        (Z.of_nat (length (bm_snapshot_results manifest)))
        (zsum (sr_files <$> bm_snapshot_results manifest))
        (zsum (sr_total_size <$> bm_snapshot_results manifest))
        (zsum (ur_total_size <$> bm_upload_results manifest))
        (zsum (ur_total_stored_size <$> bm_upload_results manifest))
        cluster_files cluster_data_size).

(** [name[len(prefix) :]] *)
Definition strip (prefix name : string) : string :=
  String.substring (String.length prefix) (String.length name - String.length prefix) name.

Definition CachedStorageListEntries : Type := gmap string ListSingleBackup.
Definition CachedListEntries : Type := gmap string CachedStorageListEntries.

Section listing.
Context {SJ B : Type} (json : StorageOps SJ B) `{!ManifestCodec B}.

Definition one_backup (backup_prefix : string) (storage_cache : CachedStorageListEntries) (name : string) :
    M SJ ListSingleBackup :=
  let backup_name := strip backup_prefix name in
  match storage_cache !! backup_name with
  | Some cached_entry => mret cached_entry
  | None =>
      b ← st_open json name;
      manifest ← lift_res (decode_manifest b);
      lift_res (summary backup_name manifest)
  end.

Definition iter_backups (backup_prefix : string) (storage_cache : CachedStorageListEntries) : M SJ (list ListSingleBackup) :=
  names ← st_list json;
  collect (filter (λ n, startswith backup_prefix n = true) (py_sorted str_leb names)) (one_backup backup_prefix storage_cache).

(** A [MultiStorage] holds the storages of the configuration by name. *)
Definition get_storage {A} (name : string) (m : M SJ A) : M (gmap string SJ) A := λ w,
  match w !! name with
  | None => (w, Raise KeyError)
  | Some s => let '(s', r) := m s in (<[name := s']> w, r)
  end.
Definition list_storages (w : gmap string SJ) : list string := py_sorted str_leb (elements (dom w)).

Definition iter_storages (req_storage : string) (cache : CachedListEntries) (backup_prefix : string) :
    M (gmap string SJ) (list ListForStorage) :=
  w ← get;
  collect (filter (λ n, req_storage = "" ∨ req_storage = n) (py_sorted str_leb (list_storages w))) (λ storage_name,
    backups ← get_storage storage_name (iter_backups backup_prefix (default ∅ (cache !! storage_name)));
    mret (mkListForStorage storage_name backups)).

(** A request is the name of the storage to list, or empty. *)
Definition list_backups (req : string) (cache : CachedListEntries) : M (gmap string SJ) (list ListForStorage) :=
  iter_storages req cache JSON_BACKUP_PREFIX.
Definition list_delta_backups (req : string) : M (gmap string SJ) (list ListForStorage) :=
  iter_storages req ∅ JSON_DELTA_PREFIX.
End listing.

(** ** Sums over the classes of a list *)
Definition count (h : string) (l : list string) : Z := Z.of_nat (length (filter (λ x, x = h) l)).

Lemma zsum_app l k : zsum (l ++ k) = zsum l + zsum k.
Proof. unfold zsum. induction l; simpl; lia. Qed.

Lemma zsum_Permutation l k : l ≡ₚ k → zsum l = zsum k.
Proof. unfold zsum. induction 1; simpl; lia. Qed.

Lemma zsum_le {A} (f g : A → Z) l : (∀ x, x ∈ l → f x ≤ g x) → zsum (f <$> l) ≤ zsum (g <$> l).
Proof.
  unfold zsum. induction l as [|x l IH]; intros H; csimpl; [lia|]. specialize (H x (list_elem_of_here x l)) as Hx.
  assert (∀ y, y ∈ l → f y ≤ g y) as H' by (intros y Hy; apply H; by right). specialize (IH H'). lia.
Qed.

Lemma zsum_ext {A} (f g : A → Z) l : (∀ x, x ∈ l → f x = g x) → zsum (f <$> l) = zsum (g <$> l).
Proof.
  intros H. assert (zsum (f <$> l) ≤ zsum (g <$> l) ∧ zsum (g <$> l) ≤ zsum (f <$> l)) as [? ?]; [|lia].
  split; apply zsum_le; intros x Hx; rewrite (H x Hx); lia.
Qed.

Lemma zsum_add {A} (f g : A → Z) l : zsum ((λ x, f x + g x) <$> l) = zsum (f <$> l) + zsum (g <$> l).
Proof. unfold zsum. induction l as [|x l IH]; csimpl; lia. Qed.

Lemma count_cons h x l : count h (x :: l) = (if decide (x = h) then 1 else 0) + count h l.
Proof. unfold count. rewrite filter_cons. case_decide; simpl; lia. Qed.

Lemma digest_count_app h l k : count h (l ++ k) = count h l + count h k.
Proof. unfold count. rewrite filter_app, length_app. lia. Qed.

Lemma digest_count_pos h l : 0 < count h l ↔ h ∈ l.
Proof.
  unfold count. split.
  - intros H. destruct (filter (λ x, x = h) l) as [|x k] eqn:E; [simpl in H; lia|].
    assert (x ∈ filter (λ x, x = h) l) as Hx by (rewrite E; by left). by apply list_elem_of_filter in Hx as [<- Hx].
  - intros H. assert (h ∈ filter (λ x, x = h) l) as Hx by by apply list_elem_of_filter.
    destruct (filter _ l); [by apply not_elem_of_nil in Hx|simpl; lia].
Qed.

Lemma count_notin h l : h ∉ l → count h l = 0.
Proof. intros Hn. destruct (decide (0 < count h l)) as [Hp%digest_count_pos|]; [done|]. unfold count in *. lia. Qed.

Lemma zsum_single h (w : string → Z) ks :
  NoDup ks → h ∈ ks → zsum ((λ k, (if decide (h = k) then 1 else 0) * w k) <$> ks) = w h.
Proof.
  induction 1 as [|k ks Hk Hnd IH]; intros Hin; [by apply not_elem_of_nil in Hin|]. csimpl.
  change (zsum (?a :: ?l)) with (a + zsum l). apply elem_of_cons in Hin as [->|Hin].
  - rewrite decide_True by done. rewrite (zsum_ext _ (λ _, 0)).
    + assert (∀ l : list string, zsum ((λ _, 0) <$> l) = 0) as -> by (intros l; induction l; csimpl; unfold zsum in *; simpl; lia). lia.
    + intros x Hx. rewrite decide_False; [lia|]. by intros ->.
  - rewrite decide_False by by intros ->. rewrite IH by done. lia.
Qed.

(** Summing over the elements is summing over the classes. *)
Lemma zsum_classes (w : string → Z) (l ks : list string) :
  NoDup ks → (∀ h, h ∈ l → h ∈ ks) → zsum (w <$> l) = zsum ((λ h, count h l * w h) <$> ks).
Proof.
  intros Hnd. induction l as [|x l IH]; intros Hin.
  - change (zsum (w <$> [])) with 0. clear. unfold zsum. induction ks as [|k ks IH]; csimpl; [done|].
    rewrite <- IH. change (count k []) with 0. lia.
  - csimpl. change (zsum (?a :: ?l)) with (a + zsum l). rewrite IH by (intros h Hh; apply Hin; by right).
    rewrite <- (zsum_single x w ks Hnd) at 1 by (apply Hin; by left). rewrite <- zsum_add. apply zsum_ext.
    intros h _. rewrite count_cons. lia.
Qed.

(** ** The statistics *)
Definition node_digests (sr : SnapshotResult) : list string :=
  hexdigest <$> default [] (state_files <$> sr_state sr).
Definition all_digests (srs : list SnapshotResult) : list string := concat (node_digests <$> srs).
Definition all_files (srs : list SnapshotResult) : list SnapshotFile :=
  concat ((λ sr, default [] (state_files <$> sr_state sr)) <$> srs).
(** The greatest number of copies a node has. *)
Definition max_count (srs : list SnapshotResult) (h : string) : Z :=
  foldl (λ m sr, Z.max m (count h (node_digests sr))) 0 srs.
(** The size of the first file with the digest. *)
Definition first_size (srs : list SnapshotResult) (h : string) : Z :=
  default 0 (file_size <$> head (filter (λ f, hexdigest f = h) (all_files srs))).

Definition counts_of (l : list string) (m : gmap string Z) : Prop :=
  ∀ h, m !! h = if decide (h ∈ l) then Some (count h l) else None.
Definition sizes_of (l : list SnapshotFile) (m : gmap string Z) : Prop :=
  ∀ h, m !! h = file_size <$> head (filter (λ f, hexdigest f = h) l).

Lemma count_files_spec files pre counter sizes :
  counts_of (hexdigest <$> pre) counter →
  counts_of (hexdigest <$> (pre ++ files)) (foldl count_file (counter, sizes) files).1.
Proof.
  revert pre counter sizes. induction files as [|f files IH]; intros pre counter sizes H; [by rewrite app_nil_r|].
  cbn [foldl]. rewrite (cons_middle f), app_assoc. apply IH. clear IH. intros h. cbn [fst count_file].
  rewrite fmap_app, digest_count_app. cbn. rewrite count_cons. change (count h []) with 0.
  destruct (decide (hexdigest f = h)) as [<-|Hne].
  - rewrite lookup_insert_eq, H, (decide_True (P:=_ ∈ _ ++ _)) by (apply elem_of_app; right; by left). f_equal.
    case_decide as Hin; simpl; [lia|]. rewrite (count_notin _ _ Hin). lia.
  - rewrite lookup_insert_ne, H by done.
    rewrite (decide_ext (h ∈ _ ++ _) (h ∈ hexdigest <$> pre)); [by rewrite Z.add_0_r|].
    rewrite elem_of_app, list_elem_of_singleton. split; [|tauto]. intros [?|?]; [done|congruence].
Qed.

Lemma count_files_sizes files pre counter sizes :
  sizes_of pre sizes → sizes_of (pre ++ files) (foldl count_file (counter, sizes) files).2.
Proof.
  revert pre counter sizes. induction files as [|f files IH]; intros pre counter sizes H; [by rewrite app_nil_r|].
  cbn [foldl]. rewrite (cons_middle f), app_assoc. apply IH. clear IH. intros h. cbn [snd count_file].
  rewrite filter_app, filter_cons, filter_nil.
  destruct (decide (hexdigest f = h)) as [<-|Hne].
  - pose proof (H (hexdigest f)) as Hh. destruct (filter (λ g, hexdigest g = hexdigest f) pre) as [|g l] eqn:E; simpl in Hh |- *.
    + by rewrite Hh, lookup_insert_eq.
    + by rewrite Hh.
  - rewrite app_nil_r, <- H. destruct (sizes !! hexdigest f); [done|]. by rewrite lookup_insert_ne.
Qed.

Lemma update_max_spec (items : list (string * Z)) (m : gmap string Z) h :
  NoDup items.*1 →
  foldl update_max m items !! h =
    match dict_get items h with Some c => Some (Z.max (default 0 (m !! h)) c) | None => m !! h end.
Proof.
  revert m. induction items as [|[k c] items IH]; intros m; [done|]. cbn [fmap list_fmap fst]. inversion 1 as [|? ? Hk Hnd]; subst.
  cbn [foldl]. rewrite IH by done. cbn [dict_get]. unfold update_max. cbn [fst snd].
  destruct (decide (h = k)) as [->|Hne].
  - rewrite decide_True by done. destruct (dict_get items k) as [c'|] eqn:E.
    + apply dict_get_elem_of in E; [|done]. exfalso. apply Hk. apply (list_elem_of_fmap_2 fst) in E. done.
    + by rewrite lookup_insert_eq.
  - rewrite decide_False by done. by rewrite lookup_insert_ne.
Qed.

Lemma dict_get_map_to_list (m : gmap string Z) h : dict_get (map_to_list m) h = m !! h.
Proof.
  apply option_eq. intros c. rewrite dict_get_elem_of by apply NoDup_fst_map_to_list. apply elem_of_map_to_list.
Qed.

Lemma max_count_snoc srs sr h : max_count (srs ++ [sr]) h = Z.max (max_count srs h) (count h (node_digests sr)).
Proof. unfold max_count. by rewrite foldl_app. Qed.

Lemma all_digests_snoc srs sr : all_digests (srs ++ [sr]) = all_digests srs ++ node_digests sr.
Proof. unfold all_digests. rewrite fmap_app, concat_app. cbn. by rewrite app_nil_r. Qed.

Lemma all_files_snoc srs sr : all_files (srs ++ [sr]) = all_files srs ++ default [] (state_files <$> sr_state sr).
Proof. unfold all_files. rewrite fmap_app, concat_app. cbn. by rewrite app_nil_r. Qed.

Lemma max_count_bounds srs h :
  0 ≤ max_count srs h ≤ count h (all_digests srs) ∧
  ∀ sr, sr ∈ srs → count h (node_digests sr) ≤ max_count srs h.
Proof.
  induction srs as [|sr srs [IH1 IH2]] using rev_ind.
  { split; [unfold max_count; simpl; unfold count; lia|]. by intros ? ?%not_elem_of_nil. }
  rewrite max_count_snoc, all_digests_snoc, digest_count_app.
  assert (0 ≤ count h (node_digests sr)) by (unfold count; lia). split; [lia|].
  intros sr' [Hin|Hin%list_elem_of_singleton]%elem_of_app; [specialize (IH2 _ Hin); lia|subst; lia].
Qed.

(** What the loop over the nodes has computed after [srs]. *)
Definition counted (srs : list SnapshotResult) (acc : counters) : Prop :=
  (∀ h, acc.1 !! h = if decide (h ∈ all_digests srs) then Some (max_count srs h) else None) ∧
  sizes_of (all_files srs) acc.2.

Lemma count_nodes_spec srs acc : fold_res count_node (∅, ∅) srs = Ok acc → counted srs acc.
Proof.
  apply fold_res_ind.
  - split; [intros h; by rewrite decide_False by apply not_elem_of_nil|by intros h].
  - intros pre sr post [m s] [m' s'] _ (Hm & Hs). unfold count_node. cbn [fst snd] in *.
    destruct (sr_state sr) as [state|] eqn:Est; [|done].
    destruct (foldl count_file (∅, s) (state_files state)) as [counter s2] eqn:Ec. intros [= <- <-].
    pose proof (count_files_spec (state_files state) [] ∅ s) as Hcnt. rewrite Ec in Hcnt. cbn [fst app] in Hcnt.
    assert (counts_of (hexdigest <$> state_files state) counter) as Hc by (apply Hcnt; intros h; by rewrite decide_False by apply not_elem_of_nil).
    pose proof (count_files_sizes (state_files state) (all_files pre) ∅ s Hs) as Hs2. rewrite Ec in Hs2. cbn [snd] in Hs2.
    assert (node_digests sr = hexdigest <$> state_files state) as Hnd by (unfold node_digests; by rewrite Est).
    split; [|by rewrite all_files_snoc, Est]. intros h. cbn [fst]. rewrite all_digests_snoc, max_count_snoc, Hnd.
    rewrite update_max_spec by apply NoDup_fst_map_to_list. rewrite dict_get_map_to_list, Hc, Hm.
    pose proof (max_count_bounds pre h) as [Hb _]. destruct (decide (h ∈ hexdigest <$> state_files state)) as [Hin|Hin].
    + rewrite (decide_True (P:=h ∈ _ ++ _)) by (apply elem_of_app; by right). f_equal.
      destruct (decide (h ∈ all_digests pre)) as [|Hn%count_notin]; [done|]. simpl. lia.
    + rewrite (count_notin _ _ Hin), (decide_ext (h ∈ _ ++ _) (h ∈ all_digests pre)) by (rewrite elem_of_app; tauto).
      case_decide; [|done]. f_equal. lia.
Qed.

Lemma total_size_spec (sizes : gmap string Z) (items : list (string * Z)) t :
  (∀ item, item ∈ items → is_Some (sizes !! item.1)) →
  fold_res (λ t (item : string * Z), match sizes !! item.1 with Some size => Ok (t + item.2 * size) | None => Raise KeyError end) t items
  = Ok (t + zsum ((λ item, item.2 * default 0 (sizes !! item.1)) <$> items)).
Proof.
  revert t. induction items as [|item items IH]; intros t Hin; cbn [fold_res]; [unfold zsum; simpl; f_equal; lia|].
  destruct (Hin item) as [size Hsize]; [by left|]. rewrite Hsize. cbn [mbind res_bind]. rewrite IH by (intros i Hi; apply Hin; by right).
  csimpl. rewrite Hsize. unfold zsum. simpl. f_equal. lia.
Qed.

Lemma all_files_digests srs : hexdigest <$> all_files srs = all_digests srs.
Proof. unfold all_files, all_digests. induction srs as [|sr srs IH]; [done|]. csimpl. by rewrite fmap_app, IH. Qed.

Lemma sizes_of_all srs sizes h :
  sizes_of (all_files srs) sizes → h ∈ all_digests srs →
  is_Some (sizes !! h) ∧ default 0 (sizes !! h) = first_size srs h.
Proof.
  intros Hs Hh. rewrite (Hs h). unfold first_size. split; [|done]. rewrite <- all_files_digests in Hh.
  apply list_elem_of_fmap in Hh as (f & -> & Hf).
  assert (f ∈ filter (λ g, hexdigest g = hexdigest f) (all_files srs)) as Hin by by apply list_elem_of_filter.
  destruct (filter _ _); [by apply not_elem_of_nil in Hin|by eexists].
Qed.

(** Weighing digests, the deduplicated total is between that of a node and that
    of the cluster. *)
Lemma dedup_bounds srs (w : string → Z) :
  (∀ h, 0 ≤ w h) →
  let total := zsum ((λ h, max_count srs h * w h) <$> remove_dups (all_digests srs)) in
  total ≤ zsum (w <$> all_digests srs) ∧ ∀ sr, sr ∈ srs → zsum (w <$> node_digests sr) ≤ total.
Proof.
  intros Hw. set (ks := remove_dups (all_digests srs)). assert (NoDup ks) as Hnd by apply NoDup_remove_dups. split.
  - rewrite (zsum_classes w (all_digests srs) ks Hnd) by (intros h; unfold ks; by rewrite elem_of_remove_dups).
    apply zsum_le. intros h _. specialize (Hw h). pose proof (max_count_bounds srs h). nia.
  - intros sr Hsr. rewrite (zsum_classes w (node_digests sr) ks Hnd).
    + apply zsum_le. intros h _. specialize (Hw h). pose proof (proj2 (max_count_bounds srs h) sr Hsr). nia.
    + intros h Hh. apply elem_of_remove_dups, list_elem_of_In, in_concat. exists (node_digests sr).
      rewrite <- !list_elem_of_In. split; [|done]. by apply list_elem_of_fmap_2.
Qed.

(** The statistics of deduplicated files.  They fail, with an assertion,
    exactly when some node has no snapshot state.  Otherwise every digest of
    the cluster counts once per copy on the node that has most copies of it,
    so that the number of files is between that of any one node and that of
    the whole cluster; and when equal digests have equal sizes, the data size
    is likewise between the total size of the files of any one node and the
    total size of all files. *)
Theorem dedup_stats_exact (manifest : BackupManifest) :
  let srs := bm_snapshot_results manifest in
  let size fs := zsum (file_size <$> fs) in
  match compute_deduplicated_snapshot_file_stats manifest with
  | Raise e => e = AssertionError ∧ Exists (λ sr, sr_state sr = None) srs
  | Ok (num_files, total_size) =>
      num_files = zsum (max_count srs <$> remove_dups (all_digests srs)) ∧
      total_size = zsum ((λ h, max_count srs h * first_size srs h) <$> remove_dups (all_digests srs)) ∧
      num_files ≤ Z.of_nat (length (all_files srs)) ∧
      (∀ sr state, sr ∈ srs → sr_state sr = Some state → Z.of_nat (length (state_files state)) ≤ num_files) ∧
      ((∀ f, f ∈ all_files srs → 0 ≤ file_size f ∧ file_size f = first_size srs (hexdigest f)) →
       total_size ≤ size (all_files srs) ∧
       ∀ sr state, sr ∈ srs → sr_state sr = Some state → size (state_files state) ≤ total_size)
  end.
Proof.
  intros srs size. unfold compute_deduplicated_snapshot_file_stats. fold srs.
  destruct (fold_res count_node (∅, ∅) srs) as [[m sizes]|e] eqn:Ef; cbn [mbind res_bind].
  2: { apply fold_res_raise in Ef as (sr & [m sizes] & Hin & Hs). unfold count_node in Hs.
       destruct (sr_state sr) eqn:Est; [by destruct (foldl count_file _ _)|]. injection Hs as <-.
       split; [done|]. apply Exists_exists. by exists sr. }
  apply count_nodes_spec in Ef as (Hm & Hs). cbn [fst snd] in *. set (ks := remove_dups (all_digests srs)).
  assert (NoDup ks) as Hnd by apply NoDup_remove_dups.
  assert (∀ h, h ∈ ks ↔ h ∈ all_digests srs) as Hks by (intros h; apply elem_of_remove_dups).
  assert (map_to_list m ≡ₚ (λ h, (h, max_count srs h)) <$> ks) as Hperm.
  { apply NoDup_Permutation; [apply NoDup_map_to_list|by apply NoDup_fmap_2; [intros ? ? [=]|]|].
    intros [h c]. rewrite elem_of_map_to_list, Hm, list_elem_of_fmap. split.
    - case_decide as Hin; [|done]. intros [= <-]. exists h. by rewrite Hks.
    - intros (h' & [= -> ->] & Hin%Hks). by rewrite decide_True. }
  rewrite total_size_spec.
  2: { intros item Hin. rewrite Hperm in Hin. apply list_elem_of_fmap in Hin as (h & -> & Hh%Hks). by eapply sizes_of_all. }
  cbn [mbind res_bind].
  assert (zsum (map_to_list m).*2 = zsum (max_count srs <$> ks)) as ->.
  { rewrite (zsum_Permutation _ _ (fmap_Permutation snd _ _ Hperm)), <- list_fmap_compose. done. }
  assert (0 + zsum ((λ item : string * Z, item.2 * default 0 (sizes !! item.1)) <$> map_to_list m) =
    zsum ((λ h, max_count srs h * first_size srs h) <$> ks)) as ->.
  { rewrite (zsum_Permutation _ _ (fmap_Permutation _ _ _ Hperm)), <- list_fmap_compose. apply zsum_ext.
    intros h Hh%Hks. cbn. by rewrite (proj2 (sizes_of_all _ _ _ Hs Hh)). }
  split; [done|]. split; [done|].
  pose proof (λ w Hw, dedup_bounds srs w Hw) as Hbounds. fold ks in Hbounds.
  assert (∀ sr state, sr ∈ srs → sr_state sr = Some state → node_digests sr = hexdigest <$> state_files state ∧
    ∀ f, f ∈ state_files state → f ∈ all_files srs) as Hnode.
  { intros sr state Hsr Hst. unfold node_digests. rewrite Hst. split; [done|]. intros f Hf.
    apply list_elem_of_In, in_concat. exists (state_files state). rewrite <- !list_elem_of_In. split; [|done].
    apply list_elem_of_fmap. exists sr. by rewrite Hst. }
  assert (∀ l : list string, zsum ((λ _, 1) <$> l) = Z.of_nat (length l)) as Hone.
  { unfold zsum. intros l. induction l as [|x l IH]; csimpl; lia. }
  destruct (Hbounds (λ _, 1)) as [H1 H2]; [lia|].
  assert (zsum ((λ h, max_count srs h * 1) <$> ks) = zsum (max_count srs <$> ks)) as E1 by (apply zsum_ext; intros h _; apply Z.mul_1_r).
  fold ks in H1, H2. rewrite E1 in H1, H2.
  rewrite Hone, <- all_files_digests, length_fmap in H1. split; [done|]. split.
  { intros sr state Hsr Hst. specialize (H2 sr Hsr). by rewrite Hone, (proj1 (Hnode _ _ Hsr Hst)), length_fmap in H2. }
  intros Hsz. set (w := λ h, Z.max 0 (first_size srs h)). destruct (Hbounds w) as [H3 H4]; [intros h; unfold w; lia|].
  assert (∀ f, f ∈ all_files srs → w (hexdigest f) = file_size f) as Hw by (intros f Hf; destruct (Hsz f Hf) as [? E]; unfold w; rewrite <- E; lia).
  assert (zsum ((λ h, max_count srs h * w h) <$> ks) = zsum ((λ h, max_count srs h * first_size srs h) <$> ks)) as E.
  { apply zsum_ext. intros h Hh%Hks. rewrite <- all_files_digests in Hh. apply list_elem_of_fmap in Hh as (f & -> & Hf).
    rewrite (Hw f Hf). by destruct (Hsz f Hf) as [_ <-]. }
  rewrite E in H3, H4. assert (∀ l, (∀ f, f ∈ l → f ∈ all_files srs) → zsum (w <$> (hexdigest <$> l)) = size l) as Hl.
  { intros l Hin. rewrite <- list_fmap_compose. apply zsum_ext. intros f Hf. by apply Hw, Hin. }
  rewrite <- all_files_digests, Hl in H3 by done. split; [done|]. intros sr state Hsr Hst.
  destruct (Hnode _ _ Hsr Hst) as [Hd Hin]. specialize (H4 sr Hsr). by rewrite Hd, Hl in H4.
Qed.

(** ** The listing *)
Section listing_spec.
Context {SJ B : Type} (json : StorageOps SJ B) `{!ManifestCodec B} `{!StorageSpec json}.
Notation jlookup s n := (st_lookup (ops:=json) s n).

Definition same_storage (s s' : SJ) : Prop := st_inv (ops:=json) s' ∧ ∀ n, jlookup s' n = jlookup s n.

(** Storages whose contents did not change. *)
Definition same_storages (w w' : gmap string SJ) : Prop := map_relation (λ _, same_storage) (λ _ _, False) (λ _ _, False) w w'.

(** What is to be reported of the backup stored under a name. *)
Definition reports (prefix : string) (s : SJ) (name : string) (e : ListSingleBackup) : Prop :=
  ∃ b m, jlookup s name = Some b ∧ decode_manifest b = Ok m ∧ summary (strip prefix name) m = Ok e.

(** Stored backups can be reported, and the cached entries are what would be. *)
Definition listable (prefix : string) (cache : CachedStorageListEntries) (s : SJ) : Prop :=
  st_inv (ops:=json) s ∧ ∀ n, is_Some (jlookup s n) → startswith prefix n = true →
    ∃ e, reports prefix s n e ∧ ∀ e', cache !! strip prefix n = Some e' → e' = e.

(** The names of the backups of a storage, in order. *)
Definition backup_names (prefix : string) (s : SJ) (names : list string) : Prop :=
  StronglySorted (λ a b, str_leb a b = true) names ∧ NoDup names ∧
  ∀ n, n ∈ names ↔ is_Some (jlookup s n) ∧ startswith prefix n = true.

Lemma same_storage_trans s1 s2 s3 : same_storage s1 s2 → same_storage s2 s3 → same_storage s1 s3.
Proof. intros [_ H1] [? H2]. split; [done|]. intros n. by rewrite H2, H1. Qed.

Lemma one_backup_spec prefix cache s0 s name :
  same_storage s0 s → listable prefix cache s0 → is_Some (jlookup s0 name) → startswith prefix name = true →
  ∃ s' e, one_backup json prefix cache name s = (s', Ok e) ∧ same_storage s0 s' ∧ reports prefix s0 name e.
Proof.
  intros [Hi Hsame] [_ Hl] Hst Hp. destruct (Hl name Hst Hp) as (e & Hr & Hc). unfold one_backup.
  destruct (cache !! strip prefix name) as [e'|] eqn:Ec.
  { exists s, e. rewrite (Hc e' eq_refl). by repeat split. }
  pose proof Hr as (b & m & Hb & Hd & He). rewrite <- Hsame in Hb.
  pose proof (st_open_spec s name Hi (st_lookup_name _ _ _ Hi Hb)) as Ho. rewrite Hb in Ho.
  destruct Ho as (s' & Ho & Hi' & Hlk). exists s', e. split.
  - rewrite (bind_ok _ _ _ _ _ Ho), Hd. erewrite bind_ok by done. by rewrite He.
  - split; [|done]. split; [done|]. intros n. by rewrite Hlk, Hsame.
Qed.

Lemma iter_backups_spec prefix cache s :
  listable prefix cache s →
  ∃ s' names entries, iter_backups json prefix cache s = (s', Ok entries) ∧ same_storage s s' ∧
    backup_names prefix s names ∧ Forall2 (reports prefix s) names entries.
Proof.
  intros Hl. pose proof Hl as [Hi _]. destruct (st_list_spec s Hi) as (s1 & l & Hrun & Hi1 & Hlk & Hnd & Hel).
  set (names := filter (λ n, startswith prefix n = true) (py_sorted str_leb l)).
  assert (backup_names prefix s names) as Hn.
  { split; [|split].
    - apply StronglySorted_filter, py_sorted_StronglySorted; [apply str_leb_total|intros a b c; apply str_leb_trans].
    - apply NoDup_filter. by rewrite py_sorted_Permutation.
    - intros n. unfold names. rewrite list_elem_of_filter, elem_of_py_sorted, Hel. tauto. }
  destruct (collect_inv (same_storage s) (reports prefix s) names (one_backup json prefix cache) s1) as (s' & es & Hc & Hs' & HF).
  - by split.
  - intros n s2 Hin Hs2. apply Hn in Hin as [H1 H2]. by apply one_backup_spec.
  - exists s', names, es. split; [|done]. unfold iter_backups. rewrite (bind_ok _ _ _ _ _ Hrun). done.
Qed.

Lemma same_reports prefix s s' n e : same_storage s s' → reports prefix s' n e ↔ reports prefix s n e.
Proof. intros [_ H]. unfold reports. by rewrite H. Qed.

Lemma same_listable prefix cache s s' : same_storage s s' → listable prefix cache s → listable prefix cache s'.
Proof.
  intros H [_ Hl]. split; [apply H|]. intros n. rewrite (proj2 H n). intros Hst Hp.
  destruct (Hl n Hst Hp) as (e & Hr & Hc). exists e. by rewrite same_reports by done.
Qed.

Lemma same_reported prefix s s' names es :
  same_storage s s' → backup_names prefix s' names ∧ Forall2 (reports prefix s') names es →
  backup_names prefix s names ∧ Forall2 (reports prefix s) names es.
Proof.
  intros H [(HS & Hnd & Hel) HF]. split.
  - split; [done|]. split; [done|]. intros n. by rewrite Hel, (proj2 H n).
  - eapply Forall2_impl; [exact HF|]. intros n e. by apply (same_reports _ _ _ _ _ H).
Qed.

(** A listing reports exactly the stored backups, cached or not.  When the
    backups can be decoded and the entries of the cache are what would be
    reported for them, the listing succeeds, leaves the contents of the
    storages alone, covers the requested storage - all of them when none is
    named - in order, and has for each one the report of every stored manifest
    with the prefix, in the order of the names. *)
Theorem listing_exact (req : string) (cache : CachedListEntries) (prefix : string) (w : gmap string SJ) :
  (∀ name s, w !! name = Some s → listable prefix (default ∅ (cache !! name)) s) →
  ∃ w' resp, iter_storages json req cache prefix w = (w', Ok resp) ∧ same_storages w w' ∧
    ls_storage_name <$> resp = filter (λ n, req = "" ∨ req = n) (py_sorted str_leb (list_storages w)) ∧
    ∀ ls, ls ∈ resp → ∃ s names, w !! ls_storage_name ls = Some s ∧ backup_names prefix s names ∧
      Forall2 (reports prefix s) names (ls_backups ls).
Proof.
  intros Hl. unfold iter_storages. rewrite (bind_ok get _ w w w) by done. set (names := filter _ _).
  set (I := same_storages w). set (R := λ name ls, ls_storage_name ls = name ∧ ∃ s names, w !! name = Some s ∧
    backup_names prefix s names ∧ Forall2 (reports prefix s) names (ls_backups ls)).
  match goal with |- context [collect names ?f] => destruct (collect_inv I R names f w) as (w' & resp & Hrun & Hw' & HF) end.
  - intros name. unfold option_relation. destruct (w !! name) as [s|] eqn:E; [|done]. split; [by apply (Hl name)|done].
  - intros name w1 Hin HI. apply list_elem_of_filter in Hin as [_ Hin].
    apply elem_of_py_sorted, elem_of_py_sorted, elem_of_elements, elem_of_dom in Hin as [s Hs].
    pose proof (HI name) as Hn. rewrite Hs in Hn. destruct (w1 !! name) as [s1|] eqn:Hs1; [|done]. simpl in Hn.
    pose proof (Hl name s Hs) as Hls.
    assert (listable prefix (default ∅ (cache !! name)) s1) as Hls1 by by eapply same_listable.
    destruct (iter_backups_spec _ _ _ Hls1) as (s2 & ns & es & Hrun & Hs2 & Hbn & HF).
    exists (<[name := s2]> w1), (mkListForStorage name es). split.
    { unfold mbind at 1, M_bind, get_storage. by rewrite Hs1, Hrun. }
    split.
    + intros k. destruct (decide (k = name)) as [->|Hk]; [|rewrite lookup_insert_ne by done; apply HI].
      rewrite lookup_insert_eq, Hs. simpl. by eapply same_storage_trans.
    + split; [done|]. exists s, ns. split; [done|]. by apply (same_reported _ _ _ _ _ Hn).
  - exists w', resp. split; [exact Hrun|]. split; [done|]. split.
    + clear -HF. induction HF as [|x y l k [<- _] _ IH]; [done|]. csimpl. by rewrite IH.
    + intros ls Hin. apply list_elem_of_lookup in Hin as [i Hi].
      destruct (Forall2_lookup_r _ _ _ _ _ HF Hi) as (name & _ & <- & s & ns & H). by exists s, ns.
Qed.
End listing_spec.

(** ** The endpoint [_list_backups] and its cache

    The configuration is a parameter, compared as a whole.  The listing itself
    runs in a thread, so that other requests are served between [list_begin]
    and [list_finish]. *)
Section endpoint.
Context {Cfg : Type} `{!EqDecision Cfg} (list_ttl : Cfg → Z).

Record CachedListResponse : Type := mkCached {
  timestamp : Z;
  coordinator_config : Cfg;
  list_request : string;
  list_response : list ListForStorage;
}.

Record CoordinatorState : Type := mkState {
  cached_list_response : option CachedListResponse;
  cached_list_running : bool;
}.

(** [bool(cached_list_response.list_request)]: a [msgspec.Struct] defines
    neither [__bool__] nor [__len__], so it is true whatever it holds. *)
Definition truth_of_request (req : string) : bool := true.

Definition get_cache_entries_from_list_response (resp : list ListForStorage) : CachedListEntries :=
  foldl (λ m ls, <[ls_storage_name ls := foldl (λ e b, <[lb_name b := b]> e) ∅ (ls_backups ls)]> m) ∅ resp.

(** The response, or the cache entries to list with. *)
Definition list_begin (config : Cfg) (now : Z) : M CoordinatorState (list ListForStorage + CachedListEntries) :=
  st ← get;
  let fresh := match cached_list_response st with
               | Some c => if (now - timestamp c <? list_ttl config) && bool_decide (coordinator_config c = config)
                              && truth_of_request (list_request c) then Some (list_response c) else None
               | None => None
               end in
  match fresh with
  | Some resp => mret (inl resp)
  | None =>
      if cached_list_running st then raise (HTTPException 429)
      else
        modify (λ st, mkState (cached_list_response st) true) ;;
        mret (inr (match cached_list_response st with
                   | Some c => get_cache_entries_from_list_response (list_response c)
                   | None => ∅
                   end))
  end.

(** [try ... finally: c.state.cached_list_running = False] *)
Definition list_finish (config : Cfg) (req : string) (now : Z) (r : res (list ListForStorage)) :
    M CoordinatorState (list ListForStorage) :=
  try_finally (
    resp ← lift_res r;
    modify (λ st, mkState (Some (mkCached now config req resp)) (cached_list_running st)) ;;
    mret resp) (λ st, mkState (cached_list_response st) false).

(** [CacheClearingJsonStorage]: any write of the coordinator. *)
Definition clear_cached_response (st : CoordinatorState) : CoordinatorState := mkState None (cached_list_running st).

(** A request, uninterrupted. *)
Definition list_backups_endpoint {S} (run : string → CachedListEntries → M S (list ListForStorage))
    (config : Cfg) (req : string) (now now' : Z) : M (CoordinatorState * S) (list ListForStorage) := λ w,
  match list_begin config now (fst w) with
  | (st, Raise e) => ((st, snd w), Raise e)
  | (st, Ok (inl resp)) => ((st, snd w), Ok resp)
  | (st, Ok (inr cache)) =>
      let '(s, r) := run req cache (snd w) in
      let '(st', r') := list_finish config req now' r st in ((st', s), r')
  end.

(** Any number of requests, writes and the clock, interleaved.  [in_flight]
    are the requests whose listing runs, [history] the completed listings. *)
Record sys : Type := mkSys {
  state : CoordinatorState;
  clock : Z;
  in_flight : list (Cfg * string);
  history : list CachedListResponse;
}.

Inductive step : sys → sys → Prop :=
| step_served s config resp :
    snd (list_begin config (clock s) (state s)) = Ok (inl resp) → step s s
| step_busy s config e :
    snd (list_begin config (clock s) (state s)) = Raise e → step s s
| step_begin s config req st cache :
    list_begin config (clock s) (state s) = (st, Ok (inr cache)) →
    step s (mkSys st (clock s) ((config, req) :: in_flight s) (history s))
| step_finish s config req l1 l2 r st r' :
    in_flight s = l1 ++ (config, req) :: l2 →
    list_finish config req (clock s) r (state s) = (st, r') →
    step s (mkSys st (clock s) (l1 ++ l2)
              (match r with Ok resp => mkCached (clock s) config req resp :: history s | Raise _ => history s end))
| step_write s : step s (mkSys (clear_cached_response (state s)) (clock s) (in_flight s) (history s))
| step_tick s t : clock s ≤ t → step s (mkSys (state s) t (in_flight s) (history s)).

Inductive reachable : sys → Prop :=
| reachable_initial t : reachable (mkSys (mkState None false) t [] [])
| reachable_step s s' : reachable s → step s s' → reachable s'.

Definition sys_inv (s : sys) : Prop :=
  length (in_flight s) = (if cached_list_running (state s) then 1 else 0)%nat ∧
  ∀ c, cached_list_response (state s) = Some c → c ∈ history s ∧ timestamp c ≤ clock s.

Lemma list_begin_started config now st st' cache :
  list_begin config now st = (st', Ok (inr cache)) →
  cached_list_running st = false ∧ st' = mkState (cached_list_response st) true.
Proof.
  unfold list_begin, get, mbind, M_bind. cbn.
  destruct (match cached_list_response st with Some _ => _ | None => _ end); [done|].
  destruct (cached_list_running st); [done|]. by intros [= <- _].
Qed.

Lemma list_begin_served config now st st' resp :
  list_begin config now st = (st', Ok (inl resp)) →
  st' = st ∧ ∃ c, cached_list_response st = Some c ∧ list_response c = resp ∧
    coordinator_config c = config ∧ now - timestamp c < list_ttl config.
Proof.
  unfold list_begin, get, mbind, M_bind. cbn. destruct (cached_list_response st) as [c|] eqn:Ec.
  - destruct (_ && _) eqn:E.
    + intros [= <- <-]. split; [done|]. exists c. apply andb_prop in E as [E _]. apply andb_prop in E as [E1 E2].
      apply bool_decide_eq_true in E2. split; [done|]. split; [done|]. split; [done|]. lia.
    + by destruct (cached_list_running st).
  - by destruct (cached_list_running st).
Qed.

Lemma list_finish_run config req now r st :
  list_finish config req now r st =
    (mkState (match r with Ok resp => Some (mkCached now config req resp) | Raise _ => cached_list_response st end) false, r).
Proof. by destruct r. Qed.

Lemma step_inv s s' : sys_inv s → step s s' → sys_inv s'.
Proof.
  intros [Hlen Hc] Hst. inversion Hst; subst; clear Hst; try done.
  - match goal with H : list_begin _ _ _ = _ |- _ => apply list_begin_started in H as [Hr ->] end.
    rewrite Hr in Hlen. destruct (in_flight s); [|done]. split; [done|]. exact Hc.
  - match goal with H : in_flight s = _ |- _ => rewrite H in Hlen end. rewrite length_app in Hlen. simpl in Hlen.
    assert (length l1 = 0 ∧ length l2 = 0)%nat as [H1 H2] by (destruct (cached_list_running (state s)); lia).
    match goal with H : list_finish _ _ _ _ _ = _ |- _ => rewrite list_finish_run in H; injection H as <- <- end.
    destruct l1, l2; [|done..]. split; [done|]. intros c Hcc.
    destruct r as [resp|e]; [injection Hcc as <-; split; [by left|simpl; lia]|by apply Hc].
  - split; [exact Hlen|]. intros c Hcc. destruct (Hc c Hcc). simpl. split; [done|lia].
Qed.

(** However list requests, writes of the coordinator and the passing of
    time are interleaved, at most one listing runs at a time, the running flag
    is set exactly while it does - so that a failed listing never blocks the
    next ones - and a response served from the cache is that of a completed
    listing, under the same configuration, less than the time to live ago.
    (Not necessarily of the same request: see [list_cache_ignores_request].) *)
Theorem list_endpoint_safe (s : sys) :
  reachable s →
  (length (in_flight s) ≤ 1)%nat ∧
  (cached_list_running (state s) = true ↔ in_flight s ≠ []) ∧
  ∀ config st resp, list_begin config (clock s) (state s) = (st, Ok (inl resp)) →
    ∃ c, c ∈ history s ∧ list_response c = resp ∧ coordinator_config c = config ∧
         0 ≤ clock s - timestamp c < list_ttl config.
Proof.
  intros Hr. assert (sys_inv s) as [Hlen Hc].
  { induction Hr as [t|s s' _ IH Hst]; [by split|]. by eapply step_inv. }
  split; [destruct (cached_list_running (state s)); lia|]. split.
  - destruct (cached_list_running (state s)), (in_flight s); simpl in Hlen; try done.
  - intros config st resp (_ & c & Hcc & <- & <- & Ht)%list_begin_served. destruct (Hc c Hcc) as [Hin Hle].
    exists c. split; [done|]. split; [done|]. split; [done|]. lia.
Qed.
End endpoint.

(** ** A cluster of two nodes and two storages *)
#[local] Existing Instance identity_codec.
Definition example_json : StorageOps (gmap string BackupManifest) BackupManifest := FileStorage.json_ops (λ _, false).

Definition example_node (files : list SnapshotFile) : SnapshotResult :=
  mkSnapshotResult "host" "az" (mkProgress 1 0 1 true) 0 None (Some (mkSnapshotState [] files)) 1 1 None.
Definition example_file (path digest : string) (size : Z) : SnapshotFile := mkSnapshotFile path size 0 digest None.

(** Two copies of one chunk on the first node, one on the second. *)
Definition example_manifest : BackupManifest :=
  mkBackupManifest 10 20 1
    [example_node [example_file "a" "aa" 5; example_file "b" "aa" 5; example_file "c" "cc" 1];
     example_node [example_file "a" "aa" 5; example_file "d" "dd" 7]]
    [] files_plugin "{}" "".

Lemma dedup_stats_exact_witness :
  compute_deduplicated_snapshot_file_stats example_manifest = Ok (4, 18) ∧
  18 ≤ zsum (file_size <$> all_files (bm_snapshot_results example_manifest)).
Proof.
  split; [vm_compute; reflexivity|]. pose proof (dedup_stats_exact example_manifest) as H. cbn zeta in H.
  assert (compute_deduplicated_snapshot_file_stats example_manifest = Ok (4, 18)) as E by (vm_compute; reflexivity).
  rewrite E in H. destruct H as (_ & _ & _ & _ & H). apply H.
  intros f Hf. revert f Hf. apply Forall_forall. vm_compute. repeat constructor; discriminate.
Defined.

Definition example_world : gmap string (gmap string BackupManifest) :=
  <["a" := <["backup-1.json" := example_manifest]> ∅]> (<["b" := ∅]> ∅).

Lemma listing_exact_witness :
  ∃ w' resp, list_backups example_json "a" ∅ example_world = (w', Ok resp) ∧
    same_storages example_json example_world w' ∧
    ls_storage_name <$> resp = filter (λ n, "a" = "" ∨ "a" = n) (py_sorted str_leb (list_storages example_world)) ∧
    ∀ ls, ls ∈ resp → ∃ s names, example_world !! ls_storage_name ls = Some s ∧
      backup_names example_json JSON_BACKUP_PREFIX s names ∧
      Forall2 (reports example_json JSON_BACKUP_PREFIX s) names (ls_backups ls).
Proof.
  apply (listing_exact example_json "a" ∅ JSON_BACKUP_PREFIX example_world).
  intros name s Hs. unfold example_world in Hs.
  apply lookup_insert_Some in Hs as [[<- <-]|[_ [[<- <-]|[_ H]]%lookup_insert_Some]]; [| |by vm_compute in H].
  - split; [by intros f b _|]. intros n [b Hb] _. simpl in Hb. case_decide as Hn; [done|].
    apply lookup_insert_Some in Hb as [[Hb <-]|[_ Hb]]; [|by vm_compute in Hb].
    apply (FileStorage.to_path_inj "json" eq_refl "backup-1") in Hb as <-.
    eexists. split; [|intros e'; vm_compute; discriminate]. exists example_manifest, example_manifest.
    split; [reflexivity|]. split; [reflexivity|]. vm_compute. reflexivity.
  - split; [by intros f b _|]. intros n [b Hb] _. simpl in Hb. case_decide; [done|]. by vm_compute in Hb.
Defined.

Lemma list_endpoint_safe_witness :
  let s := mkSys (mkState (None : option (@CachedListResponse unit)) true) 3 [(tt, "a")] [] in
  (length (in_flight s) ≤ 1)%nat ∧ (cached_list_running (state s) = true ↔ in_flight s ≠ []).
Proof.
  intros s. assert (reachable (λ _ : unit, 10) s) as Hr.
  { eapply reachable_step; [apply (reachable_initial _ 3)|]. by apply (step_begin _ (mkSys (mkState None false) 3 [] []) tt "a" (mkState None true) ∅). }
  destruct (list_endpoint_safe (λ _ : unit, 10) s Hr) as (H1 & H2 & _). by split.
Defined.

(** The cached response of a listing of one storage is served, for [list_ttl],
    to a request for another one. *)
Example list_cache_ignores_request :
  let run := list_backups example_json in
  let w0 := (mkState None false, example_world) in
  let '(w1, _) := list_backups_endpoint (λ _ : unit, 10) run tt "a" 0 1 w0 in
  let '(w2, r) := list_backups_endpoint (λ _ : unit, 10) run tt "b" 5 6 w1 in
  (ls_storage_name <$> (match r with Ok l => l | Raise _ => [] end)) = ["a"].
Proof. vm_compute. reflexivity. Qed.
End ListBackups.
