(* ===== verification/NodeApi.v ===== *)
(** * The operations of a node: [node/node.py] and the endpoints of [node/api.py]

    [NodeOp] overrides [set_status] to report the end of an operation to the
    coordinator; the endpoints check the lock, build an operation and start
    it.  The endpoints run one after the other here: [allocate_op_id] and the
    shared [Op.Info] are used without a lock by the code, which relies on it. *)

From stdpp Require Import base gmap strings list.
From Stdlib Require Import ZArith Lia.
From S2P Require Import Prelude Progress Ipc Op NodeLock.

Local Open Scope Z_scope.

Module NodeApi.
Import Op.

(** ** Configuration ([node/config.py]), the fields the endpoints read *)
Inductive CassandraAccessLevel : Type := read | write.
#[global] Instance CassandraAccessLevel_eq_dec : EqDecision CassandraAccessLevel. Proof. solve_decision. Defined.

Record NodeConfig : Type := mkNodeConfig {
  root : string;
  az : string;
  root_link : option string;
  delta_root_link : option string;
  db_path : string;
  parallel_hashes : Z;
  (** [cassandra.access_level] *)
  cassandra_access : option CassandraAccessLevel;
}.

(** ** Snapshots of the application state, and what an operation works on *)
Record Snapshot : Type := mkSnapshot {
  snapshot_dst : string;
  snapshot_db : string;
}.

Record Snapshotter : Type := mkSnapshotter {
  sn_groups : list SnapshotGroup;
  sn_src : string;
  sn_dst : string;
  sn_snapshot : Snapshot;
  sn_parallel : Z;
}.

(** The bound method given to [start_op] as [fun]. *)
Inductive work : Type :=
| run_snapshot (s : Snapshotter)
| run_upload (s : Snapshot) (req : NodeRequest)
| run_release (s : Snapshotter) (req : NodeRequest)
| run_download (s : Snapshotter) (req : NodeRequest)
| run_clear (s : Snapshotter) (is_snapshot_outdated : bool)
| run_simple_cassandra (subop : CassandraSubOp)
| run_restore_sstables (req : NodeRequest)
| run_start_cassandra (req : NodeRequest)
| run_get_schema_hash.

(** ** [NodeOp]: the object of an operation.  The fields of a result that
    belong to its subclass are left out. *)
Record NodeOp : Type := mkNodeOp {
  op_callback : NodeLock.callback;
  op_result_url : string;
  op_result : NodeResult;
}.
#[global] Instance NodeOp_inhabited : Inhabited NodeOp :=
  populate (mkNodeOp (NodeLock.mkCallback "" true) "" (mkNodeResult "" "" new_progress)).

(** The state of the application: [NodeState] is [n_lock] and [n_ops]. *)
Record node : Type := mkNode {
  n_lock : NodeLock.state;
  n_ops : OpState;
  (** [app.state]: the snapshots by key. *)
  n_app : gmap string Snapshot;
  (** The operation objects by [op_id]. *)
  n_objects : gmap Z NodeOp;
  (** Background tasks, in the order they were added. *)
  n_queue : list (Z * work);
  (** The results sent: URL and body of each request. *)
  n_sent : list (string * NodeResult);
  (** The readings [time.monotonic()] will return. *)
  n_clock : nat → Z;
}.

Definition set_ops (x : OpState) (w : node) : node :=
  mkNode (n_lock w) x (n_app w) (n_objects w) (n_queue w) (n_sent w) (n_clock w).
Definition set_lock (x : NodeLock.state) (w : node) : node :=
  mkNode x (n_ops w) (n_app w) (n_objects w) (n_queue w) (n_sent w) (n_clock w).
Definition set_app (x : gmap string Snapshot) (w : node) : node :=
  mkNode (n_lock w) (n_ops w) x (n_objects w) (n_queue w) (n_sent w) (n_clock w).
Definition set_object (self : Z) (o : NodeOp) (w : node) : node :=
  mkNode (n_lock w) (n_ops w) (n_app w) (<[self := o]> (n_objects w)) (n_queue w) (n_sent w) (n_clock w).
Definition add_task (self : Z) (fun_ : work) (w : node) : node :=
  mkNode (n_lock w) (n_ops w) (n_app w) (n_objects w) (n_queue w ++ [(self, fun_)]) (n_sent w) (n_clock w).
Definition add_sent (url : string) (r : NodeResult) (w : node) : node :=
  mkNode (n_lock w) (n_ops w) (n_app w) (n_objects w) (n_queue w) (n_sent w ++ [(url, r)]) (n_clock w).
Definition skip_clock (k : nat) (w : node) : node :=
  mkNode (n_lock w) (n_ops w) (n_app w) (n_objects w) (n_queue w) (n_sent w) (λ i, n_clock w (k + i)%nat).

Definition on_ops {A} (m : M OpState A) : M node A := on_op n_ops set_ops m.
Definition object (w : node) (self : Z) : NodeOp := n_objects w !!! self.
Definition with_progress (p : Progress) (o : NodeOp) : NodeOp :=
  mkNodeOp (op_callback o) (op_result_url o)
    (mkNodeResult (nr_hostname (op_result o)) (nr_az (op_result o)) p).
Definition on_progress {A} (self : Z) (m : M Progress A) : M node A :=
  zoom (λ w, nr_progress (op_result (object w self)))
    (λ p w, set_object self (with_progress p (object w self)) w) m.

(** [NodeState.is_locked], with one reading of the clock. *)
Definition is_locked : M node (option string) := λ w,
  (skip_clock 1 w, Ok (NodeLock.is_locked (n_clock w 0%nat) (n_lock w))).

Definition still_running_callback (self : Z) : M node bool :=
  w ← get;
  if decide (op_id (op_info (n_ops w)) ≠ self) then mret false
  else
    let o := object w self in
    let '(b, cb) := NodeLock.call (n_clock w 0%nat) (n_lock w) (op_callback o) in
    modify (λ w, set_object self (mkNodeOp cb (op_result_url o) (op_result o)) (skip_clock 1 w)) ;;
    mret b.

(** The answer to the request is not looked at, and failures of the request
    are caught in [http_request]. *)
Definition send_result (self : Z) : M node unit :=
  w ← get;
  if decide (op_result_url (object w self) = "") then mret tt
  else
    running ← still_running_callback self;
    if negb running then mret tt
    else modify (λ w, add_sent (op_result_url (object w self)) (op_result (object w self)) w).

(** [NodeOp.set_status] *)
Definition set_status (self : Z) (status : Status) (from_status : option Status) : M node bool :=
  changed ← on_ops (Op.set_status self status from_status);
  if negb changed then mret false
  else if decide (status = fail) then
    w ← get;
    (if final (nr_progress (op_result (object w self))) then mret tt
     else on_progress self (Progress.add_fail 1) ;; on_progress self Progress.done) ;;
    send_result self ;; mret true
  else if decide (status ≠ done_) then mret true
  else send_result self ;; mret true.
#[global] Instance node_setter : StatusSetter node := set_status.

(** ** [Node] and the endpoints *)
Section endpoints.
Context (config : NodeConfig) (hostname version : string).
(** Whether the imports of [node/cassandra.py] succeed. *)
Context (cassandra_installed : bool).
(** [urlunsplit] of the request URL and the identifier of the operation. *)
Context (make_url : Z → string).

Definition SNAPSHOTTER_KEY : string := "node_snapshotter".
Definition DELTA_SNAPSHOTTER_KEY : string := "node_delta_snapshotter".
Definition ASTACUS_TMPDIR : string := ".astacus".

Definition new_snapshot (key : string) (path : option string) : Snapshot :=
  mkSnapshot (match path with Some p => p | None => root config +:+ "/" +:+ ASTACUS_TMPDIR end)
    (db_path config +:+ "/" +:+ key +:+ ".db").

(** [_get_or_create_snapshot], on [get_or_create_state] *)
Definition get_or_create (key : string) (path : option string) : M node Snapshot :=
  w ← get;
  match n_app w !! key with
  | Some s => mret s
  | None => let s := new_snapshot key path in modify (set_app (<[key := s]> (n_app w))) ;; mret s
  end.
Definition get_or_create_snapshot : M node Snapshot := get_or_create SNAPSHOTTER_KEY (root_link config).
Definition get_or_create_delta_snapshot : M node Snapshot :=
  get_or_create DELTA_SNAPSHOTTER_KEY (delta_root_link config).

Definition get_snapshotter_for_snapshot (s : Snapshot) (groups : list SnapshotGroup) : Snapshotter :=
  mkSnapshotter groups (root config) (snapshot_dst s) s (parallel_hashes config).
Definition get_snapshotter (groups : list SnapshotGroup) : M node Snapshotter :=
  s ← get_or_create_snapshot; mret (get_snapshotter_for_snapshot s groups).
Definition get_delta_snapshotter (groups : list SnapshotGroup) : M node Snapshotter :=
  s ← get_or_create_delta_snapshot; mret (get_snapshotter_for_snapshot s groups).

(** Constructing an operation: the identifier is allocated among the arguments. *)
Definition new_op (result_url : string) : M node Z :=
  self ← on_ops allocate_op_id;
  w ← get;
  cb ← lift_res (NodeLock.still_locked_callback (n_lock w));
  modify (set_object self (mkNodeOp cb result_url (mkNodeResult hostname (az config) new_progress))) ;;
  mret self.

Definition start_op (self : Z) (name : string) (fun_ : work) : M node StartResult :=
  on_ops (begin_op self name) ;;
  class_set_status self starting None ;;
  modify (add_task self fun_) ;;
  mret (mkStartResult self (make_url self)).

(** [if not n.state.is_locked: raise HTTPException(409)] *)
Definition check_locked : M node unit :=
  l ← is_locked;
  if NodeLock.truthy l then mret tt else raise (HTTPException 409).

Definition READONLY_SUBOPS : list CassandraSubOp := [get_schema_hash; remove_snapshot; take_snapshot].
Definition is_allowed (subop : CassandraSubOp) (access_level : CassandraAccessLevel) : bool :=
  match access_level with
  | read => bool_decide (subop ∈ READONLY_SUBOPS)
  | write => true
  end.

Definition check_can_do_cassandra_subop (subop : CassandraSubOp) : M node unit :=
  check_locked ;;
  match cassandra_access config with
  | None => raise (HTTPException 409)
  | Some level => if is_allowed subop level then mret tt else raise (HTTPException 403)
  end.

Definition metadata : MetadataResult := mkMetadataResult version (feature_value <$> all_features).

(** The requests that start an operation, with the [result_url] and whether
    they go to the [/delta] route.  The parameters of the bodies are those
    of the requests of [Ipc]. *)
Inductive op_request : Type :=
| PostSnapshot (groups : list SnapshotRequestGroup)
| PostUpload (hashes : list SnapshotHash) (storage : string) (validate_file_hashes : bool)
| PostRelease (hexdigests : list string)
| PostDownload (storage backup_name : string) (snapshot_index : nat) (root_globs : list string)
| PostClear (root_globs : list string)
| PostCassandraStart (tokens : option (list string)) (replace_address_first_boot : option string)
    (skip_bootstrap_streaming : option bool)
| PostCassandraRestore (table_glob : string) (keyspaces_to_skip : list string)
    (match_tables_by : CassandraTableMatching) (expect_empty_target : bool)
| PostCassandra (subop : CassandraSubOp).

Definition launch (name result_url : string) (fun_ : work) : M node StartResult :=
  self ← new_op result_url; start_op self name fun_.

Definition snapshotter_from_snapshot_req (globs : list string) (groups : list SnapshotRequestGroup) : M node Snapshotter :=
  get_snapshotter (groups_from_snapshot_req globs groups).
Definition delta_snapshotter_from_snapshot_req (globs : list string) (groups : list SnapshotRequestGroup) :
    M node Snapshotter :=
  get_delta_snapshotter (groups_from_snapshot_req globs groups).

Definition snapshot (url : string) (groups : list SnapshotRequestGroup) : M node StartResult :=
  check_locked ;;
  snapshotter ← snapshotter_from_snapshot_req [] groups;
  launch "snapshot" url (run_snapshot snapshotter).

Definition delta_snapshot (url : string) (groups : list SnapshotRequestGroup) : M node StartResult :=
  check_locked ;;
  snapshotter ← delta_snapshotter_from_snapshot_req [] groups;
  launch "snapshot" url (run_snapshot snapshotter).

Definition upload (url : string) (hashes : list SnapshotHash) (storage : string) (validate_file_hashes : bool) :
    M node StartResult :=
  check_locked ;;
  snapshot_ ← get_or_create_snapshot;
  launch "upload" url (run_upload snapshot_ (SnapshotUploadRequestV20221129 hashes storage validate_file_hashes)).

Definition delta_upload (url : string) (hashes : list SnapshotHash) (storage : string) (validate_file_hashes : bool) :
    M node StartResult :=
  check_locked ;;
  snapshot_ ← get_or_create_delta_snapshot;
  launch "upload" url (run_upload snapshot_ (SnapshotUploadRequestV20221129 hashes storage validate_file_hashes)).

Definition release (url : string) (hexdigests : list string) : M node StartResult :=
  check_locked ;;
  snapshotter ← get_snapshotter [];
  launch "release" url (run_release snapshotter (SnapshotReleaseRequest hexdigests)).

Definition download (url storage backup_name : string) (snapshot_index : nat) (root_globs : list string) :
    M node StartResult :=
  check_locked ;;
  snapshotter ← snapshotter_from_snapshot_req root_globs [];
  launch "download" url (run_download snapshotter (SnapshotDownloadRequest storage backup_name snapshot_index root_globs)).

Definition delta_download (url storage backup_name : string) (snapshot_index : nat) (root_globs : list string) :
    M node StartResult :=
  check_locked ;;
  snapshotter ← delta_snapshotter_from_snapshot_req root_globs [];
  launch "download" url (run_download snapshotter (SnapshotDownloadRequest storage backup_name snapshot_index root_globs)).

Definition clear (url : string) (root_globs : list string) : M node StartResult :=
  check_locked ;;
  snapshotter ← snapshotter_from_snapshot_req root_globs [];
  launch "clear" url (run_clear snapshotter true).

Definition delta_clear (url : string) (root_globs : list string) : M node StartResult :=
  check_locked ;;
  snapshotter ← delta_snapshotter_from_snapshot_req root_globs [];
  launch "clear" url (run_clear snapshotter false).

Definition check_installed : M node unit := if cassandra_installed then mret tt else raise (HTTPException 501).

Definition cassandra_start_cassandra (url : string) (req : NodeRequest) : M node StartResult :=
  check_installed ;;
  check_can_do_cassandra_subop start_cassandra ;;
  launch "cassandra" url (run_start_cassandra req).

Definition cassandra_restore (url : string) (req : NodeRequest) : M node StartResult :=
  check_installed ;;
  check_can_do_cassandra_subop restore_sstables ;;
  launch "cassandra" url (run_restore_sstables req).

(** [SimpleCassandraSubOp.start]: the dictionary of methods *)
Definition simple_cassandra_fun (subop : CassandraSubOp) : res work :=
  match subop with
  | remove_snapshot | unrestore_sstables | stop_cassandra | take_snapshot => Ok (run_simple_cassandra subop)
  | get_schema_hash | start_cassandra | restore_sstables => Raise KeyError
  end.

Definition cassandra (url : string) (subop : CassandraSubOp) : M node StartResult :=
  check_installed ;;
  check_can_do_cassandra_subop subop ;;
  if decide (subop = get_schema_hash) then launch "cassandra" url run_get_schema_hash
  else
    self ← new_op url;
    py_assert (bool_decide (is_Some (cassandra_access config))) ;;
    f ← lift_res (simple_cassandra_fun subop);
    start_op self "cassandra" f.

Definition handle (delta : bool) (url : string) (r : op_request) : M node StartResult :=
  match r with
  | PostSnapshot groups => (if delta then delta_snapshot else snapshot) url groups
  | PostUpload hashes storage v => (if delta then delta_upload else upload) url hashes storage v
  | PostRelease hexdigests => release url hexdigests
  | PostDownload storage name i globs => (if delta then delta_download else download) url storage name i globs
  | PostClear globs => (if delta then delta_clear else clear) url globs
  | PostCassandraStart tokens addr skip => cassandra_start_cassandra url (CassandraStartRequest tokens addr skip)
  | PostCassandraRestore glob skip by_ empty =>
      cassandra_restore url (CassandraRestoreSSTablesRequest glob skip by_ empty)
  | PostCassandra subop => cassandra url subop
  end.

(** The lock endpoints, each with at most three readings of the clock. *)
Definition handle_lock (r : NodeLock.request) : M node bool := λ w,
  let '(l, b) := NodeLock.handle (n_clock w) r (n_lock w) in (skip_clock 3 (set_lock l w), b).

(** *** [GET /<name>/<op_id>], for both routes of each name *)
Inductive OpName : Type := name_cassandra | name_clear | name_download | name_snapshot | name_upload | name_release.
Definition op_name_value (n : OpName) : string :=
  match n with
  | name_cassandra => "cassandra" | name_clear => "clear" | name_download => "download"
  | name_snapshot => "snapshot" | name_upload => "upload" | name_release => "release"
  end.

Definition op_result_endpoint (name : OpName) (id : Z) : M node NodeResult :=
  oi ← on_ops (get_op_and_op_info id (Some (op_name_value name)));
  w ← get;
  match oi.1 with
  | Some self => mret (op_result (object w self))
  | None => raise AssertionError
  end.

(** ** What a request does, as one step on the state *)
Definition cassandra_subop (r : op_request) : option CassandraSubOp :=
  match r with
  | PostCassandraStart _ _ _ => Some start_cassandra
  | PostCassandraRestore _ _ _ _ => Some restore_sstables
  | PostCassandra subop => Some subop
  | _ => None
  end.

Definition refusal (r : op_request) (w : node) : option Z :=
  let locked := NodeLock.truthy (NodeLock.is_locked (n_clock w 0%nat) (n_lock w)) in
  match cassandra_subop r with
  | None => if locked then None else Some 409
  | Some subop =>
      if negb cassandra_installed then Some 501
      else if negb locked then Some 409
      else match cassandra_access config with
           | None => Some 409
           | Some level => if is_allowed subop level then None else Some 403
           end
  end.

Definition request_name (r : op_request) : string :=
  match r with
  | PostSnapshot _ => "snapshot" | PostUpload _ _ _ => "upload" | PostRelease _ => "release"
  | PostDownload _ _ _ _ => "download" | PostClear _ => "clear" | _ => "cassandra"
  end.

(** The snapshot a request works on: key and configured directory. *)
Definition request_snapshot (delta : bool) (r : op_request) : option (string * option string) :=
  match r with
  | PostSnapshot _ | PostUpload _ _ _ | PostDownload _ _ _ _ | PostClear _ =>
      Some (if delta then (DELTA_SNAPSHOTTER_KEY, delta_root_link config) else (SNAPSHOTTER_KEY, root_link config))
  | PostRelease _ => Some (SNAPSHOTTER_KEY, root_link config)
  | _ => None
  end.

Definition the_snapshot (kp : string * option string) (app : gmap string Snapshot) : Snapshot :=
  default (new_snapshot kp.1 kp.2) (app !! kp.1).

Definition request_app (delta : bool) (r : op_request) (app : gmap string Snapshot) : gmap string Snapshot :=
  match request_snapshot delta r with
  | Some kp => <[kp.1 := the_snapshot kp app]> app
  | None => app
  end.

Definition request_work (delta : bool) (r : op_request) (app : gmap string Snapshot) : work :=
  let s := the_snapshot (default ("", None) (request_snapshot delta r)) app in
  let sn groups := get_snapshotter_for_snapshot s groups in
  match r with
  | PostSnapshot groups => run_snapshot (sn (groups_from_snapshot_req [] groups))
  | PostUpload hashes storage v => run_upload s (SnapshotUploadRequestV20221129 hashes storage v)
  | PostRelease hexdigests => run_release (sn []) (SnapshotReleaseRequest hexdigests)
  | PostDownload storage name i globs =>
      run_download (sn (groups_from_snapshot_req globs [])) (SnapshotDownloadRequest storage name i globs)
  | PostClear globs => run_clear (sn (groups_from_snapshot_req globs [])) (negb delta)
  | PostCassandraStart tokens addr skip => run_start_cassandra (CassandraStartRequest tokens addr skip)
  | PostCassandraRestore glob skip by_ empty =>
      run_restore_sstables (CassandraRestoreSSTablesRequest glob skip by_ empty)
  | PostCassandra subop =>
      if decide (subop = get_schema_hash) then run_get_schema_hash else run_simple_cassandra subop
  end.

(** [start-cassandra] and [restore-sstables] have routes of their own, declared
    before the one with the parameter. *)
Definition routed (r : op_request) : bool :=
  match r with PostCassandra start_cassandra | PostCassandra restore_sstables => false | _ => true end.

(** The state after operation [name] was started on behalf of [locker]. *)
Definition launched (name url : string) (fun_ : work) (locker : string) (w : node) : node :=
  let self := next_op_id (n_ops w) in
  mkNode (n_lock w) (mkOpState (mkInfo self name (Some starting)) (Some self) (self + 1)) (n_app w)
    (<[self := mkNodeOp (NodeLock.mkCallback locker false) url (mkNodeResult hostname (az config) new_progress)]>
       (n_objects w))
    (n_queue w ++ [(self, fun_)]) (n_sent w) (n_clock w).

Lemma set_status_starting self w :
  self ≠ 0 → op_id (op_info (n_ops w)) = self →
  ∃ b, set_status self starting None w = (set_ops (with_status starting (n_ops w)) w, Ok b).
Proof.
  intros Hs Hid. pose proof (set_status_run self starting None (n_ops w) Hs) as Hrun. rewrite decide_True in Hrun by done.
  unfold set_status, on_ops. case_decide as Hc.
  - rewrite (bind_ok _ _ _ _ _ (on_op_run _ _ _ _ _ _ Hrun)). cbn. by exists true.
  - rewrite (bind_ok _ _ _ _ _ (on_op_run _ _ _ _ _ _ Hrun)). exists false. cbn. do 2 f_equal.
    destruct (decide (op_status (op_info (n_ops w)) = Some starting)) as [E|E]; [|exfalso; apply Hc; naive_solver].
    destruct w as [? [[] ? ?] ? ? ? ? ?]. simpl in *. by subst.
Qed.

Lemma launch_run name url fun_ l w :
  n_lock w = Some l → 0 < next_op_id (n_ops w) →
  launch name url fun_ w =
  (launched name url fun_ (NodeLock.locker l) w,
   Ok (mkStartResult (next_op_id (n_ops w)) (make_url (next_op_id (n_ops w))))).
Proof.
  intros Hl Hn. set (self := next_op_id (n_ops w)).
  set (o := mkNodeOp (NodeLock.mkCallback (NodeLock.locker l) false) url (mkNodeResult hostname (az config) new_progress)).
  set (w1 := set_object self o (set_ops (mkOpState (op_info (n_ops w)) (op (n_ops w)) (self + 1)) w)).
  assert (new_op url w = (w1, Ok self)) as H1.
  { unfold new_op, on_ops. rewrite (bind_ok _ _ _ _ _ (on_op_run n_ops set_ops allocate_op_id w _ _ eq_refl)).
    rewrite (bind_ok get _ _ _ _ eq_refl). cbn [n_lock set_ops]. rewrite Hl. done. }
  unfold launch. rewrite (bind_ok _ _ _ _ _ H1). unfold start_op.
  rewrite (bind_ok _ _ _ _ _ (on_op_run n_ops set_ops (begin_op self name) w1 _ _ eq_refl)).
  match goal with |- (_ ≫= _) ?x = _ => set (w2 := x) end.
  destruct (set_status_starting self w2) as [b Hb]; [unfold self; lia|done|].
  change (class_set_status self starting None) with (set_status self starting None).
  by rewrite (bind_ok _ _ _ _ _ Hb).
Qed.

Lemma check_locked_run w :
  check_locked w =
  (skip_clock 1 w,
   if NodeLock.truthy (NodeLock.is_locked (n_clock w 0%nat) (n_lock w)) then Ok tt else Raise (HTTPException 409)).
Proof. unfold check_locked, is_locked. erewrite bind_ok by done. by destruct (NodeLock.truthy _). Qed.

Lemma get_or_create_run key path w :
  get_or_create key path w =
  (set_app (<[key := the_snapshot (key, path) (n_app w)]> (n_app w)) w, Ok (the_snapshot (key, path) (n_app w))).
Proof.
  unfold get_or_create, the_snapshot. rewrite (bind_ok get _ _ _ _ eq_refl). simpl.
  destruct (n_app w !! key) as [s|] eqn:E; [|done]. simpl. rewrite insert_id by done. by destruct w.
Qed.

Lemma check_cassandra_run subop w :
  check_can_do_cassandra_subop subop w =
  (skip_clock 1 w,
   if negb (NodeLock.truthy (NodeLock.is_locked (n_clock w 0%nat) (n_lock w))) then Raise (HTTPException 409)
   else match cassandra_access config with
        | None => Raise (HTTPException 409)
        | Some level => if is_allowed subop level then Ok tt else Raise (HTTPException 403)
        end).
Proof.
  unfold check_can_do_cassandra_subop. pose proof (check_locked_run w) as H. destruct (NodeLock.truthy _); simpl.
  - rewrite (bind_ok _ _ _ _ _ H). destruct (cassandra_access config) as [l|]; [|done]. by destruct (is_allowed subop l).
  - by rewrite (bind_raise _ _ _ _ _ H).
Qed.

Lemma truthy_some now st : NodeLock.truthy (NodeLock.is_locked now st) = true → ∃ l, st = Some l.
Proof. destruct st; [eauto|done]. Qed.

Lemma set_app_id w : set_app (n_app w) w = w.
Proof. by destruct w. Qed.

Lemma snapshotter_run (delta : bool) globs groups w :
  (if delta then delta_snapshotter_from_snapshot_req else snapshotter_from_snapshot_req) globs groups w =
  let kp := if delta then (DELTA_SNAPSHOTTER_KEY, delta_root_link config) else (SNAPSHOTTER_KEY, root_link config) in
  (set_app (<[kp.1 := the_snapshot kp (n_app w)]> (n_app w)) w,
   Ok (get_snapshotter_for_snapshot (the_snapshot kp (n_app w)) (groups_from_snapshot_req globs groups))).
Proof.
  unfold snapshotter_from_snapshot_req, delta_snapshotter_from_snapshot_req. destruct delta;
    unfold get_delta_snapshotter, get_snapshotter, get_or_create_delta_snapshot, get_or_create_snapshot;
    by rewrite (bind_ok _ _ _ _ _ (get_or_create_run _ _ _)).
Qed.

(** A request that is not refused. *)
Definition accepted (delta : bool) (url : string) (r : op_request) (l : string) (w : node) : node :=
  launched (request_name r) url (request_work delta r (n_app w)) l
    (set_app (request_app delta r (n_app w)) (skip_clock 1 w)).

Ltac by_launch_run l := etrans; [by apply (launch_run _ _ _ l)|done].

Lemma handle_plain delta url r l w :
  cassandra_subop r = None → n_lock w = Some l → 0 < next_op_id (n_ops w) →
  NodeLock.truthy (NodeLock.is_locked (n_clock w 0%nat) (n_lock w)) = true →
  handle delta url r w =
  (accepted delta url r (NodeLock.locker l) w,
   Ok (mkStartResult (next_op_id (n_ops w)) (make_url (next_op_id (n_ops w))))).
Proof.
  intros Hr Hl Hn Ht. pose proof (check_locked_run w) as Hc. rewrite Ht in Hc.
  assert (n_lock (skip_clock 1 w) = Some l) as Hl1 by done.
  unfold accepted, request_work, request_app. destruct r; try done; destruct delta; simpl;
    unfold snapshot, delta_snapshot, upload, delta_upload, release, download, delta_download, clear, delta_clear;
    rewrite (bind_ok _ _ _ _ _ Hc);
    try (rewrite (bind_ok _ _ _ _ _ (snapshotter_run true _ _ _)); by_launch_run l);
    try (rewrite (bind_ok _ _ _ _ _ (snapshotter_run false _ _ _)); by_launch_run l);
    unfold get_snapshotter, get_or_create_delta_snapshot, get_or_create_snapshot;
    try (rewrite (bind_ok _ _ _ _ _ (get_or_create_run _ _ _)); by_launch_run l);
    rewrite (bind_ok _ _ _ _ _ (bind_ok _ _ _ _ _ (get_or_create_run _ _ _))); by_launch_run l.
Qed.

Lemma handle_cassandra delta url r subop l w :
  cassandra_subop r = Some subop → routed r = true → cassandra_installed = true →
  check_can_do_cassandra_subop subop w = (skip_clock 1 w, Ok tt) →
  n_lock w = Some l → 0 < next_op_id (n_ops w) →
  handle delta url r w =
  (accepted delta url r (NodeLock.locker l) w,
   Ok (mkStartResult (next_op_id (n_ops w)) (make_url (next_op_id (n_ops w))))).
Proof.
  intros Hr Hrt Hi Hc Hl Hn.
  assert (is_Some (cassandra_access config)) as Hacc.
  { rewrite check_cassandra_run in Hc. destruct (negb _); [done|]. destruct (cassandra_access config); [eauto|done]. }
  assert (∀ f, launch "cassandra" url f (skip_clock 1 w) =
    (launched "cassandra" url f (NodeLock.locker l) (skip_clock 1 w),
     Ok (mkStartResult (next_op_id (n_ops w)) (make_url (next_op_id (n_ops w)))))) as Hlaunch.
  { intros f. by_launch_run l. }
  assert (set_app (n_app w) (skip_clock 1 w) = skip_clock 1 w) as Hid by apply (set_app_id (skip_clock 1 w)).
  unfold accepted, request_work, request_app.
  destruct r; try done; simpl in *; injection Hr as <-;
    unfold cassandra_start_cassandra, cassandra_restore, cassandra, check_installed;
    rewrite Hi; (rewrite (bind_ok (mret tt) _ _ _ _ eq_refl)); rewrite (bind_ok _ _ _ _ _ Hc).
  - by rewrite Hlaunch, Hid.
  - by rewrite Hlaunch, Hid.
  - rewrite Hid. destruct (decide (subop0 = get_schema_hash)) as [->|Hne]; [apply Hlaunch|].
    assert (∃ f, simple_cassandra_fun subop0 = Ok f ∧ f = run_simple_cassandra subop0) as (f & Hf & ->).
    { destruct subop0; try done; eauto. }
    rewrite <- Hlaunch. unfold launch.
    unfold mbind at 1 4, M_bind at 1 4. destruct (new_op url (skip_clock 1 w)) as [w1 [self|e]]; [|done].
    rewrite bool_decide_eq_true_2 by done. rewrite (bind_ok (py_assert true) _ _ _ _ eq_refl).
    rewrite Hf. by rewrite (bind_ok (lift_res _) _ _ _ _ eq_refl).
Qed.

(** C33: Every endpoint on every branch: a request is refused with 501, 409 or
    403 and then changes nothing (the clock apart), exactly when [refusal]
    says so; otherwise it starts one operation, with the next identifier, on
    the snapshot of its route, owned by the current holder of the lock. *)
Theorem endpoint_exact (delta : bool) (url : string) (r : op_request) (w : node) :
  routed r = true → 0 < next_op_id (n_ops w) →
  match refusal r w with
  | Some code =>
      handle delta url r w = ((if decide (code = 501) then w else skip_clock 1 w), Raise (HTTPException code))
  | None => ∃ l, n_lock w = Some l ∧ NodeLock.is_locked (n_clock w 0%nat) (n_lock w) = Some (NodeLock.locker l) ∧
      handle delta url r w =
      (accepted delta url r (NodeLock.locker l) w,
       Ok (mkStartResult (next_op_id (n_ops w)) (make_url (next_op_id (n_ops w)))))
  end.
Proof.
  intros Hrt Hn. unfold refusal. destruct (cassandra_subop r) as [subop|] eqn:Hr.
  - assert (∀ A (f : unit → M node A) w', check_installed w = (w', Ok tt) → (check_installed ≫= f) w = f tt w') as Hok.
    { intros A f w' H. by rewrite (bind_ok _ _ _ _ _ H). }
    assert (∃ k, handle delta url r = (check_installed ;; check_can_do_cassandra_subop subop ;; k)) as [k Hk].
    { destruct r; try done; simpl in *; injection Hr as <-;
        unfold cassandra_start_cassandra, cassandra_restore, cassandra; eauto. }
    destruct cassandra_installed eqn:Hi; simpl.
    + pose proof (check_cassandra_run subop w) as Hc.
      destruct (NodeLock.truthy (NodeLock.is_locked (n_clock w 0%nat) (n_lock w))) eqn:Ht; simpl in *.
      * destruct (cassandra_access config) as [level|] eqn:Ha.
        -- destruct (is_allowed subop level) eqn:Hal.
           ++ destruct (truthy_some _ _ Ht) as [l Hl]. exists l. split; [done|].
              split; [|by eapply handle_cassandra].
              rewrite Hl in Ht |- *. simpl in *. by destruct (NodeLock.locked_until l <? _).
           ++ rewrite Hk. unfold check_installed. rewrite Hi, (bind_ok (mret tt) _ _ _ _ eq_refl).
              by rewrite (bind_raise _ _ _ _ _ Hc).
        -- rewrite Hk. unfold check_installed. rewrite Hi, (bind_ok (mret tt) _ _ _ _ eq_refl).
           by rewrite (bind_raise _ _ _ _ _ Hc).
      * rewrite Hk. unfold check_installed. rewrite Hi, (bind_ok (mret tt) _ _ _ _ eq_refl).
        by rewrite (bind_raise _ _ _ _ _ Hc).
    + rewrite Hk. unfold check_installed. by rewrite Hi.
  - destruct (NodeLock.truthy (NodeLock.is_locked (n_clock w 0%nat) (n_lock w))) eqn:Ht.
    + destruct (truthy_some _ _ Ht) as [l Hl]. exists l. split; [done|]. split; [|by apply handle_plain].
      rewrite Hl in Ht |- *. simpl in *. by destruct (NodeLock.locked_until l <? _).
    + pose proof (check_locked_run w) as Hc. rewrite Ht in Hc.
      destruct r; try done; destruct delta; simpl;
        unfold snapshot, delta_snapshot, upload, delta_upload, release, download, delta_download, clear, delta_clear;
        by rewrite (bind_raise _ _ _ _ _ Hc).
Qed.

(** ** A lease protects the operations of its holder

    Requests of any kind, answers of callbacks and changes of status, in any
    order. *)
Inductive event : Type :=
| ELock (r : NodeLock.request)
| EPost (delta : bool) (url : string) (r : op_request)
| EPoll (self : Z)
| ESet (self : Z) (status : Status) (from_status : option Status).

Definition owner (w : node) (self : Z) : string := NodeLock.original_locker (op_callback (object w self)).

(** The new state, and who was allowed to go on: operations that were started
    and those whose callback answered [True], with their owners. *)
Definition perform (e : event) (w : node) : node * list (Z * string) :=
  match e with
  | ELock r => (fst (handle_lock r w), [])
  | EPost delta url r =>
      match handle delta url r w with
      | (w', Ok s) => (w', [(start_op_id s, owner w' (start_op_id s))])
      | (w', Raise _) => (w', [])
      end
  | EPoll self =>
      match still_running_callback self w with
      | (w', Ok true) => (w', [(self, owner w self)])
      | (w', _) => (w', [])
      end
  | ESet self status from_status => (fst (set_status self status from_status w), [])
  end.

Fixpoint run (es : list event) (w : node) : node * list (Z * string) :=
  match es with
  | [] => (w, [])
  | e :: es' => let '(w1, l1) := perform e w in let '(w2, l2) := run es' w1 in (w2, l1 ++ l2)
  end.

(** What neither callbacks nor statuses change; the clock only advances. *)
Definition quiet (w w' : node) : Prop :=
  n_lock w' = n_lock w ∧ next_op_id (n_ops w') = next_op_id (n_ops w) ∧
  ∃ k, ∀ i, n_clock w' i = n_clock w (k + i)%nat.

Lemma node_quiet_refl w : quiet w w.
Proof. split_and!; [done..|]. by exists 0%nat. Qed.
Lemma node_quiet_trans w1 w2 w3 : quiet w1 w2 → quiet w2 w3 → quiet w1 w3.
Proof.
  intros (H1 & H2 & k & Hk) (H3 & H4 & j & Hj). split_and!; [congruence..|].
  exists (k + j)%nat. intros i. rewrite Hj, Hk. f_equal. lia.
Qed.

Lemma quiet_object self o w : quiet w (set_object self o w).
Proof. split_and!; [done..|]. by exists 0%nat. Qed.

Lemma progress_add_fail_run p :
  Progress.add_fail 1 p =
  (mkProgress (handled p) (failed p + 1) (total p) (final p), if final p then Raise AssertionError else Ok tt).
Proof. unfold Progress.add_fail, mbind, M_bind, get, modify, py_assert. simpl. by destruct (final p). Qed.

Lemma progress_done_run p :
  Progress.done p =
  if (handled p <=? total p) && negb (final p) then (mkProgress (handled p) (failed p) (total p) true, Ok tt)
  else (p, Raise AssertionError).
Proof.
  unfold Progress.done, mbind, M_bind, get, put, py_assert. destruct (handled p <=? total p); [|done]. simpl.
  by destruct (final p).
Qed.

Lemma still_running_run self w :
  still_running_callback self w =
  if decide (op_id (op_info (n_ops w)) ≠ self) then (w, Ok false)
  else let o := object w self in
       let '(b, cb) := NodeLock.call (n_clock w 0%nat) (n_lock w) (op_callback o) in
       (set_object self (mkNodeOp cb (op_result_url o) (op_result o)) (skip_clock 1 w), Ok b).
Proof.
  unfold still_running_callback. rewrite (bind_ok get _ _ _ _ eq_refl). case_decide; [done|].
  cbv zeta. by destruct (NodeLock.call _ _ _) as [b cb].
Qed.

Lemma still_running_quiet self w : quiet w (fst (still_running_callback self w)).
Proof.
  rewrite still_running_run. case_decide; [apply node_quiet_refl|]. cbv zeta. destruct (NodeLock.call _ _ _) as [b cb].
  split_and!; [done..|]. by exists 1%nat.
Qed.

Lemma send_result_run self w :
  ∃ w', send_result self w = (w', Ok tt) ∧ quiet w w' ∧ n_ops w' = n_ops w.
Proof.
  unfold send_result. rewrite (bind_ok get _ _ _ _ eq_refl). case_decide; [by eauto using node_quiet_refl|].
  pose proof (still_running_quiet self w) as Hq. pose proof (still_running_run self w) as Hr.
  case_decide; [by rewrite (bind_ok _ _ _ _ _ Hr); eauto using node_quiet_refl|].
  cbv zeta in Hr. destruct (NodeLock.call _ _ _) as [b cb]. rewrite Hr in Hq. rewrite (bind_ok _ _ _ _ _ Hr).
  destruct b; eauto.
Qed.

Lemma set_status_effect self status from w :
  quiet w (fst (set_status self status from w)) ∧
  n_ops (fst (set_status self status from w)) = fst (Op.set_status self status from (n_ops w)) ∧
  (snd (set_status self status from w) = snd (Op.set_status self status from (n_ops w)) ∨
   status = fail ∧ snd (set_status self status from w) = Raise AssertionError).
Proof.
  assert (quiet w (set_ops (fst (Op.set_status self status from (n_ops w))) w)) as Hq.
  { split_and!; [done| |by exists 0%nat]. apply set_status_next. }
  unfold set_status. destruct (Op.set_status self status from (n_ops w)) as [s [b|e]] eqn:E; cbn [fst snd] in *.
  2: { rewrite (bind_raise _ _ _ _ _ (on_op_run n_ops set_ops _ _ _ _ E)). by auto. }
  rewrite (bind_ok _ _ _ _ _ (on_op_run n_ops set_ops _ _ _ _ E)). set (w1 := set_ops s w) in *.
  assert (∀ w2, quiet w1 w2 → n_ops w2 = n_ops w1 → ∃ w3,
    (send_result self ;; mret true) w2 = (w3, Ok true) ∧ quiet w w3 ∧ n_ops w3 = s) as Hsend.
  { intros w2 H1 H2. destruct (send_result_run self w2) as (w3 & H3 & H4 & H5).
    exists w3. rewrite (bind_ok _ _ _ _ _ H3). split; [done|]. split; [|by rewrite H5, H2].
    eapply node_quiet_trans; [done|]. by eapply node_quiet_trans. }
  destruct b; simpl; [|by auto].
  destruct (decide (status = fail)) as [->|Hf].
  - rewrite (bind_ok get _ _ _ _ eq_refl). destruct (final _).
    + rewrite (bind_ok (mret tt) _ _ _ _ eq_refl). destruct (Hsend w1 (node_quiet_refl _) eq_refl) as (w3 & -> & ? & ?). by auto.
    + assert (∃ w2 r, (on_progress self (Progress.add_fail 1) ;; on_progress self Progress.done) w1 = (w2, r) ∧
        quiet w1 w2 ∧ n_ops w2 = n_ops w1 ∧ (r = Ok tt ∨ r = Raise AssertionError)) as (w2 & r & Ep & H1 & H2 & Hr).
      { unfold on_progress, zoom. unfold mbind at 1, M_bind at 1.
        rewrite progress_add_fail_run. destruct (final _).
        - do 2 eexists. split; [done|]. split; [apply quiet_object|]. by auto.
        - destruct (Progress.done _) as [p' r'] eqn:Ep'. do 2 eexists. split; [done|].
          split; [eapply node_quiet_trans; apply quiet_object|]. split; [done|]. rewrite progress_done_run in Ep'.
          destruct (_ && _) in Ep'; injection Ep' as <- <-; auto. }
      destruct Hr as [->| ->].
      * rewrite (bind_ok _ _ _ _ _ Ep). destruct (Hsend w2 H1 H2) as (w3 & -> & ? & ?). by auto.
      * rewrite !(bind_raise _ _ _ _ _ Ep). simpl. split; [by eapply node_quiet_trans|]. split; [by rewrite H2|by right].
  - case_decide; [by auto|]. destruct (Hsend w1 (node_quiet_refl _) eq_refl) as (w3 & -> & ? & ?). by auto.
Qed.

#[global] Instance node_setter_law : SetterLaw n_ops node_setter.
Proof.
  intros self status from w. change (class_set_status (StatusSetter := node_setter)) with set_status.
  destruct (set_status_effect self status from w) as (_ & H1 & [H2|[H2 H3]]); split; eauto.
Qed.

(** What the lease of [who] up to [until] needs of the state. *)
Definition leased (who : string) (until : Z) (w : node) : Prop :=
  NodeLock.holds who until (n_lock w) ∧ (∀ i, n_clock w i ≤ until) ∧ 0 < next_op_id (n_ops w).

(** Requests of other lockers, and requests the router delivers. *)
Definition by_others (who : string) (e : event) : Prop :=
  match e with
  | ELock r => NodeLock.who_asks r ≠ who
  | EPost _ _ r => routed r = true
  | _ => True
  end.

Lemma quiet_leased who until w w' : quiet w w' → leased who until w → leased who until w' ∧ n_lock w' = n_lock w.
Proof.
  intros (H1 & H2 & k & Hk) (Hh & Hc & Hn). split; [|done]. split; [by rewrite H1|]. split; [|lia].
  intros i. rewrite Hk. apply Hc.
Qed.

Lemma perform_leased who until e w :
  who ≠ "" → leased who until w → by_others who e →
  let '(w', l) := perform e w in
  leased who until w' ∧ n_lock w' = n_lock w ∧ Forall (λ g, g.2 = who) l.
Proof.
  intros Hw (Hh & Hc & Hn) He. destruct e as [r|delta url r|self|self status from]; simpl in *.
  - unfold handle_lock. pose proof (NodeLock.handle_held who until (n_lock w) (n_clock w) r Hw Hh Hc) as H.
    assert (∃ b, NodeLock.handle (n_clock w) r (n_lock w) = (n_lock w, b)) as [b ->].
    { destruct r as [x t|x t|x]; simpl in He; rewrite ?decide_False in H by done; eauto. }
    simpl. split; [|done]. split; [done|]. split; [|done]. intros i. apply Hc.
  - pose proof (endpoint_exact delta url r w He Hn) as H. destruct (refusal r w) as [code|].
    + rewrite H. split; [|split; [|done]]; case_decide; try done. split; [done|]. split; [|done]. intros i. apply Hc.
    + destruct H as (l & Hl & Hlk & ->). destruct Hh as (l' & Hl' & <- & Hu). rewrite Hl in Hl'. simplify_eq.
      split; [split; [exists l'; by split_and!|split]|split; [done|]].
      * intros i. apply Hc.
      * simpl. lia.
      * constructor; [|done]. simpl. unfold owner, object. simpl. by rewrite lookup_total_insert_eq.
  - pose proof (still_running_quiet self w) as Hq. pose proof (still_running_run self w) as Hr.
    destruct (still_running_callback self w) as [w' b]. simpl in Hq.
    destruct (quiet_leased who until w w' Hq) as [H1 H2]; [done|].
    assert (Forall (λ g : Z * string, g.2 = who) (match b with Ok true => [(self, owner w self)] | _ => [] end)) as H3.
    { revert Hr. case_decide; [by intros [= _ ->]|]. cbv zeta. unfold NodeLock.call.
      destruct (NodeLock.exhausted _); [by intros [= _ ->]|]. case_decide as Hl; intros [= _ ->]; [|done].
      constructor; [|done]. simpl. rewrite (NodeLock.holds_is_locked _ _ _ _ Hh) in Hl by apply Hc. by injection Hl. }
    by destruct b as [[]|e].
  - destruct (set_status_effect self status from w) as (Hq & _).
    by destruct (quiet_leased who until _ _ Hq) as [H1 H2].
Qed.

(** C32: Whatever requests other lockers make, whatever operations are started,
    polled and ended, as long as the lease of a locker runs: the lease stays,
    every operation that is started belongs to the holder of the lease, and
    no operation of anybody else is told that it may go on. *)
Theorem lease_protects (who : string) (until : Z) (es : list event) (w : node) :
  who ≠ "" → leased who until w → Forall (by_others who) es →
  n_lock (fst (run es w)) = n_lock w ∧ Forall (λ g, g.2 = who) (snd (run es w)).
Proof.
  intros Hw Hl Hes. revert w Hl. induction Hes as [|e es He Hes IH]; intros w Hl; [done|].
  cbn [run]. pose proof (perform_leased who until e w Hw Hl He) as H. destruct (perform e w) as [w1 l1].
  destruct H as (H1 & H2 & H3). destruct (IH w1 H1) as [H4 H5]. destruct (run es w1) as [w2 l2]. simpl in *.
  split; [congruence|]. by apply Forall_app.
Qed.

End endpoints.

(** ** What is reported when an operation ends *)

(** The answer of the callback, without its effect. *)
Definition would_run (self : Z) (w : node) : bool :=
  bool_decide (op_id (op_info (n_ops w)) = self) &&
  fst (NodeLock.call (n_clock w 0%nat) (n_lock w) (op_callback (object w self))).

Lemma object_set self o w : object (set_object self o w) self = o.
Proof. apply lookup_total_insert_eq. Qed.

Lemma send_result_sent self w :
  n_sent (fst (send_result self w)) =
  n_sent w ++ (if bool_decide (op_result_url (object w self) ≠ "") && would_run self w
               then [(op_result_url (object w self), op_result (object w self))] else []).
Proof.
  unfold send_result, would_run. rewrite (bind_ok get _ _ _ _ eq_refl). pose proof (still_running_run self w) as Hr.
  destruct (decide (op_result_url (object w self) = "")) as [Hu|Hu].
  { rewrite bool_decide_eq_false_2 by (by intros ?). simpl. by rewrite app_nil_r. }
  rewrite (bool_decide_eq_true_2 (_ ≠ _)) by done. revert Hr. case_decide as Hid; intros Hr.
  - rewrite (bind_ok _ _ _ _ _ Hr). rewrite bool_decide_eq_false_2 by done. simpl. by rewrite app_nil_r.
  - cbv zeta in Hr. rewrite (bool_decide_eq_true_2 (_ = self)) by done. simpl.
    destruct (NodeLock.call _ _ _) as [b cb]. rewrite (bind_ok _ _ _ _ _ Hr).
    destruct b; simpl; [|by rewrite app_nil_r]. by rewrite object_set.
Qed.

Definition final_progress (r : res unit) (p : Progress) : Progress :=
  match r with
  | Raise _ => if final p then p else mkProgress (handled p) (failed p + 1) (total p) true
  | Ok _ => p
  end.

(** Whether the end of the function with result [r] in state [w] is reported. *)
Definition reports (self : Z) (r : res unit) (w : node) : bool :=
  bool_decide (op_result_url (object w self) ≠ "") && would_run self w &&
  match r with
  | Ok _ => bool_decide (op_status (op_info (n_ops w)) = Some running)
  | Raise e => negb (is_expired e) && negb (is_cancelled e) && bool_decide (op_status (op_info (n_ops w)) ≠ Some fail)
  end.

Lemma fail_progress_run self w :
  handled (nr_progress (op_result (object w self))) <= total (nr_progress (op_result (object w self))) →
  final (nr_progress (op_result (object w self))) = false →
  (on_progress self (Progress.add_fail 1) ;; on_progress self Progress.done) w =
  (set_object self (with_progress (final_progress (Raise AssertionError) (nr_progress (op_result (object w self))))
     (object w self)) w, Ok tt).
Proof.
  intros Hle Hf. unfold on_progress, zoom. unfold mbind at 1, M_bind at 1.
  rewrite progress_add_fail_run, Hf, object_set, progress_done_run. simpl. rewrite Hf.
  rewrite (proj2 (Z.leb_le _ _) Hle). simpl. f_equal. unfold set_object, with_progress. simpl. by rewrite insert_insert_eq.
Qed.

(** The end of an operation, whichever way: [status] is [done_] from
    [running] or [fail], as the wrapper sets it. *)
Lemma set_final_status self (r : res unit) status from w :
  self ≠ 0 →
  match r with Ok _ => status = done_ ∧ from = Some running | Raise _ => status = fail ∧ from = None end →
  handled (nr_progress (op_result (object w self))) <= total (nr_progress (op_result (object w self))) →
  n_sent (fst (set_status self status from w)) =
  n_sent w ++
  (if bool_decide (op_result_url (object w self) ≠ "") && would_run self w &&
      match r with
      | Ok _ => bool_decide (op_status (op_info (n_ops w)) = Some running)
      | Raise _ => bool_decide (op_status (op_info (n_ops w)) ≠ Some fail)
      end
   then [(op_result_url (object w self),
          op_result (with_progress (final_progress r (nr_progress (op_result (object w self)))) (object w self)))]
   else []).
Proof.
  intros Hs Hr Hle. unfold set_status, on_ops.
  pose proof (set_status_run self status from (n_ops w) Hs) as Hrun. revert Hrun.
  destruct (decide (op_id (op_info (n_ops w)) = self)) as [Hid|Hid]; [|intros Hrun].
  2: { rewrite (bind_raise _ _ _ _ _ (on_op_run n_ops set_ops _ _ _ _ Hrun)). unfold would_run.
       rewrite (bool_decide_eq_false_2 (_ = self)) by done. simpl. by rewrite andb_false_r, app_nil_r. }
  set (changes := match r with Ok _ => bool_decide (op_status (op_info (n_ops w)) = Some running)
                  | Raise _ => bool_decide (op_status (op_info (n_ops w)) ≠ Some fail) end).
  intros Hrun. assert (Op.set_status self status from (n_ops w) =
    (if changes then with_status status (n_ops w) else n_ops w, Ok changes)) as Hc.
  { rewrite Hrun. unfold changes. destruct r as [u|e]; destruct Hr as [-> ->].
    - case_decide as Hd; case_bool_decide as Hb; try done; [naive_solver|].
      exfalso. apply Hd. rewrite Hb. naive_solver.
    - case_decide as Hd; case_bool_decide as Hb; try done; [naive_solver|]. exfalso. apply Hd. by auto. }
  rewrite (bind_ok _ _ _ _ _ (on_op_run n_ops set_ops _ _ _ _ Hc)). clearbody changes.
  destruct changes; simpl; [|by rewrite andb_false_r, app_nil_r].
  set (w1 := set_ops (with_status status (n_ops w)) w). rewrite andb_true_r.
  assert (∀ w2, n_sent w2 = n_sent w → n_ops w2 = n_ops w1 → n_clock w2 = n_clock w → n_lock w2 = n_lock w →
    op_callback (object w2 self) = op_callback (object w self) →
    op_result_url (object w2 self) = op_result_url (object w self) →
    n_sent (fst ((send_result self ;; mret true) w2)) = n_sent w ++
      (if bool_decide (op_result_url (object w self) ≠ "") && would_run self w
       then [(op_result_url (object w self), op_result (object w2 self))] else [])) as Hsend.
  { intros w2 E1 E2 E3 E4 E5 E6. destruct (send_result_run self w2) as (w3 & H3 & _). rewrite (bind_ok _ _ _ _ _ H3).
    pose proof (send_result_sent self w2) as H. rewrite H3 in H. simpl in H |- *. rewrite H, E1, E6. do 2 f_equal.
    unfold would_run. by rewrite E2, E3, E4, E5. }
  destruct r as [u|e]; destruct Hr as [-> ->].
  - destruct (decide (done_ = fail)); [done|]. destruct (decide (done_ ≠ done_)); [done|]. rewrite Hsend by done.
    unfold with_progress, final_progress. change (object w1 self) with (object w self). do 2 f_equal. f_equal.
    by destruct (object w self) as [? ? []].
  - destruct (decide (fail = fail)); [|done]. rewrite (bind_ok get _ _ _ _ eq_refl).
    change (object w1 self) with (object w self). unfold final_progress.
    destruct (final (nr_progress (op_result (object w self)))) eqn:Hf.
    + rewrite (bind_ok (mret tt) _ _ _ _ eq_refl), Hsend by done.
      change (object w1 self) with (object w self). do 2 f_equal. f_equal. by destruct (object w self) as [? ? []].
    + rewrite (bind_ok _ _ _ _ _ (fail_progress_run self w1 Hle Hf)). rewrite Hsend; [|done..| |];
        rewrite object_set; try done. change (object w1 self) with (object w self). simpl. by rewrite Hf.
Qed.

Lemma set_status_running self w :
  self ≠ 0 → op_id (op_info (n_ops w)) = self → op_status (op_info (n_ops w)) = Some starting →
  class_set_status self running None w = (set_ops (with_status running (n_ops w)) w, Ok true).
Proof.
  intros Hs Hid Hst. change (class_set_status self running None) with (set_status self running None).
  pose proof (set_status_run self running None (n_ops w) Hs) as Hrun. rewrite decide_True in Hrun by done.
  rewrite decide_True in Hrun by (rewrite Hst; naive_solver).
  unfold set_status, on_ops. by rewrite (bind_ok _ _ _ _ _ (on_op_run n_ops set_ops _ _ _ _ Hrun)).
Qed.

(** The end of a background operation on a node: the status it is left with,
    and the report: exactly one result is sent, to the URL of the request,
    when the operation is still the current one, its lock was never lost and
    its end changes the status; the progress in the report is final with one
    more failure if the function raised; nothing is sent otherwise. *)
Theorem node_reports_outcome (self : Z) (fun_ : M node unit) (w w2 : node) (r : res unit) :
  self ≠ 0 → op_id (op_info (n_ops w)) = self → op_status (op_info (n_ops w)) = Some starting →
  fun_ (set_ops (with_status running (n_ops w)) w) = (w2, r) →
  handled (nr_progress (op_result (object w2 self))) <= total (nr_progress (op_result (object w2 self))) →
  let w3 := fst (sync_wrapper self fun_ w) in
  (r ≠ Raise CancelledError → op_status (op_info (n_ops w3)) = wrapper_status self (n_ops w2) r) ∧
  n_sent w3 = n_sent w2 ++
    (if reports self r w2
     then [(op_result_url (object w2 self),
            op_result (with_progress (final_progress r (nr_progress (op_result (object w2 self)))) (object w2 self)))]
     else []).
Proof.
  intros Hs Hid Hst Hf Hle w3. pose proof (set_status_running self w Hs Hid Hst) as Hrun. split.
  { destruct (wrappers_spec n_ops self fun_ w _ w2 r Hs Hid Hst Hrun Hf) as (_ & w3' & r' & E & H & _).
    unfold w3. by rewrite E. }
  unfold w3, sync_wrapper, try_except. clear w3. rewrite (bind_ok _ _ _ _ _ Hrun). unfold reports.
  destruct r as [[]|e].
  - rewrite (bind_ok _ _ _ _ _ Hf). pose proof (set_final_status self (Ok tt) done_ (Some running) w2 Hs) as H.
    rewrite <- H by done. clear H. change (class_set_status self done_ (Some running)) with (set_status self done_ (Some running)).
    destruct (set_status_effect self done_ (Some running) w2) as (_ & _ & [H|[? _]]); [|done].
    rewrite set_status_run in H by done. unfold mbind at 1, M_bind.
    destruct (set_status self done_ (Some running) w2) as [w4 r4]. simpl in H. subst r4.
    case_decide; [by case_decide|done].
  - rewrite (bind_raise _ _ _ _ _ Hf). destruct (is_expired e) eqn:Ee.
    { apply bool_decide_eq_true in Ee. subst e. simpl. by rewrite andb_false_r, app_nil_r. }
    destruct (is_cancelled e) eqn:Ec; cbn [negb andb]; [by rewrite andb_false_r, app_nil_r|].
    pose proof (set_final_status self (Raise e) fail None w2 Hs) as H. rewrite <- H by done. clear H.
    unfold suppressed_fail, Op.set_status_fail, try_except. unfold mbind, M_bind.
    change (class_set_status self fail None) with (set_status self fail None).
    destruct (set_status self fail None w2) as [w4 [b|e4]]; [done|]. simpl. by destruct (is_expired e4).
Qed.

Definition example_config : NodeConfig := mkNodeConfig "/data" "az1" None None "/db" 1 (Some read).
Definition example_node : node :=
  mkNode (Some (NodeLock.mkLockEntry "a" 100)) initial ∅ ∅ [] [] (λ i, Z.of_nat i `min` 100).

(** A data-changing Cassandra operation is refused on a node configured for
    reading; a snapshot is started. *)
Lemma endpoint_exact_witness :
  let h := handle example_config "host" true (λ _, "url") in
  h false "" (PostCassandra unrestore_sstables) example_node =
    (skip_clock 1 example_node, Raise (HTTPException 403)) ∧
  ∃ l, Some (NodeLock.mkLockEntry "a" 100) = Some l ∧ Some "a" = Some (NodeLock.locker l) ∧
    h false "http://c" (PostSnapshot []) example_node =
    (accepted example_config "host" false "http://c" (PostSnapshot []) (NodeLock.locker l) example_node,
     Ok (mkStartResult 1 "url")).
Proof.
  intros h. split.
  - apply (endpoint_exact example_config "host" true (λ _, "url") false "" (PostCassandra unrestore_sstables)
      example_node); reflexivity.
  - apply (endpoint_exact example_config "host" true (λ _, "url") false "http://c" (PostSnapshot []) example_node);
      reflexivity.
Defined.

(** Another locker cannot stop the upload of the holder. *)
Lemma lease_protects_witness :
  let r := run example_config "host" true (λ _, "url")
    [EPost false "" (PostUpload [] "" true); ELock (NodeLock.Unlock "b"); ELock (NodeLock.Lock "b" 5); EPoll 1]
    example_node in
  snd r = [(1, "a"); (1, "a")] ∧ n_lock (fst r) = Some (NodeLock.mkLockEntry "a" 100) ∧ Forall (λ g, g.2 = "a") (snd r).
Proof.
  intros r. split; [vm_compute; reflexivity|].
  apply (lease_protects example_config "host" true (λ _, "url") "a" 100); [done| |].
  - split; [by eexists|]. split; [|done]. intros i. simpl. lia.
  - repeat constructor; done.
Defined.
(** The progress of an upload that raised after three of five files. *)
Lemma node_reports_outcome_witness :
  let o p := mkNodeOp (NodeLock.mkCallback "a" false) "http://c" (mkNodeResult "host" "az1" p) in
  let st := mkOpState (mkInfo 7 "upload" (Some starting)) (Some 7) 8 in
  let w := mkNode (Some (NodeLock.mkLockEntry "a" 100)) st ∅ {[7 := o new_progress]} [] [] (λ _, 5) in
  let fun_ := on_progress 7 (put (mkProgress 3 0 5 false)) ;; raise RuntimeError in
  let w3 := fst (sync_wrapper 7 fun_ w) in
  (Raise RuntimeError ≠ @Raise unit CancelledError → op_status (op_info (n_ops w3)) = Some fail) ∧
  n_sent w3 = [("http://c", mkNodeResult "host" "az1" (mkProgress 3 1 5 true))].
Proof.
  intros o st w fun_ w3. set (w1 := set_ops (with_status running (n_ops w)) w).
  apply (node_reports_outcome 7 fun_ w (set_object 7 (o (mkProgress 3 0 5 false)) w1) (Raise RuntimeError));
    [done|done|done|reflexivity|]. vm_compute. congruence.
Defined.
End NodeApi.
