(* ===== verification/Coordinator.v ===== *)
(** * The coordinator: its operations and its endpoints
      ([coordinator/coordinator.py], [coordinator/cleanup.py],
      [coordinator/lockops.py], [coordinator/api.py])

    An endpoint builds an operation from the steps of the plugin, takes the
    cluster lock and starts the operation in the background.  The environment
    [E] is that of [Cluster]; each call of an endpoint is one step. *)

From stdpp Require Import base gmap strings list.
From Stdlib Require Import ZArith Lia.
From S2P Require Import Prelude Progress Ipc Op Utils NodeLock Cluster ClusterLock Cleanup.

Local Open Scope Z_scope.

Module Coordinator.
Import Op Cluster.

(** ** Data *)
Record OperationContext : Type := mkOperationContext {
  (** It determines [json_storage] and [hexdigest_storage]. *)
  storage_name : string;
}.

Record CoordinatorConfig : Type := mkCoordinatorConfig {
  nodes : list CoordinatorNode;
  default_lock_ttl : Z;
  backup_attempts : nat;
  retention : Retention;
}.

(** [CoordinatorPlugin], for steps of any kind. *)
Record CoordinatorPlugin (Step : Type) : Type := mkCoordinatorPlugin {
  get_backup_steps : OperationContext → res (list Step);
  get_delta_backup_steps : OperationContext → res (list Step);
  get_restore_steps : OperationContext → RestoreRequest → res (list Step);
  get_cleanup_steps : OperationContext → Retention → list string → res (list Step);
}.
Arguments get_backup_steps {Step}. Arguments get_delta_backup_steps {Step}.
Arguments get_restore_steps {Step}. Arguments get_cleanup_steps {Step}.

(** The object of a stepped operation. *)
Record SteppedCoordinatorOp (Step : Type) : Type := mkSteppedCoordinatorOp {
  so_op_id : Z;
  so_locker : string;
  so_ttl : Z;
  so_initial_lock_start : Z;
  so_attempts : nat;
  so_steps : list Step;
}.
Arguments so_op_id {Step}. Arguments so_locker {Step}. Arguments so_ttl {Step}.
Arguments so_initial_lock_start {Step}. Arguments so_attempts {Step}. Arguments so_steps {Step}.
Arguments mkSteppedCoordinatorOp {Step}.

(** What runs in the background. *)
Inductive task (Step : Type) : Type :=
| run_locked (o : SteppedCoordinatorOp Step)
| lockops_lock_task (locker : string) (ttl : Z)
| lockops_unlock_task (locker : string).
Arguments run_locked {Step}. Arguments lockops_lock_task {Step}. Arguments lockops_unlock_task {Step}.

Record coordinator (E Step : Type) : Type := mkCoordinator {
  c_env : E;
  c_ops : OpState;
  (** The attribute [op_started] of the operations that have one. *)
  c_op_started : gmap Z Z;
  (** [step_progress] of the operations, by index of the step. *)
  c_step_progress : gmap Z (list (nat * Progress));
  c_tasks : list (Z * task Step);
}.
Arguments mkCoordinator {E Step}. Arguments c_env {E Step}. Arguments c_ops {E Step}.
Arguments c_op_started {E Step}. Arguments c_step_progress {E Step}. Arguments c_tasks {E Step}.

Section coordinator.
Context {E Step : Type} (env : ClusterEnv E) (step_class_name : Step → string).
Context (config : CoordinatorConfig) (plugin : CoordinatorPlugin Step).
(** [get_default_storage_name] of the configured storages. *)
Context (default_storage_name : string).
(** [f"{socket.gethostname()}-{id(self)}"], by operation *)
Context (get_locker : Z → string) (make_url : Z → string).

Local Notation W := (coordinator E Step).

Definition set_env (x : E) (w : W) : W := mkCoordinator x (c_ops w) (c_op_started w) (c_step_progress w) (c_tasks w).
Definition set_ops (x : OpState) (w : W) : W := mkCoordinator (c_env w) x (c_op_started w) (c_step_progress w) (c_tasks w).
Definition set_op_started (self t : Z) (w : W) : W :=
  mkCoordinator (c_env w) (c_ops w) (<[self := t]> (c_op_started w)) (c_step_progress w) (c_tasks w).
Definition add_task (self : Z) (t : task Step) (w : W) : W :=
  mkCoordinator (c_env w) (c_ops w) (c_op_started w) (c_step_progress w) (c_tasks w ++ [(self, t)]).

Definition on_env {A} (m : M E A) : M W A := zoom c_env set_env m.
Definition on_ops {A} (m : M OpState A) : M W A := on_op c_ops set_ops m.

(** ** [LockedCoordinatorOp.set_status]

    [op_started] is declared but has no value before the operation is started:
    reading it then raises.  The gauge itself is left out. *)
Definition update_running_stats (self : Z) : M W unit :=
  w ← get;
  if decide (op_status (op_info (c_ops w)) = Some done_ ∨ op_status (op_info (c_ops w)) = Some fail) then mret tt
  else match c_op_started w !! self with
       | None => raise AttributeError
       | Some _ => on_env (env_now env) ;; mret tt
       end.

Definition locked_set_status (self : Z) (status : Status) (from_status : option Status) : M W bool :=
  changed ← on_ops (Op.set_status self status from_status);
  (if bool_decide (status = starting) && changed then
     t ← on_env (env_now env); modify (set_op_started self t)
   else mret tt) ;;
  update_running_stats self ;;
  mret changed.
Definition locked_setter : StatusSetter W := locked_set_status.
(** [LockOps] does not override it. *)
Definition plain_setter : StatusSetter W := zoom_setter c_ops set_ops.

Definition start_op (setter : StatusSetter W) (self : Z) (name : string) (fun_ : task Step) : M W StartResult :=
  on_ops (begin_op self name) ;;
  class_set_status self starting None ;;
  modify (add_task self fun_) ;;
  mret (mkStartResult self (make_url self)).

(** ** [Coordinator] *)
Definition get_storage_name (requested_storage : string) : string :=
  if decide (requested_storage = "") then default_storage_name else requested_storage.
Definition get_operation_context (requested_storage : string) : OperationContext :=
  mkOperationContext (get_storage_name requested_storage).

(** What [op_info.op_status] can be compared with: the members of the
    enumeration and their values are different objects, never equal. *)
Inductive status_object : Type := Member (s : Status) | Value (s : string).
#[global] Instance status_object_eq_dec : EqDecision status_object. Proof. solve_decision. Defined.

(** [set_status] stores members of [Op.Status]. *)
Definition stored_status (st : OpState) : option status_object := Member <$> op_status (op_info st).

Definition is_busy (st : OpState) : bool :=
  bool_decide (is_Some (op st)) &&
  match stored_status st with
  | Some s => bool_decide (s ∈ [Value "running"; Value "starting"])
  | None => false
  end.

(** ** The constructors of operations *)
Definition new_coordinator_op : M W Z := on_ops allocate_op_id.

Definition new_stepped_op (attempts : nat) (steps : list Step) : M W (SteppedCoordinatorOp Step) :=
  self ← new_coordinator_op;
  t ← on_env (env_now env);
  mret (mkSteppedCoordinatorOp self (get_locker self) (default_lock_ttl config) t attempts steps).

Definition BackupOp : M W (SteppedCoordinatorOp Step) :=
  steps ← lift_res (get_backup_steps plugin (get_operation_context ""));
  new_stepped_op (backup_attempts config) steps.

Definition DeltaBackupOp : M W (SteppedCoordinatorOp Step) :=
  steps ← lift_res (get_delta_backup_steps plugin (get_operation_context ""));
  new_stepped_op (backup_attempts config) steps.

(** [step_names.index(name)] and the slice up to it, inclusive *)
Definition stop_after (name : string) (steps : list Step) : res (list Step) :=
  match list_find (λ s, step_class_name s = name) steps with
  | Some (i, _) => Ok (take (i + 1) steps)
  | None => Raise ValueError
  end.

Definition RestoreOp (req : RestoreRequest) : M W (SteppedCoordinatorOp Step) :=
  steps ← lift_res (get_restore_steps plugin (get_operation_context (rr_storage req)) req);
  steps ← lift_res (match rr_stop_after_step req with
                    | Some name => stop_after name steps
                    | None => Ok steps
                    end);
  new_stepped_op 1 steps.

Definition CleanupOp (req : CleanupRequest) : M W (SteppedCoordinatorOp Step) :=
  steps ← lift_res (get_cleanup_steps plugin (get_operation_context "") (Cleanup.effective_retention (retention config) req)
                      (cr_explicit_delete req));
  new_stepped_op 1 steps.

(** ** The endpoints *)

(** [runner = await op.acquire_cluster_lock(); return c.start_op(...)] *)
Definition lock_and_start (name : string) (o : SteppedCoordinatorOp Step) : M W StartResult :=
  on_env (acquire_cluster_lock env (nodes config) (so_locker o) (so_ttl o)) ;;
  start_op locked_setter (so_op_id o) name (run_locked o).

Definition backup : M W StartResult := op ← BackupOp; lock_and_start "backup" op.
Definition delta_backup : M W StartResult := op ← DeltaBackupOp; lock_and_start "backup" op.
Definition restore (req : RestoreRequest) : M W StartResult := op ← RestoreOp req; lock_and_start "restore" op.
Definition cleanup (req : CleanupRequest) : M W StartResult := op ← CleanupOp req; lock_and_start "cleanup" op.

(** [LockOps] is built by the framework, with a time to live of 60 seconds
    unless one is given. *)
Definition lock (locker : string) (ttl : Z) : M W StartResult :=
  self ← new_coordinator_op;
  start_op plain_setter self "lock" (lockops_lock_task locker ttl).
Definition unlock (locker : string) : M W StartResult :=
  self ← new_coordinator_op;
  start_op plain_setter self "unlock" (lockops_unlock_task locker).

(** [progress_handler] of [_progress_handler], and [progress] *)
Definition set_step_progress (self : Z) (index : nat) (p : Progress) (w : W) : W :=
  mkCoordinator (c_env w) (c_ops w) (c_op_started w)
    (<[self := dict_set index p (default [] (c_step_progress w !! self))]> (c_step_progress w)) (c_tasks w).
Definition op_progress (self : Z) (w : W) : Progress :=
  Progress.merge (Progress.Reiterable (snd <$> default [] (c_step_progress w !! self))).

(** [GET /<op_name>/<op_id>]: the state, and the progress of operations that
    have one. *)
Definition op_status_endpoint (name : string) (id : Z) : M W (option Status * option Progress) :=
  oi ← on_ops (get_op_and_op_info id (Some name));
  w ← get;
  mret (op_status (snd oi),
        match fst oi with
        | Some self => if decide (name = "backup" ∨ name = "restore") then Some (op_progress self w) else None
        | None => None
        end).

(** [run] of [acquire_cluster_lock]: [body] is [run_with_lock] next to the
    relock tasks, which may cancel it; the lock is given back in any case. *)
Definition runner (o : SteppedCoordinatorOp Step) (body : M W unit) : M W unit := λ w,
  let '(w1, r) := body w in
  match on_env (request_unlock env (nodes config) (so_locker o)) w1 with
  | (w2, Ok _) => (w2, r)
  | (w2, Raise e) => (w2, Raise e)
  end.

(** ** Requests for stepped operations *)
Definition stepped_request (name : string) (attempts : nat) (steps : res (list Step)) : M W StartResult :=
  op ← (steps ← lift_res steps; new_stepped_op attempts steps); lock_and_start name op.

(** Every endpoint that takes the lock is one. *)
Lemma stepped_endpoints w :
  backup w = stepped_request "backup" (backup_attempts config) (get_backup_steps plugin (get_operation_context "")) w ∧
  delta_backup w =
    stepped_request "backup" (backup_attempts config) (get_delta_backup_steps plugin (get_operation_context "")) w ∧
  (∀ req, restore req w = stepped_request "restore" 1
     (get_restore_steps plugin (get_operation_context (rr_storage req)) req ≫= λ steps,
        match rr_stop_after_step req with Some name => stop_after name steps | None => Ok steps end) w) ∧
  (∀ req, cleanup req w = stepped_request "cleanup" 1
     (get_cleanup_steps plugin (get_operation_context "") (Cleanup.effective_retention (retention config) req)
        (cr_explicit_delete req)) w).
Proof.
  split; [done|]. split; [done|]. split; [|done]. intros req. unfold restore, RestoreOp, stepped_request.
  destruct (get_restore_steps _ _ _) as [l|e]; [|done]. by destruct (rr_stop_after_step req).
Qed.

Context (now_total : ∀ e, ∃ e' t, env_now env e = (e', Ok t)).

Lemma on_env_run {A} (m : M E A) w e r : m (c_env w) = (e, r) → on_env m w = (set_env e w, r).
Proof using Type. intros H. unfold on_env, zoom. by rewrite H. Qed.

(** The state once operation [self] is the current one. *)
Definition begun (self : Z) (name : string) (e : E) (w : W) : W :=
  set_env e (set_ops (mkOpState (mkInfo self name (op_status (op_info (c_ops w)))) (Some self) (self + 1)) w).

Lemma start_locked_run self name t e w :
  self ≠ 0 → c_op_started w !! self = None → next_op_id (c_ops w) = self + 1 → c_env w = e →
  ∃ w' r, start_op locked_setter self name t w = (w', r) ∧
  if decide (op_status (op_info (c_ops w)) = Some starting) then
    r = Raise AttributeError ∧ w' = begun self name e w
  else r = Ok (mkStartResult self (make_url self)) ∧ c_tasks w' = c_tasks w ++ [(self, t)] ∧
    op_info (c_ops w') = mkInfo self name (Some starting) ∧ op (c_ops w') = Some self ∧
    is_Some (c_op_started w' !! self).
Proof using now_total.
  clear get_locker. intros Hs Hn Hnext <-. unfold start_op.
  rewrite (bind_ok _ _ _ _ _ (on_op_run c_ops set_ops (begin_op self name) w _ _ eq_refl)).
  set (w1 := set_ops _ w). assert (w1 = begun self name (c_env w) w) as Hw1.
  { unfold w1, begun. rewrite Hnext. by destruct w. }
  assert (Op.set_status self starting None (c_ops w1) =
    if decide (op_status (op_info (c_ops w)) = Some starting) then (c_ops w1, Ok false)
    else (with_status starting (c_ops w1), Ok true)) as Hset.
  { rewrite set_status_run, decide_True by done. unfold w1. simpl.
    destruct (decide (op_status (op_info (c_ops w)) = Some starting)) as [E1|E1];
      [rewrite decide_False by naive_solver|rewrite decide_True by naive_solver]; done. }
  change (class_set_status self starting None) with (locked_set_status self starting None).
  unfold locked_set_status, on_ops.
  destruct (decide (op_status (op_info (c_ops w)) = Some starting)) as [E1|E1];
    pose proof (on_op_run c_ops set_ops _ _ _ _ Hset) as Hrun.
  - assert ((changed ← on_op c_ops set_ops (Op.set_status self starting None);
       (if bool_decide (starting = starting) && changed then t ← on_env (env_now env); modify (set_op_started self t)
        else mret tt) ;; update_running_stats self ;; mret changed) w1 = (begun self name (c_env w) w, Raise AttributeError)) as H.
    { rewrite (bind_ok _ _ _ _ _ Hrun). rewrite andb_false_r. rewrite (bind_ok (mret tt) _ _ _ _ eq_refl).
      apply bind_raise. unfold update_running_stats. rewrite (bind_ok get _ _ _ _ eq_refl). cbn [c_ops set_ops].
      rewrite decide_False by (unfold w1; simpl; rewrite E1; naive_solver).
      change (c_op_started (set_ops (c_ops w1) w1)) with (c_op_started w). rewrite Hn. unfold raise. f_equal.
      rewrite <- Hw1. by destruct w1. }
    rewrite (bind_raise _ _ _ _ _ H). do 2 eexists. split; [done|]. done.
  - destruct (now_total (c_env w)) as (e1 & t1 & H1). destruct (now_total e1) as (e2 & t2 & H2).
    set (w2 := set_op_started self t1 (set_env e1 (set_ops (with_status starting (c_ops w1)) w1))).
    assert ((changed ← on_op c_ops set_ops (Op.set_status self starting None);
       (if bool_decide (starting = starting) && changed then t ← on_env (env_now env); modify (set_op_started self t)
        else mret tt) ;; update_running_stats self ;; mret changed) w1 = (set_env e2 w2, Ok true)) as H.
    { rewrite (bind_ok _ _ _ _ _ Hrun). change (bool_decide (starting = starting) && true) with true. cbv iota.
      rewrite (bind_ok _ _ _ w2 tt).
      2: { rewrite (bind_ok _ _ _ _ _ (on_env_run (env_now env) (set_ops (with_status starting (c_ops w1)) w1) e1 (Ok t1) H1)). done. }
      rewrite (bind_ok _ _ _ (set_env e2 w2) tt); [done|]. unfold update_running_stats.
      rewrite (bind_ok get _ _ _ _ eq_refl). rewrite decide_False by (simpl; naive_solver).
      simpl. rewrite lookup_insert_eq. by rewrite (bind_ok _ _ _ _ _ (on_env_run (env_now env) w2 e2 (Ok t2) H2)). }
    rewrite (bind_ok _ _ _ _ _ H). do 2 eexists. split; [done|]. split; [done|]. split; [done|]. split; [done|].
    split; [done|]. simpl. by rewrite lookup_insert_eq.
Qed.

(** C34: A request for a backup, a delta backup, a restoration or a cleanup, on
    every branch: an error of the plugin changes nothing; without the
    cluster lock no operation is started; with it the operation is started
    and becomes the current one, unless the current operation has not begun
    to run yet: then starting raises after the lock was taken, and nothing
    will run or give the lock back. *)
Theorem stepped_request_outcome (name : string) (attempts : nat) (r : res (list Step)) (w : W) :
  let self := next_op_id (c_ops w) in
  self ≠ 0 → c_op_started w !! self = None →
  match r with
  | Raise e => stepped_request name attempts r w = (w, Raise e)
  | Ok steps =>
      ∃ e1 t, env_now env (c_env w) = (e1, Ok t) ∧
      let o := mkSteppedCoordinatorOp self (get_locker self) (default_lock_ttl config) t attempts steps in
      ∃ w' res, stepped_request name attempts r w = (w', res) ∧
      match acquire_cluster_lock env (nodes config) (get_locker self) (default_lock_ttl config) e1 with
      | (e2, Raise x) => res = Raise x ∧ op_info (c_ops w') = op_info (c_ops w) ∧ c_tasks w' = c_tasks w ∧ c_env w' = e2
      | (e2, Ok _) =>
          if decide (op_status (op_info (c_ops w)) = Some starting) then
            res = Raise AttributeError ∧ c_tasks w' = c_tasks w ∧ c_env w' = e2
          else
            res = Ok (mkStartResult self (make_url self)) ∧ c_tasks w' = c_tasks w ++ [(self, run_locked o)] ∧
            op_info (c_ops w') = mkInfo self name (Some starting) ∧ op (c_ops w') = Some self ∧
            is_Some (c_op_started w' !! self)
      end
  end.
Proof using now_total.
  intros self Hs Hst. destruct r as [steps|e]; [|done].
  destruct (now_total (c_env w)) as (e1 & t & H1). exists e1, t. split; [done|]. cbv zeta.
  set (o := mkSteppedCoordinatorOp self (get_locker self) (default_lock_ttl config) t attempts steps).
  set (w1 := set_env e1 (set_ops (mkOpState (op_info (c_ops w)) (op (c_ops w)) (self + 1)) w)).
  assert ((steps ← lift_res (Ok steps); new_stepped_op attempts steps) w = (w1, Ok o)) as Hnew.
  { rewrite (bind_ok (lift_res (Ok steps)) _ _ _ _ eq_refl). unfold new_stepped_op, new_coordinator_op, on_ops.
    rewrite (bind_ok _ _ _ _ _ (on_op_run c_ops set_ops allocate_op_id w _ _ eq_refl)).
    by rewrite (bind_ok _ _ _ _ _ (on_env_run (env_now env)
      (set_ops (mkOpState (op_info (c_ops w)) (op (c_ops w)) (self + 1)) w) e1 (Ok t) H1)). }
  unfold stepped_request. rewrite (bind_ok _ _ _ _ _ Hnew). unfold lock_and_start. simpl.
  destruct (acquire_cluster_lock env (nodes config) (get_locker self) (default_lock_ttl config) e1) as [e2 [[]|x]] eqn:Ea;
    pose proof (on_env_run (acquire_cluster_lock env (nodes config) (get_locker self) (default_lock_ttl config)) w1 e2 _ Ea) as Hr.
  - rewrite (bind_ok _ _ _ _ _ Hr).
    destruct (start_locked_run self name (run_locked o) e2 (set_env e2 w1)) as (w' & r & H & Hw'); [done..|].
    exists w', r. split; [done|]. change (op_info (c_ops (set_env e2 w1))) with (op_info (c_ops w)) in Hw'.
    case_decide; [|done]. destruct Hw' as [-> ->]. done.
  - rewrite (bind_raise _ _ _ _ _ Hr). do 2 eexists. done.
Qed.

(** Stopping after a step runs the steps up to the first one with the name,
    and an unknown name is refused. *)
Lemma stop_after_spec name steps :
  match stop_after name steps with
  | Ok l => ∃ pre s rest, steps = pre ++ s :: rest ∧ l = pre ++ [s] ∧ step_class_name s = name ∧
      Forall (λ s, step_class_name s ≠ name) pre
  | Raise e => e = ValueError ∧ Forall (λ s, step_class_name s ≠ name) steps
  end.
Proof using Type.
  unfold stop_after. destruct (list_find (λ s, step_class_name s = name) steps) as [[i s]|] eqn:Ef.
  - apply list_find_Some in Ef as (Hi & Hs & Hpre). exists (take i steps), s, (drop (S i) steps).
    split; [by rewrite take_drop_middle|]. split.
    { rewrite Nat.add_1_r. by rewrite (take_S_r _ _ s). }
    split; [done|]. apply Forall_lookup. intros j y [Hj Hlt]%lookup_take_Some. by eapply Hpre.
  - apply list_find_None in Ef. done.
Qed.
End coordinator.

(** [/busy] answers [false] whatever the state: the status, a member of the
    enumeration, is looked for among the values of its members. *)
Lemma is_busy_false st : is_busy st = false.
Proof.
  assert (∀ s, Member s ∉ [Value "running"; Value "starting"]) as Hm.
  { intros s [?|[?|[]%not_elem_of_nil]%elem_of_cons]%elem_of_cons; done. }
  unfold is_busy, stored_status. destruct (op_status (op_info st)) as [s|]; [|by rewrite andb_false_r].
  change (Member <$> Some s) with (Some (Member s)). cbv iota.
  rewrite (bool_decide_eq_false_2 (Member s ∈ _)) by apply Hm. apply andb_false_r.
Qed.

(** The lock is given back: whatever [body] does, returns, fails or is
    cancelled by a relock task, if the nodes are still locked for the
    operation then every node that the unlock request reaches is free. *)
Theorem runner_releases {Step} (config : CoordinatorConfig) (o : SteppedCoordinatorOp Step) (until : Z)
    (body : M (coordinator ClusterLock.net Step) unit) (w w1 : coordinator ClusterLock.net Step) (r : res unit) :
  body w = (w1, r) → so_locker o ≠ "" →
  NoDup (node_url_ <$> nodes config) → (length (nodes config) <= length (ClusterLock.schedule (c_env w1)))%nat →
  Forall (λ s, ∀ i, s.2 i <= until) (ClusterLock.schedule (c_env w1)) →
  (∀ n, n ∈ nodes config → ClusterLock.held_at (so_locker o) 0 until (node_url_ n) (c_env w1)) →
  ∃ w2 r2, runner ClusterLock.net_env config o body w = (w2, r2) ∧
    ∀ i n f clock, nodes config !! i = Some n → ClusterLock.schedule (c_env w1) !! i = Some (f, clock) →
      f ≠ ClusterLock.LostRequest → ClusterLock.net_nodes (c_env w2) !! node_url_ n = Some None.
Proof.
  intros Hb Hl Hnd Hlen Hc Hh. unfold runner. rewrite Hb.
  destruct (request_unlock ClusterLock.net_env (nodes config) (so_locker o) (c_env w1)) as [e2 r2] eqn:E.
  rewrite (on_env_run _ _ _ _ E).
  pose proof (ClusterLock.request_unlock_releases (so_locker o) until Hl (nodes config) (c_env w1) e2 r2 Hnd Hlen Hc Hh E) as H.
  destruct r2 as [x|x]; do 2 eexists; (split; [done|]); intros i n f clock Hn Hs Hf;
    specialize (H i n f clock Hn Hs); by destruct f.
Qed.

Definition example_config : CoordinatorConfig :=
  mkCoordinatorConfig [ClusterLock.node1; ClusterLock.node2] 600 5 (mkRetention None None None).
Definition example_net : ClusterLock.net :=
  ClusterLock.free_net [(ClusterLock.Delivered, λ _, 10); (ClusterLock.Delivered, λ _, 11)].
Definition example_coordinator (st : OpState) : coordinator ClusterLock.net string :=
  mkCoordinator example_net st ∅ ∅ [].

Ltac start_acquired H Hacq :=
  cbv zeta in H;
  match type of H with
  | context [acquire_cluster_lock ?a ?b ?c ?d ?e] =>
      change (acquire_cluster_lock a b c d e) with
        (acquire_cluster_lock ClusterLock.net_env (nodes example_config) "a" 600 example_net) in H
  end;
  rewrite Hacq in H; exact H.

(** A backup is started on a coordinator at rest; right after a request to
    [/lock], whose task is still queued, it takes the lock and then fails. *)
Lemma stepped_request_outcome_witness :
  let request := stepped_request (Step := string) ClusterLock.net_env example_config (λ _, "a") (λ _, "url") "backup" 5 (Ok ["s"]) in
  let queued := mkOpState (mkInfo 1 "lock" (Some starting)) (Some 1) 2 in
  let locked := ClusterLock.mkNet {["n1" := Some (NodeLock.mkLockEntry "a" 610); "n2" := Some (NodeLock.mkLockEntry "a" 611)]} [] in
  (∃ w' res, request (example_coordinator initial) = (w', res) ∧
     res = Ok (mkStartResult 1 "url") ∧ c_tasks w' = [(1, run_locked (mkSteppedCoordinatorOp 1 "a" 600 0 5 ["s"]))] ∧
     op_info (c_ops w') = mkInfo 1 "backup" (Some starting) ∧ op (c_ops w') = Some 1 ∧ is_Some (c_op_started w' !! 1)) ∧
  (∃ w' res, request (example_coordinator queued) = (w', res) ∧
     res = Raise AttributeError ∧ c_tasks w' = [] ∧ c_env w' = locked).
Proof.
  intros request queued locked.
  assert (acquire_cluster_lock ClusterLock.net_env (nodes example_config) "a" 600 example_net = (locked, Ok tt)) as Hacq
    by (vm_compute; reflexivity).
  split.
  - destruct (stepped_request_outcome (Step := string) ClusterLock.net_env example_config (λ _, "a") (λ _, "url")
      (λ e, ex_intro _ e (ex_intro _ 0 eq_refl)) "backup" 5 (Ok ["s"]) (example_coordinator initial))
      as (e1 & t & [= <- <-] & w' & res & Hreq & H); [done|reflexivity|].
    exists w', res. split; [exact Hreq|]. start_acquired H Hacq.
  - destruct (stepped_request_outcome (Step := string) ClusterLock.net_env example_config (λ _, "a") (λ _, "url")
      (λ e, ex_intro _ e (ex_intro _ 0 eq_refl)) "backup" 5 (Ok ["s"]) (example_coordinator queued))
      as (e1 & t & [= <- <-] & w' & res & Hreq & H); [done|reflexivity|].
    exists w', res. split; [exact Hreq|]. start_acquired H Hacq.
Defined.

(** A cancelled backup; the answer of the second node to the unlock request
    is lost. *)
Lemma runner_releases_witness :
  let o := mkSteppedCoordinatorOp 1 "a" 600 0 5 ["s"] in
  let net := ClusterLock.mkNet {["n1" := Some (NodeLock.mkLockEntry "a" 610); "n2" := Some (NodeLock.mkLockEntry "a" 611)]}
    [(ClusterLock.Delivered, λ _, 100); (ClusterLock.LostResponse, λ _, 101)] in
  let w := mkCoordinator net initial ∅ ∅ [] in
  ∃ w2 r2, runner ClusterLock.net_env example_config o (raise CancelledError) w = (w2, r2) ∧
    ClusterLock.net_nodes (c_env w2) !! "n1" = Some None ∧ ClusterLock.net_nodes (c_env w2) !! "n2" = Some None.
Proof.
  intros o net w.
  destruct (runner_releases example_config o 610 (raise CancelledError) w w (Raise CancelledError)) as (w2 & r2 & H & Hn).
  - reflexivity.
  - done.
  - apply (bool_decide_unpack _). vm_compute. exact I.
  - simpl. lia.
  - repeat constructor; simpl; lia.
  - intros n [->|[->|[]%not_elem_of_nil]%elem_of_cons]%elem_of_cons; (eexists; split; [reflexivity|]);
      (eexists; split; [reflexivity|]); done.
  - exists w2, r2. split; [exact H|]. split.
    + apply (Hn 0%nat ClusterLock.node1 ClusterLock.Delivered (λ _, 100)); done.
    + apply (Hn 1%nat ClusterLock.node2 ClusterLock.LostResponse (λ _, 101)); done.
Defined.
End Coordinator.
