(* ===== verification/CassNode.v ===== *)
(** * What a node does to its Cassandra ([node/cassandra.py])

    The operations that move and remove the files of Cassandra, on a file
    system of directories and regular files below [config.root]; Cassandra
    itself is stopped, started and asked through commands, which are
    parameters, and is the only one else to change the files. *)

From stdpp Require Import base gmap strings list.
From Stdlib Require Import ZArith Lia Ascii Strings.Byte.
From S2P Require Import Prelude Progress Ipc Base64.

Local Open Scope Z_scope.

Module CassNode.

(** ** Files below [config.root], by the components of their path *)
Notation path := (list string) (only parsing).
Inductive entry : Type :=
| File (contents : list byte)
| Dir.
#[global] Instance entry_eq_dec : EqDecision entry. Proof. solve_decision. Defined.

Notation tree := (gmap (list string) entry) (only parsing).

(** What a directory contains is in a directory that exists. *)
Definition well_formed (t : tree) : Prop :=
  ∀ p c e, t !! (p ++ [c]) = Some e → p = [] ∨ t !! p = Some Dir.

(** [q] below [p], relative to [p] *)
Fixpoint strip (p q : path) : option path :=
  match p, q with
  | [], _ => Some q
  | x :: p', y :: q' => if decide (x = y) then strip p' q' else None
  | _ :: _, [] => None
  end.

(** [fnmatch], of the star only. *)
Fixpoint star_match (pat name : string) : bool :=
  match pat with
  | EmptyString => match name with EmptyString => true | String _ _ => false end
  | String c pat' =>
      if Ascii.eqb c "*"%char then
        (fix any (n : string) : bool :=
           star_match pat' n || match n with EmptyString => false | String _ n' => any n' end) name
      else match name with String d n' => Ascii.eqb c d && star_match pat' n' | EmptyString => false end
  end.

Fixpoint glob_match (pats : list string) (p : path) : bool :=
  match pats, p with
  | [], [] => true
  | pat :: pats', x :: p' => star_match pat x && glob_match pats' p'
  | _, _ => false
  end.

(** The components of a pattern; a slash at its end is dropped. *)
Definition glob_parts (pattern : string) : list string := filter (λ s, s ≠ "") (split_on "/"%char pattern).

Definition remove (p : path) (t : tree) : tree := filter (λ kv, ¬ p `prefix_of` kv.1) t.

Definition relocate (src dst p : path) : path := match strip src p with Some r => dst ++ r | None => p end.
(** [dst] is replaced by what [src] is. *)
Definition move (src dst : path) (t : tree) : tree :=
  list_to_map ((λ kv, (relocate src dst kv.1, kv.2)) <$> map_to_list (delete dst t)).

Definition parent (p : path) : path := removelast p.
Definition name (p : path) : string := List.last p "".
Definition is_dir_at (t : tree) (p : path) : bool := bool_decide (p = [] ∨ t !! p = Some Dir).
Definition is_file_at (t : tree) (p : path) : bool := match t !! p with Some (File _) => true | _ => false end.

(** ** Configuration, requests and the state of an operation *)
Definition SNAPSHOT_NAME : string := "astacus-backup".
Definition SNAPSHOT_GLOB : string := "data/*/*/snapshots/astacus-backup".
Definition BACKUP_GLOB : string := "data/*/*/backups/".
Definition TABLES_GLOB : string := "data/*/*".

Inductive Yaml : Type :=
| YBool (b : bool)
| YInt (n : Z)
| YStr (s : string)
| YOther (document : string).

Record CassandraNodeConfig : Type := mkCassandraNodeConfig {
  config_path : option string;
  nodetool_command : list string;
  start_command : list string;
  stop_command : list string;
}.

(** A command that is run; the start command gets the configuration in a
    temporary file, named by its last argument. *)
Inductive command : Type :=
| Run (argv : list string)
| RunWithConfig (argv : list string) (config : gmap string Yaml).

Record world : Type := mkWorld {
  w_tree : tree;
  w_progress : Progress;
  (** [result.schema_hash] *)
  w_schema_hash : string;
  (** The commands that were run. *)
  w_commands : list command;
}.

Definition set_tree (t : tree) (w : world) : world := mkWorld t (w_progress w) (w_schema_hash w) (w_commands w).
Definition set_progress (p : Progress) (w : world) : world := mkWorld (w_tree w) p (w_schema_hash w) (w_commands w).
Definition on_progress {A} (m : M Progress A) : M world A := zoom w_progress set_progress m.

Section node.
(** [listing] is the order in which a directory is listed, [run] what a command
    does to the files and whether it succeeds, [load_config] the configuration
    of Cassandra as [yaml] reads it, and [select_schema_version] the answer to
    the query. *)
Context (listing : list path → list path) (run : command → tree → tree * bool)
  (load_config : string → res (gmap string Yaml)) (select_schema_version : res string)
  (cassandra : option CassandraNodeConfig).

(** ** Access to files *)
Definition glob_paths (base : path) (pats : list string) (t : tree) : list path :=
  listing (filter (λ p, match strip base p with Some r => glob_match pats r | None => false end = true) (elements (dom t))).
Definition glob (base : path) (pats : list string) : M world (list path) :=
  w ← get; mret (glob_paths base pats (w_tree w)).
Definition is_dir (p : path) : M world bool := w ← get; mret (is_dir_at (w_tree w) p).
Definition exists_ (p : path) : M world bool := w ← get; mret (bool_decide (is_Some (w_tree w !! p))).

Definition rmtree (p : path) : M world unit :=
  w ← get;
  match w_tree w !! p with
  | None => raise FileNotFoundError
  | Some (File _) => raise OSError
  | Some Dir => modify (set_tree (remove p (w_tree w)))
  end.

Definition unlink (missing_ok : bool) (p : path) : M world unit :=
  w ← get;
  match w_tree w !! p with
  | None => if missing_ok then mret tt else raise FileNotFoundError
  | Some Dir => raise OSError
  | Some (File _) => modify (set_tree (delete p (w_tree w)))
  end.

Definition has_children (p : path) (t : tree) : bool :=
  existsb (λ q, bool_decide (p `prefix_of` q ∧ q ≠ p)) (elements (dom t)).

(** [Path.rename], which replaces a file by a file, and an empty directory by
    a directory. *)
Definition rename (src dst : path) : M world unit :=
  w ← get;
  let t := w_tree w in
  match t !! src with
  | None => raise FileNotFoundError
  | Some e =>
      if decide (src = dst) then mret tt
      else if negb (is_dir_at t (parent dst)) then raise (if decide (is_Some (t !! parent dst)) then OSError else FileNotFoundError)
      else
        match e, t !! dst with
        | File _, Some Dir | Dir, Some (File _) => raise OSError
        | Dir, d =>
            if decide (src `prefix_of` dst) then raise OSError
            else if has_children dst t then raise OSError
            else modify (set_tree (move src dst t))
        | _, _ => modify (set_tree (move src dst t))
        end
  end.

Definition subprocess_run (c : command) : M world unit :=
  w ← get;
  let '(t, ok) := run c (w_tree w) in
  put (mkWorld t (w_progress w) (w_schema_hash w) (w_commands w ++ [c])) ;;
  if ok : bool then mret tt else raise CalledProcessError.

(** ** [SimpleCassandraSubOp] *)
Definition clean_matching (dir_glob : string) (clean_func : path → M world unit) : M world unit :=
  on_progress (Progress.add_total 1) ;;
  todo ← glob [] (glob_parts dir_glob);
  on_progress (Progress.add_success 1) ;;
  on_progress (Progress.add_total (Z.of_nat (length todo))) ;;
  for_each todo (λ to_clean, clean_func to_clean ;; on_progress (Progress.add_success 1)) ;;
  on_progress Progress.done.

Definition remove_sstables (table_dir : path) : M world unit :=
  d ← is_dir table_dir;
  if negb d then unlink true table_dir
  else
    e ← exists_ (table_dir ++ ["snapshots"; SNAPSHOT_NAME]);
    if negb e then rmtree table_dir
    else
      ps ← glob table_dir ["*"];
      for_each ps (λ p,
        if decide (name p ∈ ["snapshots"; "backups"]) then mret tt
        else d ← is_dir p; if d : bool then rmtree p else unlink true p).

Definition remove_snapshot : M world unit := clean_matching SNAPSHOT_GLOB rmtree.
Definition unrestore_sstables : M world unit := clean_matching TABLES_GLOB remove_sstables.

(** [assert self.config.cassandra] *)
Definition config_cassandra : M world CassandraNodeConfig :=
  match cassandra with Some c => mret c | None => raise AssertionError end.

Definition stop_cassandra : M world unit :=
  c ← config_cassandra;
  subprocess_run (Run (stop_command c)) ;;
  on_progress Progress.done.

Definition take_snapshot : M world unit :=
  c ← config_cassandra;
  subprocess_run (Run (nodetool_command c ++ ["snapshot"; "-t"; SNAPSHOT_NAME])) ;;
  on_progress Progress.done.

(** ** [CassandraRestoreSSTablesOp] *)
Definition match_table_by_name (keyspace_name table_name_and_id : string) : M world path :=
  match rev (split_on "-"%char table_name_and_id) with
  | _ :: (_ :: _) as l =>
      let table_name := join_on "-"%char (rev (tail l)) in
      let keyspace_path := ["data"; keyspace_name] in
      table_paths ← glob keyspace_path [table_name +:+ "-*"];
      if decide (table_paths = []) then raise RuntimeError
      else
        let table_paths :=
          if decide (1 < length table_paths)%nat then filter (λ p, name p ≠ table_name_and_id) table_paths
          else table_paths in
        match table_paths with [p] => mret p | _ => raise RuntimeError end
  | _ => raise ValueError
  end.

Definition ensure_target_is_empty (keyspace_name : string) (table_path : path) : M world unit :=
  w ← get;
  let existing_files := filter (λ p, is_file_at (w_tree w) p = true) (glob_paths table_path ["*"] (w_tree w)) in
  if decide (keyspace_name = "system_auth") then for_each existing_files (unlink false)
  else if decide (existing_files = []) then mret tt
  else raise RuntimeError.

Section restore.
Context (keyspaces_to_skip : list string) (match_tables_by : CassandraTableMatching) (expect_empty_target : bool).

Definition restore_table (table_snapshot : path) : M world unit :=
  match strip ["data"] table_snapshot with
  | Some (keyspace_name :: table_name_and_id :: _) =>
      if decide (keyspace_name ∈ keyspaces_to_skip) then on_progress (Progress.add_success 1)
      else
        table_path ← match match_tables_by with
                     | cfid => mret ["data"; keyspace_name; table_name_and_id]
                     | cfname => match_table_by_name keyspace_name table_name_and_id
                     end;
        (if expect_empty_target then ensure_target_is_empty keyspace_name table_path else mret tt) ;;
        file_paths ← glob table_snapshot ["*"];
        for_each file_paths (λ file_path, rename file_path (table_path ++ [name file_path])) ;;
        on_progress (Progress.add_success 1)
  | _ => raise ValueError
  end.
End restore.

(** The type of the request is fixed by the endpoint. *)
Definition restore_sstables (req : NodeRequest) : M world unit :=
  match req with
  | CassandraRestoreSSTablesRequest table_glob keyspaces_to_skip match_tables_by expect_empty_target =>
      table_snapshots ← glob [] (glob_parts table_glob);
      on_progress (Progress.add_total (Z.of_nat (length table_snapshots))) ;;
      for_each table_snapshots (restore_table keyspaces_to_skip match_tables_by expect_empty_target) ;;
      on_progress Progress.done
  | _ => raise AttributeError
  end.

(** ** [CassandraStartOp] *)
Definition start_config (tokens : option (list string)) (replace_address_first_boot : option string)
    (skip_bootstrap_streaming : option bool) (config : gmap string Yaml) : gmap string Yaml :=
  let config := <["auto_bootstrap" := YBool (bool_decide (is_Some replace_address_first_boot))]> config in
  let config :=
    match tokens with
    | Some (t :: l) =>
        <["num_tokens" := YInt (Z.of_nat (length (t :: l)))]> (<["initial_token" := YStr (String.concat ", " (t :: l))]> config)
    | _ => config
    end in
  let config :=
    match replace_address_first_boot with
    | Some (String _ _ as a) => <["replace_address_first_boot" := YStr a]> config
    | _ => config
    end in
  match skip_bootstrap_streaming with
  | Some true => <["skip_bootstrap_streaming" := YBool true]> config
  | _ => config
  end.

Definition start_cassandra (req : NodeRequest) : M world unit :=
  match req with
  | CassandraStartRequest tokens replace_address_first_boot skip_bootstrap_streaming =>
      on_progress (Progress.add_total 3) ;;
      c ← config_cassandra;
      match config_path c with
      | None => raise AssertionError
      | Some path =>
          config ← lift_res (load_config path);
          on_progress (Progress.add_success 1) ;;
          on_progress (Progress.add_success 1) ;;
          subprocess_run (RunWithConfig (start_command c)
            (start_config tokens replace_address_first_boot skip_bootstrap_streaming config)) ;;
          on_progress (Progress.add_success 1) ;;
          on_progress Progress.done
      end
  | _ => raise AttributeError
  end.

(** ** [CassandraGetSchemaHashOp] *)
Definition get_schema_hash : M world unit :=
  _ ← config_cassandra;
  try_except
    (h ← lift_res select_schema_version; modify (λ w, mkWorld (w_tree w) (w_progress w) h (w_commands w)))
    is_transient (λ _, mret tt) ;;
  on_progress Progress.done.
End node.

(** ** Paths *)
Lemma strip_Some p q r : strip p q = Some r ↔ q = p ++ r.
Proof.
  revert q. induction p as [|x p IH]; intros q; simpl; [naive_solver|].
  destruct q as [|y q]; [naive_solver|]. case_decide as H; [rewrite IH; naive_solver|naive_solver].
Qed.

Lemma strip_app p r : strip p (p ++ r) = Some r.
Proof. by apply strip_Some. Qed.

Lemma strip_None p q : strip p q = None ↔ ¬ p `prefix_of` q.
Proof.
  rewrite eq_None_not_Some. f_equiv. split.
  - intros [r ->%strip_Some]. by exists r.
  - intros [r ->]. rewrite strip_app. eauto.
Qed.

Lemma prefix_same_length (a b p : path) :
  a `prefix_of` p → b `prefix_of` p → length a = length b → a = b.
Proof.
  intros Ha Hb Hl. destruct (prefix_weak_total _ _ _ Ha Hb) as [H|H]; [|symmetry]; apply prefix_length_eq; (done || lia).
Qed.

Lemma glob_match_length pats r : glob_match pats r = true → length r = length pats.
Proof.
  revert r. induction pats as [|x pats IH]; intros [|y r]; simpl; try done. intros [_ H]%andb_prop. f_equal. auto.
Qed.

Lemma name_snoc p c : name (p ++ [c]) = c.
Proof. apply last_last. Qed.

Lemma parent_snoc p c : parent (p ++ [c]) = p.
Proof. apply removelast_last. Qed.

Lemma lookup_remove p t q : remove p t !! q = if decide (p `prefix_of` q) then None else t !! q.
Proof.
  unfold remove. case_decide as H.
  - apply map_lookup_filter_None. right. naive_solver.
  - destruct (t !! q) as [e|] eqn:E; [apply map_lookup_filter_Some; naive_solver|apply map_lookup_filter_None; auto].
Qed.

(** Below a path that does not exist there is nothing. *)
Lemma nothing_below t p r : well_formed t → p ≠ [] → t !! p ≠ Some Dir → r ≠ [] → t !! (p ++ r) = None.
Proof.
  intros Hwf Hp Hn. induction r as [|c r IH] using rev_ind; [done|]. intros _.
  destruct (t !! (p ++ r ++ [c])) as [e|] eqn:E; [|done]. exfalso. rewrite app_assoc in E.
  destruct (Hwf _ _ _ E) as [?|Hd]; [by destruct p|]. destruct r as [|d r]; [by rewrite app_nil_r in Hd|].
  rewrite IH in Hd by done. done.
Qed.

Lemma star_match_star s : star_match "*" s = true.
Proof. induction s as [|c s IH]; [done|]. simpl in *. by rewrite IH. Qed.

(** ** Listings *)
Section listings.
Context (listing : list path → list path) (listing_perm : ∀ l, listing l ≡ₚ l).

Lemma elem_of_glob base pats t p :
  p ∈ glob_paths listing base pats t ↔ ∃ r, p = base ++ r ∧ glob_match pats r = true ∧ is_Some (t !! p).
Proof using listing_perm.
  unfold glob_paths. rewrite listing_perm, list_elem_of_filter, elem_of_elements, elem_of_dom. split.
  - intros [H1 H2]. destruct (strip base p) as [r|] eqn:E; [|done]. apply strip_Some in E as ->. eauto.
  - intros (r & -> & H1 & H2). by rewrite strip_app.
Qed.

Lemma NoDup_glob base pats t : NoDup (glob_paths listing base pats t).
Proof using listing_perm. unfold glob_paths. rewrite listing_perm. apply NoDup_filter, NoDup_elements. Qed.

Lemma glob_length base pats t p : p ∈ glob_paths listing base pats t → length p = (length base + length pats)%nat.
Proof using listing_perm.
  rewrite elem_of_glob. intros (r & -> & H & _). apply glob_match_length in H. rewrite length_app. lia.
Qed.
End listings.

(** Moving [src] where nothing is, or an empty directory. *)
Definition free_for (src dst : path) (t : tree) : Prop :=
  (∀ r, r ≠ [] → t !! (dst ++ r) = None) ∧ ¬ src `prefix_of` dst ∧ ¬ dst `prefix_of` src.

Lemma relocate_inj src dst t p q :
  free_for src dst t → is_Some (delete dst t !! p) → is_Some (delete dst t !! q) →
  relocate src dst p = relocate src dst q → p = q.
Proof.
  intros (Hfree & _ & _) Hp Hq. unfold relocate.
  assert (∀ r, is_Some (delete dst t !! (dst ++ r)) → False) as Hno.
  { intros r [e [Hne Hr]%lookup_delete_Some]. rewrite Hfree in Hr; [done|]. intros ->. by rewrite app_nil_r in Hne. }
  destruct (strip src p) as [r|] eqn:E1, (strip src q) as [r'|] eqn:E2; rewrite ?strip_Some in E1, E2; subst.
  - by intros ->%(inj (app dst)).
  - intros <-. by destruct (Hno r).
  - intros ->. by destruct (Hno r').
  - done.
Qed.

Lemma lookup_move src dst t q :
  free_for src dst t →
  move src dst t !! q =
    match strip dst q with
    | Some r => t !! (src ++ r)
    | None => if decide (src `prefix_of` q) then None else t !! q
    end.
Proof.
  intros Hf. pose proof Hf as (Hfree & Hsd & Hds). apply option_eq. intros e. unfold move.
  rewrite <- elem_of_list_to_map.
  2:{ rewrite <- list_fmap_compose. apply NoDup_fmap_2_strong; [|apply NoDup_map_to_list].
      intros [p1 e1] [p2 e2] H1%elem_of_map_to_list H2%elem_of_map_to_list Heq. simpl in Heq.
      assert (p1 = p2) as <- by (eapply relocate_inj; eauto). congruence. }
  rewrite list_elem_of_fmap. split.
  - intros ([p e'] & [= -> ->] & [Hne Hp]%elem_of_map_to_list%lookup_delete_Some). simpl in *. unfold relocate.
    destruct (strip src p) as [r|] eqn:E.
    + apply strip_Some in E as ->. by rewrite strip_app.
    + apply strip_None in E. destruct (strip dst p) as [r|] eqn:Ed; [|by rewrite decide_False].
      apply strip_Some in Ed as ->. exfalso. rewrite Hfree in Hp; [done|]. intros ->. by rewrite app_nil_r in Hne.
  - destruct (strip dst q) as [r|] eqn:Ed.
    + apply strip_Some in Ed as ->. intros Hr. exists (src ++ r, e). unfold relocate. simpl. rewrite strip_app. split; [done|].
      apply elem_of_map_to_list, lookup_delete_Some. split; [|done].
      intros Heq. apply Hsd. rewrite Heq. by exists r.
    + apply strip_None in Ed. case_decide as Hs; [done|]. intros Hq. exists (q, e). unfold relocate. simpl.
      rewrite (proj2 (strip_None _ _) Hs). split; [done|]. apply elem_of_map_to_list, lookup_delete_Some. split; [|done].
      intros ->. by apply Ed.
Qed.

(** Removals leave nothing in a directory that does not exist. *)
Lemma filter_well_formed t (keep : path → Prop) `{∀ p, Decision (keep p)} :
  well_formed t → (∀ p c, keep (p ++ [c]) → p ≠ [] → keep p) → well_formed (filter (λ kv, keep kv.1) t).
Proof.
  intros Hwf Hk p c e [He Hkeep]%map_lookup_filter_Some. destruct (Hwf _ _ _ He) as [->|Hd]; [by left|].
  destruct p as [|x p]; [by left|]. right. apply map_lookup_filter_Some. split; [done|]. by eapply Hk.
Qed.

(** ** Removing what a pattern matches *)
Section removing.
Context (drop : path → path → bool).

Definition dropped (todo : list path) (p : path) : bool := existsb (λ a, drop a p) todo.
Definition drop_tree (todo : list path) (t : tree) : tree := filter (λ kv, dropped todo kv.1 = false) t.
Definition advance (d : Z) (p : Progress) : Progress := mkProgress (handled p + d) (failed p) (total p) (final p).

Lemma lookup_drop_tree todo t p : drop_tree todo t !! p = if dropped todo p then None else t !! p.
Proof.
  unfold drop_tree. destruct (dropped todo p) eqn:E.
  - apply map_lookup_filter_None. right. simpl. intros ? _. congruence.
  - destruct (t !! p) as [e|] eqn:Et; [by apply map_lookup_filter_Some|]. apply map_lookup_filter_None. by left.
Qed.

Lemma drop_tree_snoc todo a t : drop_tree [a] (drop_tree todo t) = drop_tree (todo ++ [a]) t.
Proof.
  apply map_eq. intros p. rewrite !lookup_drop_tree. unfold dropped. rewrite existsb_app.
  by destruct (existsb _ todo), (existsb _ [a]).
Qed.

(** A loop that removes something below each of several paths, none of which
    is below another; [d] is how far each turn advances the progress. *)
Lemma for_each_drop (f : path → M world unit) (d : Z) todo w :
  NoDup todo → (∀ a b, a ∈ todo → b ∈ todo → length a = length b) →
  (∀ a p, drop a p = true → a `prefix_of` p) → 0 ≤ d →
  final (w_progress w) = false → handled (w_progress w) + d * Z.of_nat (length todo) ≤ total (w_progress w) →
  (∀ a w1, a ∈ todo → (∀ p, a `prefix_of` p → w_tree w1 !! p = w_tree w !! p) →
    final (w_progress w1) = false → handled (w_progress w1) + d ≤ total (w_progress w1) →
    f a w1 = (set_progress (advance d (w_progress w1)) (set_tree (drop_tree [a] (w_tree w1)) w1), Ok tt)) →
  for_each todo f w =
    (set_progress (advance (d * Z.of_nat (length todo)) (w_progress w)) (set_tree (drop_tree todo (w_tree w)) w), Ok tt).
Proof.
  intros Hnd Hlen Hdrop Hd Hfin Htot Hf.
  destruct (for_each_ind (λ pre w1, w1 = set_progress (advance (d * Z.of_nat (length pre)) (w_progress w))
    (set_tree (drop_tree pre (w_tree w)) w)) todo f w) as (w' & Hrun & ->); [| |done].
  - destruct w as [t [h fa to fi] sh c]. unfold set_progress, set_tree, advance. simpl. f_equal.
    + apply map_eq. intros p. by rewrite lookup_drop_tree.
    + f_equal. lia.
  - intros pre a post w1 Heq ->. eexists. split.
    + apply Hf; simpl.
      * rewrite Heq. set_solver.
      * intros p Hp. rewrite lookup_drop_tree. destruct (dropped pre p) eqn:E; [|done]. exfalso.
        apply existsb_exists in E as (b & Hb & Hbp). apply list_elem_of_In in Hb. apply Hdrop in Hbp.
        assert (a = b) as <-. { eapply prefix_same_length; [done..|]. apply Hlen; rewrite Heq; set_solver. }
        rewrite Heq in Hnd. apply NoDup_app in Hnd as (_ & Hn & _). apply (Hn a Hb). by left.
      * done.
      * assert (length todo = length pre + S (length post))%nat by (rewrite Heq, length_app; done). nia.
    + unfold set_progress, set_tree, advance. cbn [w_tree w_progress w_schema_hash w_commands handled failed total final].
      rewrite drop_tree_snoc, length_app. do 2 f_equal. cbn [length]. lia.
Qed.
End removing.

(** ** Patterns *)
Lemma star_match_literal s x : free_of "*"%char s = true → star_match s x = true ↔ x = s.
Proof.
  revert x. induction s as [|c s IH]; intros x; simpl; [by destruct x|].
  intros [Hc Hs]%andb_prop. apply negb_true_iff in Hc. rewrite Hc. destruct x as [|d x]; [done|].
  rewrite andb_true_iff, Ascii.eqb_eq, (IH x Hs). naive_solver.
Qed.

Lemma glob_match_cons pat pats p :
  glob_match (pat :: pats) p = true ↔ ∃ x r, p = x :: r ∧ star_match pat x = true ∧ glob_match pats r = true.
Proof. destruct p as [|x r]; simpl; [naive_solver|]. rewrite andb_true_iff. naive_solver. Qed.

Lemma glob_match_nil p : glob_match [] p = true ↔ p = [].
Proof. by destruct p. Qed.

Definition table_dir (ks tb : string) : path := ["data"; ks; tb].
Definition snapshot_dir (ks tb : string) : path := ["data"; ks; tb; "snapshots"; SNAPSHOT_NAME].

Lemma match_tables p : glob_match (glob_parts TABLES_GLOB) p = true ↔ ∃ ks tb, p = table_dir ks tb.
Proof.
  change (glob_parts TABLES_GLOB) with ["data"; "*"; "*"]. setoid_rewrite glob_match_cons. setoid_rewrite glob_match_cons.
  setoid_rewrite glob_match_cons. setoid_rewrite glob_match_nil. split.
  - intros (x & r & -> & ->%star_match_literal & ks & ? & -> & _ & tb & ? & -> & _ & ->); [by exists ks, tb|done].
  - intros (ks & tb & ->). unfold table_dir. eexists _, _. split; [done|]. split; [by apply star_match_literal|].
    eexists _, _. split; [done|]. split; [apply star_match_star|]. eexists _, _. split; [done|]. split; [apply star_match_star|done].
Qed.

Lemma match_snapshots p : glob_match (glob_parts SNAPSHOT_GLOB) p = true ↔ ∃ ks tb, p = snapshot_dir ks tb.
Proof.
  change (glob_parts SNAPSHOT_GLOB) with ["data"; "*"; "*"; "snapshots"; "astacus-backup"].
  setoid_rewrite glob_match_cons. setoid_rewrite glob_match_cons. setoid_rewrite glob_match_cons.
  setoid_rewrite glob_match_cons. setoid_rewrite glob_match_cons. setoid_rewrite glob_match_nil. split.
  - intros (x & r & -> & ->%star_match_literal & ks & ? & -> & _ & tb & ? & -> & _ & y & ? & -> & ->%star_match_literal
      & z & ? & -> & ->%star_match_literal & ->); [by exists ks, tb|done..].
  - intros (ks & tb & ->). unfold snapshot_dir. do 2 eexists. split; [done|]. split; [by apply star_match_literal|].
    do 2 eexists. split; [done|]. split; [apply star_match_star|]. do 2 eexists. split; [done|]. split; [apply star_match_star|].
    do 2 eexists. split; [done|]. split; [by apply star_match_literal|]. do 2 eexists. split; [done|].
    split; [by apply star_match_literal|done].
Qed.

Lemma match_any p : glob_match ["*"] p = true ↔ ∃ x, p = [x].
Proof.
  setoid_rewrite glob_match_cons. setoid_rewrite glob_match_nil. split; [naive_solver|].
  intros [x ->]. exists x, []. split; [done|]. split; [apply star_match_star|done].
Qed.

Section operations.
Context (listing : list path → list path) (listing_perm : ∀ l, listing l ≡ₚ l).

(** ** Removing snapshots and tables *)
Definition cleaned (t : tree) (w : world) (n : nat) : world :=
  let k := (1 + Z.of_nat n) in mkWorld t (mkProgress k 0 k true) (w_schema_hash w) (w_commands w).

Lemma clean_matching_drop pattern clean drop w :
  w_progress w = new_progress → (∀ a p, drop a p = true → a `prefix_of` p) →
  let todo := glob_paths listing [] (glob_parts pattern) (w_tree w) in
  (∀ a w1, a ∈ todo → (∀ p, a `prefix_of` p → w_tree w1 !! p = w_tree w !! p) →
    final (w_progress w1) = false → handled (w_progress w1) ≤ total (w_progress w1) →
    clean a w1 = (set_tree (drop_tree drop [a] (w_tree w1)) w1, Ok tt)) →
  clean_matching listing pattern clean w = (cleaned (drop_tree drop todo (w_tree w)) w (length todo), Ok tt).
Proof using listing_perm.
  intros Hp Hdrop todo Hclean. destruct w as [t pr sh cm]. simpl in Hp, Hclean, todo. subst pr.
  set (n := Z.of_nat (length todo)). unfold clean_matching.
  erewrite bind_ok by (unfold on_progress, zoom; simpl; reflexivity).
  erewrite bind_ok by (unfold glob; reflexivity).
  erewrite bind_ok by (unfold on_progress, zoom; simpl; reflexivity).
  assert (on_progress (Progress.add_total n) (mkWorld t (mkProgress 1 0 1 false) sh cm)
    = (mkWorld t (mkProgress 1 0 (1 + n) false) sh cm, Ok tt)) as Htot.
  { unfold on_progress, zoom, Progress.add_total. simpl. destruct (Z.eqb_spec n 0) as [->|?]; done. }
  rewrite (bind_ok _ _ _ _ _ Htot).
  pose proof (for_each_drop drop (λ a, clean a ;; on_progress (Progress.add_success 1)) 1 todo
    (mkWorld t (mkProgress 1 0 (1 + n) false) sh cm)) as Hloop. simpl in Hloop.
  erewrite bind_ok.
  2:{ apply Hloop; [by apply NoDup_glob| |done|done|done|lia|].
      { intros a b Ha Hb. by rewrite (glob_length listing listing_perm [] (glob_parts pattern) t a Ha),
          (glob_length listing listing_perm [] (glob_parts pattern) t b Hb). }
      intros a [t1 [h fa to fi] sh1 cm1] Ha Hag Hfin Hle. simpl in *.
      erewrite bind_ok by (apply Hclean; simpl; [done..|lia]). unfold on_progress, zoom, Progress.add_success, set_tree. simpl. subst fi.
      unfold mbind, M_bind. simpl. by rewrite (proj2 (Z.leb_le _ _)) by lia. }
  unfold on_progress, zoom, Progress.done, cleaned, set_tree, set_progress, advance. simpl.
  unfold mbind, M_bind. simpl. rewrite (proj2 (Z.leb_le _ _)) by lia. unfold M_bind. simpl. unfold put. do 3 f_equal; lia.
Qed.

Definition below (a p : path) : bool := bool_decide (a `prefix_of` p).

Lemma below_prefix a p : below a p = true → a `prefix_of` p.
Proof using Type. apply bool_decide_eq_true. Qed.

Lemma rmtree_below a w : w_tree w !! a = Some Dir → rmtree a w = (set_tree (drop_tree below [a] (w_tree w)) w, Ok tt).
Proof using Type.
  intros Ha. unfold rmtree. rewrite (bind_ok get _ _ _ _ eq_refl), Ha. unfold modify. do 2 f_equal.
  apply map_eq. intros p. rewrite lookup_remove, lookup_drop_tree. unfold dropped, below. simpl. rewrite orb_false_r.
  by case_bool_decide; case_decide.
Qed.

Lemma dropped_below todo p : dropped below todo p = true ↔ ∃ a, a ∈ todo ∧ a `prefix_of` p.
Proof using Type.
  unfold dropped. rewrite existsb_exists. setoid_rewrite <- list_elem_of_In. unfold below.
  by setoid_rewrite bool_decide_eq_true.
Qed.

(** What a path is in or below a snapshot of Cassandra. *)
Definition in_snapshot (p : path) : bool :=
  match p with
  | d :: _ :: _ :: s :: n :: _ => bool_decide (d = "data" ∧ s = "snapshots" ∧ n = SNAPSHOT_NAME)
  | _ => false
  end.

Lemma in_snapshot_spec p : in_snapshot p = true ↔ ∃ ks tb, snapshot_dir ks tb `prefix_of` p.
Proof using Type.
  split.
  - destruct p as [|d [|ks [|tb [|x [|n r]]]]]; simpl; try done. rewrite bool_decide_eq_true. intros (-> & -> & ->).
    exists ks, tb, r. done.
  - intros (ks & tb & r & ->). reflexivity.
Qed.

(** Removing snapshots removes the snapshots and all that is in them, and
    nothing else. *)
Theorem remove_snapshot_exact (w : world) :
  w_progress w = new_progress → well_formed (w_tree w) →
  (∀ ks tb contents, w_tree w !! snapshot_dir ks tb ≠ Some (File contents)) →
  ∃ w' n, remove_snapshot listing w = (w', Ok tt) ∧
    (∀ p, w_tree w' !! p = if in_snapshot p then None else w_tree w !! p) ∧
    w_progress w' = mkProgress n 0 n true ∧ w_commands w' = w_commands w.
Proof using listing_perm.
  intros Hp Hwf Hdir. eexists _, _. split.
  - unfold remove_snapshot. apply (clean_matching_drop _ _ below); [done|apply below_prefix|].
    intros a w1 (r & -> & (ks & tb & ->)%match_snapshots & He)%elem_of_glob Hag _ _; [|done]. apply rmtree_below.
    rewrite Hag by done. simpl in *. unfold snapshot_dir in *. destruct He as [[d|] He]; [|done]. by destruct (Hdir ks tb d).
  - split; [|done]. intros p. unfold cleaned. simpl. rewrite lookup_drop_tree.
    destruct (dropped below _ p) eqn:E; destruct (in_snapshot p) eqn:Es; try done.
    + apply dropped_below in E as (a & (r & -> & (ks & tb & ->)%match_snapshots & _)%elem_of_glob & Hpre); [|done].
      assert (in_snapshot p = true) by (apply in_snapshot_spec; eauto). congruence.
    + apply in_snapshot_spec in Es as (ks & tb & r & ->). destruct (w_tree w !! (snapshot_dir ks tb ++ r)) as [e|] eqn:Ep; [|done].
      assert (dropped below (glob_paths listing [] (glob_parts SNAPSHOT_GLOB) (w_tree w)) (snapshot_dir ks tb ++ r) = true)
        as Hd; [|congruence].
      apply dropped_below. exists (snapshot_dir ks tb). split; [|by exists r]. apply elem_of_glob; [done|].
      exists (snapshot_dir ks tb). split; [done|]. split; [apply match_snapshots; eauto|].
      destruct (decide (r = [])) as [->|Hr]; [rewrite app_nil_r in Ep; eauto|].
      destruct (decide (w_tree w !! snapshot_dir ks tb = Some Dir)) as [?|Hn]; [eauto|].
      by rewrite (nothing_below _ (snapshot_dir ks tb) r Hwf) in Ep.
Qed.

(** [unrestore_sstables]: of a table with a snapshot only what is in [snapshots] and
    [backups] stays, of a table without one nothing. *)
Definition unrestored (t : tree) (a p : path) : bool :=
  match strip a p with
  | None => false
  | Some r =>
      if decide (is_Some (t !! (a ++ ["snapshots"; SNAPSHOT_NAME]))) then
        match r with [] => false | x :: _ => bool_decide (x ∉ ["snapshots"; "backups"]) end
      else true
  end.
Definition other_child (p q : path) : bool := below p q && bool_decide (name p ∉ ["snapshots"; "backups"]).

Lemma unlink_below a w :
  is_Some (w_tree w !! a) → w_tree w !! a ≠ Some Dir → (∀ r, r ≠ [] → w_tree w !! (a ++ r) = None) →
  unlink true a w = (set_tree (drop_tree below [a] (w_tree w)) w, Ok tt).
Proof using Type.
  intros [[d|] Ha] Hn Hb; [|done]. unfold unlink. rewrite (bind_ok get _ _ _ _ eq_refl), Ha. unfold modify. do 2 f_equal.
  apply map_eq. intros p. rewrite lookup_drop_tree. unfold dropped, below. simpl. rewrite orb_false_r.
  case_bool_decide as Hp; [|rewrite lookup_delete_ne; [done|]; by intros ->].
  destruct Hp as [r ->]. destruct (decide (r = [])) as [->|Hr]; [by rewrite app_nil_r, lookup_delete_eq|].
  rewrite lookup_delete_ne; [by apply Hb|]. intros Heq. apply Hr. apply (f_equal length) in Heq. rewrite length_app in Heq.
  destruct r; simpl in Heq; [done|lia].
Qed.

Lemma drop_tree_ext drop1 drop2 l1 l2 t :
  (∀ p, is_Some (t !! p) → dropped drop1 l1 p = dropped drop2 l2 p) → drop_tree drop1 l1 t = drop_tree drop2 l2 t.
Proof using Type.
  intros H. apply map_eq. intros p. rewrite !lookup_drop_tree. destruct (t !! p) eqn:E; [|by destruct (dropped _ _ p), (dropped _ _ p)].
  rewrite H by eauto. done.
Qed.

Lemma elem_of_entries a t p : p ∈ glob_paths listing a ["*"] t ↔ ∃ c, p = a ++ [c] ∧ is_Some (t !! p).
Proof using listing_perm.
  rewrite (elem_of_glob _ listing_perm). setoid_rewrite match_any. split.
  - intros (r & -> & [x ->] & H). eauto.
  - intros (c & -> & H). eauto.
Qed.

Lemma exists_upto t p r : well_formed t → p ≠ [] → is_Some (t !! (p ++ r)) → is_Some (t !! p).
Proof using Type.
  intros Hwf Hp Hs. destruct (decide (r = [])) as [->|Hr]; [by rewrite app_nil_r in Hs|].
  destruct (decide (t !! p = Some Dir)) as [?|Hd]; [eauto|].
  rewrite (nothing_below _ _ _ Hwf Hp Hd Hr) in Hs. by destruct Hs.
Qed.

Lemma other_children t0 t a p :
  well_formed t0 → (∀ r, t !! (a ++ r) = t0 !! (a ++ r)) → is_Some (t0 !! (a ++ ["snapshots"; SNAPSHOT_NAME])) →
  is_Some (t !! p) →
  dropped other_child (glob_paths listing a ["*"] t) p = dropped (unrestored t0) [a] p.
Proof using listing_perm.
  intros Hwf Hag Hs Hp. apply eq_true_iff_eq. unfold dropped at 2. simpl. rewrite orb_false_r.
  unfold dropped. rewrite existsb_exists. setoid_rewrite <- list_elem_of_In. setoid_rewrite elem_of_entries.
  unfold other_child, unrestored. setoid_rewrite andb_true_iff. setoid_rewrite bool_decide_eq_true. split.
  - intros (q & (c & -> & Hq) & (r & ->) & Hc). rewrite name_snoc in Hc. rewrite <- app_assoc, strip_app.
    rewrite decide_True by done. by apply bool_decide_eq_true.
  - destruct (strip a p) as [r|] eqn:E; [|done]. apply strip_Some in E as ->. rewrite decide_True by done.
    destruct r as [|x r]; [done|]. rewrite bool_decide_eq_true. intros Hx. exists (a ++ [x]). split; [|split].
    + exists x. split; [done|]. rewrite Hag. apply (exists_upto _ _ r Hwf); [by destruct a|].
      rewrite <- app_assoc. simpl. by rewrite <- Hag.
    + exists r. by rewrite <- app_assoc.
    + by rewrite name_snoc.
Qed.

Lemma remove_sstables_drop t0 a w :
  well_formed t0 → a ≠ [] → is_Some (t0 !! a) → (∀ p, a `prefix_of` p → w_tree w !! p = t0 !! p) →
  final (w_progress w) = false → handled (w_progress w) ≤ total (w_progress w) →
  remove_sstables listing a w = (set_tree (drop_tree (unrestored t0) [a] (w_tree w)) w, Ok tt).
Proof using listing_perm.
  intros Hwf Hne Ha Hag Hfin Htot. unfold remove_sstables, is_dir, exists_.
  assert (∀ r, w_tree w !! (a ++ r) = t0 !! (a ++ r)) as Hag' by (intros r; apply Hag; by exists r).
  assert (w_tree w !! a = t0 !! a) as Haa by (by apply Hag).
  assert (∀ r, dropped below [a] (a ++ r) = true) as Hbelow.
  { intros r. unfold dropped, below. simpl. rewrite bool_decide_eq_true_2; [done|]. by exists r. }
  assert (∀ p, dropped (unrestored t0) [a] p = true → a `prefix_of` p) as Hun.
  { intros p. unfold dropped, unrestored. simpl. destruct (strip a p) eqn:E; [|done]. apply strip_Some in E as ->. by eexists. }
  rewrite (bind_ok _ _ w w (is_dir_at (w_tree w) a) eq_refl). unfold is_dir_at. rewrite Haa.
  destruct (decide (t0 !! a = Some Dir)) as [Hd|Hd].
  2:{ rewrite bool_decide_eq_false_2 by tauto. cbn [negb]. rewrite unlink_below.
      - do 2 f_equal. apply drop_tree_ext. intros p _. destruct (dropped (unrestored t0) [a] p) eqn:E.
        + apply Hun in E as [r ->]. apply Hbelow.
        + destruct (dropped below [a] p) eqn:Eb; [|done].
          apply dropped_below in Eb as (b & ->%list_elem_of_singleton & r & ->).
          unfold dropped, unrestored in E. simpl in E. rewrite strip_app in E.
          rewrite decide_False in E; [done|]. intros Hs. rewrite (nothing_below _ _ _ Hwf Hne Hd) in Hs; [|done]. by destruct Hs.
      - by rewrite Haa.
      - by rewrite Haa.
      - intros r Hr. rewrite Hag'. by apply nothing_below. }
  rewrite bool_decide_eq_true_2 by tauto. cbn [negb].
  rewrite (bind_ok _ _ w w (bool_decide (is_Some (w_tree w !! (a ++ ["snapshots"; SNAPSHOT_NAME])))) eq_refl). rewrite Hag'.
  case_bool_decide as Hs; cbn [negb].
  2:{ rewrite rmtree_below by congruence. do 2 f_equal. apply drop_tree_ext. intros p _.
      unfold dropped, unrestored, below. simpl. destruct (strip a p) as [r|] eqn:E.
      - apply strip_Some in E as ->. rewrite decide_False by done. rewrite bool_decide_eq_true_2; [done|]. by exists r.
      - apply strip_None in E. by rewrite bool_decide_eq_false_2. }
  rewrite (bind_ok _ _ w w (glob_paths listing a ["*"] (w_tree w)) eq_refl).
  rewrite (for_each_drop other_child _ 0); [| | | |lia|done|lia|].
  - unfold set_tree, set_progress, advance. destruct w as [t [h fa to fi] sh c]. simpl in *. do 2 f_equal.
    + apply drop_tree_ext. intros p Hp. by apply other_children.
    + f_equal. lia.
  - by apply NoDup_glob.
  - intros b c Hb Hc. by rewrite (glob_length _ listing_perm _ _ _ _ Hb), (glob_length _ listing_perm _ _ _ _ Hc).
  - intros b p [Hb _]%andb_prop. by apply below_prefix.
  - intros b w1 (c & -> & Hb)%elem_of_entries Hag1 _ _. rewrite name_snoc. clear Hfin Htot.
    assert (advance 0 (w_progress w1) = w_progress w1) as Hadv.
    { unfold advance. destruct (w_progress w1); simpl. f_equal. lia. }
    assert (∀ t, set_progress (w_progress w1) (set_tree t w1) = set_tree t w1) as Hset by done.
    rewrite Hadv, Hset. case_decide as Hc.
    + destruct w1 as [t1 p1 sh1 c1]. unfold set_tree, mret, M_ret. simpl. do 2 f_equal. apply map_eq. intros p.
      rewrite lookup_drop_tree. unfold dropped, other_child. simpl. rewrite name_snoc.
      rewrite (bool_decide_eq_false_2 (c ∉ _)) by (intros Hn; by apply Hn). by rewrite andb_false_r.
    + assert (∀ t, drop_tree other_child [a ++ [c]] t = drop_tree below [a ++ [c]] t) as Hdt.
      { intros t. apply drop_tree_ext. intros p _. unfold dropped, other_child. simpl. rewrite name_snoc.
        rewrite (bool_decide_eq_true_2 (c ∉ _)) by done. by rewrite andb_true_r. }
      rewrite Hdt. rewrite (bind_ok _ _ w1 w1 (is_dir_at (w_tree w1) (a ++ [c])) eq_refl).
      assert (w_tree w1 !! (a ++ [c]) = w_tree w !! (a ++ [c])) as Hac by (by apply Hag1).
      unfold is_dir_at. destruct (decide (w_tree w1 !! (a ++ [c]) = Some Dir)) as [Hcd|Hcd].
      * rewrite bool_decide_eq_true_2 by tauto. by apply rmtree_below.
      * rewrite bool_decide_eq_false_2 by (intros [H|H]; [by destruct a|done]). apply unlink_below; [by rewrite Hac|done|].
        intros r Hr. rewrite Hag1 by (by eexists). rewrite <- app_assoc, Hag'. rewrite app_assoc.
        apply nothing_below; [done|by destruct a| |done]. rewrite <- Hag'. by rewrite <- Hac.
Qed.

(** Exactly what stays after [unrestore_sstables]. *)
Definition stays (t : tree) (p : path) : bool :=
  match p with
  | d :: ks :: tb :: r =>
      if decide (d = "data") then
        bool_decide (is_Some (t !! snapshot_dir ks tb)) &&
        match r with [] => true | x :: _ => bool_decide (x ∈ ["snapshots"; "backups"]) end
      else true
  | _ => true
  end.

(** After [unrestore_sstables] exactly this is left: outside of the tables
    everything, of a table with a snapshot its directories [snapshots] and
    [backups], of another table nothing. *)
Theorem unrestore_exact (w : world) :
  w_progress w = new_progress → well_formed (w_tree w) →
  ∃ w' n, unrestore_sstables listing w = (w', Ok tt) ∧
    (∀ p, w_tree w' !! p = if stays (w_tree w) p then w_tree w !! p else None) ∧
    w_progress w' = mkProgress n 0 n true ∧ w_commands w' = w_commands w.
Proof using listing_perm.
  intros Hp Hwf. eexists _, _. split.
  - unfold unrestore_sstables. apply (clean_matching_drop _ _ (unrestored (w_tree w))); [done| |].
    + intros a p. unfold unrestored. destruct (strip a p) eqn:E; [|done]. apply strip_Some in E as ->. by eexists.
    + intros a w1 (r & -> & (ks & tb & ->)%match_tables & He)%elem_of_glob Hag Hfin Hle; [|done].
      by apply remove_sstables_drop.
  - split; [|done]. intros p. unfold cleaned. simpl. rewrite lookup_drop_tree.
    destruct (w_tree w !! p) as [e|] eqn:Ep; [|by destruct (dropped _ _ p), (stays _ p)].
    assert (dropped (unrestored (w_tree w)) (glob_paths listing [] (glob_parts TABLES_GLOB) (w_tree w)) p
      = negb (stays (w_tree w) p)) as ->; [|by destruct (stays _ p)].
    apply eq_true_iff_eq. unfold dropped. rewrite existsb_exists. setoid_rewrite <- list_elem_of_In.
    setoid_rewrite (elem_of_glob _ listing_perm). setoid_rewrite match_tables. rewrite negb_true_iff. split.
    + intros (a & (r & -> & (ks & tb & ->) & _) & Hun). simpl in Hun. unfold unrestored in Hun.
      destruct (strip (table_dir ks tb) p) as [r|] eqn:E; [|done]. apply strip_Some in E as ->. simpl.
      change (table_dir ks tb ++ ["snapshots"; SNAPSHOT_NAME]) with (snapshot_dir ks tb) in Hun.
      case_decide as Hs; [|by rewrite bool_decide_eq_false_2]. rewrite bool_decide_eq_true_2 by done.
      destruct r as [|x r]; [done|]. apply bool_decide_eq_true in Hun. by rewrite bool_decide_eq_false_2.
    + intros Hst. destruct p as [|d [|ks [|tb r]]]; simpl in Hst; try done. case_decide as Hd; [|done]. subst d.
      change ("data" :: ks :: tb :: r) with (table_dir ks tb ++ r) in Ep |- *.
      exists (table_dir ks tb). split.
      * exists (table_dir ks tb). split; [done|]. split; [eauto|]. eapply exists_upto; [done..|]. eauto.
      * unfold unrestored. rewrite strip_app. change (table_dir ks tb ++ ["snapshots"; SNAPSHOT_NAME]) with (snapshot_dir ks tb).
        case_decide as Hs; [|done]. rewrite bool_decide_eq_true_2 in Hst by done. destruct r as [|x r]; [done|].
        simpl in Hst. apply bool_decide_eq_false in Hst. by apply bool_decide_eq_true.
Qed.

(** ** Moving snapshots into place *)
Lemma has_children_spec p t : has_children p t = true ↔ ∃ r, r ≠ [] ∧ is_Some (t !! (p ++ r)).
Proof using Type.
  unfold has_children. rewrite existsb_exists. setoid_rewrite <- list_elem_of_In. setoid_rewrite elem_of_elements.
  setoid_rewrite (elem_of_dom (D:=gset path)). setoid_rewrite bool_decide_eq_true. split.
  - intros (q & Hq & (r & ->) & Hne). exists r. split; [|done]. intros ->. by rewrite app_nil_r in Hne.
  - intros (r & Hr & Hs). exists (p ++ r). split; [done|]. split; [by exists r|].
    intros Heq. apply Hr. apply (f_equal length) in Heq. rewrite length_app in Heq. destruct r; simpl in Heq; [done|lia].
Qed.

Lemma proper_prefix_dir t p r : well_formed t → p ≠ [] → r ≠ [] → is_Some (t !! (p ++ r)) → t !! p = Some Dir.
Proof using Type.
  intros Hwf Hp Hr Hs. destruct (decide (t !! p = Some Dir)) as [?|Hd]; [done|].
  rewrite (nothing_below _ _ _ Hwf Hp Hd Hr) in Hs. by destruct Hs.
Qed.

Lemma dir_not_in_file t src r :
  well_formed t → src ≠ [] → r ≠ [] → is_Some (t !! src) → t !! src ≠ Some Dir → is_dir_at t (parent (src ++ r)) = true → False.
Proof using Type.
  intros Hwf Hs Hr Hsome Hn Hp. destruct r as [|c r] using rev_ind; [done|]. rewrite app_assoc, parent_snoc in Hp.
  apply bool_decide_eq_true in Hp as [Hp|Hp]; [by destruct src|].
  destruct (decide (r = [])) as [->|Hr']; [by rewrite app_nil_r in Hp|]. by rewrite nothing_below in Hp.
Qed.

(** What [rename] does: nothing, or the move, to where nothing is in the way
    but a file when a file is moved. *)
Lemma rename_cases src dst w :
  well_formed (w_tree w) → src ≠ [] → dst ≠ [] →
  w_tree (fst (rename src dst w)) = w_tree w ∨
  free_for src dst (w_tree w) ∧ is_dir_at (w_tree w) (parent dst) = true ∧ is_Some (w_tree w !! src) ∧
  (is_file_at (w_tree w) dst = true → is_file_at (w_tree w) src = true) ∧
  w_tree (fst (rename src dst w)) = move src dst (w_tree w).
Proof using Type.
  intros Hwf Hs Hd. unfold rename. rewrite (bind_ok get _ _ _ _ eq_refl).
  destruct (w_tree w !! src) as [e|] eqn:Es; [|by left]. case_decide as Hne; [by left|].
  destruct (is_dir_at (w_tree w) (parent dst)) eqn:Ep; [cbn [negb]|left; by case_decide].
  assert (∀ r, src = dst ++ r → r ≠ []) as Hr by (intros r -> ->; by rewrite app_nil_r in Hne).
  assert (∀ r, dst = src ++ r → r ≠ []) as Hr' by (intros r -> ->; by rewrite app_nil_r in Hne).
  destruct e as [d|].
  - assert (w_tree w !! dst ≠ Some Dir → free_for src dst (w_tree w)) as Hfree.
    { intros Hnd. split; [intros r Hn; by apply nothing_below|]. split; intros [r Heq].
      - rewrite Heq in Ep. eapply (dir_not_in_file _ src r Hwf Hs (Hr' r Heq)); [eauto|congruence|done].
      - rewrite Heq, nothing_below in Es; [done|done|done|done|by apply Hr]. }
    assert (is_file_at (w_tree w) src = true) as Hf by (unfold is_file_at; by rewrite Es).
    destruct (w_tree w !! dst) as [[d'|]|]; [right|by left|right]; 
      (split; [by apply Hfree|]; split; [done|]; split; [by eexists|]; split; [by intros _|reflexivity]).
  - assert (is_file_at (w_tree w) dst = false → has_children dst (w_tree w) = false → ¬ src `prefix_of` dst →
      free_for src dst (w_tree w)) as Hfree.
    { intros _ Hc Hp. assert (∀ r, r ≠ [] → w_tree w !! (dst ++ r) = None) as Hb.
      { intros r Hn. apply eq_None_not_Some. intros Hx. assert (has_children dst (w_tree w) = true); [|congruence].
        apply has_children_spec. eauto. }
      split; [done|]. split; [done|]. intros [r Heq]. rewrite Heq, Hb in Es; [done|]. by apply Hr. }
    destruct (w_tree w !! dst) as [[d'|]|] eqn:Ed; [by left| |];
      (case_decide as Hp; [by left|]; destruct (has_children dst (w_tree w)) eqn:Ec; [by left|right]);
      (assert (is_file_at (w_tree w) dst = false) as Hnf by (unfold is_file_at; by rewrite Ed));
      (split; [by apply Hfree|]; split; [done|]; split; [by eexists|]; split; [by rewrite Hnf|reflexivity]).
Qed.

(** The move of a child of a snapshot to where nothing is. *)
Lemma rename_into src dst w :
  well_formed (w_tree w) → src ≠ [] → dst ≠ [] → is_Some (w_tree w !! src) → w_tree w !! dst = None →
  is_dir_at (w_tree w) (parent dst) = true → ¬ src `prefix_of` dst → ¬ dst `prefix_of` src →
  rename src dst w = (set_tree (move src dst (w_tree w)) w, Ok tt).
Proof using Type.
  intros Hwf Hs Hd [e Es] Ed Ep Hsd Hds. unfold rename. rewrite (bind_ok get _ _ _ _ eq_refl), Es.
  rewrite decide_False by (intros ->; by apply Hsd). rewrite Ep, Ed. cbn [negb]. destruct e; [done|].
  rewrite decide_False by done. destruct (has_children dst (w_tree w)) eqn:Ec; [|done].
  apply has_children_spec in Ec as (r & Hr & Hx). rewrite nothing_below in Hx by (done || congruence). by destruct Hx.
Qed.

Lemma move_well_formed src dst t :
  well_formed t → src ≠ [] → dst ≠ [] → free_for src dst t → is_dir_at t (parent dst) = true → well_formed (move src dst t).
Proof using Type.
  intros Hwf Hs Hd Hf Hp p c e. pose proof Hf as (_ & Hsd & Hds). rewrite (lookup_move _ _ _ _ Hf).
  destruct (strip dst (p ++ [c])) as [r|] eqn:E.
  - apply strip_Some in E. destruct r as [|c' r _] using rev_ind.
    + rewrite app_nil_r in E. subst dst. rewrite parent_snoc in Hp. apply bool_decide_eq_true in Hp as [->|Hp]; [by left|].
      intros _. right. rewrite (lookup_move _ _ _ _ Hf).
      rewrite (proj2 (strip_None _ _)) by (intros [r Heq%(f_equal length)]; rewrite !length_app in Heq; simpl in Heq; lia).
      rewrite decide_False; [done|]. intros [r ->]. apply Hsd. exists (r ++ [c]). by rewrite app_assoc.
    + rewrite app_assoc in E. apply app_inj_tail in E as [-> <-]. intros He. right. rewrite (lookup_move _ _ _ _ Hf), strip_app.
      rewrite app_assoc in He. destruct (Hwf _ _ _ He) as [H|H]; [by destruct src|done].
  - case_decide as Hpre; [done|]. intros He. destruct (Hwf _ _ _ He) as [->|Hdir]; [by left|]. right.
    apply strip_None in E. rewrite (lookup_move _ _ _ _ Hf).
    rewrite (proj2 (strip_None _ _)) by (intros [r ->]; apply E; exists (r ++ [c]); by rewrite app_assoc).
    rewrite decide_False; [done|]. intros [r ->]. apply Hpre. exists (r ++ [c]). by rewrite app_assoc.
Qed.

(** ** No file is lost

    The files of [system_auth] are exempt: Cassandra creates them when it
    starts, and they are deleted. *)
Definition exempt (p : path) : Prop := ["data"; "system_auth"] `prefix_of` p.

(** Every file is somewhere, with its contents, and no two are the same. *)
Definition kept (t t' : tree) : Prop :=
  ∃ f : path → path,
    (∀ p d, ¬ exempt p → t !! p = Some (File d) → ¬ exempt (f p) ∧ t' !! f p = Some (File d)) ∧
    (∀ p q, ¬ exempt p → ¬ exempt q → is_file_at t p = true → is_file_at t q = true → f p = f q → p = q).

Lemma is_file_at_true t p : is_file_at t p = true ↔ ∃ d, t !! p = Some (File d).
Proof using Type. unfold is_file_at. destruct (t !! p) as [[d|]|]; naive_solver. Qed.

Lemma kept_same t t' : (∀ p d, ¬ exempt p → t !! p = Some (File d) → t' !! p = Some (File d)) → kept t t'.
Proof using Type. intros H. exists id. split; [by auto|done]. Qed.

#[local] Instance kept_preorder : PreOrder kept.
Proof using Type.
  split; [by intros t; apply kept_same|]. intros t1 t2 t3 (f & Hf & Hi) (g & Hg & Hj). exists (g ∘ f). split.
  - intros p d Hp Hd. destruct (Hf p d Hp Hd). by apply Hg.
  - intros p q Hp Hq [d Hd]%is_file_at_true [e He]%is_file_at_true Heq.
    destruct (Hf p d Hp Hd) as [H1 H2]. destruct (Hf q e Hq He) as [H3 H4].
    apply Hi; [done|done|apply is_file_at_true; eauto..|]. apply Hj; [done|done|apply is_file_at_true; eauto..|done].
Qed.

Lemma exempt_cons ks r : exempt ("data" :: ks :: r) ↔ ks = "system_auth".
Proof using Type.
  split; [by intros [k [= ->]]|]. intros ->. by exists r.
Qed.

Lemma move_kept ks s d t :
  let src := "data" :: ks :: s in let dst := "data" :: ks :: d in
  free_for src dst t → ks = "system_auth" ∨ is_file_at t dst = false → kept t (move src dst t).
Proof using Type.
  intros src dst Hf Hdst. destruct (decide (ks = "system_auth")) as [->|Hks].
  - apply kept_same. intros p e Hp He. rewrite (lookup_move _ _ _ _ Hf).
    assert (∀ r, ¬ ("data" :: "system_auth" :: r) `prefix_of` p) as Hno.
    { intros r [k ->]. apply Hp. by apply exempt_cons. }
    rewrite (proj2 (strip_None _ _)) by apply Hno. by rewrite decide_False by apply Hno.
  - destruct Hdst as [?|Hdst]; [done|].
    assert (∀ p, is_file_at t p = true → is_Some (delete dst t !! p)) as Hdel.
    { intros p [e He]%is_file_at_true. exists (File e). apply lookup_delete_Some. split; [|done]. intros <-.
      unfold is_file_at in Hdst. by rewrite He in Hdst. }
    exists (relocate src dst). split.
    + intros p e Hp He. destruct (Hdel p) as [? [Hne _]%lookup_delete_Some]; [apply is_file_at_true; eauto|].
      rewrite (lookup_move _ _ _ _ Hf). unfold relocate. destruct (strip src p) as [r|] eqn:E.
      * apply strip_Some in E as ->. rewrite strip_app. split; [|done]. unfold dst. simpl. by rewrite exempt_cons.
      * apply strip_None in E. split; [done|]. destruct (strip dst p) as [r|] eqn:Ed; [|by rewrite decide_False].
        apply strip_Some in Ed as ->. destruct Hf as [Hfree _]. rewrite Hfree in He; [done|]. intros ->. by rewrite app_nil_r in Hne.
    + intros p q _ _ Hp Hq. eapply relocate_inj; eauto.
Qed.

(** A procedure that keeps the files, whatever its outcome. *)
Definition safe {A} (m : M world A) (w : world) : Prop :=
  well_formed (w_tree w) → well_formed (w_tree (fst (m w))) ∧ kept (w_tree w) (w_tree (fst (m w))).

Lemma safe_same {A} (m : M world A) w : w_tree (fst (m w)) = w_tree w → safe m w.
Proof using Type. intros H Hwf. rewrite H. split; [done|reflexivity]. Qed.

Lemma safe_bind {A B} (m : M world A) (f : A → M world B) w :
  safe m w → (∀ a w', well_formed (w_tree w) → m w = (w', Ok a) → safe (f a) w') → safe (m ≫= f) w.
Proof using Type.
  intros Hm Hf Hwf. destruct (Hm Hwf) as [H1 H2]. unfold mbind, M_bind. destruct (m w) as [w' [a|e]] eqn:E; [|done].
  simpl in *. destruct (Hf a w' Hwf eq_refl H1). split; [done|]. by etrans.
Qed.

Lemma safe_for_each {A} (l : list A) (f : A → M world unit) w : (∀ a w', a ∈ l → safe (f a) w') → safe (for_each l f) w.
Proof using Type.
  revert w. induction l as [|a l IH]; intros w Hf; [by apply safe_same|]. cbn [for_each].
  apply safe_bind; [apply Hf; by left|]. intros [] w' _ _. apply IH. intros b w2 Hb. apply Hf. by right.
Qed.

Lemma safe_progress (m : M Progress unit) w : safe (on_progress m) w.
Proof using Type. apply safe_same. unfold on_progress, zoom. by destruct (m (w_progress w)). Qed.

Lemma safe_rename_all ks s d cs w :
  NoDup cs → (ks = "system_auth" ∨ ∀ c, c ∈ cs → is_file_at (w_tree w) ("data" :: ks :: d ++ [c]) = false) →
  safe (for_each ((λ c, "data" :: ks :: s ++ [c]) <$> cs) (λ p, rename p (("data" :: ks :: d) ++ [name p]))) w.
Proof using Type.
  revert w. induction cs as [|c cs IH]; intros w Hnd Hfree; [by apply safe_same|]. csimpl. cbn [for_each].
  apply NoDup_cons in Hnd as [Hc Hnd].
  assert (name ("data" :: ks :: s ++ [c]) = c) as -> by (apply (name_snoc ("data" :: ks :: s))).
  set (src := "data" :: ks :: s ++ [c]). set (dst := "data" :: ks :: d ++ [c]).
  apply safe_bind.
  - intros Hwf. destruct (rename_cases src dst w Hwf ltac:(done) ltac:(done)) as [->|(Hf & Hp & _ & _ & ->)]; [split; [done|reflexivity]|].
    split; [by apply move_well_formed|]. apply move_kept; [done|]. destruct Hfree as [?|Hfree]; [by left|right]. apply Hfree. by left.
  - intros [] w' Hwf Hrun. apply IH; [done|]. destruct Hfree as [?|Hfree]; [by left|right]. intros c' Hc'.
    pose proof (f_equal (λ x, w_tree (fst x)) Hrun) as Ht. cbn [fst] in Ht.
    destruct (rename_cases src dst w Hwf ltac:(done) ltac:(done)) as [Hsame|(Hf & _ & _ & _ & Hmove)].
    + rewrite <- Ht, Hsame. apply Hfree. by right.
    + rewrite <- Ht, Hmove. unfold is_file_at. rewrite (lookup_move _ _ _ _ Hf).
      assert (¬ dst `prefix_of` ("data" :: ks :: d ++ [c'])) as Hno.
      { intros Hpre%prefix_length_eq; [|unfold dst; simpl; rewrite !length_app; simpl; lia].
        unfold dst in Hpre. injection Hpre as Hcc%app_inj_tail. destruct Hcc as [_ ->]. done. }
      rewrite (proj2 (strip_None _ _)) by done. case_decide; [done|]. apply Hfree. by right.
Qed.

(** [ensure_target_is_empty] *)
Lemma safe_unlink_exempt missing_ok p w : exempt p → safe (unlink missing_ok p) w.
Proof using Type.
  intros Hp Hwf. unfold unlink. rewrite (bind_ok get _ _ _ _ eq_refl).
  destruct (w_tree w !! p) as [[d|]|] eqn:E; [|by split|by destruct missing_ok]. simpl. split.
  - intros q c e [Hne He]%lookup_delete_Some. destruct (Hwf _ _ _ He) as [->|Hd]; [by left|right].
    rewrite lookup_delete_ne; [done|]. intros <-. congruence.
  - apply kept_same. intros q e Hq He. rewrite lookup_delete_ne; [done|]. by intros <-.
Qed.

Lemma safe_ensure ks tb w : safe (ensure_target_is_empty listing ks ["data"; ks; tb]) w.
Proof using listing_perm.
  unfold ensure_target_is_empty. apply safe_bind; [by apply safe_same|]. intros w0 w' _ _. case_decide as Hks.
  - apply safe_for_each. intros p w2 [_ (c & -> & _)%elem_of_entries]%list_elem_of_filter. apply safe_unlink_exempt.
    rewrite Hks. by apply exempt_cons.
  - case_decide; by apply safe_same.
Qed.

Lemma ensure_ok ks tb w w' :
  ensure_target_is_empty listing ks ["data"; ks; tb] w = (w', Ok tt) →
  ks = "system_auth" ∨ w' = w ∧ ∀ c, is_file_at (w_tree w) ["data"; ks; tb; c] = false.
Proof using listing_perm.
  unfold ensure_target_is_empty. rewrite (bind_ok get _ _ _ _ eq_refl). case_decide as Hks; [by left|].
  case_decide as He; [|done]. intros [= <-]. right. split; [done|]. intros c.
  destruct (is_file_at (w_tree w) ["data"; ks; tb; c]) eqn:E; [|done]. exfalso.
  apply (not_elem_of_nil ["data"; ks; tb; c]). rewrite <- He. apply list_elem_of_filter. split; [done|].
  apply elem_of_entries. exists c. split; [done|]. apply is_file_at_true in E as [d Hd]. eauto.
Qed.

Lemma match_by_name_ok ks tb w w' p :
  match_table_by_name listing ks tb w = (w', Ok p) → w' = w ∧ ∃ tb', p = ["data"; ks; tb'].
Proof using listing_perm.
  unfold match_table_by_name. destruct (rev (split_on "-"%char tb)) as [|x [|y l]]; [done..|].
  unfold glob. set (pat := _ +:+ "-*"). set (paths := glob_paths listing ["data"; ks] [pat] (w_tree w)).
  rewrite (bind_ok _ _ w w paths eq_refl). case_decide; [done|].
  assert (∀ p, p ∈ paths → ∃ tb', p = ["data"; ks; tb']) as Hp.
  { intros q (r & -> & Hr%glob_match_length & _)%elem_of_glob; [|done]. destruct r as [|t [|? ?]]; [done| |done]. by exists t. }
  case_decide.
  - destruct (filter _ paths) as [|q [|? ?]] eqn:E; [done| |done]. intros [= <- <-]. split; [done|]. apply Hp.
    assert (q ∈ filter (λ p, name p ≠ tb) paths) as [_ Hq]%list_elem_of_filter by (rewrite E; by left). done.
  - destruct paths as [|q [|? ?]] eqn:E; [done| |done]. intros [= <- <-]. split; [done|]. apply Hp. by left.
Qed.

Lemma safe_restore_table skip by_ ts w : safe (restore_table listing skip by_ true ts) w.
Proof using listing_perm.
  unfold restore_table. destruct (strip ["data"] ts) as [[|ks [|tb r]]|] eqn:E; [by apply safe_same..| |by apply safe_same].
  apply strip_Some in E as ->. case_decide; [apply safe_progress|].
  set (m := match by_ with cfid => _ | cfname => _ end).
  assert (∀ w' p, m w = (w', Ok p) → w' = w ∧ ∃ tb', p = ["data"; ks; tb']) as Hm.
  { intros w' p. unfold m. destruct by_; [intros [= <- <-]; eauto|apply match_by_name_ok]. }
  apply safe_bind.
  { apply safe_same. unfold m. destruct by_; [done|]. unfold match_table_by_name.
    destruct (rev _) as [|x [|y l]]; [done..|]. unfold glob. rewrite (bind_ok _ _ w w _ eq_refl). case_decide; [done|].
    by destruct (if decide _ then _ else _) as [|? [|? ?]]. }
  intros p w' _ [-> (tb' & ->)]%Hm. apply safe_bind; [apply safe_ensure|]. intros [] w1 _ Hens.
  apply safe_bind; [by apply safe_same|]. intros ps w2 _ [= <- <-]. apply safe_bind; [|intros; apply safe_progress].
  assert (∃ cs, glob_paths listing ("data" :: ks :: tb :: r) ["*"] (w_tree w1) = (λ c, "data" :: ks :: (tb :: r) ++ [c]) <$> cs)
    as [cs Hcs].
  { assert (∀ l : list path, (∀ p, p ∈ l → ∃ c, p = "data" :: ks :: (tb :: r) ++ [c]) →
      ∃ cs, l = (λ c, "data" :: ks :: (tb :: r) ++ [c]) <$> cs) as Hl.
    { intros l. induction l as [|q l IH]; intros Hq; [by exists []|]. destruct (Hq q) as [c ->]; [by left|].
      destruct IH as [cs ->]; [intros; apply Hq; by right|]. by exists (c :: cs). }
    apply Hl. intros q (c & -> & _)%elem_of_entries. by exists c. }
  rewrite Hcs. apply (safe_rename_all ks (tb :: r) [tb']).
  - eapply NoDup_fmap_1. rewrite <- Hcs. by apply NoDup_glob.
  - apply ensure_ok in Hens as [->|[-> Hno]]; [by left|right]. intros c _. apply Hno.
Qed.

(** C21: With [expect_empty_target], restoring loses no file outside of
    [system_auth], whatever the pattern, the matching of tables and the order
    of listings, and also when it fails: every file is somewhere, with its
    contents. *)
Theorem restore_loses_nothing glob_ skip by_ (w : world) :
  well_formed (w_tree w) →
  kept (w_tree w) (w_tree (fst (restore_sstables listing (CassandraRestoreSSTablesRequest glob_ skip by_ true) w))).
Proof using listing_perm.
  intros Hwf. revert w Hwf. assert (∀ w, safe (restore_sstables listing (CassandraRestoreSSTablesRequest glob_ skip by_ true)) w) as H.
  2:{ intros w Hwf. by apply H. }
  intros w. unfold restore_sstables. apply safe_bind; [by apply safe_same|]. intros ts w1 _ [= <- <-].
  apply safe_bind; [apply safe_progress|]. intros [] w2 _ _. apply safe_bind; [|intros; apply safe_progress].
  apply safe_for_each. intros t w3 _. apply safe_restore_table.
Qed.

(** ** What is restored *)

(** What is at [p] once the children of snapshots in [moved] are in their table. *)
Definition placed (moved : string → string → string → bool) (t : tree) (p : path) : option entry :=
  match p with
  | d :: ks :: tb :: c :: r =>
      if decide (d = "data") then
        if moved ks tb c then t !! (snapshot_dir ks tb ++ c :: r)
        else if decide (c = "snapshots") then
          match r with
          | n :: c' :: _ => if bool_decide (n = SNAPSHOT_NAME) && moved ks tb c' then None else t !! p
          | _ => t !! p
          end
        else t !! p
      else t !! p
  | _ => t !! p
  end.

Section placing.
Context (t : tree) (Hwf : well_formed t).

(** The children of snapshots that can be moved. *)
Definition placeable (ks tb c : string) : Prop :=
  is_Some (t !! (snapshot_dir ks tb ++ [c])) ∧ t !! (table_dir ks tb ++ [c]) = None.
Definition sound (moved : string → string → string → bool) : Prop := ∀ ks tb c, moved ks tb c = true → placeable ks tb c.

Lemma placeable_not_snapshots ks tb c : placeable ks tb c → c ≠ "snapshots".
Proof using Hwf.
  intros [Hs Hn] ->. assert (t !! (table_dir ks tb ++ ["snapshots"]) = Some Dir); [|congruence].
  by apply (proper_prefix_dir t _ [SNAPSHOT_NAME; "snapshots"]).
Qed.

Lemma placed_table moved ks tb : placed moved t (table_dir ks tb) = t !! table_dir ks tb.
Proof using Type. done. Qed.

Definition add_moved (moved : string → string → string → bool) (ks tb c : string) (ks' tb' c' : string) : bool :=
  moved ks' tb' c' || bool_decide (ks' = ks ∧ tb' = tb ∧ c' = c).

Lemma sound_add moved ks tb c : sound moved → placeable ks tb c → sound (add_moved moved ks tb c).
Proof using Type.
  intros Hs Hp ks' tb' c'. unfold add_moved. rewrite orb_true_iff, bool_decide_eq_true. intros [H|(-> & -> & ->)]; auto.
Qed.

(** One more child is moved. *)
Lemma placed_move moved ks tb c u p :
  sound moved → placeable ks tb c → moved ks tb c = false → (∀ p, u !! p = placed moved t p) →
  let src := snapshot_dir ks tb ++ [c] in let dst := table_dir ks tb ++ [c] in
  free_for src dst u → move src dst u !! p = placed (add_moved moved ks tb c) t p.
Proof using Hwf.
  intros Hs Hp Hm Hu src dst Hf. rewrite (lookup_move _ _ _ _ Hf). pose proof (placeable_not_snapshots _ _ _ Hp) as Hc.
  assert (∀ ks tb, moved ks tb "snapshots" = false) as Hms.
  { intros k b. destruct (moved k b "snapshots") eqn:E; [|done]. by apply Hs, placeable_not_snapshots in E. }
  destruct (strip dst p) as [r|] eqn:Ed.
  - apply strip_Some in Ed as ->. rewrite Hu. simpl. unfold add_moved at 1. rewrite bool_decide_eq_true_2 by done.
    by rewrite orb_true_r, Hms, Hm.
  - apply strip_None in Ed. destruct p as [|d [|k [|b [|x r]]]]; try (rewrite decide_False; [apply Hu|]; intros [z Hz]; discriminate).
    simpl. destruct (decide (d = "data")) as [->|Hd].
    2:{ rewrite decide_False by (by intros [z [= ? _]]). rewrite Hu. simpl. by rewrite decide_False. }
    assert (add_moved moved ks tb c k b x = moved k b x) as Hsame.
    { unfold add_moved. rewrite bool_decide_eq_false_2; [by rewrite orb_false_r|]. intros (-> & -> & ->). apply Ed. by exists r. }
    rewrite Hsame. assert (u !! ("data" :: k :: b :: x :: r) = placed moved t ("data" :: k :: b :: x :: r)) as Hux by apply Hu.
    simpl in Hux. destruct (decide (x = "snapshots")) as [->|Hx].
    2:{ rewrite decide_False by (intros [z [= _ _ ? _]]; congruence). done. }
    rewrite Hms in Hux |- *. destruct r as [|n [|y r]]; [by rewrite decide_False by (by intros [z ?])..|].
    unfold add_moved. destruct (decide (src `prefix_of` _)) as [[z [= <- <- <- <- ->]]|Hno].
    + rewrite bool_decide_eq_true_2 by done. rewrite bool_decide_eq_true_2 by done. by rewrite orb_true_r.
    + destruct (decide (n = SNAPSHOT_NAME ∧ k = ks ∧ b = tb ∧ y = c)) as [(-> & -> & -> & ->)|Hn]; [by destruct Hno; exists r|].
      rewrite Hux. destruct (decide (n = SNAPSHOT_NAME)) as [->|?]; [|by rewrite bool_decide_eq_false_2].
      rewrite (bool_decide_eq_false_2 (k = ks ∧ _)) by tauto. by rewrite orb_false_r.
Qed.

Lemma placed_frame (moved : string → string → string → bool) (u : tree) ks tb c :
  sound moved → placeable ks tb c → moved ks tb c = false → (∀ p, u !! p = placed moved t p) →
  is_Some (u !! (snapshot_dir ks tb ++ [c])) ∧ (∀ r, u !! (table_dir ks tb ++ c :: r) = None) ∧ u !! table_dir ks tb = Some Dir.
Proof using Hwf.
  intros Hs Hp Hm Hu. pose proof (placeable_not_snapshots _ _ _ Hp) as Hc. destruct Hp as [Hsrc Hdst]. split; [|split].
  - rewrite Hu. simpl. destruct (moved ks tb "snapshots") eqn:E; [by apply Hs, placeable_not_snapshots in E|].
    by rewrite Hm.
  - intros r. rewrite Hu. simpl. rewrite Hm, decide_False by done.
    destruct r as [|z r]; [done|]. apply (nothing_below t (table_dir ks tb ++ [c]) (z :: r)); [done|done|congruence|done].
  - rewrite Hu, placed_table. apply (proper_prefix_dir t _ ["snapshots"; SNAPSHOT_NAME; c]); done.
Qed.

Lemma placed_ext m1 m2 p : (∀ ks tb c, m1 ks tb c = m2 ks tb c) → placed m1 t p = placed m2 t p.
Proof using Type.
  intros H. destruct p as [|d [|ks [|tb [|c r]]]]; try done. simpl. rewrite H. destruct r as [|n [|y r]]; try done. by rewrite H.
Qed.

(** One child of a snapshot is moved into its table. *)
Lemma place_child moved ks tb c w :
  sound moved → placeable ks tb c → moved ks tb c = false → well_formed (w_tree w) → (∀ p, w_tree w !! p = placed moved t p) →
  ∃ u, rename (snapshot_dir ks tb ++ [c]) (table_dir ks tb ++ [c]) w = (set_tree u w, Ok tt) ∧ well_formed u ∧
    ∀ p, u !! p = placed (add_moved moved ks tb c) t p.
Proof using Hwf.
  intros Hs Hp Hm Hwf' Hu. destruct (placed_frame _ _ _ _ _ Hs Hp Hm Hu) as (Hsrc & Hdst & Hdir).
  pose proof (placeable_not_snapshots _ _ _ Hp) as Hc.
  assert (¬ (snapshot_dir ks tb ++ [c]) `prefix_of` (table_dir ks tb ++ [c])) as H1.
  { intros [z Hz%(f_equal length)]. simpl in Hz. lia. }
  assert (¬ (table_dir ks tb ++ [c]) `prefix_of` (snapshot_dir ks tb ++ [c])) as H2 by (intros [z [= ? _]]; congruence).
  assert (free_for (snapshot_dir ks tb ++ [c]) (table_dir ks tb ++ [c]) (w_tree w)) as Hf.
  { split; [|done]. intros r _. rewrite <- app_assoc. apply Hdst. }
  assert (is_dir_at (w_tree w) (parent (table_dir ks tb ++ [c])) = true) as Hpar.
  { rewrite parent_snoc. apply bool_decide_eq_true. by right. }
  exists (move (snapshot_dir ks tb ++ [c]) (table_dir ks tb ++ [c]) (w_tree w)). split; [|split].
  - by apply rename_into.
  - by apply move_well_formed.
  - intros p. by apply placed_move.
Qed.

Definition with_table (moved : string → string → string → bool) (ks tb : string) (done_ : list path) (k b c : string) : bool :=
  moved k b c || bool_decide (k = ks ∧ b = tb ∧ snapshot_dir ks tb ++ [c] ∈ done_).

Lemma place_children moved ks tb srcs w :
  sound moved → (∀ c, moved ks tb c = false) → NoDup srcs →
  (∀ p, p ∈ srcs → ∃ c, p = snapshot_dir ks tb ++ [c] ∧ placeable ks tb c) →
  well_formed (w_tree w) → (∀ p, w_tree w !! p = placed moved t p) →
  ∃ u, for_each srcs (λ p, rename p (table_dir ks tb ++ [name p])) w = (set_tree u w, Ok tt) ∧ well_formed u ∧
    sound (with_table moved ks tb srcs) ∧ ∀ p, u !! p = placed (with_table moved ks tb srcs) t p.
Proof using All.
  intros Hs Hm Hnd Hsrc Hwf' Hu.
  destruct (for_each_ind (λ pre w', ∃ u, w' = set_tree u w ∧ well_formed u ∧ sound (with_table moved ks tb pre) ∧
    ∀ p, u !! p = placed (with_table moved ks tb pre) t p) srcs (λ p, rename p (table_dir ks tb ++ [name p])) w)
    as (w' & Hrun & u & -> & H); [| |by eauto].
  - assert (∀ k b c, with_table moved ks tb [] k b c = moved k b c) as Hext.
    { intros k b c. unfold with_table. rewrite bool_decide_eq_false_2; [by rewrite orb_false_r|]. intros (_ & _ & ?%not_elem_of_nil). done. }
    exists (w_tree w). split; [by destruct w|]. split; [done|]. split; [intros k b c; rewrite Hext; apply Hs|].
    intros p. rewrite (placed_ext _ _ _ Hext). apply Hu.
  - intros pre x post w1 Heq (u1 & -> & Hwf1 & Hs1 & Hu1). destruct (Hsrc x) as (c & -> & Hpc); [rewrite Heq; set_solver|].
    rewrite name_snoc. assert (with_table moved ks tb pre ks tb c = false) as Hno.
    { unfold with_table. rewrite Hm. apply bool_decide_eq_false. intros (_ & _ & Hin). rewrite Heq in Hnd.
      apply NoDup_app in Hnd as (_ & Hn & _). apply (Hn _ Hin). by left. }
    assert (∀ k b c', add_moved (with_table moved ks tb pre) ks tb c k b c' =
      with_table moved ks tb (pre ++ [snapshot_dir ks tb ++ [c]]) k b c') as Hext.
    { intros k b c'. unfold add_moved, with_table. rewrite <- orb_assoc. f_equal. apply eq_true_iff_eq.
      rewrite orb_true_iff, !bool_decide_eq_true, elem_of_app, list_elem_of_singleton. split; [|naive_solver].
      intros [?|(-> & -> & ->)]; naive_solver. }
    destruct (place_child _ ks tb c (set_tree u1 w) Hs1 Hpc Hno Hwf1 Hu1) as (u & Hrun & Hwfu & Hlu).
    eexists. split; [exact Hrun|]. exists u. split; [done|]. split; [done|]. split.
    + intros k b c' Hk. rewrite <- Hext in Hk. by apply (sound_add _ _ _ _ Hs1 Hpc).
    + intros p. rewrite Hlu. by apply placed_ext.
Qed.

(** *** Restoring by the identifier of the table *)
Context (skip : list string) (expect_empty : bool).

(** Nothing is in the way: what is moved does not exist in the table, which
    has no files. *)
Definition ready : Prop :=
  (∀ ks tb c, ks ∉ skip → is_Some (t !! (snapshot_dir ks tb ++ [c])) → t !! (table_dir ks tb ++ [c]) = None) ∧
  (∀ ks tb c, ks ∉ skip → is_Some (t !! snapshot_dir ks tb) → is_file_at t (table_dir ks tb ++ [c]) = false).

Definition moved_of (done_ : list path) (ks tb c : string) : bool :=
  bool_decide (ks ∉ skip ∧ snapshot_dir ks tb ∈ done_ ∧ is_Some (t !! (snapshot_dir ks tb ++ [c]))).

Lemma moved_of_sound done_ : ready → sound (moved_of done_).
Proof using Type. intros [Hr _] ks tb c (H1 & _ & H2)%bool_decide_eq_true. split; [done|]. by apply Hr. Qed.

(** The files of a table stay as they are until its snapshot is moved. *)
Lemma no_files_yet (done_ : list path) (ks tb c : string) (u : tree) :
  ready → ks ∉ skip → is_Some (t !! snapshot_dir ks tb) → snapshot_dir ks tb ∉ done_ → (∀ p, u !! p = placed (moved_of done_) t p) →
  is_file_at u (table_dir ks tb ++ [c]) = false.
Proof using Type.
  intros [_ Hr] Hks Hs Hd Hu. specialize (Hr ks tb c Hks Hs). unfold is_file_at in *. rewrite Hu. simpl.
  assert (moved_of done_ ks tb c = false) as -> by (apply bool_decide_eq_false; tauto). by case_decide.
Qed.

Lemma ensure_nothing ks tb w :
  (∀ c, is_file_at (w_tree w) (table_dir ks tb ++ [c]) = false) →
  ensure_target_is_empty listing ks (table_dir ks tb) w = (w, Ok tt).
Proof using listing_perm.
  intros Hno. unfold ensure_target_is_empty. rewrite (bind_ok get _ _ _ _ eq_refl).
  assert (filter (λ p, is_file_at (w_tree w) p = true) (glob_paths listing (table_dir ks tb) ["*"] (w_tree w)) = []) as ->.
  { apply filter_nil_iff. intros p (c & -> & _)%elem_of_entries. by rewrite Hno. }
  case_decide; [done|]. by rewrite decide_True.
Qed.

Lemma restore_table_skipped ks tb w :
  ks ∈ skip → restore_table listing skip cfid expect_empty (snapshot_dir ks tb) w = on_progress (Progress.add_success 1) w.
Proof using Type. intros Hks. unfold restore_table. simpl. by rewrite decide_True. Qed.

(** One snapshot is moved into its table. *)
Lemma restore_table_places done_ ks tb w :
  ready → ks ∉ skip → is_Some (t !! snapshot_dir ks tb) → snapshot_dir ks tb ∉ done_ →
  well_formed (w_tree w) → (∀ p, w_tree w !! p = placed (moved_of done_) t p) →
  ∃ u, restore_table listing skip cfid expect_empty (snapshot_dir ks tb) w = on_progress (Progress.add_success 1) (set_tree u w) ∧
    well_formed u ∧ ∀ p, u !! p = placed (moved_of (done_ ++ [snapshot_dir ks tb])) t p.
Proof using All.
  intros Hr Hks Hs Hd Hwf' Hu.
  assert (∀ c, moved_of done_ ks tb c = false) as Hm by (intros c; apply bool_decide_eq_false; tauto).
  assert (∀ c, w_tree w !! (snapshot_dir ks tb ++ [c]) = t !! (snapshot_dir ks tb ++ [c])) as Hch.
  { intros c. rewrite Hu. simpl. by rewrite !Hm. }
  set (srcs := glob_paths listing (snapshot_dir ks tb) ["*"] (w_tree w)).
  assert (∀ c, snapshot_dir ks tb ++ [c] ∈ srcs ↔ is_Some (t !! (snapshot_dir ks tb ++ [c]))) as Hsrcs.
  { intros c. unfold srcs. rewrite elem_of_entries. split.
    - intros (c' & ->%(inj (app (snapshot_dir ks tb))) & H). by rewrite <- Hch.
    - intros H. exists c. by rewrite Hch. }
  destruct (place_children (moved_of done_) ks tb srcs w) as (u & Hrun & Hwfu & Hsu & Hlu); try done.
  - by apply moved_of_sound.
  - by apply NoDup_glob.
  - intros p Hp. pose proof Hp as (c & -> & _)%elem_of_entries. exists c. split; [done|].
    apply Hsrcs in Hp. split; [done|]. by apply Hr.
  - exists u. split; [|split; [done|]].
    + unfold restore_table. simpl. rewrite decide_False by done. rewrite (bind_ok (mret _) _ _ w (table_dir ks tb) eq_refl).
      assert ((if expect_empty then ensure_target_is_empty listing ks (table_dir ks tb) else mret tt) w = (w, Ok tt)) as Hens.
      { destruct expect_empty; [|done]. apply ensure_nothing. intros c. by eapply no_files_yet. }
      rewrite (bind_ok _ _ _ _ _ Hens), (bind_ok _ _ w w srcs eq_refl). by rewrite (bind_ok _ _ _ _ _ Hrun).
    + intros p. rewrite Hlu. apply placed_ext. intros k b c. unfold with_table, moved_of. apply eq_true_iff_eq.
      rewrite orb_true_iff, !bool_decide_eq_true, elem_of_app, list_elem_of_singleton. split.
      * intros [?|(-> & -> & Hc)]; [naive_solver|]. apply Hsrcs in Hc. auto.
      * intros (H1 & [H2|[= -> ->]] & H3); [by left; auto|]. right. split; [done|]. split; [done|]. by apply Hsrcs.
Qed.

Lemma place_all w :
  w_tree w = t → ready → final (w_progress w) = false → handled (w_progress w) = 0 →
  let todo := glob_paths listing [] (glob_parts SNAPSHOT_GLOB) t in
  total (w_progress w) = Z.of_nat (length todo) →
  ∃ w', for_each todo (restore_table listing skip cfid expect_empty) w = (w', Ok tt) ∧
    (∀ p, w_tree w' !! p = placed (moved_of todo) t p) ∧ well_formed (w_tree w') ∧
    w_progress w' = mkProgress (Z.of_nat (length todo)) (failed (w_progress w)) (total (w_progress w)) false ∧
    w_commands w' = w_commands w.
Proof using All.
  intros Ht Hr Hfin Hh todo Htot.
  assert (NoDup todo) as Hnd by (by apply NoDup_glob).
  assert (∀ p, p ∈ todo → ∃ ks tb, p = snapshot_dir ks tb ∧ is_Some (t !! snapshot_dir ks tb)) as Htodo.
  { intros p (r & -> & (ks & tb & ->)%match_snapshots & Hs)%elem_of_glob; [|done]. by exists ks, tb. }
  apply (for_each_ind (λ pre w', (∀ p, w_tree w' !! p = placed (moved_of pre) t p) ∧ well_formed (w_tree w') ∧
    w_progress w' = mkProgress (Z.of_nat (length pre)) (failed (w_progress w)) (total (w_progress w)) false ∧
    w_commands w' = w_commands w)).
  - rewrite Ht. split; [|split; [done|split; [|done]]].
    + intros p. assert (placed (λ _ _ _, false) t p = t !! p) as <-.
      { destruct p as [|d [|k [|b [|c r]]]]; try done. simpl. case_decide; [|done]. case_decide; [|done].
        destruct r as [|n [|y r]]; [done..|]. by rewrite andb_false_r. }
      apply placed_ext. intros k b c. symmetry. apply bool_decide_eq_false. intros (_ & ?%not_elem_of_nil & _). done.
    + destruct (w_progress w); simpl in *. by subst.
  - intros pre x post w1 Heq (Hu & Hwf1 & Hpr & Hcm). destruct (Htodo x) as (ks & tb & -> & Hs); [rewrite Heq; set_solver|].
    assert (length todo = length pre + S (length post))%nat as Hlen by (rewrite Heq, length_app; done).
    assert (∀ u, on_progress (Progress.add_success 1) (set_tree u w1) =
      (mkWorld u (mkProgress (Z.of_nat (length (pre ++ [snapshot_dir ks tb]))) (failed (w_progress w)) (total (w_progress w)) false)
        (w_schema_hash w1) (w_commands w1), Ok tt)) as Hadd.
    { intros u. unfold on_progress, zoom, Progress.add_success, set_tree. cbn [w_progress]. rewrite Hpr. simpl.
      unfold mbind, M_bind. simpl. rewrite (proj2 (Z.leb_le _ _)) by lia. unfold M_bind. simpl.
      unfold set_progress. simpl. do 3 f_equal. rewrite length_app. simpl. lia. }
    assert (snapshot_dir ks tb ∉ pre) as Hnew.
    { rewrite Heq in Hnd. apply NoDup_app in Hnd as (_ & Hn & _). intros Hin. apply (Hn _ Hin). by left. }
    destruct (decide (ks ∈ skip)) as [Hks|Hks].
    + rewrite restore_table_skipped by done. specialize (Hadd (w_tree w1)).
      assert (set_tree (w_tree w1) w1 = w1) as Hsame by (by destruct w1). rewrite Hsame in Hadd.
      eexists. split; [exact Hadd|]. split; [|done]. intros p. simpl. rewrite Hu. apply placed_ext. intros k b c.
      unfold moved_of. apply bool_decide_ext. rewrite elem_of_app, list_elem_of_singleton. split; [tauto|].
      intros (H1 & [H2|[= -> ->]] & H3); [done|by destruct H1].
    + destruct (restore_table_places pre ks tb w1) as (u & -> & Hwfu & Hlu); try done.
      eexists. split; [apply Hadd|]. done.
Qed.

Lemma placed_all p :
  placed (moved_of (glob_paths listing [] (glob_parts SNAPSHOT_GLOB) t)) t p =
  placed (λ ks tb c, bool_decide (ks ∉ skip ∧ is_Some (t !! (snapshot_dir ks tb ++ [c])))) t p.
Proof using All.
  apply placed_ext. intros ks tb c. unfold moved_of. apply bool_decide_ext. split; [tauto|]. intros [H1 H2].
  split; [done|]. split; [|done]. apply elem_of_glob; [done|]. exists (snapshot_dir ks tb). split; [done|].
  split; [apply match_snapshots; eauto|]. by eapply exists_upto.
Qed.
End placing.

(** Restoring by identifier, when nothing is in the way: every child of a
    snapshot of a keyspace that is not skipped is moved, with all below it, into
    the directory of its table, and nothing else changes. *)
Theorem restore_places (w : world) (skip : list string) (expect_empty : bool) :
  w_progress w = new_progress → well_formed (w_tree w) → ready (w_tree w) skip →
  ∃ w' n, restore_sstables listing (CassandraRestoreSSTablesRequest SNAPSHOT_GLOB skip cfid expect_empty) w = (w', Ok tt) ∧
    (∀ p, w_tree w' !! p =
      placed (λ ks tb c, bool_decide (ks ∉ skip ∧ is_Some (w_tree w !! (snapshot_dir ks tb ++ [c])))) (w_tree w) p) ∧
    well_formed (w_tree w') ∧ w_progress w' = mkProgress n 0 n true ∧ w_commands w' = w_commands w.
Proof using listing_perm.
  intros Hp Hwf Hr. set (todo := glob_paths listing [] (glob_parts SNAPSHOT_GLOB) (w_tree w)).
  set (n := Z.of_nat (length todo)).
  destruct (place_all (w_tree w) Hwf skip expect_empty (set_progress (mkProgress 0 0 n false) w))
    as (w' & Hrun & Hpl & Hwf' & Hpr & Hcm); try done.
  exists (set_progress (mkProgress n 0 n true) w'), n. split; [|split; [|done]].
  - unfold restore_sstables. rewrite (bind_ok (glob listing [] _) _ w w todo eq_refl).
    assert (on_progress (Progress.add_total n) w = (set_progress (mkProgress 0 0 n false) w, Ok tt)) as Htot.
    { unfold on_progress, zoom, Progress.add_total. rewrite Hp. destruct (Z.eqb_spec n 0) as [->|?]; done. }
    rewrite (bind_ok _ _ _ _ _ Htot), (bind_ok _ _ _ _ _ Hrun). unfold on_progress, zoom. rewrite Hpr.
    unfold Progress.done, mbind, M_bind. simpl. fold todo n. by rewrite Z.leb_refl.
  - intros p. simpl. rewrite Hpl. by apply placed_all.
Qed.

(** C20: Restoring a node: the tables are emptied, files are downloaded into the
    directories of snapshots, and the snapshots are moved into place.  Then
    every table that has a snapshot holds exactly its contents, besides its
    directories [snapshots] and [backups]. *)
Theorem unrestore_then_restore (w0 w2 : world) (skip : list string) (expect_empty : bool) :
  w_progress w0 = new_progress → well_formed (w_tree w0) →
  (** the download *)
  let w1 := fst (unrestore_sstables listing w0) in
  well_formed (w_tree w2) → w_progress w2 = new_progress →
  (∀ ks tb c r, c ∉ ["snapshots"; "backups"] → w_tree w2 !! (table_dir ks tb ++ c :: r) = w_tree w1 !! (table_dir ks tb ++ c :: r)) →
  (** no child of a snapshot, and no file, is called as these directories *)
  (∀ ks tb c, is_Some (w_tree w2 !! (snapshot_dir ks tb ++ [c])) → c ∉ ["snapshots"; "backups"]) →
  (∀ ks tb, is_file_at (w_tree w2) (table_dir ks tb ++ ["backups"]) = false) →
  ∃ w', restore_sstables listing (CassandraRestoreSSTablesRequest SNAPSHOT_GLOB skip cfid expect_empty) w2 = (w', Ok tt) ∧
    ∀ ks tb c r, ks ∉ skip → c ∉ ["snapshots"; "backups"] →
      w_tree w' !! (table_dir ks tb ++ c :: r) = w_tree w2 !! (snapshot_dir ks tb ++ c :: r).
Proof using listing_perm.
  intros Hp0 Hwf0 w1 Hwf2 Hp2 Hdl Hch Hbk.
  destruct (unrestore_exact w0 Hp0 Hwf0) as (w1' & n & Hrun & Hst & _). unfold w1 in *. rewrite Hrun in *. cbn [fst] in Hdl. clear w1.
  assert (∀ ks tb c r, c ∉ ["snapshots"; "backups"] → w_tree w2 !! (table_dir ks tb ++ c :: r) = None) as Hnone.
  { intros ks tb c r Hc. rewrite Hdl by done.
    rewrite Hst. simpl.
    rewrite (bool_decide_eq_false_2 (c ∈ _)) by done. by rewrite andb_false_r. }
  assert (ready (w_tree w2) skip) as Hr.
  { split; [intros ks tb c _ Hs; by apply Hnone, (Hch ks tb)|]. intros ks tb c _ Hs.
    destruct (decide (c = "snapshots")) as [->|Hc1].
    { unfold is_file_at. by rewrite (proper_prefix_dir _ (table_dir ks tb ++ ["snapshots"]) [SNAPSHOT_NAME] Hwf2). }
    destruct (decide (c = "backups")) as [->|Hc2]; [done|]. unfold is_file_at. rewrite Hnone by set_solver. done. }
  destruct (restore_places w2 skip expect_empty Hp2 Hwf2 Hr) as (w' & n' & Hrun2 & Hpl & _).
  exists w'. split; [done|]. intros ks tb c r Hks Hc. rewrite Hpl. simpl. case_bool_decide as Hm; [done|].
  rewrite decide_False by set_solver. rewrite (Hnone ks tb c r Hc : w_tree w2 !! ("data" :: ks :: tb :: c :: r) = None).
  symmetry. destruct (decide (is_Some (w_tree w2 !! (snapshot_dir ks tb ++ [c])))) as [Hs|Hs]; [tauto|].
  apply eq_None_not_Some in Hs. destruct r as [|x r]; [done|].
  apply (nothing_below _ (snapshot_dir ks tb ++ [c]) (x :: r) Hwf2); [done|congruence|done].
Qed.
End operations.

(** ** The theorems at a concrete node: a table with a snapshot, one without *)
Definition demo_tree : tree :=
  list_to_map [
    (["data"], Dir); (["data"; "ks"], Dir); (["data"; "ks"; "t-1"], Dir);
    (["data"; "ks"; "t-1"; "old.db"], File [x01]);
    (["data"; "ks"; "t-1"; "snapshots"], Dir); (["data"; "ks"; "t-1"; "snapshots"; "astacus-backup"], Dir);
    (["data"; "ks"; "t-1"; "snapshots"; "astacus-backup"; "new.db"], File [x02]);
    (["data"; "ks"; "u-2"], Dir); (["data"; "ks"; "u-2"; "schema.db"], File [x03])].
Definition demo_world (t : tree) : world := mkWorld t new_progress "" [].

(** A condition on all entries, checked by evaluation. *)
Definition all_entries (f : path → entry → bool) (t : tree) : bool := forallb (λ kv, f kv.1 kv.2) (map_to_list t).

Lemma all_entries_lookup f t p e : all_entries f t = true → t !! p = Some e → f p e = true.
Proof.
  unfold all_entries. rewrite forallb_forall. intros H He%elem_of_map_to_list%list_elem_of_In. apply (H (p, e) He).
Qed.

Lemma well_formed_check t : all_entries (λ p _, bool_decide (parent p = [] ∨ t !! parent p = Some Dir)) t = true → well_formed t.
Proof.
  intros H p c e He. apply (all_entries_lookup _ _ _ _ H) in He. apply bool_decide_eq_true in He. by rewrite parent_snoc in He.
Qed.

Lemma glob_match_app a b p q : glob_match a p = true → glob_match b q = true → glob_match (a ++ b) (p ++ q) = true.
Proof.
  revert p. induction a as [|x a IH]; intros [|y p]; simpl; try done. intros [-> H]%andb_prop Hq. by apply IH.
Qed.

(** No path that a pattern matches has an entry of some kind. *)
Lemma no_match_check pats (bad : entry → bool) t p e :
  all_entries (λ p e, negb (glob_match pats p && bad e)) t = true → glob_match pats p = true → t !! p = Some e → bad e = false.
Proof.
  intros H Hm He. apply (all_entries_lookup _ _ _ _ H) in He. rewrite Hm in He. by destruct (bad e).
Qed.

Lemma remove_snapshot_exact_witness :
  well_formed demo_tree ∧
  ∃ w' n, remove_snapshot id (demo_world demo_tree) = (w', Ok tt) ∧
    (∀ p, w_tree w' !! p = if in_snapshot p then None else demo_tree !! p) ∧
    w_progress w' = mkProgress n 0 n true ∧ w_commands w' = [].
Proof.
  assert (well_formed demo_tree) as H by (apply well_formed_check; vm_compute; reflexivity).
  split; [exact H|]. apply (remove_snapshot_exact id (λ l, reflexivity l) (demo_world demo_tree)); [reflexivity|exact H|].
  intros ks tb d Hd.
  assert (match File d with File _ => true | Dir => false end = false) as Hbad; [|discriminate].
  refine (no_match_check (glob_parts SNAPSHOT_GLOB) (λ e, match e with File _ => true | Dir => false end) demo_tree _ _ _ _ Hd);
    [vm_compute; reflexivity|apply match_snapshots; eauto].
Defined.

Lemma unrestore_exact_witness :
  well_formed demo_tree ∧
  elements (dom (w_tree (fst (unrestore_sstables id (demo_world demo_tree))))) ≡ₚ
    [["data"]; ["data"; "ks"]; ["data"; "ks"; "t-1"]; ["data"; "ks"; "t-1"; "snapshots"];
     snapshot_dir "ks" "t-1"; snapshot_dir "ks" "t-1" ++ ["new.db"]] ∧
  ∃ w' n, unrestore_sstables id (demo_world demo_tree) = (w', Ok tt) ∧
    (∀ p, w_tree w' !! p = if stays demo_tree p then demo_tree !! p else None) ∧
    w_progress w' = mkProgress n 0 n true ∧ w_commands w' = [].
Proof.
  assert (well_formed demo_tree) as H by (apply well_formed_check; vm_compute; reflexivity).
  split; [exact H|]. split; [apply (bool_decide_unpack _); vm_compute; exact I|].
  exact (unrestore_exact id (λ l, reflexivity l) (demo_world demo_tree) eq_refl H).
Defined.

Lemma restore_loses_nothing_witness :
  well_formed demo_tree ∧
  kept demo_tree (w_tree (fst (restore_sstables id (CassandraRestoreSSTablesRequest SNAPSHOT_GLOB [] cfname true) (demo_world demo_tree)))).
Proof.
  assert (well_formed demo_tree) as H by (apply well_formed_check; vm_compute; reflexivity).
  split; [exact H|]. exact (restore_loses_nothing id (λ l, reflexivity l) SNAPSHOT_GLOB [] cfname (demo_world demo_tree) H).
Defined.

Definition demo_downloaded : tree := w_tree (fst (unrestore_sstables id (demo_world demo_tree))).

Lemma unrestore_then_restore_witness :
  well_formed demo_tree ∧ well_formed demo_downloaded ∧
  ∃ w', restore_sstables id (CassandraRestoreSSTablesRequest SNAPSHOT_GLOB [] cfid true) (demo_world demo_downloaded) = (w', Ok tt) ∧
    ∀ ks tb c r, ks ∉ [] → c ∉ ["snapshots"; "backups"] →
      w_tree w' !! (table_dir ks tb ++ c :: r) = demo_downloaded !! (snapshot_dir ks tb ++ c :: r).
Proof.
  assert (well_formed demo_tree) as H by (apply well_formed_check; vm_compute; reflexivity).
  assert (well_formed demo_downloaded) as H2 by (apply well_formed_check; vm_compute; reflexivity).
  split; [exact H|]. split; [exact H2|].
  apply (unrestore_then_restore id (λ l, reflexivity l) (demo_world demo_tree) (demo_world demo_downloaded) [] true);
    [reflexivity|exact H|exact H2|reflexivity|reflexivity| |].
  - intros ks tb c [e He] Hc.
    assert (∀ x, x = c → free_of "*"%char x = true →
      all_entries (λ p _, negb (glob_match (glob_parts SNAPSHOT_GLOB ++ [x]) p && true)) demo_downloaded = true → False) as Hno.
    { intros x -> Hx Hall. pose proof (no_match_check _ (λ _, true) _ (snapshot_dir ks tb ++ [c]) e Hall) as Hm.
      assert (true = false); [|done]. apply Hm; [|done]. apply glob_match_app; [apply match_snapshots; eauto|].
      simpl. rewrite andb_true_r. by apply star_match_literal. }
    apply elem_of_cons in Hc as [->|Hc%list_elem_of_singleton]; [|subst c]; (eapply Hno; [reflexivity|reflexivity|vm_compute; reflexivity]).
  - intros ks tb. destruct (is_file_at (w_tree (demo_world demo_downloaded)) (table_dir ks tb ++ ["backups"])) eqn:E; [|reflexivity].
    apply is_file_at_true in E as [d Hd].
    assert (match File d with File _ => true | Dir => false end = false) as Hbad; [|discriminate].
    refine (no_match_check (glob_parts TABLES_GLOB ++ ["backups"]) (λ e, match e with File _ => true | Dir => false end)
      demo_downloaded _ _ _ _ Hd); [vm_compute; reflexivity|]. apply glob_match_app; [apply match_tables; eauto|reflexivity].
Defined.
End CassNode.
