(* ===== verification/CassPlugin.v ===== *)
(** * The Cassandra plugin of the coordinator
      ([coordinator/plugins/cassandra/plugin.py], [backup_steps.py],
      [restore_steps.py], [utils.py])

    The steps of the plugin, over the world and the nodes of [BackupRestore].
    The driver is a parameter: connecting to Cassandra, the token map and
    the schema it reports, the session in which a schema is restored; so is
    the encoding of the manifest of the plugin. *)

From stdpp Require Import base gmap strings list.
From Stdlib Require Import ZArith Lia.
From S2P Require Import Prelude Progress Ipc Storage Utils CassSchema CassModel Steps NodeMapping NodeLock Cluster Datetime BackupRestore.

Local Open Scope Z_scope.

Module CassPlugin.
Import Cluster BackupRestore CassSchema CassModel.

(** ** [utils.py] *)
Definition snapshot_groups : list SnapshotGroup :=
  simple_group <$> ["data/*/*/snapshots/astacus-backup/*.db"; "data/*/*/snapshots/astacus-backup/*.txt";
                    "data/*/*/snapshots/astacus-backup/*.crc32"].
Definition delta_snapshot_groups : list SnapshotGroup :=
  simple_group <$> ["data/*/*/backups/*.db"; "data/*/*/backups/*.txt"; "data/*/*/backups/*.crc32"].

(** [CassandraSubOp.value] *)
Definition subop_value (subop : CassandraSubOp) : string :=
  match subop with
  | get_schema_hash => "get-schema-hash"
  | remove_snapshot => "remove-snapshot"
  | unrestore_sstables => "unrestore-sstables"
  | restore_sstables => "restore-sstables"
  | start_cassandra => "start-cassandra"
  | stop_cassandra => "stop-cassandra"
  | take_snapshot => "take-snapshot"
  end.

Definition decode_schema_hash_result (b : Body) : res CassandraGetSchemaHashResult :=
  match b with BSchemaHash r => Ok r | _ => Raise DecodeError end.

(** The messages of [get_schema_hash]. *)
Inductive schema_error : Type := UnableToRetrieve | MultipleHashes (hashes : list string).

(** The classes of the steps. *)
Definition cls_ValidateConfigurationStep := cls_plugin "ValidateConfigurationStep".
Definition cls_CassandraSubOpStep := cls_plugin "CassandraSubOpStep".
Definition cls_CassandraRestoreSubOpStep := cls_plugin "CassandraRestoreSubOpStep".
Definition cls_RetrieveSchemaHashStep := cls_plugin "RetrieveSchemaHashStep".
Definition cls_AssertSchemaUnchanged := cls_plugin "AssertSchemaUnchanged".
Definition cls_PrepareCassandraManifestStep := cls_plugin "PrepareCassandraManifestStep".
Definition cls_SkipHexdigestsListStep := cls_plugin "SkipHexdigestsListStep".
Definition cls_ParsePluginManifestStep := cls_plugin "ParsePluginManifestStep".
Definition cls_StopReplacedNodesStep := cls_plugin "StopReplacedNodesStep".
Definition cls_UploadFinalDeltaStep := cls_plugin "UploadFinalDeltaStep".
Definition cls_StartCassandraStep := cls_plugin "StartCassandraStep".
Definition cls_WaitCassandraUpStep := cls_plugin "WaitCassandraUpStep".
Definition cls_RestorePreDataStep := cls_plugin "RestorePreDataStep".
Definition cls_RestorePostDataStep := cls_plugin "RestorePostDataStep".
Definition cls_RestoreCassandraDeltasStep := cls_plugin "RestoreCassandraDeltasStep".
Definition cls_RestoreFinalDeltasStep := cls_plugin "RestoreFinalDeltasStep".

(** ** Who is assigned what ([restore_steps.py]) *)
Section assignment.
Context (cluster_nodes : list CoordinatorNode) (cassandra_nodes : list CassandraConfigurationNode).

Definition index_res {A} (l : list A) (i : nat) : res A := match l !! i with Some x => Ok x | None => Raise IndexError end.

Fixpoint find_index {A} (f : A → bool) (l : list A) : option nat :=
  match l with [] => None | x :: l' => if f x then Some 0%nat else S <$> find_index f l' end.

Definition find_matching_cassandra_index (backup_node : CassandraManifestNode) : option nat :=
  find_index (matches_configuration_node backup_node) cassandra_nodes.

(** The loop of [StopReplacedNodesStep]. *)
Definition nodes_to_stop (node_to_backup_index : list (option nat)) (m : CassandraManifest) : res (list CoordinatorNode) :=
  fold_res (λ acc backup_index,
    match backup_index with
    | None => Ok acc
    | Some b =>
        backup_node ← index_res (manifest_nodes m) b;
        match find_matching_cassandra_index backup_node with
        | None => Ok acc
        | Some i => n ← index_res cluster_nodes i; Ok (acc ++ [n])
        end
    end) [] node_to_backup_index.

(** The loop of [StartCassandraStep]. *)
Definition start_request (override_tokens replace_backup_nodes : bool) (backup_node : CassandraManifestNode) : NodeRequest :=
  let replace := replace_backup_nodes && existsb (matches_configuration_node backup_node) cassandra_nodes in
  CassandraStartRequest
    (if override_tokens then Some (mn_tokens backup_node) else None)
    (if replace then Some (mn_listen_address backup_node) else None)
    (if replace then Some true else None).

Definition start_requests (override_tokens replace_backup_nodes : bool) (node_to_backup_index : list (option nat))
    (m : CassandraManifest) : res (list (CoordinatorNode * NodeRequest)) :=
  fold_res (λ acc ib,
    match ib.2 with
    | None => Ok acc
    | Some b =>
        coordinator ← index_res cluster_nodes ib.1;
        backup_node ← index_res (manifest_nodes m) b;
        Ok (acc ++ [(coordinator, start_request override_tokens replace_backup_nodes backup_node)])
    end) [] (enumerate node_to_backup_index).

(** The nodes that restore something. *)
Definition restoring_nodes (node_to_backup_index : list (option nat)) : res (list CoordinatorNode) :=
  fold_res (λ acc ib, match ib.2 with None => Ok acc | Some _ => n ← index_res cluster_nodes ib.1; Ok (acc ++ [n]) end)
    [] (enumerate node_to_backup_index).
End assignment.

(** *** Every node that restores something is started with what it restores *)
Section assignment_facts.
Context (cluster_nodes : list CoordinatorNode) (cassandra_nodes : list CassandraConfigurationNode).

(** A request for the node and the backed up node of one assignment. *)
Definition started_with (ot rb : bool) (m : CassandraManifest) (ib : nat * option nat) (nr : CoordinatorNode * NodeRequest) : Prop :=
  ∃ b bn, ib.2 = Some b ∧ cluster_nodes !! ib.1 = Some nr.1 ∧ manifest_nodes m !! b = Some bn ∧
    nr.2 = start_request cassandra_nodes ot rb bn.

Lemma start_requests_spec ot rb mapping m l :
  start_requests cluster_nodes cassandra_nodes ot rb mapping m = Ok l →
  Forall2 (started_with ot rb m) (filter (λ ib, is_Some ib.2) (enumerate mapping)) l.
Proof using Type.
  intros H. refine (fold_res_ind (λ pre l, Forall2 (started_with ot rb m) (filter (λ ib, is_Some ib.2) pre) l) _ _ _ _ _ _ H);
    [constructor|].
  intros pre [i [b|]] post l1 l2 _ HF Hs; simpl in Hs.
  - apply rbind_inv_ok in Hs as (c & Hc & (bn & Hb & [= <-])%rbind_inv_ok).
    rewrite filter_app, filter_cons_True by (simpl; eauto). simpl. apply Forall2_app; [done|]. constructor; [|constructor].
    unfold index_res in Hc, Hb. exists b, bn. simpl. destruct (cluster_nodes !! i); [|done]. destruct (manifest_nodes m !! b); [|done].
    naive_solver.
  - injection Hs as <-. rewrite filter_app, filter_cons_False by (simpl; by intros [? ?]). by rewrite app_nil_r.
Qed.

Lemma start_requests_ok ot rb mapping m :
  (length mapping <= length cluster_nodes)%nat → Forall (λ b, (b < length (manifest_nodes m))%nat) (NodeMapping.assigned mapping) →
  ∃ l, start_requests cluster_nodes cassandra_nodes ot rb mapping m = Ok l.
Proof using Type.
  intros Hlen Hall. apply fold_res_ok. intros [i [b|]] acc Hin; simpl; [|eauto].
  apply elem_of_enumerate in Hin. destruct (lookup_lt_is_Some_2 cluster_nodes i) as [c Hc].
  { apply lookup_lt_Some in Hin. lia. }
  rewrite Forall_forall in Hall. destruct (lookup_lt_is_Some_2 (manifest_nodes m) b) as [bn Hb].
  { apply Hall. unfold NodeMapping.assigned. apply list_elem_of_omap. exists (Some b). split; [|done]. by eapply list_elem_of_lookup_2. }
  unfold index_res. rewrite Hc, Hb. simpl. eauto.
Qed.

Definition request_tokens (req : NodeRequest) : list string :=
  match req with CassandraStartRequest (Some tokens) _ _ => tokens | _ => [] end.

Lemma started_requests ot rb mapping m l :
  Forall2 (started_with ot rb m) (filter (λ ib, is_Some ib.2) (enumerate mapping)) l →
  l.*2 = omap (λ b, start_request cassandra_nodes ot rb <$> manifest_nodes m !! b) (NodeMapping.assigned mapping).
Proof using Type.
  unfold NodeMapping.assigned. rewrite <- (enumerate_snd mapping) at 2. revert l.
  induction (enumerate mapping) as [|[i [b|]] k IH]; intros l HF.
  - apply Forall2_nil_inv_l in HF as ->. done.
  - rewrite filter_cons_True in HF by (simpl; eauto). apply Forall2_cons_inv_l in HF as (nr & l' & H & HF & ->).
    destruct H as (b' & bn & [= <-] & _ & Hb & Hr). csimpl. rewrite Hb. csimpl. by rewrite Hr, (IH _ HF).
  - rewrite filter_cons_False in HF by (simpl; by intros [? ?]). csimpl. by apply IH.
Qed.

Lemma started_nodes_NoDup ot rb mapping m l :
  NoDup cluster_nodes → Forall2 (started_with ot rb m) (filter (λ ib, is_Some ib.2) (enumerate mapping)) l → NoDup l.*1.
Proof using Type.
  intros Hnd HF. assert (NoDup (filter (λ ib : nat * option nat, is_Some ib.2) (enumerate mapping)).*1) as Hi.
  { eapply sublist_NoDup; [|apply fmap_sublist, sublist_filter]. rewrite enumerate_fst. apply NoDup_seq. }
  induction HF as [|[i o] [n r] k l' H HF IH]; csimpl; [constructor|]. csimpl in Hi. apply NoDup_cons in Hi as [Hi Hk].
  apply NoDup_cons. split; [|by apply IH]. intros Hn. apply list_elem_of_fmap in Hn as ([n' r'] & Heq & Hx). simpl in Heq. subst n'.
  apply list_elem_of_lookup in Hx as [j Hj]. destruct (Forall2_lookup_r _ _ _ _ _ HF Hj) as ([i' o'] & Hj' & H').
  destruct H as (_ & _ & _ & Hc & _), H' as (_ & _ & _ & Hc' & _). simpl in *.
  pose proof (NoDup_lookup _ _ _ _ Hnd Hc Hc') as <-. apply Hi. apply list_elem_of_fmap. exists (i, o').
  split; [done|]. by eapply list_elem_of_lookup_2.
Qed.

(** Who is started with what. *)
Lemma started_elem ot rb mapping m l node req :
  Forall2 (started_with ot rb m) (filter (λ ib, is_Some ib.2) (enumerate mapping)) l →
  (node, req) ∈ l ↔ ∃ i b bn, cluster_nodes !! i = Some node ∧ mapping !! i = Some (Some b) ∧ manifest_nodes m !! b = Some bn ∧
    req = start_request cassandra_nodes ot rb bn.
Proof using Type.
  intros HF. split.
  - intros Hin. apply list_elem_of_lookup in Hin as [j Hj]. destruct (Forall2_lookup_r _ _ _ _ _ HF Hj) as ([i o] & Hi & b & bn & Ho & Hc & Hb & Hr).
    simpl in *. subst o. apply list_elem_of_lookup_2, list_elem_of_filter in Hi as [_ Hi]. apply elem_of_enumerate in Hi. eauto 10.
  - intros (i & b & bn & Hc & Hi & Hb & ->).
    assert ((i, Some b) ∈ filter (λ ib : nat * option nat, is_Some ib.2) (enumerate mapping)) as Hin.
    { apply list_elem_of_filter. split; [by eexists|]. by apply elem_of_enumerate. }
    apply list_elem_of_lookup in Hin as [j Hj].
    destruct (Forall2_lookup_l _ _ _ _ _ HF Hj) as ([n r] & Hn & b' & bn' & [= <-] & Hc' & Hb' & Hr). simpl in *.
    apply list_elem_of_lookup. exists j. rewrite Hn, Hr. congruence.
Qed.

Lemma omap_seq_lookup {A B} (f : A → B) (l : list A) : omap (λ b, f <$> l !! b) (seq 0 (length l)) = f <$> l.
Proof using Type.
  induction l as [|x l IH] using rev_ind; [done|]. rewrite length_app, Nat.add_comm. simpl length. rewrite Nat.add_comm.
  rewrite seq_app, omap_app, fmap_app. f_equal.
  - rewrite <- IH. apply list_omap_ext, Forall_Forall2_diag, Forall_forall. intros b [_ Hb]%elem_of_seq.
    f_equal. apply lookup_app_l. lia.
  - csimpl. rewrite lookup_app_r, Nat.sub_diag by lia. done.
Qed.

(** C22: Restoring a whole cluster: Cassandra is started on distinct nodes of the
    cluster, one for each backed up node.  A node is started with exactly the request of
    the backed up node whose index the node map assigns to it, which is the one
    whose files it restores; together the nodes are given exactly the tokens of the
    manifest. *)
Theorem restored_ring (srs : list SnapshotResult) (mapping : list (option nat)) (m : CassandraManifest) (replace : bool) :
  NodeMapping.get_node_to_backup_index None srs cluster_nodes = Ok mapping → length (manifest_nodes m) = length srs → NoDup cluster_nodes →
  ∃ l, start_requests cluster_nodes cassandra_nodes true replace mapping m = Ok l ∧
    NoDup l.*1 ∧ l.*1 ⊆ cluster_nodes ∧
    (∀ node req, (node, req) ∈ l ↔ ∃ i b backup_node,
       cluster_nodes !! i = Some node ∧ mapping !! i = Some (Some b) ∧ manifest_nodes m !! b = Some backup_node ∧
       req = start_request cassandra_nodes true replace backup_node) ∧
    l.*2 ≡ₚ start_request cassandra_nodes true replace <$> manifest_nodes m ∧
    concat (request_tokens <$> l.*2) ≡ₚ concat (mn_tokens <$> manifest_nodes m).
Proof using Type.
  intros [Hlen Hperm]%NodeMapping.full_restore_assigned Hsrs Hnd.
  destruct (start_requests_ok true replace mapping m) as [l Hl]; [lia| |].
  { rewrite Hperm. apply Forall_forall. intros b Hb%elem_of_seq. lia. }
  exists l. split; [done|]. apply start_requests_spec in Hl.
  assert (l.*2 ≡ₚ start_request cassandra_nodes true replace <$> manifest_nodes m) as Hreqs.
  { rewrite (started_requests _ _ _ _ _ Hl), Hperm, <- Hsrs. by rewrite omap_seq_lookup. }
  split; [|split; [|split; [|split; [done|]]]].
  - by eapply started_nodes_NoDup.
  - intros n Hn. apply list_elem_of_fmap in Hn as (x & -> & Hx). apply list_elem_of_lookup in Hx as [i Hi].
    destruct (Forall2_lookup_r _ _ _ _ _ Hl Hi) as (ib & _ & b & bn & _ & H & _). by eapply list_elem_of_lookup_2.
  - intros node req. by rewrite (started_elem _ _ _ _ _ _ _ Hl).
  - rewrite Hreqs, <- list_fmap_compose. done.
Qed.
End assignment_facts.

(** [_rewrite_datacenters]; [create_cql] is [_create_network_topology_strategy_cql], by the driver. *)
Definition rewrite_datacenters (create_cql : Keyspace → string) (keyspaces : list Keyspace) : list Keyspace :=
  (λ k, if decide (network_topology_strategy_dcs k = []) then k
        else mkKeyspace (mkNamed (ks_name k) (create_cql k)) (network_topology_strategy_dcs k) (durable_writes k)
               (aggregates k) (functions k) (tables k) (user_types k)) <$> keyspaces.

(** What the coordinator uses of the driver. *)
Record CassandraClient (W : Type) : Type := mkCassandraClient {
  (** Connecting, for [run_sync]. *)
  connect : M W unit;
  token_to_host_owner : W → list (Z * Host);
  from_cassandra_session : M W (list Keyspace);
  session_metadata : W → gmap string KeyspaceMetadata;
  session_held : KeyspaceMetadata → W → KeyspaceMetadata;
  session_execute : string → M W unit;
  create_network_topology_strategy_cql : Keyspace → string;
}.
Arguments connect {W}. Arguments token_to_host_owner {W}. Arguments from_cassandra_session {W}.
Arguments session_metadata {W}. Arguments session_held {W}. Arguments session_execute {W}.
Arguments create_network_topology_strategy_cql {W}.

Section steps.
Context {SJ SH SE B BH : Type} (json : StorageOps SJ B) (hex : StorageOps SH BH) `{!ManifestCodec B}.
Local Notation W := (world SJ SH SE).
Context (env : ClusterEnv W) (cluster_nodes : list CoordinatorNode) (poll_config : PollConfig) (fuel : nat).
Context (progress_handler : option (Progress → M W unit)) (client : CassandraClient W).
(** [result.dict()], as the manifest of a backup stores it, and [CassandraManifest.parse_obj]. *)
Context (manifest_dict : CassandraManifest → string) (parse_obj : string → res CassandraManifest).
Local Notation request := (request env cluster_nodes).
Local Notation wait := (wait env poll_config fuel progress_handler).

(** ** Operations on the nodes *)
Definition run_subop {NR} (decode : Body → res NR) (progress : NR → Progress) (subop : CassandraSubOp)
    (nodes : option (list CoordinatorNode)) (req : option NodeRequest) (reqs : option (list NodeRequest)) : M W (list NR) :=
  let req := match req, reqs with None, (None | Some []) => Some PlainNodeRequest | _, _ => req end in
  start_results ← request ("cassandra/" +:+ subop_value subop) req reqs nodes;
  if decide (start_results = []) then raise StepFailedError else wait decode progress start_results.

(** [get_schema_hash]: the hash, empty with an error. *)
Definition agreed_hash (hashes : list string) : string * option schema_error :=
  match hashes with
  | [] => ("", Some UnableToRetrieve)
  | h :: _ => if decide (size (list_to_set hashes : gset string) = 1%nat) then (h, None) else ("", Some (MultipleHashes hashes))
  end.
Definition get_schema_hash_of (nodes : option (list CoordinatorNode)) : M W (string * option schema_error) :=
  l ← run_subop decode_schema_hash_result shr_progress get_schema_hash nodes None None;
  mret (agreed_hash (schema_hash <$> l)).

Definition CassandraSubOpStep (op : CassandraSubOp) : Step SJ SH SE := mkStep cls_CassandraSubOpStep (λ _,
  run_subop decode_node_result nr_progress op None None None ;; mret VNone).

Definition CassandraRestoreSubOpStep (op : CassandraSubOp) (req : option NodeRequest) : Step SJ SH SE :=
  mkStep cls_CassandraRestoreSubOpStep (λ ctx,
  node_to_backup_index ← lift_res (get_node_map ctx cls_MapNodesStep);
  nodes ← lift_res (restoring_nodes cluster_nodes node_to_backup_index);
  run_subop decode_node_result nr_progress op (Some nodes) req None ;; mret VNone).

Definition ValidateConfigurationStep (nodes : list CassandraConfigurationNode) : Step SJ SH SE :=
  mkStep cls_ValidateConfigurationStep (λ _,
  if decide (length nodes ≠ length cluster_nodes) then raise StepFailedError else mret VNone).

(** ** [backup_steps.py] *)
Definition RetrieveSchemaHashStep : Step SJ SH SE := mkStep cls_RetrieveSchemaHashStep (λ _,
  '(schema_hash, _) ← get_schema_hash_of None;
  if decide (schema_hash = "") then raise TransientException else mret (VHash schema_hash)).

Definition AssertSchemaUnchanged : Step SJ SH SE := mkStep cls_AssertSchemaUnchanged (λ ctx,
  '(schema_hash, _) ← get_schema_hash_of None;
  if decide (schema_hash = "") then raise TransientException
  else
    h ← lift_res (get_hash ctx cls_RetrieveSchemaHashStep);
    if decide (schema_hash ≠ h) then raise StepFailedError else mret VNone).

(** [_retrieve_manifest_from_cassandra] *)
Definition retrieve_manifest_from_cassandra (nodes : list CassandraConfigurationNode) (datacenter : option string) :
    M W CassandraManifest :=
  w ← get;
  nodes ← lift_res (retrieve_nodes (token_to_host_owner client w) nodes datacenter);
  schema ← from_cassandra_session client;
  keyspaces ← lift_res (restrict_schema datacenter schema);
  mret (mkCassandraManifest keyspaces nodes).

Definition PrepareCassandraManifestStep (nodes : list CassandraConfigurationNode) (datacenter : option string) :
    Step SJ SH SE := mkStep cls_PrepareCassandraManifestStep (λ _,
  connect client ;;
  m ← retrieve_manifest_from_cassandra nodes datacenter;
  mret (VPluginData (manifest_dict m))).

(** ** [restore_steps.py] *)
Definition ParsePluginManifestStep : Step SJ SH SE := mkStep cls_ParsePluginManifestStep (λ ctx,
  backup_manifest ← lift_res (get_manifest ctx cls_BackupManifestStep);
  m ← lift_res (parse_obj (bm_plugin_data backup_manifest));
  mret (VCassandraManifest (mkCassandraManifest
    (rewrite_datacenters (create_network_topology_strategy_cql client) (cassandra_schema m)) (manifest_nodes m)))).

Definition StopReplacedNodesStep (cassandra_nodes : list CassandraConfigurationNode) : Step SJ SH SE :=
  mkStep cls_StopReplacedNodesStep (λ ctx,
  node_to_backup_index ← lift_res (get_node_map ctx cls_MapNodesStep);
  m ← lift_res (get_cassandra_manifest ctx cls_ParsePluginManifestStep);
  nodes ← lift_res (nodes_to_stop cluster_nodes cassandra_nodes node_to_backup_index m);
  (if decide (nodes = []) then mret tt
   else run_subop decode_node_result nr_progress stop_cassandra (Some nodes) None None ;; mret tt) ;;
  mret (VNodes nodes)).

(** *** [UploadFinalDeltaStep] *)
Definition snapshot_delta (node : CoordinatorNode) : M W (list SnapshotResult) :=
  nodes_metadata ← get_nodes_metadata env cluster_nodes (Some [node]);
  match nodes_metadata with
  | [md] =>
      let req := create_snapshot_request delta_snapshot_groups (list_to_set (md_features md)) in
      start_results ← request "delta/snapshot" (Some req) None (Some [node]);
      wait decode_snapshot_result sr_progress start_results
  | _ => raise StepFailedError
  end.

Definition upload_delta (storage_name : string) (node : CoordinatorNode) (hashes : list SnapshotHash) : M W (list SnapshotUploadResult) :=
  start_results ← request "delta/upload" (Some (SnapshotUploadRequestV20221129 hashes storage_name false)) None (Some [node]);
  wait decode_upload_result ur_progress start_results.

Definition upload_manifest (snapshot_results : list SnapshotResult) (upload_results : list SnapshotUploadResult)
    (ctx : StepsContext) : M W (list BackupManifest) :=
  let backup_name := JSON_DELTA_PREFIX +:+ Datetime.isoformat_seconds (attempt_start ctx) in
  end_ ← now;
  let manifest := mkBackupManifest (attempt_start ctx) end_ (attempt ctx) snapshot_results upload_results
                    cassandra "{}" backup_name in
  on_json (st_upload json backup_name (encode_manifest manifest)) ;;
  mret [manifest].

Definition UploadFinalDeltaStep (storage_name : string) : Step SJ SH SE := mkStep cls_UploadFinalDeltaStep (λ ctx,
  replaced_nodes ← lift_res (get_nodes ctx cls_StopReplacedNodesStep);
  match replaced_nodes with
  | [replaced_node] =>
      snapshot_results ← snapshot_delta replaced_node;
      match snapshot_results with
      | [sr] =>
          match sr_hashes sr with
          | None => raise StepFailedError
          | Some hashes =>
              upload_results ← upload_delta storage_name replaced_node hashes;
              l ← upload_manifest snapshot_results upload_results ctx;
              mret (VManifests l)
          end
      | _ => raise StepFailedError
      end
  | _ => raise StepFailedError
  end).

Definition StartCassandraStep (override_tokens : bool) (cassandra_nodes : list CassandraConfigurationNode)
    (replace_backup_nodes : bool) : Step SJ SH SE := mkStep cls_StartCassandraStep (λ ctx,
  node_to_backup_index ← lift_res (get_node_map ctx cls_MapNodesStep);
  m ← lift_res (get_cassandra_manifest ctx cls_ParsePluginManifestStep);
  l ← lift_res (start_requests cluster_nodes cassandra_nodes override_tokens replace_backup_nodes node_to_backup_index m);
  run_subop decode_node_result nr_progress start_cassandra (Some l.*1) None (Some l.*2) ;;
  mret VNone).

(** *** [WaitCassandraUpStep]; times are in units of which a second has [second]. *)
Definition up_backoff (second duration : Z) : Backoff.config :=
  Backoff.mkConfig second None 2 (Some (60 * second)) (Some (duration * second)).

(** [None] is out of fuel. *)
Fixpoint up_loop (n : nat) (c : Backoff.config) (it : Backoff.iter) (nodes : option (list CoordinatorNode)) : M W (option bool) :=
  match n with
  | O => mret None
  | S n' =>
      t ← env_now env;
      x ← lift_res (Backoff.next c it t);
      match x with
      | (None, _) => mret (Some false)
      | (Some (_, d), it') =>
          (if 0 <? d then env_sleep env d else mret tt) ;;
          '(current_hash, _) ← get_schema_hash_of nodes;
          if decide (current_hash = "") then up_loop n' c it' nodes else mret (Some true)
      end
  end.

(** The nodes to wait for. *)
Definition nodes_without_replaced (ctx : StepsContext) (replaced_node_step : option StepClass) : res (option (list CoordinatorNode)) :=
  match replaced_node_step with
  | None => Ok None
  | Some c =>
      replaced_nodes ← get_nodes ctx c;
      match replaced_nodes with
      | [replaced_node] =>
          if decide (replaced_node ∈ cluster_nodes) then Ok (Some (filter (λ n, n ≠ replaced_node) cluster_nodes)) else Ok None
      | _ => Raise StepFailedError
      end
  end.

Definition WaitCassandraUpStep (attempts_fuel : nat) (second duration : Z) (replaced_node_step : option StepClass) : Step SJ SH SE :=
  mkStep cls_WaitCassandraUpStep (λ ctx,
  nodes ← lift_res (nodes_without_replaced ctx replaced_node_step);
  r ← up_loop attempts_fuel (up_backoff second duration) Backoff.new_iter nodes;
  match r with
  | Some true => mret VNone
  | Some false => raise StepFailedError
  | None => raise OutOfFuel
  end).

Definition RestorePreDataStep : Step SJ SH SE := mkStep cls_RestorePreDataStep (λ ctx,
  m ← lift_res (get_cassandra_manifest ctx cls_ParsePluginManifestStep);
  connect client ;;
  restore_pre_data (session_metadata client) (session_held client) (session_execute client) (cassandra_schema m) ;;
  mret VNone).

Definition RestorePostDataStep : Step SJ SH SE := mkStep cls_RestorePostDataStep (λ ctx,
  m ← lift_res (get_cassandra_manifest ctx cls_ParsePluginManifestStep);
  connect client ;;
  restore_post_data (session_metadata client) (session_held client) (session_execute client) (cassandra_schema m) ;;
  mret VNone).

Definition restore_cassandra_deltas_req : NodeRequest :=
  CassandraRestoreSSTablesRequest "data/*/*/backups/" (filter (λ ks, ks ≠ "system_schema") SYSTEM_KEYSPACES) cfid false.

Definition RestoreCassandraDeltasStep (storage_name : string) (partial : option (list PartialRestoreRequestNode)) : Step SJ SH SE :=
  mkStep cls_RestoreCassandraDeltasStep (run_step (RestoreDeltasStep env cluster_nodes poll_config fuel progress_handler
    storage_name "cassandra/restore-sstables" restore_cassandra_deltas_req partial cls_DeltaManifestsStep)).
Definition RestoreFinalDeltasStep (storage_name : string) (partial : option (list PartialRestoreRequestNode)) : Step SJ SH SE :=
  mkStep cls_RestoreFinalDeltasStep (run_step (RestoreDeltasStep env cluster_nodes poll_config fuel progress_handler
    storage_name "cassandra/restore-sstables" restore_cassandra_deltas_req partial cls_UploadFinalDeltaStep)).

(** ** [plugin.py] *)
Record CassandraPlugin : Type := mkCassandraPlugin {
  p_nodes : option (list CassandraConfigurationNode);
  p_datacenter : option string;
  p_restore_start_timeout : Z;
  (** [client.get_listen_address()] *)
  p_listen_address : option string;
}.

Context (attempts_fuel : nat) (second : Z) (plugin : CassandraPlugin).

(** [self.nodes or [...]] *)
Definition nodes_or_local : list CassandraConfigurationNode :=
  match p_nodes plugin with
  | Some (n :: l) => n :: l
  | _ => [mkCassandraConfigurationNode None None (p_listen_address plugin) None]
  end.

Definition cassandra_backup_steps (storage_name : string) : list (Step SJ SH SE) :=
  [ValidateConfigurationStep nodes_or_local;
   RetrieveSchemaHashStep;
   PrepareCassandraManifestStep nodes_or_local (p_datacenter plugin);
   CassandraSubOpStep remove_snapshot;
   CassandraSubOpStep take_snapshot;
   AssertSchemaUnchanged;
   SnapshotStep env cluster_nodes poll_config fuel progress_handler snapshot_groups "snapshot" None;
   ListHexdigestsStep hex;
   UploadBlocksStep env cluster_nodes poll_config fuel progress_handler storage_name true "upload" cls_ListHexdigestsStep;
   CassandraSubOpStep remove_snapshot;
   SnapshotReleaseStep env cluster_nodes poll_config fuel progress_handler;
   UploadManifestStep json cassandra (Some cls_PrepareCassandraManifestStep) (Some cls_SnapshotStep)
     (Some cls_UploadBlocksStep) JSON_BACKUP_PREFIX].

Definition SkipHexdigestsListStep : Step SJ SH SE := mkStep cls_SkipHexdigestsListStep (λ _, mret (VStrings ∅)).

Definition cassandra_delta_backup_steps (storage_name : string) : list (Step SJ SH SE) :=
  [ValidateConfigurationStep nodes_or_local;
   SnapshotStep env cluster_nodes poll_config fuel progress_handler delta_snapshot_groups "delta/snapshot" None;
   SkipHexdigestsListStep;
   UploadBlocksStep env cluster_nodes poll_config fuel progress_handler storage_name true "delta/upload" cls_SkipHexdigestsListStep;
   UploadManifestStep json cassandra None (Some cls_SnapshotStep) (Some cls_UploadBlocksStep) JSON_DELTA_PREFIX;
   SnapshotClearStep env cluster_nodes poll_config fuel progress_handler "delta/clear"].

(** [assert self.nodes is not None] *)
Definition configured_nodes : res (list CassandraConfigurationNode) :=
  match p_nodes plugin with Some l => Ok l | None => Raise AssertionError end.

Definition get_restore_schema_from_snapshot_steps (storage_name : string) (req : RestoreRequest) : res (list (Step SJ SH SE)) :=
  nodes ← configured_nodes;
  let partial := rr_partial_restore_nodes req in
  Ok [RestoreStep env cluster_nodes poll_config fuel progress_handler storage_name partial;
      CassandraRestoreSubOpStep restore_sstables
        (Some (CassandraRestoreSSTablesRequest "data/*/*/snapshots/astacus-backup"
                 (filter (λ ks, ks ≠ "system_schema") SYSTEM_KEYSPACES) cfid true));
      DeltaManifestsStep json;
      RestoreCassandraDeltasStep storage_name partial;
      StopReplacedNodesStep nodes;
      UploadFinalDeltaStep storage_name;
      RestoreFinalDeltasStep storage_name partial;
      StartCassandraStep true nodes true;
      WaitCassandraUpStep attempts_fuel second (p_restore_start_timeout plugin) (Some cls_StopReplacedNodesStep)].

Definition get_restore_schema_from_manifest_steps (storage_name : string) (req : RestoreRequest) : res (list (Step SJ SH SE)) :=
  nodes ← configured_nodes;
  Ok [StartCassandraStep true nodes false;
      WaitCassandraUpStep attempts_fuel second (p_restore_start_timeout plugin) None;
      RestorePreDataStep;
      CassandraRestoreSubOpStep stop_cassandra None;
      RestoreStep env cluster_nodes poll_config fuel progress_handler storage_name (rr_partial_restore_nodes req);
      CassandraRestoreSubOpStep restore_sstables
        (Some (CassandraRestoreSSTablesRequest "data/*/*/snapshots/astacus-backup" SYSTEM_KEYSPACES cfname true));
      StartCassandraStep false nodes false;
      WaitCassandraUpStep attempts_fuel second (p_restore_start_timeout plugin) None;
      RestorePostDataStep].

Definition cassandra_restore_steps (storage_name : string) (req : RestoreRequest) : res (list (Step SJ SH SE)) :=
  cluster_restore_steps ← (if nonempty (rr_partial_restore_nodes req)
                           then get_restore_schema_from_snapshot_steps storage_name req
                           else get_restore_schema_from_manifest_steps storage_name req);
  Ok ([ValidateConfigurationStep nodes_or_local;
       BackupNameStep json (rr_name req);
       BackupManifestStep json;
       ParsePluginManifestStep;
       MapNodesStep cluster_nodes (rr_partial_restore_nodes req);
       CassandraRestoreSubOpStep stop_cassandra None;
       CassandraRestoreSubOpStep unrestore_sstables None] ++ cluster_restore_steps).

(** Without configured nodes the local node is what a backup takes, but nothing
    can be restored. *)
Lemma restore_needs_nodes storage_name req :
  p_nodes plugin = None → cassandra_restore_steps storage_name req = Raise AssertionError.
Proof using Type.
  intros Hn. unfold cassandra_restore_steps, get_restore_schema_from_snapshot_steps, get_restore_schema_from_manifest_steps, configured_nodes.
  rewrite Hn. by destruct (nonempty _).
Qed.

(** ** The schema does not change while a backup is taken *)

(** Each of the nodes was asked for the hash of the schema in [w], gave a url for
    it, and the url answered [h] before [w']. *)
Definition all_report (nodes : option (list CoordinatorNode)) (h : string) (w w' : W) : Prop :=
  ∃ start_results urls rs w1,
    request ("cassandra/" +:+ subop_value get_schema_hash) (Some PlainNodeRequest) None nodes w = (w1, Ok start_results) ∧
    start_urls start_results = Ok urls ∧ length urls = length (default cluster_nodes nodes) ∧ urls ≠ [] ∧
    Forall2 (answered env decode_schema_hash_result progress_handler w1 w') urls rs ∧
    Forall (λ r, schema_hash r = h) rs.

Lemma hash_subop_run nodes w w' rs :
  run_subop decode_schema_hash_result shr_progress get_schema_hash nodes None None w = (w', Ok rs) →
  ∃ start_results urls w1,
    request ("cassandra/" +:+ subop_value get_schema_hash) (Some PlainNodeRequest) None nodes w = (w1, Ok start_results) ∧
    start_urls start_results = Ok urls ∧ length urls = length (default cluster_nodes nodes) ∧ urls ≠ [] ∧
    Forall2 (answered env decode_schema_hash_result progress_handler w1 w') urls rs.
Proof using Type.
  intros (w1 & start_results & Hreq & H)%bind_inv_ok. destruct (decide (start_results = [])) as [|Hne]; [done|].
  apply bind_inv_ok in H as (w2 & o & Hwait & H). destruct o as [l|]; [|done]. injection H as -> ->.
  pose proof (request_from_nodes_length env cluster_nodes _ _ _ _ _ _ _ _ _ Hreq) as Hlen.
  apply (wait_answered env cluster_nodes) in Hwait as (urls & Hu & HF). exists start_results, urls, w1. split; [done|]. split; [done|].
  pose proof (start_urls_length _ _ Hu) as Hl. split; [congruence|]. split; [|done].
  intros ->. by destruct start_results.
Qed.

Lemma agreed_hash_spec hashes h :
  fst (agreed_hash hashes) = h → h ≠ "" → hashes ≠ [] ∧ Forall (λ x, x = h) hashes.
Proof using Type.
  destruct hashes as [|x l]; simpl; [by intros <-|]. case_decide as Hs; simpl; [|by intros <-]. intros -> Hne. split; [done|].
  apply size_1_elem_of in Hs as [y Hy]. assert (∀ z, z ∈ h :: l ↔ z = y) as Hall.
  { intros z. specialize (Hy z). rewrite elem_of_singleton in Hy. rewrite <- Hy, elem_of_cons. simpl. by rewrite elem_of_union, elem_of_singleton, elem_of_list_to_set. }
  apply Forall_forall. intros z Hz. transitivity y; [by apply Hall|]. symmetry. apply Hall. by left.
Qed.

Lemma get_schema_hash_report nodes w w' h e :
  get_schema_hash_of nodes w = (w', Ok (h, e)) → h ≠ "" → all_report nodes h w w'.
Proof using Type.
  unfold get_schema_hash_of. intros (w1 & rs & Hrun & Heq)%bind_inv_ok Hne. injection Heq as -> Hh.
  apply (f_equal fst) in Hh. destruct (agreed_hash_spec _ _ Hh Hne) as [_ H2].
  apply hash_subop_run in Hrun as (start_results & urls & w2 & Hreq & Hu & Hlen & Hne' & HF).
  exists start_results, urls, rs, w2. by apply Forall_fmap in H2.
Qed.

Lemma RetrieveSchemaHash_ok ctx w w' v :
  run_step RetrieveSchemaHashStep ctx w = (w', Ok v) → ∃ h, v = VHash h ∧ h ≠ "" ∧ all_report None h w w'.
Proof using Type.
  simpl. intros (w1 & [h e] & Hh & Hv)%bind_inv_ok. destruct (decide (h = "")) as [|Hne]; [done|].
  injection Hv as -> <-. exists h. split; [done|]. split; [done|]. by eapply get_schema_hash_report.
Qed.

Lemma AssertSchemaUnchanged_ok ctx w w' v h :
  get_result ctx cls_RetrieveSchemaHashStep = Ok (VHash h) → h ≠ "" →
  run_step AssertSchemaUnchanged ctx w = (w', Ok v) → all_report None h w w'.
Proof using Type.
  simpl. intros Hh Hne. intros (w1 & [h' e] & Hh' & Hv)%bind_inv_ok. destruct (decide (h' = "")) as [|Hne']; [done|].
  unfold get_hash in Hv. rewrite Hh in Hv. simpl in Hv. rewrite (bind_ok _ _ w1 w1 h eq_refl) in Hv.
  destruct (decide (h' ≠ h)) as [| ->%dec_stable]; [done|]. injection Hv as -> <-. by eapply get_schema_hash_report.
Qed.

(** C23: A backup of Cassandra that completes splits into the validation, the
    retrieval of the hash of the schema, the preparation of the manifest with the
    snapshots of the nodes, the second look at the hash, and the rest.  When the
    hash was retrieved each node of the cluster gave the same hash, one answer each, and
    each node gave that hash again when it was looked at after the snapshots. *)
Theorem backup_schema_unchanged storage_name ctx w ctx' w' :
  completes (cassandra_backup_steps storage_name) ctx w ctx' w' →
  ∃ h ctx1 w1 ctx2 w2 ctx3 w3 ctx4 w4,
    completes [ValidateConfigurationStep nodes_or_local] ctx w ctx1 w1 ∧
    completes [RetrieveSchemaHashStep] ctx1 w1 ctx2 w2 ∧ all_report None h w1 w2 ∧
    completes [PrepareCassandraManifestStep nodes_or_local (p_datacenter plugin); CassandraSubOpStep remove_snapshot;
               CassandraSubOpStep take_snapshot] ctx2 w2 ctx3 w3 ∧
    completes [AssertSchemaUnchanged] ctx3 w3 ctx4 w4 ∧ all_report None h w3 w4 ∧
    completes (drop 6 (cassandra_backup_steps storage_name)) ctx4 w4 ctx' w' ∧
    get_result ctx' cls_RetrieveSchemaHashStep = Ok (VHash h).
Proof using Type.
  intros (ctx1 & w1 & Hval & Hc)%(completes_app [_]). apply (completes_app [_]) in Hc as (ctx2 & w2 & Hhash & Hc).
  apply (completes_app [_; _; _]) in Hc as (ctx3 & w3 & Hmid & Hc). apply (completes_app [_]) in Hc as (ctx4 & w4 & Hassert & Hc).
  pose proof Hhash as (v & w2' & ctx2' & Hr & Hset & Hnil)%completes_cons_inv. inversion Hnil; subst. clear Hnil.
  apply RetrieveSchemaHash_ok in Hr as (h & -> & Hne & Hrep).
  pose proof Hassert as (v4 & w4' & ctx4' & Ha & Hset4 & Hnil)%completes_cons_inv. inversion Hnil; subst. clear Hnil.
  apply set_result_spec in Hset as [Hget _].
  pose proof (completes_keeps _ _ _ _ _ _ _ Hmid ltac:(repeat (constructor; [by intros ?|]); constructor) Hget eq_refl) as Hget3.
  pose proof (AssertSchemaUnchanged_ok _ _ _ _ _ Hget3 Hne Ha) as Hrep2.
  apply set_result_spec in Hset4 as [_ Hk].
  pose proof (completes_keeps _ _ _ _ _ _ _ Hc ltac:(repeat (constructor; [by intros ?|]); constructor) (Hk _ _ Hget3 eq_refl) eq_refl) as Hget5.
  exists h, ctx1, w1, ctx2, w2, ctx3, w3, ctx4, w4. do 7 (split; [done|]). exact Hget5.
Qed.

(** ** Waiting for Cassandra ends *)
Section waiting.
Context (time : W → Z) (step : Z).
(** The clock reads the time, nothing sets it back, and a sleep takes at least [step]. *)
Context (Hnow : ∀ w, env_now env w = (w, Ok (time w)))
  (Hsleep : ∀ d w, time w + step ≤ time (fst (env_sleep env d w)))
  (Hpoll : ∀ url w, time w ≤ time (fst (env_poll env url w)))
  (Hrequest : ∀ node path req w, time w ≤ time (fst (env_request env node path req w)))
  (Hhandler : ∀ h p w, progress_handler = Some h → time w ≤ time (fst (h p w)))
  (Hstep : 0 < step) (Hsecond : 1 ≤ second).

Lemma schema_hash_time nodes w : time w ≤ time (fst (get_schema_hash_of nodes w)).
Proof using Hnow Hsleep Hpoll Hrequest Hhandler Hstep.
  set (R := λ w w' : W, time w ≤ time w'). assert (PreOrder R) as HR by (split; [by intros x; unfold R|intros x y z; unfold R; lia]).
  assert (∀ A B (m : M W A) (f : A → M W B) e, R e (fst (m e)) → (∀ a e', R e' (fst (f a e'))) → R e (fst ((m ≫= f) e))) as Hbind.
  { intros A C m f e. by apply R_bind. }
  change (R w (fst (get_schema_hash_of nodes w))). unfold get_schema_hash_of, run_subop, BackupRestore.request, BackupRestore.wait.
  apply Hbind; [|intros; simpl; reflexivity]. apply Hbind.
  { apply request_from_nodes_R; [done|]. intros. apply Hrequest. }
  intros rs w1. case_decide; [simpl; reflexivity|]. apply Hbind; [|intros [l|] ?; simpl; reflexivity].
  apply wait_R; [done|intros e; by rewrite Hnow|intros d e; unfold R; specialize (Hsleep d e); lia|done|done].
Qed.

Lemma up_loop_terminates duration t0 it n nodes w :
  Backoff.iter_ok t0 it → t0 + duration * second - time w < (Z.of_nat n - 1) * step → (1 ≤ n)%nat →
  snd (up_loop n (up_backoff second duration) it nodes w) ≠ Ok None.
Proof using Hnow Hsleep Hpoll Hrequest Hhandler Hstep Hsecond.
  revert it w. induction n as [|n IH]; intros it w Hit Hf H1; [lia|].
  cbn [up_loop]. rewrite (bind_ok _ _ _ _ _ (Hnow w)). set (c := up_backoff second duration).
  destruct (Backoff.next_ok c t0 it (time w) Hit) as (o & it' & Hnext).
  assert (∀ m, Backoff.maximum c = Some m → 0 ≤ m) as Hm by (intros m [= <-]; lia).
  assert (0 ≤ Backoff.initial c) as Hi by (simpl; lia). assert (1 ≤ Backoff.multiplier c) as Hmu by (simpl; lia).
  destruct (Backoff.next_spec c Hi Hmu Hm t0 it (time w) o it' Hit Hnext) as (Hit' & Hr & Hg).
  unfold lift_res at 1. rewrite Hnext. unfold mbind at 1, M_bind at 1.
  destruct o as [[k d]|]; [|done]. destruct (Hg k d eq_refl) as (-> & _ & Hd).
  destruct Hd as [[? _]|(Hn & Hdel & Hdur)]; [destruct Hit; lia|]. specialize (Hdur _ eq_refl).
  assert (0 < d) as Hd.
  { rewrite Hdel. unfold Backoff.raw_delay. simpl.
    assert (1 ≤ second * 2 ^ (Backoff.retry it + 1 - 1)).
    { assert (0 < 2 ^ (Backoff.retry it + 1 - 1)) by (apply Z.pow_pos_nonneg; lia). nia. }
    lia. }
  rewrite (proj2 (Z.ltb_lt 0 d) Hd). pose proof (Hsleep d w) as Hs. unfold mbind at 1, M_bind at 1.
  destruct (env_sleep env d w) as [w1 [[]|x]]; simpl in Hs |- *; [|done].
  pose proof (schema_hash_time nodes w1) as Hp. unfold mbind at 1, M_bind at 1.
  destruct (get_schema_hash_of nodes w1) as [w2 [[h e]|x]]; simpl in Hp |- *; [|done].
  case_decide; [|done]. destruct n as [|n]; [lia|]. apply IH; [done| |lia]. nia.
Qed.

Lemma up_loop_up n c it nodes w w' :
  up_loop n c it nodes w = (w', Ok (Some true)) → ∃ h w1, h ≠ "" ∧ all_report nodes h w1 w'.
Proof using Type.
  revert it w. induction n as [|n IH]; intros it w; [done|]. cbn [up_loop].
  intros (w1 & t & _ & Hx)%bind_inv_ok. apply bind_inv_ok in Hx as (w2 & [[[k d]|] it'] & _ & Hx); [|done].
  apply bind_inv_ok in Hx as (w3 & [] & _ & Hx). apply bind_inv_ok in Hx as (w4 & [h e] & Hh & Hx).
  destruct (decide (h = "")) as [|Hne]; [by eapply IH|]. injection Hx as <-. exists h, w3. split; [done|].
  by eapply get_schema_hash_report.
Qed.

(** Waiting for Cassandra always ends when the clock advances: with the fuel of
    the passes the timeout allows it ends up, when the nodes agree on a schema
    hash, or down, when the time is over, or with an error of the nodes. *)
Theorem wait_cassandra_up_total n duration nodes w :
  0 ≤ duration → duration * second < (Z.of_nat n - 2) * step →
  match up_loop n (up_backoff second duration) Backoff.new_iter nodes w with
  | (_, Ok None) => False
  | (w', Ok (Some true)) => ∃ h w1, h ≠ "" ∧ all_report nodes h w1 w'
  | _ => True
  end.
Proof using Hnow Hsleep Hpoll Hrequest Hhandler Hstep Hsecond.
  intros Hd Hf. destruct (up_loop n _ _ nodes w) as [w' [[[]|]|x]] eqn:E; [by eapply up_loop_up|done| |done].
  revert E. destruct n as [|n]; [nia|]. cbn [up_loop]. rewrite (bind_ok _ _ _ _ _ (Hnow w)).
  unfold lift_res at 1. unfold Backoff.next, Backoff.delay. simpl. unfold mbind at 1, M_bind at 1.
  pose proof (schema_hash_time nodes w) as Hp. unfold mbind at 1, M_bind at 1.
  rewrite Z.ltb_irrefl. unfold mret at 1, M_ret at 1. cbn iota beta. unfold mbind, M_bind.
  destruct (get_schema_hash_of nodes w) as [w2 [[h e]|x]]; simpl in Hp |- *; [|done].
  case_decide; [|done]. intros E.
  apply (up_loop_terminates duration (time w) (Backoff.mkIter (-1 + 1) (Some (time w))) n nodes w2); [split; simpl; [lia|done]| | |].
  - nia.
  - destruct n; [nia|lia].
  - by rewrite E.
Qed.
End waiting.
End steps.

(** ** The theorems on a cluster of one node *)
#[local] Existing Instance identity_codec.

Definition demo_request (node : CoordinatorNode) (path : Path) (req : NodeRequest) : M example_W Reply :=
  match path with
  | PPath "cassandra/get-schema-hash" => mret (Replied 200 (Some (BStart 1 "hash")))
  | PPath "cassandra/take-snapshot" | PPath "cassandra/remove-snapshot" | PPath "release" => mret (Replied 200 (Some (BStart 2 "node")))
  | _ => example_request node path req
  end.
Definition demo_env : ClusterEnv example_W := {|
  env_request := demo_request;
  env_poll url :=
    if decide (url = "hash") then mret (Some (BSchemaHash (mkCassandraGetSchemaHashResult "host" "az" (mkProgress 1 0 1 true) "v1")))
    else if decide (url = "node") then mret (Some (BNode (mkNodeResult "host" "az" (mkProgress 1 0 1 true))))
    else env_poll example_env url;
  env_now := mret 0;
  env_sleep _ := mret tt;
|}.
Definition demo_host : Host := mkHost "id" "10.0.0.1" (Some "10.0.0.1") None "r" "dc".
Definition demo_client : CassandraClient example_W := {|
  connect := mret tt;
  token_to_host_owner _ := [(5, demo_host)];
  from_cassandra_session := mret [];
  session_metadata _ := ∅;
  session_held km _ := km;
  session_execute _ := mret tt;
  create_network_topology_strategy_cql _ := "";
|}.
Definition demo_plugin : CassandraPlugin := mkCassandraPlugin None None 3600 (Some "10.0.0.1").
Definition demo_backup : list (Step _ _ _) :=
  cassandra_backup_steps example_json example_hex demo_env [mkCoordinatorNode "n" "az"] (mkPollConfig 1 2 60 10 5) 3 None
    demo_client (λ _, "{}") demo_plugin "st".

Lemma backup_schema_unchanged_witness :
  let r := try_run demo_backup (mkStepsContext 1 0 []) example_world in
  ∃ ctx', snd r = Ok (ctx', true) ∧
  ∃ h ctx1 w1 ctx2 w2 ctx3 w3 ctx4 w4,
    completes [ValidateConfigurationStep [mkCoordinatorNode "n" "az"] (nodes_or_local demo_plugin)] (mkStepsContext 1 0 []) example_world ctx1 w1 ∧
    completes [RetrieveSchemaHashStep demo_env [mkCoordinatorNode "n" "az"] (mkPollConfig 1 2 60 10 5) 3 None] ctx1 w1 ctx2 w2 ∧
    all_report demo_env [mkCoordinatorNode "n" "az"] None None h w1 w2 ∧
    completes [PrepareCassandraManifestStep demo_client (λ _, "{}") (nodes_or_local demo_plugin) None;
               CassandraSubOpStep demo_env [mkCoordinatorNode "n" "az"] (mkPollConfig 1 2 60 10 5) 3 None remove_snapshot;
               CassandraSubOpStep demo_env [mkCoordinatorNode "n" "az"] (mkPollConfig 1 2 60 10 5) 3 None take_snapshot]
      ctx2 w2 ctx3 w3 ∧
    completes [AssertSchemaUnchanged demo_env [mkCoordinatorNode "n" "az"] (mkPollConfig 1 2 60 10 5) 3 None] ctx3 w3 ctx4 w4 ∧
    all_report demo_env [mkCoordinatorNode "n" "az"] None None h w3 w4 ∧
    completes (drop 6 demo_backup) ctx4 w4 ctx' (fst r) ∧
    get_result ctx' cls_RetrieveSchemaHashStep = Ok (VHash h).
Proof.
  intros r. destruct (snd r) as [[ctx' b]|e] eqn:E; [|vm_compute in E; discriminate E].
  assert (b = true) as -> by (vm_compute in E; injection E; congruence).
  exists ctx'. split; [reflexivity|].
  apply (backup_schema_unchanged example_json example_hex demo_env [mkCoordinatorNode "n" "az"] (mkPollConfig 1 2 60 10 5) 3 None
    demo_client (λ _, "{}") demo_plugin "st" (mkStepsContext 1 0 []) example_world ctx' (fst r)).
  apply try_run_true_iff. change (r = (fst r, Ok (ctx', true))). rewrite <- E. apply surjective_pairing.
Defined.

Lemma restored_ring_witness :
  let nodes := [mkCoordinatorNode "u0" "x"; mkCoordinatorNode "u1" "y"; mkCoordinatorNode "u2" "y"; mkCoordinatorNode "u3" "y"] in
  let mn t := mkCassandraManifestNode ("a" +:+ t) ("id" +:+ t) ("a" +:+ t) "r" [t] in
  let m := mkCassandraManifest [] [mn "1"; mn "2"; mn "3"] in
  NodeMapping.get_node_to_backup_index None NodeMapping.demo_srs nodes = Ok [Some 1; Some 0; Some 2; None]%nat ∧
  ∃ l, start_requests nodes [] true false [Some 1; Some 0; Some 2; None]%nat m = Ok l ∧
    NoDup l.*1 ∧ l.*1 ⊆ nodes ∧
    (∀ node req, (node, req) ∈ l ↔ ∃ i b backup_node,
       nodes !! i = Some node ∧ [Some 1; Some 0; Some 2; None]%nat !! i = Some (Some b) ∧ manifest_nodes m !! b = Some backup_node ∧
       req = start_request [] true false backup_node) ∧
    l.*2 ≡ₚ start_request [] true false <$> manifest_nodes m ∧
    concat (request_tokens <$> l.*2) ≡ₚ concat (mn_tokens <$> manifest_nodes m).
Proof.
  intros nodes mn m.
  assert (NodeMapping.get_node_to_backup_index None NodeMapping.demo_srs nodes = Ok [Some 1; Some 0; Some 2; None]%nat) as H1
    by (vm_compute; reflexivity).
  split; [exact H1|]. apply (restored_ring nodes [] NodeMapping.demo_srs _ m false H1 eq_refl).
  apply (bool_decide_unpack _). vm_compute. exact I.
Defined.

(** A node whose Cassandra is up after three seconds. *)
Definition slow_env : ClusterEnv (world unit unit Z) := {|
  env_request node path req := mret (Replied 200 (Some (BStart 1 "hash")));
  env_poll url := λ w,
    (w, Ok (Some (BSchemaHash (mkCassandraGetSchemaHashResult "host" "az" (mkProgress 1 0 1 true)
                                 (if w_env w <? 3 then "" else "v1")))));
  env_now := λ w, (w, Ok (w_env w));
  env_sleep d := λ w, (mkWorld tt tt (w_env w + Z.max d 1) (w_clock w) (w_op w) (w_shutting_down w), Ok tt);
|}.
Definition slow_world : world unit unit Z := mkWorld tt tt 0 (λ _, 0) (w_op example_world) false.

Lemma wait_cassandra_up_total_witness :
  snd (up_loop slow_env [mkCoordinatorNode "n" "az"] (mkPollConfig 1 2 60 10 5) 13 None 13 (up_backoff 1 10) Backoff.new_iter None slow_world)
    = Ok (Some true) ∧
  match up_loop slow_env [mkCoordinatorNode "n" "az"] (mkPollConfig 1 2 60 10 5) 13 None 13 (up_backoff 1 10) Backoff.new_iter None slow_world with
  | (_, Ok None) => False
  | (w', Ok (Some true)) => ∃ h w1, h ≠ "" ∧ all_report slow_env [mkCoordinatorNode "n" "az"] None None h w1 w'
  | _ => True
  end.
Proof.
  split; [vm_compute; reflexivity|].
  apply (wait_cassandra_up_total slow_env [mkCoordinatorNode "n" "az"] (mkPollConfig 1 2 60 10 5) 13 None 1 w_env 1 ltac:(reflexivity));
    simpl; try lia; intros; simpl; try lia; discriminate.
Defined.
End CassPlugin.
