(* ===== verification/Regex.v ===== *)
(** * Regular expressions ([re]) and the patterns of
      [coordinator/plugins/clickhouse/sql.py]

    A backtracking matcher for the part of [re] that the code uses: greedy
    repetition, groups, assertions on what follows.  [run] lists all matches
    at the beginning of a text, in the order in which Python tries them;
    [matches] says declaratively what a match is. *)

From stdpp Require Import base strings list.
From Stdlib Require Import ZArith NArith Ascii Lia Strings.Byte.
From Stdlib Require Strings.String.
From S2P Require Import Prelude Base64 PyText.

Module Regex.
Notation text := (list byte).
Notation lit := String.list_byte_of_string.

Inductive re : Type :=
| RByte (p : byte → bool)
| REmpty
| RSeq (a b : re)
| RAlt (a b : re)
| RStar (a : re)
(** [$]: a condition on the rest of the text *)
| RAssert (p : text → bool)
| RGroup (name : string) (a : re).

(** The named groups of a match. *)
Notation groups := (list (string * text)).

Section star.
Context (f : text → list (text * groups)).
(** Greedy: more repetitions come first; each one consumes something. *)
Fixpoint star (fuel : nat) (l : text) : list (text * groups) :=
  match fuel with
  | O => []
  | S fuel' => flat_map (λ m, if (length m.1 <? length l)%nat then (λ m', (m'.1, m.2 ++ m'.2)) <$> star fuel' m.1 else []) (f l)
  end ++ [(l, [])].
End star.

Fixpoint run (r : re) (l : text) : list (text * groups) :=
  match r with
  | RByte p => match l with b :: l' => if p b then [(l', [])] else [] | [] => [] end
  | REmpty => [(l, [])]
  | RSeq a b => flat_map (λ m, (λ m', (m'.1, m.2 ++ m'.2)) <$> run b m.1) (run a l)
  | RAlt a b => run a l ++ run b l
  | RStar a => star (run a) (length l) l
  | RAssert p => if p l then [(l, [])] else []
  | RGroup name a => (λ m, (m.1, (name, take (length l - length m.1) l) :: m.2)) <$> run a l
  end.

(** [re.match]: what follows the match, and its groups *)
Definition re_match (r : re) (l : text) : option (text * groups) := head (run r l).
Definition group (name : string) (gs : groups) : text := default [] (dict_get gs name).

(** [finditer]: the groups of the matches that do not overlap, for a pattern
    that does not match the empty text. *)
Fixpoint finditer (r : re) (skip : nat) (l : text) : list groups :=
  match l with
  | [] => []
  | _ :: l' =>
      match skip with
      | S k => finditer r k l'
      | O => match re_match r l with
             | Some (rest, gs) => gs :: finditer r (length l - length rest - 1) l'
             | None => finditer r 0 l'
             end
      end
  end.

(** ** Notations of [re] *)
Definition one (c : byte) : re := RByte (Byte.eqb c).
Fixpoint literal (l : text) : re := match l with [] => REmpty | [c] => one c | c :: l' => RSeq (one c) (literal l') end.
Definition plus (a : re) : re := RSeq a (RStar a).
Fixpoint seq_of (l : list re) : re := match l with [] => REmpty | [a] => a | a :: l' => RSeq a (seq_of l') end.
Definition digit : re := RByte PyInt.is_digit.
(** [\s] and its repetitions *)
Definition space : re := RByte PyInt.is_space.
(** [$], without and with [re.MULTILINE] *)
Definition at_end : re := RAssert (λ l, bool_decide (l = [] ∨ l = [x0a])).
Definition at_line_end : re := RAssert (λ l, match l with [] => true | b :: _ => Byte.eqb b x0a end).

(** ** What a match is *)
Inductive matches : re → text → text → groups → Prop :=
| m_byte p b l : p b = true → matches (RByte p) (b :: l) l []
| m_empty l : matches REmpty l l []
| m_seq a b l l1 l2 g1 g2 : matches a l l1 g1 → matches b l1 l2 g2 → matches (RSeq a b) l l2 (g1 ++ g2)
| m_left a b l l' g : matches a l l' g → matches (RAlt a b) l l' g
| m_right a b l l' g : matches b l l' g → matches (RAlt a b) l l' g
| m_stop a l : matches (RStar a) l l []
| m_more a l l1 l2 g1 g2 : matches a l l1 g1 → (length l1 < length l)%nat → matches (RStar a) l1 l2 g2 → matches (RStar a) l l2 (g1 ++ g2)
| m_assert p l : p l = true → matches (RAssert p) l l []
| m_group name a l l' g : matches a l l' g → matches (RGroup name a) l l' ((name, take (length l - length l') l) :: g).

Lemma elem_of_flat_map {A B} (f : A → list B) l y : y ∈ flat_map f l ↔ ∃ x, x ∈ l ∧ y ∈ f x.
Proof.
  rewrite list_elem_of_In, in_flat_map. split; intros (x & H1 & H2); exists x.
  - by rewrite !list_elem_of_In.
  - by rewrite <- !list_elem_of_In.
Qed.

Lemma elem_of_star a fuel l l' g :
  (∀ l l' g, (l', g) ∈ run a l ↔ matches a l l' g) → length l ≤ fuel →
  (l', g) ∈ star (run a) fuel l ↔ matches (RStar a) l l' g.
Proof.
  intros Ha. revert l l' g. induction fuel as [|fuel IH]; intros l l' g Hl.
  - destruct l; [|simpl in Hl; lia]. simpl. rewrite list_elem_of_singleton. split.
    + intros [= -> ->]. constructor.
    + inversion 1; subst; [done|]. simpl in *. lia.
  - cbn [star]. rewrite elem_of_app, list_elem_of_singleton, elem_of_flat_map. split.
    + intros [([l1 g1] & H1%Ha & H2)|[= -> ->]]; [|constructor]. cbn [fst snd] in H2.
      destruct (length l1 <? length l)%nat eqn:E; [|by apply not_elem_of_nil in H2]. apply Nat.ltb_lt in E.
      apply list_elem_of_fmap in H2 as ([l2 g2] & [= -> ->] & H2). apply IH in H2; [|lia]. by econstructor.
    + inversion 1; subst; [by right|]. left. eexists (_, _). split; [by apply Ha|]. cbn [fst snd].
      rewrite (proj2 (Nat.ltb_lt _ _)) by done. apply list_elem_of_fmap. eexists (_, _). split; [done|]. apply IH; [lia|done].
Qed.

(** [run] lists exactly the matches. *)
Lemma run_matches r l l' g : (l', g) ∈ run r l ↔ matches r l l' g.
Proof.
  revert l l' g. induction r as [p| |a IHa b IHb|a IHa b IHb|a IHa|p|name a IHa]; intros l l' g; cbn [run].
  - destruct l as [|x l]; [split; [by intros ?%not_elem_of_nil|by inversion 1]|]. destruct (p x) eqn:E.
    + rewrite list_elem_of_singleton. split; [intros [= -> ->]; by constructor|by inversion 1; subst].
    + split; [by intros ?%not_elem_of_nil|]. inversion 1; subst; congruence.
  - rewrite list_elem_of_singleton. split; [intros [= -> ->]; constructor|by inversion 1; subst].
  - rewrite elem_of_flat_map. split.
    + intros ([l1 g1] & H1%IHa & H2). apply list_elem_of_fmap in H2 as ([l2 g2] & [= -> ->] & H2%IHb). by econstructor.
    + inversion 1; subst. eexists (_, _). split; [by apply IHa|]. apply list_elem_of_fmap. eexists (_, _). by rewrite IHb.
  - rewrite elem_of_app, IHa, IHb. split; [intros [?|?]; by constructor|by inversion 1; subst; [left|right]].
  - by apply elem_of_star.
  - destruct (p l) eqn:E.
    + rewrite list_elem_of_singleton. split; [intros [= -> ->]; by constructor|by inversion 1; subst].
    + split; [by intros ?%not_elem_of_nil|]. inversion 1; subst; congruence.
  - split.
    + intros H. apply list_elem_of_fmap in H as ([l1 g1] & [= -> ->] & H%IHa). by constructor.
    + inversion 1; subst. apply list_elem_of_fmap. eexists (_, _). split; [done|]. by apply IHa.
Qed.

(** A match is a prefix of the text. *)
Lemma matches_suffix r l l' g : matches r l l' g → ∃ pre, l = pre ++ l'.
Proof.
  induction 1 as [p b l _|l|a b l l1 l2 g1 g2 _ [p1 ->] _ [p2 ->]|a b l l' g _ IH|a b l l' g _ IH|a l
    |a l l1 l2 g1 g2 _ [p1 ->] _ _ [p2 ->]|p l _|name a l l' g _ IH]; try done.
  - by exists [b].
  - by exists [].
  - exists (p1 ++ p2). by rewrite <- app_assoc.
  - by exists [].
  - exists (p1 ++ p2). by rewrite <- app_assoc.
  - by exists [].
Qed.

Lemma re_match_matches r l l' g : re_match r l = Some (l', g) → matches r l l' g.
Proof. unfold re_match. destruct (run r l) as [|m ms] eqn:E; [done|]. intros [= ->]. apply run_matches. rewrite E. by left. Qed.

(** A text with a single match is matched that way. *)
Lemma re_match_unique r l l' g :
  matches r l l' g → (∀ l1 g1, matches r l l1 g1 → (l1, g1) = (l', g)) → re_match r l = Some (l', g).
Proof.
  intros Hm%run_matches Hu. unfold re_match. destruct (run r l) as [|[l1 g1] ms] eqn:E; [by apply not_elem_of_nil in Hm|].
  simpl. f_equal. apply Hu, run_matches. rewrite E. by left.
Qed.

Lemma re_match_none r l : re_match r l = None ↔ ∀ l' g, ¬ matches r l l' g.
Proof.
  unfold re_match. destruct (run r l) as [|[l1 g1] ms] eqn:E; simpl.
  - split; [|done]. intros _ l' g H%run_matches. rewrite E in H. by apply not_elem_of_nil in H.
  - split; [done|]. intros H. exfalso. apply (H l1 g1), run_matches. rewrite E. by left.
Qed.

(** ** Inversion *)
Lemma matches_seq a b l l2 g :
  matches (RSeq a b) l l2 g ↔ ∃ l1 g1 g2, matches a l l1 g1 ∧ matches b l1 l2 g2 ∧ g = g1 ++ g2.
Proof. split; [inversion 1; subst; eauto 10|intros (l1 & g1 & g2 & H1 & H2 & ->); by econstructor]. Qed.
Lemma matches_byte p l l' g : matches (RByte p) l l' g ↔ ∃ b, l = b :: l' ∧ p b = true ∧ g = [].
Proof. split; [inversion 1; subst; eauto|intros (b & -> & Hb & ->); by constructor]. Qed.
Lemma matches_one c l l' g : matches (one c) l l' g ↔ l = c :: l' ∧ g = [].
Proof.
  unfold one. rewrite matches_byte. split.
  - intros (b & -> & Hb%Byte.byte_dec_bl & ->). by subst.
  - intros [-> ->]. exists c. by rewrite Byte.byte_dec_lb.
Qed.
Lemma matches_assert p l l' g : matches (RAssert p) l l' g ↔ p l = true ∧ l' = l ∧ g = [].
Proof. split; [by inversion 1|intros (Hp & -> & ->); by constructor]. Qed.
Lemma matches_group name a l l' g :
  matches (RGroup name a) l l' g ↔ ∃ pre g0, l = pre ++ l' ∧ matches a l l' g0 ∧ g = (name, pre) :: g0.
Proof.
  split.
  - inversion 1 as [| | | | | | | |? ? ? ? g0 H0]; subst. destruct (matches_suffix _ _ _ _ H0) as [pre ->].
    exists pre, g0. split; [done|]. split; [done|]. do 2 f_equal. rewrite length_app. by rewrite take_app_length' by lia.
  - intros (pre & g0 & -> & Hm & ->). apply m_group with (name:=name) in Hm. rewrite length_app, take_app_length' in Hm by lia. done.
Qed.

(** ** Runs of characters *)
Lemma matches_star_byte p l l' g :
  matches (RStar (RByte p)) l l' g ↔ ∃ ds, forallb p ds = true ∧ l = ds ++ l' ∧ g = [].
Proof.
  split.
  - remember (RStar (RByte p)) as r eqn:Er. intros H. induction H as [| | | | | | a l l1 l2 g1 g2 H1 _ Hlt H2 IH| |]; try done.
    + by exists [].
    + injection Er as ->. destruct (IH eq_refl) as (ds & Hds & -> & ->). inversion H1 as [? b ? Hb| | | | | | | |]; subst.
      exists (b :: ds). simpl. by rewrite Hb.
  - intros (ds & Hds & -> & ->). induction ds as [|b ds IH]; [constructor|]. simpl in Hds. apply andb_prop in Hds as [Hb Hds].
    change ([] : groups) with ([] ++ [] : groups). eapply m_more; [by apply (m_byte p b (ds ++ l'))|simpl; lia|by apply IH].
Qed.

Lemma matches_plus_byte p l l' g :
  matches (plus (RByte p)) l l' g ↔ ∃ ds, ds ≠ [] ∧ forallb p ds = true ∧ l = ds ++ l' ∧ g = [].
Proof.
  unfold plus. split.
  - inversion 1 as [| |? ? ? l1 ? g1 g2 H1 H2| | | | | |]; subst. apply matches_star_byte in H2 as (ds & Hds & -> & ->).
    inversion H1 as [? b ? Hb| | | | | | | |]; subst. exists (b :: ds). simpl. by rewrite Hb.
  - intros ([|b ds] & Hne & Hds & -> & ->); [done|]. simpl in Hds. apply andb_prop in Hds as [Hb Hds].
    change ([] : groups) with ([] ++ [] : groups). econstructor; [by apply (m_byte p b (ds ++ l'))|]. apply matches_star_byte. by exists ds.
Qed.

(** Sequences that begin with a character, a run or a group of one. *)
Lemma seq_one c b l l' g : matches (RSeq (one c) b) l l' g ↔ ∃ l1, l = c :: l1 ∧ matches b l1 l' g.
Proof.
  rewrite matches_seq. split.
  - intros (l1 & ? & g2 & [-> ->]%matches_one & H & ->). by exists l1.
  - intros (l1 & -> & H). exists l1, [], g. by rewrite matches_one.
Qed.
Lemma matches_literal w l l' g : matches (literal w) l l' g ↔ l = w ++ l' ∧ g = [].
Proof.
  revert l g. induction w as [|c [|d w] IH]; intros l g.
  - split; [by inversion 1|intros [-> ->]; constructor].
  - apply matches_one.
  - change (literal (c :: d :: w)) with (RSeq (one c) (literal (d :: w))). rewrite seq_one. split.
    + intros (l1 & -> & [-> ->]%IH). done.
    + intros [-> ->]. exists ((d :: w) ++ l'). split; [done|]. by apply IH.
Qed.
Lemma seq_plus p b l l' g :
  matches (RSeq (plus (RByte p)) b) l l' g ↔ ∃ ds l1, ds ≠ [] ∧ forallb p ds = true ∧ l = ds ++ l1 ∧ matches b l1 l' g.
Proof.
  rewrite matches_seq. split.
  - intros (l1 & ? & g2 & (ds & Hne & Hds & -> & ->)%matches_plus_byte & H & ->). by exists ds, l1.
  - intros (ds & l1 & Hne & Hds & -> & H). exists l1, [], g. rewrite matches_plus_byte. split; [by exists ds|done].
Qed.
Lemma seq_group name (P : text → Prop) a b l l' g :
  (∀ l l' g, matches a l l' g ↔ ∃ ds, P ds ∧ l = ds ++ l' ∧ g = []) →
  matches (RSeq (RGroup name a) b) l l' g ↔ ∃ ds l1 g1, P ds ∧ l = ds ++ l1 ∧ matches b l1 l' g1 ∧ g = (name, ds) :: g1.
Proof.
  intros Ha. rewrite matches_seq. split.
  - intros (l1 & ? & g2 & (ds & ? & -> & H1 & ->)%matches_group & H & ->). apply Ha in H1 as (ds' & Hds & ->%app_inv_tail & ->).
    by exists ds', l1, g2.
  - intros (ds & l1 & g1 & Hds & -> & H & ->). exists l1, [(name, ds)], g1. split; [|done]. apply matches_group. exists ds, [].
    split; [done|]. split; [|done]. apply Ha. by exists ds.
Qed.
Definition is_run (p : byte → bool) (ds : text) : Prop := ds ≠ [] ∧ forallb p ds = true.
Lemma is_run_plus p l l' g : matches (plus (RByte p)) l l' g ↔ ∃ ds, is_run p ds ∧ l = ds ++ l' ∧ g = [].
Proof. rewrite matches_plus_byte. unfold is_run. naive_solver. Qed.
Definition is_char (p : byte → bool) (ds : text) : Prop := ∃ c, ds = [c] ∧ p c = true.
Lemma is_char_byte p l l' g : matches (RByte p) l l' g ↔ ∃ ds, is_char p ds ∧ l = ds ++ l' ∧ g = [].
Proof. rewrite matches_byte. unfold is_char. naive_solver. Qed.

(** The longest run ends where the next character is not in it. *)
Lemma run_unique (p : byte → bool) (a b : text) x y l k :
  forallb p a = true → forallb p b = true → p x = false → p y = false → a ++ x :: l = b ++ y :: k → a = b ∧ x = y ∧ l = k.
Proof.
  revert b. induction a as [|c a IH]; intros [|d b] Ha Hb Hx Hy E; simpl in *; simplify_eq; [done| | |].
  - apply andb_prop in Hb as [Hd _]. congruence.
  - apply andb_prop in Ha as [Hd _]. congruence.
  - apply andb_prop in Ha as [_ Ha], Hb as [_ Hb]. destruct (IH b Ha Hb Hx Hy ltac:(done)) as (-> & -> & ->). done.
Qed.
End Regex.

(** ** [coordinator/plugins/clickhouse/sql.py] *)
Module Sql.
Import Regex.

Inductive TokenType : Type :=
| Integer | QuotedIdentifier | RawIdentifier | String_ | Equal | Comma | OpenParenthesis | CloseParenthesis | Space | EOF.

Definition is_hex (b : byte) : bool := bool_decide (is_Some (PyInt.digit_value 16 b)).
Definition is_word (b : byte) : bool := bool_decide (is_Some (PyInt.digit_value 36 b)) || Byte.eqb b x5f.
Definition not_in (l : text) : re := RByte (λ b, negb (existsb (Byte.eqb b) l)).

(** The inside of a quoted text: escape sequences and other characters. *)
Definition quoted (quote : byte) : re :=
  seq_of [one quote;
          RStar (RAlt (seq_of [one x5c; one x78; RByte is_hex; RByte is_hex]) (RAlt (seq_of [one x5c; not_in [x78]]) (not_in [x5c; quote])));
          one quote].

(** [TokenType.value] *)
Definition value (t : TokenType) : option re :=
  match t with
  | Integer => Some (RSeq (RAlt (one x2d) REmpty) (plus digit))
  | QuotedIdentifier => Some (quoted x60)
  | RawIdentifier => Some (plus (RByte is_word))
  | String_ => Some (quoted x27)
  | Equal => Some (one x3d)
  | Comma => Some (one x2c)
  | OpenParenthesis => Some (one x28)
  | CloseParenthesis => Some (one x29)
  | Space => Some (plus space)
  | EOF => None
  end.

(** [bytes | TokenType]: plain words, a token, or a pattern built before. *)
Inductive pattern : Type :=
| PWords (words : list string)
| PToken (t : TokenType)
| PRe (r : re).

Fixpoint join_re (sep : re) (l : list re) : re :=
  match l with [] => REmpty | [a] => a | a :: l' => RSeq a (RSeq sep (join_re sep l')) end.

(** [_to_bytes_pattern]; [EOF] has no pattern, and is not used in one. *)
Definition to_bytes_pattern (p : pattern) : re :=
  match p with
  | PWords words => join_re (plus space) ((λ w, literal (lit w)) <$> words)
  | PToken t => default REmpty (value t)
  | PRe r => r
  end.
Definition named_group (name : string) (p : pattern) : pattern := PRe (RGroup name (to_bytes_pattern p)).
Definition chain_of (patterns : list pattern) : re := join_re (RStar space) (to_bytes_pattern <$> patterns).
Definition one_of (patterns : list pattern) : pattern :=
  PRe (match to_bytes_pattern <$> patterns with [] => REmpty | r :: rs => foldl RAlt r rs end).
End Sql.
