(* ===== verification/ChObjects.v ===== *)
(** * Object storage disks of ClickHouse
      ([coordinator/plugins/clickhouse/file_metadata.py],
      [async_object_storage.py] and the steps of [steps.py] on them)

    A metadata file on a local disk names the objects of an object storage
    that hold the data.  A backup lists these objects; a restore copies them
    when the storages differ; a cleanup deletes those that no backup needs. *)

From stdpp Require Import base gmap strings list sorting.
From Stdlib Require Import ZArith NArith Lia Ascii Strings.Byte.
From S2P Require Import Prelude Progress Ipc Base64 PyText Regex ChText ChParts.

(** ** Metadata files *)
Module FileMetadata.
Import Regex.

Record ObjectMetadata : Type := mkObjectMetadata {
  size_bytes : Z;
  relative_path : string;
}.

Record FileMetadata : Type := mkFileMetadata {
  metadata_version : Z;
  objects : list ObjectMetadata;
  ref_count : Z;
  read_only : bool;
}.

Notation nl := x0a.
Notation tab := x09.
Definition not_nl (b : byte) : bool := negb (Byte.eqb b nl).

(** [\d+\t[^\n]+\n] *)
Definition OBJECT_LINE : re := seq_of [plus digit; one tab; plus (RByte not_nl); one nl].
Definition FILE_METADATA_RE : re :=
  seq_of [RGroup "metadata_version" (one x33); one nl;
          RGroup "objects_count" (plus digit); one tab; RGroup "objects_size_bytes" (plus digit); one nl;
          RGroup "objects" (RStar OBJECT_LINE);
          RGroup "ref_count" (plus digit); one nl;
          RGroup "read_only" (RByte (λ b, Byte.eqb b x30 || Byte.eqb b x31)); one nl; at_end].
Definition OBJECT_METADATA_RE : re :=
  seq_of [RGroup "size_bytes" (plus digit); one tab; RGroup "relative_path" (plus (RByte not_nl)); at_line_end].

Definition object_metadata (object_match : groups) : res ObjectMetadata :=
  size ← PyInt.int_of 10 (group "size_bytes" object_match);
  path ← Utf8.decode_bytes (group "relative_path" object_match);
  Ok (mkObjectMetadata size path).

Definition total_size (objects : list ObjectMetadata) : Z := foldr Z.add 0%Z (size_bytes <$> objects).

(** [FileMetadata.from_bytes] *)
Definition from_bytes (content : list byte) : res FileMetadata :=
  match re_match FILE_METADATA_RE content with
  | None => Raise InvalidFileMetadata
  | Some (_, file_match) =>
      objects_metadata ← fold_res (λ acc m, o ← object_metadata m; Ok (acc ++ [o])) []
        (finditer OBJECT_METADATA_RE 0 (group "objects" file_match));
      expected_objects_count ← PyInt.int_of 10 (group "objects_count" file_match);
      expected_objects_size ← PyInt.int_of 10 (group "objects_size_bytes" file_match);
      let total_objects_size := total_size objects_metadata in
      if negb (Z.of_nat (length objects_metadata) =? expected_objects_count)%Z then Raise InvalidFileMetadata
      else if negb (total_objects_size =? expected_objects_size)%Z then Raise InvalidFileMetadata
      else
        version ← PyInt.int_of 10 (group "metadata_version" file_match);
        refs ← PyInt.int_of 10 (group "ref_count" file_match);
        Ok (mkFileMetadata version objects_metadata refs (bool_decide (group "read_only" file_match = [x31])))
  end.

(** *** The format

    [number ds n]: decimal digits that [int] reads as [n]. *)
Definition number (ds : list byte) (n : Z) : Prop :=
  ds ≠ [] ∧ forallb PyInt.is_digit ds = true ∧ n = Z.of_N (PyInt.value 10 ds) ∧ length ds ≤ PyInt.max_str_digits.
Definition object_line (o : ObjectMetadata) (line : list byte) : Prop :=
  ∃ ds, number ds (size_bytes o) ∧ relative_path o ≠ "" ∧ forallb not_nl (Utf8.encode_bytes (relative_path o)) = true ∧
    Utf8.valid_utf8 (relative_path o) = true ∧ line = ds ++ tab :: Utf8.encode_bytes (relative_path o) ++ [nl].
(** A metadata file, possibly with an empty line at the end. *)
Definition metadata_text (fm : FileMetadata) (content : list byte) : Prop :=
  ∃ count size lines refs last,
    content = x33 :: nl :: count ++ tab :: size ++ nl :: concat lines ++ refs ++ nl ::
              (if read_only fm then x31 else x30) :: nl :: last ∧
    (last = [] ∨ last = [nl]) ∧ metadata_version fm = 3%Z ∧ number count (Z.of_nat (length (objects fm))) ∧
    number size (total_size (objects fm)) ∧ Forall2 object_line (objects fm) lines ∧ number refs (ref_count fm).

(** *** What the two expressions match *)
Definition raw_line (line : list byte) : Prop :=
  ∃ ds path, ds ≠ [] ∧ forallb PyInt.is_digit ds = true ∧ path ≠ [] ∧ forallb not_nl path = true ∧ line = ds ++ tab :: path ++ [nl].
Definition is_lines (l : list byte) : Prop := ∃ lines, l = concat lines ∧ Forall raw_line lines.
Definition raw_text (content count size objs refs : list byte) (ro : byte) (last : list byte) : Prop :=
  content = x33 :: nl :: count ++ tab :: size ++ nl :: objs ++ refs ++ nl :: ro :: nl :: last ∧
  is_lines objs ∧
  Forall (λ ds, ds ≠ [] ∧ forallb PyInt.is_digit ds = true) [count; size; refs] ∧
  (ro = x30 ∨ ro = x31) ∧ (last = [] ∨ last = [nl]).
Definition raw_groups (count size objs refs : list byte) (ro : byte) : groups :=
  [("metadata_version", [x33]); ("objects_count", count); ("objects_size_bytes", size); ("objects", objs);
   ("ref_count", refs); ("read_only", [ro])].

Lemma matches_line l l' g : matches OBJECT_LINE l l' g ↔ ∃ line, raw_line line ∧ l = line ++ l' ∧ g = [].
Proof.
  unfold OBJECT_LINE, digit. cbn [seq_of]. rewrite seq_plus. split.
  - intros (ds & a1 & Hne & Hds & -> & (a2 & -> & H)%seq_one).
    apply seq_plus in H as (path & a3 & Hp & Hnl & -> & [-> ->]%matches_one).
    exists (ds ++ tab :: path ++ [nl]). split; [by exists ds, path|]. by simplify_list_eq.
  - intros (line & (ds & path & Hne & Hds & Hp & Hnl & ->) & -> & ->). exists ds, (tab :: path ++ nl :: l').
    split; [done|]. split; [done|]. split; [by simplify_list_eq|]. apply seq_one. eexists. split; [done|].
    apply seq_plus. exists path, (nl :: l'). by rewrite matches_one.
Qed.

Lemma matches_lines l l' g : matches (RStar OBJECT_LINE) l l' g ↔ ∃ objs, is_lines objs ∧ l = objs ++ l' ∧ g = [].
Proof.
  split.
  - remember (RStar OBJECT_LINE) as r eqn:Er. intros H. induction H as [| | | | | | a l l1 l2 g1 g2 H1 _ Hlt H2 IH| |]; try done.
    + exists []. split; [by exists []|done].
    + injection Er as ->. destruct (IH eq_refl) as (? & (lines & -> & Hls) & -> & ->).
      apply matches_line in H1 as (line & Hl & -> & ->). exists (line ++ concat lines).
      split; [exists (line :: lines); split; [done|by constructor]|]. by rewrite <- app_assoc.
  - intros (? & (lines & -> & Hls) & -> & ->). induction Hls as [|line lines Hl Hls IH]; [constructor|].
    simpl. rewrite <- app_assoc. change ([] : groups) with ([] ++ [] : groups).
    eapply m_more; [apply matches_line; by exists line| |exact IH].
    destruct Hl as (ds & path & _ & _ & _ & _ & ->). rewrite !length_app. simpl. lia.
Qed.

Definition is_version (l : list byte) : Prop := l = [x33].
Lemma matches_version l l' g : matches (one x33) l l' g ↔ ∃ ds, is_version ds ∧ l = ds ++ l' ∧ g = [].
Proof. rewrite matches_one. unfold is_version. naive_solver. Qed.

Lemma matches_file content rest gs :
  matches FILE_METADATA_RE content rest gs ↔
  ∃ count size objs refs ro, raw_text content count size objs refs ro rest ∧ gs = raw_groups count size objs refs ro.
Proof.
  unfold FILE_METADATA_RE, digit. cbn [seq_of]. rewrite (seq_group _ _ _ _ _ _ _ matches_version). split.
  - intros (? & a1 & g1 & -> & -> & (a2 & -> & H)%seq_one & ->).
    apply (seq_group _ _ _ _ _ _ _ (is_run_plus _)) in H as (count & a3 & g2 & Hc & -> & (a4 & -> & H)%seq_one & ->).
    apply (seq_group _ _ _ _ _ _ _ (is_run_plus _)) in H as (size & a5 & g3 & Hs & -> & (a6 & -> & H)%seq_one & ->).
    apply (seq_group _ _ _ _ _ _ _ matches_lines) in H as (objs & a7 & g4 & Ho & -> & H & ->).
    apply (seq_group _ _ _ _ _ _ _ (is_run_plus _)) in H as (refs & a8 & g5 & Hr & -> & (a9 & -> & H)%seq_one & ->).
    apply (seq_group _ _ _ _ _ _ _ (is_char_byte _)) in H as (? & a10 & g6 & (ro & -> & Hro) & -> & (a11 & -> & H)%seq_one & ->).
    apply matches_assert in H as (Hend%bool_decide_eq_true & -> & ->).
    exists count, size, objs, refs, ro. split; [|done]. split; [by simplify_list_eq|]. split; [done|].
    split; [by rewrite !Forall_cons, Forall_nil|]. split; [|done].
    apply orb_true_iff in Hro as [?%Byte.byte_dec_bl|?%Byte.byte_dec_bl]; auto.
  - intros (count & size & objs & refs & ro & (-> & Ho & HF & Hro & Hend) & ->).
    apply Forall_cons in HF as [Hc [Hs [Hr _]%Forall_cons]%Forall_cons]. unfold raw_groups.
    eexists [x33], _, _. split; [done|]. split; [done|]. split; [|done]. apply seq_one. eexists. split; [done|].
    apply (seq_group _ _ _ _ _ _ _ (is_run_plus _)). exists count. eexists _, _. split; [done|]. split; [done|]. split; [|done].
    apply seq_one. eexists. split; [done|].
    apply (seq_group _ _ _ _ _ _ _ (is_run_plus _)). exists size. eexists _, _. split; [done|]. split; [done|]. split; [|done].
    apply seq_one. eexists. split; [done|].
    apply (seq_group _ _ _ _ _ _ _ matches_lines). exists objs. eexists _, _. split; [done|]. split; [done|]. split; [|done].
    apply (seq_group _ _ _ _ _ _ _ (is_run_plus _)). exists refs. eexists _, _. split; [done|]. split; [done|]. split; [|done].
    apply seq_one. eexists. split; [done|].
    apply (seq_group _ _ _ _ _ _ _ (is_char_byte _)). exists [ro]. eexists _, _.
    split; [exists ro; split; [done|by destruct Hro as [->| ->]]|]. split; [done|]. split; [|done].
    apply seq_one. eexists. split; [done|]. apply matches_assert. split; [by apply bool_decide_eq_true|done].
Qed.

Lemma lines_unique ls1 ls2 r1 r2 t1 t2 :
  Forall raw_line ls1 → Forall raw_line ls2 → is_run PyInt.is_digit r1 → is_run PyInt.is_digit r2 →
  concat ls1 ++ r1 ++ nl :: t1 = concat ls2 ++ r2 ++ nl :: t2 → ls1 = ls2 ∧ r1 = r2 ∧ t1 = t2.
Proof.
  intros H1 H2 [_ Hr1] [_ Hr2]. revert ls2 H2. induction H1 as [|l1 ls1 Hl1 Hls1 IH]; intros [|l2 ls2] H2 E; simpl in E.
  - apply (run_unique PyInt.is_digit) in E as (-> & _ & ->); done.
  - apply Forall_cons in H2 as [(ds & path & _ & Hds & _ & _ & ->) _]. simplify_list_eq.
    apply (run_unique PyInt.is_digit) in E as (_ & ? & _); done.
  - destruct Hl1 as (ds & path & _ & Hds & _ & _ & ->). simplify_list_eq.
    apply (run_unique PyInt.is_digit) in E as (_ & ? & _); done.
  - apply Forall_cons in H2 as [(ds2 & path2 & _ & Hds2 & _ & Hp2 & ->) H2].
    destruct Hl1 as (ds1 & path1 & _ & Hds1 & _ & Hp1 & ->). simplify_list_eq.
    apply (run_unique PyInt.is_digit) in E as (-> & _ & E); [|done..].
    apply (run_unique not_nl) in E as (-> & _ & E); [|done..].
    destruct (IH ls2 H2 E) as (-> & -> & ->). done.
Qed.

Lemma raw_text_unique content c1 s1 o1 r1 b1 l1 c2 s2 o2 r2 b2 l2 :
  raw_text content c1 s1 o1 r1 b1 l1 → raw_text content c2 s2 o2 r2 b2 l2 →
  (c1, s1, o1, r1, b1, l1) = (c2, s2, o2, r2, b2, l2).
Proof.
  intros (-> & (ls1 & -> & Hls1) & HF1 & _ & _) (E & (ls2 & -> & Hls2) & HF2 & _ & _).
  rewrite !Forall_cons, Forall_nil in HF1, HF2. destruct HF1 as ([_ Hc1] & [_ Hs1] & Hr1 & _), HF2 as ([_ Hc2] & [_ Hs2] & Hr2 & _).
  injection E as E. apply (run_unique PyInt.is_digit) in E as (-> & _ & E); [|done..].
  apply (run_unique PyInt.is_digit) in E as (-> & _ & E); [|done..].
  apply lines_unique in E as (-> & -> & E); [|done..]. by injection E as -> ->.
Qed.

Lemma re_match_file content rest gs :
  re_match FILE_METADATA_RE content = Some (rest, gs) ↔
  ∃ count size objs refs ro, raw_text content count size objs refs ro rest ∧ gs = raw_groups count size objs refs ro.
Proof.
  split; [by intros H%re_match_matches%matches_file|]. intros (c & s & o & r & b & Hraw & ->). apply re_match_unique.
  - apply matches_file. by exists c, s, o, r, b.
  - intros l1 g1 (c1 & s1 & o1 & r1 & b1 & Hraw1 & ->)%matches_file.
    pose proof (raw_text_unique _ _ _ _ _ _ _ _ _ _ _ _ _ Hraw Hraw1). by simplify_eq.
Qed.

(** *** The objects *)
Definition line_groups (line : list byte) (gs : groups) : Prop :=
  ∃ ds path, is_run PyInt.is_digit ds ∧ is_run not_nl path ∧ line = ds ++ tab :: path ++ [nl] ∧
    gs = [("size_bytes", ds); ("relative_path", path)].

Lemma match_object ds path rest :
  is_run PyInt.is_digit ds → is_run not_nl path →
  re_match OBJECT_METADATA_RE (ds ++ tab :: path ++ nl :: rest) = Some (nl :: rest, [("size_bytes", ds); ("relative_path", path)]).
Proof.
  intros Hds Hpath. apply re_match_unique; unfold OBJECT_METADATA_RE, digit; cbn [seq_of].
  - apply (seq_group _ _ _ _ _ _ _ (is_run_plus _)). eexists ds, _, _. split; [done|]. split; [done|]. split; [|done].
    apply seq_one. eexists. split; [done|]. apply (seq_group _ _ _ _ _ _ _ (is_run_plus _)). eexists path, _, _.
    split; [done|]. split; [done|]. split; [|done]. by apply matches_assert.
  - intros l g H. apply (seq_group _ _ _ _ _ _ _ (is_run_plus _)) in H as (ds' & a1 & g1 & Hds' & E & (a2 & -> & H)%seq_one & ->).
    apply (run_unique PyInt.is_digit) in E as (<- & _ & <-); [|by apply Hds|by apply Hds'|done..].
    apply (seq_group _ _ _ _ _ _ _ (is_run_plus _)) in H as (path' & a3 & g2 & Hpath' & E & (Hend & -> & ->)%matches_assert & ->).
    destruct a3 as [|b a3].
    + rewrite app_nil_r in E. subst path'. destruct Hpath' as [_ Hp']. rewrite forallb_app in Hp'. simpl in Hp'.
      by rewrite andb_false_r in Hp'.
    + apply Byte.byte_dec_bl in Hend as ->. apply (run_unique not_nl) in E as (<- & _ & <-); [done|by apply Hpath|by apply Hpath'|done..].
Qed.

Lemma finditer_skip r k pre rest : length pre = k → finditer r k (pre ++ rest) = finditer r 0 rest.
Proof.
  revert k. induction pre as [|b pre IH]; intros k Hk; simpl in *; subst; [done|]. simpl. by apply IH.
Qed.

Lemma finditer_line ds path rest :
  is_run PyInt.is_digit ds → is_run not_nl path →
  finditer OBJECT_METADATA_RE 0 (ds ++ tab :: path ++ nl :: rest) =
    [("size_bytes", ds); ("relative_path", path)] :: finditer OBJECT_METADATA_RE 0 rest.
Proof.
  intros Hds Hpath. pose proof (match_object ds path rest Hds Hpath) as Hm.
  destruct Hds as [Hne _]. destruct ds as [|b ds]; [done|]. cbn [app finditer] in Hm |- *. rewrite Hm. f_equal.
  change (ds ++ tab :: path ++ nl :: rest) with (ds ++ (tab :: path) ++ nl :: rest).
  rewrite (app_assoc ds). rewrite finditer_skip by (rewrite !length_app; simpl; rewrite !length_app; simpl; lia).
  cbn [finditer]. replace (re_match OBJECT_METADATA_RE (nl :: rest)) with (@None (text * groups)); [done|].
  symmetry. apply re_match_none. intros l' g H. unfold OBJECT_METADATA_RE, digit in H. cbn [seq_of] in H.
  apply (seq_group _ _ _ _ _ _ _ (is_run_plus _)) in H as ([|b' ds'] & a1 & g1 & [Hd Hds'] & E & _); [done|].
  by injection E as <- _.
Qed.

Lemma finditer_lines lines : Forall raw_line lines → Forall2 line_groups lines (finditer OBJECT_METADATA_RE 0 (concat lines)).
Proof.
  induction 1 as [|line lines (ds & path & Hne & Hds & Hp & Hnl & ->) Hls IH]; [constructor|].
  replace (concat ((ds ++ tab :: path ++ [nl]) :: lines)) with (ds ++ tab :: path ++ nl :: concat lines) by by simplify_list_eq.
  rewrite finditer_line by done. constructor; [|done]. by exists ds, path.
Qed.

(** *** Numbers and objects *)
Lemma number_int ds n : is_run PyInt.is_digit ds → PyInt.int_of 10 ds = Ok n ↔ number ds n.
Proof.
  intros [Hne Hd]. rewrite PyInt.int_of_digits by auto. unfold number. change (10 =? 10)%N with true. cbn [andb].
  destruct (PyInt.max_str_digits <? length ds)%nat eqn:E.
  - apply Nat.ltb_lt in E. split; [done|]. intros (_ & _ & _ & H). lia.
  - apply Nat.ltb_ge in E. naive_solver.
Qed.

Lemma number_run ds n : number ds n → is_run PyInt.is_digit ds.
Proof. by intros (Hne & Hd & _). Qed.

Lemma decode_bytes_ok b s : Utf8.decode_bytes b = Ok s ↔ b = Utf8.encode_bytes s ∧ Utf8.valid_utf8 s = true.
Proof.
  unfold Utf8.decode_bytes, Utf8.decode, Utf8.encode_bytes. split.
  - destruct (Utf8.valid_utf8 _) eqn:E; [|done]. intros [= <-]. by rewrite String.list_byte_of_string_of_list_byte.
  - intros [-> Hv]. by rewrite String.string_of_list_byte_of_string, Hv.
Qed.

Lemma object_metadata_ok line gs o : line_groups line gs → object_metadata gs = Ok o ↔ object_line o line.
Proof.
  intros (ds & path & Hds & Hpath & -> & ->). unfold object_metadata.
  change (group "size_bytes" _) with ds. change (group "relative_path" _) with path.
  split.
  - intros (n & Hn & (p & Hp & [= <-])%rbind_inv_ok)%rbind_inv_ok. apply (number_int ds) in Hn; [|done].
    apply decode_bytes_ok in Hp as [-> Hv]. exists ds. simpl. split; [done|]. destruct Hpath as [Hne Hnl].
    split; [by intros ->|]. split; [done|]. split; [done|done].
  - intros (ds' & Hn & Hne & Hnl & Hv & E). apply (run_unique PyInt.is_digit) in E as (<- & _ & E);
      [|by apply Hds|by apply (number_run _ _ Hn)|done..].
    apply app_inv_tail in E as ->. apply number_int in Hn; [|done]. rewrite Hn. simpl.
    replace (Utf8.decode_bytes _) with (Ok (relative_path o)); [by destruct o|]. symmetry. by apply decode_bytes_ok.
Qed.

Lemma object_metadatas_ok lines gss os :
  Forall2 line_groups lines gss →
  fold_res (λ acc m, o ← object_metadata m; Ok (acc ++ [o])) [] gss = Ok os ↔ Forall2 object_line os lines.
Proof.
  intros HF. assert (∀ acc, fold_res (λ acc m, o ← object_metadata m; Ok (acc ++ [o])) acc gss = Ok os ↔
    ∃ os', os = acc ++ os' ∧ Forall2 object_line os' lines) as Hgen.
  { induction HF as [|line gs lines gss Hl HF IH]; intros acc.
    - simpl. split; [intros [= ->]; exists []; by rewrite app_nil_r|]. intros (os' & -> & HF0).
      apply Forall2_nil_inv_r in HF0 as ->. by rewrite app_nil_r.
    - simpl. split.
      + intros (acc' & (o & Ho & [= <-])%rbind_inv_ok & H)%rbind_inv_ok. apply IH in H as (os' & -> & HF').
        exists (o :: os'). rewrite <- app_assoc. split; [done|]. constructor; [|done]. by apply (object_metadata_ok _ gs).
      + intros (os' & -> & HF0). apply Forall2_cons_inv_r in HF0 as (o & os & Ho & HF' & ->).
        apply (object_metadata_ok _ gs) in Ho; [|done]. rewrite Ho. simpl. apply IH. exists os. by rewrite <- app_assoc. }
  rewrite Hgen. split; [by intros (os' & -> & H)|by exists os].
Qed.

Lemma object_line_raw o line : object_line o line → raw_line line.
Proof.
  intros (ds & (Hne & Hd & _) & Hp & Hnl & _ & ->). exists ds, (Utf8.encode_bytes (relative_path o)).
  split; [done|]. split; [done|]. split; [|done]. by destruct (relative_path o).
Qed.

(** A metadata file of a remote disk is read exactly when it follows the
    format with the right number of objects and the right total size, and
    what is read is what it says. *)
Theorem from_bytes_exact (content : list byte) (fm : FileMetadata) :
  from_bytes content = Ok fm ↔ metadata_text fm content.
Proof.
  unfold from_bytes. split.
  - destruct (re_match FILE_METADATA_RE content) as [[rest gs]|] eqn:Em; [|done].
    apply re_match_file in Em as (count & size & ? & refs & ro & (-> & (lines & -> & Hls) & HF & Hro & Hend) & ->).
    rewrite !Forall_cons, Forall_nil in HF. destruct HF as (Hc & Hs & Hr & _).
    change (group "objects" _) with (concat lines). change (group "objects_count" _) with count.
    change (group "objects_size_bytes" _) with size. change (group "ref_count" _) with refs.
    change (group "metadata_version" _) with [x33]. change (group "read_only" _) with [ro].
    intros (os & Hos & (n & Hn & (sz & Hsz & H)%rbind_inv_ok)%rbind_inv_ok)%rbind_inv_ok.
    destruct (Z.of_nat (length os) =? n)%Z eqn:E1; [|done]. destruct (total_size os =? sz)%Z eqn:E2; [|done].
    apply Z.eqb_eq in E1 as <-, E2 as <-. apply rbind_inv_ok in H as (v & [= <-] & (rc & Hrc & [= <-])%rbind_inv_ok).
    apply (object_metadatas_ok lines) in Hos; [|by apply finditer_lines].
    exists count, size, lines, refs, rest. simpl. split; [by destruct Hro as [->| ->]|]. split; [done|]. split; [done|].
    by rewrite <- !number_int.
  - intros (count & size & lines & refs & last & -> & Hlast & Hv & Hc & Hs & Hls & Hr).
    pose proof (number_run _ _ Hc) as Hc'. pose proof (number_run _ _ Hs) as Hs'. pose proof (number_run _ _ Hr) as Hr'.
    set (ro := if read_only fm then x31 else x30).
    assert (Forall raw_line lines) as Hraw.
    { clear - Hls. induction Hls; constructor; [by eapply object_line_raw|done]. }
    replace (re_match FILE_METADATA_RE _) with (Some (last, raw_groups count size (concat lines) refs ro)).
    2: { symmetry. apply re_match_file. exists count, size, (concat lines), refs, ro. split; [|done]. split; [done|].
         split; [by exists lines|]. split; [by rewrite !Forall_cons, Forall_nil|].
         split; [subst ro; destruct (read_only fm); auto|done]. }
    change (group "objects" _) with (concat lines). change (group "objects_count" _) with count.
    change (group "objects_size_bytes" _) with size. change (group "ref_count" _) with refs.
    change (group "metadata_version" _) with [x33]. change (group "read_only" _) with [ro].
    apply number_int in Hc, Hs, Hr; [|done..]. apply (object_metadatas_ok _ _ _ (finditer_lines lines Hraw)) in Hls.
    rewrite Hls. simpl. rewrite Hc. simpl. rewrite Hs. simpl. rewrite !Z.eqb_refl. simpl. rewrite Hr. simpl.
    destruct fm as [v os rc r]. simpl in *. subst v ro. by destruct r.
Qed.

(** A file with two objects, and three that are refused. *)
Definition example_metadata : list byte :=
  lit "3" ++ [nl] ++ lit "2" ++ [tab] ++ lit "30" ++ [nl] ++ lit "10" ++ [tab] ++ lit "abc/def" ++ [nl] ++
  lit "20" ++ [tab] ++ lit "ghi" ++ [nl] ++ lit "1" ++ [nl] ++ lit "0" ++ [nl].
Example from_bytes_example :
  from_bytes example_metadata = Ok (mkFileMetadata 3 [mkObjectMetadata 10 "abc/def"; mkObjectMetadata 20 "ghi"] 1 false) ∧
  from_bytes (example_metadata ++ [nl]) = from_bytes example_metadata ∧
  from_bytes (example_metadata ++ [nl; nl]) = Raise InvalidFileMetadata ∧
  from_bytes (lit "2" ++ tail example_metadata) = Raise InvalidFileMetadata ∧
  from_bytes (lit "3" ++ [nl] ++ lit "1" ++ [tab] ++ lit "30" ++ drop 6 example_metadata) = Raise InvalidFileMetadata.
Proof. vm_compute. done. Qed.
End FileMetadata.
