(* ===== verification/ChDisks.v ===== *)
(** * Object storage disks in backups, restores and cleanups of ClickHouse
      ([coordinator/plugins/clickhouse/async_object_storage.py] and the steps
      of [steps.py] on object storage files)

    The steps are verified against [ObjectStorageSpec], what they rely on of
    a storage; [MemoryAsyncObjectStorage] implements it. *)

From stdpp Require Import base gmap strings list sorting.
From Stdlib Require Import ZArith NArith Lia Ascii Strings.Byte.
From S2P Require Import Prelude Progress Ipc Storage Op Base64 ChText ChParts ChManifest ChObjects Steps Cleanup.

Local Open Scope Z_scope.

Module ChDisks.
Import ChParts ChManifest.

(** ** [AsyncObjectStorage] *)
Record ObjectStorageItem : Type := mkItem {
  key : string;
  last_modified : Z;
}.
#[global] Instance ObjectStorageItem_eq_dec : EqDecision ObjectStorageItem. Proof. solve_decision. Defined.

(** The operations on the storage with a configuration. *)
Record AsyncObjectStorage (E : Type) : Type := mkAsyncObjectStorage {
  list_items : StorageConfig → M E (list ObjectStorageItem);
  delete_item : StorageConfig → string → M E unit;
  (** the target and the source *)
  copy_items_from : StorageConfig → StorageConfig → list string → M E unit;
}.
Arguments mkAsyncObjectStorage {E}. Arguments list_items {E}. Arguments delete_item {E}. Arguments copy_items_from {E}.

(** What the steps rely on.  An operation can fail, and has then done only a
    part of its work. *)
Class ObjectStorageSpec {E : Type} (os : AsyncObjectStorage E) : Type := {
  os_inv : E → Prop;
  (** when the object was last modified, if there is one *)
  os_lookup : E → StorageConfig → string → option Z;
  list_items_spec e c e' r : os_inv e → list_items os c e = (e', r) →
    os_inv e' ∧ (∀ c' k, os_lookup e' c' k = os_lookup e c' k) ∧
    ∀ l, r = Ok l → NoDup (key <$> l) ∧ ∀ k t, mkItem k t ∈ l ↔ os_lookup e c k = Some t;
  delete_item_spec e c k e' r : os_inv e → delete_item os c k e = (e', r) →
    os_inv e' ∧ (∀ c' k', (c', k') ≠ (c, k) → os_lookup e' c' k' = os_lookup e c' k') ∧
    (os_lookup e' c k = None ∨ r ≠ Ok tt ∧ os_lookup e' c k = os_lookup e c k);
  copy_items_from_spec e c src ks e' r : os_inv e → c ≠ src → copy_items_from os c src ks e = (e', r) →
    os_inv e' ∧ (∀ c' k, c' ≠ c ∨ k ∉ ks → os_lookup e' c' k = os_lookup e c' k) ∧
    ∀ k, k ∈ ks → (is_Some (os_lookup e c k) → is_Some (os_lookup e' c k)) ∧
                  (r = Ok tt → is_Some (os_lookup e src k) → is_Some (os_lookup e' c k));
}.

(** ** [MemoryAsyncObjectStorage]: a dictionary for each object, which its
    configuration identifies. *)
Module Memory.
Notation state := (gmap string (list (string * ObjectStorageItem))).
Definition items (c : StorageConfig) (e : state) : list (string * ObjectStorageItem) := default [] (e !! c).

(** [from_items] *)
Definition from_items (l : list ObjectStorageItem) : list (string * ObjectStorageItem) :=
  foldl (λ d i, dict_set (key i) i d) [] l.

Definition memory_list_items (c : StorageConfig) : M state (list ObjectStorageItem) := e ← get; mret (items c e).*2.
Definition memory_delete_item (c : StorageConfig) (k : string) : M state unit :=
  e ← get;
  if decide (is_Some (dict_get (items c e) k)) then put (<[c := dict_del k (items c e)]> e)
  else raise FileNotFoundFromStorageError.
Definition memory_copy_items_from (c src : StorageConfig) (ks : list string) : M state unit :=
  let keys_set : gset string := list_to_set ks in
  l ← memory_list_items src;
  for_each l (λ i, if decide (key i ∈ keys_set) then modify (λ e, <[c := dict_set (key i) i (items c e)]> e) else mret tt).
Definition memory_storage : AsyncObjectStorage state :=
  mkAsyncObjectStorage memory_list_items memory_delete_item memory_copy_items_from.

(** Each item is stored under its key. *)
Definition wf_items (d : list (string * ObjectStorageItem)) : Prop := NoDup d.*1 ∧ ∀ k i, (k, i) ∈ d → key i = k.
Definition inv (e : state) : Prop := ∀ c, wf_items (items c e).
Definition lookup (e : state) (c : StorageConfig) (k : string) : option Z := last_modified <$> dict_get (items c e) k.

Lemma items_insert c d e c' : items c' (<[c := d]> e) = if decide (c = c') then d else items c' e.
Proof. unfold items. case_decide as H; [subst; by rewrite lookup_insert_eq|by rewrite lookup_insert_ne]. Qed.

Lemma dict_get_del (d : list (string * ObjectStorageItem)) k k' :
  dict_get (dict_del k d) k' = if decide (k = k') then None else dict_get d k'.
Proof.
  unfold dict_del. induction d as [|[k1 v] d IH]; [by case_decide|]. simpl.
  destruct (decide (k1 = k)) as [->|Hne].
  - rewrite filter_cons_False by (intros H; by apply H). rewrite IH. repeat case_decide; congruence.
  - rewrite filter_cons_True by done. simpl. rewrite IH. repeat case_decide; congruence.
Qed.

Lemma wf_set d i : wf_items d → wf_items (dict_set (key i) i d).
Proof.
  intros [Hnd Hk]. unfold dict_set. assert (NoDup (dict_alter (λ _, i) (key i) d).*1) as Hnd' by by apply dict_alter_NoDup.
  split; [done|]. intros k j Hin. apply (dict_get_elem_of _ _ _ Hnd') in Hin.
  destruct (decide (key i = k)) as [<-|Hne].
  - rewrite dict_get_alter_eq in Hin. by injection Hin as <-.
  - rewrite dict_get_alter_ne in Hin by done. by apply Hk, dict_get_elem_of.
Qed.

Lemma wf_del d k : wf_items d → wf_items (dict_del k d).
Proof.
  intros [Hnd Hk]. unfold dict_del. split.
  - eapply sublist_NoDup; [exact Hnd|]. apply fmap_sublist, sublist_filter.
  - intros k' i [_ Hin]%list_elem_of_filter. by apply Hk.
Qed.

Lemma from_items_wf l : wf_items (from_items l).
Proof.
  unfold from_items. assert (∀ d, wf_items d → wf_items (foldl (λ d i, dict_set (key i) i d) d l)) as H.
  - induction l as [|i l IH]; intros d Hd; [done|]. by apply IH, wf_set.
  - apply H. split; [apply NoDup_nil_2|]. by intros k i ?%not_elem_of_nil.
Qed.

Lemma elem_of_items e c k t : inv e → mkItem k t ∈ (items c e).*2 ↔ lookup e c k = Some t.
Proof.
  intros He. destruct (He c) as [Hnd Hk]. unfold lookup. split.
  - intros Hin. apply list_elem_of_fmap in Hin as ([k' i] & Hi & Hin). simpl in Hi. subst i.
    pose proof (Hk _ _ Hin) as Heq. simpl in Heq. subst k'. apply dict_get_elem_of in Hin; [|done]. by rewrite Hin.
  - intros ([k' t'] & Hi & [= <-])%fmap_Some. apply dict_get_elem_of in Hi; [|done].
    pose proof (Hk _ _ Hi) as Heq. simpl in Heq. subst k'. apply list_elem_of_fmap. by exists (k, mkItem k t).
Qed.

Lemma keys_NoDup e c : inv e → NoDup (key <$> (items c e).*2).
Proof.
  intros He. destruct (He c) as [Hnd Hk]. replace (key <$> (items c e).*2) with (items c e).*1; [done|].
  rewrite <- list_fmap_compose. apply list_fmap_ext. intros i [k x] Hin. simpl. symmetry. by apply Hk, list_elem_of_lookup_2 with i.
Qed.

(** Copying one item after the other. *)
Lemma copy_loop c ks (l : list ObjectStorageItem) e :
  inv e → ∃ e', for_each l (λ i, if decide (key i ∈ (list_to_set ks : gset string))
                                 then modify (λ e, <[c := dict_set (key i) i (items c e)]> e) else mret tt) e = (e', Ok tt) ∧
    inv e' ∧ (∀ c' k, c' ≠ c ∨ k ∉ ks → lookup e' c' k = lookup e c' k) ∧
    ∀ k, k ∈ ks → is_Some (lookup e c k) ∨ k ∈ key <$> l → is_Some (lookup e' c k).
Proof.
  revert e. induction l as [|i l IH]; intros e He.
  - exists e. split; [done|]. split; [done|]. split; [done|]. by intros k _ [?|?%not_elem_of_nil].
  - cbn [for_each]. destruct (decide (key i ∈ (list_to_set ks : gset string))) as [Hin|Hin].
    + set (e1 := <[c := dict_set (key i) i (items c e)]> e).
      assert (inv e1) as He1. { intros c'. unfold e1. rewrite items_insert. case_decide; [|done]. subst. by apply wf_set. }
      destruct (IH e1 He1) as (e' & Hrun & He' & Hsame & Hget). exists e'. erewrite bind_ok by done.
      split; [done|]. split; [done|]. apply elem_of_list_to_set in Hin. split.
      * intros c' k Hck. rewrite Hsame by done. unfold lookup, e1. rewrite items_insert. case_decide as E; [|done]. subst c'.
        destruct Hck as [?|Hk]; [done|]. unfold dict_set. rewrite dict_get_alter_ne; [done|]. by intros <-.
      * intros k Hk Hor. apply Hget; [done|]. destruct (decide (key i = k)) as [<-|Hne].
        { left. unfold lookup, e1. rewrite items_insert, decide_True by done. unfold dict_set. by rewrite dict_get_alter_eq. }
        destruct Hor as [H|H]; [left|right].
        { unfold lookup, e1. rewrite items_insert, decide_True by done. unfold dict_set. by rewrite dict_get_alter_ne. }
        rewrite fmap_cons in H. apply elem_of_cons in H as [H|H]; [congruence|done].
    + destruct (IH e He) as (e' & Hrun & He' & Hsame & Hget). exists e'. erewrite bind_ok by done.
      split; [done|]. split; [done|]. split; [done|]. intros k Hk Hor. apply Hget; [done|].
      rewrite fmap_cons, elem_of_cons in Hor. destruct Hor as [?|[->|?]]; [by left| |by right].
      exfalso. by apply Hin, elem_of_list_to_set.
Qed.

#[global] Program Instance memory_spec : ObjectStorageSpec memory_storage := {| os_inv := inv; os_lookup := lookup |}.
Next Obligation.
  intros e c e' r He [= <- <-]. split; [done|]. split; [done|]. intros l [= <-]. split; [by apply keys_NoDup|].
  intros k t. by apply elem_of_items.
Qed.
Next Obligation.
  intros e c k e' r He. unfold delete_item, memory_storage, memory_delete_item. rewrite (bind_ok get _ e e e) by done.
  destruct (decide (is_Some (dict_get (items c e) k))) as [Hs|Hn]; intros [= <- <-].
  - split; [|split].
    + intros c'. rewrite items_insert. case_decide; [subst; by apply wf_del|done].
    + intros c' k' Hne. unfold lookup. rewrite items_insert. case_decide; [subst|done]. rewrite dict_get_del, decide_False; [done|].
      congruence.
    + left. unfold lookup. by rewrite items_insert, decide_True, dict_get_del, decide_True by done.
  - split; [done|]. split; [done|]. by right.
Qed.
Next Obligation.
  intros e c src ks e' r He Hne. unfold copy_items_from, memory_storage, memory_copy_items_from, memory_list_items.
  destruct (copy_loop c ks (items src e).*2 e He) as (e1 & Hrun & He1 & Hsame & Hget).
  rewrite (bind_ok _ _ e e (items src e).*2) by done. rewrite Hrun. intros [= <- <-].
  split; [done|]. split; [done|]. intros k Hk. split; [intros; apply Hget; auto|]. intros _ [t Ht]. apply Hget; [done|]. right.
  apply list_elem_of_fmap. exists (mkItem k t). split; [done|]. by apply elem_of_items.
Qed.
End Memory.

(** ** The steps *)
Definition cls_CollectObjectStorageFilesStep := cls_plugin "CollectObjectStorageFilesStep".
Definition cls_MoveFrozenPartsStep := cls_plugin "MoveFrozenPartsStep".
Definition cls_ClickHouseManifestStep := cls_plugin "ClickHouseManifestStep".
Definition cls_RestoreObjectStorageFilesStep := cls_plugin "RestoreObjectStorageFilesStep".
Definition cls_DeleteDanglingObjectStorageFilesStep := cls_plugin "DeleteDanglingObjectStorageFilesStep".

(** [d.setdefault(disk_name, set()).update(paths)] *)
Notation PathSets := (gmap string (gset string)).
Definition update_paths (disk_name : string) (paths : list string) (d : PathSets) : PathSets :=
  <[disk_name := default ∅ (d !! disk_name) ∪ list_to_set paths]> d.
(** [sorted(d.items())] *)
Definition sorted_items (d : PathSets) : list (string * gset string) := py_sorted (λ a b, str_leb a.1 b.1) (map_to_list d).

(** What [DeleteDanglingObjectStorageFilesStep] keeps of a backup. *)
Definition keep_files (kept_paths : PathSets) (m : ClickHouseManifest) : PathSets :=
  foldl (λ d f, update_paths (os_disk_name f) (os_files f) d) kept_paths (object_storage_files m).

(** ** Sets of paths by disk *)
Definition paths_at (d : PathSets) (name : string) : gset string := default ∅ (d !! name).

Lemma paths_at_update name paths d n :
  paths_at (update_paths name paths d) n = if decide (name = n) then paths_at d name ∪ list_to_set paths else paths_at d n.
Proof.
  unfold paths_at, update_paths. case_decide as H; [subst; by rewrite lookup_insert_eq|by rewrite lookup_insert_ne].
Qed.
Lemma elem_of_update name paths d n p :
  p ∈ paths_at (update_paths name paths d) n ↔ p ∈ paths_at d n ∨ n = name ∧ p ∈ paths.
Proof.
  rewrite paths_at_update. case_decide as H.
  - subst. rewrite elem_of_union, elem_of_list_to_set. naive_solver.
  - naive_solver.
Qed.
Lemma is_Some_update name paths d n : is_Some (update_paths name paths d !! n) ↔ is_Some (d !! n) ∨ n = name.
Proof.
  unfold update_paths. destruct (decide (name = n)) as [->|Hne].
  - rewrite lookup_insert_eq. split; [by right|done].
  - rewrite lookup_insert_ne by done. naive_solver.
Qed.

Lemma elem_of_sorted_items d x : x ∈ sorted_items d ↔ d !! x.1 = Some x.2.
Proof. unfold sorted_items. rewrite elem_of_py_sorted. destruct x. apply elem_of_map_to_list. Qed.

Lemma sorted_items_NoDup d : NoDup (sorted_items d).*1.
Proof. unfold sorted_items. rewrite py_sorted_Permutation. apply NoDup_fst_map_to_list. Qed.

Lemma keep_files_spec d m n :
  (is_Some (keep_files d m !! n) ↔ is_Some (d !! n) ∨ ∃ f, f ∈ object_storage_files m ∧ os_disk_name f = n) ∧
  ∀ p, p ∈ paths_at (keep_files d m) n ↔
       p ∈ paths_at d n ∨ ∃ f, f ∈ object_storage_files m ∧ os_disk_name f = n ∧ p ∈ os_files f.
Proof.
  unfold keep_files. revert d. induction (object_storage_files m) as [|f l IH]; intros d; simpl.
  - split; [|intros p]; (split; [by left|]); intros [?|(f & ?%not_elem_of_nil & _)]; done.
  - destruct (IH (update_paths (os_disk_name f) (os_files f) d)) as [IH1 IH2]. split.
    + rewrite IH1, is_Some_update. setoid_rewrite elem_of_cons. naive_solver.
    + intros p. rewrite IH2, elem_of_update. setoid_rewrite elem_of_cons. naive_solver.
Qed.

Section files.
Context (disks : list Disk).

(** *** [CollectObjectStorageFilesStep]

    A file without objects does not mention its disk. *)
Definition file_paths (f : SnapshotFile) : res (option (string * list string)) :=
  parsed_path ← parse_part_file_path disks (relative_path f);
  match disk_type (disk parsed_path) with
  | local => Ok None
  | object_storage =>
      match content_b64 f with
      | None => Raise StepFailedError
      | Some b64 =>
          content ← Base64.b64decode b64;
          match FileMetadata.from_bytes content with
          | Ok file_metadata => Ok (Some (disk_name (disk parsed_path), FileMetadata.relative_path <$> FileMetadata.objects file_metadata))
          | Raise InvalidFileMetadata => Raise StepFailedError
          | Raise e => Raise e
          end
      end
  end.
Definition collect_file (d : PathSets) (f : SnapshotFile) : res PathSets :=
  o ← file_paths f;
  Ok match o with
     | None | Some (_, []) => d
     | Some (name, paths) => update_paths name paths d
     end.
Definition collect_object_storage_files (snapshot_results : list SnapshotResult) : res (list ClickHouseObjectStorageFiles) :=
  d ← fold_res (λ d sr, match sr_state sr with
                        | None => Raise AssertionError
                        | Some state => fold_res collect_file d (state_files state)
                        end) ∅ snapshot_results;
  Ok ((λ x, mkClickHouseObjectStorageFiles x.1 (py_sorted str_leb (elements x.2))) <$> sorted_items d).

(** *** [MoveFrozenPartsStep] *)
Definition moved_path (p : ParsedPath) : string :=
  to_path (mkParsedPath (disk p) None (table_uuid p) false (part_name p) (file_parts p)).
Definition move_file (f : SnapshotFile) : res SnapshotFile :=
  p ← parse_part_file_path disks (relative_path f);
  Ok (mkSnapshotFile (moved_path p) (file_size f) (mtime_ns f) (hexdigest f) (content_b64 f)).
Definition move_result (sr : SnapshotResult) : res SnapshotResult :=
  match sr_state sr with
  | None => Raise AssertionError
  | Some state =>
      fs ← map_res move_file (state_files state);
      Ok (mkSnapshotResult (sr_hostname sr) (sr_az sr) (sr_progress sr) (sr_start sr) (sr_end sr)
            (Some (mkSnapshotState (root_globs state) fs)) (sr_files sr) (sr_total_size sr) (sr_hashes sr))
  end.
Definition move_results (ctx : StepsContext) : res StepsContext :=
  srs ← get_snapshots ctx cls_SnapshotStep;
  srs ← map_res move_result srs;
  Ok (mkStepsContext (attempt ctx) (attempt_start ctx) (dict_set cls_SnapshotStep (VSnapshots srs) (step_results ctx))).

(** *** What is collected *)

(** The metadata file [f] of the remote disk [name] names the object [p]. *)
Definition names_object (f : SnapshotFile) (name p : string) : Prop :=
  ∃ parsed b64 content fm,
    parse_part_file_path disks (relative_path f) = Ok parsed ∧ disk_type (disk parsed) = object_storage ∧
    name = disk_name (disk parsed) ∧ content_b64 f = Some b64 ∧ Base64.b64decode b64 = Ok content ∧
    FileMetadata.metadata_text fm content ∧ p ∈ FileMetadata.relative_path <$> FileMetadata.objects fm.

Lemma file_paths_spec f o : file_paths f = Ok o → ∀ name p, names_object f name p ↔ ∃ ps, o = Some (name, ps) ∧ p ∈ ps.
Proof.
  unfold file_paths. intros (parsed & Hp & H)%rbind_inv_ok name p. destruct (disk_type (disk parsed)) eqn:Et.
  { injection H as <-. split; [|by intros (ps & ? & _)]. intros (parsed' & ? & ? & ? & Hp' & Ht & _). congruence. }
  destruct (content_b64 f) as [b64|] eqn:Eb; [|done]. apply rbind_inv_ok in H as (content & Hc & H).
  destruct (FileMetadata.from_bytes content) as [fm|e] eqn:Efm; [|by destruct e]. injection H as <-.
  pose proof (proj1 (FileMetadata.from_bytes_exact _ _) Efm) as Hfm. split.
  - intros (parsed' & b' & c' & fm' & Hp' & _ & -> & Hb' & Hc' & Hfm' & Hin).
    assert (parsed' = parsed ∧ c' = content) as [-> ->] by (split; congruence).
    apply FileMetadata.from_bytes_exact in Hfm'. assert (fm' = fm) as -> by congruence. by eexists.
  - intros (ps & [= <- <-] & Hin). by exists parsed, b64, content, fm.
Qed.

Lemma collect_file_spec d f d' : collect_file d f = Ok d' → ∀ n p, p ∈ paths_at d' n ↔ p ∈ paths_at d n ∨ names_object f n p.
Proof.
  intros (o & Ho & Hd)%rbind_inv_ok n p. rewrite (file_paths_spec _ _ Ho). injection Hd as <-.
  destruct o as [[name [|x ps]]|].
  - split; [by left|]. intros [?|(ps & [= <- <-] & ?%not_elem_of_nil)]; done.
  - rewrite elem_of_update. naive_solver.
  - split; [by left|]. by intros [?|(ps & ? & _)].
Qed.

(** Every disk that is mentioned has a path. *)
Definition no_empty (d : PathSets) : Prop := ∀ n X, d !! n = Some X → X ≠ ∅.
Lemma collect_file_no_empty d f d' : no_empty d → collect_file d f = Ok d' → no_empty d'.
Proof.
  intros Hd (o & Ho & Hd')%rbind_inv_ok. injection Hd' as <-. destruct o as [[name [|x ps]]|]; [done| |done].
  intros n X. unfold update_paths. destruct (decide (name = n)) as [->|Hne]; [|rewrite lookup_insert_ne by done; apply Hd].
  rewrite lookup_insert_eq. intros [= <-]. set_solver.
Qed.

Lemma collect_results_spec srs d :
  fold_res (λ d sr, match sr_state sr with
                    | None => Raise AssertionError
                    | Some state => fold_res collect_file d (state_files state)
                    end) ∅ srs = Ok d →
  no_empty d ∧ ∀ n p, p ∈ paths_at d n ↔
    ∃ sr state f, sr ∈ srs ∧ sr_state sr = Some state ∧ f ∈ state_files state ∧ names_object f n p.
Proof.
  apply (fold_res_ind (λ pre d, no_empty d ∧ ∀ n p, p ∈ paths_at d n ↔
    ∃ sr state f, sr ∈ pre ∧ sr_state sr = Some state ∧ f ∈ state_files state ∧ names_object f n p)).
  - split; [done|]. intros n p. unfold paths_at. rewrite lookup_empty. simpl. split; [set_solver|].
    by intros (sr & state & f & ?%not_elem_of_nil & _).
  - intros pre sr post d1 d2 _ [Hne Hd1] H. destruct (sr_state sr) as [state|] eqn:Est; [|done].
    assert (no_empty d2 ∧ ∀ n p, p ∈ paths_at d2 n ↔ p ∈ paths_at d1 n ∨ ∃ f, f ∈ state_files state ∧ names_object f n p) as [Hne2 Hd2].
    { revert H. apply (fold_res_ind (λ pre d, no_empty d ∧ ∀ n p, p ∈ paths_at d n ↔
        p ∈ paths_at d1 n ∨ ∃ f, f ∈ pre ∧ names_object f n p)).
      - split; [done|]. intros n p. split; [by left|]. by intros [?|(f & ?%not_elem_of_nil & _)].
      - intros fs f fs' e1 e2 _ [Hn1 He1] He. split; [by eapply collect_file_no_empty|]. intros n p.
        rewrite (collect_file_spec _ _ _ He), He1. setoid_rewrite elem_of_app. setoid_rewrite list_elem_of_singleton. naive_solver. }
    split; [done|]. intros n p. rewrite Hd2, Hd1. setoid_rewrite elem_of_app. setoid_rewrite list_elem_of_singleton. split.
    + intros [(sr' & st' & f & ? & H')|(f & H')]; [exists sr', st', f; naive_solver|by exists sr, state, f; auto].
    + intros (sr' & st' & f & [Hin| ->] & Hst & H'); [left; by exists sr', st', f|]. right. rewrite Est in Hst. injection Hst as <-. by exists f.
Qed.

(** A backup records, for each remote disk, exactly the objects that the
    metadata files in its snapshots name, each once. *)
Theorem collected_objects_exact (srs : list SnapshotResult) (l : list ClickHouseObjectStorageFiles) :
  collect_object_storage_files srs = Ok l →
  NoDup (os_disk_name <$> l) ∧ Forall (λ fs, NoDup (os_files fs) ∧ os_files fs ≠ []) l ∧
  ∀ name p, (∃ fs, fs ∈ l ∧ os_disk_name fs = name ∧ p ∈ os_files fs) ↔
    ∃ sr state f, sr ∈ srs ∧ sr_state sr = Some state ∧ f ∈ state_files state ∧ names_object f name p.
Proof.
  intros (d & Hd & [= <-])%rbind_inv_ok. destruct (collect_results_spec _ _ Hd) as [Hne Hel]. split; [|split].
  - rewrite <- list_fmap_compose. apply sorted_items_NoDup.
  - apply Forall_forall. intros fs Hfs. apply list_elem_of_fmap in Hfs as ([n X] & -> & Hin%elem_of_sorted_items). simpl in *.
    split; [rewrite py_sorted_Permutation; apply NoDup_elements|]. apply Hne in Hin. intros E. apply Hin, set_eq. intros x.
    rewrite <- elem_of_elements, <- (elem_of_py_sorted str_leb), E. set_solver.
  - intros name p. rewrite <- Hel. unfold paths_at. split.
    + intros (fs & Hfs & <- & Hp). apply list_elem_of_fmap in Hfs as ([n X] & -> & Hin%elem_of_sorted_items). simpl in *.
      rewrite Hin. simpl. by rewrite elem_of_py_sorted, elem_of_elements in Hp.
    + destruct (d !! name) as [X|] eqn:E; simpl; [|set_solver]. intros Hp. eexists. split; [|split].
      * apply list_elem_of_fmap. exists (name, X). split; [done|]. by apply elem_of_sorted_items.
      * done.
      * simpl. by rewrite elem_of_py_sorted, elem_of_elements.
Qed.

(** *** Moving *)
Lemma get_disk_store (ds : list Disk) parts d rest :
  Forall (λ d, "store" ∉ path_parts d) ds → get_disk ds parts = Some d →
  get_disk ds (path_parts d ++ "store" :: rest) = Some d ∧ path_parts d = take (length (path_parts d)) parts.
Proof.
  unfold get_disk. intros Hall. induction Hall as [|x ds Hx Hall IH]; [done|]. rewrite !filter_cons.
  destruct (decide (take (length (path_parts x)) parts = path_parts x)) as [Hp|Hp].
  - intros [= ->]. by rewrite decide_True by by rewrite take_app_length.
  - intros Hd. destruct (IH Hd) as [IH1 IH2]. split; [|done]. rewrite decide_False; [done|]. intros Hp'.
    destruct (decide (length (path_parts x) ≤ length (path_parts d))%nat) as [Hle|Hgt].
    + apply Hp. rewrite take_app_le in Hp' by done. rewrite <- Hp' at 2. rewrite IH2, take_take. f_equal. lia.
    + apply Hx. rewrite <- Hp'. apply list_elem_of_lookup. exists (length (path_parts d)).
      rewrite lookup_take_lt by lia. by rewrite lookup_app_r, Nat.sub_diag by lia.
Qed.

Lemma parse_inv path p :
  parse_part_file_path disks path = Ok p →
  get_disk disks (split_on "/"%char path) = Some (disk p) ∧ is_uuid (table_uuid p) = true ∧
  ∃ i, file_parts p = drop i (split_on "/"%char path).
Proof.
  unfold parse_part_file_path. destruct (get_disk disks _) as [dk|] eqn:Ed; [|done].
  intros (kind & _ & ([fz i] & _ & (u & _ & H)%rbind_inv_ok)%rbind_inv_ok)%rbind_inv_ok.
  destruct (is_uuid u) eqn:Eu; [|done]. simpl in H. apply rbind_inv_ok in H as (par & _ & H). case_decide; [done|].
  apply rbind_inv_ok in H as (d & _ & (n & _ & [= <-])%rbind_inv_ok). simpl. by eauto.
Qed.

(** The part of a file, whatever its place. *)
Definition settled (p : ParsedPath) : ParsedPath := mkParsedPath (disk p) None (table_uuid p) false (part_name p) (file_parts p).

Lemma move_file_spec f f' :
  Forall (λ d, "store" ∉ path_parts d) disks → move_file f = Ok f' →
  (∀ p, parse_part_file_path disks (relative_path f) = Ok p → Escaping.escape_for_file_name (part_name p) ≠ "detached") →
  (∃ p, parse_part_file_path disks (relative_path f) = Ok p ∧ parse_part_file_path disks (relative_path f') = Ok (settled p)) ∧
  (file_size f', mtime_ns f', hexdigest f', content_b64 f') = (file_size f, mtime_ns f, hexdigest f, content_b64 f).
Proof.
  intros Hds (p & Hp & [= <-])%rbind_inv_ok Hname. split; [|done]. exists p. split; [done|].
  destruct (parse_inv _ _ Hp) as (Hd & Hu & i & Hf).
  change (relative_path _) with (to_path (settled p)). apply parse_components.
  pose proof (split_on_parts "/"%char (relative_path f)) as Hns. unfold path_ok.
  destruct (get_disk_store disks _ _ (String.substring 0 3 (table_uuid p) :: table_uuid p ::
    Escaping.escape_for_file_name (part_name p) :: file_parts p) Hds Hd) as [Hgd Hpp].
  split; [exact Hgd|]. split; [done|]. split; [|intros _; exact (Hname p Hp)].
  simpl. rewrite Hf, Hpp, forallb_app. apply andb_true_intro. rewrite !forallb_forall. rewrite Forall_forall in Hns.
  split; intros x Hx%list_elem_of_In; apply Hns.
  - eapply subseteq_take; exact Hx.
  - eapply subseteq_drop; exact Hx.
Qed.

Lemma map_res_members {A B} (f : A → res B) l k : map_res f l = Ok k → Forall2 (λ x y, x ∈ l ∧ f x = Ok y) l k.
Proof.
  unfold map_res. intros H. refine (fold_res_ind (λ pre k, Forall2 (λ x y, x ∈ l ∧ f x = Ok y) pre k) _ _ _ _ _ _ H); [constructor|].
  intros pre x post k1 k2 Hl HF (y & Hy & [= <-])%rbind_inv_ok. apply Forall2_app; [done|]. constructor; [|constructor].
  split; [rewrite Hl; apply elem_of_app; right; by left|done].
Qed.

(** Moving the files of a snapshot to where a restore needs them changes only
    their paths, and not the parts that are attached after it. *)
Theorem moved_parts_attached (sr sr' : SnapshotResult) (tables : gmap UUID Table) :
  Forall (λ d, "store" ∉ path_parts d) disks → move_result sr = Ok sr' →
  (∀ state f p, sr_state sr = Some state → f ∈ state_files state → parse_part_file_path disks (relative_path f) = Ok p →
     Escaping.escape_for_file_name (part_name p) ≠ "detached") →
  list_parts_to_attach sr' disks tables = list_parts_to_attach sr disks tables ∧ sr_hashes sr' = sr_hashes sr ∧
  ∀ state, sr_state sr = Some state → ∃ state', sr_state sr' = Some state' ∧
    Forall2 (λ f f', (file_size f', mtime_ns f', hexdigest f', content_b64 f') = (file_size f, mtime_ns f, hexdigest f, content_b64 f))
      (state_files state) (state_files state').
Proof.
  intros Hds Hmove Hnames. unfold move_result in Hmove. destruct (sr_state sr) as [state|] eqn:Est; [|done].
  apply rbind_inv_ok in Hmove as (fs & Hfs%map_res_members & [= <-]). cbn [sr_hashes sr_state state_files].
  specialize (Hnames state). assert (Forall2 (λ f f', (∃ p, parse_part_file_path disks (relative_path f) = Ok p ∧
    parse_part_file_path disks (relative_path f') = Ok (settled p)) ∧
    (file_size f', mtime_ns f', hexdigest f', content_b64 f') = (file_size f, mtime_ns f, hexdigest f, content_b64 f)) (state_files state) fs) as HF.
  { eapply Forall2_impl; [exact Hfs|]. intros f f' [Hin Hm]. apply move_file_spec; [done..|]. intros p. by apply Hnames. }
  split; [|split; [done|]].
  - unfold list_parts_to_attach. rewrite Est. cbn [sr_state state_files]. f_equal.
    assert (∀ acc, fold_res (λ acc f, p ← parse_part_file_path disks (relative_path f);
        Ok (match tables !! table_uuid p with Some t => acc ++ [(escaped_sql_identifier t, part_name p)] | None => acc end)) acc fs =
      fold_res (λ acc f, p ← parse_part_file_path disks (relative_path f);
        Ok (match tables !! table_uuid p with Some t => acc ++ [(escaped_sql_identifier t, part_name p)] | None => acc end)) acc (state_files state)) as H; [|apply H].
    clear -HF. induction HF as [|f f' l l' [(p & Hp & Hp') _] HF IH]; intros acc; [done|]. cbn [fold_res]. rewrite Hp, Hp'. simpl. apply IH.
  - intros state' [= <-]. eexists. split; [done|]. eapply Forall2_impl; [exact HF|]. by intros f f' [_ ?].
Qed.
End files.

Section steps.
Context {SJ SH SE B : Type} (json : StorageOps SJ B) `{!ManifestCodec B} (os : AsyncObjectStorage SE).
Context (set_iter : gset string → list string) (decode_plugin_data : string → value).
Local Notation W := (world SJ SH SE).

Definition CollectObjectStorageFilesStep (disks : list Disk) : Step SJ SH SE := mkStep cls_CollectObjectStorageFilesStep (λ ctx,
  snapshot_results ← lift_res (get_snapshots ctx cls_SnapshotStep);
  l ← lift_res (collect_object_storage_files disks snapshot_results);
  mret (VObjectStorageFiles l)).

(** The step renames the files of the result of [SnapshotStep] itself. *)
Definition MoveFrozenPartsStep (disks : list Disk) : Step SJ SH SE := mkMutStep cls_MoveFrozenPartsStep
  (λ ctx, lift_res (move_results disks ctx) ;; mret VNone)
  (λ ctx, match move_results disks ctx with Ok ctx' => ctx' | Raise _ => ctx end).

Definition ClickHouseManifestStep : Step SJ SH SE := mkStep cls_ClickHouseManifestStep (λ ctx,
  backup_manifest ← lift_res (get_manifest ctx cls_BackupManifestStep);
  m ← lift_res (from_plugin_data (decode_plugin_data (bm_plugin_data backup_manifest)));
  mret (VClickHouseManifest m)).

(** *** [RestoreObjectStorageFilesStep] *)
Definition restore_files (source_disks target_disks : list Disk) (fs : ClickHouseObjectStorageFiles) : M W unit :=
  if decide (os_files fs = []) then mret tt
  else match get_object_storage source_disks (os_disk_name fs) with
       | None => raise StepFailedError
       | Some source_storage =>
           match get_object_storage target_disks (os_disk_name fs) with
           | None => raise StepFailedError
           | Some target_storage =>
               if decide (source_storage ≠ target_storage)
               then on_env (copy_items_from os target_storage source_storage (os_files fs)) else mret tt
           end
       end.
Definition RestoreObjectStorageFilesStep (source_disks target_disks : list Disk) : Step SJ SH SE :=
  mkStep cls_RestoreObjectStorageFilesStep (λ ctx,
  m ← lift_res (get_clickhouse_manifest ctx cls_ClickHouseManifestStep);
  for_each (object_storage_files m) (restore_files source_disks target_disks) ;; mret VNone).

(** *** [DeleteDanglingObjectStorageFilesStep] *)
Fixpoint collect_kept_paths (backup_manifests : list ManifestMin) (kept_paths : PathSets) : M W PathSets :=
  match backup_manifests with
  | [] => mret kept_paths
  | manifest_min :: rest =>
      manifest_data ← on_json (download_backup_manifest json (mm_filename manifest_min));
      m ← lift_res (from_plugin_data (decode_plugin_data (bm_plugin_data manifest_data)));
      collect_kept_paths rest (keep_files kept_paths m)
  end.
Definition check_available (l : list ObjectStorageItem) (disk_kept_path : string) : M W unit :=
  if decide (disk_kept_path ∈ key <$> l) then mret tt else raise StepFailedError.
Definition clean_disk (disks : list Disk) (newest_backup_start_time : Z) (disk_paths : string * gset string) : M W unit :=
  match get_object_storage disks disk_paths.1 with
  | None => raise StepFailedError
  | Some disk_object_storage =>
      l ← on_env (list_items os disk_object_storage);
      let keys_to_remove := key <$> filter (λ i, last_modified i < newest_backup_start_time ∧ key i ∉ disk_paths.2) l in
      for_each (set_iter disk_paths.2) (check_available l) ;;
      for_each keys_to_remove (λ k, on_env (delete_item os disk_object_storage k))
  end.
(** [max] of a list that is not empty *)
Definition newest_start (m : ManifestMin) (l : list ManifestMin) : Z := foldl (λ t m', Z.max t (mm_start m')) (mm_start m) l.
Definition DeleteDanglingObjectStorageFilesStep (disks : list Disk) : Step SJ SH SE :=
  mkStep cls_DeleteDanglingObjectStorageFilesStep (λ ctx,
  backup_manifests ← lift_res (get_mins ctx cls_ComputeKeptBackupsStep);
  match backup_manifests with
  | [] => mret VNone
  | m :: rest =>
      kept_paths ← collect_kept_paths backup_manifests ∅;
      for_each (sorted_items kept_paths) (clean_disk disks (newest_start m rest)) ;; mret VNone
  end).

(** ** Cleaning up verified against the interfaces *)
Context `{!StorageSpec json} `{!ObjectStorageSpec os}.
Context (set_iter_perm : ∀ X, set_iter X ≡ₚ elements X).
Notation lookup w c k := (os_lookup (os:=os) (w_env w) c k).

(** What a stored backup says of the objects it needs. *)
Definition plugin_manifest (w : W) (mm : ManifestMin) (pm : ClickHouseManifest) : Prop :=
  ∃ m, stored_manifest json (w_json w) (mm_filename mm) m ∧ from_plugin_data (decode_plugin_data (bm_plugin_data m)) = Ok pm.
Definition mentioned (w : W) (kept : list ManifestMin) (name : string) : Prop :=
  ∃ mm pm f, mm ∈ kept ∧ plugin_manifest w mm pm ∧ f ∈ object_storage_files pm ∧ os_disk_name f = name.
Definition needed (w : W) (kept : list ManifestMin) (name : string) (path : string) : Prop :=
  ∃ mm pm f, mm ∈ kept ∧ plugin_manifest w mm pm ∧ f ∈ object_storage_files pm ∧ os_disk_name f = name ∧ path ∈ os_files f.

Lemma plugin_manifest_inj w mm pm pm' : plugin_manifest w mm pm → plugin_manifest w mm pm' → pm = pm'.
Proof using Type.
  intros (m & Hm & Hp) (m' & Hm' & Hp'). pose proof (stored_manifest_inj _ _ _ _ _ Hm Hm'). subst. congruence.
Qed.

Lemma plugin_manifest_ext w w' mm pm :
  (∀ n, st_lookup (ops:=json) (w_json w') n = st_lookup (ops:=json) (w_json w) n) → plugin_manifest w' mm pm ↔ plugin_manifest w mm pm.
Proof using Type.
  intros H. split; intros (m & Hm & Hp); exists m; (split; [|done]).
  - by eapply stored_manifest_ext; [intros n; symmetry; apply H|].
  - by eapply stored_manifest_ext; [exact H|].
Qed.

(** The paths to keep are those of the backups, unless a backup cannot be read. *)
Lemma collect_kept_paths_spec mins w d w' r :
  st_inv (ops:=json) (w_json w) →
  (∀ mm, mm ∈ mins → ∃ m, stored_manifest json (w_json w) (mm_filename mm) m) →
  collect_kept_paths mins d w = (w', r) →
  w_env w' = w_env w ∧ st_inv (ops:=json) (w_json w') ∧
  (∀ n, st_lookup (ops:=json) (w_json w') n = st_lookup (ops:=json) (w_json w) n) ∧
  ∀ d', r = Ok d' → ∀ n,
    (is_Some (d' !! n) ↔ is_Some (d !! n) ∨ mentioned w mins n) ∧ ∀ p, p ∈ paths_at d' n ↔ p ∈ paths_at d n ∨ needed w mins n p.
Proof using Type.
  revert d w. induction mins as [|mm mins IH]; intros d w Hi Hst Hrun.
  - injection Hrun as <- <-. split; [done|]. split; [done|]. split; [done|]. intros d' [= <-] n. unfold mentioned, needed.
    split; [|intros p]; (split; [by left|]); intros [?|(mm & pm & f & ?%not_elem_of_nil & _)]; done.
  - destruct (Hst mm) as [m Hm]; [by left|]. destruct (download_spec json (w_json w) _ m Hi Hm) as (s' & Hd & Hi' & Hlk).
    cbn [collect_kept_paths] in Hrun. rewrite (bind_ok _ _ _ _ _ (on_json_run _ _ _ _ Hd)) in Hrun.
    set (w1 := mkWorld s' _ _ _ _ _) in Hrun. change (bm_plugin_data (set_filename _ m)) with (bm_plugin_data m) in Hrun.
    destruct (from_plugin_data (decode_plugin_data (bm_plugin_data m))) as [pm|e] eqn:Ep.
    + rewrite (bind_ok (lift_res (Ok pm)) _ w1 w1 pm) in Hrun by done.
      destruct (IH (keep_files d pm) w1) as (He & Hi2 & Hlk2 & Hr); [done| |done|].
      { intros mm' Hin. destruct (Hst mm') as [m' Hm']; [by right|]. exists m'. by eapply stored_manifest_ext. }
      split; [done|]. split; [done|]. split; [intros n; by rewrite Hlk2|]. intros d' Hd' n. destruct (Hr d' Hd' n) as [H1 H2].
      assert (plugin_manifest w mm pm) as Hpm by by exists m. destruct (keep_files_spec d pm n) as [K1 K2].
      assert (∀ mm pm, plugin_manifest w1 mm pm ↔ plugin_manifest w mm pm) as Hext by (intros; by apply plugin_manifest_ext).
      split.
      * rewrite H1, K1. unfold mentioned. setoid_rewrite Hext. setoid_rewrite elem_of_cons. split.
        -- intros [[?|(f & Hf)]|(mm' & pm' & f & Hin & H)]; [by left|right; exists mm, pm, f; split; [by left|by split]|right; exists mm', pm', f; split; [by right|by destruct H]].
        -- intros [?|(mm' & pm' & f & [->|Hin] & Hp' & H)]; [by do 2 left| |].
           ++ rewrite (plugin_manifest_inj _ _ _ _ Hp' Hpm) in H. left. right. by exists f.
           ++ right. by exists mm', pm', f.
      * intros p. rewrite H2, K2. unfold needed. setoid_rewrite Hext. setoid_rewrite elem_of_cons. split.
        -- intros [[?|(f & Hf)]|(mm' & pm' & f & Hin & H)]; [by left|right; exists mm, pm, f; split; [by left|by split]|right; exists mm', pm', f; split; [by right|by destruct H]].
        -- intros [?|(mm' & pm' & f & [->|Hin] & Hp' & H)]; [by do 2 left| |].
           ++ rewrite (plugin_manifest_inj _ _ _ _ Hp' Hpm) in H. left. right. by exists f.
           ++ right. by exists mm', pm', f.
    + rewrite (bind_raise (lift_res (Raise e)) _ w1 w1 e) in Hrun by done. injection Hrun as <- <-. done.
Qed.

Lemma on_env_inv {A} (m : M SE A) (w w' : W) r : on_env m w = (w', r) → m (w_env w) = (w_env w', r).
Proof using Type. unfold on_env, zoom. destruct (m (w_env w)) as [e r']. by intros [= <- <-]. Qed.

Section cleaning.
Context (disks : list Disk) (newest : Z) (kept : PathSets) (w0 : W).

(** No two of the disks are on one storage. *)
Definition apart : Prop := ∀ d d' c, is_Some (kept !! d) → is_Some (kept !! d') →
  get_object_storage disks d = Some c → get_object_storage disks d' = Some c → d = d'.

Definition dangling (c : StorageConfig) (k : string) : Prop :=
  ∃ d t, is_Some (kept !! d) ∧ get_object_storage disks d = Some c ∧ lookup w0 c k = Some t ∧ t < newest ∧ k ∉ paths_at kept d.
(** Only dangling objects were removed. *)
Definition thinned (w : W) : Prop :=
  os_inv (os:=os) (w_env w) ∧ ∀ c k, lookup w c k = lookup w0 c k ∨ lookup w c k = None ∧ dangling c k.
Definition cleaned_disk (w : W) (d : string) : Prop :=
  ∃ c, get_object_storage disks d = Some c ∧ (∀ p, p ∈ paths_at kept d → is_Some (lookup w c p)) ∧
    ∀ k t, lookup w c k = Some t → newest ≤ t ∨ k ∈ paths_at kept d.
Definition fewer (w w' : W) : Prop := ∀ c k t, lookup w' c k = Some t → lookup w c k = Some t.

Lemma thinned_same w w' :
  thinned w → os_inv (os:=os) (w_env w') → (∀ c k, lookup w' c k = lookup w c k) → thinned w' ∧ fewer w w'.
Proof using Type.
  intros [_ H] Hi Hs. split; [split; [done|]; intros c k; rewrite Hs; apply H|]. intros c k t. by rewrite Hs.
Qed.

Lemma cleaned_fewer w w' d : apart → is_Some (kept !! d) → thinned w → thinned w' → fewer w w' → cleaned_disk w d → cleaned_disk w' d.
Proof using Type.
  intros storages_distinct Hd [_ Hw] [_ Hw'] Hf (c & Hc & Hp & Hk). exists c. split; [done|]. split.
  - intros p Hin. destruct (Hp p Hin) as [t Ht]. destruct (Hw' c p) as [->|[_ (d' & t' & Hd' & Hc' & _ & _ & Hn)]].
    + destruct (Hw c p) as [<-|[? _]]; [by exists t|congruence].
    + exfalso. apply Hn. by rewrite (storages_distinct d' d c).
  - intros k t Ht. by apply Hk, Hf.
Qed.

Lemma check_kept_spec X (l : list ObjectStorageItem) (w w' : W) r :
  for_each (set_iter X) (check_available l) w = (w', r) →
  w' = w ∧ (r = Ok tt → ∀ p, p ∈ X → p ∈ key <$> l).
Proof using set_iter_perm.
  intros H. apply (for_each_any (λ pre w2, w2 = w ∧ ∀ p, p ∈ pre → p ∈ key <$> l) (λ _ w2, w2 = w)) in H.
  - destruct r as [[]|e]; [|by split]. destruct H as [-> H]. split; [done|]. intros _ p Hp. apply H. by rewrite set_iter_perm, elem_of_elements.
  - split; [done|]. by intros p ?%not_elem_of_nil.
  - intros pre p post w1 w2 r' _ [-> Hpre]. unfold check_available. case_decide as Hin; intros [= <- <-]; [|done]. split; [done|].
    intros q [Hq| ->%list_elem_of_singleton]%elem_of_app; [by apply Hpre|done].
Qed.

Lemma delete_loop_spec d c ks w w' r :
  is_Some (kept !! d) → get_object_storage disks d = Some c → thinned w →
  (∀ k, k ∈ ks → ∃ t, lookup w0 c k = Some t ∧ t < newest ∧ k ∉ paths_at kept d) →
  for_each ks (λ k, on_env (delete_item os c k)) w = (w', r) →
  thinned w' ∧ fewer w w' ∧ (r = Ok tt → ∀ k, k ∈ ks → lookup w' c k = None).
Proof using Type.
  intros Hd Hc Hw Hks H.
  apply (for_each_any (λ pre w2, thinned w2 ∧ fewer w w2 ∧ ∀ k, k ∈ pre → lookup w2 c k = None)
    (λ _ w2, thinned w2 ∧ fewer w w2)) in H.
  - destruct r as [[]|e]; destruct H as (H1 & H2); [destruct H2 as [H2 H3]|]; done.
  - split; [done|]. split; [by intros c' k t|]. by intros k ?%not_elem_of_nil.
  - intros pre k post w1 w2 r' Hl ([Hi1 Hw1] & Hf1 & Hpre) Hrun%on_env_inv.
    destruct (delete_item_spec _ _ _ _ _ Hi1 Hrun) as (Hi2 & Hne & Hor).
    assert (thinned w2 ∧ fewer w w2) as [Hw2 Hf2].
    { split; [split; [done|]|].
      - intros c' k'. destruct (decide ((c', k') = (c, k))) as [[= -> ->]|Hn]; [|rewrite Hne by done; apply Hw1].
        destruct Hor as [Hor|[_ Hor]]; [|rewrite Hor; apply Hw1]. right. split; [done|].
        destruct (Hks k) as (t & Ht & Hlt & Hnk); [rewrite Hl; apply elem_of_app; right; by left|]. by exists d, t.
      - intros c' k' t Ht. apply Hf1. destruct (decide ((c', k') = (c, k))) as [[= -> ->]|Hn]; [|by rewrite <- Hne].
        destruct Hor as [Hor|[_ Hor]]; congruence. }
    destruct r' as [[]|e]; [|done]. split; [done|]. split; [done|].
    intros k' [Hk'| ->%list_elem_of_singleton]%elem_of_app.
    + destruct (decide (k' = k)) as [->|Hkn]; [destruct Hor as [?|[? _]]; congruence|].
      rewrite Hne by congruence. by apply Hpre.
    + destruct Hor as [?|[? _]]; congruence.
Qed.

Lemma clean_disk_spec d X w w' r :
  kept !! d = Some X → thinned w → clean_disk disks newest (d, X) w = (w', r) →
  thinned w' ∧ fewer w w' ∧ (apart → r = Ok tt → cleaned_disk w' d).
Proof using set_iter_perm.
  intros HX Hw. assert (is_Some (kept !! d)) as Hd by (by rewrite HX). unfold clean_disk. cbn [fst snd].
  assert (paths_at kept d = X) as HXp by (unfold paths_at; by rewrite HX).
  destruct (get_object_storage disks d) as [c|] eqn:Hc.
  2: { intros [= <- <-]. split; [done|]. split; [by intros c k t|done]. }
  destruct (on_env (list_items os c) w) as [w1 [l|e]] eqn:Hl.
  2: { rewrite (bind_raise _ _ _ _ _ Hl). intros [= <- <-]. apply on_env_inv in Hl.
       destruct (list_items_spec _ _ _ _ (proj1 Hw) Hl) as (Hi1 & Hs1 & _). by destruct (thinned_same w w1). }
  rewrite (bind_ok _ _ _ _ _ Hl). apply on_env_inv in Hl.
  destruct (list_items_spec _ _ _ _ (proj1 Hw) Hl) as (Hi1 & Hs1 & Hex). destruct (Hex l eq_refl) as [Hnd Hel].
  destruct (thinned_same w w1 Hw Hi1 Hs1) as [Hw1 Hf1]. set (ks := key <$> filter _ l).
  assert (∀ k t, mkItem k t ∈ l → lookup w0 c k = Some t) as Hl0.
  { intros k t Hin%Hel. destruct (proj2 Hw c k) as [<-|[Hn _]]; [done|]. congruence. }
  assert (∀ k, k ∈ ks → ∃ t, lookup w0 c k = Some t ∧ t < newest ∧ k ∉ paths_at kept d) as Hks.
  { intros k Hk. apply list_elem_of_fmap in Hk as ([k' t] & -> & [[Hlt Hn] Hin]%list_elem_of_filter). simpl in *.
    exists t. rewrite HXp. split; [by apply Hl0|done]. }
  destruct (for_each (set_iter X) (check_available l) w1) as [w2 [[]|e]] eqn:Hcheck; pose proof (check_kept_spec _ _ _ _ _ Hcheck) as [-> Hkept].
  2: { rewrite (bind_raise _ _ _ _ _ Hcheck). intros [= <- <-]. split; [done|]. by split. }
  rewrite (bind_ok _ _ _ _ _ Hcheck). intros Hrun.
  destruct (delete_loop_spec d c ks w1 w' r Hd Hc Hw1 Hks Hrun) as (Hw' & Hf' & Hdel).
  split; [done|]. split; [intros c' k t Ht; by apply Hf1, Hf'|]. intros storages_distinct Hr. exists c. split; [done|]. split.
  - intros p Hp. rewrite HXp in Hp. destruct (proj2 Hw' c p) as [Heq|[_ (d' & t' & Hd' & Hc' & _ & _ & Hn)]].
    + rewrite Heq. apply Hkept in Hp; [|done]. apply list_elem_of_fmap in Hp as ([k t] & -> & Hin). exists t. by apply Hl0.
    + exfalso. apply Hn. by rewrite (storages_distinct d' d c), HXp.
  - intros k t Ht. destruct (decide (newest ≤ t)) as [|Hlt]; [by left|]. right.
    destruct (decide (k ∈ paths_at kept d)) as [|Hn]; [done|]. exfalso.
    enough (lookup w' c k = None) by congruence. apply Hdel; [done|]. apply list_elem_of_fmap. exists (mkItem k t). split; [done|].
    apply list_elem_of_filter. split; [simpl; rewrite <- HXp; split; [lia|done]|]. apply Hel. rewrite <- Hs1. by apply Hf'.
Qed.

Lemma clean_disks_spec w w' r :
  thinned w → for_each (sorted_items kept) (clean_disk disks newest) w = (w', r) →
  thinned w' ∧ (apart → r = Ok tt → ∀ d, is_Some (kept !! d) → cleaned_disk w' d).
Proof using set_iter_perm.
  intros Hw H.
  apply (for_each_any (λ pre w2, thinned w2 ∧ (apart → ∀ x, x ∈ pre → cleaned_disk w2 x.1)) (λ _ w2, thinned w2)) in H.
  - destruct r as [[]|e]; [|done]. destruct H as [H1 H2]. split; [done|]. intros Ha _ d [X HX].
    apply (H2 Ha (d, X)). by apply elem_of_sorted_items.
  - split; [done|]. by intros _ x ?%not_elem_of_nil.
  - intros pre [d X] post w1 w2 r' Hl [Hw1 Hpre] Hrun.
    assert (∀ x, x ∈ pre ++ [(d, X)] → is_Some (kept !! x.1)) as Hall.
    { intros x Hx. exists x.2. apply elem_of_sorted_items. rewrite Hl. apply elem_of_app in Hx as [?| ->%list_elem_of_singleton];
        apply elem_of_app; [by left|right; by left]. }
    assert (kept !! d = Some X) as HX. { apply (elem_of_sorted_items kept (d, X)). rewrite Hl. apply elem_of_app. right. by left. }
    destruct (clean_disk_spec d X w1 w2 r' HX Hw1 Hrun) as (Hw2 & Hf2 & Hc2). destruct r' as [[]|e]; [|done].
    split; [done|]. intros Ha x [Hx| ->%list_elem_of_singleton]%elem_of_app; [|by apply Hc2].
    eapply (cleaned_fewer w1 w2); [done|apply Hall, elem_of_app; by left|done..|by apply Hpre].
Qed.
End cleaning.

Lemma newest_start_spec m l :
  (∀ mm, mm ∈ m :: l → mm_start mm ≤ newest_start m l) ∧ ∃ mm, mm ∈ m :: l ∧ mm_start mm = newest_start m l.
Proof using Type.
  unfold newest_start. assert (∀ t, t ≤ foldl (λ t m', Z.max t (mm_start m')) t l ∧
    (∀ mm, mm ∈ l → mm_start mm ≤ foldl (λ t m', Z.max t (mm_start m')) t l) ∧
    (foldl (λ t m', Z.max t (mm_start m')) t l = t ∨ ∃ mm, mm ∈ l ∧ mm_start mm = foldl (λ t m', Z.max t (mm_start m')) t l)) as H.
  { induction l as [|m' l IH]; intros t; simpl.
    - split; [lia|]. split; [by intros mm ?%not_elem_of_nil|by left].
    - destruct (IH (Z.max t (mm_start m'))) as (H1 & H2 & H3). split; [lia|]. split.
      + intros mm [->|Hin]%elem_of_cons; [lia|by apply H2].
      + destruct H3 as [H3|(mm & Hin & Hmm)]; [|right; exists mm; split; [by right|done]]. rewrite H3.
        destruct (Z.max_spec t (mm_start m')) as [[_ ->]|[_ ->]]; [right; exists m'; split; [by left|done]|by left]. }
  destruct (H (mm_start m)) as (H1 & H2 & H3). split.
  - intros mm [->|Hin]%elem_of_cons; [done|by apply H2].
  - destruct H3 as [->|(mm & Hin & Hmm)]; [exists m; split; [by left|done]|exists mm; split; [by right|done]].
Qed.

(** C35: Deleting dangling objects, whatever the storages answer and however
    the disks share storages: an object remains as it was when each disk on its
    storage that a kept backup mentions needs it (so do all objects of a
    storage of which no mentioned disk is), and when it is not older than the
    newest kept backup.  As long as no two of the mentioned disks are on one
    storage, no object that a kept backup needs is deleted, and when the step
    succeeds all objects the kept backups need are there, and nothing else that
    is older than the newest one is left in the disks they mention.  For two
    disks on one storage the code promises none of that:
    [shared_storage_loses_objects] below. *)
Theorem dangling_objects_deleted (disks : list Disk) (ctx : StepsContext) (kept : list ManifestMin) (w w' : W) (r : res StepValue) :
  st_inv (ops:=json) (w_json w) → os_inv (os:=os) (w_env w) → get_mins ctx cls_ComputeKeptBackupsStep = Ok kept →
  (∀ mm, mm ∈ kept → ∃ m, stored_manifest json (w_json w) (mm_filename mm) m) →
  run_step (DeleteDanglingObjectStorageFilesStep disks) ctx w = (w', r) →
  (∀ c p, (∀ d, mentioned w kept d → get_object_storage disks d = Some c → needed w kept d p) → lookup w' c p = lookup w c p) ∧
  (∀ c k t, lookup w c k = Some t → (∀ mm, mm ∈ kept → mm_start mm ≤ t) → lookup w' c k = Some t) ∧
  ((∀ d d' c, mentioned w kept d → mentioned w kept d' →
      get_object_storage disks d = Some c → get_object_storage disks d' = Some c → d = d') →
   (∀ d c p, get_object_storage disks d = Some c → needed w kept d p → lookup w' c p = lookup w c p) ∧
   (r = Ok VNone → ∀ d, mentioned w kept d → ∃ c, get_object_storage disks d = Some c ∧
      (∀ p, needed w kept d p → is_Some (lookup w' c p)) ∧
      ∀ k t, lookup w' c k = Some t → needed w kept d k ∨ ∀ mm, mm ∈ kept → mm_start mm ≤ t)).
Proof using set_iter_perm.
  intros Hj He Hk Hst. unfold DeleteDanglingObjectStorageFilesStep. cbn [run_step]. rewrite Hk.
  rewrite (bind_ok (lift_res (Ok kept)) _ w w kept) by done. destruct kept as [|m rest].
  { intros [= <- <-]. split; [done|]. split; [done|]. intros _. split; [done|].
    by intros _ d (mm & pm & f & ?%not_elem_of_nil & _). }
  destruct (collect_kept_paths (m :: rest) ∅ w) as [w1 r1] eqn:Hcol.
  destruct (collect_kept_paths_spec _ _ _ _ _ Hj Hst Hcol) as (Henv & _ & _ & Hpaths).
  destruct r1 as [kp|e]; [rewrite (bind_ok _ _ _ _ _ Hcol)|rewrite (bind_raise _ _ _ _ _ Hcol); intros [= <- <-]; by rewrite Henv].
  assert (∀ d, is_Some (kp !! d) ↔ mentioned w (m :: rest) d) as Hment.
  { intros d. destruct (Hpaths kp eq_refl d) as [H _]. rewrite H, lookup_empty. split; [by intros [[]|]|by right]. }
  assert (∀ d p, p ∈ paths_at kp d ↔ needed w (m :: rest) d p) as Hneed.
  { intros d p. destruct (Hpaths kp eq_refl d) as [_ H]. rewrite H. unfold paths_at. rewrite lookup_empty. simpl. set_solver. }
  destruct (newest_start_spec m rest) as [Hmax [mx [Hmx Hmxe]]]. set (newest := newest_start m rest) in *.
  destruct (for_each (sorted_items kp) (clean_disk disks newest) w1) as [w2 r2] eqn:Hrun.
  assert (thinned disks newest kp w w1) as Hw1. { split; [by rewrite Henv|]. intros c k. left. by rewrite Henv. }
  apply (clean_disks_spec disks newest kp w) in Hrun as Hspec; [|done].
  destruct Hspec as [[_ Hthin] Hclean]. intros Hfin.
  assert (w' = w2 ∧ (r = Ok VNone → r2 = Ok tt)) as [-> Hok].
  { destruct r2 as [[]|e]; [rewrite (bind_ok _ _ _ _ _ Hrun) in Hfin|rewrite (bind_raise _ _ _ _ _ Hrun) in Hfin]; by injection Hfin as <- <-. }
  assert (∀ c p, (∀ d, mentioned w (m :: rest) d → get_object_storage disks d = Some c → needed w (m :: rest) d p) →
    lookup w2 c p = lookup w c p) as Hsame.
  { intros c p Hall. destruct (Hthin c p) as [|[_ (d & t & Hd%Hment & Hc & _ & _ & Hn)]]; [done|]. exfalso. by apply Hn, Hneed, Hall. }
  split; [done|]. split; [|intros Hdist; split].
  - intros c k t Ht Hold. destruct (Hthin c k) as [->|[_ (d & t' & _ & _ & Ht' & Hlt & _)]]; [done|].
    specialize (Hold mx Hmx). rewrite Ht in Ht'. injection Ht' as <-. lia.
  - intros d c p Hc Hp. apply Hsame. intros d' Hd' Hc'. rewrite (Hdist d' d c); [done|done| |done|done].
    destruct Hp as (mm & pm & f & ? & ? & ? & ? & _). by exists mm, pm, f.
  - intros Hr d Hd. destruct (Hclean) with (d := d) as (c & Hc & Hp & Hkeys); [|by apply Hok|by apply Hment|].
    { intros d1 d2 c H1%Hment H2%Hment. by apply Hdist. }
    exists c. split; [done|]. split.
    + intros p Hp'. apply Hp. by apply Hneed.
    + intros k t Ht. destruct (Hkeys k t Ht) as [Hle|Hin]; [right|left; by apply Hneed]. intros mm Hmm. specialize (Hmax mm Hmm). lia.
Qed.

(** ** Restoring *)
Definition restored (source_disks target_disks : list Disk) (w w' : W) (fs : ClickHouseObjectStorageFiles) : Prop :=
  os_files fs ≠ [] → ∃ src tgt, get_object_storage source_disks (os_disk_name fs) = Some src ∧
    get_object_storage target_disks (os_disk_name fs) = Some tgt ∧
    ∀ p, p ∈ os_files fs → is_Some (lookup w src p) → is_Some (lookup w' tgt p).
(** Nothing was removed, and only the target disks were written to. *)
Definition only_added (target_disks : list Disk) (w w' : W) : Prop :=
  os_inv (os:=os) (w_env w') ∧ (∀ c k, is_Some (lookup w c k) → is_Some (lookup w' c k)) ∧
  ∀ c, (∀ d, get_object_storage target_disks d ≠ Some c) → ∀ k, lookup w' c k = lookup w c k.

Lemma restore_files_spec source_disks target_disks fs w w1 w2 r :
  only_added target_disks w w1 → restore_files source_disks target_disks fs w1 = (w2, r) →
  only_added target_disks w w2 ∧ (∀ c k, is_Some (lookup w1 c k) → is_Some (lookup w2 c k)) ∧
  (r = Ok tt → restored source_disks target_disks w w2 fs).
Proof using Type.
  clear decode_plugin_data. intros (Hi & Hadd & Hother). unfold restore_files. case_decide as Hne.
  { intros [= <- <-]. split; [done|]. split; [done|]. by intros _ ?. }
  destruct (get_object_storage source_disks _) as [src|] eqn:Hs; [|intros [= <- <-]; done].
  destruct (get_object_storage target_disks _) as [tgt|] eqn:Ht; [|intros [= <- <-]; done].
  case_decide as Hst.
  - intros Hrun%on_env_inv. destruct (copy_items_from_spec _ _ _ _ _ _ Hi (not_eq_sym Hst) Hrun) as (Hi2 & Hsame & Hcopy).
    assert (∀ c k, is_Some (lookup w1 c k) → is_Some (lookup w2 c k)) as Hmono.
    { intros c k Hk. destruct (decide (c = tgt ∧ k ∈ os_files fs)) as [[-> Hin]|Hn]; [exact (proj1 (Hcopy k Hin) Hk)|].
      rewrite Hsame; [done|]. destruct (decide (c = tgt)); [right; tauto|by left]. }
    split; [|split; [done|]].
    + split; [done|]. split; [intros c k Hk; by apply Hmono, Hadd|]. intros c Hc k. rewrite Hsame; [by apply Hother|].
      left. intros ->. by apply (Hc (os_disk_name fs)).
    + intros Hr _. exists src, tgt. split; [done|]. split; [done|]. intros p Hp Hk. apply Hcopy; [done..|]. by apply Hadd.
  - intros [= <- <-]. subst tgt. split; [done|]. split; [done|]. intros _ _. exists src, src.
    split; [done|]. split; [done|]. intros p _. apply Hadd.
Qed.

(** Restoring object storage files: nothing is removed from any storage, only
    target disks are written to, and when the step succeeds every object that
    the backup lists and that the source disk has is in the target disk. *)
Theorem objects_restored (source_disks target_disks : list Disk) (ctx : StepsContext) (m : ClickHouseManifest) (w w' : W) (r : res StepValue) :
  os_inv (os:=os) (w_env w) → get_clickhouse_manifest ctx cls_ClickHouseManifestStep = Ok m →
  run_step (RestoreObjectStorageFilesStep source_disks target_disks) ctx w = (w', r) →
  only_added target_disks w w' ∧ (r = Ok VNone → Forall (restored source_disks target_disks w w') (object_storage_files m)).
Proof using Type.
  intros Hi Hm. unfold RestoreObjectStorageFilesStep. cbn [run_step]. rewrite Hm.
  rewrite (bind_ok (lift_res (Ok m)) _ w w m) by done.
  destruct (for_each (object_storage_files m) (restore_files source_disks target_disks) w) as [w2 r2] eqn:Hrun.
  apply (for_each_any (λ pre w2, only_added target_disks w w2 ∧ Forall (restored source_disks target_disks w w2) pre)
    (λ _ w2, only_added target_disks w w2)) in Hrun as H.
  - intros Hfin. destruct r2 as [[]|e]; [rewrite (bind_ok _ _ _ _ _ Hrun) in Hfin|rewrite (bind_raise _ _ _ _ _ Hrun) in Hfin];
      injection Hfin as <- <-; [|done]. destruct H as [H1 H2]. by split.
  - split; [|by constructor]. split; [done|]. by split.
  - intros pre fs post w1 w3 r3 _ [H1 H2] H3. destruct (restore_files_spec _ _ _ _ _ _ _ H1 H3) as (H4 & H5 & H6).
    destruct r3 as [[]|e]; [|done]. split; [done|]. apply Forall_app. split; [|constructor; [by apply H6|constructor]].
    eapply Forall_impl; [exact H2|]. intros fs' Hfs Hne. destruct (Hfs Hne) as (src & tgt & ? & ? & Hp). exists src, tgt.
    split; [done|]. split; [done|]. intros p Hin Hk. by apply H5, Hp.
Qed.
End steps.

(** ** Example: one remote disk, two backups *)
Module Examples.
Definition disk_remote : Disk := mkDisk object_storage "remote" ["disks"; "s3"] (Some "bucket").
Definition example_file (n : string) : SnapshotFile :=
  mkSnapshotFile (to_path (mkParsedPath disk_remote (Some [x61]) "00000000-0000-0000-0000-100000000001" false [x70] [n])) 1 1 ""
    (Some (Base64.b64encode FileMetadata.example_metadata)).
Definition example_result : SnapshotResult :=
  mkSnapshotResult "h" "az" new_progress 0 None (Some (mkSnapshotState [] [example_file "data.bin"; example_file "data.mrk"])) 2 2 None.

Lemma collected_objects_exact_witness :
  let l := [mkClickHouseObjectStorageFiles "remote" ["abc/def"; "ghi"]] in
  collect_object_storage_files [disk_remote] [example_result] = Ok l ∧ NoDup (os_disk_name <$> l) ∧
  ∃ sr state f, sr ∈ [example_result] ∧ sr_state sr = Some state ∧ f ∈ state_files state ∧ names_object [disk_remote] f "remote" "ghi".
Proof.
  intros l. assert (collect_object_storage_files [disk_remote] [example_result] = Ok l) as H by (vm_compute; reflexivity).
  split; [exact H|]. destruct (collected_objects_exact [disk_remote] [example_result] l H) as (H1 & _ & H2). split; [exact H1|].
  apply H2. exists (mkClickHouseObjectStorageFiles "remote" ["abc/def"; "ghi"]). split; [by left|]. split; [reflexivity|].
  simpl. right. left.
Defined.

Lemma moved_parts_attached_witness :
  let tables : gmap UUID Table := {["00000000-0000-0000-0000-100000000001" := example_table]} in
  ∃ sr', move_result [disk_remote] example_result = Ok sr' ∧
    list_parts_to_attach sr' [disk_remote] tables = list_parts_to_attach example_result [disk_remote] tables.
Proof.
  intros tables. eexists. split; [reflexivity|].
  apply (moved_parts_attached [disk_remote] example_result); [|reflexivity|].
  - apply Forall_singleton. simpl. by intros [?|[?|?%not_elem_of_nil]%elem_of_cons]%elem_of_cons.
  - intros state f p [= <-] Hf Hp. assert (part_name p = [x70]) as ->; [|done].
    apply elem_of_cons in Hf as [->|Hf]; [vm_compute in Hp; by injection Hp as <-|].
    apply list_elem_of_singleton in Hf as ->. vm_compute in Hp. by injection Hp as <-.
Defined.

(** The plugin data is kept as the text of one path, for the example. *)
Definition decode_example (s : string) : value :=
  to_plugin_data (mkClickHouseManifest V2 [] [] [] [mkClickHouseObjectStorageFiles "remote" [s]]).
Definition example_json : StorageOps (gmap string BackupManifest) BackupManifest := FileStorage.json_ops (λ _, false).
Definition backup (start : Z) (path : string) : BackupManifest :=
  mkBackupManifest start (start + 1) 1 [] [] clickhouse path "".
Definition example_world : world (gmap string BackupManifest) unit (gmap string (list (string * ObjectStorageItem))) :=
  mkWorld {["backup-1.json" := backup 10 "a"; "backup-2.json" := backup 20 "b"]} tt
    {["bucket" := Memory.from_items [mkItem "a" 5; mkItem "b" 15; mkItem "c" 19; mkItem "d" 20]]}
    (λ _, 0) (Op.mkOpState (Op.mkInfo 0 "" None) None 1) false.
Definition example_context : StepsContext :=
  mkStepsContext 1 0 [(cls_ComputeKeptBackupsStep, VMins [mkManifestMin 10 11 "backup-1"; mkManifestMin 20 21 "backup-2"])].
Definition example_step : Step _ unit _ :=
  DeleteDanglingObjectStorageFilesStep (ManifestCodec0:=identity_codec) example_json Memory.memory_storage elements decode_example [disk_remote].

(** [c] is deleted, [d] is too recent. *)
Example dangling_example :
  (key <$> (Memory.items "bucket" (w_env (fst (run_step example_step example_context example_world)))).*2) = ["a"; "b"; "d"].
Proof. vm_compute. reflexivity. Qed.

Lemma remote_only d c : get_object_storage [disk_remote] d = Some c → d = "remote".
Proof. unfold get_object_storage. rewrite filter_cons. case_decide as H; [by rewrite <- H|done]. Qed.

Lemma example_items_inv (l : list ObjectStorageItem) : Memory.inv {["bucket" := Memory.from_items l]}.
Proof.
  intros c. unfold Memory.items. destruct (decide (c = "bucket")) as [->|Hne].
  - rewrite lookup_singleton_eq. apply Memory.from_items_wf.
  - rewrite lookup_singleton_ne by done. split; [apply NoDup_nil_2|]. by intros k i ?%not_elem_of_nil.
Qed.

Lemma example_stored :
  stored_manifest (ManifestCodec0:=identity_codec) example_json (w_json example_world) "backup-1" (backup 10 "a") ∧
  stored_manifest (ManifestCodec0:=identity_codec) example_json (w_json example_world) "backup-2" (backup 20 "b").
Proof.
  split; [exists (backup 10 "a")|exists (backup 20 "b")]; (split; [|split; [reflexivity|by left]]); simpl;
    reflexivity.
Qed.

Lemma example_os_inv : os_inv (os:=Memory.memory_storage) (w_env example_world).
Proof. apply example_items_inv. Qed.

Lemma example_needed :
  needed (ManifestCodec0:=identity_codec) example_json decode_example example_world
    [mkManifestMin 10 11 "backup-1"; mkManifestMin 20 21 "backup-2"] "remote" "a".
Proof.
  exists (mkManifestMin 10 11 "backup-1"). eexists _, _. split; [by left|]. split.
  - exists (backup 10 "a"). split; [exact (proj1 example_stored)|vm_compute; reflexivity].
  - split; [by left|]. split; [reflexivity|by left].
Qed.

Lemma dangling_objects_deleted_witness :
  let '(w', r) := run_step example_step example_context example_world in
  Memory.lookup (w_env w') "bucket" "d" = Some 20 ∧ Memory.lookup (w_env w') "bucket" "a" = Memory.lookup (w_env example_world) "bucket" "a".
Proof.
  destruct (run_step example_step example_context example_world) as [w1 r] eqn:Hrun.
  pose proof (dangling_objects_deleted (ManifestCodec0:=identity_codec) example_json Memory.memory_storage elements decode_example
    (λ X, reflexivity _) [disk_remote] example_context [mkManifestMin 10 11 "backup-1"; mkManifestMin 20 21 "backup-2"]
    example_world w1 r) as H.
  destruct H as (_ & H2 & H1); [by intros f b _|exact example_os_inv|reflexivity| |exact Hrun|].
  - clear Hrun. intros mm [->|[->|?%not_elem_of_nil]%elem_of_cons]%elem_of_cons;
      [exists (backup 10 "a"); exact (proj1 example_stored)|exists (backup 20 "b"); exact (proj2 example_stored)|done].
  - destruct H1 as [H1 _]; [clear Hrun; intros d d' c _ _ ->%remote_only ->%remote_only; reflexivity|].
    split; [|apply (H1 "remote"); [reflexivity|exact example_needed]]. apply H2; [reflexivity|]. clear Hrun.
    intros mm [->|[->|?%not_elem_of_nil]%elem_of_cons]%elem_of_cons; simpl; [lia|lia|done].
Defined.

(** Two disks on one storage: cleaning the disk [other], of which the second
    backup needs [b], deletes [a], which the first backup needs on [remote];
    cleaning [remote] then finds that it is gone. *)
Definition disk_shared : Disk := mkDisk object_storage "other" ["disks"; "s4"] (Some "bucket").
Definition decode_both (s : string) : value :=
  to_plugin_data (mkClickHouseManifest V2 [] [] []
    [mkClickHouseObjectStorageFiles (if decide (s = "a") then "remote" else "other") [s]]).

Example shared_storage_loses_objects :
  let '(w', r) := run_step (DeleteDanglingObjectStorageFilesStep (ManifestCodec0:=identity_codec) example_json Memory.memory_storage
    elements decode_both [disk_remote; disk_shared]) example_context example_world in
  (key <$> (Memory.items "bucket" (w_env w')).*2) = ["b"; "d"] ∧ r = Raise StepFailedError.
Proof. vm_compute. split; reflexivity. Qed.

Definition other_disk : Disk := mkDisk object_storage "remote" ["disks"; "s3"] (Some "other").
Definition restore_context : StepsContext :=
  mkStepsContext 1 0 [(cls_ClickHouseManifestStep,
    VClickHouseManifest (mkClickHouseManifest V2 [] [] [] [mkClickHouseObjectStorageFiles "remote" ["a"; "b"]]))].

Definition restore_run : world (gmap string BackupManifest) unit (gmap string (list (string * ObjectStorageItem))) * res StepValue :=
  run_step (RestoreObjectStorageFilesStep Memory.memory_storage [disk_remote] [other_disk]) restore_context example_world.

Lemma objects_restored_witness : snd restore_run = Ok VNone ∧ is_Some (Memory.lookup (w_env (fst restore_run)) "other" "b").
Proof.
  assert (snd restore_run = Ok VNone) as Hr by (vm_compute; reflexivity). split; [exact Hr|].
  destruct (objects_restored Memory.memory_storage [disk_remote] [other_disk] restore_context _ example_world
    (fst restore_run) (snd restore_run) example_os_inv eq_refl (surjective_pairing restore_run)) as [_ H].
  specialize (H Hr). pose proof (Forall_inv H) as Hf.
  assert (os_files (mkClickHouseObjectStorageFiles "remote" ["a"; "b"]) ≠ []) as Hne by (intros E; discriminate E).
  destruct (Hf Hne) as (src & tgt & Hs & Ht & Hp). vm_compute in Hs, Ht. injection Hs as <-. injection Ht as <-.
  apply Hp; [right; left|]. exists 15. reflexivity.
Defined.
End Examples.
End ChDisks.
