(* ===== verification/ChClient.v ===== *)
(** * The ClickHouse client ([coordinator/plugins/clickhouse/client.py] and
      [config.py])

    A query is a byte string and its result is a list of rows.  The HTTP
    exchange itself is a parameter: what [httpx] answers. *)

From stdpp Require Import base gmap strings list pretty.
From Stdlib Require Import ZArith NArith Lia Ascii Strings.Byte.
From Stdlib Require Strings.String.
From S2P Require Import Prelude PyText ChText.

Local Open Scope Z_scope.

Module ChClient.

(** A [float] is represented by what [str] prints of it. *)
Notation Float := string (only parsing).

(** [str | int | float | list | None] *)
Inductive cell : Type :=
| CStr (s : string)
| CInt (n : Z)
| CFloat (x : Float)
| CList (l : list cell)
| CNull.
Notation Row := (list cell).

(** What a step asks of [ClickHouseClient.execute]; clients are numbered as
    the nodes of the configuration are. *)
Record Request : Type := mkRequest {
  client : nat;
  query : string;
  timeout : option Float;
  session_id : option string;
}.

Definition str_contains_char (c : ascii) (s : string) : bool := negb (free_of c s).

(** [build_netloc] of [common/utils.py] *)
Definition build_netloc (host : string) (port : option Z) : string :=
  let escaped_host := if str_contains_char ":" host then "[" +:+ host +:+ "]" else host in
  match port with None => escaped_host | Some p => escaped_host +:+ ":" +:+ pretty p end.

(** ** [HttpClickHouseClient] *)
Record HttpClickHouseClient : Type := mkHttpClickHouseClient {
  hc_host : string;
  hc_port : Z;
  hc_username : option string;
  hc_password : option string;
  hc_timeout : Float;
}.

Record HttpRequest : Type := mkHttpRequest {
  url : string;
  params : list (string * string);
  content : string;
  headers : list (string * string);
  http_timeout : Float;
}.

(** [json_data] is the value of the key [data] of the decoded response. *)
Record Response : Type := mkResponse {
  status_code : Z;
  exception_code_header : option string;
  response_content : string;
  json_data : option (list Row);
}.

(** What [client.request] does: a response, an exception that
    [httpx_request] catches, or another one. *)
Inductive HttpReply : Type :=
| Replied (r : Response)
| HttpFailure
| OtherFailure (e : exn).

Definition is_error (status : Z) : bool := (400 <=? status) && (status <=? 599).

Section client.
Context {E : Type} (request : HttpRequest → M E HttpReply).

(** [httpx_request] with [json=False] and [ignore_status_code=True] *)
Definition http_request (r : HttpRequest) : M E (option Response) :=
  reply ← request r;
  match reply with
  | Replied response => mret (Some response)
  | HttpFailure => mret None
  | OtherFailure e => raise e
  end.

(** [re.match(r"\d+", raw_exception_code)]: it begins with a digit. *)
Definition exception_code (raw_exception_code : option string) : res (option Z) :=
  match raw_exception_code with
  | Some raw =>
      match String.list_byte_of_string raw with
      | b :: l => if PyInt.is_digit b then n ← PyInt.int_of 10 (b :: l); Ok (Some n) else Ok None
      | [] => Ok None
      end
  | None => Ok None
  end.

Definition http_request_of (c : HttpClickHouseClient) (query : string) (timeout : option Float) (session_id : option string) :
    HttpRequest :=
  let headers := [("X-ClickHouse-Database", "system"); ("X-ClickHouse-Format", "JSONCompact")] in
  let headers := headers ++ match hc_username c with Some u => [("X-ClickHouse-User", u)] | None => [] end in
  let headers := headers ++ match hc_password c with Some p => [("X-ClickHouse-Key", p)] | None => [] end in
  let netloc := build_netloc (hc_host c) (Some (hc_port c)) in
  let params := [("wait_end_of_query", "1")] in
  let params := params ++ match session_id with Some s => [("session_id", s)] | None => [] end in
  mkHttpRequest ("http://" +:+ netloc) params query headers (default (hc_timeout c) timeout).

(** What [execute] makes of the response. *)
Definition result_of (response : option Response) : res (list Row) :=
  match response with
  | None => Raise (ClickHouseClientQueryError None)
  | Some r =>
      if is_error (status_code r) then
        code ← exception_code (exception_code_header r);
        Raise (ClickHouseClientQueryError code)
      else if decide (response_content r = "") then Ok []
      else match json_data r with Some data => Ok data | None => Raise KeyError end
  end.

(** [HttpClickHouseClient.execute] *)
Definition http_execute (c : HttpClickHouseClient) (query : string) (timeout : option Float) (session_id : option string) :
    M E (list Row) :=
  response ← http_request (http_request_of c query timeout session_id);
  lift_res (result_of response).
End client.

(** ** [StubClickHouseClient]: the responses by query *)
Definition set_response (query : string) (rows : list Row) : M (list (string * list Row)) unit :=
  modify (dict_set query rows).
Definition stub_execute (query : string) (timeout : option Float) (session_id : option string) :
    M (list (string * list Row)) (list Row) :=
  responses ← get;
  match dict_get responses query with Some rows => mret rows | None => raise KeyError end.

(** ** [config.py] *)
Record ClickHouseNode : Type := mkClickHouseNode {
  host : string;
  port : Z;
}.
Record ClickHouseConfiguration : Type := mkClickHouseConfiguration {
  username : option string;
  password : option string;
  nodes : list ClickHouseNode;
}.
Definition get_clickhouse_clients (configuration : ClickHouseConfiguration) : list HttpClickHouseClient :=
  (λ node, mkHttpClickHouseClient (host node) (port node) (username configuration) (password configuration) "10.0")
    <$> nodes configuration.

Inductive setting_value : Type :=
| SFloat (x : Float)
| SInt (n : Z)
| SStr (s : string).

Record ReplicatedDatabaseSettings : Type := mkReplicatedDatabaseSettings {
  max_broken_tables_ratio : option Float;
  max_replication_lag_to_enqueue : option Z;
  wait_entry_commited_timeout_sec : option Z;
  cluster_username : option string;
  cluster_password : option string;
  cluster_secret : option string;
  collection_name : option string;
}.
(** [dict()]: the fields in their order *)
Definition settings_dict (s : ReplicatedDatabaseSettings) : list (string * option setting_value) :=
  [("max_broken_tables_ratio", SFloat <$> max_broken_tables_ratio s);
   ("max_replication_lag_to_enqueue", SInt <$> max_replication_lag_to_enqueue s);
   ("wait_entry_commited_timeout_sec", SInt <$> wait_entry_commited_timeout_sec s);
   ("cluster_username", SStr <$> cluster_username s);
   ("cluster_password", SStr <$> cluster_password s);
   ("cluster_secret", SStr <$> cluster_secret s);
   ("collection_name", SStr <$> collection_name s)].

(** The clients of a configuration serve the requests of the steps. *)
Definition execute {E} (request : HttpRequest → M E HttpReply) (configuration : ClickHouseConfiguration) (r : Request) :
    M E (list Row) :=
  match get_clickhouse_clients configuration !! client r with
  | Some c => http_execute request c (query r) (timeout r) (session_id r)
  | None => raise IndexError
  end.

(** ** What a query returns or raises *)
Section outcome.
Context {E : Type} (request : HttpRequest → M E HttpReply) (c : HttpClickHouseClient).
Context (q : string) (t : option Float) (s : option string).
Notation exchange e e' reply := (request (http_request_of c q t s) e = (e', Ok reply)).

(** Rows come from a response that is not an error: none if it is empty. *)
Definition returns (resp : Response) (rows : list Row) : Prop :=
  is_error (status_code resp) = false ∧
  (response_content resp = "" ∧ rows = [] ∨ response_content resp ≠ "" ∧ json_data resp = Some rows).

Lemma result_of_ok response rows : result_of response = Ok rows ↔ ∃ resp, response = Some resp ∧ returns resp rows.
Proof.
  unfold result_of, returns. destruct response as [resp|]; [|by split; [|intros (? & ? & _)]].
  destruct (is_error (status_code resp)) eqn:Ee.
  - split; [intros (code & _ & ?)%rbind_inv_ok; done|intros (? & [= <-] & ? & _); congruence].
  - destruct (decide (response_content resp = "")) as [Ec|Ec].
    + split; [intros [= <-]; exists resp; by auto|]. by intros (? & [= <-] & _ & [[_ ->]|[? _]]).
    + split.
      * destruct (json_data resp) as [data|] eqn:Ej; [|done]. intros [= <-]. exists resp. by auto.
      * intros (? & [= <-] & _ & [[? _]|[_ ->]]); done.
Qed.

Lemma http_execute_replied e e' resp :
  exchange e e' (Replied resp) → http_execute request c q t s e = (e', result_of (Some resp)).
Proof. intros H. unfold http_execute, http_request. erewrite bind_ok; [done|]. by rewrite (bind_ok _ _ _ _ _ H). Qed.

(** A query returns rows exactly when the server answers with a response that
    is not an error, and fails with the number of the exception when the
    server gives one. *)
Theorem query_result (e e' : E) :
  (∀ rows, http_execute request c q t s e = (e', Ok rows) ↔ ∃ resp, exchange e e' (Replied resp) ∧ returns resp rows) ∧
  (exchange e e' HttpFailure → http_execute request c q t s e = (e', Raise (ClickHouseClientQueryError None))) ∧
  ∀ resp, exchange e e' (Replied resp) → is_error (status_code resp) = true →
    (exception_code_header resp = None →
     http_execute request c q t s e = (e', Raise (ClickHouseClientQueryError None))) ∧
    ∀ raw, exception_code_header resp = Some raw →
      let l := String.list_byte_of_string raw in
      l ≠ [] → forallb PyInt.is_digit l = true → (length l ≤ PyInt.max_str_digits)%nat →
      http_execute request c q t s e = (e', Raise (ClickHouseClientQueryError (Some (Z.of_N (PyInt.value 10 l))))).
Proof.
  split; [|split].
  - intros rows. split.
    + unfold http_execute, http_request. intros (e1 & response & H & Hr)%bind_inv_ok. apply bind_inv_ok in H as (e2 & reply & Hreq & H).
      injection Hr as -> Hr. apply result_of_ok in Hr as (resp & -> & Hresp).
      destruct reply; [|done|done]. injection H as -> ->. by exists resp.
    + intros (resp & Hreq & Hresp). rewrite (http_execute_replied _ _ _ Hreq). f_equal. apply result_of_ok. by exists resp.
  - intros Hreq. unfold http_execute, http_request. rewrite (bind_ok _ _ e e' None); [done|]. by rewrite (bind_ok _ _ _ _ _ Hreq).
  - intros resp Hreq He. split.
    + intros Hnone. rewrite (http_execute_replied _ _ _ Hreq). unfold result_of. by rewrite He, Hnone.
    + intros raw Hraw l Hne Hd Hlen. rewrite (http_execute_replied _ _ _ Hreq). unfold result_of, exception_code. rewrite He, Hraw. fold l.
      assert (PyInt.int_of 10 l = Ok (Z.of_N (PyInt.value 10 l))) as Hint.
      { rewrite PyInt.int_of_digits; [|done|done|done|by left].
        replace (PyInt.max_str_digits <? length l)%nat with false; [done|]. symmetry. by apply Nat.ltb_ge. }
      clearbody l. destruct l as [|b l]; [done|]. rewrite Hint. simpl in Hd. apply andb_true_iff in Hd as [-> _]. done.
Qed.
End outcome.

(** A header that only begins with a digit passes [re.match], and [int]
    raises an exception that is not a [ClickHouseClientQueryError]. *)
Lemma malformed_exception_code : exception_code (Some "452 (from server)") = Raise ValueError.
Proof. reflexivity. Qed.
End ChClient.
