(* ===== verification/ChReplication.v ===== *)
(** * Replicated databases ([coordinator/plugins/clickhouse/replication.py])

    The shard and replica of a database are read from the query that creates
    it; the replicas of a database are found by expanding the macros of each
    server; and [sync_replicated_database] waits until the log pointer of each
    replica has reached the one of the database. *)

From stdpp Require Import base gmap strings list relations.
From Stdlib Require Import ZArith NArith Lia Ascii Strings.Byte.
From Stdlib Require Strings.String.
From S2P Require Import Prelude PyText Regex ChText ChParts ChManifest ZooKeeper Flink.

Module ChReplication.
Import Regex Sql SqlString.

(** ** [get_shard_and_replica] *)
Definition create_database_pattern : re :=
  chain_of [PWords ["CREATE"; "DATABASE"];
            one_of [PToken RawIdentifier; PToken QuotedIdentifier];
            PWords ["ENGINE"];
            PToken Equal;
            PWords ["Replicated"];
            PToken OpenParenthesis;
            named_group "zookeeper_path" (PToken String_);
            PToken Comma;
            named_group "shard" (PToken String_);
            PToken Comma;
            named_group "replica" (PToken String_);
            PToken CloseParenthesis].

(** What [get_shard_and_replica] makes of the answer to [SHOW CREATE DATABASE]. *)
Definition shard_and_replica_of (create_database_query : text) : res (text * text) :=
  match re_match create_database_pattern create_database_query with
  | None => Raise StepFailedError
  | Some (_, matched) =>
      shard ← unescape_sql_string (group "shard" matched);
      replica ← unescape_sql_string (group "replica" matched);
      Ok (shard, replica)
  end.

(** *** Patterns that match a text in one way only *)
Definition only (r : re) (l l1 : text) (g1 : groups) : Prop := ∀ l' g, matches r l l' g ↔ l' = l1 ∧ g = g1.

Lemma only_one c l : only (one c) (c :: l) l [].
Proof. intros l' g. rewrite matches_one. naive_solver. Qed.

Lemma only_seq a b l l1 l2 g1 g2 : only a l l1 g1 → only b l1 l2 g2 → only (RSeq a b) l l2 (g1 ++ g2).
Proof.
  intros Ha Hb l' g. rewrite matches_seq. split.
  - intros (l3 & g3 & g4 & [-> ->]%Ha & [-> ->]%Hb & ->). done.
  - intros [-> ->]. exists l1, g1, g2. by rewrite (Ha l1 g1), (Hb l2 g2).
Qed.

Lemma only_literal w l : only (literal w) (w ++ l) l [].
Proof.
  induction w as [|c [|d w] IH].
  - intros l' g. split; [by inversion 1|intros [-> ->]; constructor].
  - apply only_one.
  - apply (only_seq (one c) _ _ ((d :: w) ++ l) l [] []); [apply only_one|done].
Qed.

Lemma only_group name a pre l1 : only a (pre ++ l1) l1 [] → only (RGroup name a) (pre ++ l1) l1 [(name, pre)].
Proof.
  intros Ha l' g. rewrite matches_group. split.
  - intros (pre' & g0 & E & [-> ->]%Ha & ->). apply app_inv_tail in E. by subst.
  - intros [-> ->]. exists pre, []. split; [done|]. split; [by apply Ha|done].
Qed.

(** What a match can begin with. *)
Definition begins (r : re) (p : byte → bool) : Prop := ∀ l l' g, matches r l l' g → ∃ c k, l = c :: k ∧ p c = true.

Lemma begins_seq a b p : begins a p → begins (RSeq a b) p.
Proof. intros Ha l l' g (l1 & g1 & g2 & H & _)%matches_seq. by eapply Ha. Qed.
Lemma begins_one c : begins (one c) (Byte.eqb c).
Proof. intros l l' g [-> _]%matches_one. exists c, l'. by rewrite Byte.byte_dec_lb. Qed.
Lemma begins_literal c w : begins (literal (c :: w)) (Byte.eqb c).
Proof. destruct w; [apply begins_one|apply begins_seq, begins_one]. Qed.
Lemma begins_group name a p : begins a p → begins (RGroup name a) p.
Proof. intros Ha l l' g (pre & g0 & _ & H & _)%matches_group. by eapply Ha. Qed.
Lemma begins_impl r (p q : byte → bool) : begins r p → (∀ c, p c = true → q c = true) → begins r q.
Proof. intros H Hpq l l' g Hm. destruct (H _ _ _ Hm) as (c & k & -> & Hc). exists c, k. auto. Qed.

Definition not_space (c : byte) : bool := negb (PyInt.is_space c).

(** Spaces before a token are skipped in one way only. *)
Lemma spaces_skipped b ws l l' g :
  forallb PyInt.is_space ws = true → begins b not_space → (∃ c k, l = c :: k ∧ not_space c = true) →
  matches (RSeq (RStar space) b) (ws ++ l) l' g ↔ matches b l l' g.
Proof.
  intros Hws Hb (c & k & -> & Hc). rewrite matches_seq. split.
  - intros (l1 & g1 & g2 & (ds & Hds & E & ->)%matches_star_byte & H & ->). destruct (Hb _ _ _ H) as (c' & k' & -> & Hc').
    apply negb_true_iff in Hc, Hc'. destruct (run_unique PyInt.is_space _ _ _ _ _ _ Hws Hds Hc Hc' E) as (_ & <- & <-). done.
  - intros H. exists (c :: k), [], g. split; [|done]. apply matches_star_byte. by exists ws.
Qed.

Lemma only_spaces b ws l l1 g1 :
  forallb PyInt.is_space ws = true → begins b not_space → only b l l1 g1 → only (RSeq (RStar space) b) (ws ++ l) l1 g1.
Proof.
  intros Hws Hb H l' g. rewrite spaces_skipped; [apply H|done|done|]. eapply Hb. by apply (H l1 g1).
Qed.

Lemma only_some_spaces b ws l l1 g1 :
  ws ≠ [] → forallb PyInt.is_space ws = true → begins b not_space → only b l l1 g1 → only (RSeq (plus space) b) (ws ++ l) l1 g1.
Proof.
  intros Hne Hws Hb H l' g. assert (∃ c k, l = c :: k ∧ not_space c = true) as (c & k & -> & Hc) by (eapply Hb; by apply (H l1 g1)).
  unfold space. rewrite seq_plus. split.
  - intros (ds & l2 & _ & Hds & E & Hm). destruct (Hb _ _ _ Hm) as (c' & k' & -> & Hc').
    apply negb_true_iff in Hc, Hc'. destruct (run_unique PyInt.is_space _ _ _ _ _ _ Hws Hds Hc Hc' E) as (_ & <- & <-). by apply H.
  - intros Hg. exists ws, (c :: k). split; [done|]. split; [done|]. split; [done|]. by apply H.
Qed.

(** *** Quoted texts *)
Definition inside (quote : byte) : re :=
  RAlt (seq_of [one x5c; one x78; RByte is_hex; RByte is_hex]) (RAlt (seq_of [one x5c; not_in [x78]]) (not_in [x5c; quote])).

Lemma inside_one q b l l' g : matches (inside (quote_char q)) (escape_byte q b ++ l) l' g ↔ l' = l ∧ g = [].
Proof.
  rewrite <- run_matches. destruct q, b; cbn -[run]; vm_compute run; rewrite ?list_elem_of_singleton; naive_solver.
Qed.

Lemma inside_quote q l l' g : ¬ matches (inside (quote_char q)) (quote_char q :: l) l' g.
Proof. rewrite <- run_matches. destruct q; vm_compute; by intros ?%elem_of_nil. Qed.
Lemma matches_star a l l' g :
  matches (RStar a) l l' g ↔
    l' = l ∧ g = [] ∨ ∃ l1 g1 g2, matches a l l1 g1 ∧ length l1 < length l ∧ matches (RStar a) l1 l' g2 ∧ g = g1 ++ g2.
Proof.
  split.
  - inversion 1; subst; [by left|]. right. by eexists _, _, _.
  - intros [[-> ->]|(l1 & g1 & g2 & Ha & Hl & Hs & ->)]; [constructor|by econstructor].
Qed.

Lemma escape_byte_first q b l : escape_byte q b ++ l ≠ [] ∧ ∀ k, escape_byte q b ++ l ≠ quote_char q :: k.
Proof. destruct q, b; split; try done; intros k; discriminate. Qed.

Lemma escape_byte_length q b l : length l < length (escape_byte q b ++ l).
Proof. rewrite length_app. assert (length (escape_byte q b) ≠ 0) by (by destruct q, b). lia. Qed.

Lemma only_inside q v rest :
  only (RSeq (RStar (inside (quote_char q))) (one (quote_char q))) (concat (escape_byte q <$> v) ++ quote_char q :: rest) rest [].
Proof.
  induction v as [|b v IH]; intros l' g; rewrite matches_seq; csimpl.
  - split.
    + intros (l1 & g1 & g2 & Hs & [-> ->]%matches_one & ->). apply matches_star in Hs as [[[= <-] ->]|(l2 & g3 & g4 & H & _)]; [done|].
      by apply inside_quote in H.
    + intros [-> ->]. exists (quote_char q :: rest), [], []. split; [constructor|]. by rewrite matches_one.
  - rewrite <- app_assoc. split.
    + intros (l1 & g1 & g2 & Hs & Ho & ->). apply matches_star in Hs as [[-> ->]|(l2 & g3 & g4 & [-> ->]%inside_one & _ & Hs & ->)].
      * apply matches_one in Ho as [E _]. by apply escape_byte_first in E.
      * apply IH, matches_seq. by exists l1, g4, g2.
    + intros Hg. apply IH, matches_seq in Hg as (l1 & g1 & g2 & Hs & Ho & ->). exists l1, g1, g2. split; [|done].
      apply matches_star. right. eexists _, [], g1. split; [by apply inside_one|]. split; [apply escape_byte_length|done].
Qed.

Lemma only_quoted q v rest : only (quoted (quote_char q)) (escape q v ++ rest) rest [].
Proof.
  intros l' g. unfold quoted, escape. cbn [seq_of]. rewrite seq_one. simpl. rewrite <- app_assoc. split.
  - intros (l1 & [= <-] & H). by apply only_inside in H.
  - intros Hg. eexists. split; [done|]. by apply only_inside.
Qed.
(** *** Database names, as they are or quoted *)
Inductive identifier : text → Prop :=
| raw_identifier w : is_run is_word w → identifier w
| quoted_identifier v : identifier (escape Identifier v).

Definition after_name (k : re) : re := RSeq (RStar space) (RSeq (literal (lit "ENGINE")) (RSeq (RStar space) (RSeq (one x3d) k))).

Lemma token_one c : not_space c = true → begins (one c) not_space.
Proof. intros Hc. eapply begins_impl; [apply begins_one|]. intros b Hb%Byte.byte_dec_bl. by subst. Qed.
Lemma token_literal c w : not_space c = true → begins (literal (c :: w)) not_space.
Proof. intros Hc. eapply begins_impl; [apply begins_literal|]. intros b Hb%Byte.byte_dec_bl. by subst. Qed.

(** The name cannot end before its last character. *)
Lemma name_whole k c w rest l' g :
  forallb is_word (c :: w) = true → ¬ matches (after_name k) ((c :: w) ++ x0a :: lit "ENGINE =" ++ rest) l' g.
Proof.
  assert (∀ b, is_word b = true → not_space b = true ∧ b ≠ x3d ∧ b ≠ x0a) as Hword by (intros []; vm_compute; done).
  assert (∀ k, begins (RSeq (one x3d) k) not_space) as Heq by (intros k'; by apply begins_seq, token_one).
  assert (∀ k, begins (RSeq (literal (lit "ENGINE")) k) not_space) as Hengine by (intros k'; by apply begins_seq, token_literal).
  intros Hw Hm. unfold after_name in Hm. apply (spaces_skipped _ [] _ _ _ eq_refl (Hengine _)) in Hm.
  2: { simpl in Hw. apply andb_prop in Hw as [Hc _]. exists c, (w ++ x0a :: lit "ENGINE =" ++ rest). split; [done|]. by apply Hword. }
  apply matches_seq in Hm as (l1 & g1 & g2 & [E ->]%matches_literal & Hm & ->).
  apply app_eq_app in E as (z & [[Ez ->]|[Ez E2]]).
  - destruct z as [|d z].
    + rewrite app_nil_l in Hm. change (x0a :: ?x) with ([x0a] ++ x) in Hm.
      apply (spaces_skipped _ [x0a] _ _ _ eq_refl (Heq _)) in Hm; [|by eexists _, _]. apply seq_one in Hm as (? & ? & _). done.
    + rewrite Ez, forallb_app in Hw. apply andb_prop in Hw as [_ Hz]. simpl in Hz. apply andb_prop in Hz as [Hd _].
      destruct (Hword d Hd) as (Hs & Hne & _). apply (spaces_skipped _ [] _ _ _ eq_refl (Heq _)) in Hm; [|by eexists _, _].
      apply seq_one in Hm as (? & [= ? _] & _). done.
  - destruct z as [|d z].
    + rewrite app_nil_r in Ez. rewrite <- Ez in *. rewrite app_nil_l in E2. subst l1. change (x0a :: ?x) with ([x0a] ++ x) in Hm.
      apply (spaces_skipped _ [x0a] _ _ _ eq_refl (Heq _)) in Hm; [|by eexists _, _]. apply seq_one in Hm as (? & ? & _). done.
    + injection E2 as <- _. assert (x0a ∈ lit "ENGINE") as Hin; [rewrite Ez; apply elem_of_app; right; by left|].
      exfalso. revert Hin. apply (bool_decide_unpack (x0a ∉ lit "ENGINE")). vm_compute. exact I.
Qed.
Lemma only_after_name k rest l1 g1 : only k rest l1 g1 → only (after_name k) (x0a :: lit "ENGINE =" ++ rest) l1 g1.
Proof.
  intros Hk. apply (only_spaces _ [x0a]); [done|by apply begins_seq, token_literal|].
  apply (only_seq _ _ (lit "ENGINE" ++ x20 :: x3d :: rest) (x20 :: x3d :: rest) _ []); [apply only_literal|].
  apply (only_spaces _ [x20]); [done|by apply begins_seq, token_one|].
  apply (only_seq _ _ _ rest _ []); [apply only_one|done].
Qed.

Definition name_pattern : re := to_bytes_pattern (one_of [PToken RawIdentifier; PToken QuotedIdentifier]).

Lemma begins_name : begins name_pattern not_space.
Proof.
  intros l l' g H. inversion H as [| | |? ? ? ? ? Hr|? ? ? ? ? Hq| | | |]; subst.
  - apply matches_plus_byte in Hr as ([|c ds] & Hne & Hds & -> & _); [done|]. simpl in Hds. apply andb_prop in Hds as [Hc _].
    exists c, (ds ++ l'). split; [done|]. revert Hc. destruct c; vm_compute; done.
  - apply matches_seq in Hq as (l1 & g1 & g2 & [-> _]%matches_one & _). by eexists _, _.
Qed.

(** The name is read in one way, whichever way it is written. *)
Lemma only_name k ident rest l1 g1 :
  identifier ident → only k rest l1 g1 →
  only (RSeq name_pattern (after_name k)) (ident ++ x0a :: lit "ENGINE =" ++ rest) l1 g1.
Proof.
  intros Hid Hk%only_after_name l' g. split.
  - intros (l2 & g2 & g3 & Hn & Ha & ->)%matches_seq. destruct Hid as [w [Hne Hw]|v].
    + inversion Hn as [| | |? ? ? ? ? Hr|? ? ? ? ? Hq| | | |]; subst.
      * apply matches_plus_byte in Hr as (ds & _ & Hds & E & ->). apply app_eq_app in E as (z & [[-> ->]|[-> E]]).
        -- destruct z as [|c z]; [by apply Hk in Ha|]. exfalso. rewrite forallb_app in Hw. apply andb_prop in Hw as [_ Hz].
           by eapply name_whole.
        -- destruct z as [|c z]; [simpl in E; rewrite <- E in Ha; by apply Hk in Ha|]. injection E as <- _.
           rewrite forallb_app in Hds. apply andb_prop in Hds as [_ Hz]. by vm_compute in Hz.
      * exfalso. apply matches_seq in Hq as (l3 & g4 & g5 & [E _]%matches_one & _). destruct w as [|c w]; [done|]. injection E as -> _.
        by vm_compute in Hw.
    + inversion Hn as [| | |? ? ? ? ? Hr|? ? ? ? ? Hq| | | |]; subst.
      * exfalso. apply matches_plus_byte in Hr as ([|c ds] & Hne & Hds & E & _); [done|]. injection E as <- _. by vm_compute in Hds.
      * apply (only_quoted Identifier) in Hq as [-> ->]. by apply Hk in Ha.
  - intros Hg. apply matches_seq. exists (x0a :: lit "ENGINE =" ++ rest), [], g. split; [|split; [by apply Hk|done]].
    destruct Hid as [w [Hne Hw]|v].
    + apply m_left, matches_plus_byte. by exists w.
    + by apply m_right, (only_quoted Identifier).
Qed.

(** *** The query that creates a database *)
Definition create_database_query (ident path shard replica rest : text) : text :=
  lit "CREATE DATABASE " ++ ident ++ x0a :: lit "ENGINE =" ++ lit " Replicated(" ++ escape Text path ++ lit ", " ++
  escape Text shard ++ lit ", " ++ escape Text replica ++ lit ")" ++ rest.

Lemma only_string_group name v l : only (RGroup name (quoted (quote_char Text))) (escape Text v ++ l) l [(name, escape Text v)].
Proof. apply only_group, only_quoted. Qed.

Lemma begins_string_group name : begins (RGroup name (quoted (quote_char Text))) not_space.
Proof. apply begins_group, begins_seq. by apply token_one. Qed.

Lemma only_create_database ident path shard replica rest :
  identifier ident →
  only create_database_pattern (create_database_query ident path shard replica rest) rest
    [("zookeeper_path", escape Text path); ("shard", escape Text shard); ("replica", escape Text replica)].
Proof.
  intros Hid. unfold create_database_query.
  apply (only_seq _ _ _ (x20 :: ident ++ x0a :: lit "ENGINE =" ++ lit " Replicated(" ++ escape Text path ++ lit ", " ++
    escape Text shard ++ lit ", " ++ escape Text replica ++ lit ")" ++ rest) _ []).
  { apply (only_seq _ _ _ (x20 :: lit "DATABASE" ++ x20 :: ident ++ x0a :: lit "ENGINE =" ++ lit " Replicated(" ++ escape Text path ++ lit ", " ++
      escape Text shard ++ lit ", " ++ escape Text replica ++ lit ")" ++ rest) _ []); [apply (only_literal (lit "CREATE"))|].
    apply (only_some_spaces _ [x20]); [done|done|by apply token_literal|]. apply (only_literal (lit "DATABASE")). }
  apply (only_spaces _ [x20]); [done|apply begins_seq, begins_name|]. apply (only_name _ _ _ _ _ Hid).
  apply (only_spaces _ [x20]); [done|by apply begins_seq, token_literal|].
  eapply (only_seq _ _ (lit "Replicated" ++ _) _ _ []); [apply (only_literal (lit "Replicated"))|].
  apply (only_spaces _ [] (x28 :: _)); [done|by apply begins_seq, token_one|]. eapply (only_seq _ _ _ _ _ []); [apply only_one|].
  apply (only_spaces _ [] (escape Text path ++ _)); [done|apply begins_seq, begins_string_group|].
  eapply (only_seq _ _ _ _ _ [(_, _)]); [apply only_string_group|].
  apply (only_spaces _ [] (x2c :: _)); [done|by apply begins_seq, token_one|]. eapply (only_seq _ _ _ _ _ []); [apply only_one|].
  apply (only_spaces _ [x20] (escape Text shard ++ _)); [done|apply begins_seq, begins_string_group|].
  eapply (only_seq _ _ _ _ _ [(_, _)]); [apply only_string_group|].
  apply (only_spaces _ [] (x2c :: _)); [done|by apply begins_seq, token_one|]. eapply (only_seq _ _ _ _ _ []); [apply only_one|].
  apply (only_spaces _ [x20] (escape Text replica ++ _)); [done|apply begins_seq, begins_string_group|].
  eapply (only_seq _ _ _ _ _ [(_, _)]); [apply only_string_group|].
  apply (only_spaces _ [] (x29 :: _)); [done|by apply token_one|]. apply only_one.
Qed.
(** The shard and the replica of a database are recovered from the query that
    creates it, whatever bytes they hold, whether the name of the database is
    quoted or not, and whatever follows. *)
Theorem shard_and_replica_parsed (ident path shard replica rest : text) :
  identifier ident → shard_and_replica_of (create_database_query ident path shard replica rest) = Ok (shard, replica).
Proof.
  intros Hid. pose proof (only_create_database ident path shard replica rest Hid) as Hon. unfold shard_and_replica_of.
  rewrite (re_match_unique _ _ rest [("zookeeper_path", escape Text path); ("shard", escape Text shard); ("replica", escape Text replica)]).
  2: by apply Hon. 2: by intros l1 g1 [-> ->]%Hon.
  change (group "shard" _) with (escape Text shard). change (group "replica" _) with (escape Text replica).
  by rewrite !unescape_escaped.
Qed.

(** ** [get_databases_replicas] *)
Import ChManifest.
Notation Macros := (gmap (list N) (list byte)).

(** What the step catches while it expands the macros of a server. *)
Definition replica_of (database : ReplicatedDatabase) (macros : Macros) : res DatabaseReplica :=
  let expanded :=
    shard_name ← (b ← Macros.expand macros (db_shard database); Utf8.decode_bytes b);
    replica_name ← (b ← Macros.expand macros (db_replica database); Utf8.decode_bytes b);
    Ok (mkDatabaseReplica shard_name replica_name) in
  match expanded with
  | Raise MacroExpansionError | Raise UnicodeDecodeError => Raise StepFailedError
  | r => r
  end.

Definition get_databases_replicas (replicated_databases : list ReplicatedDatabase) (servers_macros : list Macros) :
    res (list (list byte * list DatabaseReplica)) :=
  fold_res (λ d database,
    replicas ← map_res (replica_of database) servers_macros;
    Ok (dict_set (db_name database) replicas d)) [] replicated_databases.
Lemma replica_of_ok database macros r :
  replica_of database macros = Ok r ↔
    ∃ s t, Macros.expand macros (db_shard database) = Ok s ∧ Macros.expand macros (db_replica database) = Ok t ∧
           Utf8.decode_bytes s = Ok (shard_name r) ∧ Utf8.decode_bytes t = Ok (replica_name r).
Proof.
  unfold replica_of. split.
  - destruct (Macros.expand macros (db_shard database)) as [s|e]; [|by destruct e]. simpl.
    destruct (Utf8.decode_bytes s) as [s'|e] eqn:Es; [|by destruct e]. simpl.
    destruct (Macros.expand macros (db_replica database)) as [t|e]; [|by destruct e]. simpl.
    destruct (Utf8.decode_bytes t) as [t'|e] eqn:Et; [|by destruct e]. simpl. intros [= <-]. by exists s, t.
  - intros (s & t & -> & -> & Hs & Ht). simpl. rewrite Hs. simpl. rewrite Ht. by destruct r.
Qed.

Lemma replica_of_raise database macros e : replica_of database macros = Raise e → e = StepFailedError.
Proof.
  assert (∀ b, match Utf8.decode_bytes b with Ok _ => True | Raise e => e = UnicodeDecodeError end) as Hdec.
  { intros b. unfold Utf8.decode_bytes, Utf8.decode. by destruct (Utf8.valid_utf8 _). }
  unfold replica_of. pose proof (Macros.expand_from_spec macros 10 0 (db_shard database)) as Hs.
  pose proof (Macros.expand_from_spec macros 10 0 (db_replica database)) as Ht.
  change (Macros.expand_from macros 10 0 ?x) with (Macros.expand macros x) in *.
  destruct (Macros.expand macros (db_shard database)) as [s|?]; simpl; [|subst; by intros [= <-]].
  pose proof (Hdec s) as Hd. destruct (Utf8.decode_bytes s); simpl; [|subst; by intros [= <-]].
  destruct (Macros.expand macros (db_replica database)) as [t|?]; simpl; [|subst; by intros [= <-]].
  pose proof (Hdec t) as Hd'. destruct (Utf8.decode_bytes t); simpl; [done|subst; by intros [= <-]].
Qed.

Definition entry_of (servers_macros : list Macros) (database : ReplicatedDatabase) (entry : list byte * list DatabaseReplica) : Prop :=
  entry.1 = db_name database ∧ Forall2 (λ macros r, replica_of database macros = Ok r) servers_macros entry.2.

Lemma databases_replicas_fold servers_macros databases acc d :
  NoDup (db_name <$> databases) → (∀ x, x ∈ databases → db_name x ∉ acc.*1) →
  fold_res (λ d database, replicas ← map_res (replica_of database) servers_macros; Ok (dict_set (db_name database) replicas d))
    acc databases = Ok d ↔ ∃ d', d = acc ++ d' ∧ Forall2 (entry_of servers_macros) databases d'.
Proof.
  revert acc. induction databases as [|x databases IH]; intros acc Hnd Hacc; simpl.
  - split; [intros [= <-]; exists []; by rewrite app_nil_r|]. intros (d' & -> & ->%Forall2_nil_inv_l). by rewrite app_nil_r.
  - apply NoDup_cons in Hnd as [Hx Hnd]. destruct (map_res (replica_of x) servers_macros) as [rs|e] eqn:Em; simpl.
    + rewrite dict_set_new by (apply Hacc; by left). rewrite IH; [|done|].
      2: { intros y Hy. rewrite fmap_app, not_elem_of_app. split; [apply Hacc; by right|]. simpl. rewrite list_elem_of_singleton.
           intros E. apply Hx. rewrite <- E. by apply list_elem_of_fmap_2. }
      split.
      * apply map_res_ok in Em. intros (d' & -> & HF). exists ((db_name x, rs) :: d'). rewrite <- app_assoc. split; [done|]. by constructor.
      * intros (d' & -> & ([n rs'] & d'' & [Hn Hrs] & HF & ->)%Forall2_cons_inv_l). simpl in *. subst n.
        apply map_res_ok in Hrs. assert (rs' = rs) as -> by congruence. exists d''. by rewrite <- app_assoc.
    + split; [done|]. intros (d' & _ & ([n rs'] & d'' & [Hn Hrs] & _)%Forall2_cons_inv_l). apply map_res_ok in Hrs. simpl in *. congruence.
Qed.

(** The replicas of a database are one for each server, in the order of the
    servers: its shard and replica names are those of the database with the
    macros of the server expanded.  The only failure is [StepFailedError], for
    a macro that cannot be expanded or does not expand to UTF-8. *)
Theorem databases_replicas_exact (databases : list ReplicatedDatabase) (servers_macros : list Macros) :
  NoDup (db_name <$> databases) →
  (∀ d, get_databases_replicas databases servers_macros = Ok d ↔
     Forall2 (λ database entry, entry.1 = db_name database ∧
       Forall2 (λ macros r,
         ∃ s t, Macros.expand macros (db_shard database) = Ok s ∧ Macros.expand macros (db_replica database) = Ok t ∧
                Utf8.decode_bytes s = Ok (shard_name r) ∧ Utf8.decode_bytes t = Ok (replica_name r)) servers_macros entry.2)
       databases d) ∧
  ∀ e, get_databases_replicas databases servers_macros = Raise e → e = StepFailedError.
Proof.
  intros Hnd. unfold get_databases_replicas. split.
  - intros d. rewrite (databases_replicas_fold _ _ [] _ Hnd) by (intros x _; apply not_elem_of_nil). split.
    + intros (d' & -> & HF). eapply Forall2_impl; [exact HF|]. intros x entry [Hn Hr]. split; [done|].
      eapply Forall2_impl; [exact Hr|]. by intros m r ?%replica_of_ok.
    + intros HF. exists d. split; [done|]. eapply Forall2_impl; [exact HF|]. intros x entry [Hn Hr]. split; [done|].
      eapply Forall2_impl; [exact Hr|]. by intros m r ?%replica_of_ok.
  - intros e (x & acc & _ & H)%fold_res_raise. destruct (map_res _ _) as [rs|e'] eqn:Em; [done|]. injection H as ->.
    apply map_res_raise in Em as (m & _ & Hm). by eapply replica_of_raise.
Qed.

(** ** Examples *)
Lemma shard_and_replica_parsed_witness :
  shard_and_replica_of (create_database_query [x64; x62] [x2f; x27] [x73; x5c] [x7b; x72; x7d] [x20]) = Ok ([x73; x5c], [x7b; x72; x7d]).
Proof. apply (shard_and_replica_parsed [x64; x62]). constructor. by split. Defined.

Definition example_databases : list ReplicatedDatabase := [mkReplicatedDatabase [x64; x62] None [x7b; x73; x7d] [x72; x7b; x6e; x7d]].
Definition example_macros (n : byte) : Macros := <[Macros.key [x73] := [x31]]> (<[Macros.key [x6e] := [n]]> ∅).

Lemma databases_replicas_exact_witness :
  get_databases_replicas example_databases [example_macros x61; example_macros x62] =
    Ok [([x64; x62], [mkDatabaseReplica "1" "ra"; mkDatabaseReplica "1" "rb"])] ∧
  Forall2 (λ database entry, entry.1 = db_name database ∧
     Forall2 (λ macros r,
       ∃ s t, Macros.expand macros (db_shard database) = Ok s ∧ Macros.expand macros (db_replica database) = Ok t ∧
              Utf8.decode_bytes s = Ok (shard_name r) ∧ Utf8.decode_bytes t = Ok (replica_name r))
       [example_macros x61; example_macros x62] entry.2)
    example_databases [([x64; x62], [mkDatabaseReplica "1" "ra"; mkDatabaseReplica "1" "rb"])].
Proof.
  assert (get_databases_replicas example_databases [example_macros x61; example_macros x62] =
    Ok [([x64; x62], [mkDatabaseReplica "1" "ra"; mkDatabaseReplica "1" "rb"])]) as H by (vm_compute; reflexivity).
  split; [exact H|]. destruct (databases_replicas_exact example_databases [example_macros x61; example_macros x62]) as [Hiff _].
  - apply NoDup_singleton.
  - by apply Hiff.
Defined.
End ChReplication.
