(* ===== verification/ChSync.v ===== *)
(** * Waiting for the replicas of a database
      ([sync_replicated_database] of
      [coordinator/plugins/clickhouse/replication.py])

    The log pointers of the database and of its replicas are ZooKeeper nodes.
    The pointer of the database is read once; each read of the pointer of a
    replica sets a watch, whose call starts another read.  Other clients go on
    in the meantime, as in the Flink component. *)

From stdpp Require Import base gmap strings list relations.
From Stdlib Require Import ZArith NArith Lia Ascii Strings.Byte.
From Stdlib Require Strings.String.
From S2P Require Import Prelude PyText ChText ChManifest ZooKeeper Flink.

Module ChSync.
Import ZooKeeper Flink ChManifest.
Local Open Scope Z_scope.
Notation W := Flink.W.

(** [replica_ptrs], and for each watch that was set, in order, the replica that
    its closure names. *)
Record sync_state : Type := mkSync {
  replica_ptrs : list (option Z);
  watch_index : list nat;
}.

Definition int_of_value (value : string) : res Z := PyInt.int_of 10 (String.list_byte_of_string value).

Section sync.
(** The connection, and the number of the first watcher. *)
Context (c base : nat) (database_path : string) (replicas : list DatabaseReplica).

Definition database_max_ptr_path : string := database_path +:+ "/max_log_ptr".
Definition replica_ptr_path (replica : DatabaseReplica) : string :=
  database_path +:+ "/replicas/" +:+ full_name replica +:+ "/log_ptr".

(** The new state and what the coroutine raises. *)
Definition update_replica_ptr (replica_index : nat) (path : string) (s : sync_state) : M W (sync_state * res unit) := λ w,
  match call (get_node c path (Some (base + length (watch_index s))%nat)) w with
  | (w', Raise e) => (w', Ok (s, Raise e))
  | (w', Ok replica_ptr_bytes) =>
      let s := mkSync (replica_ptrs s) (watch_index s ++ [replica_index]) in
      match int_of_value replica_ptr_bytes with
      | Raise e => (w', Ok (s, Raise e))
      | Ok replica_ptr => (w', Ok (mkSync (<[replica_index := Some replica_ptr]> (replica_ptrs s)) (watch_index s), Ok tt))
      end
  end.

(** [for index, replica in enumerate(replicas)] *)
Fixpoint first_updates (l : list (nat * DatabaseReplica)) (s : sync_state) : M W sync_state :=
  match l with
  | [] => mret s
  | (index, replica) :: rest =>
      sr ← update_replica_ptr index (replica_ptr_path replica) s;
      lift_res (snd sr) ;; first_updates rest (fst sr)
  end.

Definition replicas_are_synced (database_max_ptr : Z) (s : sync_state) : bool :=
  forallb (λ ptr, match ptr with Some p => database_max_ptr <=? p | None => false end) (replica_ptrs s).

(** [watch_node], and the update that it starts, whose exceptions are lost. *)
Definition watch_node (call : nat * WatchedEvent) (s : sync_state) : M W sync_state :=
  if decide (event_type call.2 = CHANGED ∧ (base ≤ call.1)%nat) then
    match watch_index s !! (call.1 - base)%nat with
    | Some i =>
        match replicas !! i with
        | Some replica => sr ← update_replica_ptr i (replica_ptr_path replica) s; mret (fst sr)
        | None => mret s
        end
    | None => mret s
    end
  else mret s.

(** The calls of watchers that were not served yet; waiting ends as soon as
    the pointers are high enough. *)
Fixpoint serve (database_max_ptr : Z) (calls : list (nat * WatchedEvent)) (s : sync_state) : M W sync_state :=
  match calls with
  | [] => mret s
  | call :: rest =>
      if replicas_are_synced database_max_ptr s then mret s
      else s' ← watch_node call s; serve database_max_ptr rest s'
  end.

(** [condition.wait_for(replicas_are_synced)]: other clients are served, then
    the watchers that were called; [rounds] is how often that happens before
    the timeout. *)
Fixpoint wait_for (rounds : nat) (database_max_ptr : Z) (seen : nat) (s : sync_state) : M W unit :=
  if replicas_are_synced database_max_ptr s then mret tt
  else
    match rounds with
    | O => raise TimeoutError
    | S rounds' =>
        interleave ;;
        w ← get;
        s' ← serve database_max_ptr (drop seen (fired w.1)) s;
        wait_for rounds' database_max_ptr (length (fired w.1)) s'
    end.

Definition sync_replicated_database (rounds : nat) : M W unit :=
  database_max_ptr_bytes ← call (get_node c database_max_ptr_path None);
  database_max_ptr ← lift_res (int_of_value database_max_ptr_bytes);
  w ← get;
  s ← first_updates (enumerate replicas) (mkSync (replicate (length replicas) None) []);
  wait_for rounds database_max_ptr (length (fired w.1)) s.

(** ** What happens in the meantime *)

(** The other clients go on, or this one reads. *)
Definition step (w w' : W) : Prop :=
  w' = (interleave w).1 ∨
  storage w'.1 = storage w.1 ∧ connections w'.1 = connections w.1 ∧ w'.2 = w.2.
Definition reach : W → W → Prop := rtc step.

Definition stored_ptr (w : W) (path : string) (p : Z) : Prop :=
  ∃ value, storage w.1 !! parse_path path = Some value ∧ int_of_value value = Ok p.

Lemma reach_interleave w : reach w (interleave w).1.
Proof. apply rtc_once. by left. Qed.

Lemma call_get_run path watch w w' r : call (get_node c path watch) w = (w', r) →
  let w1 := (interleave w).1 in
  match r with
  | Ok value => c ∈ connections w1.1 ∧ storage w1.1 !! parse_path path = Some value ∧
                w' = (add_watch c (parse_path path) watch w1.1, w1.2)
  | Raise e => w' = w1 ∧ (c ∉ connections w1.1 ∨ storage w1.1 !! parse_path path = None)
  end.
Proof.
  unfold call. intros H. assert (interleave w = ((interleave w).1, Ok tt)) as Hi by by destruct w as [z [|rs script]].
  rewrite (bind_ok _ _ _ _ _ Hi) in H. revert H. generalize (interleave w).1 as w1. clear. intros [z script] H.
  unfold on_client, zoom, get_node in H. rewrite connected_run in H. simpl in *. destruct (decide (c ∈ connections z)) as [Hc|Hc].
  - rewrite (bind_ok get _ z z z) in H by done. destruct (storage z !! parse_path path) as [v|] eqn:Ev; injection H as <- <-; auto.
  - injection H as <- <-. auto.
Qed.

Lemma add_watch_same parts watch z :
  storage (add_watch c parts watch z) = storage z ∧ connections (add_watch c parts watch z) = connections z.
Proof. by destruct watch. Qed.

Lemma call_get_reach path watch w w' r : call (get_node c path watch) w = (w', r) →
  reach w w' ∧ ∀ value, r = Ok value → storage w'.1 !! parse_path path = Some value.
Proof.
  intros H%call_get_run. destruct r as [value|e]; simpl in H.
  - destruct H as (_ & Hv & ->). split; [|by intros ? [= <-]; simpl; rewrite (proj1 (add_watch_same _ _ _))].
    eapply rtc_r; [apply reach_interleave|]. right. simpl. split; [apply add_watch_same|]. split; [apply add_watch_same|done].
  - destruct H as [-> _]. split; [apply reach_interleave|done].
Qed.

(** ** Each pointer was read *)

(** Since [w0], each pointer that is known was stored at some time. *)
Record was_read (w0 : W) (s : sync_state) (w : W) : Prop := {
  read_since : reach w0 w;
  read_length : length (replica_ptrs s) = length replicas;
  read_ptr i p replica : replica_ptrs s !! i = Some (Some p) → replicas !! i = Some replica →
    ∃ w1, reach w0 w1 ∧ reach w1 w ∧ stored_ptr w1 (replica_ptr_path replica) p;
}.

Lemma was_read_later w0 s s' w w' :
  replica_ptrs s' = replica_ptrs s → was_read w0 s w → reach w w' → was_read w0 s' w'.
Proof.
  intros E [H1 H2 H3] Hr. split; [by etransitivity|by rewrite E|]. intros i p replica. rewrite E. intros Hp Hi.
  destruct (H3 i p replica Hp Hi) as (w1 & Hw1 & Hw2 & Hs). exists w1. split; [done|]. split; [by etransitivity|done].
Qed.

Lemma update_was_read w0 i replica s w w' r :
  replicas !! i = Some replica → was_read w0 s w → update_replica_ptr i (replica_ptr_path replica) s w = (w', r) →
  ∃ s' x, r = Ok (s', x) ∧ was_read w0 s' w'.
Proof.
  intros Hi Hw. unfold update_replica_ptr. destruct (call _ w) as [w1 [value|e]] eqn:Ec; apply call_get_reach in Ec as [Hr Hv].
  - specialize (Hv value eq_refl). destruct (int_of_value value) as [p|e] eqn:Ep; intros [= <- <-]; eexists _, _; (split; [done|]).
    + destruct (was_read_later w0 s s w w1 eq_refl Hw Hr) as [H1 H2 H3]. split; [done|simpl; by rewrite length_insert|].
      simpl. intros j q rep Hq Hj. destruct (decide (i = j)) as [<-|Hne].
      * rewrite list_lookup_insert_eq in Hq by (rewrite H2; by eapply lookup_lt_Some). injection Hq as <-.
        assert (rep = replica) as -> by congruence. exists w1. split; [done|]. split; [done|]. by exists value.
      * rewrite list_lookup_insert_ne in Hq by done. by apply (H3 j q rep).
    + by apply (was_read_later w0 s _ w w1).
  - intros [= <- <-]. eexists _, _. split; [done|]. by apply (was_read_later w0 s _ w w1).
Qed.

Lemma first_updates_was_read w0 l s w w' s' :
  (∀ i replica, (i, replica) ∈ l → replicas !! i = Some replica) → was_read w0 s w →
  first_updates l s w = (w', Ok s') → was_read w0 s' w'.
Proof.
  revert s w. induction l as [|[i replica] l IH]; intros s w Hl Hw Hrun; cbn [first_updates] in Hrun.
  - by injection Hrun as <- <-.
  - apply bind_inv_ok in Hrun as (w1 & sr & Hu & Hrun). apply bind_inv_ok in Hrun as (w2 & [] & Hx & Hrun).
    destruct (update_was_read w0 i replica s w w1 _ (Hl i replica ltac:(by left)) Hw Hu) as (s1 & x & [= ->] & Hw1).
    injection Hx as <- _. eapply IH; [|exact Hw1|exact Hrun]. intros j rep Hj. apply Hl. by right.
Qed.

Lemma watch_node_was_read w0 call s w w' r :
  was_read w0 s w → watch_node call s w = (w', r) → ∃ s', r = Ok s' ∧ was_read w0 s' w'.
Proof.
  intros Hw. unfold watch_node. case_decide; [|intros [= <- <-]; by exists s].
  destruct (watch_index s !! _) as [i|]; [|intros [= <- <-]; by exists s].
  destruct (replicas !! i) as [replica|] eqn:Ei; [|intros [= <- <-]; by exists s].
  destruct (update_replica_ptr i (replica_ptr_path replica) s w) as [w1 r1] eqn:Eu.
  destruct (update_was_read w0 i replica s w w1 r1 Ei Hw Eu) as (s1 & x & -> & Hw1).
  rewrite (bind_ok _ _ _ _ _ Eu). intros [= <- <-]. by exists s1.
Qed.

Lemma serve_was_read w0 m calls s w w' r :
  was_read w0 s w → serve m calls s w = (w', r) → ∃ s', r = Ok s' ∧ was_read w0 s' w'.
Proof.
  revert s w. induction calls as [|call calls IH]; intros s w Hw; cbn [serve]; [intros [= <- <-]; by exists s|].
  destruct (replicas_are_synced m s); [intros [= <- <-]; by exists s|].
  destruct (watch_node call s w) as [w1 r1] eqn:Ew. destruct (watch_node_was_read w0 call s w w1 r1 Hw Ew) as (s1 & -> & Hw1).
  rewrite (bind_ok _ _ _ _ _ Ew). by apply IH.
Qed.

Lemma interleave_run w : interleave w = ((interleave w).1, Ok tt).
Proof. by destruct w as [z [|rs script]]. Qed.

Lemma wait_for_was_read w0 rounds m seen s w w' r :
  was_read w0 s w → wait_for rounds m seen s w = (w', r) →
  (r = Ok tt ∧ ∃ s', replicas_are_synced m s' = true ∧ was_read w0 s' w') ∨ r = Raise TimeoutError.
Proof.
  revert seen s w. induction rounds as [|rounds IH]; intros seen s w Hw; cbn [wait_for];
    destruct (replicas_are_synced m s) eqn:Es; try (intros [= <- <-]; by eauto 6).
  rewrite (bind_ok _ _ _ _ _ (interleave_run w)), (bind_ok get _ _ _ _ eq_refl).
  assert (was_read w0 s (interleave w).1) as Hw1 by (apply (was_read_later w0 s s w); [done|done|apply reach_interleave]).
  destruct (serve m (drop seen (fired (interleave w).1.1)) s (interleave w).1) as [w2 r2] eqn:E2.
  destruct (serve_was_read w0 m _ s _ w2 r2 Hw1 E2) as (s2 & -> & Hw2).
  rewrite (bind_ok _ _ _ _ _ E2). by apply IH.
Qed.

Lemma synced_at m s i : replicas_are_synced m s = true → (i < length (replica_ptrs s))%nat →
  ∃ p, replica_ptrs s !! i = Some (Some p) ∧ m <= p.
Proof.
  unfold replicas_are_synced. rewrite forallb_forall. intros H Hi.
  destruct (lookup_lt_is_Some_2 (replica_ptrs s) i) as [o Ho]; [lia|]. rewrite Ho.
  specialize (H o). rewrite <- list_elem_of_In in H. specialize (H (list_elem_of_lookup_2 _ _ _ Ho)).
  destruct o as [p|]; [|done]. exists p. split; [done|]. by apply Z.leb_le.
Qed.

(** C15: When [sync_replicated_database] returns, every replica has caught up: its
    log pointer was seen, during the call, to have reached the value that the
    pointer of the database had at the beginning - so that, as long as log
    pointers do not go back, it is at least that value at the end. *)
Theorem sync_waits_for_replicas (rounds : nat) (w w' : W) :
  sync_replicated_database rounds w = (w', Ok tt) →
  ∃ w0 m, reach w w0 ∧ stored_ptr w0 database_max_ptr_path m ∧
    (∀ replica, replica ∈ replicas → ∃ w1 p, reach w0 w1 ∧ reach w1 w' ∧ stored_ptr w1 (replica_ptr_path replica) p ∧ m <= p) ∧
    ((∀ replica w1 w2 p, replica ∈ replicas → reach w0 w1 → reach w1 w2 → stored_ptr w1 (replica_ptr_path replica) p →
        ∃ p', stored_ptr w2 (replica_ptr_path replica) p' ∧ p <= p') →
     ∀ replica, replica ∈ replicas → ∃ p, stored_ptr w' (replica_ptr_path replica) p ∧ m <= p).
Proof.
  unfold sync_replicated_database. intros (w1 & value & Hget & Hrun)%bind_inv_ok. apply call_get_reach in Hget as [Hr Hv].
  apply bind_inv_ok in Hrun as (w2 & m & Hm & Hrun). injection Hm as <- Hm.
  rewrite (bind_ok get _ w1 w1 w1 eq_refl) in Hrun. apply bind_inv_ok in Hrun as (w3 & s & Hfirst & Hwait).
  assert (was_read w1 s w3) as Hs.
  { eapply first_updates_was_read; [intros i replica; by rewrite elem_of_enumerate| |exact Hfirst].
    split; [done|apply length_replicate|]. intros i p replica. simpl. by intros [? _]%lookup_replicate. }
  destruct (wait_for_was_read w1 _ _ _ _ _ _ _ Hs Hwait) as [[_ (s' & Hsync & [H1 H2 H3])]|]; [|done].
  assert (∀ replica, replica ∈ replicas →
    ∃ w2 p, reach w1 w2 ∧ reach w2 w' ∧ stored_ptr w2 (replica_ptr_path replica) p ∧ m <= p) as Hall.
  { intros replica [i Hi]%list_elem_of_lookup. destruct (synced_at m s' i Hsync) as (p & Hp & Hmp).
    - rewrite H2. apply lookup_lt_Some in Hi. lia.
    - destruct (H3 i p replica) as (w4 & ? & ? & ?); [|done|by exists w4, p]. done. }
  exists w1, m. split; [done|]. split; [exists value; split; [by apply Hv|done]|]. split; [done|]. intros Hmono replica Hin.
  destruct (Hall replica Hin) as (w4 & p & Hw4 & Hw4' & Hp & Hmp). destruct (Hmono replica w4 w' p Hin Hw4 Hw4' Hp) as (p' & Hp' & Hle).
  exists p'. split; [done|lia].
Qed.

(** ** No change is missed *)

(** The other clients only set values, and integers at the pointers. *)
Definition sets (cr : nat * request) : Prop :=
  ∃ path value, cr.2 = SetValue path value ∧
    ∀ replica, replica ∈ replicas → parse_path path = parse_path (replica_ptr_path replica) → ∃ p, int_of_value value = Ok p.

Lemma trigger_fired parts event z :
  ∃ ws, fired (trigger parts event z) = fired z ++ ((λ w, (w, event)) <$> ws) ∧
        ∀ c w, watching z c parts w → w ∈ ws.
Proof.
  unfold trigger. pose proof (pop_watches_spec parts (connections z) [] (watches z)) as (_ & _ & H).
  destruct (foldl _ _ _) as [all ws]. exists all. split; [done|]. intros c' w [Hc Hw]. by apply (H c' Hc).
Qed.

(** Between [z] and [z'], the watchers of [c] whose node is not as it was were called. *)
Record noticed (z z' : client) : Prop := {
  noticed_open : connections z' = connections z;
  noticed_calls : ∃ ext, fired z' = fired z ++ ext ∧
    ∀ k w, watching z c k w →
      storage z' !! k = storage z !! k ∧ watching z' c k w ∨ ∃ event, (w, event) ∈ ext ∧ event_type event = CHANGED;
}.

#[local] Instance noticed_preorder : PreOrder noticed.
Proof.
  split.
  - intros z. split; [done|]. exists []. rewrite app_nil_r. split; [done|]. by left.
  - intros z1 z2 z3 [C1 (e1 & F1 & N1)] [C2 (e2 & F2 & N2)]. split; [congruence|]. exists (e1 ++ e2). rewrite F2, F1, <- app_assoc.
    split; [done|]. intros k w Hw. destruct (N1 k w Hw) as [[Hv Hw2]|(ev & Hin & Hev)].
    + destruct (N2 k w Hw2) as [[Hv2 Hw3]|(ev & Hin & Hev)]; [left; split; [congruence|done]|right].
      exists ev. split; [apply elem_of_app; by right|done].
    + right. exists ev. split; [apply elem_of_app; by left|done].
Qed.

Lemma set_noticed c' path value z :
  noticed z (perform c' (SetValue path value) z).
Proof.
  unfold perform, set_node. rewrite connected_run. case_decide; [|done]. rewrite (bind_ok get _ z z z) by done.
  destruct (storage z !! parse_path path) as [v|] eqn:Ev; [|done]. rewrite (bind_ok (modify _) _ z _ tt) by done. cbn [modify fst].
  set (z1 := with_storage _ z). set (ev := mkEvent CHANGED _).
  destruct (trigger_spec (parse_path path) ev z1) as (T1 & T2 & T3 & _).
  destruct (trigger_fired (parse_path path) ev z1) as (ws & F & HF). split; [done|]. exists ((λ w, (w, ev)) <$> ws). split; [done|].
  intros k w [Hc Hw]. destruct (decide (k = parse_path path)) as [->|Hne].
  - right. exists ev. split; [|done]. apply list_elem_of_fmap. exists w. split; [done|]. apply (HF c). by split.
  - left. split; [rewrite T1; unfold z1; simpl; by rewrite lookup_insert_ne|]. split; [by rewrite T2|].
    rewrite T3, decide_False by naive_solver. done.
Qed.

Lemma others_noticed rs z : Forall sets rs → noticed z (others rs z).
Proof.
  intros Hrs. revert z. induction Hrs as [|[c' r] rs (path & value & Hr & _) _ IH]; intros z; [done|]. simpl in Hr. subst r.
  cbn [others foldl fst snd]. etransitivity; [apply set_noticed|apply IH].
Qed.

Lemma set_storage c' path value z :
  storage (perform c' (SetValue path value) z) =
    (if decide (c' ∈ connections z ∧ is_Some (storage z !! parse_path path)) then <[parse_path path := value]> (storage z) else storage z).
Proof.
  unfold perform, set_node. rewrite connected_run. destruct (decide (c' ∈ connections z)) as [Hc|Hc].
  - rewrite (bind_ok get _ z z z) by done. destruct (storage z !! parse_path path) as [v|] eqn:Ev.
    + rewrite (bind_ok (modify _) _ z _ tt) by done. cbn [modify fst]. rewrite (proj1 (trigger_spec _ _ _)).
      rewrite decide_True; [done|]. by split.
    + rewrite decide_False; [done|]. by intros [_ [? ?]].
  - rewrite decide_False; [done|]. by intros [? _].
Qed.

(** What other clients write does not depend on the watches. *)
Lemma others_storage rs z z' : Forall sets rs →
  storage z = storage z' → connections z = connections z' → storage (others rs z) = storage (others rs z').
Proof.
  intros Hrs. revert z z'. induction Hrs as [|[c' r] rs (path & value & Hr & _) _ IH]; intros z z' Hs Hc; [done|]. simpl in Hr. subst r.
  cbn [others foldl fst snd]. apply IH.
  - by rewrite !set_storage, Hs, Hc.
  - rewrite (noticed_open _ _ (set_noticed c' path value z)). by rewrite (noticed_open _ _ (set_noticed c' path value z')).
Qed.

(** Every pointer can be read, now and later; at the end all have reached [m]. *)
Record good (m : Z) (w : W) : Prop := {
  good_open : c ∈ connections w.1;
  good_ptr replica : replica ∈ replicas → ∃ p, stored_ptr w (replica_ptr_path replica) p;
  good_script : Forall (Forall sets) w.2;
  good_end replica : replica ∈ replicas → ∃ p,
    stored_ptr (others (concat w.2) w.1, []) (replica_ptr_path replica) p ∧ m <= p;
}.

Lemma set_ptr cr z replica p : sets cr → replica ∈ replicas → stored_ptr (z, []) (replica_ptr_path replica) p →
  ∃ p', stored_ptr (perform cr.1 cr.2 z, []) (replica_ptr_path replica) p'.
Proof.
  intros (path & value & Hr & Hint) Hin (v & Hv & Hp). rewrite Hr. unfold stored_ptr. cbn [fst]. rewrite set_storage. case_decide.
  - destruct (decide (parse_path path = parse_path (replica_ptr_path replica))) as [E|Hne].
    + destruct (Hint replica Hin E) as [p' Hp']. exists p', value. by rewrite E, lookup_insert_eq.
    + exists p, v. by rewrite lookup_insert_ne.
  - by exists p, v.
Qed.

Lemma others_ptr rs z replica p : Forall sets rs → replica ∈ replicas → stored_ptr (z, []) (replica_ptr_path replica) p →
  ∃ p', stored_ptr (others rs z, []) (replica_ptr_path replica) p'.
Proof.
  intros Hrs Hin. revert z p. induction Hrs as [|cr rs Hcr _ IH]; intros z p Hp; [by exists p|].
  destruct (set_ptr cr z replica p Hcr Hin Hp) as [p' Hp']. by apply (IH _ p').
Qed.

Lemma interleave_good m w : good m w → good m (interleave w).1 ∧ noticed w.1 (interleave w).1.1 ∧ (interleave w).1.2 = tail w.2.
Proof.
  destruct w as [z [|rs script]]; intros Hg; [split; [done|split; [reflexivity|done]]|]. destruct Hg as [H1 H2 H3 H4]. simpl in *. apply Forall_cons in H3 as [Hrs H3].
  pose proof (others_noticed rs z Hrs) as Hn. split; [|by split]. split; simpl.
  - by rewrite (noticed_open _ _ Hn).
  - intros replica Hin. destruct (H2 replica Hin) as [p Hp]. by eapply others_ptr.
  - done.
  - intros replica Hin. destruct (H4 replica Hin) as (p & Hp & Hle). exists p. split; [|done]. unfold others in *.
    by rewrite <- foldl_app.
Qed.

(** The calls of watchers between two states. *)
Definition new_calls (w w' : W) : list (nat * WatchedEvent) := drop (length (fired w.1)) (fired w'.1).

(** A replica is tracked if the last of its watches is set and its pointer is
    the stored one, or if the watch was called and the call was not served. *)
Definition tracked (i : nat) (replica : DatabaseReplica) (s : sync_state) (pending : list (nat * WatchedEvent)) (w : W) : Prop :=
  ∃ k, watch_index s !! k = Some i ∧
    ((watching w.1 c (parse_path (replica_ptr_path replica)) (base + k)%nat ∧
      ∃ p, replica_ptrs s !! i = Some (Some p) ∧ stored_ptr w (replica_ptr_path replica) p) ∨
     ∃ event, ((base + k)%nat, event) ∈ pending ∧ event_type event = CHANGED).

(** What the reads of this client keep. *)
Record goes_on (m : Z) (w w' : W) : Prop := {
  on_good : good m w → good m w';
  on_noticed : good m w → noticed w.1 w'.1;
  on_script : (length w'.2 <= length w.2)%nat;
  on_quiet : w.2 = [] → fired w'.1 = fired w.1;
}.

#[local] Instance goes_on_preorder m : PreOrder (goes_on m).
Proof.
  split; [by split|]. intros w1 w2 w3 [G1 N1 S1 Q1] [G2 N2 S2 Q2].
  split; [auto|intros Hg; etransitivity; [by apply N1|by apply N2, G1]|lia|].
  intros E. rewrite Q2; [by apply Q1|]. rewrite E in S1. destruct w2.2; [done|simpl in S1; lia].
Qed.

Lemma interleave_on m w : goes_on m w (interleave w).1.
Proof.
  split; [apply interleave_good|apply interleave_good| |].
  - destruct w as [z [|rs script]]; simpl; lia.
  - by destruct w as [z [|rs script]].
Qed.

Lemma noticed_new w w' : noticed w.1 w'.1 → fired w'.1 = fired w.1 ++ new_calls w w'.
Proof. intros [_ (ext & E & _)]. unfold new_calls. by rewrite E, drop_app_length. Qed.

Lemma new_calls_trans w1 w2 w3 : noticed w1.1 w2.1 → noticed w2.1 w3.1 → new_calls w1 w3 = new_calls w1 w2 ++ new_calls w2 w3.
Proof.
  intros H1%noticed_new H2%noticed_new. unfold new_calls at 1. by rewrite H2, H1, <- app_assoc, drop_app_length.
Qed.

Lemma tracked_later i replica s pending w w' :
  noticed w.1 w'.1 → tracked i replica s pending w → tracked i replica s (pending ++ new_calls w w') w'.
Proof.
  intros Hn (k & Hk & Ht). pose proof (noticed_new _ _ Hn) as Hnew. destruct Hn as [_ (ext & E & Hx)].
  assert (ext = new_calls w w') as -> by (rewrite E in Hnew; by apply app_inv_head in Hnew).
  exists k. split; [done|]. destruct Ht as [[Hw (p & Hp & v & Hv & Hint)]|(ev & Hin & Hev)].
  - destruct (Hx _ _ Hw) as [[Hv' Hw']|(ev & Hin & Hev)].
    + left. split; [done|]. exists p. split; [done|]. exists v. by rewrite Hv'.
    + right. exists ev. split; [apply elem_of_app; by right|done].
  - right. exists ev. split; [apply elem_of_app; by left|done].
Qed.

(** A read that sets a watch. *)
Lemma read_live m replica x w : good m w → replica ∈ replicas →
  ∃ w' value p, call (get_node c (replica_ptr_path replica) (Some x)) w = (w', Ok value) ∧ int_of_value value = Ok p ∧
    stored_ptr w' (replica_ptr_path replica) p ∧ watching w'.1 c (parse_path (replica_ptr_path replica)) x ∧ goes_on m w w'.
Proof.
  intros Hg Hin. pose proof (interleave_on m w) as Hon. destruct (on_good _ _ _ Hon Hg) as [Hopen Hptr Hscript Hend].
  destruct (Hptr replica Hin) as (p & value & Hv & Hp). destruct (call _ w) as [w' r] eqn:Ec. pose proof (call_get_run _ _ _ _ _ Ec) as Hr.
  destruct r as [value'|e]; simpl in Hr; [|by destruct Hr as [_ [?|?]]; [|congruence]].
  destruct Hr as (_ & Hv' & ->). assert (value' = value) as -> by congruence. set (z := (interleave w).1.1) in *.
  eexists _, value, p. split; [done|]. split; [done|]. simpl. split; [by exists value|]. split.
  { split; [done|]. simpl. rewrite lookup_insert_eq. apply elem_of_app. right. by left. }
  etransitivity; [exact Hon|]. split; simpl.
  - intros _. split; simpl; [done| |done|].
    + intros rep Hrep. destruct (Hptr rep Hrep) as (q & v & ? & ?). by exists q, v.
    + intros rep Hrep. destruct (Hend rep Hrep) as (q & (v & Hq & Hqi) & Hle). exists q. split; [|done]. exists v. split; [|done].
      simpl in *. rewrite <- Hq. f_equal. apply others_storage; [by apply Forall_concat|done..].
  - intros _. split; [done|]. exists []. rewrite app_nil_r. split; [done|]. intros k y [Hk Hy]. left. split; [done|]. split; [done|].
    simpl. destruct (decide ((c, parse_path (replica_ptr_path replica)) = (c, k))) as [E|E].
    + rewrite E, lookup_insert_eq. apply elem_of_app. left. by injection E as <-.
    + by rewrite lookup_insert_ne.
  - done.
  - done.
Qed.

Lemma update_live m i replica s w : good m w → replicas !! i = Some replica → length (replica_ptrs s) = length replicas →
  ∃ w' s', update_replica_ptr i (replica_ptr_path replica) s w = (w', Ok (s', Ok tt)) ∧ goes_on m w w' ∧
    length (replica_ptrs s') = length replicas ∧ (∀ pending, tracked i replica s' pending w') ∧
    ∀ j rep pending, j ≠ i → tracked j rep s pending w → tracked j rep s' (pending ++ new_calls w w') w'.
Proof.
  intros Hg Hi Hlen. pose proof (list_elem_of_lookup_2 _ _ _ Hi) as Hin.
  destruct (read_live m replica (base + length (watch_index s))%nat w Hg Hin) as (w' & value & p & Hc & Hp & Hst & Hw & Hon).
  unfold update_replica_ptr. rewrite Hc, Hp. eexists _, _. split; [done|]. split; [done|]. simpl. split; [by rewrite length_insert|]. split.
  - intros pending. exists (length (watch_index s)). simpl. split; [by rewrite lookup_app_r, Nat.sub_diag|]. left. split; [done|].
    exists p. split; [|done]. rewrite list_lookup_insert_eq; [done|]. rewrite Hlen. by eapply lookup_lt_Some.
  - intros j rep pending Hne Ht. destruct (tracked_later _ _ _ _ _ _ (on_noticed _ _ _ Hon Hg) Ht) as (k & Hk & Ht').
    exists k. simpl. split; [rewrite lookup_app_l; [done|by eapply lookup_lt_Some]|]. rewrite list_lookup_insert_ne by done. done.
Qed.

(** All replicas are tracked, and each has its pointer. *)
Record live (s : sync_state) (pending : list (nat * WatchedEvent)) (w : W) : Prop := {
  live_length : length (replica_ptrs s) = length replicas;
  live_tracked i replica : replicas !! i = Some replica → tracked i replica s pending w;
}.

Lemma update_live_all m i replica s pending w :
  good m w → replicas !! i = Some replica → length (replica_ptrs s) = length replicas →
  (∀ j rep, j ≠ i → replicas !! j = Some rep → tracked j rep s pending w) →
  ∃ w' s', update_replica_ptr i (replica_ptr_path replica) s w = (w', Ok (s', Ok tt)) ∧ goes_on m w w' ∧
    live s' (pending ++ new_calls w w') w'.
Proof.
  intros Hg Hi Hlen Hall. destruct (update_live m i replica s w Hg Hi Hlen) as (w' & s' & E & Hon & Hlen' & Hme & Hothers).
  exists w', s'. split; [done|]. split; [done|]. split; [done|]. intros j rep Hj. destruct (decide (j = i)) as [->|Hne].
  - assert (rep = replica) as -> by congruence. apply Hme.
  - apply Hothers; auto.
Qed.

Lemma watch_node_live m call s pending w :
  good m w → live s (call :: pending) w →
  ∃ w' s', watch_node call s w = (w', Ok s') ∧ goes_on m w w' ∧ live s' (pending ++ new_calls w w') w'.
Proof.
  intros Hg [Hlen Ht].
  (** If the call is not the one that replica [j] waits for, it can go. *)
  assert (∀ j rep, replicas !! j = Some rep →
    (event_type call.2 = CHANGED → (base ≤ call.1)%nat → watch_index s !! (call.1 - base)%nat ≠ Some j) → tracked j rep s pending w) as Hskip.
  { intros j rep Hj Hno. destruct (Ht j rep Hj) as (k & Hk & [Hw|(ev & Hin & Hev)]); exists k; (split; [done|]); [by left|right].
    apply elem_of_cons in Hin as [<-|Hin]; [|by exists ev]. exfalso. simpl in Hno. apply Hno; [done|lia|].
    replace (base + k - base)%nat with k by lia. done. }
  assert ((∀ j rep, replicas !! j = Some rep → tracked j rep s pending w) →
    ∃ w' s', (mret s : M W sync_state) w = (w', Ok s') ∧ goes_on m w w' ∧ live s' (pending ++ new_calls w w') w') as Hsame.
  { intros H. exists w, s. split; [done|]. split; [reflexivity|]. split; [done|]. intros j rep Hj. unfold new_calls. rewrite drop_all, app_nil_r. by apply H. }
  unfold watch_node. case_decide as Hd; [|apply Hsame; intros j rep Hj; apply Hskip; [done|]; intros He Hb; exfalso; by apply Hd].
  destruct (watch_index s !! (call.1 - base)%nat) as [i|] eqn:Ei; [|apply Hsame; intros j rep Hj; by apply Hskip].
  destruct (replicas !! i) as [replica|] eqn:Hr.
  - destruct (update_live_all m i replica s pending w Hg Hr Hlen) as (w' & s' & E & Hon & Hl).
    { intros j rep Hne Hj. apply Hskip; [done|]. intros _ _ [= ?]. congruence. }
    rewrite (bind_ok _ _ _ _ _ E). by exists w', s'.
  - apply Hsame. intros j rep Hj. apply Hskip; [done|]. intros _ _ [= ->]. congruence.
Qed.

Lemma serve_live m calls s pending w :
  good m w → live s (calls ++ pending) w →
  ∃ w' s', serve m calls s w = (w', Ok s') ∧ goes_on m w w' ∧
    (replicas_are_synced m s' = true ∨ live s' (pending ++ new_calls w w') w').
Proof.
  revert s pending w. induction calls as [|call calls IH]; intros s pending w Hg Hl; cbn [serve].
  - exists w, s. split; [done|]. split; [reflexivity|]. right. unfold new_calls. by rewrite drop_all, app_nil_r.
  - destruct (replicas_are_synced m s) eqn:Es; [exists w, s; split; [done|]; split; [reflexivity|by left]|].
    destruct (watch_node_live m call s (calls ++ pending) w Hg Hl) as (w1 & s1 & E1 & Hon1 & Hl1).
    rewrite <- app_assoc in Hl1. pose proof (on_good _ _ _ Hon1 Hg) as Hg1.
    destruct (IH s1 (pending ++ new_calls w w1) w1 Hg1 Hl1) as (w2 & s2 & E2 & Hon2 & Hor).
    exists w2, s2. rewrite (bind_ok _ _ _ _ _ E1). split; [done|]. split; [by etransitivity|].
    rewrite (new_calls_trans w w1 w2 (on_noticed _ _ _ Hon1 Hg) (on_noticed _ _ _ Hon2 Hg1)), app_assoc. done.
Qed.

Lemma first_updates_live m l s pending w :
  good m w → (∀ i replica, (i, replica) ∈ l → replicas !! i = Some replica) → length (replica_ptrs s) = length replicas →
  (∀ j rep, replicas !! j = Some rep → (j, rep) ∉ l → tracked j rep s pending w) →
  ∃ w' s', first_updates l s w = (w', Ok s') ∧ goes_on m w w' ∧ live s' (pending ++ new_calls w w') w'.
Proof.
  revert s pending w. induction l as [|[i replica] l IH]; intros s pending w Hg Hl Hlen Ht; cbn [first_updates].
  - exists w, s. split; [done|]. split; [reflexivity|]. split; [done|]. intros j rep Hj. unfold new_calls. rewrite drop_all, app_nil_r.
    apply Ht; [done|apply not_elem_of_nil].
  - assert (replicas !! i = Some replica) as Hi by (apply Hl; by left).
    destruct (update_live m i replica s w Hg Hi Hlen) as (w1 & s1 & E1 & Hon1 & Hlen1 & Hme & Hothers).
    pose proof (on_good _ _ _ Hon1 Hg) as Hg1.
    destruct (IH s1 (pending ++ new_calls w w1) w1 Hg1) as (w2 & s2 & E2 & Hon2 & Hl2).
    + intros j rep Hj. apply Hl. by right.
    + done.
    + intros j rep Hj Hn. destruct (decide (j = i)) as [->|Hne]; [assert (rep = replica) as -> by congruence; apply Hme|].
      apply Hothers, Ht; [done..|]. intros [[= ? _]|?]%elem_of_cons; done.
    + exists w2, s2. rewrite (bind_ok _ _ _ _ _ E1). cbn [snd fst]. rewrite (bind_ok (lift_res _) _ w1 w1 tt) by done.
      split; [done|]. split; [by etransitivity|].
      rewrite (new_calls_trans w w1 w2 (on_noticed _ _ _ Hon1 Hg) (on_noticed _ _ _ Hon2 Hg1)), app_assoc. done.
Qed.

(** Without calls to serve and once the others are done, all have caught up. *)
Lemma live_synced m s w : good m w → w.2 = [] → live s [] w → replicas_are_synced m s = true.
Proof.
  intros Hg Hnil [Hlen Ht]. unfold replicas_are_synced. apply forallb_forall. intros o Ho%list_elem_of_In.
  apply list_elem_of_lookup in Ho as [i Hi]. destruct (lookup_lt_is_Some_2 replicas i) as [replica Hr].
  { rewrite <- Hlen. by eapply lookup_lt_Some. }
  destruct (Ht i replica Hr) as (k & _ & [[_ (p & Hp & v & Hv & Hint)]|(ev & ?%not_elem_of_nil & _)]); [|done].
  assert (o = Some p) as -> by congruence. destruct (good_end _ _ Hg replica (list_elem_of_lookup_2 _ _ _ Hr)) as (q & (v' & Hv' & Hq) & Hle).
  rewrite Hnil in Hv'. simpl in Hv'. assert (q = p) as -> by congruence. by apply Z.leb_le.
Qed.

Lemma wait_for_synced rounds m seen s w : replicas_are_synced m s = true → wait_for rounds m seen s w = (w, Ok tt).
Proof. intros H. destruct rounds; simpl; by rewrite H. Qed.

Lemma wait_for_live rounds m seen s w :
  (length w.2 < rounds)%nat → good m w → (seen <= length (fired w.1))%nat → live s (drop seen (fired w.1)) w →
  ∃ w', wait_for rounds m seen s w = (w', Ok tt).
Proof.
  revert seen s w. induction rounds as [|rounds IH]; intros seen s w Hr Hg Hseen Hl; [lia|]. cbn [wait_for].
  destruct (replicas_are_synced m s) eqn:Es; [by exists w|].
  rewrite (bind_ok _ _ _ _ _ (interleave_run w)), (bind_ok get _ _ _ _ eq_refl).
  pose proof (interleave_on m w) as Hon. pose proof (on_good _ _ _ Hon Hg) as Hg1. pose proof (on_noticed _ _ _ Hon Hg) as Hn.
  assert (live s (drop seen (fired (interleave w).1.1) ++ []) (interleave w).1) as Hl1.
  { rewrite app_nil_r, (noticed_new _ _ Hn), drop_app_le by done. destruct Hl as [Hlen Ht]. split; [done|].
    intros i replica Hi. apply tracked_later; [done|]. by apply Ht. }
  destruct (serve_live m _ s [] _ Hg1 Hl1) as (w2 & s2 & E2 & Hon2 & Hor). rewrite (bind_ok _ _ _ _ _ E2).
  destruct Hor as [Hs|Hl2]; [rewrite (wait_for_synced _ _ _ _ _ Hs); by eexists|]. simpl in Hl2.
  destruct w.2 as [|rs script] eqn:Ew.
  - assert ((interleave w).1.2 = []) as Hnil by (destruct w; simpl in *; by subst). rewrite wait_for_synced; [by eexists|].
    apply (live_synced m s2 w2); [by apply (on_good _ _ _ Hon2)| |].
    + pose proof (on_script _ _ _ Hon2) as Hs. rewrite Hnil in Hs. destruct w2.2; [done|simpl in Hs; lia].
    + unfold new_calls in Hl2. by rewrite (on_quiet _ _ _ Hon2 Hnil), drop_all in Hl2.
  - assert ((interleave w).1.2 = script) as Hscript by (destruct w; simpl in *; by subst).
    apply IH; [|by apply (on_good _ _ _ Hon2)| |done].
    + pose proof (on_script _ _ _ Hon2) as Hs. rewrite Hscript in Hs. simpl in Hr. lia.
    + rewrite (noticed_new _ _ (on_noticed _ _ _ Hon2 Hg1)), length_app. lia.
Qed.

(** C16: No change of a log pointer is missed: if the other clients, while they
    work, only set values, and leave every replica at least at the pointer [m]
    that the database has at the beginning, then waiting ends without a
    timeout, as soon as their last requests are served. *)
Theorem sync_returns (rounds : nat) (m : Z) (w : W) :
  (length w.2 < rounds)%nat → good m w → stored_ptr (interleave w).1 database_max_ptr_path m →
  ∃ w', sync_replicated_database rounds w = (w', Ok tt).
Proof.
  intros Hr Hg (value & Hv & Hm). unfold sync_replicated_database. pose proof (interleave_on m w) as Hon.
  assert (call (get_node c database_max_ptr_path None) w = ((interleave w).1, Ok value)) as Hc.
  { destruct (call _ w) as [w1 r] eqn:Ec. pose proof (call_get_run _ _ _ _ _ Ec) as H. destruct r as [v|e]; simpl in H.
    - destruct H as (_ & Hv' & ->). assert (v = value) as -> by congruence. by destruct (interleave w).1.
    - destruct H as [_ [H|H]]; [|congruence]. exfalso. apply H. by apply (good_open m), (on_good _ _ _ Hon). }
  rewrite (bind_ok _ _ _ _ _ Hc), (bind_ok (lift_res _) _ (interleave w).1 (interleave w).1 m) by (unfold lift_res; by rewrite Hm).
  set (w1 := (interleave w).1) in *. rewrite (bind_ok get _ w1 w1 w1 eq_refl). pose proof (on_good _ _ _ Hon Hg) as Hg1.
  destruct (first_updates_live m (enumerate replicas) (mkSync (replicate (length replicas) None) []) [] w1 Hg1) as (w2 & s2 & E2 & Hon2 & Hl2).
  - intros i replica. by rewrite elem_of_enumerate.
  - apply length_replicate.
  - intros j rep Hj Hn. exfalso. by apply Hn, elem_of_enumerate.
  - rewrite (bind_ok _ _ _ _ _ E2). simpl in Hl2. apply wait_for_live; [|by apply (on_good _ _ _ Hon2)| |done].
    + pose proof (on_script _ _ _ Hon). pose proof (on_script _ _ _ Hon2). lia.
    + rewrite (noticed_new _ _ (on_noticed _ _ _ Hon2 Hg1)), length_app. lia.
Qed.
End sync.

(** ** An example: the pointer of a replica goes from 3 over 4 to 5. *)
Definition example_replica : DatabaseReplica := mkDatabaseReplica "s" "r".
Definition example_requests : list (nat * request) :=
  [(1, Enter); (2, Enter); (2, Create "/db/max_log_ptr" "5"); (2, Create "/db/replicas/s|r/log_ptr" "3")]%nat.
Definition example_script : list (list (nat * request)) :=
  [[]; []; [(2, SetValue "/db/replicas/s|r/log_ptr" "4")]; []; [(2, SetValue "/db/replicas/s|r/log_ptr" "5")]]%nat.
Definition example_world : W := (others example_requests initial, example_script).

Lemma sync_waits_for_replicas_witness :
  let w' := (sync_replicated_database 1 10 "/db" [example_replica] 6 example_world).1 in
  ∃ w0 m, reach example_world w0 ∧ stored_ptr w0 (database_max_ptr_path "/db") m ∧
    ∃ w1 p, reach w0 w1 ∧ reach w1 w' ∧ stored_ptr w1 (replica_ptr_path "/db" example_replica) p ∧ m <= p.
Proof.
  intros w'. destruct (sync_waits_for_replicas 1 10 "/db" [example_replica] 6 example_world w') as (w0 & m & Hr & Hm & Hall & _).
  - apply injective_projections; [done|]. vm_compute. reflexivity.
  - exists w0, m. split; [done|]. split; [done|]. apply Hall. by left.
Defined.

Lemma sync_returns_witness :
  ∃ w', sync_replicated_database 1 10 "/db" [example_replica] 6 example_world = (w', Ok tt).
Proof.
  apply (sync_returns 1 10 "/db" [example_replica] 6 5).
  - vm_compute. lia.
  - split.
    + apply (bool_decide_unpack _). vm_compute. exact I.
    + intros replica ->%list_elem_of_singleton. exists 3, "3". split; vm_compute; reflexivity.
    + assert (∀ v p, int_of_value v = Ok p → sets "/db" [example_replica] (2%nat, SetValue "/db/replicas/s|r/log_ptr" v)) as Hset.
      { intros v p Hp. eexists _, _. split; [done|]. intros replica _ _. by exists p. }
      repeat constructor; eapply Hset; vm_compute; reflexivity.
    + intros replica ->%list_elem_of_singleton. exists 5. split; [|lia]. exists "5". split; vm_compute; reflexivity.
  - exists "5". split; vm_compute; reflexivity.
Defined.
End ChSync.
