(* ===== verification/ChSteps.v ===== *)
(** * Queries of ClickHouse backups and restores
      ([coordinator/plugins/clickhouse/steps.py], [macros.py])

    What the steps ask of the ClickHouse servers: to which of them, in which
    order and with how many queries at a time.  The servers are a parameter,
    [execute]; which of the coroutines that can run comes next is up to
    [pick].  The steps on object storage files are in the component of the
    disks. *)

From stdpp Require Import base gmap strings list pretty sorting.
From Stdlib Require Import ZArith NArith Lia Ascii Strings.Byte.
From Stdlib Require Strings.String.
From S2P Require Import Prelude Progress Ipc Storage Op Base64 PyText Regex ChText Topological.
From S2P Require Import ChParts ChManifest Steps Gather ZooKeeper Flink ChClient ChReplication ChSync ChDisks.

Local Open Scope Z_scope.

Module ChSteps.
Import ChParts ChManifest ChClient Gather.
Notation bytes_of_string := String.list_byte_of_string.
Notation string_of_bytes := String.string_of_list_byte.

(** ** Rows *)

(** [rows[0][0]], asserted to be a string *)
Definition first_cell (rows : list Row) : res string :=
  match rows with
  | (x :: _) :: _ => match x with CStr s => Ok s | _ => Raise AssertionError end
  | _ => Raise IndexError
  end.
Definition cell_str (x : cell) : res string := match x with CStr s => Ok s | _ => Raise AssertionError end.
(** [uuid.UUID(cast(str, x))] *)
Definition cell_uuid (x : cell) : res UUID :=
  match x with CStr s => PyUuid.uuid_of s | CNull => Raise TypeError | _ => Raise AttributeError end.
Definition cell_b64 (x : cell) : res (list byte) := match x with CStr s => Base64.b64decode s | _ => Raise TypeError end.
(** The iteration over a cell: a string is iterated by character. *)
Definition cell_items (x : cell) : res (list cell) :=
  match x with
  | CList l => Ok l
  | CStr s => Ok ((λ c, CStr (String c "")) <$> String.list_ascii_of_string s)
  | _ => Raise TypeError
  end.
(** [(b64decode(d), b64decode(t)) for d, t in ...] *)
Definition cell_dependency (x : cell) : res (list byte * list byte) :=
  l ← cell_items x;
  match l with
  | [d; t] => d ← cell_b64 d; t ← cell_b64 t; Ok (d, t)
  | _ => Raise ValueError
  end.

(** ** Versions *)
Definition ClickHouseVersion : Type := Z * Z.
Definition CLICKHOUSE_VERSION_PARTITION_CMDS_NOT_REPLICATED : ClickHouseVersion := (23, 8).
(** Tuples are compared lexicographically. *)
Definition version_ltb (a b : ClickHouseVersion) : bool := (a.1 <? b.1) || (a.1 =? b.1) && (a.2 <? b.2).

Definition version_of (rows : list Row) : res ClickHouseVersion :=
  s ← first_cell rows;
  match take 2 (split_on "."%char s) with
  | [major; minor] =>
      major ← PyInt.int_of 10 (bytes_of_string major);
      minor ← PyInt.int_of 10 (bytes_of_string minor);
      Ok (major, minor)
  | _ => Raise ValueError
  end.

(** ** Macros of a server ([fetch_server_macros]) *)
Definition add_macro (macros : gmap (list N) (list byte)) (row : Row) : res (gmap (list N) (list byte)) :=
  match row with
  | [CStr b64_macro_name; CStr b64_macro_value] =>
      name ← Base64.b64decode b64_macro_name;
      value ← Base64.b64decode b64_macro_value;
      Ok (<[Macros.key name := value]> macros)
  | [_; _] => Raise AssertionError
  | _ => Raise ValueError
  end.

(** ** Queries *)
Definition MACROS_LIST_QUERY : string := "SELECT base64Encode(macro),base64Encode(substitution) FROM system.macros".
Definition newline : string := String (ascii_of_nat 10) "".
Definition lines (l : list string) : string := String.concat "" ((λ s, s +:+ newline) <$> l).
Definition DATABASES_LIST_QUERY : string := lines
  ["SELECT";
   "    base64Encode(system.databases.name),";
   "    system.databases.uuid";
   "FROM system.databases";
   "WHERE system.databases.engine == 'Replicated'"].
Definition TABLES_LIST_QUERY : string := lines
  ["SELECT";
   "    base64Encode(system.tables.database),";
   "    base64Encode(system.tables.name),";
   "    system.tables.engine,";
   "    system.tables.uuid,";
   "    base64Encode(system.tables.create_table_query),";
   "    arrayZip(";
   "        arrayMap(x -> base64Encode(x), system.tables.dependencies_database),";
   "        arrayMap(x -> base64Encode(x), system.tables.dependencies_table))";
   "FROM system.tables";
   "WHERE";
   "    system.tables.database in (SELECT name FROM system.databases WHERE engine == 'Replicated')";
   "    AND NOT system.tables.is_temporary";
   "ORDER BY (system.tables.database,system.tables.name)";
   "SETTINGS show_table_uuid_in_table_create_query_if_not_nil=true"].

Definition sql_string (b : list byte) : string := SqlString.escape_sql_string b.
Definition sql_identifier (b : list byte) : string := SqlString.escape_sql_identifier b.

(** [get_setting_repr] *)
Definition get_setting_repr (setting_name : string) (value : setting_value) : string :=
  setting_name +:+ "=" +:+ match value with SFloat x => x | SInt n => pretty n | SStr s => sql_string (bytes_of_string s) end.

Definition unfreeze_statement (freeze_name : string) : string :=
  "SYSTEM UNFREEZE WITH NAME " +:+ sql_string (bytes_of_string freeze_name).
Definition freeze_query (operation freeze_name : string) (freeze_unfreeze_timeout : Float) (t : Table) : string :=
  "ALTER TABLE " +:+ escaped_sql_identifier t +:+ " " +:+ operation +:+ " WITH NAME " +:+ sql_string (bytes_of_string freeze_name) +:+
  " SETTINGS distributed_ddl_task_timeout=" +:+ freeze_unfreeze_timeout.
Definition drop_query (d : ReplicatedDatabase) : string := "DROP DATABASE IF EXISTS " +:+ sql_identifier (db_name d) +:+ " SYNC".
Definition settings_clause (s : ReplicatedDatabaseSettings) : string :=
  let settings := omap (λ nv, get_setting_repr nv.1 <$> nv.2) (settings_dict s) in
  if decide (settings = []) then "" else " SETTINGS " +:+ String.concat ", " settings.
Definition database_path (replicated_databases_zookeeper_path : string) (name : list byte) : string :=
  replicated_databases_zookeeper_path +:+ "/" +:+ Escaping.escape_for_file_name name.
Definition create_database_query (zookeeper_path : string) (settings : ReplicatedDatabaseSettings) (d : ReplicatedDatabase) : string :=
  "CREATE DATABASE " +:+ sql_identifier (db_name d) +:+
  match db_uuid d with Some u => " UUID " +:+ sql_string (bytes_of_string u) | None => "" end +:+
  " ENGINE = Replicated(" +:+
  sql_string (bytes_of_string (database_path zookeeper_path (db_name d))) +:+ ", " +:+
  sql_string (db_shard d) +:+ ", " +:+
  sql_string (db_replica d) +:+ ")" +:+
  settings_clause settings.

(** The prefix [^CREATE MATERIALIZED VIEW] is replaced. *)
Definition get_restore_table_query (t : Table) : string :=
  let q := string_of_bytes (ChParts.create_query t) in
  if startswith "CREATE MATERIALIZED VIEW" q then "ATTACH" +:+ String.substring 6 (String.length q - 6) q else q.

(** ** Tables and databases, as the rows describe them *)
Definition row_table (known : list (list byte)) (row : Row) : res Table :=
  match row with
  | [base64_db_name; base64_table_name; table_engine; table_uuid; base64_table_query; base64_dependencies] =>
      base64_db_name ← cell_str base64_db_name;
      base64_table_name ← cell_str base64_table_name;
      table_engine ← cell_str table_engine;
      base64_table_query ← cell_str base64_table_query;
      dependencies ← match base64_dependencies with CList l => Ok l | _ => Raise AssertionError end;
      db_name ← Base64.b64decode base64_db_name;
      if decide (db_name ∈ known) then
        name ← Base64.b64decode base64_table_name;
        uuid ← cell_uuid table_uuid;
        query ← Base64.b64decode base64_table_query;
        dependencies ← map_res cell_dependency dependencies;
        Ok (mkTable db_name name table_engine uuid query dependencies)
      else Raise TransientException
  | _ => Raise ValueError
  end.

(** Bytes are compared lexicographically. *)
Definition bytes_leb (a b : list byte) : bool := str_leb (string_of_bytes a) (string_of_bytes b).
Definition sort_databases (databases : list (list byte * ReplicatedDatabase)) : list ReplicatedDatabase :=
  py_sorted (λ a b, bytes_leb (db_name a) (db_name b)) databases.*2.

Section steps.
Context {E : Type} (execute : Request → M E (list Row)).

(** *** Single queries *)
Definition get_version (client : nat) : M E ClickHouseVersion :=
  rows ← execute (mkRequest client "SELECT version()" None None);
  lift_res (version_of rows).

Definition fetch_server_macros (client : nat) : M E (gmap (list N) (list byte)) :=
  rows ← execute (mkRequest client MACROS_LIST_QUERY None None);
  lift_res (fold_res add_macro ∅ rows).

Definition get_shard_and_replica (client : nat) (database_name : list byte) : M E (list byte * list byte) :=
  db_rows ← execute (mkRequest client ("SHOW CREATE DATABASE " +:+ sql_identifier database_name) None None);
  create_database_query ← lift_res (first_cell db_rows);
  lift_res (ChReplication.shard_and_replica_of (bytes_of_string create_database_query)).

(** *** [RetrieveDatabasesAndTablesStep] *)
Fixpoint retrieve_databases (client : nat) (rows : list Row) (databases : list (list byte * ReplicatedDatabase)) :
    M E (list (list byte * ReplicatedDatabase)) :=
  match rows with
  | [] => mret databases
  | [base64_db_name; db_uuid_str] :: rest =>
      base64_db_name ← lift_res (cell_str base64_db_name);
      db_uuid_str ← lift_res (cell_str db_uuid_str);
      db_uuid ← lift_res (PyUuid.uuid_of db_uuid_str);
      db_name ← lift_res (Base64.b64decode base64_db_name);
      sr ← get_shard_and_replica client db_name;
      retrieve_databases client rest (dict_set db_name (mkReplicatedDatabase db_name (Some db_uuid) sr.1 sr.2) databases)
  | _ => raise ValueError
  end.

Definition retrieve_databases_and_tables (client : nat) : M E (list ReplicatedDatabase * list Table) :=
  database_rows ← execute (mkRequest client DATABASES_LIST_QUERY None None);
  databases ← retrieve_databases client database_rows [];
  table_rows ← execute (mkRequest client TABLES_LIST_QUERY None None);
  tables ← lift_res (map_res (row_table databases.*1) table_rows);
  mret (sort_databases databases, tables).

(** *** Many queries

    [pick] is the scheduler, [token_hex] what [secrets.token_hex()] returns
    in each coroutine, by client and position. *)
Context (pick : E → nat → nat) (token_hex : E → nat → nat → string).

Definition ask (r : Request) : M E unit := _ ← execute r; mret tt.

(** [execute_with_timeout]: a coroutine of two queries in a session *)
Definition execute_with_timeout (session_id : string) (client : nat) (timeout : Float) (query : string) : list Request :=
  [mkRequest client ("SET receive_timeout=" +:+ timeout) None (Some session_id);
   mkRequest client query (Some timeout) (Some session_id)].

(** The coroutines of a client for a list of queries. *)
Definition coroutines (tokens : nat → nat → string) (timeout : Float) (queries : list string) (client : nat) : list (list Request) :=
  imap (λ i query, execute_with_timeout (tokens client i) client timeout query) queries.

(** [run_on_every_node] *)
Definition run_on_every_node (clients : list nat) (fn : nat → list (list Request)) (per_node_concurrency_limit : nat) : M E unit :=
  gather_groups ask pick per_node_concurrency_limit (fn <$> clients).

(** [run_partition_cmd_on_every_node] *)
Definition run_partition_cmd_on_every_node (versions : list ClickHouseVersion) (clients : list nat)
    (fn : nat → list (list Request)) (per_node_concurrency_limit : nat) : M E unit :=
  py_assert (bool_decide (length versions = length clients)) ;;
  match list_find (λ vc, version_ltb vc.1 CLICKHOUSE_VERSION_PARTITION_CMDS_NOT_REPLICATED = true) (zip versions clients) with
  | None => run_on_every_node clients fn per_node_concurrency_limit
  | Some (_, (_, old_client)) => gather_limited ask pick per_node_concurrency_limit (fn old_client)
  end.

(** *** [RemoveFrozenTablesStep] *)
Definition remove_frozen_tables (clients : list nat) (freeze_name : string) (unfreeze_timeout : Float) : M E unit :=
  e ← get;
  gather ask pick
    ((λ client, execute_with_timeout (token_hex e client 0) client unfreeze_timeout (unfreeze_statement freeze_name)) <$> clients).

(** *** [FreezeTablesStep] and [UnfreezeTablesStep]: [operation] is [FREEZE] or [UNFREEZE] *)
Definition to_freeze (tables : list Table) : list Table := filter (λ t, requires_freezing t = true) tables.
Definition freeze_unfreeze_tables (operation : string) (clients : list nat) (freeze_name : string) (freeze_unfreeze_timeout : Float)
    (versions : list ClickHouseVersion) (tables : list Table) : M E unit :=
  e ← get;
  run_partition_cmd_on_every_node versions clients
    (coroutines (token_hex e) freeze_unfreeze_timeout (freeze_query operation freeze_name freeze_unfreeze_timeout <$> to_freeze tables)) 1.

(** *** [RestoreReplicatedDatabasesStep] *)
Record RestoreDatabases : Type := mkRestoreDatabases {
  zookeeper_path : string;
  database_settings : ReplicatedDatabaseSettings;
  drop_databases_timeout : Float;
  max_concurrent_drop_databases_per_node : nat;
  create_databases_timeout : Float;
  max_concurrent_create_database_per_node : nat;
}.

Definition SETTING_CONSTRAINT_VIOLATION : Z := 452.
Definition table_settings : list string :=
  ["SET allow_experimental_annoy_index=true";
   "SET allow_experimental_geo_types=true";
   "SET allow_experimental_object_type=true";
   "SET allow_suspicious_codecs=true";
   "SET allow_suspicious_low_cardinality_types=true";
   "SET flatten_nested=0"].

Definition drop_databases (conf : RestoreDatabases) (clients : list nat) (databases : list ReplicatedDatabase) : M E unit :=
  e ← get;
  run_on_every_node clients (coroutines (token_hex e) (drop_databases_timeout conf) (drop_query <$> databases))
    (max_concurrent_drop_databases_per_node conf).
Definition create_databases (conf : RestoreDatabases) (clients : list nat) (databases : list ReplicatedDatabase) : M E unit :=
  e ← get;
  run_on_every_node clients
    (coroutines (token_hex e) (create_databases_timeout conf)
       (create_database_query (zookeeper_path conf) (database_settings conf) <$> databases))
    (max_concurrent_create_database_per_node conf).

(** [self.clients[0].execute(query, session_id=session_id)] *)
Definition on_first (clients : list nat) (session_id : string) (query : string) : M E unit :=
  match clients with
  | [] => raise IndexError
  | client :: _ => ask (mkRequest client query None (Some session_id))
  end.
Definition set_table_setting (clients : list nat) (session_id : string) (query : string) : M E unit :=
  try_except (on_first clients session_id query)
    (λ e, bool_decide (e = ClickHouseClientQueryError (Some SETTING_CONSTRAINT_VIOLATION))) (λ _, mret tt).
Definition create_tables (clients : list nat) (tables : list Table) : M E unit :=
  e ← get;
  let session_id := token_hex e 0 0 in
  for_each table_settings (set_table_setting clients session_id) ;;
  sorted_tables ← lift_res (tables_sorted_by_dependencies tables);
  for_each sorted_tables (λ t, on_first clients session_id (get_restore_table_query t)).

Definition restore_replicated_databases (conf : RestoreDatabases) (clients : list nat) (m : ClickHouseManifest) : M E unit :=
  drop_databases conf clients (replicated_databases m) ;;
  create_databases conf clients (replicated_databases m) ;;
  create_tables clients (tables m).

(** *** [RestoreReplicaStep]; the ZooKeeper requests are parameters *)
Record RestoreReplica : Type := mkRestoreReplica {
  restart_timeout : Float;
  max_concurrent_restart_per_node : nat;
  restore_timeout : Float;
  max_concurrent_restore_per_node : nat;
}.
Definition replicated_tables (m : ClickHouseManifest) : list Table := filter (λ t, is_replicated t = true) (tables m).
Definition replica_queries (command : string) (m : ClickHouseManifest) : list string :=
  (λ t, "SYSTEM " +:+ command +:+ " REPLICA " +:+ escaped_sql_identifier t) <$> replicated_tables m.

(** [async with zookeeper_client.connect()]: the nodes of the tables are deleted. *)
Context (delete_nodes : list string -> M E unit).
Definition restore_replica (conf : RestoreReplica) (clients : list nat) (m : ClickHouseManifest) : M E unit :=
  if decide (version m = V1) then mret tt
  else
    delete_nodes ((λ t, "/clickhouse/tables/" +:+ uuid t) <$> replicated_tables m) ;;
    e ← get;
    run_on_every_node clients (coroutines (token_hex e) (restart_timeout conf) (replica_queries "RESTART" m))
      (max_concurrent_restart_per_node conf) ;;
    e ← get;
    run_on_every_node clients (coroutines (token_hex e) (restore_timeout conf) (replica_queries "RESTORE" m))
      (max_concurrent_restore_per_node conf).

(** *** [AttachMergeTreePartsStep] *)
Definition attach_part_query (part : string * list byte) : string :=
  "ALTER TABLE " +:+ part.1 +:+ " ATTACH PART " +:+ sql_string part.2.
Definition tables_by_uuid (m : ClickHouseManifest) : gmap UUID Table := foldl (λ d t, <[uuid t := t]> d) ∅ (tables m).
Definition attach_group (disks : list Disk) (m : ClickHouseManifest) (cs : nat * SnapshotResult) : res (nat * list string) :=
  parts ← list_parts_to_attach cs.2 disks (tables_by_uuid m);
  Ok (cs.1, attach_part_query <$> (parts : list (string * list byte))).
Definition attach_merge_tree_parts (attach_timeout : Float) (max_concurrent_attach_per_node : nat) (clients : list nat)
    (disks : list Disk) (snapshot_results : list SnapshotResult) (m : ClickHouseManifest) : M E unit :=
  if decide (version m ≠ V1) then mret tt
  else
    groups ← lift_res (map_res (attach_group disks m) (zip clients snapshot_results));
    e ← get;
    gather_groups ask pick max_concurrent_attach_per_node ((λ cq, coroutines (token_hex e) attach_timeout cq.2 cq.1) <$> groups).

(** *** [SyncTableReplicasStep] *)
Definition sync_table_replicas (sync_timeout : Float) (max_concurrent_sync_per_node : nat) (clients : list nat) (m : ClickHouseManifest) :
    M E unit :=
  if decide (version m ≠ V1) then mret tt
  else
    e ← get;
    run_on_every_node clients (coroutines (token_hex e) sync_timeout (replica_queries "SYNC" m)) max_concurrent_sync_per_node.
End steps.

(** ** What is asked of the servers

    [log] is a ghost: what was asked so far, and the exception if there was one. *)
Notation Log := (list (Request * option exn)).
Definition outcome {A} (r : res A) : option exn := match r with Ok _ => None | Raise e => Some e end.

(** A phase says which logs it can leave and how it ends; another phase begins
    only when it is over and did not fail. *)
Notation phase := (res unit → Log → Prop).
Definition then_ (P1 P2 : phase) : phase := λ r l,
  (∃ e, r = Raise e ∧ P1 (Raise e) l) ∨ ∃ l1 l2, l = l1 ++ l2 ∧ P1 (Ok tt) l1 ∧ P2 r l2.
Definition nothing : phase := λ r l, r = Ok tt ∧ l = [].

(** The requests of a list, until one fails. *)
Definition asked (tr : list Request) : phase := λ r l,
  match r with
  | Ok _ => l = (λ q, (q, None)) <$> tr
  | Raise e => ∃ done q rest, tr = done ++ q :: rest ∧ l = ((λ q, (q, None)) <$> done) ++ [(q, Some e)]
  end.

(** The requests of coroutines, each in its order, until one fails; the
    others may then make some more of theirs, which may fail too. *)
Definition gathered (jobs : list (list Request)) : phase := λ r l, gathering jobs r l.

(** The coroutines of a list of queries on each client. *)
Definition sessions (tokens : nat → nat → string) (timeout : Float) (queries : list string) (clients : list nat) : list (list Request) :=
  concat (coroutines tokens timeout queries <$> clients).
Definition asked_everywhere (timeout : Float) (queries : list string) (clients : list nat) : phase := λ r l,
  ∃ tokens, gathered (sessions tokens timeout queries clients) r l.

Lemma asked_cons q tr r l : asked tr r l → asked (q :: tr) r ((q, None) :: l).
Proof.
  destruct r as [[]|e]; simpl; [by intros ->|]. intros (done & q' & rest & -> & ->). by exists (q :: done), q', rest.
Qed.

Lemma elem_of_sessions tokens timeout queries clients j :
  j ∈ sessions tokens timeout queries clients ↔
    ∃ client i query, client ∈ clients ∧ queries !! i = Some query ∧ j = execute_with_timeout (tokens client i) client timeout query.
Proof.
  unfold sessions. rewrite elem_of_concat. split.
  - intros (js & Hj & (client & -> & Hc)%list_elem_of_fmap). apply list_elem_of_lookup in Hj as [i Hi].
    unfold coroutines in Hi. rewrite list_lookup_imap in Hi. apply fmap_Some in Hi as (query & Hq & ->). by exists client, i, query.
  - intros (client & i & query & Hc & Hq & ->). exists (coroutines tokens timeout queries client). split; [|by apply list_elem_of_fmap_2].
    apply list_elem_of_lookup. exists i. unfold coroutines. by rewrite list_lookup_imap, Hq.
Qed.

Lemma sessions_nonempty tokens timeout queries clients :
  filter (λ j, nonempty j = true) (sessions tokens timeout queries clients) = sessions tokens timeout queries clients.
Proof. apply filter_all. intros j (client & i & query & _ & _ & ->)%elem_of_sessions. done. Qed.

(** When it is over, each client was asked each query, in a session with the
    timeout, and answered. *)
Lemma everywhere_done timeout queries clients l client query :
  asked_everywhere timeout queries clients (Ok tt) l → client ∈ clients → query ∈ queries →
  ∃ session_id, [(mkRequest client ("SET receive_timeout=" +:+ timeout) None (Some session_id), None);
                 (mkRequest client query (Some timeout) (Some session_id), None)] `sublist_of` l.
Proof.
  intros (tokens & l1 & l2 & left & -> & Hi & (HN & -> & Hd) & _) Hc [i Hq]%list_elem_of_lookup. exists (tokens client i).
  assert (execute_with_timeout (tokens client i) client timeout query ∈ sessions tokens timeout queries clients) as Hj.
  { apply elem_of_sessions. by exists client, i, query. }
  pose proof (interleaving_sublist _ _ _ _ Hi Hd Hj) as Hsub. apply (fmap_sublist (λ q, (q, @None exn))) in Hsub.
  rewrite app_nil_r. rewrite <- list_fmap_compose in Hsub. replace (_ <$> l1) with l1 in Hsub; [done|].
  clear -HN. induction HN as [|[q x] l1 Hx _ IH]; [done|]. simpl in *. subst x. by rewrite <- IH at 1.
Qed.

(** Nothing else is asked. *)
Lemma everywhere_only timeout queries clients r l q x :
  asked_everywhere timeout queries clients r l → (q, x) ∈ l →
  client q ∈ clients ∧ (query q = "SET receive_timeout=" +:+ timeout ∨ query q ∈ queries).
Proof.
  intros (tokens & Hg) Hin. apply (gathering_elem _ _ _ q x) in Hg as (j & Hq & Hj)%elem_of_concat; [|done].
  apply elem_of_sessions in Hj as (c & i & qu & Hc & Hqu & ->). apply elem_of_cons in Hq as [->|Hq%list_elem_of_singleton].
  - split; [done|by left].
  - subst q. split; [done|right]. by eapply list_elem_of_lookup_2.
Qed.

Section log.
Context {E : Type} (execute : Request → M E (list Row)) (log : E → Log).
Context (execute_logged : ∀ r e e' x, execute r e = (e', x) → log e' = log e ++ [(r, outcome x)]).
Context (pick : E → nat → nat) (token_hex : E → nat → nat → string).

(** A program goes through a phase. *)
Definition does (m : M E unit) (P : phase) : Prop := ∀ e e' r, m e = (e', r) → ∃ l, log e' = log e ++ l ∧ P r l.

Lemma does_then m1 m2 (P1 P2 : phase) : does m1 P1 → does m2 P2 → does (m1 ;; m2) (then_ P1 P2).
Proof.
  intros H1 H2 e e' r. unfold mbind, M_bind. destruct (m1 e) as [e1 [[]|ex]] eqn:E1; destruct (H1 _ _ _ E1) as (l1 & Hl1 & HP1).
  - intros Hm2. destruct (H2 _ _ _ Hm2) as (l2 & Hl2 & HP2). exists (l1 ++ l2). rewrite Hl2, Hl1, app_assoc. split; [done|].
    right. by exists l1, l2.
  - intros [= <- <-]. exists l1. split; [done|]. left. by exists ex.
Qed.

Lemma does_get (f : E → M E unit) P : (∀ e, does (f e) P) → does (e ← get; f e) P.
Proof. intros H e e' r Hf. by apply (H e). Qed.

Lemma does_impl m (P Q : phase) : does m P → (∀ r l, P r l → Q r l) → does m Q.
Proof. intros H HPQ e e' r Hm. destruct (H _ _ _ Hm) as (l & Hl & HP). exists l. auto. Qed.

Lemma does_nothing : does (mret tt) nothing.
Proof. intros e e' r [= <- <-]. exists []. by rewrite app_nil_r. Qed.

Lemma ask_logged r e e' x : (ask execute) r e = (e', x) → log e' = log e ++ [(r, outcome x)].
Proof.
  unfold ChSteps.ask, mbind, M_bind. destruct (execute r e) as [e1 y] eqn:Ex.
  destruct y; intros [= <- <-]; by rewrite (execute_logged _ _ _ _ Ex).
Qed.

Lemma performed_logged l e e' : performed (ask execute) l e e' → log e' = log e ++ l.
Proof.
  revert e. induction l as [|[q o] l IH]; intros e; [intros ->; by rewrite app_nil_r|]. intros (e1 & x & Hq & -> & Hl).
  rewrite (IH _ Hl), (ask_logged _ _ _ _ Hq), <- app_assoc. done.
Qed.

Lemma does_asks tr : does (for_each tr (ask execute)) (asked tr).
Proof.
  induction tr as [|q tr IH]; intros e e' r; cbn [for_each].
  - intros [= <- <-]. exists []. by rewrite app_nil_r.
  - unfold mbind, M_bind. destruct (ask execute q e) as [e1 [[]|ex]] eqn:Eq; pose proof (ask_logged _ _ _ _ Eq) as Hlog.
    + intros Hrun. destruct (IH _ _ _ Hrun) as (l & Hl & Ha). exists ((q, None) :: l). rewrite Hl, Hlog, <- app_assoc. split; [done|].
      by apply asked_cons.
    + intros [= <- <-]. exists [(q, Some ex)]. split; [done|]. by exists [], q, tr.
Qed.

Lemma does_gather limit groups : (1 ≤ limit)%nat →
  does (gather_groups (ask execute) pick limit groups) (gathered (filter (λ j, nonempty j = true) (concat groups))).
Proof.
  intros Hlim e e' r (l & Hl & Hg)%gather_groups_spec; [|done]. exists l. split; [by apply performed_logged|done].
Qed.

Lemma does_everywhere tokens timeout queries clients limit : (1 ≤ limit)%nat →
  does (run_on_every_node execute pick clients (coroutines tokens timeout queries) limit) (asked_everywhere timeout queries clients).
Proof.
  intros Hlim. eapply does_impl; [by apply does_gather|]. intros r l Hg. exists tokens. by rewrite <- sessions_nonempty.
Qed.

(** *** Restoring databases *)

(** A setting that the server refuses to change does not matter. *)
Definition tolerated (x : option exn) : Prop := x = None ∨ x = Some (ClickHouseClientQueryError (Some SETTING_CONSTRAINT_VIOLATION)).
Definition settings_asked (reqs : list Request) : phase := λ r l,
  match r with
  | Ok _ => l.*1 = reqs ∧ Forall tolerated l.*2
  | Raise e => ∃ l1 q rest, l = l1 ++ [(q, Some e)] ∧ reqs = l1.*1 ++ q :: rest ∧ Forall tolerated l1.*2 ∧ ¬ tolerated (Some e)
  end.

Lemma does_settings client clients session_id queries :
  does (for_each queries (set_table_setting execute (client :: clients) session_id))
       (settings_asked ((λ q, mkRequest client q None (Some session_id)) <$> queries)).
Proof.
  induction queries as [|q queries IH]; intros e e' r; cbn [for_each].
  - intros [= <- <-]. exists []. by rewrite app_nil_r.
  - unfold mbind, M_bind, set_table_setting at 1, try_except. unfold on_first at 1.
    destruct (ask execute (mkRequest client q None (Some session_id)) e) as [e1 x] eqn:Eq; pose proof (ask_logged _ _ _ _ Eq) as Hlog.
    assert (tolerated (outcome x) → for_each queries (set_table_setting execute (client :: clients) session_id) e1 = (e', r) →
      ∃ l, log e' = log e ++ l ∧ settings_asked ((λ q, mkRequest client q None (Some session_id)) <$> q :: queries) r l) as Hgo.
    { intros Ht Hrun. destruct (IH _ _ _ Hrun) as (l & Hl & Ha). eexists (_ :: l). rewrite Hl, Hlog, <- app_assoc. split; [done|].
      destruct r as [[]|ex]; simpl in *.
      - destruct Ha as [Hreqs HF]. split; [by f_equal|]. by constructor.
      - destruct Ha as (l1 & q' & rest & -> & Hreqs & HF & Hex). eexists (_ :: l1), q', rest. split; [done|].
        split; [simpl; f_equal; exact Hreqs|]. split; [by constructor|done]. }
    destruct x as [[]|ex].
    + intros Hrun. apply Hgo; [by left|done].
    + case_bool_decide as He; [subst ex; intros Hrun; apply Hgo; [by right|done]|].
      intros [= <- <-]. eexists [(_, Some ex)]. split; [done|]. eexists [], _, _. split; [done|]. split; [done|]. split; [constructor|].
      by intros [?|[= ?]].
Qed.

(** The tables are created on the first server, one after the other. *)
Definition tables_created (tables : list Table) (client : nat) (session_id : string) : phase := λ r l,
  match tables_sorted_by_dependencies tables with
  | Raise e => r = Raise e ∧ l = []
  | Ok sorted => asked ((λ t, mkRequest client (get_restore_table_query t) None (Some session_id)) <$> sorted) r l
  end.
Definition tables_restored (clients : list nat) (tables : list Table) : phase := λ r l,
  match clients with
  | [] => r = Raise IndexError ∧ l = []
  | client :: _ => ∃ session_id,
      then_ (settings_asked ((λ q, mkRequest client q None (Some session_id)) <$> table_settings))
            (tables_created tables client session_id) r l
  end.

Lemma does_create_tables clients tables : does (create_tables execute token_hex clients tables) (tables_restored clients tables).
Proof.
  unfold create_tables. apply does_get. intros e0. destruct clients as [|client clients].
  { intros e e' r [= <- <-]. exists []. by rewrite app_nil_r. }
  eapply does_impl; [apply does_then; [apply does_settings|]|intros r l H; by exists (token_hex e0 0%nat 0%nat)].
  intros e e' r. unfold tables_created, mbind, M_bind, lift_res. destruct (tables_sorted_by_dependencies tables) as [sorted|ex].
  - intros Hrun. apply does_asks. rewrite <- Hrun. clear. revert e.
    induction sorted as [|t sorted IH]; intros e; [done|]. cbn [for_each fmap list_fmap on_first]. unfold mbind, M_bind.
    destruct (ask execute _ e) as [e1 [[]|ex]]; [apply IH|done].
  - intros [= <- <-]. exists []. by rewrite app_nil_r.
Qed.

(** C14: Restoring databases goes through phases: every database is dropped on every
    server before any is created, they are created on every server before
    the tables are, and the tables are created on the first server, in the order
    of their dependencies, after the settings they may need; that a setting
    cannot be changed is tolerated.  A phase begins only if no query of the
    ones before failed. *)
Theorem databases_restored_in_phases (conf : RestoreDatabases) (clients : list nat) (m : ClickHouseManifest) (e e' : E) (r : res unit) :
  (1 ≤ max_concurrent_drop_databases_per_node conf)%nat → (1 ≤ max_concurrent_create_database_per_node conf)%nat →
  restore_replicated_databases execute pick token_hex conf clients m e = (e', r) →
  ∃ l, log e' = log e ++ l ∧
    then_ (asked_everywhere (drop_databases_timeout conf) (drop_query <$> replicated_databases m) clients)
      (then_ (asked_everywhere (create_databases_timeout conf)
                (create_database_query (zookeeper_path conf) (database_settings conf) <$> replicated_databases m) clients)
         (tables_restored clients (tables m))) r l.
Proof.
  intros H1 H2. apply does_then; [apply does_get; intros e0; by apply does_everywhere|].
  apply does_then; [apply does_get; intros e0; by apply does_everywhere|]. apply does_create_tables.
Qed.

(** *** Freezing *)

(** On each server one query after the other. *)
Definition asked_in_turn (timeout : Float) (queries : list string) (clients : list nat) : phase := λ r l,
  ∃ tokens, gathered ((λ client, concat (coroutines tokens timeout queries client)) <$> clients) r l.

Definition is_old (v : ClickHouseVersion) : Prop := version_ltb v CLICKHOUSE_VERSION_PARTITION_CMDS_NOT_REPLICATED = true.

Lemma does_in_turn tokens timeout queries clients :
  does (gather_groups (ask execute) pick 1 (coroutines tokens timeout queries <$> clients)) (asked_in_turn timeout queries clients).
Proof.
  intros e e' r (l & Hl & Hg)%gather_one_at_a_time. exists l. split; [by apply performed_logged|].
  exists tokens. by rewrite <- list_fmap_compose in Hg.
Qed.

(** The servers that are asked to freeze: the first one that is older than
    23.8, which replicates the query, or else all of them. *)
Definition freezing (versions : list ClickHouseVersion) (clients targets : list nat) : Prop :=
  length versions = length clients ∧
  ((∀ v, v ∈ versions → ¬ is_old v) ∧ targets = clients ∨
   ∃ i v client, versions !! i = Some v ∧ is_old v ∧ (∀ j w, (j < i)%nat → versions !! j = Some w → ¬ is_old w) ∧
                 clients !! i = Some client ∧ targets = [client]).

Lemma freezing_unique versions clients targets targets' :
  freezing versions clients targets → freezing versions clients targets' → targets = targets'.
Proof.
  intros [_ [[Hn ->]|(i & v & c & Hi & Ho & Hb & Hc & ->)]] [_ [[Hn' ->]|(i' & v' & c' & Hi' & Ho' & Hb' & Hc' & ->)]]; [done| | |].
  - exfalso. apply (Hn v'); [by eapply list_elem_of_lookup_2|done].
  - exfalso. apply (Hn' v); [by eapply list_elem_of_lookup_2|done].
  - destruct (decide (i = i')) as [->|Hne]; [congruence|]. exfalso. destruct (decide (i < i')%nat); [by apply (Hb' i v)|by apply (Hb i' v'); [lia|..]].
Qed.

Lemma freeze_spec (operation freeze_name : string) (timeout : Float) (clients : list nat) (versions : list ClickHouseVersion)
    (tables : list Table) (e e' : E) (r : res unit) :
  freeze_unfreeze_tables execute pick token_hex operation clients freeze_name timeout versions tables e = (e', r) →
  (length versions ≠ length clients ∧ r = Raise AssertionError ∧ e' = e) ∨
  ∃ targets l, freezing versions clients targets ∧ log e' = log e ++ l ∧
    asked_in_turn timeout (freeze_query operation freeze_name timeout <$> to_freeze tables) targets r l.
Proof.
  intros Hrun. unfold freeze_unfreeze_tables, run_partition_cmd_on_every_node in Hrun. rewrite (bind_ok get _ e e e eq_refl) in Hrun.
  set (queries := freeze_query operation freeze_name timeout <$> to_freeze tables) in *.
  destruct (decide (length versions = length clients)) as [Hlen|Hne].
  2: { left. unfold py_assert, mbind, M_bind in Hrun. rewrite bool_decide_false in Hrun by done. by injection Hrun as <- <-. }
  right. rewrite (bind_ok (py_assert _) _ e e tt) in Hrun by (unfold py_assert; by rewrite bool_decide_true).
  destruct (list_find _ (zip versions clients)) as [[i [v client]]|] eqn:Ef.
  - apply list_find_Some in Ef as (Hi & Hold & Hbefore). apply lookup_zip_with_Some in Hi as (v' & client' & [= <- <-] & Hv & Hc).
    destruct (does_in_turn (token_hex e) timeout queries [client] e e' r Hrun) as (l & Hl & Ha).
    exists [client], l. split; [|by split]. split; [done|]. right. exists i, v, client. split; [done|]. split; [done|]. split; [|done].
    intros j w Hj Hw. destruct (lookup_lt_is_Some_2 clients j) as [c' Hc']; [rewrite <- Hlen; by eapply lookup_lt_Some|].
    apply (Hbefore j (w, c')); [|done]. apply lookup_zip_with_Some. by exists w, c'.
  - rewrite list_find_None, Forall_forall in Ef. destruct (does_in_turn (token_hex e) timeout queries clients e e' r Hrun) as (l & Hl & Ha).
    exists clients, l. split; [|by split]. split; [done|]. left. split; [|done]. intros v [i Hi]%list_elem_of_lookup Hold.
    destruct (lookup_lt_is_Some_2 clients i) as [c Hc]; [rewrite <- Hlen; by eapply lookup_lt_Some|].
    apply (Ef (v, c)); [|done]. apply (list_elem_of_lookup_2 _ i), lookup_zip_with_Some. by exists v, c.
Qed.

(** Freezing and unfreezing ask, on each server that is concerned, one query
    for each table of the MergeTree family, one after the other; the list of
    versions must fit the list of servers. *)
Theorem freeze_asks (operation freeze_name : string) (timeout : Float) (clients : list nat) (versions : list ClickHouseVersion)
    (tables : list Table) (e e' : E) (r : res unit) :
  freeze_unfreeze_tables execute pick token_hex operation clients freeze_name timeout versions tables e = (e', r) →
  (length versions ≠ length clients ∧ r = Raise AssertionError ∧ e' = e) ∨
  ∃ targets l, freezing versions clients targets ∧ log e' = log e ++ l ∧
    asked_in_turn timeout (freeze_query operation freeze_name timeout <$> to_freeze tables) targets r l.
Proof. apply freeze_spec. Qed.

(** *** Restoring the data of tables *)
Context (delete_nodes : list string → M E unit) (deleted : list string → phase).
Context (does_delete : ∀ nodes, does (delete_nodes nodes) (deleted nodes)).

Lemma does_group_list tokens timeout limit (groups : list (nat * list string)) : (1 ≤ limit)%nat →
  does (gather_groups (ask execute) pick limit ((λ cq, coroutines tokens timeout cq.2 cq.1) <$> groups))
       (gathered (concat ((λ cq, coroutines tokens timeout cq.2 cq.1) <$> groups))).
Proof.
  intros Hlim. eapply does_impl; [by apply does_gather|]. intros r l. rewrite filter_all; [done|].
  intros j (js & Hj & (cq & -> & _)%list_elem_of_fmap)%elem_of_concat. apply list_elem_of_lookup in Hj as [i Hi].
  unfold coroutines in Hi. rewrite list_lookup_imap in Hi. by apply fmap_Some in Hi as (q & _ & ->).
Qed.

(** What a restore of a backup of a version does with the data: parts are
    attached and replicas synchronised for the first version, while for the
    second the ZooKeeper nodes of all tables are deleted before any replica is
    restarted, and all replicas are restarted before any is restored. *)
Theorem tables_restored_by_version (conf : RestoreReplica) (attach_timeout sync_timeout : Float) (attach_limit sync_limit : nat)
    (clients : list nat) (disks : list Disk) (snapshot_results : list SnapshotResult) (m : ClickHouseManifest) :
  (1 ≤ attach_limit)%nat → (1 ≤ sync_limit)%nat →
  (1 ≤ max_concurrent_restart_per_node conf)%nat → (1 ≤ max_concurrent_restore_per_node conf)%nat →
  let attach := attach_merge_tree_parts execute pick token_hex attach_timeout attach_limit clients disks snapshot_results m in
  let sync := sync_table_replicas execute pick token_hex sync_timeout sync_limit clients m in
  let restore := restore_replica execute pick token_hex delete_nodes conf clients m in
  match version m with
  | V1 =>
      does attach (λ r l,
        (∃ ex, map_res (attach_group disks m) (zip clients snapshot_results) = Raise ex ∧ r = Raise ex ∧ l = []) ∨
        ∃ tokens groups, map_res (attach_group disks m) (zip clients snapshot_results) = Ok groups ∧
          gathered (concat ((λ cq, coroutines tokens attach_timeout cq.2 cq.1) <$> groups)) r l) ∧
      does sync (asked_everywhere sync_timeout (replica_queries "SYNC" m) clients) ∧
      does restore nothing
  | V2 =>
      does attach nothing ∧ does sync nothing ∧
      does restore (then_ (deleted ((λ t, "/clickhouse/tables/" +:+ uuid t) <$> replicated_tables m))
                     (then_ (asked_everywhere (restart_timeout conf) (replica_queries "RESTART" m) clients)
                            (asked_everywhere (restore_timeout conf) (replica_queries "RESTORE" m) clients)))
  end.
Proof.
  intros Ha Hs Hr1 Hr2 attach sync restore. unfold attach, sync, restore, attach_merge_tree_parts, sync_table_replicas, restore_replica.
  destruct (version m).
  - rewrite !decide_False, decide_True by (try done; intros ?; done). split; [|split].
    + intros e e' r. destruct (map_res (attach_group disks m) (zip clients snapshot_results)) as [groups|ex].
      * rewrite (bind_ok (lift_res _) _ e e groups) by done. intros Hrun. apply (does_group_list (token_hex e) _ _ _ Ha) in Hrun as (l & Hl & Hg).
        exists l. split; [done|]. right. by exists (token_hex e), groups.
      * rewrite (bind_raise (lift_res _) _ e e ex) by done. intros [= <- <-]. exists []. rewrite app_nil_r. split; [done|]. left. by exists ex.
    + apply does_get. intros e0. by apply does_everywhere.
    + apply does_nothing.
  - rewrite !decide_True, decide_False by done. split; [apply does_nothing|]. split; [apply does_nothing|].
    apply does_then; [apply does_delete|]. apply does_get. intros e0. apply does_then; [by apply does_everywhere|].
    apply does_get. intros e1. by apply does_everywhere.
Qed.
End log.

(** ** What is retrieved *)
Section retrieved.
Context {E : Type} (execute : Request → M E (list Row)).

(** The databases by name, each with its UUID. *)
Definition named (d : list (list byte * ReplicatedDatabase)) : Prop :=
  NoDup d.*1 ∧ ∀ n db, (n, db) ∈ d → db_name db = n ∧ ∃ u, db_uuid db = Some u ∧ is_uuid u = true.

Lemma named_set d n db : named d → db_name db = n → (∃ u, db_uuid db = Some u ∧ is_uuid u = true) → named (dict_set n db d).
Proof.
  intros [Hnd Hall] Hn Hu. assert (NoDup (dict_alter (λ _, db) n d).*1) as Hnd' by by apply dict_alter_NoDup.
  split; [done|]. intros k x Hin. apply (dict_get_elem_of _ _ _ Hnd') in Hin. destruct (decide (n = k)) as [<-|Hne].
  - rewrite dict_get_alter_eq in Hin. injection Hin as <-. done.
  - rewrite dict_get_alter_ne in Hin by done. by apply Hall, dict_get_elem_of.
Qed.

Lemma retrieve_databases_named client rows d e e' d' :
  named d → retrieve_databases execute client rows d e = (e', Ok d') → named d'.
Proof.
  revert d e. induction rows as [|row rows IH]; intros d e Hd; cbn [retrieve_databases]; [by intros [= <- <-]|].
  destruct row as [|b64 [|u [|? ?]]]; try done. intros (e1 & name & _ & H)%bind_inv_ok.
  apply bind_inv_ok in H as (e2 & ustr & _ & H). apply bind_inv_ok in H as (e3 & uu & Hu & H).
  apply bind_inv_ok in H as (e4 & n & _ & H). apply bind_inv_ok in H as (e5 & sr & _ & H).
  eapply IH; [|exact H]. apply named_set; [done|done|]. exists uu. split; [done|]. injection Hu as _ Hu. by eapply uuid_of_is_uuid.
Qed.

Lemma row_table_spec known row t :
  row_table known row = Ok t → database t ∈ known ∧ is_uuid (uuid t) = true.
Proof.
  unfold row_table. destruct row as [|c1 [|c2 [|c3 [|c4 [|c5 [|c6 [|? ?]]]]]]]; try done.
  intros (s1 & _ & H)%rbind_inv_ok. apply rbind_inv_ok in H as (s2 & _ & H). apply rbind_inv_ok in H as (s3 & _ & H).
  apply rbind_inv_ok in H as (s5 & _ & H). apply rbind_inv_ok in H as (l & _ & H). apply rbind_inv_ok in H as (n & _ & H).
  case_decide as Hin; [|done]. apply rbind_inv_ok in H as (tn & _ & H). apply rbind_inv_ok in H as (u & Hu & H).
  apply rbind_inv_ok in H as (q & _ & H). apply rbind_inv_ok in H as (ds & _ & H). injection H as <-. split; [done|].
  simpl. destruct c4; try done. by eapply uuid_of_is_uuid.
Qed.

Lemma sort_databases_spec d :
  named d → StronglySorted (λ a b, bytes_leb a b = true) (db_name <$> sort_databases d) ∧ NoDup (db_name <$> sort_databases d) ∧
  (∀ n, n ∈ d.*1 ↔ n ∈ db_name <$> sort_databases d) ∧
  ∀ x, x ∈ sort_databases d → ∃ u, db_uuid x = Some u ∧ is_uuid u = true.
Proof.
  intros [Hnd Hall]. unfold sort_databases. set (R := λ a b : ReplicatedDatabase, bytes_leb (db_name a) (db_name b)).
  pose proof (py_sorted_Permutation R d.*2) as Hp. assert (d.*1 = db_name <$> d.*2) as Hn.
  { rewrite <- list_fmap_compose. apply list_fmap_ext. intros i [n x] Hi. simpl. symmetry. by eapply Hall, list_elem_of_lookup_2. }
  split; [|split; [|split]].
  - assert (StronglySorted (λ x y, R x y = true) (py_sorted R d.*2)) as Hs.
    { apply py_sorted_StronglySorted; [intros x y; apply str_leb_total|intros x y z; apply str_leb_trans]. }
    revert Hs. generalize (py_sorted R d.*2). clear. intros l Hs.
    induction Hs as [|x l _ IH HF]; [constructor|]. cbn. constructor; [exact IH|]. by apply Forall_fmap.
  - by rewrite Hp, <- Hn.
  - intros n. by rewrite Hp, <- Hn.
  - intros x Hx. rewrite Hp in Hx. apply list_elem_of_fmap in Hx as ([n y] & -> & Hin). by eapply Hall.
Qed.

(** What was read makes a manifest that is read back. *)
Lemma retrieved_read_back client e e' databases ts :
  retrieve_databases_and_tables execute client e = (e', Ok (databases, ts)) →
  ∀ v entities files, Forall (λ x, is_uuid (entity_uuid x) = true) entities →
    let m := mkClickHouseManifest v entities databases ts files in
    from_plugin_data (to_plugin_data m) = Ok m.
Proof.
  unfold retrieve_databases_and_tables. intros (e1 & rows & _ & H)%bind_inv_ok. apply bind_inv_ok in H as (e2 & d & Hd & H).
  apply bind_inv_ok in H as (e3 & table_rows & Hrows & H). apply bind_inv_ok in H as (e4 & ts' & Hts & H).
  injection Hts as -> Hts. injection H as -> <- <-. apply retrieve_databases_named in Hd; [|split; [constructor|by intros n db ?%not_elem_of_nil]].
  destruct (sort_databases_spec d Hd) as (_ & _ & _ & Hu). apply map_res_ok in Hts.
  intros v entities files Hent. rewrite plugin_data_read_back; simpl.
  - rewrite (proj2 (forallb_forall _ _)); [done|]. intros x Hx%list_elem_of_In. apply bool_decide_eq_true. destruct (Hu x Hx) as (u & -> & _). done.
  - split; [done|]. split; simpl; apply Forall_forall.
    + intros x Hx u Hxu. destruct (Hu x Hx) as (u' & Hu' & Hok). congruence.
    + intros t [i Hi]%list_elem_of_lookup. destruct (Forall2_lookup_r _ _ _ _ _ Hts Hi) as (row & _ & Hrow). by apply row_table_spec in Hrow as [_ ?].
Qed.

(** What a backup knows of databases and tables: the databases are sorted by
    name, without duplicates; the tables are those of the rows, in their order, all
    of known databases - a table of another one makes the step fail with a
    transient error.  Together with access entities that were read, they
    make a manifest that is read back from the backup as it was. *)
Theorem databases_and_tables_retrieved (client : nat) (e e' : E) (databases : list ReplicatedDatabase) (ts : list Table) :
  retrieve_databases_and_tables execute client e = (e', Ok (databases, ts)) →
  StronglySorted (λ a b, bytes_leb a b = true) (db_name <$> databases) ∧ NoDup (db_name <$> databases) ∧
  (∃ known table_rows e1, (∀ n, n ∈ known ↔ n ∈ db_name <$> databases) ∧
     execute (mkRequest client TABLES_LIST_QUERY None None) e1 = (e', Ok table_rows) ∧
     Forall2 (λ row t, row_table known row = Ok t) table_rows ts) ∧
  (∀ t, t ∈ ts → database t ∈ db_name <$> databases) ∧
  ∀ v entities files, Forall (λ x, is_uuid (entity_uuid x) = true) entities →
    let m := mkClickHouseManifest v entities databases ts files in
    from_plugin_data (to_plugin_data m) = Ok m.
Proof.
  intros Hret. pose proof (retrieved_read_back _ _ _ _ _ Hret) as Hback. revert Hret.
  unfold retrieve_databases_and_tables. intros (e1 & rows & _ & H)%bind_inv_ok. apply bind_inv_ok in H as (e2 & d & Hd & H).
  apply bind_inv_ok in H as (e3 & table_rows & Hrows & H). apply bind_inv_ok in H as (e4 & ts' & Hts & H).
  injection Hts as -> Hts. injection H as -> <- <-. apply retrieve_databases_named in Hd; [|split; [constructor|by intros n db ?%not_elem_of_nil]].
  destruct (sort_databases_spec d Hd) as (Hs & Hnd & Hin & _). apply map_res_ok in Hts.
  split; [done|]. split; [done|]. split; [exists d.*1, table_rows, e2; by split|]. split; [|exact Hback].
  intros t [i Hi]%list_elem_of_lookup. destruct (Forall2_lookup_r _ _ _ _ _ Hts Hi) as (row & _ & Hrow). apply row_table_spec in Hrow as [? _].
  by apply Hin.
Qed.

(** *** Versions and macros

    When each server answers the same whenever it is asked, the results are in
    the order of the servers, whatever the order of the answers. *)
Context (pick : E → nat → nat).

(** [GetVersionsStep] and [RetrieveMacrosStep] *)
Definition get_versions (clients : list nat) : M E (list ClickHouseVersion) :=
  gather_values pick (get_version execute <$> clients).
Definition retrieve_macros (clients : list nat) : M E (list (gmap (list N) (list byte))) :=
  gather_values pick (fetch_server_macros execute <$> clients).

Lemma gather_in_order {A} (ask : nat → M E A) (answer : nat → res A) clients e e' (r : res (list A)) :
  (∀ client e e' x, ask client e = (e', x) → x = answer client) →
  gather_values pick (ask <$> clients) e = (e', r) →
  (∀ l, r = Ok l → Forall2 (λ client a, answer client = Ok a) clients l) ∧
  (∀ ex, r = Raise ex → ∃ client, client ∈ clients ∧ answer client = Raise ex).
Proof.
  intros Hans Hrun. split.
  - intros l ->. destruct (gather_values_spec pick (ask <$> clients) (λ _, True)
      (λ i a, ∃ client, clients !! i = Some client ∧ answer client = Ok a) e e' (Ok l)) as [_ H]; [|done|done|].
    + intros i m w w' x Hi _ Hm. split; [done|]. intros a ->. rewrite list_lookup_fmap in Hi. apply fmap_Some in Hi as (client & Hc & ->).
      exists client. split; [done|]. symmetry. by eapply Hans.
    + destruct (H l eq_refl) as [Hlen Hl]. apply Forall2_same_length_lookup_2; [by rewrite Hlen, length_fmap|].
      intros i client a Hc Ha. destruct (Hl i a Ha) as (c' & Hc' & H'). congruence.
  - intros ex ->. apply gather_values_raise in Hrun as (i & m & w1 & w2 & Hi & Hm). rewrite list_lookup_fmap in Hi.
    apply fmap_Some in Hi as (client & Hc & ->). exists client. split; [by eapply list_elem_of_lookup_2|]. symmetry. by eapply Hans.
Qed.

(** What is retrieved from several servers at once is listed in their order,
    whichever of them answers first; what fails fails for one of them. *)
Theorem answers_in_order (answers : nat → string → res (list Row)) (clients : list nat) :
  (∀ r e e' x, execute r e = (e', x) → x = answers (client r) (query r)) →
  let versions_at c := answers c "SELECT version()" ≫= version_of in
  let macros_at c := answers c MACROS_LIST_QUERY ≫= fold_res add_macro ∅ in
  (∀ e e' r, get_versions clients e = (e', r) →
     (∀ l, r = Ok l → Forall2 (λ c v, versions_at c = Ok v) clients l) ∧
     (∀ ex, r = Raise ex → ∃ c, c ∈ clients ∧ versions_at c = Raise ex)) ∧
  (∀ e e' r, retrieve_macros clients e = (e', r) →
     (∀ l, r = Ok l → Forall2 (λ c ms, macros_at c = Ok ms) clients l) ∧
     (∀ ex, r = Raise ex → ∃ c, c ∈ clients ∧ macros_at c = Raise ex)).
Proof.
  intros Hans versions_at macros_at. split; intros e e' r; apply gather_in_order; intros c e1 e2 x;
    unfold get_version, fetch_server_macros, mbind, M_bind; destruct (execute _ e1) as [e3 y] eqn:Ex; apply Hans in Ex; simpl in Ex; subst y.
  - unfold versions_at. by destruct (answers c _); intros [= <- <-].
  - unfold macros_at. by destruct (answers c _); intros [= <- <-].
Qed.
End retrieved.

(** ** Examples: servers that answer nothing, or a fixed text *)
Module Examples.
Definition silent (r : Request) : M Log (list Row) := modify (λ l, l ++ [(r, None)]) ;; mret [].
Lemma silent_logged r e e' x : silent r e = (e', x) → e' = e ++ [(r, outcome x)].
Proof. by intros [= <- <-]. Qed.
(** The last coroutine that can run comes next. *)
Definition last_first (l : Log) (n : nat) : nat := n - 1.
Definition tokens (l : Log) (client i : nat) : string := "s".

Definition example_database : ReplicatedDatabase := mkReplicatedDatabase [x64; x62] None (bytes_of_string "{shard}") (bytes_of_string "{replica}").
Definition example_tables : list Table :=
  [mkTable [x64; x62] [x74] "ReplicatedMergeTree" "00000000-0000-0000-0000-000000000001" (bytes_of_string "CREATE TABLE t") [([x64; x62], [x76])];
   mkTable [x64; x62] [x76] "MaterializedView" "00000000-0000-0000-0000-000000000002" (bytes_of_string "CREATE MATERIALIZED VIEW v") []].
Definition example_manifest : ClickHouseManifest := mkClickHouseManifest V2 [] [example_database] example_tables [].
Definition no_settings : ReplicatedDatabaseSettings := mkReplicatedDatabaseSettings None None None None (Some "p'w") None None.
Definition example_conf : RestoreDatabases := mkRestoreDatabases "/clickhouse/databases" no_settings "300.0" 1 "60.0" 10.

(** The materialised view comes after the table, and is attached. *)
Example queries_asked :
  (λ q : Request * option exn, (client q.1, query q.1)) <$>
    filter (λ q, negb (startswith "SET" (query q.1))) (restore_replicated_databases silent last_first tokens example_conf [0; 1]%nat example_manifest []).1 =
  [(1%nat, "DROP DATABASE IF EXISTS `db` SYNC"); (0%nat, "DROP DATABASE IF EXISTS `db` SYNC");
   (1%nat, "CREATE DATABASE `db` ENGINE = Replicated('/clickhouse/databases/db', '{shard}', '{replica}') SETTINGS cluster_password='p\'w'");
   (0%nat, "CREATE DATABASE `db` ENGINE = Replicated('/clickhouse/databases/db', '{shard}', '{replica}') SETTINGS cluster_password='p\'w'");
   (0%nat, "CREATE TABLE t"); (0%nat, "ATTACH MATERIALIZED VIEW v")].
Proof. vm_compute. reflexivity. Qed.

Lemma databases_restored_in_phases_witness :
  let er := restore_replicated_databases silent last_first tokens example_conf [0; 1]%nat example_manifest [] in
  ∃ l, er.1 = [] ++ l ∧
    then_ (asked_everywhere "300.0" (drop_query <$> [example_database]) [0; 1]%nat)
      (then_ (asked_everywhere "60.0" (create_database_query "/clickhouse/databases" no_settings <$> [example_database]) [0; 1]%nat)
         (tables_restored [0; 1]%nat example_tables)) er.2 l.
Proof.
  intros er. apply (databases_restored_in_phases silent id silent_logged last_first tokens example_conf [0; 1]%nat example_manifest [] er.1 er.2).
  - simpl. lia.
  - simpl. lia.
  - apply surjective_pairing.
Defined.

Lemma freeze_asks_witness :
  let er := freeze_unfreeze_tables silent last_first tokens "FREEZE" [0; 1; 2]%nat "astacus" "3600.0" [(23, 8); (23, 3); (22, 8)] example_tables [] in
  (3%nat ≠ 3%nat ∧ er.2 = Raise AssertionError ∧ er.1 = []) ∨
  ∃ targets l, freezing [(23, 8); (23, 3); (22, 8)] [0; 1; 2]%nat targets ∧ er.1 = [] ++ l ∧
    asked_in_turn "3600.0" (freeze_query "FREEZE" "astacus" "3600.0" <$> to_freeze example_tables) targets er.2 l.
Proof.
  intros er. apply (freeze_asks silent id silent_logged last_first tokens "FREEZE" "astacus" "3600.0" [0; 1; 2]%nat [(23, 8); (23, 3); (22, 8)] example_tables [] er.1 er.2).
  apply surjective_pairing.
Defined.

Lemma tables_restored_by_version_witness :
  let conf := mkRestoreReplica "300.0" 10 "3600.0" 10 in
  (0 < 1)%nat ∧
  does id (attach_merge_tree_parts silent last_first tokens "300.0" 10 [0; 1]%nat [] [] example_manifest) nothing ∧
  does id (sync_table_replicas silent last_first tokens "300.0" 10 [0; 1]%nat example_manifest) nothing ∧
  does id (restore_replica silent last_first tokens (λ _, mret tt) conf [0; 1]%nat example_manifest)
    (then_ nothing (then_ (asked_everywhere "300.0" (replica_queries "RESTART" example_manifest) [0; 1]%nat)
                          (asked_everywhere "3600.0" (replica_queries "RESTORE" example_manifest) [0; 1]%nat))).
Proof.
  intros conf. split; [lia|].
  apply (tables_restored_by_version silent id silent_logged last_first tokens (λ _, mret tt) (λ _, nothing) (λ _, does_nothing id)
           conf "300.0" "300.0" 10 10 [0; 1]%nat [] [] example_manifest); simpl; lia.
Defined.

(** A server with one database and one table. *)
Definition answers (client : nat) (query : string) : res (list Row) :=
  if decide (query = DATABASES_LIST_QUERY) then Ok [[CStr "ZGI="; CStr "00000000-0000-0000-0000-00000000000a"]]
  else if decide (query = TABLES_LIST_QUERY) then
    Ok [[CStr "ZGI="; CStr "dA=="; CStr "ReplicatedMergeTree"; CStr "{0000000000000000000000000000000B}"; CStr "Q1JFQVRF";
         CList [CList [CStr "ZGI="; CStr "dg=="]]]]
  else if startswith "SHOW CREATE DATABASE" query then
    Ok [[CStr ("CREATE DATABASE db" +:+ newline +:+ "ENGINE = Replicated('/clickhouse/databases/db', '{shard}', '{replica}')")]]
  else if decide (query = "SELECT version()") then Ok [[CStr (if decide (client = 0%nat) then "23.8.1.94-lts" else "22.3")]]
  else Ok [[CStr "c2hhcmQ="; CStr "czE="]].
Definition server (r : Request) : M unit (list Row) := lift_res (answers (client r) (query r)).

Definition retrieved_table : Table :=
  mkTable [x64; x62] [x74] "ReplicatedMergeTree" "00000000-0000-0000-0000-00000000000b" (bytes_of_string "CREATE") [([x64; x62], [x76])].
Definition retrieved_database : ReplicatedDatabase :=
  mkReplicatedDatabase [x64; x62] (Some "00000000-0000-0000-0000-00000000000a") (bytes_of_string "{shard}") (bytes_of_string "{replica}").

Lemma databases_and_tables_retrieved_witness :
  retrieve_databases_and_tables server 0 tt = (tt, Ok ([retrieved_database], [retrieved_table])) ∧
  let m := mkClickHouseManifest V2 [] [retrieved_database] [retrieved_table] [] in from_plugin_data (to_plugin_data m) = Ok m.
Proof.
  assert (retrieve_databases_and_tables server 0 tt = (tt, Ok ([retrieved_database], [retrieved_table]))) as H by (vm_compute; reflexivity).
  split; [exact H|]. destruct (databases_and_tables_retrieved server 0 tt tt _ _ H) as (_ & _ & _ & _ & Hback). apply Hback. constructor.
Defined.

Lemma answers_in_order_witness :
  get_versions server (λ _ n, n - 1)%nat [0; 1]%nat tt = (tt, Ok [(23, 8); (22, 3)]) ∧
  Forall2 (λ c v, answers c "SELECT version()" ≫= version_of = Ok v) [0; 1]%nat [(23, 8); (22, 3)].
Proof.
  assert (get_versions server (λ _ n, n - 1)%nat [0; 1]%nat tt = (tt, Ok [(23, 8); (22, 3)])) as H by (vm_compute; reflexivity).
  split; [exact H|].
  destruct (answers_in_order server (λ _ n, n - 1)%nat answers [0; 1]%nat) as [Hv _]; [by intros r [] e' x [= _ <-]|].
  destruct (Hv tt tt _ H) as [Hok _]. by apply Hok.
Defined.
End Examples.
End ChSteps.
