(* ===== verification/ChAccess.v ===== *)
(** * Access entities ([RetrieveAccessEntitiesStep] and
      [RestoreAccessEntitiesStep] of
      [coordinator/plugins/clickhouse/steps.py])

    Users, roles, quotas, row policies and profiles are ZooKeeper nodes: below
    the path of the entities there is a node for each type, with a node
    for each name that holds a UUID, and a node [uuid] with a node for each
    UUID that holds the queries.  The entities are retrieved while other
    clients may change them, as in the Flink component. *)

From stdpp Require Import base gmap strings list.
From Stdlib Require Import NArith Lia Ascii Strings.Byte.
From Stdlib Require Strings.String.
From S2P Require Import Prelude PyText ChText Topological ChParts ChManifest ZooKeeper Flink.

Module ChAccess.
Import Utf8 ZooKeeper Flink ChParts ChManifest.
Local Open Scope nat_scope.
Notation W := Flink.W.
Notation string_of_bytes := String.string_of_list_byte.
Notation bytes_of_string := String.list_byte_of_string.

(** ** The steps *)
Section steps.
Context (c change_watch : nat) (access_entities_path : string).

Definition retrieve_entity (entity_type node_name : string) : M W AccessEntity :=
  let entity_type_path := child_path access_entities_path entity_type in
  uuid_bytes ← call (get_node c (child_path entity_type_path node_name) (Some change_watch));
  uuid_text ← lift_res (decode uuid_bytes);
  entity_uuid ← lift_res (PyUuid.uuid_of uuid_text);
  let entity_path := child_path (child_path access_entities_path "uuid") entity_uuid in
  attach_query_bytes ← call (get_node c entity_path (Some change_watch));
  mret (mkAccessEntity entity_type entity_uuid (Escaping.unescape_from_file_name node_name) (bytes_of_string attach_query_bytes)).

Definition retrieve_type (entity_type : string) : M W (list AccessEntity) :=
  if decide (entity_type ≠ "uuid") then
    node_names ← call (get_children c (child_path access_entities_path entity_type) (Some change_watch));
    collect node_names (retrieve_entity entity_type)
  else mret [].

(** [RetrieveAccessEntitiesStep] *)
Definition retrieve_access_entities : M W (list AccessEntity) :=
  with_connection c (
    entity_types ← call (get_children c access_entities_path (Some change_watch));
    l ← collect entity_types retrieve_type;
    w ← get;
    if has_changed change_watch w.1 then raise TransientException else mret (concat l)).

Definition is_transaction_error (e : exn) : bool := match e with TransactionError _ => true | _ => false end.

Definition restore_entity (e : AccessEntity) : M W unit :=
  let escaped_entity_name := Escaping.escape_for_file_name (entity_name e) in
  let entity_type_path := child_path access_entities_path (entity_type e) in
  let entity_uuids_path := child_path access_entities_path "uuid" in
  _ ← call (try_create c entity_type_path "");
  _ ← call (try_create c entity_uuids_path "");
  let entity_name_path := child_path entity_type_path escaped_entity_name in
  let entity_path := child_path entity_uuids_path (entity_uuid e) in
  transaction ← lift_res (txn_create entity_name_path (encode (entity_uuid e)) new_transaction);
  transaction ← lift_res (txn_create entity_path (string_of_bytes (attach_query e)) transaction);
  try_except (_ ← call (commit transaction); mret tt) is_transaction_error (λ _, mret tt).

(** [RestoreAccessEntitiesStep] *)
Definition restore_access_entities (access_entities : list AccessEntity) : M W unit :=
  with_connection c (
    sorted ← lift_res (access_entities_sorted_by_dependencies access_entities);
    for_each sorted restore_entity).
End steps.

(** The UUIDs that are read are canonical. *)
Lemma collect_Forall {A B} (P : B → Prop) (l : list A) (f : A → M W B) w w' bs :
  (∀ x w w' b, f x w = (w', Ok b) → P b) → collect l f w = (w', Ok bs) → Forall P bs.
Proof.
  intros Hf. revert w bs. induction l as [|x l IH]; intros w bs Hrun; cbn [collect] in Hrun; [injection Hrun as _ <-; constructor|].
  apply bind_inv_ok in Hrun as (w1 & b & Hb & Hrun). apply bind_inv_ok in Hrun as (w2 & bs' & Hbs & Hrun). injection Hrun as -> <-.
  constructor; [by eapply Hf|by eapply IH].
Qed.

Lemma retrieved_ids_ok c change_watch path w w' es :
  retrieve_access_entities c change_watch path w = (w', Ok es) → Forall (λ e, is_uuid (entity_uuid e) = true) es.
Proof.
  intros Hrun. apply with_connection_ok in Hrun as (w1 & Hbody & _). apply bind_inv_ok in Hbody as (w2 & types & _ & Hbody).
  apply bind_inv_ok in Hbody as (w3 & l & Hl & Hbody). rewrite (bind_ok get _ w3 w3 w3) in Hbody by done.
  destruct (has_changed change_watch w3.1); [done|]. injection Hbody as _ <-. apply List.Forall_concat.
  eapply collect_Forall; [|exact Hl]. intros t v v' es. unfold retrieve_type. case_decide; [|intros [= _ <-]; constructor].
  intros (v1 & names & _ & Hes)%bind_inv_ok. eapply collect_Forall; [|exact Hes]. intros n u u' e. unfold retrieve_entity.
  intros (u1 & b & _ & H1)%bind_inv_ok. apply bind_inv_ok in H1 as (u2 & text & _ & H1). apply bind_inv_ok in H1 as (u3 & id & Hid & H1).
  apply bind_inv_ok in H1 as (u4 & q & _ & H1). injection H1 as _ <-. injection Hid as _ Hid. by eapply uuid_of_is_uuid.
Qed.

(** ** What a storage holds *)

(** The entity [e] is stored under its type and the name of a node. *)
Definition entity_at (s : gmap Parts string) (k : Parts) (t n : string) (e : AccessEntity) : Prop :=
  ∃ value, s !! (k ++ [t; n]) = Some value ∧ PyUuid.uuid_of value = Ok (entity_uuid e) ∧
    s !! (k ++ ["uuid"; entity_uuid e]) = Some (string_of_bytes (attach_query e)) ∧
    entity_type e = t ∧ entity_name e = Escaping.unescape_from_file_name n.

(** The nodes of the entities, in the order in which they are listed. *)
Definition type_nodes (s : gmap Parts string) (k : Parts) (t : string) : list (string * string) :=
  if decide (t ≠ "uuid") then pair t <$> children s (k ++ [t]) else [].
Definition entity_nodes (s : gmap Parts string) (k : Parts) : list (string * string) :=
  concat (type_nodes s k <$> children s k).

Lemma good_uuid u : is_uuid u = true → good u.
Proof. intros H. split; [|by apply uuid_no_slash]. intros ->. discriminate H. Qed.

Lemma path_of_snoc2 k x y : k ≠ [] → child_path (child_path (path_of k) x) y = path_of (k ++ [x; y]).
Proof. intros Hk. change [x; y] with ([x] ++ [y]). rewrite app_assoc, !path_of_snoc; [done|done|by destruct k]. Qed.

Lemma canonical_snoc2 k x y : canonical k → good x → good y → canonical (k ++ [x; y]).
Proof. intros Hk Hx Hy. change [x; y] with ([x] ++ [y]). rewrite app_assoc. by apply canonical_snoc; [apply canonical_snoc|]. Qed.

Lemma good_uuid_node : good "uuid".
Proof. by split. Qed.

(** ** Retrieving while others go on *)
Section retrieval.
Context (c change_watch : nat).
Notation unfired z := (change_watch ∉ (fired z).*1).
Notation ok := (Flink.ok c).

(** Going through a list, when what is read of an element stays true as long
    as the watch does not fire. *)
Lemma collect_read {A B} (R : client → A → B → Prop) (l : list A) (f : A → M W B) w w' bs :
  (∀ z z' x b, keeps c z z' → unfired z' → R z x b → R z' x b) →
  (∀ x w w' b, x ∈ l → ok w → f x w = (w', Ok b) → ok w' ∧ keeps c w.1 w'.1 ∧ (unfired w'.1 → R w'.1 x b)) →
  ok w → collect l f w = (w', Ok bs) → ok w' ∧ keeps c w.1 w'.1 ∧ (unfired w'.1 → Forall2 (R w'.1) l bs).
Proof.
  intros HR. revert w bs. induction l as [|x l IH]; intros w bs Hf Hok Hrun; cbn [collect] in Hrun.
  { injection Hrun as <- <-. split; [done|]. split; [done|]. intros _. constructor. }
  apply bind_inv_ok in Hrun as (w1 & b & Hb & Hrun). apply bind_inv_ok in Hrun as (w2 & bs' & Hbs & Hrun). injection Hrun as -> <-.
  destruct (Hf x w w1 b ltac:(by left) Hok Hb) as (Hok1 & Hk1 & HR1).
  destruct (IH w1 bs') as (Hok2 & Hk2 & HR2); [|done|done|].
  { intros y v v' b' Hy. apply Hf. by right. }
  split; [done|]. split; [by transitivity w1.1|]. intros Hun. constructor; [|by apply HR2].
  eapply HR; [exact Hk2|done|]. apply HR1. by eapply unfired_before.
Qed.

Definition watched (z : client) (k : Parts) : Prop := watching z c k change_watch ∧ is_Some (storage z !! k).

Lemma watched_keeps z z' k : keeps c z z' → unfired z' → watched z k →
  watched z' k ∧ storage z' !! k = storage z !! k ∧ children (storage z') k = children (storage z) k.
Proof.
  intros Hk Hun [Hw Hs]. destruct (keeps_watch _ _ _ Hk k change_watch Hw Hs) as [|[Hw' [Hv Hc]]]; [done|].
  split; [split; [done|by rewrite Hv]|done].
Qed.

Definition entity_read (k : Parts) (t : string) (z : client) (n : string) (e : AccessEntity) : Prop :=
  entity_at (storage z) k t n e ∧ watched z (k ++ [t; n]) ∧ watched z (k ++ ["uuid"; entity_uuid e]).

Lemma entity_read_keeps k t z z' n e : keeps c z z' → unfired z' → entity_read k t z n e → entity_read k t z' n e.
Proof.
  intros Hk Hun ((v & Hv & Hu & Ha & Ht & Hn) & H1 & H2). destruct (watched_keeps _ _ _ Hk Hun H1) as (H1' & E1 & _).
  destruct (watched_keeps _ _ _ Hk Hun H2) as (H2' & E2 & _). split; [|done]. exists v. by rewrite E1, E2.
Qed.

Definition type_read (k : Parts) (z : client) (t : string) (es : list AccessEntity) : Prop :=
  if decide (t ≠ "uuid") then watched z (k ++ [t]) ∧ Forall2 (entity_read k t z) (children (storage z) (k ++ [t])) es else es = [].

Lemma type_read_keeps k z z' t es : keeps c z z' → unfired z' → type_read k z t es → type_read k z' t es.
Proof.
  intros Hk Hun. unfold type_read. case_decide; [|done]. intros [Hw HF]. destruct (watched_keeps _ _ _ Hk Hun Hw) as (Hw' & _ & Hc).
  split; [done|]. rewrite Hc. eapply Forall2_impl; [exact HF|]. intros n e. by apply entity_read_keeps.
Qed.

Lemma retrieve_entity_spec k t n w w' e :
  canonical k → good t → good n → ok w → retrieve_entity c change_watch (path_of k) t n w = (w', Ok e) →
  ok w' ∧ keeps c w.1 w'.1 ∧ (unfired w'.1 → entity_read k t w'.1 n e).
Proof.
  intros Hk Ht Hn Hok Hrun. pose proof (canonical_nonempty _ Hk) as Hne. unfold retrieve_entity in Hrun. rewrite path_of_snoc2 in Hrun by done.
  apply bind_inv_ok in Hrun as (w1 & b & Hget & Hrun). apply call_get_spec in Hget as (Hok1 & Hk1 & Hv1 & Hw1); [|done|by apply canonical_snoc2].
  apply bind_inv_ok in Hrun as (w2 & text & Hd & Hrun). injection Hd as <- Hd. apply decode_ok in Hd as ->.
  apply bind_inv_ok in Hrun as (w3 & u & Hu & Hrun). injection Hu as <- Hu. pose proof (uuid_of_is_uuid _ _ Hu) as Hcan.
  rewrite path_of_snoc2 in Hrun by done. apply bind_inv_ok in Hrun as (w4 & q & Hget & Hrun). injection Hrun as -> <-.
  apply call_get_spec in Hget as (Hok2 & Hk2 & Hv2 & Hw2); [|done|apply canonical_snoc2; [done|apply good_uuid_node|by apply good_uuid]].
  split; [done|]. split; [by transitivity w1.1|]. intros Hun. destruct (watched_keeps _ _ (k ++ [t; n]) Hk2 Hun) as (Hw & Hv & _); [by split|].
  split; [|split; [done|by split]]. exists b. rewrite Hv. split; [done|]. simpl. split; [done|].
  by rewrite String.string_of_list_byte_of_string.
Qed.

Lemma retrieve_type_spec k t w w' es :
  canonical k → good t → ok w → retrieve_type c change_watch (path_of k) t w = (w', Ok es) →
  ok w' ∧ keeps c w.1 w'.1 ∧ (unfired w'.1 → type_read k w'.1 t es).
Proof.
  intros Hk Ht Hok. unfold retrieve_type, type_read. case_decide as Hne; [|intros [= <- <-]; by split].
  rewrite <- path_of_snoc by by apply canonical_nonempty. intros (w1 & names & Hget & Hrun)%bind_inv_ok.
  assert (canonical (k ++ [t])) as Hkt by by apply canonical_snoc.
  apply call_children_spec in Hget as (Hok1 & Hk1 & Hs1 & -> & Hw1); [|done|done].
  apply (collect_read (entity_read k t)) in Hrun as (Hok2 & Hk2 & HF); [|intros; by eapply entity_read_keeps| |done].
  - split; [done|]. split; [by transitivity w1.1|]. intros Hun. destruct (watched_keeps _ _ (k ++ [t]) Hk2 Hun) as (Hw & _ & Hc); [by split|].
    split; [done|]. rewrite Hc. by apply HF.
  - intros n v v' e Hn Hv Hrun'. apply (retrieve_entity_spec k t n); [done|done| |done|done].
    pose proof (children_good _ (k ++ [t]) (ok_keys _ _ Hok1)) as Hg. rewrite Forall_forall in Hg. apply Hg; [by destruct k|done].
Qed.

Lemma types_nodes_read k z ts ess :
  Forall2 (type_read k z) ts ess → Forall2 (λ tn e, entity_at (storage z) k tn.1 tn.2 e) (concat (type_nodes (storage z) k <$> ts)) (concat ess).
Proof.
  induction 1 as [|t es ts ess Ht _ IH]; [constructor|]. csimpl. apply Forall2_app; [|done]. unfold type_read, type_nodes in *.
  case_decide; [|by subst]. destruct Ht as [_ HF]. apply Forall2_fmap_l. eapply Forall2_impl; [exact HF|]. by intros n e [? _].
Qed.

(** C17: The access entities of a backup are consistent, whatever other clients do
    meanwhile: when the retrieval succeeds, that is no watch has fired, they
    are, in the order in which ZooKeeper lists their nodes, those that it
    holds at the end - every one, with its UUID and its queries. *)
Theorem access_entities_consistent (k : Parts) (w w' : W) (es : list AccessEntity) :
  canonical k → Forall (Forall (request_ok c)) w.2 → all_canonical (storage w.1) →
  retrieve_access_entities c change_watch (path_of k) w = (w', Ok es) →
  Forall2 (λ tn e, entity_at (storage w'.1) k tn.1 tn.2 e) (entity_nodes (storage w'.1) k) es.
Proof.
  intros Hk Hscript Hkeys Hrun. apply with_connection_ok in Hrun as (w1 & Hbody & Hst & _).
  apply bind_inv_ok in Hbody as (w2 & types & Hget & Hbody).
  apply call_children_spec in Hget as (Hok2 & Hk2 & Hs2 & -> & Hw2); [|split; [apply elem_of_app; right; by left|done|done]|done].
  apply bind_inv_ok in Hbody as (w3 & l & Hl & Hbody). rewrite (bind_ok get _ w3 w3 w3) in Hbody by done.
  destruct (has_changed change_watch w3.1) eqn:Ech; [done|]. injection Hbody as <- <-. apply bool_decide_eq_false in Ech.
  apply (collect_read (type_read k)) in Hl as (Hok3 & Hk3 & HF); [|intros; by eapply type_read_keeps| |done].
  - destruct (watched_keeps _ _ k Hk3 Ech) as (_ & _ & Hc); [by split|]. rewrite Hst. unfold entity_nodes. rewrite Hc.
    by apply types_nodes_read, HF.
  - intros t v v' es Ht Hv Hrun'. apply (retrieve_type_spec k t); [done| |done|done].
    pose proof (children_good _ k (ok_keys _ _ Hok2) (canonical_nonempty _ Hk)) as Hg. rewrite Forall_forall in Hg. by apply Hg.
Qed.
End retrieval.
(** ** Restoring while nobody interferes *)
Section restoring.
Context (c : nat) (k : Parts) (k_canonical : canonical k).

Definition name_node (e : AccessEntity) : Parts := k ++ [entity_type e; Escaping.escape_for_file_name (entity_name e)].
Definition query_node (e : AccessEntity) : Parts := k ++ ["uuid"; entity_uuid e].
Definition absent (s : gmap Parts string) (e : AccessEntity) : Prop := s !! name_node e = None ∧ s !! query_node e = None.
#[export] Instance absent_dec s e : Decision (absent s e).
Proof. unfold absent. solve_decision. Defined.

Record valid_entity (e : AccessEntity) : Prop := {
  valid_type : good (entity_type e) ∧ entity_type e ≠ "uuid";
  valid_name : entity_name e ≠ [];
  valid_uuid : is_uuid (entity_uuid e) = true;
}.

Lemma escaped_good n : n ≠ [] → good (Escaping.escape_for_file_name n).
Proof.
  intros Hn. split; [|apply escaped_no_slash]. intros E. apply Hn. rewrite <- (Escaping.unescape_escape n), E. reflexivity.
Qed.

Lemma longer_not_prefix (l x y : string) : ¬ (k ++ [x; y]) `prefix_of` (k ++ [l]).
Proof. intros [r E]. apply (f_equal length) in E. rewrite !length_app in E. simpl in E. lia. Qed.

Lemma try_create_quiet j v z :
  canonical j → c ∈ connections z →
  ∃ z' b, call (try_create c (path_of j) v) (z, []) = ((z', []), Ok b) ∧ connections z' = connections z ∧
    is_Some (storage z' !! j) ∧ (∀ key, is_Some (storage z !! key) → storage z' !! key = storage z !! key) ∧
    (∀ key, ¬ key `prefix_of` j → storage z' !! key = storage z !! key).
Proof.
  intros Hj Ho. destruct (storage z !! j) as [v'|] eqn:E.
  - exists z, false. split; [|split; [done|split; [by eexists|done]]]. apply call_quiet.
    pose proof (create_locked_spec (path_of j) v true (storage z)) as Hs. cbv zeta in Hs. rewrite parse_path_of in Hs by done.
    destruct (create_locked (path_of j) v true (storage z)) as [s [[p ev]|e]] eqn:Ec.
    + destruct Hs as (m & Hm & _ & _ & Ha & _). destruct (added_new _ _ _ _ _ _ Ha (length j)) as [H _]; [lia..|].
      rewrite firstn_all in H. congruence.
    + destruct Hs as [(-> & _ & ->)|[? _]]; [|done]. unfold try_create, try_except.
      rewrite (bind_raise (create c (path_of j) v) _ z z (ZooKeeperError NodeExists)); [by rewrite bool_decide_true|].
      unfold create. rewrite connected_run, decide_True by done.
      rewrite (bind_raise (on_storage _) _ z _ _ (zk_on_storage_run _ _ _ _ Ec)). by rewrite with_storage_same.
  - destruct (create_quiet c j v z Hj Ho E) as (z' & Hrun & Hc & Hnew & Hold & Hfr). exists z', true.
    split; [|split; [done|split; [by eexists|split; [done|]]]].
    + assert (create c (path_of j) v z = (z', Ok tt)) as Hcr.
      { unfold call, interleave, on_client, zoom, mbind, M_bind in Hrun. cbn in Hrun.
        destruct (create c (path_of j) v z) as [z1 r]. by injection Hrun as -> ->. }
      apply call_quiet. unfold try_create, try_except. by rewrite (bind_ok _ _ _ _ _ Hcr).
    + intros key Hkey. apply Hfr; [by intros ->|by right].
Qed.

(** Creating two nodes, whose parents exist, in one transaction. *)
Lemma create_both x1 y1 v1 x2 y2 v2 z :
  Forall good [x1; y1; x2; y2] → x1 ≠ x2 → is_Some (storage z !! (k ++ [x1])) → is_Some (storage z !! (k ++ [x2])) →
  let k1 := k ++ [x1; y1] in let k2 := k ++ [x2; y2] in
  match commit (mkTransaction [(path_of k1, v1); (path_of k2, v2)] false) z with
  | (z', Ok _) => connections z' = connections z ∧ storage z !! k1 = None ∧ storage z !! k2 = None ∧
                  storage z' = <[k2 := v2]> (<[k1 := v1]> (storage z))
  | (z', Raise e) => z' = z ∧ is_transaction_error e = true ∧ ¬ (storage z !! k1 = None ∧ storage z !! k2 = None)
  end.
Proof.
  rewrite !Forall_cons. intros (Hx1 & Hy1 & Hx2 & Hy2 & _) Hne H1 H2 k1 k2.
  assert (parse_path (path_of k1) = k1) as P1 by by apply parse_path_of, canonical_snoc2.
  assert (parse_path (path_of k2) = k2) as P2 by by apply parse_path_of, canonical_snoc2.
  assert (∀ x y, parent (k ++ [x; y]) = k ++ [x]) as Hpar.
  { intros x y. unfold parent. change [x; y] with ([x] ++ [y]). by rewrite app_assoc, removelast_last. }
  assert (k1 ≠ k2) as H12 by (intros E; apply app_inv_head in E; congruence).
  assert (k1 ≠ k ++ [x2]) as H1p by (intros E%app_inv_head; done).
  pose proof (transaction_spec [(path_of k1, v1); (path_of k2, v2)] z) as H. destruct (commit _ z) as [z' [t|e]].
  - destruct H as (_ & Hc & Hcr). inversion Hcr as [|? ? ? ? ? Hn1 _ Hcr2]; subst.
    inversion Hcr2 as [|? ? ? ? ? Hn2 _ Hcr3]; subst. inversion Hcr3 as [Hs|]; subst. rewrite P1, P2 in *.
    rewrite lookup_insert_ne in Hn2 by done. done.
  - destruct H as (-> & pre & path & value & post & s & err & Hops & Hpre & Hf & ->). split; [done|]. split; [done|].
    intros [Hn1 Hn2]. destruct pre as [|o1 [|o2 pre]].
    + inversion Hpre; subst. injection Hops as <- <- <-. unfold create_fails in Hf. rewrite P1 in Hf. unfold k1 in Hf. rewrite Hpar in Hf.
      destruct Hf as [[_ [v Hv]]|(_ & _ & _ & Hp)]; [unfold k1 in Hn1; congruence|]. rewrite Hp in H1. by destruct H1.
    + injection Hops as <- <- <- <-. inversion Hpre as [|? ? ? ? ? _ _ Hcr2]; subst. inversion Hcr2; subst. rewrite P1 in Hf.
      unfold create_fails in Hf. rewrite P2 in Hf. unfold k2 in Hf. rewrite Hpar in Hf.
      destruct Hf as [[_ Hs]|(_ & _ & _ & Hp)].
      * rewrite lookup_insert_ne in Hs by done. unfold k2 in Hn2. rewrite Hn2 in Hs. by destruct Hs.
      * rewrite lookup_insert_ne in Hp by done. rewrite Hp in H2. by destruct H2.
    + injection Hops as _ _ Hops. apply (f_equal length) in Hops. rewrite length_app in Hops. simpl in Hops. lia.
Qed.
(** What restoring one entity does to the storage. *)
Record entity_restored (e : AccessEntity) (s s' : gmap Parts string) : Prop := {
  restored_stored : absent s e → s' !! name_node e = Some (entity_uuid e) ∧ s' !! query_node e = Some (string_of_bytes (attach_query e));
  restored_kept key : is_Some (s !! key) → s' !! key = s !! key;
  restored_frame key : s' !! key ≠ s !! key →
    (∃ x, key `prefix_of` k ++ [x] ∧ (x = entity_type e ∨ x = "uuid")) ∨ (absent s e ∧ (key = name_node e ∨ key = query_node e));
}.

(** The parents of the nodes of an entity are created when missing. *)
Lemma parents_created e z :
  valid_entity e → c ∈ connections z →
  ∃ z2 b1 b2, (∃ z1, call (try_create c (path_of (k ++ [entity_type e])) "") (z, []) = ((z1, []), Ok b1) ∧
                     call (try_create c (path_of (k ++ ["uuid"])) "") (z1, []) = ((z2, []), Ok b2)) ∧
    connections z2 = connections z ∧ is_Some (storage z2 !! (k ++ [entity_type e])) ∧ is_Some (storage z2 !! (k ++ ["uuid"])) ∧
    (∀ key, is_Some (storage z !! key) → storage z2 !! key = storage z !! key) ∧
    (∀ key, storage z2 !! key ≠ storage z !! key → ∃ x, key `prefix_of` k ++ [x] ∧ (x = entity_type e ∨ x = "uuid")) ∧
    (∀ x y, storage z2 !! (k ++ [x; y]) = storage z !! (k ++ [x; y])).
Proof.
  intros [[Ht Hne] Hn Hu] Ho.
  destruct (try_create_quiet (k ++ [entity_type e]) "" z) as (z1 & b1 & Hrun1 & Hc1 & Hs1 & Hold1 & Hfr1); [by apply canonical_snoc|done|].
  destruct (try_create_quiet (k ++ ["uuid"]) "" z1) as (z2 & b2 & Hrun2 & Hc2 & Hs2 & Hold2 & Hfr2);
    [by apply canonical_snoc; [|apply good_uuid_node]|by rewrite Hc1|].
  exists z2, b1, b2. split; [by exists z1|]. split; [by rewrite Hc2|]. split; [by rewrite Hold2|]. split; [done|]. split; [|split].
  - intros key Hkey. rewrite Hold2, Hold1; [done..|]. by rewrite Hold1.
  - intros key Hkey. destruct (decide (key `prefix_of` k ++ [entity_type e])) as [|H1]; [eexists; by eauto|].
    destruct (decide (key `prefix_of` k ++ ["uuid"])) as [|H2]; [eexists; by eauto|]. by rewrite Hfr2, Hfr1 in Hkey.
  - intros x y. rewrite Hfr2, Hfr1; [done|apply longer_not_prefix..].
Qed.

Lemma restore_entity_run e z z1 z2 b1 b2 z' r :
  call (try_create c (path_of (k ++ [entity_type e])) "") (z, []) = ((z1, []), Ok b1) →
  call (try_create c (path_of (k ++ ["uuid"])) "") (z1, []) = ((z2, []), Ok b2) →
  commit (mkTransaction [(path_of (name_node e), encode (entity_uuid e));
    (path_of (query_node e), string_of_bytes (attach_query e))] false) z2 = (z', r) →
  restore_entity c (path_of k) e (z, []) =
    ((z', []), match r with Ok _ => Ok tt | Raise ex => if is_transaction_error ex then Ok tt else Raise ex end).
Proof.
  intros Hrun1 Hrun2 Hcommit. pose proof (canonical_nonempty _ k_canonical) as Hk. unfold restore_entity.
  rewrite !path_of_snoc2 by done. rewrite <- (path_of_snoc k (entity_type e)), <- (path_of_snoc k "uuid") by done.
  rewrite (bind_ok _ _ _ _ _ Hrun1), (bind_ok _ _ _ _ _ Hrun2). fold (name_node e) (query_node e).
  erewrite (bind_ok (lift_res _)) by reflexivity. erewrite (bind_ok (lift_res _)) by reflexivity.
  cbn [app operations committed]. fold (name_node e) (query_node e).
  unfold try_except. destruct r as [t|ex].
  - by rewrite (bind_ok _ _ _ _ _ (call_quiet _ _ _ _ Hcommit)).
  - rewrite (bind_raise _ _ _ _ _ (call_quiet _ _ _ _ Hcommit)). by destruct (is_transaction_error ex).
Qed.

Lemma name_not_query e e' : valid_entity e → name_node e ≠ query_node e'.
Proof. intros [[_ Hne] _ _] E%app_inv_head. congruence. Qed.

Lemma restore_entity_spec e z :
  valid_entity e → c ∈ connections z →
  ∃ z', restore_entity c (path_of k) e (z, []) = ((z', []), Ok tt) ∧ connections z' = connections z ∧
    entity_restored e (storage z) (storage z').
Proof.
  intros He Ho. destruct (parents_created e z He Ho) as (z2 & b1 & b2 & (z1 & Hrun1 & Hrun2) & Hc2 & Hs1 & Hs2 & Hold & Hfr & Hsame).
  pose proof (name_not_query e e He) as H12. destruct He as [[Ht Hne] Hn Hu].
  assert (Forall good [entity_type e; Escaping.escape_for_file_name (entity_name e); "uuid"; entity_uuid e]) as Hgood.
  { rewrite !Forall_cons. split; [done|]. split; [by apply escaped_good|]. split; [apply good_uuid_node|]. split; [by apply good_uuid|done]. }
  pose proof (create_both _ _ (encode (entity_uuid e)) _ _ (string_of_bytes (attach_query e)) z2 Hgood Hne Hs1 Hs2) as Hcom.
  cbv zeta in Hcom. rewrite !Hsame in Hcom. fold (name_node e) (query_node e) in Hcom.
  destruct (commit _ z2) as [z3 r] eqn:Ecommit. pose proof (restore_entity_run _ _ _ _ _ _ _ _ Hrun1 Hrun2 Ecommit) as Hrun.
  exists z3. destruct r as [t|ex].
  - destruct Hcom as (Hc3 & Hn1 & Hn2 & Hst). split; [exact Hrun|]. split; [by rewrite Hc3|]. rewrite Hst. split.
    + intros _. by rewrite lookup_insert_ne, !lookup_insert_eq.
    + intros key Hkey. rewrite !lookup_insert_ne; [by apply Hold|intros <-; rewrite Hn1 in Hkey; by destruct Hkey|intros <-; rewrite Hn2 in Hkey; by destruct Hkey].
    + intros key Hkey. destruct (decide (key = name_node e ∨ key = query_node e)) as [|Hnot]; [right; by split|left].
      rewrite !lookup_insert_ne in Hkey by (intros <-; tauto). by apply Hfr.
  - destruct Hcom as (-> & Hex & Hnot). rewrite Hex in Hrun. split; [exact Hrun|]. split; [done|]. split; [done|exact Hold|].
    intros key Hkey. left. by apply Hfr.
Qed.

(** The nodes of an entity are only created with it. *)
Lemma entity_restored_node e e' key s s' :
  valid_entity e → entity_restored e s s' → key = name_node e' ∨ key = query_node e' → s' !! key ≠ s !! key →
  absent s e ∧ (key = name_node e ∨ key = query_node e).
Proof.
  intros He [_ _ Hfr] Hkey [(x & Hp & _)|H]%Hfr; [|done]. exfalso. by destruct Hkey as [-> | ->]; eapply longer_not_prefix.
Qed.

Definition entity_id (e : AccessEntity) : string * list byte := (entity_type e, entity_name e).

Lemma name_node_inj e e' : name_node e = name_node e' → entity_id e = entity_id e'.
Proof.
  intros [= Ht Hn]%app_inv_head. unfold entity_id. f_equal; [done|].
  by rewrite <- (Escaping.unescape_escape (entity_name e)), Hn, Escaping.unescape_escape.
Qed.

Lemma restored_apart e e' s s' key :
  valid_entity e → valid_entity e' → entity_id e ≠ entity_id e' → entity_uuid e ≠ entity_uuid e' →
  entity_restored e s s' → key = name_node e' ∨ key = query_node e' → s' !! key = s !! key.
Proof.
  intros He He' Hid Hu Hr Hkey. destruct (decide (s' !! key = s !! key)) as [|Hne]; [done|exfalso].
  destruct (entity_restored_node _ _ _ _ _ He Hr Hkey Hne) as [_ H].
  destruct Hkey as [-> | ->], H as [H|H].
  - by apply Hid, name_node_inj.
  - by apply (name_not_query e' e).
  - by apply (name_not_query e e').
  - apply app_inv_head in H. congruence.
Qed.

(** What has become of [e], given whether it was absent at first. *)
Definition outcome (s0 s' : gmap Parts string) (e : AccessEntity) : Prop :=
  if decide (absent s0 e) then
    entity_at s' k (entity_type e) (Escaping.escape_for_file_name (entity_name e)) e
  else s' !! name_node e = s0 !! name_node e ∧ s' !! query_node e = s0 !! query_node e.

Definition differs (e e' : AccessEntity) : Prop := entity_id e ≠ entity_id e' ∧ entity_uuid e ≠ entity_uuid e'.

Record all_restored (s0 s' : gmap Parts string) (es : list AccessEntity) : Prop := {
  all_outcome : Forall (outcome s0 s') es;
  all_kept key : is_Some (s0 !! key) → s' !! key = s0 !! key;
  all_frame key : s' !! key ≠ s0 !! key → Exists (λ e, key `prefix_of` name_node e ∨ key `prefix_of` query_node e) es;
  all_apart e : valid_entity e → Forall (differs e) es → s' !! name_node e = s0 !! name_node e ∧ s' !! query_node e = s0 !! query_node e;
}.

Lemma prefix_deeper key x y : key `prefix_of` k ++ [x] → key `prefix_of` k ++ [x; y].
Proof. intros [r E]. exists (r ++ [y]). by rewrite app_assoc, <- E, <- app_assoc. Qed.

Lemma outcome_after e s0 s s' :
  valid_entity e → s !! name_node e = s0 !! name_node e → s !! query_node e = s0 !! query_node e →
  entity_restored e s s' → outcome s0 s' e.
Proof.
  intros He Hn Hq [Hst Hk Hf]. unfold outcome, absent in *. case_decide as Ha.
  - destruct Hst as [H1 H2]; [by rewrite Hn, Hq|]. exists (entity_uuid e). split; [exact H1|].
    split; [by apply uuid_of_canonical, valid_uuid|]. split; [exact H2|]. split; [done|]. by rewrite Escaping.unescape_escape.
  - rewrite <- Hn, <- Hq. split.
    + destruct (decide (s' !! name_node e = s !! name_node e)) as [|Hne]; [done|exfalso].
      destruct (entity_restored_node e e (name_node e) s s' He) as [Hab _]; [by split|by left|done|].
      apply Ha. by rewrite <- Hn, <- Hq.
    + destruct (decide (s' !! query_node e = s !! query_node e)) as [|Hne]; [done|exfalso].
      destruct (entity_restored_node e e (query_node e) s s' He) as [Hab _]; [by split|by right|done|].
      apply Ha. by rewrite <- Hn, <- Hq.
Qed.

Lemma outcome_ext e s0 s s' :
  s' !! name_node e = s !! name_node e → s' !! query_node e = s !! query_node e → outcome s0 s e → outcome s0 s' e.
Proof. unfold outcome, entity_at. fold (name_node e) (query_node e). intros -> ->. done. Qed.

Lemma all_restored_snoc s0 s s' pre e :
  Forall valid_entity pre → valid_entity e → Forall (differs e) pre →
  all_restored s0 s pre → entity_restored e s s' → all_restored s0 s' (pre ++ [e]).
Proof.
  intros Hpre He Hd [Ho Hk Hf Ha] Hr. rewrite Forall_forall in Hpre, Hd. split.
  - apply Forall_app. split; [|apply Forall_singleton].
    + apply Forall_forall. intros e' Hin. rewrite Forall_forall in Ho. destruct (Hd e' Hin).
      apply (outcome_ext e' s0 s s'); [| |by apply Ho]; eapply (restored_apart e e'); by eauto.
    + destruct (Ha e He) as [Hn Hq]; [by apply Forall_forall|]. by apply (outcome_after e s0 s s').
  - intros key Hkey. rewrite (restored_kept _ _ _ Hr) by by rewrite Hk. by apply Hk.
  - intros key Hkey. apply Exists_app. destruct (decide (s' !! key = s !! key)) as [E|Hch].
    + left. rewrite E in Hkey. by apply Hf.
    + right. apply Exists_cons. left. destruct (restored_frame _ _ _ Hr key Hch) as [(x & Hp & [->| ->])|[_ [->| ->]]].
      * left. by apply prefix_deeper.
      * right. by apply prefix_deeper.
      * by left.
      * by right.
  - intros e' He' [Hpre' [[Hid Hu] _]%Forall_cons]%Forall_app. destruct (Ha e' He' Hpre') as [<- <-].
    split; eapply (restored_apart e e'); by eauto.
Qed.

(** C18: Restoring the access entities.  Unless they depend on each other in a
    cycle, in which case nothing is written, every entity is restored as a
    whole or not at all, in one transaction: one for which neither of its two
    nodes exists is found in the storage at the end, under the escaped name,
    with its UUID and its queries, as a retrieval would read it; one of whose
    nodes exists is left as it is found.  No existing node is changed or
    deleted, and no node is created that is not one of the entities' or on the
    path to one. *)
Theorem access_entities_restored (z : client) (es : list AccessEntity) :
  Forall valid_entity es → NoDup (entity_id <$> es) → NoDup (entity_uuid <$> es) →
  ∃ z', match access_entities_sorted_by_dependencies es with
        | Ok _ => restore_access_entities c (path_of k) es (z, []) = ((z', []), Ok tt) ∧ all_restored (storage z) (storage z') es
        | Raise e => restore_access_entities c (path_of k) es (z, []) = ((z', []), Raise e) ∧ storage z' = storage z
        end.
Proof.
  intros Hes Hid Hu. unfold restore_access_entities. destruct (access_entities_sorted_by_dependencies es) as [l|e] eqn:Esort.
  - assert (l ≡ₚ es) as Hp.
    { unfold access_entities_sorted_by_dependencies, Topological.sort_topologically in Esort.
      apply rbind_inv_ok in Esort as (order & _ & [= <-]). apply py_sorted_Permutation. }
    destruct (for_each_ind (λ pre w, w.2 = [] ∧ connections w.1 = connections (enter c z).1 ∧ all_restored (storage z) (storage w.1) pre)
      l (restore_entity c (path_of k)) ((enter c z).1, [])) as ([z1 script] & Hrun & Hs1 & Hc1 & Hall).
    + split; [done|]. split; [done|]. split; [constructor|done| |done]. by intros key [].
    + intros pre e post [z1 script] -> (Hs & Hc & Hall). cbn [fst snd] in *. subst script.
      rewrite <- Hp in Hes, Hid, Hu. apply Forall_app in Hes as [Hpre [He _]%Forall_cons].
      rewrite fmap_app in Hid. rewrite fmap_app in Hu. apply NoDup_app in Hid as (_ & Hid & _). apply NoDup_app in Hu as (_ & Hu & _).
      destruct (restore_entity_spec e z1 He) as (z2 & Hrun & Hc2 & Hr); [rewrite Hc; apply elem_of_app; right; by left|].
      exists (z2, []). split; [exact Hrun|]. split; [done|]. split; [cbn [fst]; by rewrite Hc2|]. apply (all_restored_snoc _ (storage z1)); [done|done| |done|done].
      apply Forall_forall. intros e' Hin. split; intros E;
        [apply (Hid (entity_id e'))|apply (Hu (entity_uuid e'))]; try (by apply list_elem_of_fmap_2); csimpl; rewrite <- E; by left.
    + cbn [fst snd] in *. subst script.
      assert ((sorted ← lift_res (Ok l); for_each sorted (restore_entity c (path_of k))) ((enter c z).1, []) = ((z1, []), Ok tt)) as Hbody.
      { by erewrite (bind_ok (lift_res _)) by reflexivity. }
      destruct (with_connection_run c _ z z1 _ Hbody) as (z2 & Hw & Hst & _); [rewrite Hc1; apply elem_of_app; right; by left|].
      exists z2. split; [exact Hw|]. rewrite Hst. destruct Hall as [Ho Hk Hf Ha]. split; [by rewrite <- Hp|done| |].
      * intros key Hkey. apply Hf in Hkey. apply Exists_exists in Hkey as (x & Hx & Hkey). apply Exists_exists. exists x. by rewrite <- Hp.
      * intros e He Hd. apply Ha; [done|]. by rewrite Hp.
  - destruct (with_connection_run c (sorted ← lift_res (Raise e : res (list AccessEntity)); for_each sorted (restore_entity c (path_of k))) z (enter c z).1 (Raise e))
      as (z2 & Hw & Hst & _); [done|apply elem_of_app; right; by left|].
    exists z2. split; [exact Hw|]. by rewrite Hst.
Qed.
End restoring.
(** ** Examples *)
Module Examples.
Definition access : Parts := ["";"clickhouse";"access"].
Definition user_id : string := "00000000-0000-0000-0000-100000000001".
Definition role_id : string := "00000000-0000-0000-0000-100000000002".
Definition user : AccessEntity := mkAccessEntity "U" user_id (bytes_of_string "jo.doe") (bytes_of_string "ATTACH USER `jo.doe`").
Definition role : AccessEntity :=
  mkAccessEntity "R" role_id (bytes_of_string "r") (bytes_of_string ("ATTACH ROLE r; ATTACH GRANT ID('" +:+ user_id +:+ "')")).

Definition source_requests : list (nat * request) :=
  [(2, Enter); (2, Create "/clickhouse/access/U/jo%2Edoe" user_id); (2, Create ("/clickhouse/access/uuid/" +:+ user_id) "ATTACH USER `jo.doe`")].
Definition source : client := others source_requests initial.
(** A node of another application is written meanwhile. *)
Definition script : list (list (nat * request)) := [[]; [(2, Create "/other" "z")]].

Lemma source_requests_ok : Forall (request_ok 1) source_requests.
Proof.
  repeat constructor; try done.
  - exists ["clickhouse";"access";"U";"jo%2Edoe"]. split; [done|]. by repeat constructor.
  - exists ["clickhouse";"access";"uuid";user_id]. split; [done|]. by repeat constructor.
Qed.

Lemma source_canonical : all_canonical (storage source).
Proof.
  apply (others_canonical 1); [apply source_requests_ok|]. intros k [v Hk]. cbn in Hk.
  apply lookup_singleton_Some in Hk as [<- _]. by exists [].
Qed.

Lemma access_canonical : canonical access.
Proof. exists ["clickhouse";"access"]. split; [done|]. by repeat constructor. Qed.

Lemma access_entities_consistent_witness :
  let r := retrieve_access_entities 1 9 (path_of access) (source, script) in
  r.2 = Ok [user] ∧ Forall2 (λ tn e, entity_at (storage r.1.1) access tn.1 tn.2 e) (entity_nodes (storage r.1.1) access) [user].
Proof.
  intros r. assert (r.2 = Ok [user]) as Hr by (vm_compute; reflexivity). split; [exact Hr|].
  apply (access_entities_consistent 1 9 access (source, script) r.1 [user]).
  - apply access_canonical.
  - constructor; [constructor|]. constructor; [|constructor]. constructor; [|constructor]. split; [done|].
    apply Forall_singleton. exists ["other"]. split; [done|]. by repeat constructor.
  - apply source_canonical.
  - fold r. destruct r as [w' x]. cbn in Hr. by rewrite Hr.
Defined.

Lemma access_entities_restored_witness :
  (∃ z', match access_entities_sorted_by_dependencies [role; user] with
        | Ok _ => restore_access_entities 1 (path_of access) [role; user] (source, []) = ((z', []), Ok tt) ∧
                  all_restored access (storage source) (storage z') [role; user]
        | Raise e => restore_access_entities 1 (path_of access) [role; user] (source, []) = ((z', []), Raise e) ∧ storage z' = storage source
        end) ∧
  access_entities_sorted_by_dependencies [role; user] = Ok [user; role] ∧
  absent access (storage source) role ∧ ¬ absent access (storage source) user.
Proof.
  split; [apply (access_entities_restored 1 access access_canonical source [role; user])|split; [vm_compute; reflexivity|]].
  - repeat constructor; try done; vm_compute; discriminate.
  - apply (bool_decide_unpack _). vm_compute. exact I.
  - apply (bool_decide_unpack _). vm_compute. exact I.
  - split; apply (bool_decide_unpack _); vm_compute; exact I.
Defined.
End Examples.
End ChAccess.
