(* ===== verification/ZooKeeperConfig.v ===== *)
(** * Where ZooKeeper is ([coordinator/plugins/zookeeper_config.py])

    The part of a plugin's configuration from which the client of ZooKeeper is
    built: the hosts it connects to and the user it authenticates as. *)

From stdpp Require Import base strings list.
From Stdlib Require Import ZArith.
From S2P Require Import Prelude ChClient.

Module ZooKeeperConfig.
Import ChClient.

Record ZooKeeperNode : Type := mkZooKeeperNode {
  zk_host : string;
  zk_port : Z;
}.
Record ZooKeeperConfigurationUser : Type := mkZooKeeperConfigurationUser {
  zk_username : string;
  zk_password : string;
}.
Record ZooKeeperConfiguration : Type := mkZooKeeperConfiguration {
  zk_nodes : list ZooKeeperNode;
  zk_user : option ZooKeeperConfigurationUser;
}.
(** The hosts and the user that the client connects with. *)
Definition get_zookeeper_client (configuration : ZooKeeperConfiguration) : list string * option (string * string) :=
  ((λ node, build_netloc (zk_host node) (Some (zk_port node))) <$> zk_nodes configuration,
   (λ u, (zk_username u, zk_password u)) <$> zk_user configuration).

End ZooKeeperConfig.
