(* ===== verification/StepFacts.v ===== *)
(** * What the steps of a plugin keep

    Lemmas shared by the plugins: the steps that talk to nodes keep the storage
    of manifests sound, results stay in the context of an attempt, and a
    manifest that was uploaded is stored. *)

From stdpp Require Import base gmap strings list.
From Stdlib Require Import ZArith Lia.
From S2P Require Import Prelude Progress Ipc Storage Op Steps UploadPlan NodeLock Cluster Datetime BackupRestore.

Local Open Scope Z_scope.

Module StepFacts.
Import Cluster BackupRestore.

Section kept.
Context {SJ SH SE B BH : Type} (json : StorageOps SJ B) `{!StorageSpec json}.
Local Notation W := (world SJ SH SE).

(** What an operation does to the storage of manifests. *)
Definition kept (w w' : W) : Prop := st_inv (ops:=json) (w_json w) → st_inv (ops:=json) (w_json w').
#[global] Instance kept_preorder : PreOrder kept.
Proof using Type. split; [intros w H; exact H|intros w1 w2 w3 H1 H2 H; by apply H2, H1]. Qed.

Definition keeping (st : Step SJ SH SE) : Prop := ∀ ctx w, kept w (fst (run_step st ctx w)).

Lemma on_env_kept {A} (m : M SE A) w : kept w (fst (on_env m w)).
Proof using Type. unfold on_env, zoom. destruct (m (w_env w)). intros H. exact H. Qed.
Lemma on_hex_kept {A} (m : M SH A) w : kept w (fst (on_hex m w)).
Proof using Type. unfold on_hex, zoom. destruct (m (w_hex w)). intros H. exact H. Qed.
Lemma lift_kept {A} (r : res A) w : kept w (fst (lift_res r w)).
Proof using Type. intros H. exact H. Qed.
Lemma ret_kept {A} (a : A) w : kept w (fst ((mret a : M W A) w)).
Proof using Type. intros H. exact H. Qed.
Lemma raise_kept {A} e w : kept w (fst ((raise e : M W A) w)).
Proof using Type. intros H. exact H. Qed.

Lemma completes_kept l ctx w ctx' w' : Forall keeping l → completes l ctx w ctx' w' → kept w w'.
Proof using Type.
  intros HF Hc. induction Hc as [|st l ctx w v w1 ctx1 ctx' w' _ Hrun _ _ IH]; [reflexivity|]. apply Forall_cons in HF as [Hst HF].
  etransitivity; [|by apply IH]. specialize (Hst ctx w). by rewrite Hrun in Hst.
Qed.

(** The nodes, when they are asked something or polled, do not break the storage. *)
Section nodes.
Context (env : ClusterEnv W) (cluster_nodes : list CoordinatorNode) (poll_config : PollConfig) (fuel : nat).
Context (progress_handler : option (Progress → M W unit)).

Class NodesKeep : Prop := {
  now_kept w : kept w (fst (env_now env w));
  sleep_kept d w : kept w (fst (env_sleep env d w));
  poll_kept url w : kept w (fst (env_poll env url w));
  env_request_kept node path req w : kept w (fst (env_request env node path req w));
}.
Class HandlerKeeps : Prop := handler_kept h p w : progress_handler = Some h → kept w (fst (h p w)).
Context `{!NodesKeep}.

Lemma wait_kept `{!HandlerKeeps} {NR} (decode : Body → res NR) progress start_results w :
  kept w (fst (wait env poll_config fuel progress_handler decode progress start_results w)).
Proof using All.
  unfold wait. apply (R_bind kept).
  - apply (wait_R env poll_config decode progress progress_handler kept); [apply now_kept|apply sleep_kept|apply poll_kept|apply handler_kept].
  - intros [l|] w1; reflexivity.
Qed.
Lemma request_kept url req reqs nodes w : kept w (fst (request env cluster_nodes url req reqs nodes w)).
Proof using All. apply (request_from_nodes_R env cluster_nodes kept), env_request_kept. Qed.
Lemma get_nodes_metadata_kept nodes w : kept w (fst (get_nodes_metadata env cluster_nodes nodes w)).
Proof using All.
  unfold get_nodes_metadata. apply (R_bind kept); [apply (request_from_nodes_R env cluster_nodes kept), env_request_kept|].
  intros rs w1. apply (R_collect kept). intros r w2. reflexivity.
Qed.
End nodes.
End kept.

Create HintDb kept.
#[export] Hint Resolve on_env_kept on_hex_kept lift_kept ret_kept raise_kept wait_kept get_nodes_metadata_kept request_kept : kept.

(** Through the binds of a step. *)
Ltac keep := repeat (first [progress auto with kept | match goal with |- kept ?j _ _ => apply (R_bind (kept j)) end; [solve [auto with kept]|intros ? ?] | case_decide]).
(** The steps of a list, one by one. *)
Ltac keep_steps := repeat (apply Forall_cons; split); try apply Forall_nil_2; try done; intros ? ?; simpl; try keep.

(** The step that restores files only asks the nodes and waits for them: what
    they preserve, it preserves. *)
Section restoring.
Context {SJ SH SE : Type}.
Local Notation W := (world SJ SH SE).
Context (env : ClusterEnv W) (cluster_nodes : list CoordinatorNode) (poll_config : PollConfig) (fuel : nat).
Context (progress_handler : option (Progress → M W unit)) (R : W → W → Prop) `{!PreOrder R}.
Context (HRnow : ∀ w, R w (fst (env_now env w))) (HRsleep : ∀ d w, R w (fst (env_sleep env d w)))
  (HRpoll : ∀ url w, R w (fst (env_poll env url w))) (HRhandler : ∀ h p w, progress_handler = Some h → R w (fst (h p w)))
  (HRrequest : ∀ node path req w, R w (fst (env_request env node path req w))).

Lemma start_restores_R storage_name backup_name partial srs l w :
  R w (fst (start_restores env cluster_nodes storage_name backup_name partial srs l w)).
Proof using HRrequest PreOrder0.
  revert w. induction l as [|[node i] l IH]; intros w; [reflexivity|]. cbn [start_restores]. apply (R_bind R); [reflexivity|].
  intros [[op req]|] w1; [|apply IH]. apply (R_bind R); [by apply (request_from_nodes_R env cluster_nodes R)|].
  intros rs w2. case_decide; [reflexivity|]. apply (R_bind R); [apply IH|]. intros; reflexivity.
Qed.

Lemma restore_step_R storage_name partial ctx w :
  R w (fst (run_step (RestoreStep env cluster_nodes poll_config fuel progress_handler storage_name partial) ctx w)).
Proof using All.
  cbn [run_step RestoreStep]. do 3 (apply (R_bind R); [reflexivity|intros ? ?]). case_decide; [reflexivity|].
  apply (R_bind R); [apply start_restores_R|]. intros [rs|] w1; [|reflexivity].
  apply (R_bind R); [|intros; reflexivity]. unfold wait. apply (R_bind R).
  - by apply (wait_R env poll_config _ _ progress_handler R).
  - intros [l|] w2; reflexivity.
Qed.
End restoring.

Section steps.
Context {SJ SH SE B BH : Type} (json : StorageOps SJ B) (hex : StorageOps SH BH) `{!ManifestCodec B} `{!StorageSpec json}.
Local Notation W := (world SJ SH SE).
Context (env : ClusterEnv W) (cluster_nodes : list CoordinatorNode) (poll_config : PollConfig) (fuel : nat).
Context (progress_handler : option (Progress → M W unit)) `{!NodesKeep json env} `{!HandlerKeeps json progress_handler}.

Lemma snapshot_value groups url nodes ctx (w w' : W) v :
  run_step (SnapshotStep env cluster_nodes poll_config fuel progress_handler groups url nodes) ctx w = (w', Ok v) → ∃ l, v = VSnapshots l.
Proof using Type.
  cbn [run_step SnapshotStep]. intros (w1 & md & _ & H)%bind_inv_ok. apply bind_inv_ok in H as (w2 & fs & _ & H).
  apply bind_inv_ok in H as (w3 & rs & _ & H). apply bind_inv_ok in H as (w4 & l & _ & H). injection H as _ <-. by exists l.
Qed.

Lemma snapshot_steps_keeping groups url nodes storage_name validate upload_url hexdigests_step :
  Forall (keeping json)
    [SnapshotStep env cluster_nodes poll_config fuel progress_handler groups url nodes; ListHexdigestsStep hex;
     UploadBlocksStep env cluster_nodes poll_config fuel progress_handler storage_name validate upload_url hexdigests_step].
Proof using NodesKeep0 HandlerKeeps0.
  keep_steps.
  unfold upload_node_index_datas. apply (R_bind (kept json)); [|intros; reflexivity].
  apply (R_bind (kept json)); [auto with kept|]. intros md w1.
  apply (R_bind (kept json)); [|intros; auto with kept]. apply (R_collect (kept json)). intros d w2. unfold start_upload. keep.
Qed.

(** ** Results of an attempt *)

(** The step changes neither the result of the class [c] nor when the attempt started. *)
Definition leaves (c : StepClass) (st : Step SJ SH SE) : Prop :=
  ∀ ctx, get_result (mutate_results st ctx) c = get_result ctx c ∧ attempt_start (mutate_results st ctx) = attempt_start ctx.

Lemma set_result_start c v ctx ctx1 : set_result c v ctx = Ok ctx1 → attempt_start ctx1 = attempt_start ctx.
Proof using Type. unfold set_result. destruct (dict_get _ _) as [old|]; [destruct (_ || _); [done|]|]; by intros [= <-]. Qed.

Lemma completes_leaves l ctx (w : W) ctx' w' c v :
  completes l ctx w ctx' w' → Forall (leaves c) l →
  attempt_start ctx' = attempt_start ctx ∧ (get_result ctx c = Ok v → is_VNone v = false → get_result ctx' c = Ok v).
Proof using Type.
  induction 1 as [|st l ctx w v1 w1 ctx1 ctx' w' _ _ Hset _ IH]; [done|]. intros [Hst HF]%Forall_cons.
  destruct (IH HF) as [Hstart Hkeep]. destruct (Hst ctx) as [Hres Hs]. split.
  - by rewrite Hstart, (set_result_start _ _ _ _ Hset).
  - intros Hg Hv. apply Hkeep; [|done]. apply set_result_spec in Hset as [_ Hset]. apply Hset; [by rewrite Hres|done].
Qed.

Lemma completes_result l1 st l2 ctx (w : W) ctx' w' :
  completes (l1 ++ st :: l2) ctx w ctx' w' →
  ∃ ctx1 w1 v w2, completes l1 ctx w ctx1 w1 ∧ run_step st ctx1 w1 = (w2, Ok v) ∧
    (Forall (leaves (step_class st)) l2 → is_VNone v = false → get_result ctx' (step_class st) = Ok v).
Proof using Type.
  intros (ctx1 & w1 & H1 & H2)%completes_app. apply completes_cons_inv in H2 as (v & w2 & ctx2 & Hrun & Hset & H2).
  exists ctx1, w1, v, w2. split; [done|]. split; [done|]. intros HF Hv. apply set_result_spec in Hset as [Hget _].
  by apply (completes_leaves _ _ _ _ _ _ v H2 HF).
Qed.

Lemma completes_app_intro l1 l2 ctx (w : W) ctx1 w1 ctx' w' :
  completes l1 ctx w ctx1 w1 → completes l2 ctx1 w1 ctx' w' → completes (l1 ++ l2) ctx w ctx' w'.
Proof using Type. intros Hc Hc2. induction Hc; [done|]. simpl. econstructor; eauto. Qed.

Lemma leaves_pure c l : Forall pure_step l → Forall (leaves c) l.
Proof using Type. intros HF. eapply Forall_impl; [exact HF|]. intros st Hst ctx. by rewrite Hst. Qed.

(** ** A manifest that was uploaded *)
Definition snapshots_of (snapshot_step : option StepClass) (ctx : StepsContext) : res (list SnapshotResult) :=
  match snapshot_step with Some c => get_snapshots ctx c | None => Ok [] end.

Lemma uploaded_manifest plugin plugin_step snapshot_step upload_step ctx (w w' : W) v data :
  get_result ctx plugin_step = Ok (VPluginData data) →
  st_inv (ops:=json) (w_json w) → (∀ m, st_value (ops:=json) (encode_manifest m)) →
  st_name (ops:=json) (make_backup_name JSON_BACKUP_PREFIX ctx) →
  run_step (UploadManifestStep json plugin (Some plugin_step) snapshot_step upload_step JSON_BACKUP_PREFIX) ctx w = (w', Ok v) →
  ∃ m, stored_manifest json (w_json w') (make_backup_name JSON_BACKUP_PREFIX ctx) m ∧ bm_plugin m = plugin ∧
    bm_plugin_data m = data ∧ snapshots_of snapshot_step ctx = Ok (bm_snapshot_results m).
Proof using Type.
  intros Hdata Hinv Hval Hname. simpl. unfold get_plugin_data. rewrite Hdata.
  intros (w1 & d & Hd & H)%bind_inv_ok. injection Hd as -> <-. apply bind_inv_ok in H as (w2 & srs & Hs & H). injection Hs as -> Hs.
  apply bind_inv_ok in H as (w3 & ups & Hu & H). injection Hu as -> Hu. apply bind_inv_ok in H as (w4 & t & Ht & H). injection Ht as <- <-.
  set (m := mkBackupManifest _ _ _ _ _ _ _ _) in H. apply bind_inv_ok in H as (w5 & u & Hup & H). injection H as -> _.
  destruct (st_upload_spec (w_json w3) _ (encode_manifest m) Hinv Hname (Hval m)) as (s' & Hs' & _ & Hlk).
  unfold on_json, zoom in Hup. cbn [skip_clock w_json] in Hup. rewrite Hs' in Hup. injection Hup as <- _. exists m.
  split; [|done]. exists (encode_manifest m). cbn [w_json]. rewrite Hlk, decide_True by done. split; [done|].
  split; [apply decode_encode|by left].
Qed.
End steps.
(** All the steps of a list only read the results of the others. *)
Ltac pure := apply leaves_pure; repeat (apply Forall_cons; split; [by intros ?|]); by apply Forall_nil_2.
End StepFacts.
