(* ===== verification/ChPlugin.v ===== *)
(** * The ClickHouse plugin ([coordinator/plugins/clickhouse/plugin.py] and
      the steps of [steps.py])

    The steps, each around the component that models what it does, and the
    lists of them that make a backup, a restore and a cleanup.  The ClickHouse
    servers and ZooKeeper are part of the environment of the nodes. *)

From stdpp Require Import base gmap strings list sorting.
From Stdlib Require Import ZArith NArith Lia Ascii Strings.Byte.
From Stdlib Require Strings.String.
From S2P Require Import Prelude Progress Ipc Storage Op PyText ChText Topological ChParts ChManifest Steps NodeLock.
From S2P Require Import ZooKeeperConfig Cluster BackupRestore StepFacts Cleanup Datetime Gather ZooKeeper Flink ZooKeeperConfig ChClient ChReplication ChSync ChDisks ChSteps ChAccess.

Local Open Scope Z_scope.

Module ChPlugin.
Import ZooKeeperConfig Cluster BackupRestore StepFacts Cleanup ChParts ChManifest ChClient ChReplication ChDisks ChSteps ChAccess.
Notation bytes_of_string := String.list_byte_of_string.

(** ** [ClickHousePlugin] *)
Record ClickHousePlugin : Type := mkClickHousePlugin {
  p_zookeeper : ZooKeeperConfiguration;
  p_clickhouse : ClickHouseConfiguration;
  p_replicated_access_zookeeper_path : string;
  p_replicated_databases_zookeeper_path : string;
  p_replicated_databases_settings : ReplicatedDatabaseSettings;
  p_freeze_name : string;
  p_disks : list DiskConfiguration;
  p_drop_databases_timeout : Float;
  p_max_concurrent_drop_databases_per_node : nat;
  p_create_databases_timeout : Float;
  p_max_concurrent_create_databases_per_node : nat;
  p_restart_replica_timeout : Float;
  p_max_concurrent_restart_replica_per_node : nat;
  p_restore_replica_timeout : Float;
  p_max_concurrent_restore_replica_per_node : nat;
  p_freeze_timeout : Float;
  p_unfreeze_timeout : Float;
  p_attach_timeout : Float;
  p_max_concurrent_attach_per_node : nat;
  p_sync_tables_timeout : Float;
  p_max_concurrent_sync_per_node : nat;
}.

Definition cls_ValidateConfigStep := cls_plugin "ValidateConfigStep".
Definition cls_GetVersionsStep := cls_plugin "GetVersionsStep".
Definition cls_RemoveFrozenTablesStep := cls_plugin "RemoveFrozenTablesStep".
Definition cls_RetrieveAccessEntitiesStep := cls_plugin "RetrieveAccessEntitiesStep".
Definition cls_RetrieveDatabasesAndTablesStep := cls_plugin "RetrieveDatabasesAndTablesStep".
Definition cls_RetrieveMacrosStep := cls_plugin "RetrieveMacrosStep".
Definition cls_FreezeTablesStep := cls_plugin "FreezeTablesStep".
Definition cls_UnfreezeTablesStep := cls_plugin "UnfreezeTablesStep".
Definition cls_PrepareClickHouseManifestStep := cls_plugin "PrepareClickHouseManifestStep".
Definition cls_RestoreReplicatedDatabasesStep := cls_plugin "RestoreReplicatedDatabasesStep".
Definition cls_ListDatabaseReplicasStep := cls_plugin "ListDatabaseReplicasStep".
Definition cls_SyncDatabaseReplicasStep := cls_plugin "SyncDatabaseReplicasStep".
Definition cls_RestoreAccessEntitiesStep := cls_plugin "RestoreAccessEntitiesStep".
Definition cls_RestoreReplicaStep := cls_plugin "RestoreReplicaStep".
Definition cls_AttachMergeTreePartsStep := cls_plugin "AttachMergeTreePartsStep".
Definition cls_SyncTableReplicasStep := cls_plugin "SyncTableReplicasStep".

Section steps.
Context {SJ SH SE B BH : Type} (json : StorageOps SJ B) (hex : StorageOps SH BH) `{!ManifestCodec B}.
Local Notation W := (world SJ SH SE).
Context (env : ClusterEnv W) (cluster_nodes : list CoordinatorNode) (poll_config : PollConfig) (fuel : nat).
Context (progress_handler : option (Progress → M W unit)).
Context (os : AsyncObjectStorage SE) (set_iter : gset string → list string).
(** JSON, as manifests are stored. *)
Context (encode_plugin_data : value → string) (decode_plugin_data : string → value).
(** The servers, the scheduler of coroutines, and the tokens they draw. *)
Context (execute : Request → M SE (list Row)) (pick : SE → nat → nat) (token_hex : SE → nat → nat → string).
(** The ZooKeeper that the environment has, the connection of a step, the
    number of its watch, and that of the first of the next watchers. *)
Context (zookeeper : SE → Flink.W) (set_zookeeper : Flink.W → SE → SE) (connection change_watch : nat) (next_watch : Flink.W → nat).
Definition on_zookeeper {A} (m : M Flink.W A) : M SE A := zoom zookeeper set_zookeeper m.

(** ** Steps of a backup *)
Definition ValidateConfigStep (conf : ClickHouseConfiguration) : Step SJ SH SE := mkStep cls_ValidateConfigStep (λ _,
  if decide (length (ChClient.nodes conf) ≠ length cluster_nodes) then raise StepFailedError else mret VNone).

Definition GetVersionsStep (clients : list nat) : Step SJ SH SE := mkStep cls_GetVersionsStep (λ _,
  l ← on_env (ChSteps.get_versions execute pick clients); mret (VVersions l)).

Definition RemoveFrozenTablesStep (clients : list nat) (freeze_name : string) (unfreeze_timeout : Float) : Step SJ SH SE :=
  mkStep cls_RemoveFrozenTablesStep (λ _,
  on_env (remove_frozen_tables execute pick token_hex clients freeze_name unfreeze_timeout) ;; mret VNone).

Definition RetrieveAccessEntitiesStep (access_entities_path : string) : Step SJ SH SE := mkStep cls_RetrieveAccessEntitiesStep (λ _,
  l ← on_env (on_zookeeper (retrieve_access_entities connection change_watch access_entities_path)); mret (VAccessEntities l)).

Definition RetrieveDatabasesAndTablesStep (clients : list nat) : Step SJ SH SE := mkStep cls_RetrieveDatabasesAndTablesStep (λ _,
  match clients with
  | [] => raise IndexError
  | client :: _ =>
      dt ← on_env (retrieve_databases_and_tables execute client);
      mret (VDatabasesAndTables dt.1 dt.2)
  end).

Definition RetrieveMacrosStep (clients : list nat) : Step SJ SH SE := mkStep cls_RetrieveMacrosStep (λ _,
  l ← on_env (retrieve_macros execute pick clients); mret (VMacros l)).

(** [FreezeUnfreezeTablesStepBase.run_step] *)
Definition freeze_unfreeze_step (operation : string) (clients : list nat) (freeze_name : string) (freeze_unfreeze_timeout : Float)
    (ctx : StepsContext) : M W StepValue :=
  dt ← lift_res (get_databases_and_tables ctx cls_RetrieveDatabasesAndTablesStep);
  versions ← lift_res (Steps.get_versions ctx cls_GetVersionsStep);
  on_env (freeze_unfreeze_tables execute pick token_hex operation clients freeze_name freeze_unfreeze_timeout versions dt.2) ;;
  mret VNone.
Definition FreezeTablesStep (clients : list nat) (freeze_name : string) (timeout : Float) : Step SJ SH SE :=
  mkStep cls_FreezeTablesStep (freeze_unfreeze_step "FREEZE" clients freeze_name timeout).
Definition UnfreezeTablesStep (clients : list nat) (freeze_name : string) (timeout : Float) : Step SJ SH SE :=
  mkStep cls_UnfreezeTablesStep (freeze_unfreeze_step "UNFREEZE" clients freeze_name timeout).

Definition prepare_clickhouse_manifest (ctx : StepsContext) : res ClickHouseManifest :=
  dt ← get_databases_and_tables ctx cls_RetrieveDatabasesAndTablesStep;
  entities ← get_access_entities ctx cls_RetrieveAccessEntitiesStep;
  files ← get_object_storage_files ctx cls_CollectObjectStorageFilesStep;
  Ok (mkClickHouseManifest V2 entities dt.1 dt.2 files).
Definition PrepareClickHouseManifestStep : Step SJ SH SE := mkStep cls_PrepareClickHouseManifestStep (λ ctx,
  manifest ← lift_res (prepare_clickhouse_manifest ctx);
  mret (VPluginData (encode_plugin_data (to_plugin_data manifest)))).

(** ** Steps of a restore *)
Definition RestoreReplicatedDatabasesStep (clients : list nat) (conf : RestoreDatabases) : Step SJ SH SE :=
  mkStep cls_RestoreReplicatedDatabasesStep (λ ctx,
  manifest ← lift_res (get_clickhouse_manifest ctx cls_ClickHouseManifestStep);
  on_env (restore_replicated_databases execute pick token_hex conf clients manifest) ;; mret VNone).

Definition ListDatabaseReplicasStep : Step SJ SH SE := mkStep cls_ListDatabaseReplicasStep (λ ctx,
  manifest ← lift_res (get_clickhouse_manifest ctx cls_ClickHouseManifestStep);
  server_macros ← lift_res (get_macros ctx cls_RetrieveMacrosStep);
  d ← lift_res (get_databases_replicas (replicated_databases manifest) server_macros);
  mret (VDatabasesReplicas d)).

(** [rounds] is for how long a database is waited for. *)
Definition sync_databases (zookeeper_path : string) (rounds : nat) (databases_replicas : list (list byte * list DatabaseReplica)) :
    M Flink.W unit :=
  Flink.with_connection connection
    (for_each (py_sorted (λ a b, bytes_leb a.1 b.1) databases_replicas) (λ dr,
      z ← get;
      ChSync.sync_replicated_database connection (next_watch z) (database_path zookeeper_path dr.1) dr.2 rounds)).
Definition SyncDatabaseReplicasStep (zookeeper_path : string) (rounds : nat) : Step SJ SH SE :=
  mkStep cls_SyncDatabaseReplicasStep (λ ctx,
  databases_replicas ← lift_res (get_databases_replicas_result ctx cls_ListDatabaseReplicasStep);
  on_env (on_zookeeper (sync_databases zookeeper_path rounds databases_replicas)) ;; mret VNone).

Definition RestoreAccessEntitiesStep (access_entities_path : string) : Step SJ SH SE := mkStep cls_RestoreAccessEntitiesStep (λ ctx,
  manifest ← lift_res (get_clickhouse_manifest ctx cls_ClickHouseManifestStep);
  on_env (on_zookeeper (restore_access_entities connection access_entities_path (access_entities manifest))) ;; mret VNone).

(** [connection.delete(path, recursive=True)] for each path *)
Definition delete_nodes (paths : list string) : M SE unit :=
  on_zookeeper (Flink.with_connection connection (for_each paths (λ path, Flink.call (ZooKeeper.delete_node connection path true)))).
Definition RestoreReplicaStep (clients : list nat) (conf : RestoreReplica) : Step SJ SH SE := mkStep cls_RestoreReplicaStep (λ ctx,
  manifest ← lift_res (get_clickhouse_manifest ctx cls_ClickHouseManifestStep);
  on_env (restore_replica execute pick token_hex delete_nodes conf clients manifest) ;; mret VNone).

Definition AttachMergeTreePartsStep (clients : list nat) (disks : list Disk) (attach_timeout : Float)
    (max_concurrent_attach_per_node : nat) : Step SJ SH SE := mkStep cls_AttachMergeTreePartsStep (λ ctx,
  backup_manifest ← lift_res (get_manifest ctx cls_BackupManifestStep);
  manifest ← lift_res (get_clickhouse_manifest ctx cls_ClickHouseManifestStep);
  on_env (attach_merge_tree_parts execute pick token_hex attach_timeout max_concurrent_attach_per_node clients disks
            (bm_snapshot_results backup_manifest) manifest) ;;
  mret VNone).

Definition SyncTableReplicasStep (clients : list nat) (sync_timeout : Float) (max_concurrent_sync_per_node : nat) : Step SJ SH SE :=
  mkStep cls_SyncTableReplicasStep (λ ctx,
  manifest ← lift_res (get_clickhouse_manifest ctx cls_ClickHouseManifestStep);
  on_env (sync_table_replicas execute pick token_hex sync_timeout max_concurrent_sync_per_node clients manifest) ;; mret VNone).

(** ** The lists of steps *)
Context (plugin : ClickHousePlugin) (sync_rounds : nat).

(** The clients by their position. *)
Definition clients : list nat := seq 0 (length (get_clickhouse_clients (p_clickhouse plugin))).

Definition preparation_steps : list (Step SJ SH SE) :=
  [ValidateConfigStep (p_clickhouse plugin);
   GetVersionsStep clients;
   RemoveFrozenTablesStep clients (p_freeze_name plugin) (p_unfreeze_timeout plugin);
   RetrieveAccessEntitiesStep (p_replicated_access_zookeeper_path plugin);
   RetrieveDatabasesAndTablesStep clients;
   RetrieveMacrosStep clients].
Definition snapshot_steps (storage_name : string) (disks : list Disk) : list (Step SJ SH SE) :=
  [SnapshotStep env cluster_nodes poll_config fuel progress_handler (get_snapshot_groups disks (bytes_of_string (p_freeze_name plugin)))
     "snapshot" None;
   ListHexdigestsStep hex;
   UploadBlocksStep env cluster_nodes poll_config fuel progress_handler storage_name false "upload" cls_ListHexdigestsStep].
Definition manifest_steps (disks : list Disk) : list (Step SJ SH SE) :=
  [CollectObjectStorageFilesStep disks;
   MoveFrozenPartsStep disks;
   PrepareClickHouseManifestStep;
   UploadManifestStep json clickhouse (Some cls_PrepareClickHouseManifestStep) (Some cls_SnapshotStep) (Some cls_UploadBlocksStep)
     JSON_BACKUP_PREFIX].

Definition clickhouse_backup_steps (storage_name : string) : res (list (Step SJ SH SE)) :=
  disks ← from_disk_configs (p_disks plugin) None;
  Ok (preparation_steps ++
      [FreezeTablesStep clients (p_freeze_name plugin) (p_freeze_timeout plugin)] ++
      snapshot_steps storage_name disks ++
      [UnfreezeTablesStep clients (p_freeze_name plugin) (p_unfreeze_timeout plugin)] ++
      manifest_steps disks).

Definition clickhouse_delta_backup_steps : res (list (Step SJ SH SE)) := Raise NotImplementedError.

Definition clickhouse_restore_steps (storage_name : string) (req : RestoreRequest) : res (list (Step SJ SH SE)) :=
  if nonempty (rr_partial_restore_nodes req) then Raise NotImplementedError
  else
    disks ← from_disk_configs (p_disks plugin) None;
    source_disks ← from_disk_configs (p_disks plugin) (Some storage_name);
    Ok [ValidateConfigStep (p_clickhouse plugin);
        BackupNameStep json (rr_name req);
        BackupManifestStep json;
        ClickHouseManifestStep decode_plugin_data;
        RetrieveMacrosStep clients;
        ListDatabaseReplicasStep;
        RestoreReplicatedDatabasesStep clients
          (mkRestoreDatabases (p_replicated_databases_zookeeper_path plugin) (p_replicated_databases_settings plugin)
             (p_drop_databases_timeout plugin) (p_max_concurrent_drop_databases_per_node plugin)
             (p_create_databases_timeout plugin) (p_max_concurrent_create_databases_per_node plugin));
        SyncDatabaseReplicasStep (p_replicated_databases_zookeeper_path plugin) sync_rounds;
        MapNodesStep cluster_nodes (rr_partial_restore_nodes req);
        RestoreStep env cluster_nodes poll_config fuel progress_handler storage_name (rr_partial_restore_nodes req);
        RestoreObjectStorageFilesStep os source_disks disks;
        AttachMergeTreePartsStep clients disks (p_attach_timeout plugin) (p_max_concurrent_attach_per_node plugin);
        SyncTableReplicasStep clients (p_sync_tables_timeout plugin) (p_max_concurrent_sync_per_node plugin);
        RestoreReplicaStep clients
          (mkRestoreReplica (p_restart_replica_timeout plugin) (p_max_concurrent_restart_replica_per_node plugin)
             (p_restore_replica_timeout plugin) (p_max_concurrent_restore_replica_per_node plugin));
        RestoreAccessEntitiesStep (p_replicated_access_zookeeper_path plugin)].

Definition clickhouse_cleanup_steps (retention : Retention) (explicit_delete : list string) : res (list (Step SJ SH SE)) :=
  disks ← from_disk_configs (p_disks plugin) None;
  Ok [ListBackupsStep json;
      ComputeKeptBackupsStep json set_iter retention explicit_delete false;
      DeleteBackupManifestsStep json set_iter;
      DeleteDanglingHexdigestsStep json hex set_iter;
      DeleteDanglingObjectStorageFilesStep json os set_iter decode_plugin_data disks].
(** ** The manifest of a backup *)
Section manifest.
Context `{!StorageSpec json} `{!NodesKeep json env} `{!HandlerKeeps json progress_handler}.

Lemma preparation_keeping : Forall (keeping json) preparation_steps.
Proof using Type. keep_steps. destruct clients; [reflexivity|simpl; keep]. Qed.

Lemma freeze_keeping operation name t ctx w : kept json w (fst (freeze_unfreeze_step operation clients name t ctx w)).
Proof using Type. unfold freeze_unfreeze_step. keep. Qed.

Lemma move_leaves disks c : c ≠ cls_SnapshotStep → leaves c (MoveFrozenPartsStep disks : Step SJ SH SE).
Proof using Type.
  intros Hc ctx. simpl. destruct (move_results disks ctx) as [ctx'|e] eqn:E; [|done]. unfold move_results in E.
  apply rbind_inv_ok in E as (srs & _ & E). apply rbind_inv_ok in E as (srs' & _ & [= <-]). split; [|done].
  unfold get_result. cbn [step_results]. unfold dict_set. by rewrite dict_get_alter_ne.
Qed.

(** *** What the steps return *)
Lemma retrieved_entities path ctx w w' v :
  run_step (RetrieveAccessEntitiesStep path) ctx w = (w', Ok v) →
  ∃ l, v = VAccessEntities l ∧ Forall (λ e, is_uuid (entity_uuid e) = true) l.
Proof using Type.
  simpl. intros (w1 & l & Hl & Hv)%bind_inv_ok. injection Hv as _ <-. exists l. split; [done|].
  unfold on_env, on_zookeeper, zoom in Hl. destruct (retrieve_access_entities _ _ _ _) as [z r] eqn:E. injection Hl as _ ->.
  by eapply retrieved_ids_ok.
Qed.

Lemma retrieved_databases ctx w w' v :
  run_step (RetrieveDatabasesAndTablesStep clients) ctx w = (w', Ok v) →
  ∃ databases ts, v = VDatabasesAndTables databases ts ∧
    ∀ entities files, Forall (λ x, is_uuid (entity_uuid x) = true) entities →
      let m := mkClickHouseManifest V2 entities databases ts files in from_plugin_data (to_plugin_data m) = Ok m.
Proof using Type.
  simpl. destruct clients as [|client rest]; [done|]. intros (w1 & [databases ts] & Hl & Hv)%bind_inv_ok. injection Hv as _ <-.
  exists databases, ts. split; [done|]. unfold on_env, zoom in Hl. destruct (retrieve_databases_and_tables _ _ _) as [e r] eqn:E.
  injection Hl as _ ->. intros entities files. by eapply retrieved_read_back.
Qed.

Lemma collected_files disks ctx (w w' : W) v :
  run_step (CollectObjectStorageFilesStep disks) ctx w = (w', Ok v) → w' = w ∧ ∃ files, v = VObjectStorageFiles files.
Proof using Type.
  simpl. intros (w1 & srs & Hs & H)%bind_inv_ok. apply bind_inv_ok in H as (w2 & files & Hf & H).
  injection Hs as -> _. injection Hf as -> _. injection H as -> <-. split; [done|by exists files].
Qed.

Lemma prepared_manifest ctx (w w' : W) v entities databases ts files :
  get_result ctx cls_RetrieveAccessEntitiesStep = Ok (VAccessEntities entities) →
  get_result ctx cls_RetrieveDatabasesAndTablesStep = Ok (VDatabasesAndTables databases ts) →
  get_result ctx cls_CollectObjectStorageFilesStep = Ok (VObjectStorageFiles files) →
  run_step PrepareClickHouseManifestStep ctx w = (w', Ok v) →
  w' = w ∧ v = VPluginData (encode_plugin_data (to_plugin_data (mkClickHouseManifest V2 entities databases ts files))).
Proof using Type.
  intros H1 H2 H3. simpl. intros (w1 & m & Hm & H)%bind_inv_ok. injection H as -> <-. injection Hm as -> Hm.
  unfold prepare_clickhouse_manifest, get_databases_and_tables, get_access_entities, get_object_storage_files in Hm.
  rewrite H2 in Hm. simpl in Hm. rewrite H1 in Hm. simpl in Hm. rewrite H3 in Hm. simpl in Hm. by injection Hm as <-.
Qed.

(** The steps of a backup before the manifest is prepared. *)
Definition gathering_steps (storage_name : string) (disks : list Disk) : list (Step SJ SH SE) :=
  preparation_steps ++
  [FreezeTablesStep clients (p_freeze_name plugin) (p_freeze_timeout plugin)] ++
  snapshot_steps storage_name disks ++
  [UnfreezeTablesStep clients (p_freeze_name plugin) (p_unfreeze_timeout plugin)] ++
  [CollectObjectStorageFilesStep disks; MoveFrozenPartsStep disks].

Lemma gathering_keeping storage_name disks : Forall (keeping json) (gathering_steps storage_name disks).
Proof using ManifestCodec0 NodesKeep0 HandlerKeeps0.
  unfold gathering_steps. rewrite !Forall_app. split; [apply preparation_keeping|].
  split; [apply Forall_singleton; intros ctx w; apply freeze_keeping|]. split; [by apply snapshot_steps_keeping|].
  split; [apply Forall_singleton; intros ctx w; apply freeze_keeping|]. keep_steps.
Qed.

(** All but [MoveFrozenPartsStep] leave everything. *)
Ltac leave := repeat (apply Forall_cons; split; [first [by intros ?|by apply move_leaves]|]); by apply Forall_nil_2.

Lemma gathered storage_name disks ctx w ctx' w' :
  completes (gathering_steps storage_name disks) ctx w ctx' w' →
  ∃ entities databases ts files,
    get_result ctx' cls_RetrieveAccessEntitiesStep = Ok (VAccessEntities entities) ∧
    get_result ctx' cls_RetrieveDatabasesAndTablesStep = Ok (VDatabasesAndTables databases ts) ∧
    get_result ctx' cls_CollectObjectStorageFilesStep = Ok (VObjectStorageFiles files) ∧
    attempt_start ctx' = attempt_start ctx ∧
    let m := mkClickHouseManifest V2 entities databases ts files in from_plugin_data (to_plugin_data m) = Ok m.
Proof using Type.
  intros Hc. unfold gathering_steps, preparation_steps, snapshot_steps in Hc. cbn [app] in Hc.
  assert (attempt_start ctx' = attempt_start ctx) as Hstart.
  { apply (completes_leaves _ _ _ _ _ cls_ListHexdigestsStep VNone Hc). leave. }
  pose proof (completes_result [_; _; _] _ _ _ _ _ _ Hc) as (c1 & w1 & v1 & w1' & _ & Hr1 & Hg1).
  pose proof (completes_result [_; _; _; _] _ _ _ _ _ _ Hc) as (c2 & w2 & v2 & w2' & _ & Hr2 & Hg2).
  pose proof (completes_result [_; _; _; _; _; _; _; _; _; _; _] _ _ _ _ _ _ Hc) as (c3 & w3 & v3 & w3' & _ & Hr3 & Hg3).
  apply retrieved_entities in Hr1 as (entities & -> & Hids). apply retrieved_databases in Hr2 as (databases & ts & -> & Hback).
  apply collected_files in Hr3 as (_ & files & ->). exists entities, databases, ts, files.
  split; [apply Hg1; [leave|done]|]. split; [apply Hg2; [leave|done]|]. split; [apply Hg3; [leave|done]|].
  split; [done|]. by apply Hback.
Qed.

(** C12: A backup that completes has stored, under the name of the attempt, a
    manifest of this plugin from which a restore works with exactly the access
    entities, databases and tables and the object storage files that the steps of
    the backup retrieved and collected, and with the snapshots as they are after
    the frozen parts were renamed.  The nodes are assumed not to damage the
    storage of manifests, and JSON to give back the data it was given. *)
Theorem clickhouse_manifest_stored (storage_name : string) (steps : list (Step SJ SH SE)) ctx w ctx' w' :
  st_inv (ops:=json) (w_json w) → (∀ m, st_value (ops:=json) (encode_manifest m)) →
  let name := make_backup_name JSON_BACKUP_PREFIX ctx in
  st_name (ops:=json) name →
  clickhouse_backup_steps storage_name = Ok steps → completes steps ctx w ctx' w' →
  ∃ m entities databases ts files,
    stored_manifest json (w_json w') name m ∧ bm_plugin m = clickhouse ∧
    get_snapshots ctx' cls_SnapshotStep = Ok (bm_snapshot_results m) ∧
    get_result ctx' cls_RetrieveAccessEntitiesStep = Ok (VAccessEntities entities) ∧
    get_result ctx' cls_RetrieveDatabasesAndTablesStep = Ok (VDatabasesAndTables databases ts) ∧
    get_result ctx' cls_CollectObjectStorageFilesStep = Ok (VObjectStorageFiles files) ∧
    let pm := mkClickHouseManifest V2 entities databases ts files in
    (decode_plugin_data (encode_plugin_data (to_plugin_data pm)) = to_plugin_data pm →
     ∀ ctx2 (w2 : W), get_manifest ctx2 cls_BackupManifestStep = Ok (set_filename name m) →
       run_step (ClickHouseManifestStep decode_plugin_data) ctx2 w2 = (w2, Ok (VClickHouseManifest pm))).
Proof using ManifestCodec0 NodesKeep0 HandlerKeeps0.
  intros Hinv Hval name Hname (disks & _ & [= <-])%rbind_inv_ok Hc.
  change (completes (gathering_steps storage_name disks ++ [PrepareClickHouseManifestStep;
    UploadManifestStep json clickhouse (Some cls_PrepareClickHouseManifestStep) (Some cls_SnapshotStep) (Some cls_UploadBlocksStep)
      JSON_BACKUP_PREFIX]) ctx w ctx' w') in Hc.
  apply completes_app in Hc as (ctx1 & w1 & Hgather & Hc).
  destruct (gathered _ _ _ _ _ _ Hgather) as (entities & databases & ts & files & Hg1 & Hg2 & Hg3 & Hstart & Hback).
  pose proof (completes_kept json _ _ _ _ _ (gathering_keeping _ _) Hgather Hinv) as Hinv1.
  assert (∀ c v, get_result ctx1 c = Ok v → is_VNone v = false → get_result ctx' c = Ok v) as Hkeep.
  { intros c v. apply (completes_leaves _ _ _ _ _ c v Hc). leave. }
  apply completes_cons_inv in Hc as (v & w2 & ctx2 & Hprep & Hset & Hc).
  apply (prepared_manifest _ _ _ _ _ _ _ _ Hg1 Hg2 Hg3) in Hprep as [-> ->].
  pose proof (set_result_start _ _ _ _ Hset) as Hstart2. apply set_result_spec in Hset as [Hdata Hold].
  apply completes_cons_inv in Hc as (v & w3 & ctx3 & Hup & Hset & Hc). inversion Hc; subst.
  assert (make_backup_name JSON_BACKUP_PREFIX ctx2 = name) as Hn.
  { unfold make_backup_name, name. rewrite Hstart2. simpl. by rewrite Hstart. }
  apply (uploaded_manifest json _ _ _ _ _ _ _ _ _ Hdata Hinv1 Hval) in Hup as (m & Hst & Hp & Hpd & Hsn); [|by rewrite Hn].
  rewrite Hn in Hst. exists m, entities, databases, ts, files. split; [done|]. split; [done|]. split.
  { unfold snapshots_of, get_snapshots in *. destruct (get_result ctx2 cls_SnapshotStep) as [x|] eqn:E; [|done].
    apply set_result_spec in Hset as [_ Hset]. destruct x; try done. rewrite (Hset _ _ E eq_refl). exact Hsn. }
  split; [by apply Hkeep|]. split; [by apply Hkeep|]. split; [by apply Hkeep|]. intros pm Hjson ctx4 w4 Hm.
  assert (bm_plugin_data (set_filename name m) = encode_plugin_data (to_plugin_data pm)) as Hd by by destruct m.
  cbn [run_step ClickHouseManifestStep]. rewrite Hm. erewrite (bind_ok (lift_res _)) by reflexivity.
  rewrite Hd, Hjson. unfold pm. rewrite Hback. by erewrite (bind_ok (lift_res _)) by reflexivity.
Qed.
End manifest.
(** ** Tables are frozen while they are snapshotted *)
Section freezing.
Context (log : SE → list (Request * option exn)).
Context (execute_logged : ∀ r e e' x, execute r e = (e', x) → log e' = log e ++ [(r, ChSteps.outcome x)]).

Lemma freeze_step_ok operation name timeout ctx (w w' : W) v databases ts versions :
  get_result ctx cls_RetrieveDatabasesAndTablesStep = Ok (VDatabasesAndTables databases ts) →
  get_result ctx cls_GetVersionsStep = Ok (VVersions versions) →
  freeze_unfreeze_step operation clients name timeout ctx w = (w', Ok v) →
  ∃ targets l, freezing versions clients targets ∧ log (w_env w') = log (w_env w) ++ l ∧
    asked_in_turn timeout (freeze_query operation name timeout <$> to_freeze ts) targets (Ok tt) l.
Proof using execute_logged.
  intros H1 H2. unfold freeze_unfreeze_step, get_databases_and_tables, Steps.get_versions. rewrite H1, H2. cbn [mbind res_bind].
  erewrite (bind_ok (lift_res _)) by reflexivity. erewrite (bind_ok (lift_res _)) by reflexivity.
  intros (w1 & [] & Hrun & Hv)%bind_inv_ok. injection Hv as -> _. unfold on_env, zoom in Hrun.
  destruct (freeze_unfreeze_tables _ _ _ _ _ _ _ _ _ _) as [e r] eqn:E. injection Hrun as <- ->.
  apply (freeze_spec execute log execute_logged) in E as [(_ & ? & _)|(targets & l & H)]; [done|by exists targets, l].
Qed.

Lemma retrieved_versions ctx w w' v :
  run_step (GetVersionsStep clients) ctx w = (w', Ok v) → ∃ versions, v = VVersions versions.
Proof using Type. simpl. intros (w1 & l & _ & Hv)%bind_inv_ok. injection Hv as _ <-. by exists l. Qed.

Lemma after_preparation c storage_name disks : c ≠ cls_SnapshotStep →
  Forall (leaves c) ([FreezeTablesStep clients (p_freeze_name plugin) (p_freeze_timeout plugin)] ++ snapshot_steps storage_name disks ++
    [UnfreezeTablesStep clients (p_freeze_name plugin) (p_unfreeze_timeout plugin)] ++ manifest_steps disks).
Proof using Type.
  intros Hcs. unfold snapshot_steps, manifest_steps. cbn [app].
  repeat (apply Forall_cons; split; [first [by intros ?|by apply move_leaves]|]). by apply Forall_nil_2.
Qed.

Lemma freeze_then_snapshot storage_name disks ctx (w : W) ctx1 w1 ctx2 w2 c v :
  completes [FreezeTablesStep clients (p_freeze_name plugin) (p_freeze_timeout plugin)] ctx w ctx1 w1 →
  completes (snapshot_steps storage_name disks) ctx1 w1 ctx2 w2 →
  get_result ctx c = Ok v → is_VNone v = false → get_result ctx2 c = Ok v.
Proof using Type.
  intros H1 H2 Hg Hv. eapply completes_keeps; [exact H2| | |exact Hv].
  - unfold snapshot_steps. repeat (apply Forall_cons; split; [by intros ?|]). by apply Forall_nil_2.
  - eapply completes_keeps; [exact H1| |exact Hg|exact Hv]. apply Forall_singleton. by intros ?.
Qed.

(** C13: A backup that completes splits, in this order, into the steps that
    prepare it, the freezing of the tables, the snapshot with its upload, the unfreezing, and the
    steps that make the manifest, on the configured disks.  The tables and the versions of the servers are
    known before tables are frozen.  Freezing asks every server that has to freeze tables, and
    gets its answer, for each table of the MergeTree family that was retrieved, and nothing else; after the snapshot was
    taken and uploaded the same servers are asked to unfreeze the same tables. *)
Theorem snapshot_of_frozen_tables (storage_name : string) (steps : list (Step SJ SH SE)) ctx w ctx' w' :
  clickhouse_backup_steps storage_name = Ok steps → completes steps ctx w ctx' w' →
  ∃ disks ctx1 (w1 : W) ctx2 (w2 : W) ctx3 (w3 : W) ctx4 (w4 : W),
    from_disk_configs (p_disks plugin) None = Ok disks ∧
    completes preparation_steps ctx w ctx1 w1 ∧
    completes [FreezeTablesStep clients (p_freeze_name plugin) (p_freeze_timeout plugin)] ctx1 w1 ctx2 w2 ∧
    completes (snapshot_steps storage_name disks) ctx2 w2 ctx3 w3 ∧
    completes [UnfreezeTablesStep clients (p_freeze_name plugin) (p_unfreeze_timeout plugin)] ctx3 w3 ctx4 w4 ∧
    completes (manifest_steps disks) ctx4 w4 ctx' w' ∧
    ∃ databases ts versions targets l1 l2,
      get_result ctx1 cls_RetrieveDatabasesAndTablesStep = Ok (VDatabasesAndTables databases ts) ∧
      get_result ctx' cls_RetrieveDatabasesAndTablesStep = Ok (VDatabasesAndTables databases ts) ∧
      get_result ctx1 cls_GetVersionsStep = Ok (VVersions versions) ∧
      freezing versions clients targets ∧
      log (w_env w2) = log (w_env w1) ++ l1 ∧
      asked_in_turn (p_freeze_timeout plugin) (freeze_query "FREEZE" (p_freeze_name plugin) (p_freeze_timeout plugin) <$> to_freeze ts)
        targets (Ok tt) l1 ∧
      log (w_env w4) = log (w_env w3) ++ l2 ∧
      asked_in_turn (p_unfreeze_timeout plugin) (freeze_query "UNFREEZE" (p_freeze_name plugin) (p_unfreeze_timeout plugin) <$> to_freeze ts)
        targets (Ok tt) l2.
Proof using execute_logged.
  intros (disks & Hdisks & Hsteps)%rbind_inv_ok Hc.
  assert (preparation_steps ++ [FreezeTablesStep clients (p_freeze_name plugin) (p_freeze_timeout plugin)] ++
    snapshot_steps storage_name disks ++ [UnfreezeTablesStep clients (p_freeze_name plugin) (p_unfreeze_timeout plugin)] ++
    manifest_steps disks = steps) as Hs by congruence. rewrite <- Hs in Hc. clear Hs Hsteps.
  apply completes_app in Hc as (ctx1 & w1 & Hprep & Hc). pose proof Hprep as Hprep'.
  unfold preparation_steps in Hprep.
  pose proof (completes_result [_; _; _; _] _ _ _ _ _ _ Hprep) as (c1 & u1 & v1 & u1' & _ & Hr1 & Hg1).
  pose proof (completes_result [_] _ _ _ _ _ _ Hprep) as (c2 & u2 & v2 & u2' & _ & Hr2 & Hg2).
  apply retrieved_databases in Hr1 as (databases & ts & -> & _). apply retrieved_versions in Hr2 as (versions & ->).
  specialize (Hg1 ltac:(pure) eq_refl). specialize (Hg2 ltac:(pure) eq_refl). cbn [step_class] in *.
  assert (∀ c v, get_result ctx1 c = Ok v → is_VNone v = false → c ≠ cls_SnapshotStep → get_result ctx' c = Ok v) as Hkeep.
  { intros c v Hgc Hv Hcs. by apply (completes_leaves _ _ _ _ _ c v Hc (after_preparation c storage_name disks Hcs)). }
  apply completes_app in Hc as (ctx2 & w2 & Hfreeze & Hc). apply completes_app in Hc as (ctx3 & w3 & Hsnap & Hc).
  apply completes_app in Hc as (ctx4 & w4 & Hunfreeze & Hlast).
  pose proof (freeze_then_snapshot _ _ _ _ _ _ _ _ _ _ Hfreeze Hsnap Hg1 eq_refl) as Hg3.
  pose proof (freeze_then_snapshot _ _ _ _ _ _ _ _ _ _ Hfreeze Hsnap Hg2 eq_refl) as Hg4.
  exists disks, ctx1, w1, ctx2, w2, ctx3, w3, ctx4, w4. do 6 (split; [done|]).
  apply completes_cons_inv in Hfreeze as (v3 & w2' & c3 & Hf & _ & Hnil). inversion Hnil; subst. clear Hnil.
  apply completes_cons_inv in Hunfreeze as (v4 & w4' & c4 & Hu & _ & Hnil). inversion Hnil; subst. clear Hnil.
  destruct (freeze_step_ok _ _ _ _ _ _ _ _ _ _ Hg1 Hg2 Hf) as (targets & l1 & Hf1 & Hl1 & Ha1).
  destruct (freeze_step_ok _ _ _ _ _ _ _ _ _ _ Hg3 Hg4 Hu) as (targets' & l2 & Hf2 & Hl2 & Ha2).
  rewrite (freezing_unique _ _ _ _ Hf2 Hf1) in Ha2.
  exists databases, ts, versions, targets, l1, l2. split; [done|]. split; [by apply Hkeep|]. done.
Qed.
End freezing.
End steps.
(** ** A cluster of one node, with one server and the ZooKeeper of another example *)
Module Examples.
#[local] Existing Instance identity_codec.
Notation SE := (list (Request * option exn) * Flink.W)%type.
Notation example_W := (world (gmap string BackupManifest) (gmap string string) SE).

Definition snapshot : SnapshotResult :=
  mkSnapshotResult "host" "az" (mkProgress 0 0 0 true) 0 None (Some (mkSnapshotState ["shadow/astacus/store/**/*"] [])) 0 0 (Some []).
Definition env_request_of (node : CoordinatorNode) (path : Path) (req : NodeRequest) : M example_W Reply := λ w,
  (w, Ok (match path with
          | PPath "metadata" => Cluster.Replied 200 (Some (BMetadata (mkMetadataResult "1" (feature_value <$> all_features))))
          | PPath "snapshot" => Cluster.Replied 200 (Some (BStart 1 "s"))
          | PPath "upload" => Cluster.Replied 200 (Some (BStart 2 "u"))
          | _ => Cluster.HttpFailure
          end)).
Definition env : ClusterEnv example_W := {|
  env_request := env_request_of;
  env_poll url := mret (Some (if decide (url = "s") then BSnapshot snapshot
                              else BUpload (mkSnapshotUploadResult "host" "az" (mkProgress 0 0 0 true) 0 0)));
  env_now := mret 0;
  env_sleep _ := mret tt;
|}.

(** The server of an example of the queries, which also unfreezes and freezes. *)
Definition execute (r : Request) : M SE (list Row) := λ e,
  let x := ChSteps.Examples.answers (client r) (query r) in ((e.1 ++ [(r, ChSteps.outcome x)], e.2), x).
Definition zookeeper : Flink.W := (ChAccess.Examples.source, []).
Definition plugin : ClickHousePlugin :=
  mkClickHousePlugin (mkZooKeeperConfiguration [] None) (mkClickHouseConfiguration None None [mkClickHouseNode "host" 8123])
    "/clickhouse/access" "/clickhouse/databases" ChSteps.Examples.no_settings "astacus"
    [mkDiskConfiguration local [] "default" None] "300.0" 10 "60.0" 10 "300.0" 10 "3600.0" 10 "3600.0" "3600.0" "300.0" 10 "3600.0" 10.
Definition start_world : example_W := mkWorld ∅ ∅ ([], zookeeper) (λ _, 1000000) Op.initial false.
Definition retrieved : ClickHouseManifest :=
  mkClickHouseManifest V2 [ChAccess.Examples.user] [ChSteps.Examples.retrieved_database] [ChSteps.Examples.retrieved_table] [].
Definition manifest_ops : StorageOps (gmap string BackupManifest) BackupManifest := FileStorage.json_ops (λ _, false).
Definition backup_steps : res (list (Step (gmap string BackupManifest) (gmap string string) SE)) :=
  clickhouse_backup_steps manifest_ops FileStorage.hexdigest_ops env [mkCoordinatorNode "n" "az"] (mkPollConfig 1 2 60 10 5) 3 None
    (λ _, "{}") execute (λ _ n, n - 1)%nat (λ _ _ _, "s") snd (λ z e, (e.1, z)) 1 9 plugin "st".
Definition steps : list (Step (gmap string BackupManifest) (gmap string string) SE) :=
  match backup_steps with Ok l => l | Raise _ => [] end.
Definition backup := try_run steps (mkStepsContext 1 0 []) start_world.

Definition succeeded {A} (r : res (A * bool)) : bool := match r with Ok (_, b) => b | Raise _ => false end.
Example backup_succeeds : succeeded (snd backup) = true.
Proof. vm_compute. reflexivity. Qed.

Lemma backup_completes : ∃ ctx', completes steps (mkStepsContext 1 0 []) start_world ctx' (fst backup).
Proof.
  pose proof backup_succeeds as H. destruct (snd backup) as [[ctx' b]|e] eqn:E; [|discriminate H]. simpl in H. subst b.
  exists ctx'. apply try_run_true_iff. unfold backup in *. rewrite <- E. apply surjective_pairing.
Qed.

Lemma steps_ok : backup_steps = Ok steps.
Proof. unfold steps. assert (backup_steps = Ok match backup_steps with Ok l => l | Raise _ => [] end) as H by reflexivity. exact H. Qed.

Lemma execute_logged r e e' x : execute r e = (e', x) → e'.1 = e.1 ++ [(r, ChSteps.outcome x)].
Proof. by intros [= <- <-]. Qed.

#[local] Instance example_nodes_keep : NodesKeep manifest_ops env.
Proof. split; [intros w H|intros d w H|intros url w H|intros node path req w H]; exact H. Qed.
#[local] Instance no_handler_keeps : HandlerKeeps manifest_ops (None : option (Progress → M example_W unit)).
Proof. intros h p w H. discriminate H. Qed.

Lemma clickhouse_manifest_stored_witness :
  ∃ ctx' m entities databases ts files,
    stored_manifest manifest_ops (w_json (fst backup)) "backup-1970-01-01T00:00:00+00:00" m ∧ bm_plugin m = clickhouse ∧
    get_snapshots ctx' cls_SnapshotStep = Ok (bm_snapshot_results m) ∧
    get_result ctx' cls_RetrieveAccessEntitiesStep = Ok (VAccessEntities entities) ∧
    get_result ctx' cls_RetrieveDatabasesAndTablesStep = Ok (VDatabasesAndTables databases ts) ∧
    get_result ctx' cls_CollectObjectStorageFilesStep = Ok (VObjectStorageFiles files) ∧
    let pm := mkClickHouseManifest V2 entities databases ts files in
    (to_plugin_data retrieved = to_plugin_data pm →
     ∀ ctx2 (w2 : example_W), get_manifest ctx2 cls_BackupManifestStep = Ok (set_filename "backup-1970-01-01T00:00:00+00:00" m) →
       run_step (ClickHouseManifestStep (λ _, to_plugin_data retrieved)) ctx2 w2 = (w2, Ok (VClickHouseManifest pm))).
Proof.
  destruct backup_completes as [ctx' Hc]. exists ctx'.
  apply (clickhouse_manifest_stored manifest_ops FileStorage.hexdigest_ops env [mkCoordinatorNode "n" "az"] (mkPollConfig 1 2 60 10 5) 3 None
    (λ _, "{}") (λ _, to_plugin_data retrieved) execute (λ _ n, n - 1)%nat (λ _ _ _, "s") snd (λ z e, (e.1, z)) 1 9 plugin) with (steps := steps) (w := start_world) (storage_name := "st") (ctx := mkStepsContext 1 0 []).
  - by intros f b _.
  - done.
  - done.
  - apply steps_ok.
  - exact Hc.
Defined.

Lemma snapshot_of_frozen_tables_witness :
  ∃ (ctx' : StepsContext) disks ctx1 (w1 : example_W) ctx2 (w2 : example_W) ctx3 (w3 : example_W) ctx4 (w4 : example_W),
    from_disk_configs (p_disks plugin) None = Ok disks ∧
    completes (preparation_steps [mkCoordinatorNode "n" "az"] execute (λ _ n, n - 1)%nat (λ _ _ _, "s") snd (λ z e, (e.1, z)) 1 9 plugin) (mkStepsContext 1 0 []) start_world ctx1 w1 ∧
    completes [FreezeTablesStep execute (λ _ n, n - 1)%nat (λ _ _ _, "s") [0%nat] "astacus" "3600.0"] ctx1 w1 ctx2 w2 ∧
    completes (snapshot_steps FileStorage.hexdigest_ops env [mkCoordinatorNode "n" "az"] (mkPollConfig 1 2 60 10 5) 3 None plugin "st" disks)
      ctx2 w2 ctx3 w3 ∧
    completes [UnfreezeTablesStep execute (λ _ n, n - 1)%nat (λ _ _ _, "s") [0%nat] "astacus" "3600.0"] ctx3 w3 ctx4 w4 ∧
    completes (manifest_steps manifest_ops (λ _, "{}") disks) ctx4 w4 ctx' (fst backup) ∧
    ∃ databases ts versions targets l1 l2,
      get_result ctx1 cls_RetrieveDatabasesAndTablesStep = Ok (VDatabasesAndTables databases ts) ∧
      get_result ctx' cls_RetrieveDatabasesAndTablesStep = Ok (VDatabasesAndTables databases ts) ∧
      get_result ctx1 cls_GetVersionsStep = Ok (VVersions versions) ∧
      freezing versions [0%nat] targets ∧
      fst (w_env w2) = fst (w_env w1) ++ l1 ∧
      asked_in_turn "3600.0" (freeze_query "FREEZE" "astacus" "3600.0" <$> to_freeze ts) targets (Ok tt) l1 ∧
      fst (w_env w4) = fst (w_env w3) ++ l2 ∧
      asked_in_turn "3600.0" (freeze_query "UNFREEZE" "astacus" "3600.0" <$> to_freeze ts) targets (Ok tt) l2.
Proof.
  destruct backup_completes as [ctx' Hc]. exists ctx'.
  apply (snapshot_of_frozen_tables manifest_ops FileStorage.hexdigest_ops env [mkCoordinatorNode "n" "az"] (mkPollConfig 1 2 60 10 5) 3 None
    (λ _, "{}") execute (λ _ n, n - 1)%nat (λ _ _ _, "s") snd (λ z e, (e.1, z)) 1 9 plugin fst execute_logged "st" steps (mkStepsContext 1 0 []) start_world ctx' (fst backup)).
  - apply steps_ok.
  - exact Hc.
Defined.
End Examples.
End ChPlugin.
