(* ===== verification/M3Placement.v ===== *)
(** * Placements of M3 ([common/m3placement.py], [proto/m3_placement.proto])

    A placement says which shards each node of M3 has.  On a restore the nodes
    that made the backup are replaced in it by those that restore it, one
    after the other, in place.  Parsing and serialising a protocol buffer is
    the generated code's and a parameter; the map of instances behaves as maps
    of messages do: looking up a key that is not there creates it. *)

From stdpp Require Import base gmap strings list.
From Stdlib Require Import ZArith NArith Lia Ascii Strings.Byte.
From S2P Require Import Prelude.

Module M3Placement.

(** ** Messages *)
Inductive ShardState : Type := INITIALIZING | AVAILABLE | LEAVING.
Record Shard : Type := mkShard {
  shard_id : N;
  shard_state : ShardState;
  source_id : string;
  cutover_nanos : Z;
  cutoff_nanos : Z;
}.
Record Instance_ : Type := mkInstance {
  id : string;
  isolation_group : string;
  zone : string;
  weight : N;
  i_endpoint : string;
  shards : list Shard;
  shard_set_id : N;
  i_hostname : string;
  port : N;
  metadata : option N;
}.
Record Placement : Type := mkPlacement {
  instances : gmap string Instance_;
  replica_factor : N;
  num_shards : N;
  is_sharded : bool;
  cutover_time : Z;
  is_mirrored : bool;
  max_shard_set_id : N;
}.
Definition default_instance : Instance_ := mkInstance "" "" "" 0 "" [] 0 "" 0 None.
Definition set_instances (m : gmap string Instance_) (p : Placement) : Placement :=
  mkPlacement m (replica_factor p) (num_shards p) (is_sharded p) (cutover_time p) (is_mirrored p) (max_shard_set_id p).

(** ** [M3PlacementNode]

    A [str] is represented by its UTF-8 encoding; its length counts the bytes
    that do not continue a character. *)
Definition MAXIMUM_PROTOBUF_STR_LENGTH : N := 127.
Definition starts_character (c : ascii) : bool := negb ((128 <=? N_of_ascii c)%N && (N_of_ascii c <? 192)%N).
Fixpoint str_len (s : string) : N :=
  match s with
  | EmptyString => 0
  | String c s' => (if starts_character c then 1 else 0) + str_len s'
  end.
Definition non_empty_and_sane_length (value : string) : res string :=
  if (str_len value =? 0)%N then Raise ValueError
  else if (MAXIMUM_PROTOBUF_STR_LENGTH <? str_len value)%N then Raise ValueError
  else Ok value.

Record M3PlacementNode : Type := mkM3PlacementNode {
  node_id : string;
  endpoint : string;
  hostname : string;
}.
(** The constructor runs the validators of its fields. *)
Definition validated (n : M3PlacementNode) : res M3PlacementNode :=
  i ← non_empty_and_sane_length (node_id n);
  e ← non_empty_and_sane_length (endpoint n);
  h ← non_empty_and_sane_length (hostname n);
  Ok (mkM3PlacementNode i e h).

Record M3PlacementNodeReplacement : Type := mkReplacement {
  src_pnode : M3PlacementNode;
  dst_pnode : M3PlacementNode;
  dst_isolation_group : string;
}.

(** ** [rewrite_single_m3_placement_node]: the instance is changed in the map,
    removed from it, and copied to where the new id belongs. *)
Definition moved_instance (r : M3PlacementNodeReplacement) (i : Instance_) : Instance_ :=
  mkInstance (node_id (dst_pnode r))
    (if decide (dst_isolation_group r ≠ "") then dst_isolation_group r else isolation_group i)
    (zone i) (weight i) (endpoint (dst_pnode r)) (shards i) (shard_set_id i) (hostname (dst_pnode r)) (port i) (metadata i).

Definition rewrite_instances (m : gmap string Instance_) (r : M3PlacementNodeReplacement) : gmap string Instance_ :=
  let instance := default default_instance (m !! node_id (src_pnode r)) in
  let m := <[node_id (src_pnode r) := moved_instance r instance]> m in
  let m := delete (node_id (src_pnode r)) m in
  <[node_id (dst_pnode r) := moved_instance r instance]> m.

Definition rewrite_single_m3_placement_node (placement : Placement) (r : M3PlacementNodeReplacement) : Placement :=
  set_instances (rewrite_instances (instances placement) r) placement.

Section bytes.
Context (parse : list byte → res Placement) (serialize : Placement → list byte).
Definition rewrite_m3_placement_bytes (value : list byte) (replacements : list M3PlacementNodeReplacement) : res (list byte) :=
  placement ← parse value;
  Ok (serialize (foldl rewrite_single_m3_placement_node placement replacements)).
End bytes.

(** ** All replacements at once *)
Notation src r := (node_id (src_pnode r)).
Notation dst r := (node_id (dst_pnode r)).

Lemma rewrite_instances_lookup m r k :
  rewrite_instances m r !! k =
    if decide (k = dst r) then Some (moved_instance r (default default_instance (m !! src r)))
    else if decide (k = src r) then None else m !! k.
Proof.
  unfold rewrite_instances. destruct (decide (k = dst r)) as [->|Hd]; [by rewrite lookup_insert_eq|].
  rewrite lookup_insert_ne by done. destruct (decide (k = src r)) as [->|Hs]; [by rewrite lookup_delete_eq|].
  by rewrite lookup_delete_ne, lookup_insert_ne.
Qed.

Lemma fold_rewrite_instances placement rs :
  foldl rewrite_single_m3_placement_node placement rs = set_instances (foldl rewrite_instances (instances placement) rs) placement.
Proof. revert placement. induction rs as [|r rs IH]; intros placement; [by destruct placement|]. simpl. by rewrite IH. Qed.

(** The replacement by which a node gets its new id. *)
Definition replacing (rs : list M3PlacementNodeReplacement) (k : string) : option M3PlacementNodeReplacement :=
  snd <$> list_find (λ r, dst r = k) rs.

Lemma replacing_cons r rs k : replacing (r :: rs) k = if decide (dst r = k) then Some r else replacing rs k.
Proof. unfold replacing. cbn [list_find]. case_decide; [done|]. rewrite <- option_fmap_compose. f_equal. Qed.
Lemma replacing_Some rs k r : replacing rs k = Some r → r ∈ rs ∧ dst r = k.
Proof.
  unfold replacing. intros ([i r'] & H & ->)%fmap_Some. apply list_find_Some in H as (Hi & Hk & _).
  split; [by eapply list_elem_of_lookup_2|done].
Qed.

(** The placement in which every source is replaced by its destination, all at once. *)
Definition replaced (m : gmap string Instance_) (rs : list M3PlacementNodeReplacement) (k : string) : option Instance_ :=
  match replacing rs k with
  | Some r => Some (moved_instance r (default default_instance (m !! src r)))
  | None => if decide (k ∈ ((λ r, src r) <$> rs)) then None else m !! k
  end.

(** No replacement goes to the id of a node that is still to be replaced. *)
Fixpoint no_clash (rs : list M3PlacementNodeReplacement) : Prop :=
  match rs with
  | [] => True
  | r :: rs' => dst r ∉ ((λ r, src r) <$> rs') ∧ no_clash rs'
  end.
#[global] Instance no_clash_dec rs : Decision (no_clash rs).
Proof. induction rs; simpl; apply _. Defined.

(** Rewriting in place, one node after the other, replaces all nodes at once,
    when no node is replaced by one that is itself replaced later. *)
Theorem placement_rewritten (placement : Placement) (rs : list M3PlacementNodeReplacement)
    (Hsrc : NoDup ((λ r, src r) <$> rs)) (Hdst : NoDup ((λ r, dst r) <$> rs)) (Hclash : no_clash rs) :
  let placement' := foldl rewrite_single_m3_placement_node placement rs in
  set_instances ∅ placement' = set_instances ∅ placement ∧
  ∀ k, instances placement' !! k = replaced (instances placement) rs k.
Proof.
  rewrite fold_rewrite_instances. split; [done|]. cbn [instances set_instances]. generalize (instances placement) as m. clear placement.
  induction rs as [|r rs IH]; intros m k; [done|].
  rewrite !fmap_cons in Hsrc, Hdst. apply NoDup_cons in Hsrc as [Hs Hsrc]. apply NoDup_cons in Hdst as [Hd Hdst].
  destruct Hclash as [Hc Hclash]. cbn [foldl]. rewrite (IH Hsrc Hdst Hclash). unfold replaced. rewrite replacing_cons.
  assert (∀ k, dst r ≠ k → src r ≠ k → rewrite_instances m r !! k = m !! k) as Hother.
  { intros k' H1 H2. rewrite rewrite_instances_lookup. by rewrite !decide_False. }
  rewrite fmap_cons. destruct (replacing rs k) as [r'|] eqn:E.
  - apply replacing_Some in E as [Hin <-]. assert (src r' ∈ ((λ r, src r) <$> rs)) as Hsr by by apply (list_elem_of_fmap_2 (λ r, src r)).
    rewrite decide_False by (intros E; apply Hd; rewrite E; by apply (list_elem_of_fmap_2 (λ r, dst r))).
    rewrite Hother; [done|by intros E; rewrite E in Hc|by intros E; rewrite E in Hs].
  - destruct (decide (dst r = k)) as [<-|Hk].
    + rewrite decide_False by done. rewrite rewrite_instances_lookup. by rewrite decide_True.
    + rewrite (decide_ext (k ∈ src r :: _) (k = src r ∨ k ∈ ((λ r, src r) <$> rs))) by apply elem_of_cons.
      destruct (decide (k ∈ ((λ r, src r) <$> rs))) as [Hin|Hni]; [by rewrite decide_True by by right|].
      rewrite rewrite_instances_lookup, decide_False by done. destruct (decide (k = src r)) as [Hs'|Hs'].
      * by rewrite decide_True by by left.
      * by rewrite decide_False by by intros [?|?].
Qed.

(** Two nodes that change places: one of them is lost, with its shards. *)
Theorem swapped_nodes_lose_one (m : gmap string Instance_) (a b : M3PlacementNode) (g1 g2 : string)
    (Hab : node_id a ≠ node_id b) :
  let m' := foldl rewrite_instances m [mkReplacement a b g1; mkReplacement b a g2] in
  m' !! node_id b = None ∧ shards <$> m' !! node_id a = Some (shards (default default_instance (m !! node_id a))).
Proof.
  cbn [foldl]. split.
  - rewrite rewrite_instances_lookup. cbn [src_pnode dst_pnode]. by rewrite decide_False, decide_True by done.
  - rewrite rewrite_instances_lookup. cbn [src_pnode dst_pnode]. rewrite decide_True by done.
    rewrite rewrite_instances_lookup. cbn [src_pnode dst_pnode]. by rewrite decide_True by done.
Qed.

(** ** Examples *)
Definition example_node (n : string) : M3PlacementNode := mkM3PlacementNode n ("http://" +:+ n) n.
Definition example_instance (n : string) (s : N) : Instance_ :=
  mkInstance n "az" "z" 100 ("http://" +:+ n) [mkShard s AVAILABLE "" 0 0] 1 n 9000 None.
Definition example_placement : Placement :=
  mkPlacement (<["a" := example_instance "a" 1]> (<["b" := example_instance "b" 2]> ∅)) 1 2 true 0 false 0.
Definition example_replacements : list M3PlacementNodeReplacement :=
  [mkReplacement (example_node "a") (example_node "c") "az2"; mkReplacement (example_node "b") (example_node "a") ""].

Lemma placement_rewritten_witness :
  instances (foldl rewrite_single_m3_placement_node example_placement example_replacements) !! "a" =
    Some (mkInstance "a" "az" "z" 100 "http://a" [mkShard 2 AVAILABLE "" 0 0] 1 "a" 9000 None).
Proof.
  assert (NoDup ((λ r, src r) <$> example_replacements)) as H1 by (apply (bool_decide_unpack _); vm_compute; exact I).
  assert (NoDup ((λ r, dst r) <$> example_replacements)) as H2 by (apply (bool_decide_unpack _); vm_compute; exact I).
  assert (no_clash example_replacements) as H3 by (apply (bool_decide_unpack _); vm_compute; exact I).
  destruct (placement_rewritten example_placement example_replacements H1 H2 H3) as [_ H].
  transitivity (replaced (instances example_placement) example_replacements "a"); [exact (H "a")|vm_compute; reflexivity].
Defined.

Lemma swapped_nodes_lose_one_witness :
  foldl rewrite_instances (instances example_placement)
    [mkReplacement (example_node "a") (example_node "b") ""; mkReplacement (example_node "b") (example_node "a") ""] !! "b" = None.
Proof. apply (swapped_nodes_lose_one (instances example_placement) (example_node "a") (example_node "b") "" ""). discriminate. Defined.
End M3Placement.
