(* ===== verification/M3Plugin.v ===== *)
(** * The M3 plugin ([coordinator/plugins/m3db.py])

    M3 keeps its namespaces and its placement in etcd; its data are files.  A
    backup dumps the prefixes of M3 before and after the files are uploaded
    and fails if they differ; a restore writes them back, with the nodes of the
    placement replaced by the nodes that restore them. *)

From stdpp Require Import base gmap strings list.
From Stdlib Require Import ZArith Lia Strings.Byte.
From Stdlib Require Strings.String.
From S2P Require Import Prelude Progress Ipc Storage Op Base64 ChManifest Gather Etcd Steps NodeMapping NodeLock.
From S2P Require Import Cluster Datetime BackupRestore StepFacts M3Placement.

Local Open Scope Z_scope.

Module M3Plugin.
Import Cluster BackupRestore StepFacts Base64 Etcd M3Placement.
Notation bytes_of_string := String.list_byte_of_string.

Record M3DBManifest : Type := mkM3DBManifest {
  etcd : ETCDDump;
  placement_nodes : list M3PlacementNode;
}.
Record M3DBPlugin : Type := mkM3DBPlugin {
  etcd_url : string;
  environment : string;
  p_placement_nodes : list M3PlacementNode;
}.

Definition cls_InitStep := cls_plugin "InitStep".
Definition cls_RetrieveEtcdStep := cls_plugin "RetrieveEtcdStep".
Definition cls_RetrieveEtcdAgainStep := cls_plugin "RetrieveEtcdAgainStep".
Definition cls_PrepareM3ManifestStep := cls_plugin "PrepareM3ManifestStep".
Definition cls_RewriteEtcdStep := cls_plugin "RewriteEtcdStep".
Definition cls_RestoreEtcdStep := cls_plugin "RestoreEtcdStep".

(** [ETCD_PREFIX_FORMATS] *)
Definition get_etcd_prefixes (environment : string) : list bytes :=
  bytes_of_string <$> ["_kv/" +:+ environment +:+ "/m3db.node.namespaces"; "_sd.placement/" +:+ environment +:+ "/m3db"].

Definition validate_m3_config (placement_nodes : list M3PlacementNode) (nodes : list CoordinatorNode) : res unit :=
  if decide (length placement_nodes ≠ length nodes) then Raise M3IncorrectPlacementNodesLengthException else Ok tt.

(** ** Rewriting the placement in a dump *)
Definition is_placement_key (key_bytes : bytes) : bool :=
  bool_decide (bytes_of_string "_sd.placement/" `prefix_of` key_bytes) && bool_decide (bytes_of_string "/m3db" `suffix_of` key_bytes).

Definition zip3 {A B C} (l1 : list A) (l2 : list B) (l3 : list C) : list (A * (B * C)) := zip l1 (zip l2 l3).

Section rewriting.
Context (parse : bytes → res Placement) (serialize : Placement → bytes).
Context (node_to_backup_index : list (option nat)) (src_placement_nodes dst_placement_nodes : list M3PlacementNode)
  (nodes : list CoordinatorNode).

Definition replacements_of : res (list M3PlacementNodeReplacement) :=
  fold_res (λ replacements x,
    match x.1 with
    | None => Ok replacements
    | Some idx =>
        match src_placement_nodes !! idx with
        | None => Raise IndexError
        | Some src_pnode => Ok (replacements ++ [mkReplacement src_pnode x.2.2 (node_az x.2.1)])
        end
    end) [] (zip3 node_to_backup_index nodes dst_placement_nodes).

Definition rewritten_value (value : bytes) : res bytes :=
  replacements ← replacements_of; rewrite_m3_placement_bytes parse serialize value replacements.

Definition rewrite_m3db_placement (key : ETCDKey) : res ETCDKey :=
  replacements ← replacements_of;
  value ← value_bytes key;
  value' ← rewrite_m3_placement_bytes parse serialize value replacements;
  Ok (set_value_bytes value' key).

Definition rewrite_key (key : ETCDKey) : res ETCDKey :=
  kb ← key_bytes key;
  if is_placement_key kb then rewrite_m3db_placement key else Ok key.
Definition rewrite_prefix (prefix : ETCDPrefixDump) : res ETCDPrefixDump :=
  l ← ChManifest.map_res rewrite_key (keys prefix); Ok (mkETCDPrefixDump (prefix_b64 prefix) l).
Definition rewrite_etcd (dump : ETCDDump) : res ETCDDump :=
  l ← ChManifest.map_res rewrite_prefix (prefixes dump); Ok (mkETCDDump l).

(** What a restored key holds. *)
Definition restored_value (k v : bytes) : option bytes :=
  if is_placement_key k then match rewritten_value v with Ok v' => Some v' | Raise _ => None end else Some v.
Definition restored_store (s : gmap bytes bytes) : gmap bytes bytes := map_imap restored_value s.
Lemma rewrite_etcd_key kv : rewrite_key (etcd_key kv) =
  if is_placement_key kv.1 then v' ← rewritten_value kv.2; Ok (etcd_key (kv.1, v')) else Ok (etcd_key kv).
Proof using Type.
  unfold rewrite_key, rewrite_m3db_placement, rewritten_value, key_bytes, value_bytes, set_value_bytes, etcd_key. cbn [key_b64 value_b64].
  rewrite !b64_decode_encode. cbn [mbind res_bind]. destruct (is_placement_key kv.1); [|done].
  destruct replacements_of as [rs|e]; [|done]. cbn [mbind res_bind]. by destruct (rewrite_m3_placement_bytes _ _ _ _).
Qed.

Lemma rewrite_key_ok kv key : rewrite_key (etcd_key kv) = Ok key ↔ ∃ v', restored_value kv.1 kv.2 = Some v' ∧ key = etcd_key (kv.1, v').
Proof using Type.
  rewrite rewrite_etcd_key. unfold restored_value. destruct (is_placement_key kv.1).
  - destruct (rewritten_value kv.2) as [v'|e]; simpl; naive_solver.
  - destruct kv as [k v]. naive_solver.
Qed.

(** A dump of a store becomes, rewritten, a dump of the store with the placement rewritten. *)
Lemma rewrite_prefix_dump s p d d' : dump_of s p d → rewrite_prefix d = Ok d' →
  dump_of (restored_store s) p d' ∧ ∀ k v, p `prefix_of` k → s !! k = Some v → is_Some (restored_value k v).
Proof using Type.
  intros (Hp & He & l & Hl & Hkeys) (l' & Hl' & [= <-])%rbind_inv_ok. apply ChManifest.map_res_ok in Hl'. rewrite Hkeys in Hl'.
  assert (∃ l2, l' = etcd_key <$> l2 ∧ Forall2 (λ kv kv2, kv2.1 = kv.1 ∧ restored_value kv.1 kv.2 = Some kv2.2) l l2) as (l2 & -> & HF).
  { clear Hl Hkeys. revert l' Hl'. induction l as [|kv l IH]; intros l'.
    - intros ->%Forall2_nil_inv_l. by exists [].
    - intros (key & l1 & Hk & HF & ->)%Forall2_cons_inv_l. apply rewrite_key_ok in Hk as (v' & Hv & ->).
      destruct (IH l1 HF) as (l2 & -> & H2). exists ((kv.1, v') :: l2). split; [done|]. by constructor. }
  assert (∀ k v, (k, v) ∈ l ↔ p `prefix_of` k ∧ s !! k = Some v) as Hin.
  { intros k v. rewrite Hl, elem_of_map_to_list, below_lookup. case_decide; naive_solver. }
  assert (l2.*1 = l.*1) as Hfst.
  { clear Hl Hkeys Hl' Hin. induction HF as [|kv kv2 l l2 [H _] _ IH]; [done|]. by rewrite !fmap_cons, H, IH. }
  split.
  - split; [done|]. split; [done|]. exists l2. split; [|done]. apply NoDup_Permutation.
    + apply (NoDup_fmap_1 fst). rewrite Hfst, Hl. apply NoDup_fst_map_to_list.
    + apply NoDup_map_to_list.
    + intros [k v2]. rewrite elem_of_map_to_list, below_lookup. unfold restored_store. rewrite map_lookup_imap. split.
      * intros Hv2. apply list_elem_of_lookup in Hv2 as [i Hi]. destruct (Forall2_lookup_r _ _ _ _ _ HF Hi) as ([k' v] & Hi' & Hk & Hv).
        simpl in *. subst k'. apply list_elem_of_lookup_2, Hin in Hi' as [Hpk Hs]. by rewrite decide_True, Hs.
      * case_decide as Hpk; [|done]. destruct (s !! k) as [v|] eqn:Es; [|done]. simpl. intros Hv.
        assert ((k, v) ∈ l) as Hkv by by apply Hin. apply list_elem_of_lookup in Hkv as [i Hi].
        destruct (Forall2_lookup_l _ _ _ _ _ HF Hi) as ([k' v'] & Hi' & Hk & Hv'). simpl in *. subst k'.
        assert (v' = v2) as -> by congruence. by eapply list_elem_of_lookup_2.
  - intros k v Hpk Hs. assert ((k, v) ∈ l) as Hkv by by apply Hin. apply list_elem_of_lookup in Hkv as [i Hi].
    destruct (Forall2_lookup_l _ _ _ _ _ HF Hi) as (kv2 & _ & _ & Hv). by exists kv2.2.
Qed.

Lemma rewrite_etcd_dump s ps dump dump' : Forall2 (dump_of s) ps (prefixes dump) → rewrite_etcd dump = Ok dump' →
  Forall2 (dump_of (restored_store s)) ps (prefixes dump') ∧
  ∀ k v, Exists (λ p, p `prefix_of` k) ps → s !! k = Some v → is_Some (restored_value k v).
Proof using Type.
  intros HF (l & Hl & [= <-])%rbind_inv_ok. apply ChManifest.map_res_ok in Hl. cbn [prefixes]. revert l Hl.
  induction HF as [|p d ps ds Hd HF IH]; intros l.
  - intros ->%Forall2_nil_inv_l. split; [constructor|]. by intros k v ?%Exists_nil.
  - intros (d' & l' & Hd' & Hl' & ->)%Forall2_cons_inv_l. destruct (rewrite_prefix_dump s p d d' Hd Hd') as [H1 H2].
    destruct (IH l' Hl') as [H3 H4]. split; [by constructor|]. intros k v [Hk|Hk]%Exists_cons; [by apply H2|by apply H4].
Qed.
End rewriting.

Section steps.
Context {SJ SH SE B BH : Type} (json : StorageOps SJ B) (hex : StorageOps SH BH) `{!ManifestCodec B}.
Local Notation W := (world SJ SH SE).
Context (env : ClusterEnv W) (cluster_nodes : list CoordinatorNode) (poll_config : PollConfig) (fuel : nat).
Context (progress_handler : option (Progress → M W unit)).
Context (request_etcd : Etcd.Request → M SE (option Etcd.Reply)) (pick : SE → nat → nat).
Context (parse : bytes → res Placement) (serialize : Placement → bytes).
(** [dict()] and [parse_obj] of [M3DBManifest], with JSON. *)
Context (encode_m3_manifest : M3DBManifest → string) (decode_m3_manifest : string → res M3DBManifest).

(** ** The steps *)
Definition InitStep (placement_nodes : list M3PlacementNode) : Step SJ SH SE := mkStep cls_InitStep (λ _,
  lift_res (validate_m3_config placement_nodes cluster_nodes) ;; mret VNone).

Definition RetrieveEtcdStep (etcd_prefixes : list bytes) : Step SJ SH SE := mkStep cls_RetrieveEtcdStep (λ _,
  etcd_dump ← on_env (get_etcd_dump request_etcd pick etcd_prefixes);
  match etcd_dump with None => raise StepFailedError | Some d => mret (VEtcdDump d) end).

Definition RetrieveEtcdAgainStep (etcd_prefixes : list bytes) : Step SJ SH SE := mkStep cls_RetrieveEtcdAgainStep (λ ctx,
  etcd_before ← lift_res (get_etcd_dump_result ctx cls_RetrieveEtcdStep);
  etcd_now ← on_env (get_etcd_dump request_etcd pick etcd_prefixes);
  match etcd_now with
  | None => raise StepFailedError
  | Some d => if decide (etcd_before ≠ d) then raise StepFailedError else mret VNone
  end).

Definition PrepareM3ManifestStep (placement_nodes : list M3PlacementNode) : Step SJ SH SE :=
  mkStep cls_PrepareM3ManifestStep (λ ctx,
  etcd ← lift_res (get_etcd_dump_result ctx cls_RetrieveEtcdStep);
  mret (VPluginData (encode_m3_manifest (mkM3DBManifest etcd placement_nodes)))).

Definition RewriteEtcdStep (dst_placement_nodes : list M3PlacementNode) (partial : option (list PartialRestoreRequestNode)) :
    Step SJ SH SE := mkStep cls_RewriteEtcdStep (λ ctx,
  if nonempty partial then mret VNone
  else
    backup_manifest ← lift_res (get_manifest ctx cls_BackupManifestStep);
    node_to_backup_index ← lift_res (get_node_map ctx cls_MapNodesStep);
    plugin_manifest ← lift_res (decode_m3_manifest (bm_plugin_data backup_manifest));
    d ← lift_res (rewrite_etcd parse serialize node_to_backup_index (placement_nodes plugin_manifest) dst_placement_nodes
                    cluster_nodes (etcd plugin_manifest));
    mret (VEtcdDump d)).

Definition RestoreEtcdStep : Step SJ SH SE := mkStep cls_RestoreEtcdStep (λ ctx,
  dump ← lift_res (get_optional_etcd_dump ctx cls_RewriteEtcdStep);
  match dump with
  | None => mret VNone
  | Some d => ok ← on_env (restore_etcd_dump request_etcd d); if (ok : bool) then mret VNone else raise StepFailedError
  end).

(** ** The lists of steps *)
Context (plugin : M3DBPlugin).
Definition etcd_prefixes : list bytes := get_etcd_prefixes (environment plugin).

Definition m3_snapshot_steps (storage_name : string) : list (Step SJ SH SE) :=
  [SnapshotStep env cluster_nodes poll_config fuel progress_handler [simple_group "**/*.db"] "snapshot" None;
   ListHexdigestsStep hex;
   UploadBlocksStep env cluster_nodes poll_config fuel progress_handler storage_name true "upload" cls_ListHexdigestsStep].

Definition m3_steps_before : list (Step SJ SH SE) := [InitStep (p_placement_nodes plugin); RetrieveEtcdStep etcd_prefixes].
Definition m3_steps_after : list (Step SJ SH SE) :=
  [RetrieveEtcdAgainStep etcd_prefixes;
   PrepareM3ManifestStep (p_placement_nodes plugin);
   UploadManifestStep json m3db (Some cls_PrepareM3ManifestStep) (Some cls_SnapshotStep) (Some cls_UploadBlocksStep) JSON_BACKUP_PREFIX].
Definition m3_backup_steps (storage_name : string) : list (Step SJ SH SE) :=
  m3_steps_before ++ m3_snapshot_steps storage_name ++ m3_steps_after.

Definition m3_delta_backup_steps : res (list (Step SJ SH SE)) := Raise NotImplementedError.

Definition m3_restore_steps_before (req : RestoreRequest) : list (Step SJ SH SE) :=
  let partial := rr_partial_restore_nodes req in
  [InitStep (p_placement_nodes plugin);
   BackupNameStep json (rr_name req);
   BackupManifestStep json;
   MapNodesStep cluster_nodes partial;
   RewriteEtcdStep (p_placement_nodes plugin) partial].
Definition m3_restore_steps_after (storage_name : string) (req : RestoreRequest) : list (Step SJ SH SE) :=
  [RestoreStep env cluster_nodes poll_config fuel progress_handler storage_name (rr_partial_restore_nodes req)].
Definition m3_restore_steps (storage_name : string) (req : RestoreRequest) : list (Step SJ SH SE) :=
  m3_restore_steps_before req ++ [RestoreEtcdStep] ++ m3_restore_steps_after storage_name req.

(** ** A backup *)
Section theorems.
Context `{!StorageSpec json} `{!NodesKeep json env} `{!HandlerKeeps json progress_handler}.
Context (store : SE → gmap bytes bytes) `{!EtcdSpec request_etcd store}.

Definition holds_dump (w : W) (dump : ETCDDump) : Prop := Forall2 (dump_of (store (w_env w))) etcd_prefixes (prefixes dump).

Lemma dump_run (w w' : W) ps o :
  on_env (get_etcd_dump request_etcd pick ps) w = (w', Ok o) →
  store (w_env w') = store (w_env w) ∧ ∀ d, o = Some d → Forall2 (dump_of (store (w_env w))) ps (prefixes d).
Proof using EtcdSpec0.
  unfold on_env, zoom. destruct (get_etcd_dump _ _ _ _) as [e r] eqn:E. intros [= <- ->].
  apply (get_etcd_dump_run request_etcd store pick) in E as [Hs HF]. split; [done|]. intros d ->.
  eapply Forall2_impl; [by apply HF|]. by intros p d' [? _].
Qed.

Lemma retrieved_dump ctx (w w' : W) v : run_step (RetrieveEtcdStep etcd_prefixes) ctx w = (w', Ok v) →
  ∃ d, v = VEtcdDump d ∧ holds_dump w' d.
Proof using EtcdSpec0.
  cbn [run_step RetrieveEtcdStep]. intros (w1 & o & Hrun & H)%bind_inv_ok. apply dump_run in Hrun as [Hs Hd].
  destruct o as [d|]; [|done]. injection H as <- <-. exists d. split; [done|]. unfold holds_dump. rewrite Hs. by apply Hd.
Qed.

Lemma retrieved_again ctx (w w' : W) v d :
  get_result ctx cls_RetrieveEtcdStep = Ok (VEtcdDump d) →
  run_step (RetrieveEtcdAgainStep etcd_prefixes) ctx w = (w', Ok v) → holds_dump w d.
Proof using EtcdSpec0.
  intros Hd. cbn [run_step RetrieveEtcdAgainStep]. unfold get_etcd_dump_result. rewrite Hd.
  erewrite (bind_ok (lift_res _)) by reflexivity. intros (w1 & o & Hrun & H)%bind_inv_ok. apply dump_run in Hrun as [_ HF].
  destruct o as [d'|]; [|done]. case_decide; [done|]. subst d'. by apply HF.
Qed.

Lemma backup_keeping storage_name :
  Forall (keeping json) (m3_steps_before ++ m3_snapshot_steps storage_name ++
    [RetrieveEtcdAgainStep etcd_prefixes; PrepareM3ManifestStep (p_placement_nodes plugin)]).
Proof using NodesKeep0 HandlerKeeps0.
  rewrite !Forall_app. split; [keep_steps|split; [by apply snapshot_steps_keeping|keep_steps]].
  - destruct a; keep.
  - destruct a0; keep.
Qed.

(** The two dumps of a run whose three segments are known. *)
Lemma dumps_of_segments (storage_name : string) ctx (w : W) ctx1 w1 ctx2 w2 ctx' w' :
  completes m3_steps_before ctx w ctx1 w1 → completes (m3_snapshot_steps storage_name) ctx1 w1 ctx2 w2 →
  completes m3_steps_after ctx2 w2 ctx' w' →
  ∃ dump, length (p_placement_nodes plugin) = length cluster_nodes ∧ get_result ctx2 cls_RetrieveEtcdStep = Ok (VEtcdDump dump) ∧
    holds_dump w1 dump ∧ holds_dump w2 dump.
Proof using EtcdSpec0.
  intros Hinit Hsnap Hlast. apply completes_cons_inv in Hinit as (v0 & w0 & ctx0 & Hlen & _ & Hinit).
  apply completes_cons_inv in Hinit as (v1 & w1' & ctx1' & Hr & Hset & Hnil). inversion Hnil; subst. clear Hnil.
  apply retrieved_dump in Hr as (dump & -> & Hd1). apply set_result_spec in Hset as [Hg1 _].
  assert (get_result ctx2 cls_RetrieveEtcdStep = Ok (VEtcdDump dump)) as Hg2.
  { apply (completes_leaves _ _ _ _ _ cls_RetrieveEtcdStep (VEtcdDump dump) Hsnap); [unfold m3_snapshot_steps; pure|done|done]. }
  apply completes_cons_inv in Hlast as (v2 & w3 & ctx3 & Hagain & _ & _). exists dump. split.
  { cbn [run_step InitStep] in Hlen. unfold validate_m3_config in Hlen. by case_decide. }
  split; [done|]. split; [done|]. by apply (retrieved_again _ _ _ _ _ Hg2 Hagain).
Qed.

Lemma prepared_m3_manifest ctx (w : W) ctx' w' d :
  get_result ctx cls_RetrieveEtcdStep = Ok (VEtcdDump d) →
  completes [RetrieveEtcdAgainStep etcd_prefixes; PrepareM3ManifestStep (p_placement_nodes plugin)] ctx w ctx' w' →
  get_result ctx' cls_PrepareM3ManifestStep = Ok (VPluginData (encode_m3_manifest (mkM3DBManifest d (p_placement_nodes plugin)))).
Proof using Type.
  intros Hd Hc. apply completes_cons_inv in Hc as (v2 & w3 & ctx3 & _ & Hset & Hc). apply set_result_spec in Hset as [_ Hkeep3].
  pose proof (Hkeep3 _ _ Hd eq_refl) as Hg3.
  apply completes_cons_inv in Hc as (v3 & w4 & ctx4 & Hprep & Hset & Hnil). inversion Hnil; subst. clear Hnil.
  apply set_result_spec in Hset as [Hg5 _]. etransitivity; [exact Hg5|]. f_equal.
  cbn [run_step PrepareM3ManifestStep] in Hprep. unfold get_etcd_dump_result in Hprep. rewrite Hg3 in Hprep.
  erewrite (bind_ok (lift_res _)) in Hprep by reflexivity. by injection Hprep as _ <-.
Qed.

Lemma manifest_of_segments (storage_name : string) ctx (w : W) ctx1 w1 ctx2 w2 ctx' w' :
  st_inv (ops:=json) (w_json w) → (∀ m, st_value (ops:=json) (encode_manifest m)) →
  st_name (ops:=json) (make_backup_name JSON_BACKUP_PREFIX ctx) →
  completes m3_steps_before ctx w ctx1 w1 → completes (m3_snapshot_steps storage_name) ctx1 w1 ctx2 w2 →
  completes m3_steps_after ctx2 w2 ctx' w' →
  ∃ m dump,
    stored_manifest json (w_json w') (make_backup_name JSON_BACKUP_PREFIX ctx) m ∧ bm_plugin m = m3db ∧
    bm_plugin_data m = encode_m3_manifest (mkM3DBManifest dump (p_placement_nodes plugin)) ∧
    length (p_placement_nodes plugin) = length cluster_nodes ∧
    get_snapshots ctx2 cls_SnapshotStep = Ok (bm_snapshot_results m) ∧
    get_snapshots ctx' cls_SnapshotStep = Ok (bm_snapshot_results m) ∧
    holds_dump w1 dump ∧ holds_dump w2 dump.
Proof using EtcdSpec0 NodesKeep0 HandlerKeeps0.
  intros Hinv Hval Hname Hinit Hsnap Hlast.
  destruct (dumps_of_segments storage_name _ _ _ _ _ _ _ _ Hinit Hsnap Hlast) as (dump & Hlen & Hg2 & Hd1 & Hd2).
  assert (∀ v, get_result ctx2 cls_SnapshotStep = Ok v → is_VNone v = false → get_result ctx' cls_SnapshotStep = Ok v) as Hkeep.
  { intros v. apply (completes_leaves _ _ _ _ _ cls_SnapshotStep v Hlast). unfold m3_steps_after. pure. }
  assert (∃ v, get_result ctx2 cls_SnapshotStep = Ok v ∧ is_VNone v = false) as (vs & Hvs & Hnone).
  { apply completes_cons_inv in Hsnap as (v & wa & ctxa & Hrun & Hset & Hrest). apply set_result_spec in Hset as [Hg _].
    apply (snapshot_value env cluster_nodes poll_config fuel progress_handler) in Hrun as (l & ->). exists (VSnapshots l). split; [|done].
    apply (completes_leaves _ _ _ _ _ cls_SnapshotStep (VSnapshots l) Hrest); [pure|done|done]. }
  change m3_steps_after with ([RetrieveEtcdAgainStep etcd_prefixes; PrepareM3ManifestStep (p_placement_nodes plugin)] ++
     [UploadManifestStep json m3db (Some cls_PrepareM3ManifestStep) (Some cls_SnapshotStep) (Some cls_UploadBlocksStep) JSON_BACKUP_PREFIX]) in Hlast.
  apply completes_app in Hlast as (ctx5 & w5 & Hmid & Hup).
  pose proof (prepared_m3_manifest _ _ _ _ _ Hg2 Hmid) as Hg5.
  assert (completes (m3_steps_before ++ m3_snapshot_steps storage_name ++
    [RetrieveEtcdAgainStep etcd_prefixes; PrepareM3ManifestStep (p_placement_nodes plugin)]) ctx w ctx5 w5) as Hall
    by by (eapply completes_app_intro; [exact Hinit|]; eapply completes_app_intro; [exact Hsnap|exact Hmid]).
  pose proof (completes_kept json _ _ _ _ _ (backup_keeping storage_name) Hall Hinv) as Hinv5.
  assert (make_backup_name JSON_BACKUP_PREFIX ctx5 = make_backup_name JSON_BACKUP_PREFIX ctx) as Hn.
  { unfold make_backup_name. f_equal. f_equal. apply (completes_leaves _ _ _ _ _ cls_ListHexdigestsStep VNone Hall).
    unfold m3_steps_before, m3_snapshot_steps. cbn [app]. pure. }
  apply completes_cons_inv in Hup as (v4 & w6 & ctx6 & Hup & Hset & Hnil). inversion Hnil; subst. clear Hnil.
  apply (uploaded_manifest json _ _ _ _ _ _ _ _ _ Hg5 Hinv5 Hval) in Hup as (m & Hst & Hp & Hpd & Hsn); [|by rewrite Hn].
  rewrite Hn in Hst. exists m, dump. do 4 (split; [done|]).
  assert (get_result ctx5 cls_SnapshotStep = Ok vs) as H5.
  { apply (completes_leaves _ _ _ _ _ cls_SnapshotStep vs Hmid); [pure|done|done]. }
  unfold snapshots_of, get_snapshots in *. rewrite H5 in Hsn. rewrite Hvs, (Hkeep vs Hvs Hnone). done.
Qed.

(** C8: A backup that completes has stored, under the name of the attempt, a manifest of
    M3 with a dump of etcd and the configured placement nodes, one for each node
    of the cluster.  In this very run, which splits into the steps before the
    snapshot, those that take and upload it, and those after it, the dump is what
    etcd held below the prefixes of M3 both at the moment the first snapshot step
    began and at the moment the last one had ended; the snapshot results of the
    manifest are those of the steps between. *)
Theorem m3_manifest_stored (storage_name : string) ctx (w : W) ctx' w' :
  st_inv (ops:=json) (w_json w) → (∀ m, st_value (ops:=json) (encode_manifest m)) →
  let name := make_backup_name JSON_BACKUP_PREFIX ctx in
  st_name (ops:=json) name →
  completes (m3_backup_steps storage_name) ctx w ctx' w' →
  ∃ m dump ctx1 (w1 : W) ctx2 (w2 : W),
    stored_manifest json (w_json w') name m ∧ bm_plugin m = m3db ∧
    bm_plugin_data m = encode_m3_manifest (mkM3DBManifest dump (p_placement_nodes plugin)) ∧
    length (p_placement_nodes plugin) = length cluster_nodes ∧
    completes m3_steps_before ctx w ctx1 w1 ∧
    completes (m3_snapshot_steps storage_name) ctx1 w1 ctx2 w2 ∧
    completes m3_steps_after ctx2 w2 ctx' w' ∧
    get_snapshots ctx2 cls_SnapshotStep = Ok (bm_snapshot_results m) ∧
    get_snapshots ctx' cls_SnapshotStep = Ok (bm_snapshot_results m) ∧
    holds_dump w1 dump ∧ holds_dump w2 dump.
Proof using EtcdSpec0 NodesKeep0 HandlerKeeps0.
  intros Hinv Hval name Hname Hc. apply completes_app in Hc as (ctx1 & w1 & Hinit & Hc).
  apply completes_app in Hc as (ctx2 & w2 & Hsnap & Hlast).
  pose proof (manifest_of_segments storage_name ctx w ctx1 w1 ctx2 w2 ctx' w' Hinv Hval Hname Hinit Hsnap Hlast)
    as (m & dump & Hst & Hp & Hpd & Hlen & Hs2 & Hs' & Hd1 & Hd2).
  by exists m, dump, ctx1, w1, ctx2, w2.
Qed.
(** ** A restore *)
Lemma rewritten_dump dst partial ctx (w w' : W) v : nonempty partial = false →
  run_step (RewriteEtcdStep dst partial) ctx w = (w', Ok v) →
  ∃ m mapping pm d, w' = w ∧ v = VEtcdDump d ∧ get_result ctx cls_BackupManifestStep = Ok (VManifest m) ∧
    get_result ctx cls_MapNodesStep = Ok (VNodeMap mapping) ∧ decode_m3_manifest (bm_plugin_data m) = Ok pm ∧
    rewrite_etcd parse serialize mapping (placement_nodes pm) dst cluster_nodes (etcd pm) = Ok d.
Proof using Type.
  intros Hp. cbn [run_step RewriteEtcdStep]. rewrite Hp. intros (w1 & m & Hm & H)%bind_inv_ok. injection Hm as -> Hm.
  apply bind_inv_ok in H as (w2 & mapping & Hmap & H). injection Hmap as -> Hmap.
  apply bind_inv_ok in H as (w3 & pm & Hpm & H). injection Hpm as -> Hpm.
  apply bind_inv_ok in H as (w4 & d & Hd & H). injection Hd as -> Hd. injection H as -> <-. exists m, mapping, pm, d.
  split; [done|]. split; [done|]. unfold get_manifest in Hm. unfold get_node_map in Hmap.
  destruct (get_result ctx cls_BackupManifestStep) as [[]|]; try done. destruct (get_result ctx cls_MapNodesStep) as [[]|]; try done.
  injection Hm as ->. injection Hmap as ->. done.
Qed.

Lemma restore_step_run ctx d (w : W) : get_result ctx cls_RewriteEtcdStep = Ok (VEtcdDump d) →
  run_step RestoreEtcdStep ctx w =
    (ok ← on_env (restore_etcd_dump request_etcd d); if (ok : bool) then mret VNone else raise StepFailedError) w.
Proof using Type.
  intros Hd. cbn [run_step RestoreEtcdStep]. unfold get_optional_etcd_dump. rewrite Hd. by erewrite (bind_ok (lift_res _)) by reflexivity.
Qed.

Lemma restored_dump d (w w' : W) v s ps :
  (ok ← on_env (restore_etcd_dump request_etcd d); if (ok : bool) then mret VNone else raise StepFailedError) w = (w', Ok v) →
  Forall2 (dump_of s) ps (prefixes d) → v = VNone ∧ ∀ k,
    (Forall (λ p, ¬ p `prefix_of` k) ps → store (w_env w') !! k = store (w_env w) !! k) ∧
    (Exists (λ p, p `prefix_of` k) ps → store (w_env w') !! k = s !! k).
Proof using EtcdSpec0.
  intros (w1 & ok & Hrun & H)%bind_inv_ok HF. destruct ok; [|done]. injection H as <- <-. split; [done|].
  unfold on_env, zoom in Hrun. destruct (restore_etcd_dump _ _ _) as [e r] eqn:E. injection Hrun as <- ->.
  apply (restore_prefixes_run request_etcd store s ps _ _ _ _ HF) in E as [H1 H2]. intros k. split; [apply H1|by apply H2].
Qed.

(** Talking to the nodes during the restoration of the files does not write the
    etcd of M3: only [RestoreEtcdStep] does. *)
Definition same_etcd (w w' : W) : Prop := store (w_env w') = store (w_env w).
Class NodesLeaveEtcd : Prop := {
  etcd_now w : same_etcd w (fst (env_now env w));
  etcd_sleep d w : same_etcd w (fst (env_sleep env d w));
  etcd_poll u w : same_etcd w (fst (env_poll env u w));
  etcd_handler h p w : progress_handler = Some h → same_etcd w (fst (h p w));
  etcd_request node path req w : same_etcd w (fst (env_request env node path req w));
}.

Lemma restore_before_env (req : RestoreRequest) ctx (w : W) ctx1 w1 : completes (m3_restore_steps_before req) ctx w ctx1 w1 → w_env w1 = w_env w.
Proof using Type.
  intros Hc. unfold m3_restore_steps_before in Hc.
  set (Renv := λ a b : W, w_env b = w_env a). assert (PreOrder Renv) as Hpre.
  { split; [intros a; reflexivity|intros a b c H1 H2; unfold Renv in *; by rewrite H2]. }
  assert (∀ A (m : M SJ A) a, Renv a (fst (on_json m a))) as Hj by (intros A m a; unfold on_json, zoom; by destruct (m _)).
  change (Renv w w1). revert Hc.
  assert (Forall (λ st : Step SJ SH SE, ∀ ctx a, Renv a (fst (run_step st ctx a))) (m3_restore_steps_before req)) as HF.
  { unfold m3_restore_steps_before. repeat (apply Forall_cons; split); [| | | | |apply Forall_nil_2]; intros c a; simpl.
    - apply (R_bind Renv); [reflexivity|intros; reflexivity].
    - case_decide; [|destruct (startswith _ _); reflexivity]. apply (R_bind Renv); [apply Hj|]. intros l b. destruct (last _); reflexivity.
    - apply (R_bind Renv); [reflexivity|intros nm b]. apply (R_bind Renv); [by destruct (bool_decide _)|intros ? ?].
      apply (R_bind Renv); [apply Hj|intros; reflexivity].
    - apply (R_bind Renv); [reflexivity|intros m b]. apply (R_bind Renv); [reflexivity|intros; reflexivity].
    - destruct (nonempty _); [reflexivity|]. do 4 (apply (R_bind Renv); [reflexivity|intros ? ?]). reflexivity. }
  unfold m3_restore_steps_before in HF. revert HF. generalize ([InitStep (p_placement_nodes plugin); BackupNameStep json (rr_name req); BackupManifestStep json;
    MapNodesStep cluster_nodes (rr_partial_restore_nodes req); RewriteEtcdStep (p_placement_nodes plugin) (rr_partial_restore_nodes req)]).
  intros l HF Hc. induction Hc as [|st l c a v b c1 c' a' _ Hrun _ _ IH]; [reflexivity|]. apply Forall_cons in HF as [Hst HF].
  etransitivity; [|by apply IH]. specialize (Hst c a). by rewrite Hrun in Hst.
Qed.

Lemma restore_after_etcd `{!NodesLeaveEtcd} storage_name req ctx (w : W) ctx' w' :
  completes (m3_restore_steps_after storage_name req) ctx w ctx' w' → same_etcd w w'.
Proof using Type.
  intros (v & w1 & ctx1 & Hrun & _ & Hnil)%completes_cons_inv. inversion Hnil; subst.
  assert (PreOrder same_etcd) by (split; [intros a; reflexivity|intros a b c H1 H2; unfold same_etcd in *; by rewrite H2]).
  pose proof (restore_step_R env cluster_nodes poll_config fuel progress_handler same_etcd etcd_now etcd_sleep etcd_poll etcd_handler etcd_request
    storage_name (rr_partial_restore_nodes req) ctx w) as HR. by rewrite Hrun in HR.
Qed.

(** What a run of the steps before leaves for [RestoreEtcdStep]. *)
Lemma rewrite_result req ctx (w : W) ctx1 w1 : completes (m3_restore_steps_before req) ctx w ctx1 w1 →
  if nonempty (rr_partial_restore_nodes req) then get_result ctx1 cls_RewriteEtcdStep = Ok VNone
  else ∃ m mapping pm d, get_manifest ctx1 cls_BackupManifestStep = Ok m ∧ get_node_map ctx1 cls_MapNodesStep = Ok mapping ∧
    decode_m3_manifest (bm_plugin_data m) = Ok pm ∧ get_result ctx1 cls_RewriteEtcdStep = Ok (VEtcdDump d) ∧
    rewrite_etcd parse serialize mapping (placement_nodes pm) (p_placement_nodes plugin) cluster_nodes (etcd pm) = Ok d.
Proof using Type.
  intros Hc. change (m3_restore_steps_before req) with ([InitStep (p_placement_nodes plugin); BackupNameStep json (rr_name req);
    BackupManifestStep json; MapNodesStep cluster_nodes (rr_partial_restore_nodes req)] ++
    [RewriteEtcdStep (p_placement_nodes plugin) (rr_partial_restore_nodes req)]) in Hc.
  apply completes_app in Hc as (ctx0 & w0 & _ & Hc). apply completes_cons_inv in Hc as (v & w2 & ctx2 & Hrw & Hset & Hnil).
  inversion Hnil; subst. clear Hnil. destruct (nonempty _) eqn:Hp.
  - apply set_result_spec in Hset as [Hg _]. cbn [run_step RewriteEtcdStep] in Hrw. rewrite Hp in Hrw. injection Hrw as _ <-. done.
  - apply rewritten_dump in Hrw as (m & mapping & pm & d & _ & -> & Hm & Hmap & Hpm & Hd); [|done].
    apply set_result_spec in Hset as [Hg Hkeep]. exists m, mapping, pm, d. unfold get_manifest, get_node_map.
    by rewrite (Hkeep _ _ Hm eq_refl), (Hkeep _ _ Hmap eq_refl).
Qed.

(** C9: A restore that completes splits into the steps before [RestoreEtcdStep], that
    step, and the restoration of the files, and etcd is written by that step
    alone.  A partial restore leaves etcd as it was.  A full restore writes the dump of the
    manifest it restores: below the prefixes of the dump, etcd then holds
    exactly the keys of the store that was dumped, each with its value, the placement of M3 with
    the nodes of the backup replaced by those that restore them; all other keys
    are as they were before the restore.  That is what etcd still holds when the restore ends, if
    nobody else writes to it while the files are restored. *)
Theorem m3_etcd_restored (storage_name : string) (req : RestoreRequest) ctx (w : W) ctx' w' :
  completes (m3_restore_steps storage_name req) ctx w ctx' w' →
  ∃ ctx1 (w1 : W) ctx2 (w2 : W),
    completes (m3_restore_steps_before req) ctx w ctx1 w1 ∧ completes [RestoreEtcdStep] ctx1 w1 ctx2 w2 ∧
    completes (m3_restore_steps_after storage_name req) ctx2 w2 ctx' w' ∧
    store (w_env w1) = store (w_env w) ∧
    (NodesLeaveEtcd → store (w_env w') = store (w_env w2)) ∧
    if nonempty (rr_partial_restore_nodes req) then w2 = w1
    else ∃ m pm mapping,
      get_manifest ctx1 cls_BackupManifestStep = Ok m ∧ decode_m3_manifest (bm_plugin_data m) = Ok pm ∧
      get_node_map ctx1 cls_MapNodesStep = Ok mapping ∧
      ∀ s ps, Forall2 (dump_of s) ps (prefixes (etcd pm)) → ∀ k,
        (Forall (λ p, ¬ p `prefix_of` k) ps → store (w_env w2) !! k = store (w_env w) !! k) ∧
        (Exists (λ p, p `prefix_of` k) ps →
           store (w_env w2) !! k =
             s !! k ≫= restored_value parse serialize mapping (placement_nodes pm) (p_placement_nodes plugin) cluster_nodes k ∧
           (is_Some (s !! k) → is_Some (store (w_env w2) !! k))).
Proof using EtcdSpec0.
  intros (ctx1 & w1 & Hbefore & Hc)%completes_app. apply completes_app in Hc as (ctx2 & w2 & Hrs & Hafter).
  exists ctx1, w1, ctx2, w2. pose proof (restore_before_env _ _ _ _ _ Hbefore) as Henv.
  split; [done|]. split; [done|]. split; [done|]. split; [by rewrite Henv|]. split; [intros Hq; by apply (restore_after_etcd _ _ _ _ _ _ Hafter)|].
  apply rewrite_result in Hbefore. apply completes_cons_inv in Hrs as (v & w3 & ctx3 & Hrun & _ & Hnil). inversion Hnil; subst. clear Hnil.
  destruct (nonempty _).
  - cbn [run_step RestoreEtcdStep] in Hrun. unfold get_optional_etcd_dump in Hrun. rewrite Hbefore in Hrun.
    erewrite (bind_ok (lift_res _)) in Hrun by reflexivity. by injection Hrun.
  - destruct Hbefore as (m & mapping & pm & d & Hm & Hmap & Hpm & Hg & Hd). rewrite (restore_step_run _ _ _ Hg) in Hrun.
    exists m, pm, mapping. split; [done|]. split; [done|]. split; [done|].
    intros s ps HF k. apply (rewrite_etcd_dump _ _ _ _ _ _ _ _ _ _ HF) in Hd as [HF' Hok].
    destruct (restored_dump _ _ _ _ _ _ Hrun HF') as [_ Hk]. destruct (Hk k) as [Hout Hin]. rewrite Henv in Hout. split; [done|].
    intros Hex. rewrite (Hin Hex). unfold restored_store. rewrite map_lookup_imap. split; [done|].
    intros [v' Hv]. rewrite Hv. simpl. by apply Hok.
Qed.
End theorems.
End steps.
(** ** A cluster of one node *)
Module Examples.
#[local] Existing Instance identity_codec.
Notation SE := (gmap bytes bytes).
Notation example_W := (world (gmap string BackupManifest) (gmap string string) SE).

Definition snapshot : SnapshotResult :=
  mkSnapshotResult "host" "az" (mkProgress 0 0 0 true) 0 None (Some (mkSnapshotState ["**/*.db"] [])) 0 0 (Some []).
Definition env_request_of (node : CoordinatorNode) (path : Path) (req : NodeRequest) : M example_W Cluster.Reply := λ w,
  (w, Ok (match path with
          | PPath "metadata" => Cluster.Replied 200 (Some (BMetadata (mkMetadataResult "1" (feature_value <$> all_features))))
          | PPath "snapshot" => Cluster.Replied 200 (Some (BStart 1 "s"))
          | PPath "upload" => Cluster.Replied 200 (Some (BStart 2 "u"))
          | PPath "download" => Cluster.Replied 200 (Some (BStart 3 "d"))
          | _ => Cluster.HttpFailure
          end)).
Definition poll_of (url : string) : Body :=
  if decide (url = "s") then BSnapshot snapshot
  else if decide (url = "u") then BUpload (mkSnapshotUploadResult "host" "az" (mkProgress 0 0 0 true) 0 0)
  else BNode (mkNodeResult "host" "az" (mkProgress 0 0 0 true)).
Definition env : ClusterEnv example_W := {|
  env_request := env_request_of;
  env_poll url := mret (Some (poll_of url));
  env_now := mret 0;
  env_sleep _ := mret tt;
|}.

Definition manifest_ops : StorageOps (gmap string BackupManifest) BackupManifest := FileStorage.json_ops (λ _, false).
Definition one_node : list CoordinatorNode := [mkCoordinatorNode "n" "az"].
Definition poll_config : PollConfig := mkPollConfig 1 2 60 10 5.
(** The placement is a single byte: whether the node of the restore is in it. *)
Definition parse (value : bytes) : res Placement := match value with [x00] => Ok example_placement | _ => Raise DecodeError end.
Definition serialize (p : Placement) : bytes := match instances p !! "c" with Some _ => [x01] | None => [x00] end.
Definition backup_plugin : M3DBPlugin := mkM3DBPlugin "http://etcd" "env" [example_node "a"].
Definition restore_plugin : M3DBPlugin := mkM3DBPlugin "http://etcd" "env" [example_node "c"].

Definition namespaces_key : bytes := bytes_of_string "_kv/env/m3db.node.namespaces".
Definition placement_key : bytes := bytes_of_string "_sd.placement/env/m3db".
Definition source : gmap bytes bytes := <[namespaces_key := [x07]]> (<[placement_key := [x00]]> ∅).
Definition dump : ETCDDump :=
  mkETCDDump [mkETCDPrefixDump (b64encode namespaces_key) [etcd_key (namespaces_key, [x07])];
              mkETCDPrefixDump (b64encode placement_key) [etcd_key (placement_key, [x00])]].
Definition encode_m3 (m : M3DBManifest) : string := "{}".
Definition decode_m3 (s : string) : res M3DBManifest := Ok (mkM3DBManifest dump [example_node "a"]).

Definition backup_steps : list (Step (gmap string BackupManifest) (gmap string string) SE) :=
  m3_backup_steps manifest_ops FileStorage.hexdigest_ops env one_node poll_config 3 None Memory.serve Memory.first_pick encode_m3
    backup_plugin "st".
Definition start_world : example_W := mkWorld ∅ ∅ source (λ _, 1000000) Op.initial false.
Definition backup := try_run backup_steps (mkStepsContext 1 0 []) start_world.
Definition restore_steps : list (Step (gmap string BackupManifest) (gmap string string) SE) :=
  m3_restore_steps manifest_ops env one_node poll_config 3 None Memory.serve parse serialize decode_m3 restore_plugin "st"
    (mkRestoreRequest "st" "" None None).
Definition restore_world : example_W :=
  mkWorld (w_json (fst backup)) ∅ (<[placement_key ++ [x62] := [x09]]> ∅) (λ _, 1000000) Op.initial false.
Definition restore := try_run restore_steps (mkStepsContext 1 0 []) restore_world.

Definition succeeded {A} (r : res (A * bool)) : bool := match r with Ok (_, b) => b | Raise _ => false end.
Example m3_backup_succeeds : succeeded (snd backup) = true.
Proof. vm_compute. reflexivity. Qed.
Example m3_restore_succeeds : succeeded (snd restore) = true.
Proof. vm_compute. reflexivity. Qed.

Definition context_of (r : res (StepsContext * bool)) : StepsContext :=
  match r with Ok (ctx, _) => ctx | Raise _ => mkStepsContext 1 0 [] end.
Lemma attempt_completes (l : list (Step (gmap string BackupManifest) (gmap string string) SE)) (w : example_W) : let r := try_run l (mkStepsContext 1 0 []) w in
  succeeded (snd r) = true → completes l (mkStepsContext 1 0 []) w (context_of (snd r)) (fst r).
Proof.
  cbv zeta. destruct (try_run _ _ w) as [w' [[ctx' b]|e]] eqn:E; [|done]. cbn. intros ->. by apply try_run_true_iff.
Qed.

#[local] Instance example_nodes_keep : NodesKeep manifest_ops env.
Proof. split; [intros w H|intros d w H|intros url w H|intros node path req w H]; exact H. Qed.
#[local] Instance no_handler_keeps : HandlerKeeps manifest_ops (None : option (Progress → M example_W unit)).
Proof. intros h p w H. discriminate H. Qed.

Lemma m3_manifest_stored_witness :
  ∃ m dump ctx1 (w1 : example_W) ctx2 (w2 : example_W),
    stored_manifest manifest_ops (w_json (fst backup)) "backup-1970-01-01T00:00:00+00:00" m ∧ bm_plugin m = m3db ∧
    bm_plugin_data m = encode_m3 (mkM3DBManifest dump [example_node "a"]) ∧ 1%nat = 1%nat ∧
    completes (m3_steps_before one_node Memory.serve Memory.first_pick backup_plugin) (mkStepsContext 1 0 []) start_world ctx1 w1 ∧
    completes (m3_snapshot_steps FileStorage.hexdigest_ops env one_node poll_config 3 None "st") ctx1 w1 ctx2 w2 ∧
    completes (m3_steps_after manifest_ops Memory.serve Memory.first_pick encode_m3 backup_plugin) ctx2 w2 (context_of (snd backup)) (fst backup) ∧
    get_snapshots ctx2 cls_SnapshotStep = Ok (bm_snapshot_results m) ∧
    get_snapshots (context_of (snd backup)) cls_SnapshotStep = Ok (bm_snapshot_results m) ∧
    Forall2 (dump_of (w_env w1)) (get_etcd_prefixes "env") (prefixes dump) ∧
    Forall2 (dump_of (w_env w2)) (get_etcd_prefixes "env") (prefixes dump).
Proof.
  pose proof (attempt_completes backup_steps start_world m3_backup_succeeds) as Hc.
  apply (m3_manifest_stored manifest_ops FileStorage.hexdigest_ops env one_node poll_config 3 None Memory.serve Memory.first_pick encode_m3
    backup_plugin (@Datatypes.id SE) "st" (mkStepsContext 1 0 []) start_world _ _); [by intros f b _|done|done|exact Hc].
Defined.

Lemma dump_of_source : Forall2 (dump_of source) [namespaces_key; placement_key] (prefixes dump).
Proof.
  constructor; [|constructor; [|constructor]].
  - split; [done|]. split; [eexists; vm_compute; reflexivity|]. exists [(namespaces_key, [x07])]. split; [|done].
    replace (map_to_list _) with [(namespaces_key, [x07])]; [done|]. vm_compute. reflexivity.
  - split; [done|]. split; [eexists; vm_compute; reflexivity|]. exists [(placement_key, [x00])]. split; [|done].
    replace (map_to_list _) with [(placement_key, [x00])]; [done|]. vm_compute. reflexivity.
Qed.

#[local] Instance example_nodes_leave_etcd : NodesLeaveEtcd env None (@Datatypes.id SE).
Proof. split; [done|done|done| |done]. intros h p w H. discriminate H. Qed.

Lemma restored_map : get_node_map (context_of (snd restore)) cls_MapNodesStep = Ok [Some 0%nat].
Proof. vm_compute. reflexivity. Qed.

Lemma node_map_kept (ctx1 : StepsContext) (w1 : example_W) ctx2 w2 ctx' w' mapping :
  completes [RestoreEtcdStep (SJ:=gmap string BackupManifest) (SH:=gmap string string) Memory.serve] ctx1 w1 ctx2 w2 →
  completes (m3_restore_steps_after env one_node poll_config 3 None "st" (mkRestoreRequest "st" "" None None)) ctx2 w2 ctx' w' →
  get_node_map ctx1 cls_MapNodesStep = Ok mapping → get_node_map ctx' cls_MapNodesStep = Ok mapping.
Proof.
  intros Hrs Hafter Hmap. unfold get_node_map in *. destruct (get_result ctx1 cls_MapNodesStep) as [v|] eqn:Ev; [|done].
  destruct v; try done. assert (is_VNone (VNodeMap l) = false) as Hn by done.
  apply (completes_leaves _ _ _ _ _ cls_MapNodesStep (VNodeMap l)) in Hrs as [_ Hk1]; [|pure].
  apply (completes_leaves _ _ _ _ _ cls_MapNodesStep (VNodeMap l)) in Hafter as [_ Hk2]; [|unfold m3_restore_steps_after; pure].
  rewrite (Hk2 (Hk1 Ev Hn) Hn). exact Hmap.
Qed.

Lemma m3_etcd_restored_witness :
  ∃ w' : example_W, w' = fst restore ∧ w_env w' !! placement_key = Some [x01] ∧ is_Some (w_env w' !! namespaces_key).
Proof.
  pose proof (attempt_completes restore_steps restore_world m3_restore_succeeds) as Hc. exists (fst restore). split; [done|].
  revert Hc. cbv zeta. change (fst (try_run restore_steps _ restore_world)) with (fst restore).
  change (snd (try_run restore_steps _ restore_world)) with (snd restore).
  generalize restored_map. generalize (context_of (snd restore)) (fst restore). intros ctx' w' Hmap' Hc.
  destruct (m3_etcd_restored manifest_ops env one_node poll_config 3 None Memory.serve parse serialize decode_m3 restore_plugin (@Datatypes.id SE) "st"
    (mkRestoreRequest "st" "" None None) (mkStepsContext 1 0 []) restore_world _ _ Hc) as
    (ctx1 & w1 & ctx2 & w2 & _ & Hrs & Hafter & _ & Hquiet & m & pm & mapping & Hm & Hpm & Hmap & H).
  specialize (Hquiet example_nodes_leave_etcd). change (w_env w' = w_env w2) in Hquiet. rewrite Hquiet. injection Hpm as <-.
  assert (mapping = [Some 0%nat]) as -> by (apply (node_map_kept _ _ _ _ _ _ _ Hrs Hafter) in Hmap; congruence).
  specialize (H source [namespaces_key; placement_key] dump_of_source). split.
  - destruct (H placement_key) as [_ Hin]. destruct Hin as [Hin _]; [by apply Exists_cons_tl, Exists_cons_hd|].
    transitivity (source !! placement_key ≫= restored_value parse serialize [Some 0%nat] [example_node "a"] [example_node "c"] one_node placement_key);
      [exact Hin|vm_compute; reflexivity].
  - destruct (H namespaces_key) as [_ Hin]. apply Hin; [by apply Exists_cons_hd|]. exists [x07]. vm_compute. reflexivity.
Defined.
End Examples.
End M3Plugin.
