(* ===== verification/FlinkPlugin.v ===== *)
(** * The Flink plugin ([coordinator/plugins/flink/plugin.py],
      [coordinator/plugins/flink/steps.py])

    The steps of a backup and of a restore of the catalog of Flink, around
    what [Flink] models of ZooKeeper, which is part of the environment. *)

From stdpp Require Import base gmap strings list.
From Stdlib Require Import ZArith Lia.
From S2P Require Import Prelude Progress Ipc Storage Op ZooKeeper Flink Steps NodeLock Cluster Datetime BackupRestore.
From S2P Require Import StepFacts ChClient ZooKeeperConfig.

Local Open Scope Z_scope.

Module FlinkPlugin.
Import ZooKeeperConfig BackupRestore StepFacts.

Record FlinkPlugin : Type := mkFlinkPlugin {
  p_zookeeper : ZooKeeperConfiguration;
  p_zookeeper_paths : list string;
}.

Definition cls_RetrieveDataStep := cls_plugin "RetrieveDataStep".
Definition cls_PrepareFlinkManifestStep := cls_plugin "PrepareFlinkManifestStep".
Definition cls_FlinkManifestStep := cls_plugin "FlinkManifestStep".
Definition cls_RestoreDataStep := cls_plugin "RestoreDataStep".

Section steps.
Context {SJ SH SE B : Type} (json : StorageOps SJ B) `{!ManifestCodec B}.
Local Notation W := (world SJ SH SE).
(** JSON, as manifests are stored. *)
Context (encode_plugin_data : Flink.value → string) (decode_plugin_data : string → Flink.value).
(** The ZooKeeper that the environment has, the connection of a step, the
    number of its watch, and the depth that trees can have. *)
Context (zookeeper : SE → Flink.W) (set_zookeeper : Flink.W → SE → SE) (connection change_watch fuel : nat).
Definition on_zookeeper {A} (m : M Flink.W A) : M SE A := zoom zookeeper set_zookeeper m.

Definition RetrieveDataStep (zookeeper_paths : list string) : Step SJ SH SE := mkStep cls_RetrieveDataStep (λ _,
  results ← on_env (on_zookeeper (Flink.retrieve_data connection change_watch fuel zookeeper_paths));
  mret (VFlinkData results)).

Definition PrepareFlinkManifestStep : Step SJ SH SE := mkStep cls_PrepareFlinkManifestStep (λ ctx,
  results ← lift_res (get_flink_data ctx cls_RetrieveDataStep);
  mret (VPluginData (encode_plugin_data (Flink.prepare_flink_manifest results)))).

Definition FlinkManifestStep : Step SJ SH SE := mkStep cls_FlinkManifestStep (λ ctx,
  backup_manifest ← lift_res (get_manifest ctx cls_BackupManifestStep);
  data ← lift_res (Flink.flink_manifest (decode_plugin_data (bm_plugin_data backup_manifest)));
  mret (VFlinkManifest data)).

Definition RestoreDataStep (zookeeper_paths : list string) : Step SJ SH SE := mkStep cls_RestoreDataStep (λ ctx,
  data ← lift_res (get_flink_manifest ctx cls_FlinkManifestStep);
  on_env (on_zookeeper (Flink.restore_data connection zookeeper_paths data)) ;; mret VNone).

(** ** The lists of steps *)
Context (plugin : FlinkPlugin).
Definition flink_backup_steps : list (Step SJ SH SE) :=
  [RetrieveDataStep (p_zookeeper_paths plugin);
   PrepareFlinkManifestStep;
   UploadManifestStep json flink (Some cls_PrepareFlinkManifestStep) None None JSON_BACKUP_PREFIX].

Definition flink_delta_backup_steps : res (list (Step SJ SH SE)) := Raise NotImplementedError.

Definition flink_restore_steps (req : RestoreRequest) : list (Step SJ SH SE) :=
  [BackupNameStep json (rr_name req);
   BackupManifestStep json;
   FlinkManifestStep;
   RestoreDataStep (p_zookeeper_paths plugin)].

(** ** A backup *)
Section theorems.
Context `{!StorageSpec json} (zookeeper_set : ∀ z e, zookeeper (set_zookeeper z e) = z).
Import ZooKeeper Flink.
Local Notation W := (world SJ SH SE).

Lemma on_zookeeper_ok {A} (m : M Flink.W A) (w w' : W) a :
  on_env (on_zookeeper m) w = (w', Ok a) → w_json w' = w_json w ∧ m (zookeeper (w_env w)) = (zookeeper (w_env w'), Ok a).
Proof using zookeeper_set.
  unfold on_env, on_zookeeper, zoom. destruct (m (zookeeper (w_env w))) as [z r]. intros [= <- ->]. simpl. by rewrite zookeeper_set.
Qed.

(** C11: A backup of Flink that completes has stored a manifest from which a restore
    reads back the retrieved data.  Whatever other clients did meanwhile, the data
    has, for each of the configured paths and no other, one of three results.  It
    has the tree that ZooKeeper held there at the end of the retrieval.  Or it has
    nothing, and the path did not exist at some moment of the retrieval.  Or it has an
    empty tree, and the path did exist and then did not exist, at two moments
    of the retrieval: the deletion of a path between the moment it is seen to exist and
    the moment it is watched goes unnoticed. *)
Theorem flink_backup_consistent ctx (w : W) ctx' w' :
  st_inv (ops:=json) (w_json w) → (∀ m, st_value (ops:=json) (encode_manifest m)) →
  let name := make_backup_name JSON_BACKUP_PREFIX ctx in
  st_name (ops:=json) name →
  Forall (λ p, ∃ k, canonical k ∧ p = path_of k) (p_zookeeper_paths plugin) →
  Forall (Forall (request_ok connection)) (zookeeper (w_env w)).2 → all_canonical (storage (zookeeper (w_env w)).1) →
  completes flink_backup_steps ctx w ctx' w' →
  ∃ m data (w1 : W),
    stored_manifest json (w_json w') name m ∧ bm_plugin m = flink ∧
    (decode_plugin_data (encode_plugin_data (prepare_flink_manifest data)) = prepare_flink_manifest data →
     ∀ ctx2 (w2 : W), get_manifest ctx2 cls_BackupManifestStep = Ok (set_filename name m) →
       run_step FlinkManifestStep ctx2 w2 = (w2, Ok (VFlinkManifest (Some data)))) ∧
    (∃ ctx1, completes [RetrieveDataStep (p_zookeeper_paths plugin)] ctx w ctx1 w1 ∧
       Steps.get_result ctx1 cls_RetrieveDataStep = Ok (VFlinkData data) ∧
       completes (tail flink_backup_steps) ctx1 w1 ctx' w') ∧
    let before := zookeeper (w_env w) in
    let after := zookeeper (w_env w1) in
    moves before after ∧ (∀ p, is_Some (dict_get data p) → p ∈ p_zookeeper_paths plugin) ∧
    ∀ k, canonical k → path_of k ∈ p_zookeeper_paths plugin →
      match dict_get data (path_of k) with
      | None => missing before after k
      | Some v => ∃ items, v = VDict items ∧
          (is_Some (storage after.1 !! k) ∧ reads (storage after.1) (λ _, True) k items ∨ items = [] ∧ vanished before after k)
      end.
Proof using zookeeper_set.
  intros Hinv Hval name Hname Hpaths Hothers Hkeys Hc.
  apply (completes_app [_]) in Hc as (ctx1 & w1 & Hfirst & Hc). pose proof Hfirst as Hfirst'.
  apply completes_cons_inv in Hfirst as (v & wa & ctxa & Hr & Hset & Hnil). inversion Hnil; subst. clear Hnil.
  cbn [run_step RetrieveDataStep] in Hr. apply bind_inv_ok in Hr as (w1' & data & Hr & H). injection H as -> <-.
  apply on_zookeeper_ok in Hr as [Hj Hr]. pose proof Hc as Htail. pose proof (set_result_start _ _ _ _ Hset) as Hs1.
  apply set_result_spec in Hset as [Hg1 _].
  apply completes_cons_inv in Hc as (v2 & w2 & ctx2 & Hp & Hset & Hc). cbn [run_step PrepareFlinkManifestStep] in Hp.
  unfold get_flink_data in Hp. cbn [step_class RetrieveDataStep] in Hg1. rewrite Hg1 in Hp.
  erewrite (bind_ok (lift_res _)) in Hp by reflexivity. injection Hp as <- <-.
  pose proof (set_result_start _ _ _ _ Hset) as Hs2. apply set_result_spec in Hset as [Hg2 _].
  apply completes_cons_inv in Hc as (v3 & w3 & ctx3 & Hup & _ & Hnil). inversion Hnil; subst. clear Hnil.
  assert (make_backup_name JSON_BACKUP_PREFIX ctx2 = name) as Hn by (unfold make_backup_name, name; by rewrite Hs2; simpl; rewrite Hs1).
  apply (uploaded_manifest json _ _ _ _ _ _ _ _ _ Hg2) in Hup as (m & Hst & Hpl & Hpd & _); [|by rewrite Hj|done|by rewrite Hn].
  rewrite Hn in Hst. exists m, data, w1. split; [done|]. split; [done|]. split; [|split].
  - intros Hjson ctx4 w4 Hm. assert (bm_plugin_data (set_filename name m) = encode_plugin_data (prepare_flink_manifest data)) as Hd by by destruct m.
    cbn [run_step FlinkManifestStep]. rewrite Hm. erewrite (bind_ok (lift_res _)) by reflexivity. rewrite Hd, Hjson. done.
  - exists ctx1. split; [done|]. split; [exact Hg1|done].
  - by eapply retrieve_consistent.
Qed.
End theorems.
End steps.

(** ** A catalog that is read while another client creates a node elsewhere *)
Module Examples.
#[local] Existing Instance identity_codec.
Notation example_W := (world (gmap string BackupManifest) (gmap string string) Flink.W).
Definition manifest_ops : StorageOps (gmap string BackupManifest) BackupManifest := FileStorage.json_ops (λ _, false).
Definition plugin : FlinkPlugin := mkFlinkPlugin (mkZooKeeperConfiguration [] None) ["/catalog"].
Definition steps : list (Step (gmap string BackupManifest) (gmap string string) Flink.W) :=
  flink_backup_steps manifest_ops (λ _, "{}") (λ z, z) (λ z _, z) 1 9 4 plugin.
Definition start_world : example_W :=
  mkWorld ∅ ∅ (Flink.example_source, Flink.example_script) (λ _, 1000000) Op.initial false.
Definition backup := try_run steps (mkStepsContext 1 0 []) start_world.
Definition succeeded {A} (r : res (A * bool)) : bool := match r with Ok (_, b) => b | Raise _ => false end.
Example flink_backup_succeeds : succeeded (snd backup) = true.
Proof. vm_compute. reflexivity. Qed.
Lemma flink_backup_completes : ∃ ctx', completes steps (mkStepsContext 1 0 []) start_world ctx' (fst backup).
Proof.
  pose proof flink_backup_succeeds as H. destruct (snd backup) as [[ctx' b]|e] eqn:E; [|discriminate H]. simpl in H. subst b.
  exists ctx'. apply try_run_true_iff. unfold backup in *. rewrite <- E. apply surjective_pairing.
Qed.

Lemma flink_backup_consistent_witness :
  ∃ m data (w1 : example_W),
    stored_manifest manifest_ops (w_json (fst backup)) "backup-1970-01-01T00:00:00+00:00" m ∧ bm_plugin m = flink ∧
    (∀ p, is_Some (dict_get data p) → p ∈ ["/catalog"]) ∧
    ∀ k, Flink.canonical k → ZooKeeper.path_of k ∈ ["/catalog"] →
      match dict_get data (ZooKeeper.path_of k) with
      | None => Flink.missing (Flink.example_source, Flink.example_script) (w_env w1) k
      | Some v => ∃ items, v = Flink.VDict items ∧
          (is_Some (ZooKeeper.storage (w_env w1).1 !! k) ∧ Flink.reads (ZooKeeper.storage (w_env w1).1) (λ _, True) k items ∨
           items = [] ∧ Flink.vanished (Flink.example_source, Flink.example_script) (w_env w1) k)
      end.
Proof.
  destruct flink_backup_completes as [ctx' Hc].
  destruct (flink_backup_consistent manifest_ops (λ _, "{}") (λ _, Flink.VStr "") (λ z : Flink.W, z) (λ z _, z) 1 9 4 plugin (λ z e, eq_refl)
    (mkStepsContext 1 0 []) start_world ctx' (fst backup)) as (m & data & w1 & Hst & Hp & _ & _ & _ & Hdom & Hd).
  - by intros f b _.
  - done.
  - done.
  - apply Forall_singleton. exists Flink.catalog. split; [|reflexivity]. exists ["catalog"]. split; [done|]. by repeat constructor.
  - constructor; [constructor|]. constructor; [|constructor]. constructor; [|constructor]. split; [done|].
    apply Forall_singleton. exists ["other";"y"]. split; [done|]. by repeat constructor.
  - apply Flink.example_canonical.
  - exact Hc.
  - exists m, data, w1. split; [exact Hst|]. split; [exact Hp|]. split; [exact Hdom|exact Hd].
Defined.
End Examples.
End FlinkPlugin.
