(* ===== verification/Rohmu.v ===== *)
(** * Object storage on rohmu ([common/rohmustorage.py])

    The storage that is used in production: contents are compressed and
    encrypted as the configuration says, stored with metadata that say how,
    and read back as the metadata say, whatever the configuration is by then.
    The transfer of objects, the formats of files and RSA keys are rohmu's and
    cryptography's: parameters with their laws.  The storage implements
    [StorageSpec] for both of its name spaces. *)

From stdpp Require Import base gmap strings list sorting.
From Stdlib Require Import ZArith Lia Ascii Strings.Byte.
From S2P Require Import Prelude Storage.

Local Open Scope Z_scope.

Module Rohmu.
Notation bytes := (list byte).

(** ** Configuration *)
Record RohmuEncryptionKey : Type := mkRohmuEncryptionKey { public : string; private : string }.
Inductive RohmuCompressionType : Type := lzma | snappy | zstd.
Definition compression_value (a : RohmuCompressionType) : string :=
  match a with lzma => "lzma" | snappy => "snappy" | zstd => "zstd" end.
Record RohmuCompression : Type := mkRohmuCompression { algorithm : option RohmuCompressionType; level : Z }.

Section rohmu.
(** The configuration of a storage of rohmu, and what rohmu makes of it. *)
Context {StorageConfig : Type}.
Record RohmuConfig : Type := mkRohmuConfig {
  temporary_directory : string;
  default_storage : string;
  storages : gmap string StorageConfig;
  encryption_key_id : option string;
  encryption_keys : gmap string RohmuEncryptionKey;
  compression : RohmuCompression;
}.

(** [if config.encryption_key_id] *)
Definition truthy_key (c : RohmuConfig) : option string :=
  match encryption_key_id c with Some EmptyString => None | o => o end.

(** Metadata of an object, in the order in which [dict] writes them. *)
Notation Metadata := (list (string * string)).
Record RohmuMetadata : Type := mkRohmuMetadata {
  md_encryption_key_id : option string;
  md_compression_algorithm : option RohmuCompressionType;
}.
(** [metadata.dict(exclude_defaults=True, by_alias=True)] *)
Definition metadata_dict (m : RohmuMetadata) : Metadata :=
  match md_encryption_key_id m with Some i => [("encryption-key-id", i)] | None => [] end ++
  match md_compression_algorithm m with Some a => [("compression-algorithm", compression_value a)] | None => [] end.

(** ** Rohmu and cryptography *)
Context {S RSAPublicKey RSAPrivateKey : Type}.
Record Transfer : Type := mkTransfer {
  get_contents_to_fileobj : string → M S (bytes * Metadata);
  store_file_object : string → bytes → Metadata → M S unit;
  delete_key : string → M S unit;
  list_iter : string → M S (list string);
}.
(** [None]: a key, but not an RSA key. *)
Context (load_pem_private_key : string → res (option RSAPrivateKey)) (load_pem_public_key : string → res (option RSAPublicKey)).
(** The streams, read to their end; encryption draws random numbers. *)
Context (compress : RohmuCompressionType → Z → bytes → bytes) (encrypt : RSAPublicKey → S → bytes → bytes).
Context (read_file : bytes → Metadata → (string → res RSAPrivateKey) → res bytes).
Context (get_transfer_from_model : StorageConfig → Transfer).

(** [rohmu_error_wrapper]; [except Exception] does not catch a cancellation. *)
Definition rohmu_error_wrapper {A} (m : M S A) : M S A := λ s,
  match m s with
  | (s', Raise FileNotFoundFromStorageError) => (s', Raise NotFoundException)
  | (s', Raise CancelledError) => (s', Raise CancelledError)
  | (s', Raise OutOfFuel) => (s', Raise OutOfFuel)
  | (s', Raise _) => (s', Raise RohmuException)
  | r => r
  end.

(** [os.path.join] and [os.path.basename] *)
Definition path_join (a b : string) : string :=
  if startswith "/" b then b
  else if bool_decide (a = "") || bool_decide (String.get (pred (String.length a)) a = Some "/"%char) then a +:+ b else a +:+ String "/" b.
Definition basename (p : string) : string := rpartition_last "/"%char p.

(** ** [RohmuStorage] *)
Record RohmuStorage : Type := mkRohmuStorage {
  config : RohmuConfig;
  storage_name : string;
  storage : Transfer;
}.
Definition hexdigest_key : string := "data".
Definition json_key : string := "json".

(** [_choose_storage] *)
Definition choose_storage (c : RohmuConfig) (storage : option string) : res (string * Transfer) :=
  let name := match storage with None | Some EmptyString => default_storage c | Some n => n end in
  match storages c !! name with Some sc => Ok (name, get_transfer_from_model sc) | None => Raise KeyError end.

Definition new_storage (c : RohmuConfig) (name : option string) : res RohmuStorage :=
  t ← choose_storage c name;
  match algorithm (compression c), truthy_key c with
  | None, None => Raise CompressionOrEncryptionRequired
  | _, _ => Ok (mkRohmuStorage c t.1 t.2)
  end.
Definition copy (self : RohmuStorage) : res RohmuStorage := new_storage (config self) (Some (storage_name self)).

(** [MultiRohmuStorage] *)
Definition get_storage (c : RohmuConfig) (name : option string) : res RohmuStorage := new_storage c name.
Definition get_default_storage_name (c : RohmuConfig) : string := default_storage c.
Definition list_storages (c : RohmuConfig) : list string := py_sorted str_leb (map_to_list (storages c)).*1.

Section storage.
Context (self : RohmuStorage).
Notation conf := (config self).

Definition lookup_key {K} (field : RohmuEncryptionKey → string) (load : string → res (option K)) (key_id : string) : res K :=
  match encryption_keys conf !! key_id with
  | None => Raise KeyError
  | Some k => key ← load (field k); match key with Some key => Ok key | None => Raise ValueError end
  end.
Definition loaded_private_key_lookup (key_id : string) : res RSAPrivateKey := lookup_key private load_pem_private_key key_id.
Definition loaded_public_key_lookup (key_id : string) : res RSAPublicKey := lookup_key public load_pem_public_key key_id.

Definition download_key_to_file (key : string) : M S bytes := rohmu_error_wrapper (
  o ← get_contents_to_fileobj (storage self) key;
  lift_res (read_file o.1 o.2 loaded_private_key_lookup)).

Definition list_key (key : string) : M S (list string) :=
  l ← list_iter (storage self) key; mret (basename <$> l).

(** The stored size is that of the streams' output. *)
Record StorageUploadResult : Type := mkStorageUploadResult { size : Z; stored_size : Z }.

Definition upload_key_from_file (key : string) (f : bytes) (file_size : Z) : M S StorageUploadResult := rohmu_error_wrapper (
  let compressed := match algorithm (compression conf) with Some a => compress a (level (compression conf)) f | None => f end in
  match truthy_key conf with
  | Some key_id =>
      rsa_public_key ← lift_res (loaded_public_key_lookup key_id);
      s ← get;
      let wrapped := encrypt rsa_public_key s compressed in
      store_file_object (storage self) key wrapped (metadata_dict (mkRohmuMetadata (Some key_id) (algorithm (compression conf)))) ;;
      mret (mkStorageUploadResult file_size (Z.of_nat (length wrapped)))
  | None =>
      store_file_object (storage self) key compressed (metadata_dict (mkRohmuMetadata None (algorithm (compression conf)))) ;;
      mret (mkStorageUploadResult file_size (Z.of_nat (length compressed)))
  end).

Definition delete_hexdigest (hexdigest : string) : M S unit :=
  rohmu_error_wrapper (delete_key (storage self) (path_join hexdigest_key hexdigest)).
Definition list_hexdigests : M S (list string) := list_key hexdigest_key.
Definition download_hexdigest_to_file (hexdigest : string) : M S bytes := download_key_to_file (path_join hexdigest_key hexdigest).
Definition upload_hexdigest_from_file (hexdigest : string) (f : bytes) (file_size : Z) : M S StorageUploadResult :=
  upload_key_from_file (path_join hexdigest_key hexdigest) f file_size.

Definition delete_json (name : string) : M S unit :=
  rohmu_error_wrapper (delete_key (storage self) (path_join json_key name)).
(** An empty file cannot be mapped. *)
Definition open_json_bytes (name : string) : M S bytes :=
  b ← download_key_to_file (path_join json_key name);
  match b with [] => raise ValueError | _ => mret b end.
Definition list_jsons : M S (list string) := list_key json_key.
Definition upload_json_bytes (name : string) (data : bytes) : M S bool :=
  upload_key_from_file (path_join json_key name) data (Z.of_nat (length data)) ;; mret true.

Definition hexdigest_ops : StorageOps S bytes :=
  mkStorageOps _ _ delete_hexdigest download_hexdigest_to_file list_hexdigests
    (λ hexdigest data, upload_hexdigest_from_file hexdigest data (Z.of_nat (length data)) ;; mret true).
Definition json_ops : StorageOps S bytes :=
  mkStorageOps _ _ delete_json open_json_bytes list_jsons upload_json_bytes.
End storage.

(** ** What rohmu promises *)
Definition valid_name (n : string) : Prop := n ≠ "" ∧ free_of "/"%char n = true.
#[global] Instance valid_name_dec n : Decision (valid_name n). Proof. apply _. Defined.
Definition object_path (dir n : string) : string := dir +:+ String "/" n.

Context (objects : S → gmap string (bytes * Metadata)).
(** A transfer that is available, as a map of objects by path. *)
Class TransferSpec (t : Transfer) : Prop := {
  get_contents_spec key s :
    match objects s !! key with
    | Some o => ∃ s', get_contents_to_fileobj t key s = (s', Ok o) ∧ objects s' = objects s
    | None => ∃ s', get_contents_to_fileobj t key s = (s', Raise FileNotFoundFromStorageError) ∧ objects s' = objects s
    end;
  store_spec key b md s : ∃ s', store_file_object t key b md s = (s', Ok tt) ∧ objects s' = <[key := (b, md)]> (objects s);
  delete_key_spec key s :
    match objects s !! key with
    | Some _ => ∃ s', delete_key t key s = (s', Ok tt) ∧ objects s' = delete key (objects s)
    | None => ∃ s', delete_key t key s = (s', Raise FileNotFoundFromStorageError) ∧ objects s' = objects s
    end;
  list_iter_spec dir s : free_of "/"%char dir = true → ∃ s' l, list_iter t dir s = (s', Ok l) ∧ objects s' = objects s ∧ NoDup l ∧
    ∀ p, p ∈ l ↔ is_Some (objects s !! p) ∧ ∃ n, valid_name n ∧ p = object_path dir n;
}.

(** Reading a file undoes what its metadata say was done to it. *)
Context (key_pair : RSAPublicKey → RSAPrivateKey → Prop).
Class FileSpec : Prop := {
  read_plain b lookup : read_file b [] lookup = Ok b;
  read_compressed a l b lookup : read_file (compress a l b) [("compression-algorithm", compression_value a)] lookup = Ok b;
  read_encrypted pub priv s b i md lookup : lookup i = Ok priv → key_pair pub priv →
    read_file (encrypt pub s b) (("encryption-key-id", i) :: md) lookup = read_file b md lookup;
}.

Section spec.
Context (self : RohmuStorage) {TransferSpec0 : TransferSpec (storage self)} {FileSpec0 : FileSpec}.
Notation conf := (config self).
(** The key that the configuration encrypts with is one it can decrypt with. *)
Class KeysFit : Prop := keys_fit i : truthy_key conf = Some i →
  ∃ pub priv, loaded_public_key_lookup self i = Ok pub ∧ loaded_private_key_lookup self i = Ok priv ∧ key_pair pub priv.
Context {KeysFit0 : KeysFit}.

Definition readable (o : bytes * Metadata) : option bytes :=
  match read_file o.1 o.2 (loaded_private_key_lookup self) with Ok b => Some b | Raise _ => None end.

Lemma wrapped_ok {A} (m : M S A) s s' a : m s = (s', Ok a) → rohmu_error_wrapper m s = (s', Ok a).
Proof using Type. unfold rohmu_error_wrapper. by intros ->. Qed.
Lemma wrapped_not_found {A} (m : M S A) s s' :
  m s = (s', Raise FileNotFoundFromStorageError) → rohmu_error_wrapper m s = (s', Raise NotFoundException).
Proof using Type. unfold rohmu_error_wrapper. by intros ->. Qed.

Lemma upload_key_spec key f n s : ∃ s' w md u,
  upload_key_from_file self key f n s = (s', Ok u) ∧ objects s' = <[key := (w, md)]> (objects s) ∧ readable (w, md) = Some f ∧
  size u = n ∧ stored_size u = Z.of_nat (length w).
Proof using TransferSpec0 FileSpec0 KeysFit0.
  unfold upload_key_from_file, readable.
  set (compressed := match algorithm (compression conf) with Some a => _ | None => f end).
  assert (∀ i, read_file compressed (metadata_dict (mkRohmuMetadata None (algorithm (compression conf)))) i = Ok f) as Hc.
  { intros i. unfold compressed. destruct (algorithm (compression conf)); [apply read_compressed|apply read_plain]. }
  destruct (truthy_key conf) as [i|] eqn:Ei.
  - destruct (keys_fit i Ei) as (pub & priv & Hpub & Hpriv & Hpair). rewrite Hpub.
    destruct (store_spec key (encrypt pub s compressed) (metadata_dict (mkRohmuMetadata (Some i) (algorithm (compression conf)))) s)
      as (s' & Hs & Ho).
    eexists s', _, _, (mkStorageUploadResult n _). split; [|split; [exact Ho|]].
    + apply wrapped_ok. rewrite (bind_ok (lift_res (Ok pub)) _ s s pub) by done. rewrite (bind_ok get _ s s s) by done.
      rewrite (bind_ok _ _ _ _ _ Hs). reflexivity.
    + cbn [fst snd].
      change (metadata_dict (mkRohmuMetadata (Some i) (algorithm (compression conf)))) with
        (("encryption-key-id", i) :: metadata_dict (mkRohmuMetadata None (algorithm (compression conf)))).
      rewrite (read_encrypted pub priv _ _ _ _ _ Hpriv Hpair). by rewrite (Hc (loaded_private_key_lookup self)).
  - destruct (store_spec key compressed (metadata_dict (mkRohmuMetadata None (algorithm (compression conf)))) s) as (s' & Hs & Ho).
    eexists s', _, _, (mkStorageUploadResult n _). split; [|split; [exact Ho|]].
    + apply wrapped_ok. rewrite (bind_ok _ _ _ _ _ Hs). reflexivity.
    + cbn [fst snd]. by rewrite Hc.
Qed.

Lemma download_key_spec key s :
  match objects s !! key ≫= readable with
  | Some b => ∃ s', download_key_to_file self key s = (s', Ok b) ∧ objects s' = objects s
  | None => objects s !! key = None → ∃ s', download_key_to_file self key s = (s', Raise NotFoundException) ∧ objects s' = objects s
  end.
Proof using TransferSpec0.
  unfold download_key_to_file, readable. pose proof (get_contents_spec key s) as H. destruct (objects s !! key) as [o|] eqn:E; simpl.
  - destruct H as (s' & Hg & Ho). destruct (read_file o.1 o.2 _) as [b|e] eqn:Er; [|done].
    exists s'. split; [|done]. apply wrapped_ok. erewrite bind_ok by exact Hg. unfold lift_res. by rewrite Er.
  - intros _. destruct H as (s' & Hg & Ho). exists s'. split; [|done]. apply wrapped_not_found. by erewrite bind_raise by exact Hg.
Qed.

Lemma delete_spec key s :
  match objects s !! key with
  | Some _ => ∃ s', rohmu_error_wrapper (delete_key (storage self) key) s = (s', Ok tt) ∧ objects s' = delete key (objects s)
  | None => ∃ s', rohmu_error_wrapper (delete_key (storage self) key) s = (s', Raise NotFoundException) ∧ objects s' = objects s
  end.
Proof using TransferSpec0.
  pose proof (delete_key_spec key s) as H. destruct (objects s !! key); destruct H as (s' & Hd & Ho);
    exists s'; (split; [by (apply wrapped_ok || apply wrapped_not_found)|done]).
Qed.

(** *** One of the name spaces: the objects in a directory *)
Section directory.
Context (dir : string) (ok : bytes → Prop).
Context (dir_join : ∀ n, valid_name n → path_join dir n = object_path dir n) (dir_plain : free_of "/"%char dir = true).

Definition dir_inv (s : S) : Prop :=
  ∀ n o, valid_name n → objects s !! object_path dir n = Some o → ∃ b, readable o = Some b ∧ ok b.
Definition dir_lookup (s : S) (n : string) : option bytes :=
  if decide (valid_name n) then objects s !! object_path dir n ≫= readable else None.

Lemma object_path_inj n m : object_path dir n = object_path dir m → n = m.
Proof using Type. unfold object_path. clear. induction dir as [|c d IH]; simpl; intros [= H]; auto. Qed.

Lemma basename_path n : valid_name n → basename (object_path dir n) = n.
Proof using dir_plain.
  intros [_ Hn]. unfold basename, rpartition_last, object_path. rewrite split_on_app by done. by rewrite split_on_free.
Qed.

Lemma dir_lookup_name s n b : dir_lookup s n = Some b → valid_name n.
Proof using Type. unfold dir_lookup. by case_decide. Qed.
Lemma dir_lookup_valid s n : valid_name n → dir_lookup s n = objects s !! object_path dir n ≫= readable.
Proof using Type. intros Hn. unfold dir_lookup. by rewrite decide_True. Qed.
Lemma dir_lookup_None s n : dir_inv s → valid_name n → dir_lookup s n = None → objects s !! object_path dir n = None.
Proof using Type.
  intros Hinv Hn. rewrite dir_lookup_valid by done. destruct (objects s !! object_path dir n) as [o|] eqn:E; [|done].
  destruct (Hinv n o Hn E) as (b & Hb & _). simpl. by rewrite Hb.
Qed.
Lemma dir_lookup_ok s n b : dir_inv s → dir_lookup s n = Some b → ok b.
Proof using Type.
  intros Hinv H. pose proof (dir_lookup_name _ _ _ H) as Hn. rewrite dir_lookup_valid in H by done.
  apply bind_Some in H as (o & Ho & Hb). destruct (Hinv n o Hn Ho) as (b' & Hb' & Hok). congruence.
Qed.
Lemma dir_same s s' : objects s' = objects s → dir_inv s → dir_inv s' ∧ ∀ m, dir_lookup s' m = dir_lookup s m.
Proof using Type. intros E Hinv. unfold dir_inv, dir_lookup. rewrite E. done. Qed.

Lemma dir_insert s s' n o b : valid_name n → objects s' = <[object_path dir n := o]> (objects s) → readable o = Some b → ok b →
  dir_inv s → dir_inv s' ∧ ∀ m, dir_lookup s' m = if decide (m = n) then Some b else dir_lookup s m.
Proof using Type.
  intros Hn E Hb Hok Hinv. split.
  - intros m o' Hm. rewrite E, lookup_insert_Some. intros [[H <-]|[_ H]]; [by exists b|by apply (Hinv m)].
  - intros m. destruct (decide (m = n)) as [->|Hne].
    + rewrite dir_lookup_valid, E, lookup_insert_eq by done. exact Hb.
    + unfold dir_lookup. rewrite E, lookup_insert_ne; [done|]. intros H%object_path_inj. congruence.
Qed.
Lemma dir_delete s s' n : valid_name n → objects s' = delete (object_path dir n) (objects s) →
  dir_inv s → dir_inv s' ∧ ∀ m, dir_lookup s' m = if decide (m = n) then None else dir_lookup s m.
Proof using Type.
  intros Hn E Hinv. split.
  - intros m o' Hm. rewrite E, lookup_delete_Some. intros [_ H]. by apply (Hinv m).
  - intros m. destruct (decide (m = n)) as [->|Hne].
    + by rewrite dir_lookup_valid, E, lookup_delete_eq.
    + unfold dir_lookup. rewrite E, lookup_delete_ne; [done|]. intros H%object_path_inj. congruence.
Qed.

Lemma dir_list s : dir_inv s → ∃ s' l, list_key self dir s = (s', Ok l) ∧ dir_inv s' ∧ (∀ m, dir_lookup s' m = dir_lookup s m) ∧
  NoDup l ∧ ∀ n, n ∈ l ↔ is_Some (dir_lookup s n).
Proof using TransferSpec0 dir_plain.
  intros Hinv. destruct (list_iter_spec dir s dir_plain) as (s' & l & Hl & Ho & Hnd & Hin). destruct (dir_same s s' Ho Hinv) as [Hinv' Hlk].
  exists s', (basename <$> l). split; [unfold list_key; by rewrite (bind_ok _ _ _ _ _ Hl)|]. split; [done|]. split; [done|]. split.
  - apply NoDup_fmap_2_strong; [|done]. intros p q Hp Hq. apply Hin in Hp as (_ & n & Hn & ->), Hq as (_ & m & Hm & ->).
    rewrite !basename_path by done. by intros ->.
  - intros n. rewrite list_elem_of_fmap. split.
    + intros (p & -> & Hp). apply Hin in Hp as ([o Ho'] & m & Hm & ->). rewrite basename_path, dir_lookup_valid by done. rewrite Ho'.
      destruct (Hinv m o Hm Ho') as (b & Hb & _). simpl. by rewrite Hb.
    + intros [b Hb]. pose proof (dir_lookup_name _ _ _ Hb) as Hn. exists (object_path dir n). split; [by rewrite basename_path|].
      apply Hin. split; [|by exists n]. rewrite dir_lookup_valid in Hb by done. apply bind_Some in Hb as (o & Ho' & _). by rewrite Ho'.
Qed.

Lemma dir_delete_key s n : dir_inv s → valid_name n →
  let run := rohmu_error_wrapper (delete_key (storage self) (path_join dir n)) s in
  match dir_lookup s n with
  | Some _ => ∃ s', run = (s', Ok tt) ∧ dir_inv s' ∧ ∀ m, dir_lookup s' m = if decide (m = n) then None else dir_lookup s m
  | None => ∃ s', run = (s', Raise NotFoundException) ∧ dir_inv s' ∧ ∀ m, dir_lookup s' m = dir_lookup s m
  end.
Proof using TransferSpec0 dir_join.
  intros Hinv Hn. rewrite dir_join by done. pose proof (delete_spec (object_path dir n) s) as Hd. cbv zeta.
  destruct (dir_lookup s n) as [b|] eqn:E.
  - rewrite dir_lookup_valid in E by done. apply bind_Some in E as (o & Ho & _). rewrite Ho in Hd. destruct Hd as (s' & Hd & Ho').
    exists s'. split; [done|]. by apply dir_delete.
  - rewrite (dir_lookup_None s n Hinv Hn E) in Hd. destruct Hd as (s' & Hd & Ho'). exists s'. split; [done|]. by apply dir_same.
Qed.

Lemma dir_download s n : dir_inv s → valid_name n →
  let run := download_key_to_file self (path_join dir n) s in
  match dir_lookup s n with
  | Some b => ∃ s', run = (s', Ok b) ∧ dir_inv s' ∧ ∀ m, dir_lookup s' m = dir_lookup s m
  | None => ∃ s', run = (s', Raise NotFoundException) ∧ dir_inv s' ∧ ∀ m, dir_lookup s' m = dir_lookup s m
  end.
Proof using TransferSpec0 dir_join.
  intros Hinv Hn. rewrite dir_join by done. pose proof (download_key_spec (object_path dir n) s) as Hd. cbv zeta.
  rewrite <- dir_lookup_valid in Hd by done. destruct (dir_lookup s n) as [b|] eqn:E.
  - destruct Hd as (s' & Hd & Ho). exists s'. split; [done|]. by apply dir_same.
  - destruct (Hd (dir_lookup_None s n Hinv Hn E)) as (s' & Hd' & Ho). exists s'. split; [done|]. by apply dir_same.
Qed.

Lemma dir_upload s n b size : dir_inv s → valid_name n → ok b →
  ∃ s' u, upload_key_from_file self (path_join dir n) b size s = (s', Ok u) ∧ dir_inv s' ∧
    ∀ m, dir_lookup s' m = if decide (m = n) then Some b else dir_lookup s m.
Proof using TransferSpec0 FileSpec0 KeysFit0 dir_join.
  intros Hinv Hn Hok. rewrite dir_join by done.
  destruct (upload_key_spec (object_path dir n) b size s) as (s' & w & md & u & Hu & Ho & Hr & _).
  exists s', u. split; [done|]. by apply (dir_insert s s' n (w, md)).
Qed.
End directory.

Lemma valid_no_slash n : valid_name n → startswith "/" n = false.
Proof using Type.
  intros [H1 H2]. destruct n as [|c n]; [done|]. unfold startswith. cbn [String.prefix].
  destruct (Ascii.ascii_dec "/" c) as [<-|]; [done|done].
Qed.
Lemma json_join n : valid_name n → path_join json_key n = object_path json_key n.
Proof using Type. intros Hn. unfold path_join. by rewrite valid_no_slash. Qed.
Lemma hexdigest_join n : valid_name n → path_join hexdigest_key n = object_path hexdigest_key n.
Proof using Type. intros Hn. unfold path_join. by rewrite valid_no_slash. Qed.

(** *** The two storages *)
#[global] Program Instance rohmu_json_spec : StorageSpec (json_ops self) := {|
  st_inv := dir_inv json_key (λ b, b ≠ []);
  st_name := valid_name;
  st_value b := b ≠ [];
  st_lookup := dir_lookup json_key;
|}.
Next Obligation. intros s n b _. apply dir_lookup_name. Qed.
Next Obligation. intros s n. by apply (dir_delete_key json_key (λ b, b ≠ []) json_join). Qed.
Next Obligation.
  intros s n Hinv Hn. pose proof (dir_download json_key (λ b, b ≠ []) json_join s n Hinv Hn) as H. cbn. unfold open_json_bytes.
  destruct (dir_lookup json_key s n) as [b|] eqn:E; destruct H as (s' & H & Hinv' & Hlk); exists s'.
  - rewrite (bind_ok _ _ _ _ _ H). pose proof (dir_lookup_ok json_key (λ b, b ≠ []) s n b Hinv E) as Hb. by destruct b.
  - by rewrite (bind_raise _ _ _ _ _ H).
Qed.
Next Obligation. intros s. by apply (dir_list json_key (λ b, b ≠ [])). Qed.
Next Obligation.
  intros s n b Hinv Hn Hb. destruct (dir_upload json_key (λ b, b ≠ []) json_join s n b (Z.of_nat (length b)) Hinv Hn Hb) as (s' & u & Hu & H).
  exists s'. split; [|exact H]. cbn. unfold upload_json_bytes. by rewrite (bind_ok _ _ _ _ _ Hu).
Qed.

#[global] Program Instance rohmu_hexdigest_spec : StorageSpec (hexdigest_ops self) := {|
  st_inv := dir_inv hexdigest_key (λ _, True);
  st_name := valid_name;
  st_value _ := True;
  st_lookup := dir_lookup hexdigest_key;
|}.
Next Obligation. intros s n b _. apply dir_lookup_name. Qed.
Next Obligation. intros s n. by apply (dir_delete_key hexdigest_key (λ _, True) hexdigest_join). Qed.
Next Obligation. intros s n. by apply (dir_download hexdigest_key (λ _, True) hexdigest_join). Qed.
Next Obligation. intros s. by apply (dir_list hexdigest_key (λ _, True)). Qed.
Next Obligation.
  intros s n b Hinv Hn _. destruct (dir_upload hexdigest_key (λ _, True) hexdigest_join s n b (Z.of_nat (length b)) Hinv Hn I) as (s' & u & Hu & H).
  exists s'. split; [|exact H]. cbn. unfold upload_hexdigest_from_file. by rewrite (bind_ok _ _ _ _ _ Hu).
Qed.

(** C7: A storage on rohmu cannot be told apart from a directory of files with the same contents,
    as long as rohmu is available and the configured keys fit: whatever the
    compression and the encryption, every sequence of operations has the same
    outcomes, errors included. *)
Theorem rohmu_storage_refines_files (cs : list (command bytes)) (s : S) (files : gmap string bytes) :
  let file_ops := FileStorage.json_ops (λ b : bytes, match b with [] => true | _ => false end) in
  Forall (valid_command (json_ops self) file_ops) cs → same_map (json_ops self) file_ops s files →
  Forall2 same_outcome (run_commands (json_ops self) cs s) (run_commands file_ops cs files).
Proof using TransferSpec0 FileSpec0 KeysFit0. intros file_ops. apply run_commands_same. Qed.
End spec.
End rohmu.

(** ** A transfer in memory *)
Module Memory.
Notation objects := (gmap string (bytes * list (string * string))).

Definition get_contents (key : string) : M objects (bytes * list (string * string)) := λ s,
  (s, match s !! key with Some o => Ok o | None => Raise FileNotFoundFromStorageError end).
Definition in_directory (dir p : string) : bool :=
  bool_decide (valid_name (basename p)) && bool_decide (p = object_path dir (basename p)).
Definition transfer : Transfer := {|
  get_contents_to_fileobj := get_contents;
  store_file_object key b md := λ s : objects, (<[key := (b, md)]> s, Ok tt);
  delete_key key := λ s : objects, match s !! key with Some _ => (delete key s, Ok tt) | None => (s, Raise FileNotFoundFromStorageError) end;
  list_iter dir := λ s : objects, (s, Ok (filter (λ p, in_directory dir p = true) (map_to_list s).*1));
|}.

#[global] Instance transfer_spec : TransferSpec (λ s : objects, s) transfer.
Proof.
  split; cbn.
  - intros key s. unfold get_contents. destruct (s !! key) as [o|] eqn:E; by exists s; rewrite ?E.
  - intros key b md s. by eexists.
  - intros key s. destruct (s !! key); by eexists.
  - intros dir s Hdir. eexists s, _. split; [done|]. split; [done|]. split; [apply NoDup_filter, NoDup_fst_map_to_list|].
    intros p. rewrite list_elem_of_filter, list_elem_of_fmap. unfold in_directory. rewrite andb_true_iff, !bool_decide_eq_true. split.
    + intros [[Hn Hp] ([q o] & -> & Hin)]. apply elem_of_map_to_list in Hin. split; [by exists o|]. by exists (basename q).
    + intros [[o Ho] (n & Hn & ->)]. rewrite basename_path by done. split; [done|].
      exists (object_path dir n, o). split; [done|]. by apply elem_of_map_to_list.
Qed.

(** A layer of a file is a byte that is put in front of it. *)
Definition compress (a : RohmuCompressionType) (l : Z) (b : bytes) : bytes := x01 :: b.
Definition encrypt (pub : unit) (s : objects) (b : bytes) : bytes := x02 :: b.
Fixpoint read_layers (b : bytes) (md : list (string * string)) (lookup : string → res unit) : res bytes :=
  match md with
  | [] => Ok b
  | (k, i) :: md' =>
      if decide (k = "encryption-key-id") then lookup i ≫= λ _, read_layers (tail b) md' lookup
      else read_layers (tail b) md' lookup
  end.
Definition load_key (pem : string) : res (option unit) := Ok (Some tt).

#[global] Instance file_spec : FileSpec compress encrypt read_layers (λ _ _ : unit, True).
Proof. split; [done|done|]. intros [] [] s b i md lookup Hi _. cbn. by rewrite Hi. Qed.

Definition example_config : RohmuConfig (StorageConfig:=unit) :=
  mkRohmuConfig "/tmp" "s" {["s" := tt]} (Some "k") {["k" := mkRohmuEncryptionKey "public" "private"]} (mkRohmuCompression (Some zstd) 3).
Definition example_storage : RohmuStorage := mkRohmuStorage example_config "s" transfer.

#[global] Instance example_keys : KeysFit load_key load_key (λ _ _ : unit, True) example_storage.
Proof. intros i [= <-]. by exists tt, tt. Qed.

Definition file_ops : StorageOps (gmap string bytes) bytes := FileStorage.json_ops (λ b : bytes, match b with [] => true | _ => false end).
Definition example_ops : StorageOps objects bytes := json_ops load_key load_key compress encrypt read_layers example_storage.
Definition example_commands : list (command bytes) :=
  [Cupload "backup-1" [x7b; x7d]; Copen "backup-1"; Copen "backup-2"; Clist; Cdelete "backup-1"; Cdelete "backup-1"].

Example stored_encrypted :
  fst (run_command example_ops (Cupload "backup-1" [x7b; x7d]) ∅) !! "json/backup-1" =
    Some ([x02; x01; x7b; x7d], [("encryption-key-id", "k"); ("compression-algorithm", "zstd")]).
Proof. vm_compute. reflexivity. Qed.

Lemma rohmu_storage_refines_files_witness :
  Forall2 same_outcome (run_commands example_ops example_commands ∅) (run_commands file_ops example_commands ∅).
Proof.
  apply (rohmu_storage_refines_files load_key load_key compress encrypt read_layers (λ s : objects, s) (λ _ _ : unit, True) example_storage
    example_commands ∅ ∅).
  - repeat (constructor; [by repeat split|]). constructor.
  - split; [|split].
    + intros n o _ H. by rewrite lookup_empty in H.
    + intros f b H. by rewrite lookup_empty in H.
    + intros n. cbn. unfold dir_lookup. rewrite !lookup_empty. by repeat case_decide.
Defined.
End Memory.
End Rohmu.
