(* ===== verification/Kazoo.v ===== *)
(** * The client of ZooKeeper on kazoo ([coordinator/plugins/zookeeper.py])

    The interface of a connection, its implementation by calls of the library
    kazoo, and why the in-memory client of [ZooKeeper], about which the steps
    are proved, stands for it: both implement one specification of the tree of
    nodes.  Kazoo and the server are a parameter. *)

From stdpp Require Import base gmap strings list sorting.
From Stdlib Require Import ZArith Lia Ascii.
From S2P Require Import Prelude ZooKeeper Flink.

Module Kazoo.
Import ZooKeeper Flink.
Local Open Scope nat_scope.

(** ** The interface

    [ZooKeeperConnection]; a transaction is given as a whole. *)
Record ZooKeeperConnection (S : Type) : Type := mkConnection {
  zc_enter : M S unit;
  zc_exit : M S unit;
  zc_get : string → option nat → M S string;
  zc_get_children : string → option nat → M S (list string);
  zc_create : string → string → M S unit;
  zc_set : string → string → M S unit;
  zc_delete : string → bool → M S unit;
  zc_exists : string → M S bool;
  zc_transaction : list (string * string) → M S unit;
}.
Arguments zc_enter {S}. Arguments zc_exit {S}. Arguments zc_get {S}. Arguments zc_get_children {S}.
Arguments zc_create {S}. Arguments zc_set {S}. Arguments zc_delete {S}. Arguments zc_exists {S}. Arguments zc_transaction {S}.

(** [ZooKeeperConnection.try_create] *)
Definition zc_try_create {S} (conn : ZooKeeperConnection S) (path value : string) : M S bool :=
  try_except (zc_create conn path value ;; mret true) (λ e, bool_decide (e = ZooKeeperError NodeExists)) (λ _, mret false).

(** The in-memory connection number [c]. *)
Definition memory_transaction (ops : list (string * string)) : M client unit :=
  t ← lift_res (fold_res (λ t pv, txn_create pv.1 pv.2 t) new_transaction ops);
  commit t ;; mret tt.
Definition memory_connection (c : nat) : ZooKeeperConnection client := {|
  zc_enter := enter c;
  zc_exit := exit c;
  zc_get := get_node c;
  zc_get_children := get_children c;
  zc_create := create c;
  zc_set := set_node c;
  zc_delete := delete_node c;
  zc_exists := node_exists;
  zc_transaction := memory_transaction;
|}.

(** ** Kazoo: the methods of [KazooClient] that are called; [exists] returns
    whether there is a stat, and a commit the exceptions among its results. *)
Record KazooClient (K : Type) : Type := mkKazooClient {
  kz_start : M K unit;
  kz_stop : M K unit;
  kz_close : M K unit;
  kz_get : string → option nat → M K string;
  kz_get_children : string → option nat → M K (list string);
  kz_create : string → string → bool → M K unit;
  kz_set : string → string → M K unit;
  kz_delete : string → bool → M K unit;
  kz_exists : string → M K bool;
  kz_commit : list (string * string) → M K (list (option exn));
}.
Arguments kz_start {K}. Arguments kz_stop {K}. Arguments kz_close {K}. Arguments kz_get {K}. Arguments kz_get_children {K}.
Arguments kz_create {K}. Arguments kz_set {K}. Arguments kz_delete {K}. Arguments kz_exists {K}. Arguments kz_commit {K}.

Record ZooKeeperUser : Type := mkZooKeeperUser { username : string; password : string }.
Definition get_digest_auth_data (u : ZooKeeperUser) : list (string * string) := [("digest", username u +:+ ":" +:+ password u)].
Record KazooZooKeeperClient : Type := mkKazooZooKeeperClient {
  kc_hosts : list string;
  kc_user : option ZooKeeperUser;
  kc_timeout : Z;
}.

Section kazoo.
Context {K : Type} (KazooClient_ : list string → option (list (string * string)) → Z → KazooClient K).
Context (retry : ∀ A : Type, M K A → M K A).
Arguments retry {A}.

(** [connect]: the deadline is that of the retries. *)
Definition connect (self : KazooZooKeeperClient) : KazooClient K :=
  KazooClient_ (kc_hosts self) (get_digest_auth_data <$> kc_user self) (kc_timeout self).

(** *** [KazooZooKeeperConnection]

    Its state: that of kazoo, and whether [self.client] is set. *)
Record connection : Type := mkKazooConnection { kz_state : K; client_set : bool }.
Context (kz : KazooClient K).

(** [self.client] is [None] after the connection was closed. *)
Definition on_kazoo {A} (m : M K A) : M connection A := λ s,
  if client_set s then let '(k, r) := m (kz_state s) in (mkKazooConnection k true, r) else (s, Raise AttributeError).
Definition translate {A} (z : zk_error) (m : M connection A) : M connection A :=
  try_except m (λ e, bool_decide (e = KazooError z)) (λ _, raise (ZooKeeperError z)).

Definition kazoo_enter : M connection unit := on_kazoo (kz_start kz).
Definition stop_and_close : M connection unit :=
  on_kazoo (kz_stop kz) ;; on_kazoo (kz_close kz) ;; modify (λ s, mkKazooConnection (kz_state s) false).
Definition kazoo_exit : M connection unit := stop_and_close.
Definition kazoo_get (path : string) (watch : option nat) : M connection string :=
  translate NoNode (on_kazoo (retry (kz_get kz path watch))).
Definition kazoo_get_children (path : string) (watch : option nat) : M connection (list string) :=
  translate NoNode (l ← on_kazoo (retry (kz_get_children kz path watch)); mret (py_sorted str_leb l)).
Definition kazoo_create (path value : string) : M connection unit :=
  translate NodeExists (on_kazoo (retry (kz_create kz path value true))).
Definition kazoo_set (path value : string) : M connection unit := translate NoNode (on_kazoo (retry (kz_set kz path value))).
Definition kazoo_delete (path : string) (recursive : bool) : M connection unit :=
  translate NoNode (on_kazoo (retry (kz_delete kz path recursive))).
Definition kazoo_exists (path : string) : M connection bool := on_kazoo (retry (kz_exists kz path)).

(** *** [KazooZooKeeperTransaction]: the operations of the request *)
Definition kazoo_txn_create (path value : string) (request : list (string * string)) : list (string * string) :=
  request ++ [(path, value)].
Definition exceptions_map (e : exn) : res zk_error :=
  match e with
  | KazooError RolledBack => Ok RolledBack
  | KazooError RuntimeInconsistency => Ok RuntimeInconsistency
  | KazooError NoNode => Ok NoNode
  | KazooError NodeExists => Ok NodeExists
  | _ => Raise KeyError
  end.
Fixpoint mapped_results (results : list (option exn)) : res (list (option zk_error)) :=
  match results with
  | [] => Ok []
  | result :: rest =>
      r ← match result with None => Ok None | Some e => z ← exceptions_map e; Ok (Some z) end;
      rs ← mapped_results rest; Ok (r :: rs)
  end.
Definition kazoo_commit (request : list (string * string)) : M connection unit :=
  results ← on_kazoo (retry (kz_commit kz request));
  if existsb (λ r, match r with Some _ => true | None => false end) results
  then mapped ← lift_res (mapped_results (take (length request) results)); raise (TransactionError mapped)
  else mret tt.
Definition kazoo_transaction (ops : list (string * string)) : M connection unit :=
  kazoo_commit (foldl (λ t pv, kazoo_txn_create pv.1 pv.2 t) [] ops).

Definition kazoo_connection : ZooKeeperConnection connection := {|
  zc_enter := kazoo_enter;
  zc_exit := kazoo_exit;
  zc_get := kazoo_get;
  zc_get_children := kazoo_get_children;
  zc_create := kazoo_create;
  zc_set := kazoo_set;
  zc_delete := kazoo_delete;
  zc_exists := kazoo_exists;
  zc_transaction := kazoo_transaction;
|}.
End kazoo.

(** ** The specification

    Requests of a connection, and their answers. *)
Inductive operation : Type :=
| OpGet (path : string)
| OpGetChildren (path : string)
| OpCreate (path value : string)
| OpTryCreate (path value : string)
| OpSet (path value : string)
| OpDelete (path : string) (recursive : bool)
| OpExists (path : string)
| OpTransaction (ops : list (string * string)).
Inductive answer : Type :=
| Done
| Value (s : string)
| Names (l : list string)
| Answer (b : bool).

Definition run_operation {S} (conn : ZooKeeperConnection S) (o : operation) : M S answer :=
  match o with
  | OpGet path => v ← zc_get conn path None; mret (Value v)
  | OpGetChildren path => l ← zc_get_children conn path None; mret (Names l)
  | OpCreate path value => zc_create conn path value ;; mret Done
  | OpTryCreate path value => b ← zc_try_create conn path value; mret (Answer b)
  | OpSet path value => zc_set conn path value ;; mret Done
  | OpDelete path recursive => zc_delete conn path recursive ;; mret Done
  | OpExists path => b ← zc_exists conn path; mret (Answer b)
  | OpTransaction ops => zc_transaction conn ops ;; mret Done
  end.
Fixpoint run_operations {S} (conn : ZooKeeperConnection S) (os : list operation) (s : S) : list (res answer) :=
  match os with
  | [] => []
  | o :: os' => let '(s', r) := run_operation conn o s in r :: run_operations conn os' s'
  end.

Notation tree := (gmap Parts string).

(** A node is created with the nodes above it that are missing. *)
Definition with_node (k : Parts) (value : string) (t t' : tree) : Prop :=
  t' !! k = Some value ∧
  ∀ x, x ≠ k → t' !! x = if decide (x ≠ [] ∧ x `prefix_of` k) then Some (default "" (t !! x)) else t !! x.
Definition without_node (k : Parts) (t t' : tree) : Prop :=
  ∀ x, t' !! x = if decide (k `prefix_of` x) then None else t !! x.
Definition has_descendants (k : Parts) (t : tree) : Prop := ∃ x, x ≠ k ∧ k `prefix_of` x ∧ is_Some (t !! x).

(** Creations below existing nodes; or the first one that fails, and why. *)
Fixpoint create_all (ops : list (string * string)) (t : tree) : tree + (nat * zk_error) :=
  match ops with
  | [] => inl t
  | (path, value) :: rest =>
      let k := parse_path path in
      match t !! k with
      | Some _ => inr (0, NodeExists)
      | None =>
          if decide (length k = 1 ∨ is_Some (t !! parent k)) then
            match create_all rest (<[k := value]> t) with inl t' => inl t' | inr (i, e) => inr (S i, e) end
          else inr (0, NoNode)
      end
  end.
(** The results of a transaction of which operation [i] failed. *)
Definition failed_results (n i : nat) (e : zk_error) : list zk_error :=
  replicate i RolledBack ++ [e] ++ replicate (n - S i) RuntimeInconsistency.

(** What an operation does to the tree of nodes, and its answer. *)
Inductive specified (t : tree) : operation → tree → res answer → Prop :=
| spec_get path : specified t (OpGet path) t (from_option (λ v, Ok (Value v)) (Raise (ZooKeeperError NoNode)) (t !! parse_path path))
| spec_get_children path l :
    l = children t (parse_path path) →
    specified t (OpGetChildren path) t (if t !! parse_path path then Ok (Names l) else Raise (ZooKeeperError NoNode))
| spec_create path value t' :
    t !! parse_path path = None → with_node (parse_path path) value t t' → specified t (OpCreate path value) t' (Ok Done)
| spec_create_exists path value :
    is_Some (t !! parse_path path) → specified t (OpCreate path value) t (Raise (ZooKeeperError NodeExists))
| spec_try_create path value t' :
    t !! parse_path path = None → with_node (parse_path path) value t t' → specified t (OpTryCreate path value) t' (Ok (Answer true))
| spec_try_create_exists path value :
    is_Some (t !! parse_path path) → specified t (OpTryCreate path value) t (Ok (Answer false))
| spec_set path value :
    is_Some (t !! parse_path path) → specified t (OpSet path value) (<[parse_path path := value]> t) (Ok Done)
| spec_set_missing path value :
    t !! parse_path path = None → specified t (OpSet path value) t (Raise (ZooKeeperError NoNode))
| spec_delete path recursive t' :
    is_Some (t !! parse_path path) → (recursive = true ∨ ¬ has_descendants (parse_path path) t) →
    without_node (parse_path path) t t' → specified t (OpDelete path recursive) t' (Ok Done)
| spec_delete_not_empty path :
    is_Some (t !! parse_path path) → has_descendants (parse_path path) t →
    specified t (OpDelete path false) t (Raise (ZooKeeperError NotEmpty))
| spec_delete_missing path recursive :
    t !! parse_path path = None → specified t (OpDelete path recursive) t (Raise (ZooKeeperError NoNode))
| spec_exists path : specified t (OpExists path) t (Ok (Answer (bool_decide (is_Some (t !! parse_path path)))))
| spec_transaction ops t' : create_all ops t = inl t' → specified t (OpTransaction ops) t' (Ok Done)
| spec_transaction_failed ops i e :
    create_all ops t = inr (i, e) →
    specified t (OpTransaction ops) t (Raise (TransactionError (Some <$> failed_results (length ops) i e))).

(** The operations that are compared.  Their paths are absolute, without empty
    components, of printable ASCII characters, and without the components [.] and
    [..], all of which the in-memory client would take.  Those that write leave the root and what
    is below [/zookeeper] alone, which the server reserves: it refuses to delete the root. *)
Definition printable (ch : ascii) : bool := (32 <=? nat_of_ascii ch) && (nat_of_ascii ch <=? 126).
Definition plain_name (x : string) : Prop := x ≠ "." ∧ x ≠ ".." ∧ forallb printable (String.list_ascii_of_string x) = true.
Definition canonical_path (path : string) : Prop :=
  canonical (parse_path path) ∧ (path = "/" ∨ path = path_of (parse_path path)) ∧ Forall plain_name (parse_path path).
Definition writable_path (path : string) : Prop :=
  canonical_path path ∧ parse_path path ≠ [""] ∧ ¬ ["";"zookeeper"] `prefix_of` parse_path path.
Definition paths_of (o : operation) : list string :=
  match o with
  | OpGet p | OpGetChildren p | OpCreate p _ | OpTryCreate p _ | OpSet p _ | OpDelete p _ | OpExists p => [p]
  | OpTransaction ops => ops.*1
  end.
Definition writes (o : operation) : bool :=
  match o with OpGet _ | OpGetChildren _ | OpExists _ => false | _ => true end.
Definition operation_ok (o : operation) : Prop :=
  Forall (λ p, if writes o then writable_path p else canonical_path p) (paths_of o).

(** The specification decides tree and answer. *)
Lemma specified_functional t o t1 r1 t2 r2 : specified t o t1 r1 → specified t o t2 r2 → t1 = t2 ∧ r1 = r2.
Proof.
  intros H1 H2. assert (∀ k v t1 t2, with_node k v t t1 → with_node k v t t2 → t1 = t2) as Hwith.
  { intros k v t3 t4 [Hk Hx] [Hk' Hx']. apply map_eq. intros x. destruct (decide (x = k)) as [->|Hne]; [congruence|].
    by rewrite Hx, Hx'. }
  assert (∀ k t1 t2, without_node k t t1 → without_node k t t2 → t1 = t2) as Hwithout.
  { intros k t3 t4 Hx Hx'. apply map_eq. intros x. by rewrite Hx, Hx'. }
  destruct H1; inversion H2; subst; try done; try (split; [by eapply Hwith|done]); try (split; [by eapply Hwithout|done]);
    repeat match goal with H : is_Some _ |- _ => destruct H as [? ?] | H : _ ∨ _ |- _ => destruct H as [?|?] end;
    try congruence; try done.
  - split; congruence.
  - split; [done|]. congruence.
Qed.

(** ** The in-memory connection *)
Lemma prefix_is_take (x k : Parts) : x `prefix_of` k ↔ x = take (length x) k.
Proof.
  split; [intros [l ->]; by rewrite take_app_length|]. intros ->. apply prefix_take.
Qed.

Lemma wf_prefix t k x : well_formed t → is_Some (t !! k) → x `prefix_of` k → x ≠ [] → is_Some (t !! x).
Proof.
  intros Hwf Hk [l ->] Hx. induction l as [|y l IH] using rev_ind; [by rewrite app_nil_r in Hk|].
  apply IH. rewrite app_assoc in Hk. destruct (Hwf _ Hk) as [_ Hp]. unfold parent in Hp. rewrite removelast_last in Hp.
  apply Hp. rewrite !length_app. destruct x; [done|]. simpl. lia.
Qed.

Lemma added_with_node t t' k m value : m < length k → (m = 0 ∨ is_Some (t !! take m k)) → well_formed t →
  added k m (length k) (λ j, if decide (j = length k) then value else "") t t' → t !! k = None ∧ with_node k value t t'.
Proof.
  intros Hm Hex Hwf [Hnew Hold]. destruct (Hnew (length k)) as [Hno Hk]; [lia..|]. rewrite firstn_all in Hno, Hk.
  rewrite decide_True in Hk by done. split; [done|]. split; [done|]. intros x Hx. case_decide as Hp.
  - destruct Hp as [Hne Hp]. pose proof (prefix_length _ _ Hp) as Hl. rewrite prefix_is_take in Hp.
    assert (length x ≠ length k) as Hlk by (intros E; rewrite E, firstn_all in Hp; done).
    destruct (decide (m < length x)) as [Hlt|Hge].
    + rewrite Hp. destruct (Hnew (length x)) as [H1 H2]; [lia..|]. by rewrite H2, H1, decide_False.
    + destruct Hex as [->|Hex]; [destruct x; [done|simpl in Hge; lia]|].
      assert (is_Some (t !! x)) as [v Hv].
      { eapply wf_prefix; [done|exact Hex| |done]. rewrite Hp. apply prefix_is_take. rewrite length_take, take_take. f_equal. lia. }
      rewrite Hold; [by rewrite Hv|]. intros j Hj _ E. apply (f_equal length) in E. rewrite length_take in E. lia.
  - apply Hold. intros j Hj Hjn ->. apply Hp. split; [|apply prefix_take].
    intros E. apply (f_equal length) in E. rewrite length_take in E. simpl in E. lia.
Qed.

Lemma create_locked_specified path value t t' r : well_formed t →
  create_locked path value true t = (t', r) →
  match r with
  | Ok _ => t !! parse_path path = None ∧ with_node (parse_path path) value t t'
  | Raise e => t' = t ∧ e = ZooKeeperError NodeExists ∧ is_Some (t !! parse_path path)
  end.
Proof.
  intros Hwf H. pose proof (create_locked_spec path value true t) as Hs. cbv zeta in Hs. rewrite H in Hs.
  destruct r as [[p ev]|e].
  - destruct Hs as (m & Hm & -> & Hex & Ha & _). by eapply added_with_node.
  - by destruct Hs as [(-> & Hp & ->)|[? _]].
Qed.

Lemma commit_loop_specified ops results triggers t :
  match create_all ops t with
  | inl t' => ∃ ts, commit_loop ops results triggers t = (t', inl ts)
  | inr (i, e) => i < length ops ∧ ∃ t', commit_loop ops results triggers t =
      (t', inr (replicate (results + i) (Some RolledBack) ++ [Some e] ++ replicate (length ops - S i) (Some RuntimeInconsistency)))
  end.
Proof.
  revert results triggers t. induction ops as [|[path value] ops IH]; intros results triggers t; cbn [create_all commit_loop]; [by eexists|].
  pose proof (create_no_makepath path value t) as Hc. cbv zeta in Hc.
  destruct (create_locked path value false t) as [t1 [ev|e]].
  - destruct Hc as (-> & -> & Hp). rewrite decide_True by done. specialize (IH (S results) (triggers ++ [ev]) (<[parse_path path := value]> t)).
    destruct (create_all ops _) as [t'|[i e]]; [done|]. destruct IH as (Hi & t' & ->). split; [simpl; lia|]. exists t'.
    cbn [length]. by replace (results + S i) with (S results + i) by lia.
  - destruct Hc as (err & -> & [[-> Hs]|(-> & Hno & Hl & Hp)]).
    + destruct Hs as [v ->]. split; [simpl; lia|]. exists t1. cbn [length]. by rewrite Nat.add_0_r, Nat.sub_succ, Nat.sub_0_r.
    + rewrite Hno, decide_False by (intros [?|[? ?]]; [lia|congruence]). split; [simpl; lia|]. exists t1.
      cbn [length]. by rewrite Nat.add_0_r, Nat.sub_succ, Nat.sub_0_r.
Qed.

Lemma add_all_ops ops t : committed t = false →
  fold_res (λ t pv, txn_create pv.1 pv.2 t) t ops = Ok (mkTransaction (operations t ++ ops) false).
Proof.
  revert t. induction ops as [|[p v] ops IH]; intros [l b] Hb; simpl in Hb; subst b; cbn [fold_res]; [by rewrite app_nil_r|].
  unfold txn_create at 1. cbn. rewrite IH by done. cbn. by rewrite <- app_assoc.
Qed.

Lemma subtree_one k t : is_Some (t !! k) → has_descendants k t ↔ 1 < length (subtree k t).
Proof.
  intros Hk. assert (NoDup (subtree k t)) as Hnd.
  { unfold subtree. apply NoDup_filter. rewrite py_sorted_Permutation. apply NoDup_fst_map_to_list. }
  assert (k ∈ subtree k t) as Hin by (apply elem_of_subtree; by rewrite firstn_all).
  split.
  - intros (x & Hne & Hp & Hx). assert (x ∈ subtree k t) as Hxin.
    { apply elem_of_subtree. split; [|done]. destruct Hp as [l ->]. apply take_app_length. }
    destruct (subtree k t) as [|y [|z l]]; [by apply not_elem_of_nil in Hin| |simpl; lia].
    apply list_elem_of_singleton in Hin as ->. by apply list_elem_of_singleton in Hxin as ->.
  - intros Hl. destruct (subtree k t) as [|y [|z l]] eqn:E; [simpl in Hl; lia..|].
    assert (∃ x, x ∈ subtree k t ∧ x ≠ k) as (x & Hx & Hne).
    { rewrite E. apply NoDup_cons in Hnd as [Hyz _]. destruct (decide (y = k)) as [->|Hy].
      - exists z. split; [right; left|]. intros ->. apply Hyz. by left.
      - exists y. split; [by left|done]. }
    rewrite E in Hx. rewrite <- E in Hx. apply elem_of_subtree in Hx as [Hx1 Hx2]. exists x. split; [done|]. split; [|done].
    rewrite <- Hx1. apply prefix_take.
Qed.

Lemma subtree_without k t : without_node k t (foldl (λ s k, delete k s) t (subtree k t)).
Proof.
  intros x. rewrite foldl_delete_lookup. destruct (decide (k `prefix_of` x)) as [Hp|Hp].
  - case_decide as Hx; [done|]. destruct (t !! x) eqn:E; [|done]. destruct Hx. apply elem_of_subtree. split; [|by rewrite E].
    destruct Hp as [l ->]. apply take_app_length.
  - rewrite decide_False; [done|]. intros [Hx _]%elem_of_subtree. apply Hp. rewrite <- Hx. apply prefix_take.
Qed.

Lemma subtree_nil t k : well_formed t → k ≠ [] → subtree k t = [] ↔ t !! k = None.
Proof.
  intros Hwf Hk. split.
  - intros E. apply eq_None_not_Some. intros Hs. assert (k ∈ subtree k t) as H by (apply elem_of_subtree; by rewrite firstn_all).
    rewrite E in H. by apply not_elem_of_nil in H.
  - intros E. destruct (subtree k t) as [|x l] eqn:Es; [done|]. assert (x ∈ subtree k t) as [Hx1 Hx2]%elem_of_subtree by (rewrite Es; by left).
    destruct (wf_prefix t x k Hwf Hx2) as [v Hv]; [rewrite <- Hx1; apply prefix_take|done|congruence].
Qed.

Lemma delete_locked_ok path recursive t t' pes : delete_locked path recursive t = (t', Ok pes) →
  subtree (parse_path path) t ≠ [] ∧ (recursive = false → ¬ 1 < length (subtree (parse_path path) t)).
Proof.
  unfold delete_locked. rewrite (bind_ok get _ t t t) by done. fold (subtree (parse_path path) t).
  case_decide as Hl; [done|]. split; [by intros E; rewrite E in Hl|]. intros ->. revert H. cbn [negb andb].
  destruct (1 <? _) eqn:E; [done|]. apply Nat.ltb_ge in E. lia.
Qed.

(** What the in-memory connection does is what the specification says. *)
Lemma memory_refines c o z z' r : c ∈ connections z → well_formed (storage z) →
  run_operation (memory_connection c) o z = (z', r) →
  specified (storage z) o (storage z') r ∧ connections z' = connections z.
Proof.
  intros Hc Hwf.
  assert (∀ A (m : M client A), (connected c ;; m) z = m z) as Hconn by (intros A m; by rewrite connected_run, decide_True).
  assert (∀ path value z1 r1, create c path value z = (z1, r1) →
    connections z1 = connections z ∧
    match r1 with
    | Ok _ => storage z !! parse_path path = None ∧ with_node (parse_path path) value (storage z) (storage z1)
    | Raise e => storage z1 = storage z ∧ e = ZooKeeperError NodeExists ∧ is_Some (storage z !! parse_path path)
    end) as Hcreate.
  { intros path value z1 r1. unfold create. rewrite Hconn. destruct (create_locked path value true (storage z)) as [t r2] eqn:E.
    pose proof (zk_on_storage_run _ _ _ _ E) as Hr. pose proof (create_locked_specified _ _ _ _ _ Hwf E) as Hs. destruct r2 as [[p ev]|e].
    - rewrite (bind_ok _ _ _ _ _ Hr). pose proof (trigger_spec p ev (with_storage t z)) as (H1 & H2 & _).
      intros [= <- <-]. by rewrite H1, H2.
    - rewrite (bind_raise _ _ _ _ _ Hr). intros [= <- <-]. done. }
  destruct o as [path|path|path value|path value|path value|path recursive|path|ops]; cbn [run_operation memory_connection
    zc_get zc_get_children zc_create zc_set zc_delete zc_exists zc_transaction].
  - unfold mbind at 1, M_bind at 1, get_node. rewrite Hconn. rewrite (bind_ok get _ z z z) by done. pose proof (spec_get (storage z) path) as Hs.
    destruct (storage z !! parse_path path) as [v|]; cbn; by intros [= <- <-].
  - unfold mbind at 1, M_bind at 1, get_children. rewrite Hconn. rewrite (bind_ok get _ z z z) by done.
    pose proof (spec_get_children (storage z) path _ eq_refl) as Hs. destruct (storage z !! parse_path path) as [v|]; cbn; by intros [= <- <-].
  - destruct (create c path value z) as [z1 r1] eqn:E. apply Hcreate in E as E'. destruct E' as [Hz1 Hr]. destruct r1 as [[]|e].
    + rewrite (bind_ok _ _ _ _ _ E). intros [= <- <-]. destruct Hr. split; [by constructor|done].
    + rewrite (bind_raise _ _ _ _ _ E). intros [= <- <-]. destruct Hr as (-> & -> & ?). split; [by constructor|done].
  - unfold zc_try_create, try_except. cbn [memory_connection zc_create].
    destruct (create c path value z) as [z1 r1] eqn:E. apply Hcreate in E as E'. destruct E' as [Hz1 Hr]. destruct r1 as [[]|e].
    + unfold mbind at 1, M_bind at 1. rewrite (bind_ok _ _ _ _ _ E). intros [= <- <-]. destruct Hr. split; [by constructor|done].
    + unfold mbind at 1, M_bind at 1. rewrite (bind_raise _ _ _ _ _ E). destruct Hr as (Hst & -> & ?).
      rewrite bool_decide_true by done. intros [= <- <-]. rewrite Hst. split; [by constructor|done].
  - unfold mbind at 1, M_bind at 1, set_node. rewrite Hconn. rewrite (bind_ok get _ z z z) by done.
    destruct (storage z !! parse_path path) as [v|] eqn:Ev; [|intros [= <- <-]; split; [by constructor|done]].
    rewrite (bind_ok (modify _) _ z _ tt) by done. cbn.
    match goal with |- context [trigger ?p ?e ?z1] => pose proof (trigger_spec p e z1) as (H1 & H2 & _) end.
    intros [= <- <-]. rewrite H1, H2. split; [|done]. cbn. constructor. by rewrite Ev.
  - unfold mbind at 1, M_bind at 1, delete_node. rewrite Hconn.
    destruct (delete_locked path recursive (storage z)) as [t r2] eqn:E. pose proof (zk_on_storage_run _ _ _ _ E) as Hr.
    pose proof (delete_locked_run path recursive (storage z)) as Hd. cbv zeta in Hd. rewrite E in Hd.
    pose proof (subtree_nil (storage z) (parse_path path) Hwf (parse_path_nonempty path)) as Hnil.
    destruct r2 as [pes|e].
    + rewrite (bind_ok _ _ _ _ _ Hr). destruct Hd as [-> _]. pose proof (delete_locked_ok _ _ _ _ _ E) as [Hsub Hone].
      assert (is_Some (storage z !! parse_path path)) as Hk by (apply dec_stable; intros Hn; by apply Hsub, Hnil, eq_None_not_Some).
      match goal with |- context [modify (trigger_all ?p) ?z1] => pose proof (trigger_all_spec p z1) as (H1 & H2 & _) end.
      intros [= <- <-]. cbn. rewrite H1, H2. split; [|done]. constructor; [done| |apply subtree_without].
      destruct recursive; [by left|right]. rewrite subtree_one by done. by apply Hone.
    + rewrite (bind_raise _ _ _ _ _ Hr). destruct Hd as [-> Hd]. intros [= <- <-]. split; [|done].
      rewrite with_storage_same. destruct Hd as [[-> Hn]|(-> & -> & Hl)]; [constructor; by apply Hnil|].
      assert (is_Some (storage z !! parse_path path)) as Hk.
      { apply dec_stable. intros Hn%eq_None_not_Some%Hnil. rewrite Hn in Hl. simpl in Hl. lia. }
      constructor; [done|]. by apply subtree_one.
  - intros [= <- <-]. split; [by constructor|done].
  - unfold memory_transaction. rewrite (add_all_ops ops new_transaction) by done. cbn [operations new_transaction app].
    pose proof (commit_loop_specified ops 0 [] (storage z)) as Hs. unfold commit, mbind, M_bind, lift_res, get, modify. cbn.
    destruct (create_all ops (storage z)) as [t'|[i e]] eqn:E.
    + destruct Hs as [ts ->]. cbn. pose proof (trigger_all_spec ts (with_storage t' z)) as (H1 & H2 & _).
      intros [= <- <-]. rewrite H1, H2. split; [by constructor|done].
    + destruct Hs as (Hi & t' & ->). cbn. intros [= <- <-]. split; [|done].
      replace (replicate i (Some RolledBack) ++ _) with (Some <$> failed_results (length ops) i e); [by constructor|].
      unfold failed_results. by rewrite !fmap_app, !fmap_replicate.
Qed.

Lemma bind_ret_state {S A B} (m : M S A) (f : A → B) s : fst ((m ≫= λ a, mret (f a)) s) = fst (m s).
Proof. unfold mbind, M_bind. by destruct (m s) as [s' [a|e]]. Qed.

Lemma memory_wf c o z : well_formed (storage z) → well_formed (storage (fst (run_operation (memory_connection c) o z))).
Proof.
  intros Hwf. assert (∀ r, well_formed (storage (perform c r z))) as Hp.
  { intros r. apply (perform_preserves well_formed (λ _, True)); [|apply set_wf|apply delete_wf| |done].
    - intros path value mk s s' r' _. apply create_locked_wf.
    - by apply Forall_forall. }
  destruct o as [path|path|path value|path value|path value|path recursive|path|ops]; cbn [run_operation memory_connection
    zc_get zc_get_children zc_create zc_set zc_delete zc_exists zc_transaction].
  - rewrite bind_ret_state. apply (Hp (Get path None)).
  - rewrite bind_ret_state. apply (Hp (GetChildren path None)).
  - rewrite bind_ret_state. apply (Hp (Create path value)).
  - rewrite bind_ret_state. unfold zc_try_create, try_except. cbn [memory_connection zc_create].
    pose proof (Hp (Create path value)) as H. cbn [perform] in H. unfold mbind, M_bind.
    destruct (create c path value z) as [z1 [u|e]]; [done|]. by destruct (bool_decide _).
  - rewrite bind_ret_state. apply (Hp (SetValue path value)).
  - rewrite bind_ret_state. apply (Hp (Delete path recursive)).
  - done.
  - rewrite bind_ret_state. unfold memory_transaction. rewrite (add_all_ops ops new_transaction) by done.
    rewrite (bind_ok (lift_res _) _ z z (mkTransaction ops false)) by done. rewrite bind_ret_state. apply (Hp (Commit ops)).
Qed.

(** ** The connection on kazoo *)
Section kazoo_spec.
Context {K : Type} (kz : KazooClient K) (retry : ∀ A : Type, M K A → M K A) (tree_of : K → tree).

(** How often, so far, kazoo lost the connection or the session, or the server
    refused a request for a reason other than the tree of nodes, as missing
    permissions, a limit, or an overload. *)
Context (trouble : K → nat).

(** What kazoo and ZooKeeper document, for calls during which nothing of that
    kind happens, made by one client at a time.  Such a call is not retried; each method reads
    or changes the tree of nodes, or raises the exception of its name.  A
    recursive deletion of a node that is not there may raise or not.  About a
    call with trouble nothing is said: it may raise anything, and what it asked for may have
    been done or not, and with retries also done twice. *)
Class KazooSpec : Prop := {
  retry_law {A} (m : M K A) s : trouble (fst (retry A m s)) = trouble s → retry A m s = m s;
  kz_get_law path watch s s' r : canonical_path path → kz_get kz path watch s = (s', r) → trouble s' = trouble s →
    r = from_option Ok (Raise (KazooError NoNode)) (tree_of s !! parse_path path) ∧ tree_of s' = tree_of s;
  kz_get_children_law path watch s s' r : canonical_path path → kz_get_children kz path watch s = (s', r) → trouble s' = trouble s →
    tree_of s' = tree_of s ∧
    if tree_of s !! parse_path path then ∃ l, r = Ok l ∧ l ≡ₚ children (tree_of s) (parse_path path) else r = Raise (KazooError NoNode);
  kz_create_law path value s s' r : writable_path path → kz_create kz path value true s = (s', r) → trouble s' = trouble s →
    if tree_of s !! parse_path path then r = Raise (KazooError NodeExists) ∧ tree_of s' = tree_of s
    else r = Ok tt ∧ with_node (parse_path path) value (tree_of s) (tree_of s');
  kz_set_law path value s s' r : writable_path path → kz_set kz path value s = (s', r) → trouble s' = trouble s →
    if tree_of s !! parse_path path then r = Ok tt ∧ tree_of s' = <[parse_path path := value]> (tree_of s)
    else r = Raise (KazooError NoNode) ∧ tree_of s' = tree_of s;
  kz_delete_law path recursive s s' r : writable_path path → kz_delete kz path recursive s = (s', r) → trouble s' = trouble s →
    if tree_of s !! parse_path path then
      (recursive = true ∨ ¬ has_descendants (parse_path path) (tree_of s)) ∧ r = Ok tt ∧ without_node (parse_path path) (tree_of s) (tree_of s') ∨
      recursive = false ∧ has_descendants (parse_path path) (tree_of s) ∧ r = Raise (KazooError NotEmpty) ∧ tree_of s' = tree_of s
    else tree_of s' = tree_of s ∧ (r = Raise (KazooError NoNode) ∨ recursive = true ∧ r = Ok tt);
  kz_exists_law path s s' r : canonical_path path → kz_exists kz path s = (s', r) → trouble s' = trouble s →
    r = Ok (bool_decide (is_Some (tree_of s !! parse_path path))) ∧ tree_of s' = tree_of s;
  kz_commit_law ops s s' r : Forall writable_path ops.*1 → kz_commit kz ops s = (s', r) → trouble s' = trouble s →
    match create_all ops (tree_of s) with
    | inl t' => r = Ok (replicate (length ops) None) ∧ tree_of s' = t'
    | inr (i, e) => r = Ok ((λ z, Some (KazooError z)) <$> failed_results (length ops) i e) ∧ tree_of s' = tree_of s
    end;
}.
Context {KazooSpec0 : KazooSpec}.
Local Notation conn := (kazoo_connection retry kz).

(** The answers of the two connections differ where kazoo's exception is not
    translated, and where kazoo does not raise one. *)
Definition same_answer (o : operation) (memory kazoo : res answer) : Prop :=
  kazoo = memory ∨
  memory = Raise (ZooKeeperError NotEmpty) ∧ kazoo = Raise (KazooError NotEmpty) ∨
  (∃ path, o = OpDelete path true) ∧ memory = Raise (ZooKeeperError NoNode) ∧ kazoo = Ok Done.

Lemma on_kazoo_run {A} (m : M K A) s : client_set s = true →
  on_kazoo m s = (mkKazooConnection (fst (m (kz_state s))) true, snd (m (kz_state s))).
Proof using Type. intros Hs. unfold on_kazoo. rewrite Hs. by destruct (m (kz_state s)). Qed.

(** The call of kazoo that a request makes; the rest of the request leaves its state. *)
Definition call_state (o : operation) (k : K) : K :=
  match o with
  | OpGet path => fst (retry _ (kz_get kz path None) k)
  | OpGetChildren path => fst (retry _ (kz_get_children kz path None) k)
  | OpCreate path value | OpTryCreate path value => fst (retry _ (kz_create kz path value true) k)
  | OpSet path value => fst (retry _ (kz_set kz path value) k)
  | OpDelete path recursive => fst (retry _ (kz_delete kz path recursive) k)
  | OpExists path => fst (retry _ (kz_exists kz path) k)
  | OpTransaction ops => fst (retry _ (kz_commit kz ops) k)
  end.

Lemma translate_state {A} z (m : M (connection (K:=K)) A) s : fst (translate z m s) = fst (m s).
Proof using Type. unfold translate, try_except. destruct (m s) as [s' [a|e]]; [done|]. by destruct (bool_decide _). Qed.

Lemma txn_request ops : foldl (λ t pv, kazoo_txn_create pv.1 pv.2 t) [] ops = ops.
Proof using Type.
  assert (∀ t, foldl (λ t pv, kazoo_txn_create pv.1 pv.2 t) t ops = t ++ ops) as H; [|apply H].
  induction ops as [|[p v] ops IH]; intros t; cbn; [by rewrite app_nil_r|]. rewrite IH. unfold kazoo_txn_create. by rewrite <- app_assoc.
Qed.

Lemma kazoo_state o s : client_set s = true →
  fst (run_operation conn o s) = mkKazooConnection (call_state o (kz_state s)) true.
Proof using Type.
  intros Hs.
  destruct o as [path|path|path value|path value|path value|path recursive|path|ops]; cbn [run_operation kazoo_connection zc_get zc_get_children zc_create zc_set zc_delete zc_exists zc_transaction call_state].
  - by rewrite bind_ret_state; unfold kazoo_get; rewrite translate_state, on_kazoo_run.
  - by rewrite bind_ret_state; unfold kazoo_get_children; rewrite translate_state, bind_ret_state, on_kazoo_run.
  - by rewrite bind_ret_state; unfold kazoo_create; rewrite translate_state, on_kazoo_run.
  - rewrite bind_ret_state. unfold zc_try_create, try_except. cbn [zc_create kazoo_connection].
    pose proof (translate_state NodeExists (on_kazoo (retry unit (kz_create kz path value true))) s) as H. rewrite on_kazoo_run in H by done.
    fold (kazoo_create retry kz path value) in H. unfold mbind, M_bind. destruct (kazoo_create retry kz path value s) as [s' [[]|e]]; [done|].
    by destruct (bool_decide _).
  - by rewrite bind_ret_state; unfold kazoo_set; rewrite translate_state, on_kazoo_run.
  - by rewrite bind_ret_state; unfold kazoo_delete; rewrite translate_state, on_kazoo_run.
  - by rewrite bind_ret_state; unfold kazoo_exists; rewrite on_kazoo_run.
  - rewrite bind_ret_state. unfold kazoo_transaction, kazoo_commit. rewrite txn_request. unfold mbind, M_bind. rewrite on_kazoo_run by done.
    destruct (snd _) as [results|e]; [|done]. destruct (existsb _ _); [|done]. by destruct (mapped_results _).
Qed.

Local Ltac finish Ht Hsp :=
  cbn; intros [= <- <-]; cbn; try rewrite Ht; eexists; split; [try (exact Hsp); eapply Hsp|]; [..|split; [by left|done]].

(** A call without trouble. *)
Lemma on_kazoo_quiet {A} (m : M K A) s : client_set s = true → trouble (fst (retry A m (kz_state s))) = trouble (kz_state s) →
  ∃ k r, m (kz_state s) = (k, r) ∧ trouble k = trouble (kz_state s) ∧ on_kazoo (retry A m) s = (mkKazooConnection k true, r).
Proof using KazooSpec0.
  intros Hs Ht. pose proof (retry_law m (kz_state s) Ht) as Hr. rewrite on_kazoo_run by done. rewrite Hr in Ht |- *.
  destruct (m (kz_state s)) as [k r]. by exists k, r.
Qed.

Lemma create_all_error ops t i e : create_all ops t = inr (i, e) → e = NodeExists ∨ e = NoNode.
Proof.
  revert t i. induction ops as [|[path value] ops IH]; intros t i; cbn [create_all]; [done|].
  destruct (t !! parse_path path); [intros [= _ <-]; by left|]. case_decide; [|intros [= _ <-]; by right].
  destruct (create_all ops _) as [t'|[j e']] eqn:E; [done|]. intros [= _ <-]. by eapply IH.
Qed.

Lemma mapped_failed n i e : e = NodeExists ∨ e = NoNode →
  mapped_results ((λ z, Some (KazooError z)) <$> failed_results n i e) = Ok (Some <$> failed_results n i e).
Proof.
  intros He. unfold failed_results. assert (Forall (λ z, z ≠ NotEmpty) (replicate i RolledBack ++ [e] ++ replicate (n - S i) RuntimeInconsistency)) as H.
  { apply Forall_app. split; [by apply Forall_replicate|]. constructor; [by destruct He as [->| ->]|by apply Forall_replicate]. }
  induction H as [|z l Hz H IH]; [done|]. cbn. cbn in IH. rewrite IH. by destruct z.
Qed.

(** What the connection on kazoo does is what the specification says, up to
    the answers, when there is no trouble. *)
Lemma kazoo_refines o s s' r : client_set s = true → operation_ok o → run_operation conn o s = (s', r) →
  trouble (kz_state s') = trouble (kz_state s) →
  ∃ r0, specified (tree_of (kz_state s)) o (tree_of (kz_state s')) r0 ∧ same_answer o r0 r ∧ client_set s' = true.
Proof using KazooSpec0.
  intros Hs Ho Hrun Ht. pose proof (kazoo_state o s Hs) as Hst. rewrite Hrun in Hst. cbn [fst] in Hst. rewrite Hst in Ht. cbn [kz_state] in Ht.
  clear Hst. revert Hrun.
  destruct o as [path|path|path value|path value|path value|path recursive|path|ops]; unfold operation_ok in Ho; cbn [paths_of writes] in Ho;
    try (pose proof (Forall_inv Ho) as Hk; cbn beta in Hk);
    cbn [run_operation kazoo_connection zc_get zc_get_children zc_create zc_set zc_delete zc_exists zc_transaction];
    cbn [call_state] in Ht; apply on_kazoo_quiet in Ht as (k & r1 & Hm & Ht & Hon); try done.
  - apply kz_get_law in Hm as [-> Htree]; [|done..]. unfold mbind at 1, M_bind at 1, kazoo_get, translate, try_except. rewrite Hon.
    pose proof (spec_get (tree_of (kz_state s)) path) as Hsp.
    destruct (tree_of _ !! parse_path path) as [v|]; finish Htree Hsp.
  - apply kz_get_children_law in Hm as [Htree Hl]; [|done..].
    pose proof (spec_get_children (tree_of (kz_state s)) path _ eq_refl) as Hsp.
    unfold mbind at 1, M_bind at 1, kazoo_get_children, translate, try_except, mbind at 1, M_bind at 1. rewrite Hon.
    destruct (tree_of _ !! parse_path path) as [v|].
    + destruct Hl as (l & -> & Hl). assert (py_sorted str_leb l = children (tree_of (kz_state s)) (parse_path path)) as Hsort.
      { rewrite (py_sorted_eq str_leb str_leb_total str_leb_trans _ _ str_leb_antisym Hl). unfold children.
        apply (py_sorted_eq str_leb str_leb_total str_leb_trans _ _ str_leb_antisym), py_sorted_Permutation. }
      cbn. rewrite Hsort. finish Htree Hsp.
    + rewrite Hl. finish Htree Hsp.
  - apply kz_create_law in Hm; [|done..]. unfold mbind at 1, M_bind at 1, kazoo_create, translate, try_except. rewrite Hon.
    destruct (tree_of _ !! parse_path path) as [v|] eqn:Ek; destruct Hm as [-> Htree].
    + finish Htree (spec_create_exists (tree_of (kz_state s)) path value). rewrite Ek. eauto.
    + finish tt (spec_create (tree_of (kz_state s)) path value); done.
  - apply kz_create_law in Hm; [|done..].
    unfold mbind at 1, M_bind at 1, zc_try_create, try_except, kazoo_connection, zc_create, mbind at 1, M_bind at 1, kazoo_create, translate, try_except.
    rewrite Hon. destruct (tree_of _ !! parse_path path) as [v|] eqn:Ek; destruct Hm as [-> Htree].
    + finish Htree (spec_try_create_exists (tree_of (kz_state s)) path value). rewrite Ek. eauto.
    + finish tt (spec_try_create (tree_of (kz_state s)) path value); done.
  - apply kz_set_law in Hm; [|done..]. unfold mbind at 1, M_bind at 1, kazoo_set, translate, try_except. rewrite Hon.
    destruct (tree_of _ !! parse_path path) as [v|] eqn:Ek; destruct Hm as [-> Htree].
    + pose proof (spec_set (tree_of (kz_state s)) path value) as Hsp. rewrite Ek in Hsp. finish Htree (Hsp ltac:(eauto)).
    + finish Htree (spec_set_missing (tree_of (kz_state s)) path value). done.
  - apply kz_delete_law in Hm; [|done..]. unfold mbind at 1, M_bind at 1, kazoo_delete, translate, try_except. rewrite Hon.
    pose proof (spec_delete (tree_of (kz_state s)) path recursive) as Hsp.
    pose proof (spec_delete_not_empty (tree_of (kz_state s)) path) as Hsp'.
    pose proof (spec_delete_missing (tree_of (kz_state s)) path recursive) as Hsp''.
    destruct (tree_of _ !! parse_path path) as [v|] eqn:Ek.
    + destruct Hm as [(Hd & -> & Htree)|(-> & Hd & -> & Htree)].
      * finish tt (Hsp _ ltac:(eauto) Hd Htree).
      * cbn. intros [= <- <-]. cbn. rewrite Htree. eexists. split; [by apply Hsp'; eauto|]. split; [by right; left|done].
    + destruct Hm as [Htree [-> |(-> & ->)]].
      * finish Htree (Hsp'' eq_refl).
      * cbn. intros [= <- <-]. cbn. rewrite Htree. eexists. split; [by apply Hsp''|]. split; [right; right; eauto|done].
  - apply kz_exists_law in Hm as [-> Htree]; [|done..]. unfold mbind at 1, M_bind at 1, kazoo_exists. rewrite Hon.
    pose proof (spec_exists (tree_of (kz_state s)) path) as Hsp. finish Htree Hsp.
  - apply kz_commit_law in Hm; [|done..]. unfold kazoo_transaction, kazoo_commit. rewrite txn_request.
    destruct (create_all ops _) as [t'|[i e]] eqn:Ec; destruct Hm as [-> Htree].
    + unfold mbind at 1, M_bind at 1, mbind at 1, M_bind at 1. rewrite Hon.
      assert (existsb (λ r : option exn, match r with Some _ => true | None => false end) (replicate (length ops) None) = false) as ->
        by by clear; induction ops.
      finish tt (spec_transaction (tree_of (kz_state s)) ops). by rewrite Ec, Htree.
    + apply create_all_error in Ec as He. pose proof (commit_loop_specified ops 0 [] (tree_of (kz_state s))) as Hi.
      rewrite Ec in Hi. destruct Hi as [Hi _]. unfold mbind at 1, M_bind at 1, mbind at 1, M_bind at 1. rewrite Hon.
      assert (existsb (λ r : option exn, match r with Some _ => true | None => false end)
        ((λ z, Some (KazooError z)) <$> failed_results (length ops) i e) = true) as ->.
      { unfold failed_results. by destruct i. }
      rewrite take_ge by (rewrite length_fmap; unfold failed_results; rewrite !length_app, !length_replicate; simpl; lia).
      rewrite mapped_failed by done. finish Htree (spec_transaction_failed (tree_of (kz_state s)) ops i e). done.
Qed.

(** How many requests are answered before there is trouble. *)
Fixpoint untroubled (os : list operation) (s : connection) : nat :=
  match os with
  | [] => 0
  | o :: os' =>
      let s' := fst (run_operation conn o s) in
      if decide (trouble (kz_state s') = trouble (kz_state s)) then S (untroubled os' s') else 0
  end.

(** C27: Steps that were verified with the in-memory connection run with kazoo.  From
    the same tree, the requests of a client that is alone have the same answers, values and
    exceptions, up to the first request during which kazoo loses its connection or its
    session or is refused for another reason than the tree of nodes; after that
    nothing is claimed.  There are two exceptions:
    [NotEmptyError] of kazoo is not translated to that
    of the interface, and a recursive deletion may not report that there
    was nothing to delete.  The requests are those without a watcher, on plain absolute paths, that do
    not write to the root or below [/zookeeper]. *)
Theorem kazoo_like_memory (c : nat) (os : list operation) (s : connection) (z : client) :
  Forall operation_ok os → client_set s = true → c ∈ connections z →
  tree_of (kz_state s) = storage z → well_formed (storage z) →
  let n := untroubled os s in
  Forall2 (λ o rs, same_answer o rs.1 rs.2) (take n os)
    (zip (run_operations (memory_connection c) (take n os) z) (run_operations conn (take n os) s)).
Proof using KazooSpec0.
  intros Hos. revert s z. induction Hos as [|o os Ho Hos IH]; intros s z Hs Hc Ht Hwf; cbn [untroubled]; [done|].
  case_decide as Hq; cbn [take]; [|done]. cbn [run_operations zip zip_with].
  destruct (run_operation (memory_connection c) o z) as [z' r0] eqn:E1. destruct (run_operation conn o s) as [s' r] eqn:E2.
  pose proof (memory_wf c o z Hwf) as Hwf'. rewrite E1 in Hwf'. cbn [fst] in Hq |- *.
  apply memory_refines in E1 as [H1 Hc']; [|done..]. apply kazoo_refines in E2 as (r1 & H2 & Hr & Hs'); [|done..].
  rewrite Ht in H2. destruct (specified_functional _ _ _ _ _ _ H1 H2) as [Ht' ->].
  cbn. constructor; [exact Hr|]. apply IH; [done| |done|done]. by rewrite Hc'.
Qed.
End kazoo_spec.

(** ** A server in memory *)
Module Memory.
Definition prefixes (k : Parts) : list Parts := (λ j, take j k) <$> seq 1 (length k - 1).
Definition add_node (k : Parts) (value : string) (t : tree) : tree :=
  <[k := value]> (foldl (λ t x, <[x := default "" (t !! x)]> t) t (prefixes k)).
Definition remove_node (k : Parts) (t : tree) : tree := filter (λ kv, ¬ k `prefix_of` kv.1) t.
Definition descendants (k : Parts) (t : tree) : list Parts := filter (λ x, x ≠ k ∧ k `prefix_of` x) (map_to_list t).*1.

(** Its state: the tree, which of the next requests lose the connection
    before they are answered, and how many did. *)
Record server_state : Type := mkServer { nodes : tree; losses : list bool; lost : nat }.
Definition serve {A} (f : tree → tree * res A) : M server_state A := λ k,
  match losses k with
  | true :: rest => (mkServer (nodes k) rest (S (lost k)), Raise KazooConnectionLoss)
  | _ => let '(t, r) := f (nodes k) in (mkServer t (tail (losses k)) (lost k), r)
  end.

Definition server : KazooClient server_state := {|
  kz_start := mret tt;
  kz_stop := mret tt;
  kz_close := mret tt;
  kz_get path _ := serve (λ t, (t, from_option Ok (Raise (KazooError NoNode)) (t !! parse_path path)));
  kz_get_children path _ := serve (λ t,
    (t, if t !! parse_path path then Ok (children t (parse_path path)) else Raise (KazooError NoNode)));
  kz_create path value _ := serve (λ t,
    if t !! parse_path path then (t, Raise (KazooError NodeExists)) else (add_node (parse_path path) value t, Ok tt));
  kz_set path value := serve (λ t,
    if t !! parse_path path then (<[parse_path path := value]> t, Ok tt) else (t, Raise (KazooError NoNode)));
  kz_delete path recursive := serve (λ t,
    if t !! parse_path path then
      if recursive || bool_decide (descendants (parse_path path) t = []) then (remove_node (parse_path path) t, Ok tt)
      else (t, Raise (KazooError NotEmpty))
    else (t, if recursive then Ok tt else Raise (KazooError NoNode)));
  kz_exists path := serve (λ t, (t, Ok (bool_decide (is_Some (t !! parse_path path)))));
  kz_commit ops := serve (λ t,
    match create_all ops t with
    | inl t' => (t', Ok (replicate (length ops) None))
    | inr (i, e) => (t, Ok ((λ z, Some (KazooError z)) <$> failed_results (length ops) i e))
    end);
|}.
(** One more attempt after the connection was lost. *)
Definition retry (A : Type) (m : M server_state A) : M server_state A := λ k,
  match m k with
  | (k', Raise KazooConnectionLoss) => if decide (lost k' = lost k) then (k', Raise KazooConnectionLoss) else
      let '(k2, r) := m k' in (mkServer (nodes k2) (losses k2) (S (lost k)), r)
  | x => x
  end.

Lemma elem_of_prefixes k x : x ∈ prefixes k ↔ x ≠ k ∧ x ≠ [] ∧ x `prefix_of` k.
Proof.
  unfold prefixes. rewrite list_elem_of_fmap. split.
  - intros (j & -> & Hj%elem_of_seq). split; [|split]; [| |apply prefix_take]; intros E; apply (f_equal length) in E;
      rewrite length_take in E; simpl in E; lia.
  - intros (Hne & Hx & Hp). exists (length x). split; [by apply prefix_is_take|]. apply elem_of_seq.
    pose proof (prefix_length _ _ Hp) as Hl. rewrite prefix_is_take in Hp.
    assert (length x ≠ length k) by (intros E; rewrite E, firstn_all in Hp; done). destruct x; [done|]. simpl in *. lia.
Qed.

Lemma add_node_with k value t : with_node k value t (add_node k value t).
Proof.
  unfold add_node. split; [by rewrite lookup_insert_eq|]. intros x Hx. rewrite lookup_insert_ne by done.
  rewrite (decide_ext (x ≠ [] ∧ x `prefix_of` k) (x ∈ prefixes k)) by (rewrite elem_of_prefixes; tauto).
  generalize (prefixes k) as l. intros l. revert t. induction l as [|y l IH]; intros t; cbn [foldl]; [by rewrite decide_False by apply not_elem_of_nil|].
  rewrite IH. destruct (decide (y = x)) as [->|Hne].
  - rewrite lookup_insert_eq, (decide_True (P:=x ∈ x :: l)) by by left. by case_decide.
  - rewrite lookup_insert_ne by done. apply decide_ext. rewrite elem_of_cons. naive_solver.
Qed.

Lemma remove_node_without k t : without_node k t (remove_node k t).
Proof.
  intros x. unfold remove_node. case_decide as H.
  - apply map_lookup_filter_None. right. intros v _ Hn. by apply Hn.
  - destruct (t !! x) as [v|] eqn:E; [by apply map_lookup_filter_Some|]. apply map_lookup_filter_None. by left.
Qed.

Lemma has_descendants_iff k t : has_descendants k t ↔ descendants k t ≠ [].
Proof.
  assert (∀ x, x ∈ descendants k t ↔ (x ≠ k ∧ k `prefix_of` x) ∧ is_Some (t !! x)) as Hx.
  { intros x. unfold descendants. by rewrite list_elem_of_filter, elem_of_keys. }
  split.
  - intros (x & Hne & Hp & Hs) E. apply (not_elem_of_nil x). rewrite <- E. by apply Hx.
  - intros Hne. destruct (descendants k t) as [|x l]; [done|]. exists x. destruct (Hx x) as [[[? ?] ?] _]; [by left|done].
Qed.

Lemma serve_quiet {A} (f : tree → tree * res A) k k' r : serve f k = (k', r) → lost k' = lost k →
  r = snd (f (nodes k)) ∧ nodes k' = fst (f (nodes k)).
Proof.
  unfold serve. destruct (losses k) as [|[] l]; [|intros [= <- _] H; simpl in H; lia|]; destruct (f (nodes k)); by intros [= <- <-].
Qed.

#[global] Instance server_spec : KazooSpec server retry nodes lost.
Proof.
  split.
  - intros A m k. unfold retry. destruct (m k) as [k' [a|e]]; [done|]. destruct e; try done. case_decide; [done|].
    destruct (m k') as [k2 r]. simpl. lia.
  - intros path watch k k' r Hk H Hq. apply serve_quiet in H; [|exact Hq]. exact H.
  - intros path watch k k' r Hk H Hq. apply serve_quiet in H; [|exact Hq]. destruct H as [-> ->]. cbn. split; [done|].
    destruct (nodes k !! parse_path path); [by eexists|done].
  - intros path value k k' r Hk H Hq. apply serve_quiet in H; [|exact Hq]. destruct H as [-> ->]. destruct (nodes k !! parse_path path); [done|].
    split; [done|]. apply add_node_with.
  - intros path value k k' r Hk H Hq. apply serve_quiet in H; [|exact Hq]. destruct H as [-> ->]. by destruct (nodes k !! parse_path path).
  - intros path recursive k k' r Hk H Hq. apply serve_quiet in H; [|exact Hq]. destruct H as [-> ->]. destruct (nodes k !! parse_path path) eqn:E.
    + destruct (recursive || bool_decide _) eqn:Eb; [left|right].
      * split; [|split; [done|apply remove_node_without]]. apply orb_true_iff in Eb as [->|Hb]; [by left|right].
        rewrite has_descendants_iff. intros Hn. by apply bool_decide_eq_true in Hb.
      * apply orb_false_iff in Eb as [-> Hb]. by apply bool_decide_eq_false, has_descendants_iff in Hb.
    + destruct recursive; (split; [done|]); [by right|by left].
  - intros path k k' r Hk H Hq. apply serve_quiet in H; [|exact Hq]. exact H.
  - intros ops k k' r _ H Hq. apply serve_quiet in H; [|exact Hq]. destruct H as [-> ->]. by destruct (create_all ops (nodes k)) as [t'|[i e]].
Qed.

Definition example_client : client := mkClient {[ [""] := "" ]} [1] ∅ [].
Definition example_connection (losses : list bool) : connection := mkKazooConnection (mkServer {[ [""] := "" ]} losses 0) true.
Definition example_operations : list operation :=
  [OpCreate "/a/b" "1"; OpTryCreate "/a/b" "2"; OpTransaction [("/c", "3"); ("/a/b", "4")]; OpDelete "/a" false;
   OpGetChildren "/"; OpGet "/a/b"; OpDelete "/x" true; OpSet "/a" "5"].
(** The connection is lost during the last request. *)
Definition example_losses : list bool := replicate 7 false ++ [true].

Lemma kazoo_like_memory_witness :
  untroubled server retry lost example_operations (example_connection example_losses) = 7 ∧
  Forall2 (λ o rs, same_answer o rs.1 rs.2) (take 7 example_operations)
    (zip (run_operations (memory_connection 1) (take 7 example_operations) example_client)
         (run_operations (kazoo_connection retry server) (take 7 example_operations) (example_connection example_losses))) ∧
  run_operations (kazoo_connection retry server) (take 7 example_operations) (example_connection example_losses) =
    [Ok Done; Ok (Answer false); Raise (TransactionError [Some RolledBack; Some NodeExists]); Raise (KazooError NotEmpty);
     Ok (Names ["a"]); Ok (Value "1"); Ok Done] ∧
  run_operations (memory_connection 1) (take 7 example_operations) example_client =
    [Ok Done; Ok (Answer false); Raise (TransactionError [Some RolledBack; Some NodeExists]); Raise (ZooKeeperError NotEmpty);
     Ok (Names ["a"]); Ok (Value "1"); Raise (ZooKeeperError NoNode)].
Proof.
  assert (untroubled server retry lost example_operations (example_connection example_losses) = 7) as Hn by (vm_compute; reflexivity).
  split; [exact Hn|]. split; [|split; vm_compute; reflexivity].
  assert (Forall operation_ok example_operations) as Hok.
  { assert (∀ p, Forall plain_name (parse_path p) ↔
      forallb (λ x, negb (String.eqb x ".") && negb (String.eqb x "..") && forallb printable (String.list_ascii_of_string x)) (parse_path p) = true) as Hplain.
    { intros p. rewrite <- Is_true_true, forallb_True. apply Forall_iff. intros x. rewrite Is_true_true, !andb_true_iff, !negb_true_iff, !String.eqb_neq.
      unfold plain_name. tauto. }
    repeat match goal with
           | |- Forall operation_ok _ => constructor
           | |- operation_ok _ => unfold operation_ok; cbn [paths_of writes example_operations fmap list_fmap fst]
           | |- Forall (λ _, _) _ => constructor
           | |- writable_path ?p => split; [|split; [by vm_compute|vm_compute; by intros [? [=]]]]
           | |- canonical_path ?p => split; [eexists; split; [vm_compute; reflexivity|]|split; [by vm_compute; eauto|by apply Hplain]]
           | |- Forall good _ => constructor
           | |- good _ => by split
           end. }
  pose proof (kazoo_like_memory server retry nodes lost 1 example_operations (example_connection example_losses) example_client Hok) as H.
  cbv zeta in H. rewrite Hn in H. apply H.
  - done.
  - cbn. by left.
  - done.
  - intros k. cbn. intros [v [<- _]%lookup_singleton_Some]. split; [done|]. simpl. lia.
Defined.

(** A creation whose answer is lost may have been done, and the retry then finds the
    node, which its own first attempt created. *)
Example lost_answer_retried :
  let created (k : server_state) := mkServer (add_node ["";"a"] "1" (nodes k)) (losses k) (S (lost k)) in
  let m : M server_state unit := λ k,
    if decide (lost k = 0) then (created k, Raise KazooConnectionLoss) else kz_create server "/a" "1" true k in
  snd (retry unit m (mkServer {[ [""] := "" ]} [] 0)) = Raise (KazooError NodeExists).
Proof. vm_compute. reflexivity. Qed.
End Memory.
End Kazoo.
