(* ===== verification/Client.v ===== *)
(** * The commands ([client.py], [http_request] of [common/utils.py])

    The commands that send requests to a coordinator and, when asked to wait,
    poll the state of the operation they started.  The library requests and the
    clock are parameters, times are in microseconds; what is printed is left out
    here, the tables of the [list] command are in [ClientList]. *)

From stdpp Require Import base strings list.
From Stdlib Require Import ZArith Lia.
From S2P Require Import Prelude Ipc Utils.

Module Client.
Import Backoff.
Local Open Scope Z_scope.

(** Values of JSON, as the standard library represents them. *)
Inductive json : Type :=
| JNull
| JBool (b : bool)
| JInt (z : Z)
| JStr (s : string)
| JList (l : list json)
| JObj (items : list (string * json)).

(** [r[key]] *)
Definition item (j : json) (key : string) : res json :=
  match j with
  | JObj items => match dict_get items key with Some v => Ok v | None => Raise KeyError end
  | _ => Raise TypeError
  end.
Definition is_str (j : json) (s : string) : bool := match j with JStr x => bool_decide (x = s) | _ => false end.
(** The truth of a value. *)
Definition truthy_json (j : json) : bool :=
  match j with
  | JNull => false
  | JBool b => b
  | JInt z => negb (z =? 0)
  | JStr s => negb (bool_decide (s = ""))
  | JList l => negb (bool_decide (length l = 0%nat))
  | JObj items => negb (bool_decide (length items = 0%nat))
  end.

Record Response : Type := mkResponse {
  response_ok : bool;
  response_json : res json;
}.

Definition second : Z := 1000000.

Section client.
Context {W : Type}.
(** [requests.request]: method, URL, data and timeout. *)
Context (requests_request : string → json → option string → Z → M W Response).
Context (monotonic : M W Z) (sleep : Z → M W unit).
Context (dumps : json → string).

(** A decoded [null] is [None] too. *)
Definition http_request (method : string) (url : json) (data : option string) (timeout : Z) (ignore_status_code : bool) :
    M W (option json) :=
  try_except
    (r ← requests_request method url data timeout;
     if response_ok r || ignore_status_code
     then j ← lift_res (response_json r); mret (match j with JNull => None | _ => Some j end)
     else mret None)
    (λ e, bool_decide (e = RequestException)) (λ _, mret None).

(** ** [for _ in exponential_backoff(...)]

    The loop with [__next__]; the body returns a value to leave the loop, and
    [None] is the result of a loop that was not left. *)
Fixpoint backoff_for {A} (fuel : nat) (c : config) (it : iter) (body : M W (option A)) : M W (option A) :=
  match fuel with
  | O => raise OutOfFuel
  | S fuel' =>
      now ← monotonic;
      '(step, it') ← lift_res (next c it now);
      match step with
      | None => mret None
      | Some (_, d) =>
          (if d =? 0 then mret tt else sleep d) ;;
          r ← body;
          match r with Some a => mret (Some a) | None => backoff_for fuel' c it' body end
      end
  end.
Definition exponential_backoff_for {A} (fuel : nat) (c : config) (body : M W (option A)) : M W (option A) :=
  py_assert (match duration c, retries c with None, None => false | _, _ => true end) ;;
  backoff_for fuel c new_iter body.

(** ** The commands

    The parsed arguments. *)
Record Args : Type := mkArgs {
  url : string;
  wait_completion : option Z;
  storage : option string;
  backup : option string;
  stop_after_step : option string;
  retention : Retention;
  backups : option (list string);
  status : bool;
}.

Definition client_backoff (wait : option Z) : config := mkConfig (second / 10) None 2 None (Z.mul second <$> wait).
(** [not args.wait_completion] *)
Definition waits (args : Args) : option Z :=
  match wait_completion args with Some s => if s =? 0 then None else Some s | None => None end.

(** The body of the loop that polls the state. *)
Definition poll_state (status_url : json) : M W (option bool) :=
  r ← http_request "get" status_url None (10 * second) false;
  match r with
  | None => mret (Some false)
  | Some r =>
      state ← lift_res (item r "state");
      if is_str state "fail" then mret (Some false)
      else if is_str state "done" then mret (Some true)
      else mret None
  end.

Definition run_op (fuel : nat) (op : string) (args : Args) (body : option json) (data : option string) : M W bool :=
  start ← monotonic;
  let data := match body with Some j => Some (dumps j) | None => data end in
  r ← http_request "post" (JStr (url args +:+ "/" +:+ op)) data (10 * second) false;
  match r with
  | None => mret false
  | Some r =>
      match waits args with
      | None => _ ← monotonic; mret true
      | Some wait =>
          status_url ← lift_res (item r "status_url");
          left_with ← exponential_backoff_for fuel (client_backoff (Some wait)) (poll_state status_url);
          match left_with with
          | None => mret false
          | Some b => mret b
          end
      end
  end.

Definition nonempty_str (key : string) (v : option string) : list (string * json) :=
  match v with Some EmptyString | None => [] | Some s => [(key, JStr s)] end.
Definition run_restore (fuel : nat) (args : Args) : M W bool :=
  run_op fuel "restore" args (Some (JObj (nonempty_str "storage" (storage args) ++ nonempty_str "name" (backup args) ++
    nonempty_str "stop_after_step" (stop_after_step args)))) None.

Definition nonzero (key : string) (v : option Z) : list (string * json) :=
  match v with None => [] | Some z => if z =? 0 then [] else [(key, JInt z)] end.
Definition retention_fields (r : Retention) : list (string * json) :=
  nonzero "minimum_backups" (minimum_backups r) ++ nonzero "maximum_backups" (maximum_backups r) ++ nonzero "keep_days" (keep_days r).
Definition run_cleanup (fuel : nat) (args : Args) : M W bool :=
  run_op fuel "cleanup" args (Some (JObj (match retention_fields (retention args) with [] => [] | l => [("retention", JObj l)] end))) None.

Definition run_delete (fuel : nat) (args : Args) : M W bool :=
  run_op fuel "cleanup" args
    (Some (JObj [("explicit_delete", match backups args with Some l => JList (JStr <$> l) | None => JNull end)])) None.

Definition reload_body (args : Args) (wait start_time : Z) : M W (option bool) :=
  t ← monotonic;
  response ← http_request "post" (JStr (url args +:+ "/config/reload")) None (second * wait - (t - start_time)) false;
  mret (match response with Some _ => Some true | None => None end).
Definition reload_config (fuel : nat) (args : Args) : M W bool :=
  start_time ← monotonic;
  (* the loop asserts that there is a duration *)
  r ← exponential_backoff_for fuel (client_backoff (wait_completion args)) (reload_body args (default 0 (wait_completion args)) start_time);
  mret (match r with Some b => b | None => false end).

Definition check_reload_config (args : Args) : M W bool :=
  response ← http_request "get" (JStr (url args +:+ "/config/status")) None (10 * second) false;
  match response with
  | None => mret false
  | Some r =>
      needs_reload ← lift_res (item r "needs_reload");
      mret (if status args then negb (truthy_json needs_reload) else true)
  end.
End client.

(** ** Loops with back-off end *)
Section loops.
Context {W : Type} (monotonic : M W Z) (sleep : Z → M W unit) (clock : W → Z).

(** The clock is read, and sleeping takes at least as long as asked. *)
Class ClockSpec : Prop := {
  monotonic_reads w : monotonic w = (w, Ok (clock w));
  sleep_takes d w : 0 ≤ d → ∃ w', sleep d w = (w', Ok tt) ∧ clock w + d ≤ clock w';
}.
Context {ClockSpec0 : ClockSpec}.
Context (a D : Z) (a_pos : 1 ≤ a).
Local Notation c := (mkConfig a None 2 None (Some D)).

(** Attempt number [n] comes after a delay of [a * 2 ^ (n - 1)]. *)
Definition delay_of (n : Z) : Z := if n =? 0 then 0 else a * 2 ^ (n - 1).

Lemma next_cases t0 n now :
  next c (mkIter (n - 1) (if n =? 0 then None else Some t0)) now =
    if (n =? 0) || (now + delay_of n <=? t0 + D)
    then Ok (Some (n, delay_of n), mkIter n (Some (if n =? 0 then now else t0)))
    else Ok (None, mkIter n (Some t0)).
Proof.
  unfold next, delay. cbn [retry started retries duration]. replace (n - 1 + 1) with n by lia.
  destruct (n =? 0) eqn:E; [unfold delay_of; by rewrite E|]. unfold raw_delay. cbn [maximum initial multiplier orb].
  unfold delay_of. rewrite E. destruct (_ <? 0) eqn:E1.
  - by rewrite (proj2 (Z.leb_gt _ _)) by lia.
  - by rewrite (proj2 (Z.leb_le _ _)) by lia.
Qed.

(** One more attempt than can be granted. *)
Definition attempts : Z := Z.log2 D + 2.
Lemma granted_attempts t0 n now : 0 < n → t0 ≤ now → now + delay_of n ≤ t0 + D → n < attempts.
Proof using a_pos.
  unfold delay_of, attempts. intros Hn Ht. rewrite (proj2 (Z.eqb_neq _ _)) by lia. intros H.
  pose proof (Z.pow_pos_nonneg 2 (n - 1)) as Hp. assert (2 ^ (n - 1) ≤ D) as H2 by nia.
  apply Z.log2_le_pow2 in H2; lia.
Qed.

(** The rule of the loop: [I n w] holds before attempt [n]. *)
Lemma backoff_for_rule {A} (body : M W (option A)) (t0 : Z) (I : Z → W → Prop) (Q : W → res (option A) → Prop) :
  (∀ n w, 0 ≤ n → I n w → t0 ≤ clock w ∧ (n = 0 → clock w = t0)) →
  (∀ n w, 0 < n ≤ attempts → I n w → t0 + D < clock w + delay_of n → Q w (Ok None)) →
  (∀ n w w1, 0 ≤ n → I n w → clock w + delay_of n ≤ clock w1 → (n = 0 → w1 = w) →
     (0 < n → clock w + delay_of n ≤ t0 + D) → sleep (delay_of n) w = (w1, Ok tt) ∨ n = 0 →
     match body w1 with
     | (w2, Ok None) => I (n + 1) w2
     | (w2, Ok (Some r)) => Q w2 (Ok (Some r))
     | (w2, Raise e) => Q w2 (Raise e)
     end) →
  ∀ fuel n w, 0 ≤ n → I n w → 0 ≤ D → (Z.to_nat (attempts - n) < fuel)%nat → n ≤ attempts →
  match backoff_for monotonic sleep fuel c (mkIter (n - 1) (if n =? 0 then None else Some t0)) body w with
  | (w', r) => Q w' r
  end.
Proof using a_pos ClockSpec0.
  intros HI Hend Hstep fuel. induction fuel as [|fuel IH]; intros n w Hn Hw HD Hf Hle; [lia|]. cbn [backoff_for].
  rewrite (bind_ok monotonic _ w w (clock w)) by apply monotonic_reads. rewrite next_cases. destruct (HI n w Hn Hw) as [Ht0 H0].
  destruct ((n =? 0) || (clock w + delay_of n <=? t0 + D)) eqn:Eg.
  2: { apply orb_false_iff in Eg as [E1 E2]. erewrite (bind_ok (lift_res _)) by reflexivity. cbn. apply (Hend n); [lia|done|lia]. }
  erewrite (bind_ok (lift_res _)) by reflexivity. cbn beta iota.
  assert (if n =? 0 then clock w = t0 else clock w + delay_of n ≤ t0 + D) as Hg by (destruct (n =? 0) eqn:E; simpl in Eg; [apply H0|]; lia).
  assert (0 ≤ delay_of n) as Hd by (unfold delay_of; destruct (n =? 0); [lia|]; pose proof (Z.pow_nonneg 2 (n - 1)); nia).
  assert (∃ w1, (if delay_of n =? 0 then mret tt else sleep (delay_of n)) w = (w1, Ok tt) ∧ clock w + delay_of n ≤ clock w1 ∧
    (n = 0 → w1 = w) ∧ (sleep (delay_of n) w = (w1, Ok tt) ∨ n = 0)) as (w1 & Hs & Hc1 & Hw1 & Hsl).
  { destruct (delay_of n =? 0) eqn:E.
    - exists w. split; [done|]. split; [lia|]. split; [done|]. right. unfold delay_of in E. destruct (n =? 0) eqn:E0; [lia|].
      pose proof (Z.pow_pos_nonneg 2 (n - 1)). nia.
    - destruct (sleep_takes (delay_of n) w Hd) as (w1 & Hs & Hc). exists w1. split; [done|]. split; [done|]. split; [|by left].
      intros ->. done. }
  rewrite (bind_ok _ _ _ _ _ Hs). specialize (Hstep n w w1 Hn Hw Hc1 Hw1).
  assert (0 < n → clock w + delay_of n ≤ t0 + D) as Hb by (intros Hn0; rewrite (proj2 (Z.eqb_neq _ _)) in Hg by lia; lia).
  specialize (Hstep Hb Hsl). destruct (body w1) as [w2 [[r|]|e]] eqn:Eb.
  - rewrite (bind_ok _ _ _ _ _ Eb). done.
  - rewrite (bind_ok _ _ _ _ _ Eb). specialize (IH (n + 1) w2).
    replace (n + 1 - 1) with n in IH by lia. rewrite (proj2 (Z.eqb_neq (n + 1) 0)) in IH by lia.
    assert (n < attempts) as Hlt.
    { destruct (decide (n = 0)) as [->|Hne]; [unfold attempts; pose proof (Z.log2_nonneg D); lia|].
      apply (granted_attempts t0 n (clock w)); [lia|done|]. rewrite (proj2 (Z.eqb_neq _ _)) in Hg by lia. done. }
    replace (if n =? 0 then clock w else t0) with t0 by (destruct (n =? 0); congruence).
    apply IH; [lia|done|done|lia|lia].
  - rewrite (bind_raise _ _ _ _ _ Eb). done.
Qed.
End loops.

(** ** What the client reports *)
Section report.
Context {W : Type} (requests_request : string → json → option string → Z → M W Response).
Context (monotonic : M W Z) (sleep : Z → M W unit) (dumps : json → string) (clock : W → Z).
Context {ClockSpec0 : ClockSpec monotonic sleep clock}.
Context (args : Args) (op : string) (status_url : json) (status_at : Z → string).

(** A coordinator, any request to which may fail: no answer or an error.  What it
    answers about the operation is its state at some moment between request and
    answer. *)
Class OperationSpec : Prop := {
  accepts data w :
    let '(w', r) := requests_request "post" (JStr (url args +:+ "/" +:+ op)) data (10 * second) w in
    clock w ≤ clock w' ∧
    match r with
    | Ok response => response_ok response = true → ∃ items, response_json response = Ok (JObj items) ∧ dict_get items "status_url" = Some status_url
    | Raise e => e = RequestException
    end;
  answers w :
    let '(w', r) := requests_request "get" status_url None (10 * second) w in
    clock w ≤ clock w' ∧
    match r with
    | Ok response => response_ok response = true → ∃ t items,
        clock w ≤ t ≤ clock w' ∧ response_json response = Ok (JObj items) ∧ dict_get items "state" = Some (JStr (status_at t))
    | Raise e => e = RequestException
    end;
}.
Context {OperationSpec0 : OperationSpec}.

(** The operation ends at [T], in the state [final]. *)
Definition ends (T : Z) (final : string) : Prop :=
  (final = "done" ∨ final = "fail") ∧ (∀ t, T ≤ t → status_at t = final) ∧
  ∀ t, t < T → status_at t ≠ "done" ∧ status_at t ≠ "fail".
(** The coordinator answers every question about the state within the latency. *)
Definition reliable (latency : Z) : Prop := ∀ w, ∃ w' response,
  requests_request "get" status_url None (10 * second) w = (w', Ok response) ∧ response_ok response = true ∧ clock w' ≤ clock w + latency.
(** Sleeping takes at most that much longer than asked. *)
Definition punctual (late : Z) : Prop := ∀ d w, clock (fst (sleep d w)) ≤ clock w + d + late.

Lemma poll_state_run w : ∃ w' o,
  poll_state requests_request status_url w = (w', Ok o) ∧ clock w ≤ clock w' ∧
  (o = Some true → ∃ t, clock w ≤ t ≤ clock w' ∧ status_at t = "done") ∧
  ∀ T final latency, ends T final → reliable latency → clock w' ≤ clock w + latency ∧
    ∃ t, clock w ≤ t ≤ clock w' ∧ o = if decide (T ≤ t) then Some (bool_decide (final = "done")) else None.
Proof using OperationSpec0.
  pose proof (answers w) as Ha. destruct (requests_request _ _ _ _ w) as [w' r] eqn:Hr. destruct Ha as [Hle Ha]. exists w'.
  unfold poll_state. destruct r as [response|e].
  2: { exists (Some false). split; [|split; [done|split; [done|]]].
       - rewrite (bind_ok _ _ w w' None); [done|]. unfold http_request, try_except. rewrite (bind_raise _ _ _ _ _ Hr). by subst e.
       - intros T final latency _ Hrel. destruct (Hrel w) as (? & ? & Hr' & _). congruence. }
  destruct (response_ok response) eqn:Eok.
  2: { exists (Some false). split; [|split; [done|split; [done|]]].
       - rewrite (bind_ok _ _ w w' None); [done|]. unfold http_request, try_except. rewrite (bind_ok _ _ _ _ _ Hr). by rewrite Eok.
       - intros T final latency _ Hrel. destruct (Hrel w) as (? & ? & Hr' & Hok & _). congruence. }
  destruct (Ha eq_refl) as (t & items & Ht & Hj & Hi).
  assert (http_request requests_request "get" status_url None (10 * second) false w = (w', Ok (Some (JObj items)))) as Hh.
  { unfold http_request, try_except. rewrite (bind_ok _ _ _ _ _ Hr), Eok, Hj. done. }
  rewrite (bind_ok _ _ _ _ _ Hh). cbn beta iota.
  rewrite (bind_ok (lift_res _) _ w' w' (JStr (status_at t))) by (unfold lift_res, item; by rewrite Hi). cbn [is_str].
  exists (if bool_decide (status_at t = "fail") then Some false else if bool_decide (status_at t = "done") then Some true else None).
  split; [by destruct (bool_decide (status_at t = "fail")), (bool_decide (status_at t = "done"))|]. split; [done|]. split.
  - repeat case_bool_decide; [done| |done]. intros _. by exists t.
  - intros T final latency (Hfinal & Hended & Hrunning) Hrel. destruct (Hrel w) as (? & ? & Hr' & _ & Hl).
    rewrite Hr in Hr'. injection Hr' as <- <-. split; [done|]. exists t. split; [done|]. case_decide as HT.
    + rewrite (Hended t HT). by destruct Hfinal as [-> | ->].
    + destruct (Hrunning t) as [H1 H2]; [lia|]. by rewrite !bool_decide_false by done.
Qed.

(** The time slept before attempt [n], not counting its own delay. *)
Definition slept (n : Z) : Z := if n =? 0 then 0 else second / 10 * (2 ^ (n - 1) - 1).
Lemma slept_next n : 0 ≤ n → slept (n + 1) = slept n + delay_of (second / 10) n.
Proof.
  intros Hn. unfold slept, delay_of. rewrite (proj2 (Z.eqb_neq (n + 1) 0)) by lia. replace (n + 1 - 1) with n by lia.
  destruct (n =? 0) eqn:E; [replace n with 0 by lia; lia|]. replace n with (Z.succ (n - 1)) at 1 by lia. rewrite Z.pow_succ_r by lia. lia.
Qed.
Lemma slept_nonneg n : 0 ≤ n → 0 ≤ slept n.
Proof.
  intros Hn. unfold slept. destruct (n =? 0) eqn:E; [lia|]. pose proof (Z.pow_pos_nonneg 2 (n - 1)).
  apply Z.mul_nonneg_nonneg; [done|lia].
Qed.

(** The loop ends within the fuel; it is left with success only when the state
    was [done] when asked. *)
Lemma poll_loop_safe (D : Z) (fuel : nat) (w1 : W) :
  0 ≤ D → (Z.to_nat (attempts D) < fuel)%nat → ∃ w' o,
  backoff_for monotonic sleep fuel (mkConfig (second / 10) None 2 None (Some D)) new_iter (poll_state requests_request status_url) w1 = (w', Ok o) ∧
  (o = Some true → ∃ t, clock w1 ≤ t ≤ clock w' ∧ status_at t = "done").
Proof using ClockSpec0 OperationSpec0.
  intros HD Hfuel. set (a := second / 10). assert (1 ≤ a) as Ha by done.
  pose proof (backoff_for_rule monotonic sleep clock a D Ha (poll_state requests_request status_url) (clock w1)
    (λ n w, clock w1 ≤ clock w ∧ (n = 0 → clock w = clock w1))
    (λ w' r, ∃ o, r = Ok o ∧ (o = Some true → ∃ t, clock w1 ≤ t ≤ clock w' ∧ status_at t = "done"))) as Hrule.
  change new_iter with (mkIter (0 - 1) (if 0 =? 0 then None else Some (clock w1))).
  specialize Hrule with (fuel := fuel) (n := 0) (w := w1).
  destruct (backoff_for _ _ _ _ _ _ _) as [w' r]. enough (∃ o, r = Ok o ∧ (o = Some true → ∃ t, clock w1 ≤ t ≤ clock w' ∧ status_at t = "done"))
    as (o & -> & Ho) by by exists w', o.
  apply Hrule; clear Hrule; try done; try (unfold attempts in *; pose proof (Z.log2_nonneg D); lia).
  - intros n w0 _ _ _. by exists None.
  - intros n w0 w2 Hn [H1 H2] Hc _ _ _. assert (0 ≤ delay_of a n) as Hd.
    { unfold delay_of. destruct (n =? 0); [lia|]. pose proof (Z.pow_nonneg 2 (n - 1)). nia. }
    destruct (poll_state_run w2) as (w3 & o & -> & Hle & Ho & _). destruct o as [b|]; [|lia]. exists (Some b). split; [done|].
    intros Hb. destruct (Ho Hb) as (t & Ht & Hs). exists t. split; [lia|done].
Qed.

(** The loop: left when the operation has ended, or not left, and then it had
    not ended in the first half of the time. *)
Lemma poll_loop_outcome (T : Z) (final : string) (latency late D : Z) (fuel : nat) (w1 : W) :
  ends T final → reliable latency → punctual late → 0 ≤ latency → 0 ≤ late → 0 ≤ D → (Z.to_nat (attempts D) < fuel)%nat →
  match backoff_for monotonic sleep fuel (mkConfig (second / 10) None 2 None (Some D)) new_iter (poll_state requests_request status_url) w1 with
  | (_, Ok (Some b)) => b = bool_decide (final = "done")
  | (_, Ok None) => D < 2 * (T - clock w1) + second / 10 + attempts D * (latency + late)
  | (_, Raise _) => False
  end.
Proof using ClockSpec0 OperationSpec0.
  intros Hends Hreliable Hpunctual Hlatency Hlate HD Hfuel. set (a := second / 10). assert (1 ≤ a) as Ha by done.
  pose proof (backoff_for_rule monotonic sleep clock a D Ha (poll_state requests_request status_url) (clock w1)
    (λ n w, clock w1 + slept n ≤ clock w ≤ clock w1 + slept n + n * (latency + late) ∧ (0 < n → clock w1 + slept n < T))
    (λ w' r, match r with
             | Ok (Some b) => b = bool_decide (final = "done")
             | Ok None => D < 2 * (T - clock w1) + a + attempts D * (latency + late)
             | Raise _ => False
             end)) as Hrule.
  change new_iter with (mkIter (0 - 1) (if 0 =? 0 then None else Some (clock w1))).
  specialize Hrule with (fuel := fuel) (n := 0) (w := w1).
  destruct (backoff_for _ _ _ _ _ _ _) as [w' [[b|]|e]]; apply Hrule; clear Hrule;
    try (unfold attempts in *; pose proof (Z.log2_nonneg D); lia); try (change (slept 0) with 0; lia).
  all: try (intros n w0 Hn [[H1 H2] _]; split; [pose proof (slept_nonneg n Hn); lia|]; intros ->; change (slept 0) with 0 in *; lia).
  all: try (intros n w0 [Hn Hle] [[H1 H2] H3] Hend; specialize (H3 Hn);
    assert (delay_of a n = slept n + a) as Hd by (unfold delay_of, slept; rewrite (proj2 (Z.eqb_neq n 0)) by lia; fold a; lia); nia).
  all: intros n w0 w2 Hn [[H1 H2] _] Hc H0 _ Hs; destruct (poll_state_run w2) as (w3 & o & -> & Hle & _ & Hexact);
    destruct (Hexact T final latency Hends Hreliable) as (Hl & t & Ht & ->);
    assert (clock w2 ≤ clock w0 + delay_of a n + late) as Hc2 by
      (destruct Hs as [Hs|Hz]; [pose proof (Hpunctual (delay_of a n) w0) as Hp; by rewrite Hs in Hp|rewrite (H0 Hz), Hz; cbn; lia]);
    pose proof (slept_next n Hn) as HP; fold a in HP; case_decide as HT; [done|]; (split; [nia|lia]).
Qed.

(** C36: Whatever fails, the command ends within the fuel.  When no coordinator
    accepts the request, it reports failure; when one does and the command does
    not wait, it reports success, which tells nothing about the end of the
    operation.  When it waits, it says that the operation succeeded only when
    the state was [done] at some time during the command.  And if every question
    is answered, within the latency, and no sleep is much longer than asked,
    it reports how the operation ended whenever that happens in the first half
    of the waiting time, less half of a tenth of a second and of all latencies
    and delays: the polls are then still close enough. *)
Theorem client_reports (body : option json) (data : option string) (fuel : nat) (w : W)
    (Hfuel : ∀ wait, waits args = Some wait → 0 < wait ∧ (Z.to_nat (attempts (second * wait)) < fuel)%nat) :
  ∃ w1 r w' b,
    http_request requests_request "post" (JStr (url args +:+ "/" +:+ op))
      (match body with Some j => Some (dumps j) | None => data end) (10 * second) false w = (w1, Ok r) ∧
    run_op requests_request monotonic sleep dumps fuel op args body data w = (w', Ok b) ∧
    match r, waits args with
    | None, _ => b = false
    | Some _, None => b = true
    | Some _, Some wait =>
        (b = true → ∃ t, clock w1 ≤ t ≤ clock w' ∧ status_at t = "done") ∧
        ∀ T final latency late, ends T final → reliable latency → punctual late → 0 ≤ latency → 0 ≤ late →
          2 * (T - clock w1) + second / 10 + attempts (second * wait) * (latency + late) ≤ second * wait →
          b = bool_decide (final = "done")
    end.
Proof using ClockSpec0 OperationSpec0.
  unfold run_op. rewrite (bind_ok monotonic _ w w (clock w)) by apply (monotonic_reads _ _ _ (ClockSpec:=ClockSpec0)). cbv zeta.
  set (data' := match body with Some j => Some (dumps j) | None => data end).
  assert (∃ w1 r, http_request requests_request "post" (JStr (url args +:+ "/" +:+ op)) data' (10 * second) false w = (w1, Ok r) ∧
    (r = None ∨ ∃ items, r = Some (JObj items) ∧ dict_get items "status_url" = Some status_url)) as (w1 & r & Hp & Hr).
  { pose proof (accepts data' w) as Ha. destruct (requests_request _ _ _ _ w) as [w1 r] eqn:Hpost. destruct Ha as [_ Ha]. exists w1.
    unfold http_request, try_except. destruct r as [response|e].
    - rewrite (bind_ok _ _ _ _ _ Hpost). destruct (response_ok response); [|by exists None; split; [|left]].
      destruct (Ha eq_refl) as (items & Hj & Hu). rewrite Hj. exists (Some (JObj items)). split; [done|]. right. by exists items.
    - rewrite (bind_raise _ _ _ _ _ Hpost). subst e. exists None. split; [done|]. by left. }
  exists w1, r. rewrite (bind_ok _ _ _ _ _ Hp). destruct Hr as [->|(items & -> & Hurl)]; [by exists w1, false|].
  destruct (waits args) as [wait|].
  2: { exists w1, true. split; [done|]. split; [|done]. erewrite bind_ok by apply (monotonic_reads _ _ _ (ClockSpec:=ClockSpec0)). done. }
  rewrite (bind_ok (lift_res _) _ w1 w1 status_url) by (unfold lift_res, item; by rewrite Hurl).
  destruct (Hfuel wait eq_refl) as [Hpos Hf]. assert (0 ≤ second * wait) as HD by (unfold second; lia).
  destruct (poll_loop_safe (second * wait) fuel w1 HD Hf) as (w' & o & Hrun & Ho).
  assert (exponential_backoff_for monotonic sleep fuel (client_backoff (Some wait)) (poll_state requests_request status_url) w1 = (w', Ok o)) as Heq by done.
  rewrite (bind_ok _ _ _ _ _ Heq). exists w', (default false o). split; [done|]. split; [by destruct o|]. split.
  - intros Hb. apply Ho. destruct o; [by f_equal|done].
  - intros T final latency late He Hr Hpu Hl Hl' Hm. pose proof (poll_loop_outcome T final latency late (second * wait) fuel w1 He Hr Hpu Hl Hl' HD Hf) as H.
    rewrite Hrun in H. destruct o; [done|]. lia.
Qed.
End report.

(** ** Reloading the configuration *)
Section reload.
Context {W : Type} (requests_request : string → json → option string → Z → M W Response).
Context (monotonic : M W Z) (sleep : Z → M W unit) (clock : W → Z) (requests : W → list (Z * Z)).
Context {ClockSpec0 : ClockSpec monotonic sleep clock}.

(** Requests are listed with the time when they are made and their timeout, which
    they keep; an answer decodes or the library raises its exception.  A timeout
    that is not positive is refused with another one. *)
Class RequestsSpec : Prop := {
  sleep_no_request d w : requests (fst (sleep d w)) = requests w;
  request_refused method u data timeout w : timeout ≤ 0 → requests_request method u data timeout w = (w, Raise ValueError);
  request_listed method u data timeout w : 0 < timeout →
    let w' := fst (requests_request method u data timeout w) in
    requests w' = requests w ++ [(clock w, timeout)] ∧ clock w ≤ clock w' ≤ clock w + timeout;
  request_answer method u data timeout w : 0 < timeout →
    match snd (requests_request method u data timeout w) with
    | Ok r => ∃ j, response_json r = Ok j
    | Raise e => e = RequestException
    end;
}.
Context {RequestsSpec0 : RequestsSpec}.

Lemma http_request_run method u data timeout ignore w : 0 < timeout → ∃ w' o,
  http_request requests_request method u data timeout ignore w = (w', Ok o) ∧
  requests w' = requests w ++ [(clock w, timeout)] ∧ clock w ≤ clock w' ≤ clock w + timeout.
Proof using RequestsSpec0.
  intros Ht. pose proof (request_listed method u data timeout w Ht) as Hl. pose proof (request_answer method u data timeout w Ht) as Ha.
  unfold http_request, try_except, mbind, M_bind. destruct (requests_request method u data timeout w) as [w' [r|e]]; cbn in *.
  - destruct Ha as [j Hj]. destruct (response_ok r || ignore); unfold lift_res; rewrite ?Hj; eauto.
  - subst e. rewrite bool_decide_true by done. eauto.
Qed.

(** The requests made since [w], whose latest end is that of the time [D]. *)
Definition asked (w : W) (D : Z) (w' : W) : Prop :=
  ∃ l, requests w' = requests w ++ l ∧ l ≠ [] ∧ Forall (λ r, clock w ≤ r.1 ∧ 0 < r.2 ∧ r.1 + r.2 = clock w + D) l.
Definition within (w : W) (D : Z) (w' : W) : Prop := asked w D w' ∧ clock w' ≤ clock w + D.
(** Before the first request, and after some. *)
Definition asking (w : W) (D : Z) (n : Z) (w' : W) : Prop := if n =? 0 then w' = w else within w D w'.

Lemma reload_body_within args wait w n w2 :
  (if n =? 0 then w2 = w else asked w (second * wait) w2) → clock w ≤ clock w2 →
  (clock w + second * wait ≤ clock w2 →
     reload_body requests_request monotonic args wait (clock w) w2 = (w2, Raise ValueError)) ∧
  (clock w2 < clock w + second * wait → ∃ w3 o,
     reload_body requests_request monotonic args wait (clock w) w2 = (w3, Ok o) ∧ within w (second * wait) w3 ∧ clock w2 ≤ clock w3).
Proof using ClockSpec0 RequestsSpec0.
  intros H1 Hc2. unfold reload_body.
  rewrite !(bind_ok monotonic _ w2 w2 (clock w2)) by apply (monotonic_reads _ _ _ (ClockSpec:=ClockSpec0)). split.
  - intros Hlate. rewrite (bind_raise _ _ w2 w2 ValueError); [done|]. unfold http_request, try_except.
    rewrite (bind_raise _ _ w2 w2 ValueError) by (apply request_refused; lia). done.
  - intros Hd.
    destruct (http_request_run "post" (JStr (url args +:+ "/config/reload")) None (second * wait - (clock w2 - clock w)) false w2)
      as (w3 & o & Hr & Hl & Hc3); [lia|]. rewrite (bind_ok _ _ _ _ _ Hr).
    eexists _, _. split; [done|]. split; [|lia]. split; [|lia]. unfold asked. rewrite Hl. destruct (n =? 0).
    + subst w2. eexists. split; [done|]. split; [done|]. constructor; [cbn; lia|done].
    + destruct H1 as (l & -> & _ & HF). rewrite <- app_assoc. eexists. split; [done|]. split; [by destruct l|].
      apply Forall_app. split; [done|]. constructor; [cbn; lia|done].
Qed.

(** However often it asks, however late it wakes up and whatever is answered, the
    requests of the command end before the time that it was given is over,
    even one that times out, and so does the command, unless a sleep (or no
    time at all) brings it to that moment: its next timeout is not positive
    then, and it ends with the exception of the library.  Without [-w] it raises
    the assertion of the loop. *)
Theorem reload_within_wait (args : Args) (fuel : nat) (w : W) :
  match wait_completion args with
  | None => reload_config requests_request monotonic sleep fuel args w = (w, Raise AssertionError)
  | Some wait =>
      0 ≤ wait → (Z.to_nat (attempts (second * wait)) < fuel)%nat →
      ∃ w' r, reload_config requests_request monotonic sleep fuel args w = (w', r) ∧
        match r with
        | Ok _ => within w (second * wait) w'
        | Raise e => e = ValueError ∧ clock w + second * wait ≤ clock w' ∧
            (requests w' = requests w ∨ asked w (second * wait) w')
        end
  end.
Proof using ClockSpec0 RequestsSpec0.
  unfold reload_config. rewrite (bind_ok monotonic _ w w (clock w)) by apply (monotonic_reads _ _ _ (ClockSpec:=ClockSpec0)).
  unfold exponential_backoff_for, client_backoff. destruct (wait_completion args) as [wait|]; [|done].
  cbn [fmap option_fmap option_map duration default from_option id]. intros Hwait Hfuel. set (D := second * wait) in *.
  assert (0 ≤ D) as HD by (unfold D, second; lia). set (a := second / 10). assert (1 ≤ a) as Ha by done.
  pose proof (backoff_for_rule monotonic sleep clock a D Ha (reload_body requests_request monotonic args wait (clock w)) (clock w)
    (λ n w1, clock w ≤ clock w1 ∧ asking w D n w1)
    (λ w' r, match r with
             | Ok _ => within w D w'
             | Raise e => e = ValueError ∧ clock w + D ≤ clock w' ∧ (requests w' = requests w ∨ asked w D w')
             end)) as Hrule.
  specialize Hrule with (fuel := fuel) (n := 0) (w := w). unfold asking in Hrule.
  assert (match backoff_for monotonic sleep fuel (mkConfig a None 2 None (Some D)) new_iter
            (reload_body requests_request monotonic args wait (clock w)) w with
          | (w', Ok _) => within w D w'
          | (w', Raise e) => e = ValueError ∧ clock w + D ≤ clock w' ∧ (requests w' = requests w ∨ asked w D w')
          end) as Hloop.
  { destruct (backoff_for _ _ _ _ _ _ _) as [w' r]. enough (match r with Ok _ => within w D w'
      | Raise e => e = ValueError ∧ clock w + D ≤ clock w' ∧ (requests w' = requests w ∨ asked w D w') end) by by destruct r.
    apply Hrule; clear Hrule; try done; try (unfold attempts in *; pose proof (Z.log2_nonneg D); lia).
    - intros n w1 Hn [H1 H2]. split; [done|]. intros ->. by rewrite H2.
    - intros n w1 [Hn _] [H1 H2] _. by rewrite (proj2 (Z.eqb_neq n 0)) in H2 by lia.
    - intros n w1 w2 Hn [H1 H2] Hc H0 Hb Hs. assert (0 ≤ delay_of a n) as Hd.
      { unfold delay_of. destruct (n =? 0); [lia|]. pose proof (Z.pow_nonneg 2 (n - 1)). nia. }
      assert (requests w2 = requests w1) as Hreq.
      { destruct Hs as [Hs|Hz]; [|by rewrite H0]. pose proof (sleep_no_request (delay_of a n) w1) as Hq. by rewrite Hs in Hq. }
      assert (if n =? 0 then w2 = w else asked w D w2) as Hask.
      { destruct (n =? 0) eqn:E; [by rewrite H0 by lia|]. destruct H2 as [(l & Hl & ?) _]. exists l. by rewrite Hreq. }
      destruct (reload_body_within args wait w n w2 Hask) as [Hlate Hbody]; [lia|].
      destruct (decide (clock w + D ≤ clock w2)) as [Hdl|Hdl].
      + rewrite Hlate by done. split; [done|]. split; [done|]. destruct (n =? 0); [left; by rewrite Hask|by right].
      + destruct Hbody as (w3 & o & -> & Hw & Hle); [fold D; lia|]. destruct o; [done|]. split; [lia|].
        by rewrite (proj2 (Z.eqb_neq (n + 1) 0)) by lia. }
  assert (exponential_backoff_for monotonic sleep fuel (mkConfig a None 2 None (Some D))
    (reload_body requests_request monotonic args wait (clock w)) w = backoff_for monotonic sleep fuel (mkConfig a None 2 None (Some D)) new_iter
            (reload_body requests_request monotonic args wait (clock w)) w) as Hrun by done.
  destruct (backoff_for _ _ _ _ _ _ _) as [w' [o|e]].
  - rewrite (bind_ok _ _ _ _ _ Hrun). by eexists w', _.
  - rewrite (bind_raise _ _ _ _ _ Hrun). by eexists w', _.
Qed.
End reload.

(** ** A coordinator whose operation ends after three seconds *)
Module Examples.
Definition operation_ends : Z := 3 * second.
Definition state_at (t : Z) : string := if operation_ends <=? t then "done" else "running".
(** The state is the clock; requests are answered at once. *)
Definition request (method : string) (u : json) (data : option string) (timeout : Z) : M Z Response := λ t,
  (t, Ok (mkResponse true (Ok (JObj (if bool_decide (method = "post") then [("status_url", JStr "http://n/1")]
                                     else [("state", JStr (state_at t))]))))).
Definition read_clock : M Z Z := λ t, (t, Ok t).
Definition sleep_for (d : Z) : M Z unit := λ t, (t + d, Ok tt).
Definition example_dumps (j : json) : string := "{}".
Definition example_args : Args := mkArgs "http://c" (Some 10) None None None (mkRetention None None None) None false.

#[global] Instance clock_spec : ClockSpec read_clock sleep_for id.
Proof. split; [done|]. intros d w _. eexists. split; [done|]. unfold id. lia. Qed.
#[global] Instance operation_spec : OperationSpec request id example_args "backup" (JStr "http://n/1") state_at.
Proof.
  split.
  - intros data w. split; [done|]. intros _. by eexists.
  - intros w. split; [done|]. intros _. eexists w, _. split; [by unfold id|]. split; reflexivity.
Qed.

Lemma client_reports_witness :
  snd (run_op request read_clock sleep_for example_dumps 40 "backup" example_args None None 0) = Ok true ∧ ends state_at operation_ends "done".
Proof.
  assert (ends state_at operation_ends "done") as Hends.
  { split; [by left|]. split; intros t Ht; unfold state_at; [by rewrite (proj2 (Z.leb_le _ _))|by rewrite (proj2 (Z.leb_gt _ _))]. }
  split; [|done].
  destruct (client_reports request read_clock sleep_for example_dumps id example_args "backup" (JStr "http://n/1") state_at
    None None 40 0) as (w1 & r & w' & b & Hpost & Hrun & Hr).
  - intros wait [= <-]. split; [lia|]. apply Nat.ltb_lt. reflexivity.
  - rewrite Hrun. cbn [snd]. vm_compute in Hpost. injection Hpost as <- <-. destruct Hr as [_ Hr].
    rewrite (Hr operation_ends "done" 0 0 Hends); [done| | |lia|lia|vm_compute; discriminate].
    + intros w. eexists _, _. split; [reflexivity|]. split; [done|]. unfold id. lia.
    + intros d w. unfold id. simpl. lia.
Defined.

(** Nobody answers: the requests and how long they may take, in seconds and
    tenths; no request is left out at the end of the ten seconds. *)
Definition no_answer (method : string) (u : json) (data : option string) (timeout : Z) : M (Z * list (Z * Z)) Response :=
  λ w, ((w.1, w.2 ++ [(w.1, timeout)]), Raise RequestException).
Definition read_clock_of : M (Z * list (Z * Z)) Z := λ w, (w, Ok w.1).
Definition sleep_of (d : Z) : M (Z * list (Z * Z)) unit := λ w, ((w.1 + d, w.2), Ok tt).
Example reload_example :
  let '(w, r) := reload_config no_answer read_clock_of sleep_of 40 example_args (0, []) in
  r = Ok false ∧ (λ r, (r.1 / (second / 10), r.2 / (second / 10))) <$> w.2 =
    [(0, 100); (1, 99); (3, 97); (7, 93); (15, 85); (31, 69); (63, 37)].
Proof. vm_compute. done. Qed.
(** Sleeps that last a second longer: the fourth one ends after the deadline of
    five seconds, and the command ends with an exception. *)
Definition sleep_late (d : Z) : M (Z * list (Z * Z)) unit := λ w, ((w.1 + d + second, w.2), Ok tt).
Definition refuse (method : string) (u : json) (data : option string) (timeout : Z) : M (Z * list (Z * Z)) Response := λ w,
  if timeout <=? 0 then (w, Raise ValueError) else no_answer method u data timeout w.
Definition hurried_args : Args := mkArgs "http://c" (Some 5) None None None (mkRetention None None None) None false.
Example reload_too_late :
  let '(w, r) := reload_config refuse read_clock_of sleep_late 40 hurried_args (0, []) in
  r = Raise ValueError ∧ (λ r, (r.1 / (second / 10), r.2 / (second / 10))) <$> w.2 = [(0, 50); (11, 39); (23, 27); (37, 13)].
Proof. vm_compute. done. Qed.
End Examples.
End Client.
