(* ===== verification/ClientList.v ===== *)
(** * The list command ([print_list_result], [_run_list] of [client.py])

    The tables that are given to [tabulate] for the answer of a coordinator: a
    line of totals and a line per backup.  Texts of floating-point numbers are a
    parameter. *)

From stdpp Require Import base strings list pretty.
From Stdlib Require Import ZArith Lia.
From S2P Require Import Prelude Ipc Client.

Module ClientList.
Import Client.
Local Open Scope Z_scope.

(** [timedelta_as_short_str] of a difference in microseconds: [delta.days] is
    rounded down, [delta.seconds] are those of the day. *)
Definition timedelta_as_short_str (delta : Z) : string :=
  let seconds := delta / second in
  let days := seconds / 86400 in
  let h := seconds mod 86400 / 3600 in
  let m := seconds mod 86400 mod 3600 / 60 in
  let s := seconds mod 86400 mod 3600 mod 60 in
  String.concat " " ((λ vu : Z * string, pretty vu.1 +:+ vu.2) <$>
    filter (λ vu : Z * string, vu.1 ≠ 0) [(days, "d"); (h, "h"); (m, "m"); (s, "s")]).

(** Cells as they are given to [tabulate]. *)
Inductive cell : Type :=
| CStr (s : string)
| CInt (z : Z)
| CPlugin (p : Plugin).
#[global] Instance cell_eq_dec : EqDecision cell.
Proof. solve_decision. Defined.

(** A table: for each row what is in which column, and the titles. *)
Record Table : Type := mkTable {
  rows : list (list (string * cell));
  headers : list (string * string);
}.

Section list.
(** [f"{a / b:.1f}"], [f"{100.0 * a / b:.2f}"], [f"{100.0 - 100.0 * a / b:.2f}"] *)
Context (one_decimal percentage saving : Z → Z → string).

Definition size_as_short_str (size : Z) : string :=
  match list_find (λ um : string * Z, um.2 ≤ size) [("T", 10 ^ 12); ("G", 10 ^ 9); ("M", 10 ^ 6); ("K", 10 ^ 3)] with
  | Some (_, (unit, multiplier)) => one_decimal size multiplier +:+ " " +:+ unit +:+ "B"
  | None => pretty size +:+ " B"
  end.

Definition all_gheaders : list (string * string) :=
  [("storage", "Storage"); ("plugin", "Plugin"); ("pchanged", "% change"); ("csaving", "Comp %"); ("attempt", "Att"); ("nodes", "Nodes")].
Definition all_headers : list (string * string) :=
  [("plugin", "Plugin"); ("name", "Name"); ("attempt", "Att"); ("duration", "Duration"); ("nodes", "Nodes"); ("files", "Files");
   ("total_size", "Size")].
Definition same_or_global : list string := ["plugin"; "attempt"; "nodes"].

(** [getattr(b, field_name)] of these fields *)
Definition getattr (b : ListSingleBackup) (field_name : string) : cell :=
  if bool_decide (field_name = "plugin") then CPlugin (lb_plugin b)
  else if bool_decide (field_name = "attempt") then CInt (lb_attempt b)
  else CInt (lb_nodes b).

(** [del headers[field_name]] *)
Definition del_header (f : string) (h : list (string * string)) : list (string * string) := filter (λ kv, kv.1 ≠ f) h.

(** The loop that decides where a field is shown. *)
Record layout : Type := mkLayout {
  l_gheaders : list (string * string);
  l_headers : list (string * string);
  l_global : list (string * cell);
  l_local : list string;
}.
Definition place_field (backups : list ListSingleBackup) (l : layout) (f : string) : layout :=
  match remove_dups ((λ b, getattr b f) <$> backups) with
  | [] => mkLayout (del_header f (l_gheaders l)) (del_header f (l_headers l)) (l_global l) (l_local l)
  | [v] => mkLayout (l_gheaders l) (del_header f (l_headers l)) (l_global l ++ [(f, v)]) (l_local l)
  | _ => mkLayout (del_header f (l_gheaders l)) (l_headers l) (l_global l) (l_local l ++ [f])
  end.
Definition place_fields (s : ListForStorage) : layout :=
  foldl (place_field (ls_backups s)) (mkLayout all_gheaders all_headers [("storage", CStr (ls_storage_name s))] []) same_or_global.

Definition backup_row (local_fields : list string) (b : ListSingleBackup) : list (string * cell) :=
  [("name", CStr (lb_name b)); ("duration", CStr (timedelta_as_short_str (lb_end b - lb_start b)));
   ("files", CInt (lb_files b)); ("total_size", CStr (size_as_short_str (lb_total_size b)))] ++
  ((λ f, (f, getattr b f)) <$> local_fields).

Definition totals (backups : list ListSingleBackup) : list (string * cell) :=
  let tsize := foldl (λ x b, x + lb_total_size b) 0 backups in
  let usize := foldl (λ x b, x + lb_upload_size b) 0 backups in
  let ssize := foldl (λ x b, x + lb_upload_stored_size b) 0 backups in
  (if tsize =? 0 then [] else [("pchanged", CStr (percentage usize tsize +:+ "%"))]) ++
  (if usize =? 0 then [] else [("csaving", CStr (saving ssize usize +:+ "%"))]).

Definition print_storage (s : ListForStorage) : Table * Table :=
  let l := place_fields s in
  (mkTable [l_global l ++ totals (ls_backups s)] (l_gheaders l),
   mkTable (backup_row (l_local l) <$> ls_backups s) (l_headers l)).
Definition print_list_result (storages : list ListForStorage) : list (Table * Table) := print_storage <$> storages.

(** [_run_list]: what is printed when there is an answer. *)
Context {W : Type} (requests_request : string → Client.json → option string → Z → M W Response).
Context (convert : Client.json → res (list ListForStorage)).
Definition run_list (args : Args) (list_path : string) : M W (bool * list (Table * Table)) :=
  let storage_name := match storage args with Some EmptyString | None => "" | Some s => "?storage=" +:+ s end in
  r ← http_request requests_request "get" (JStr (url args +:+ "/" +:+ list_path +:+ storage_name)) None (10 * second) false;
  match r with
  | None => mret (false, [])
  | Some r => l ← lift_res (convert r); mret (true, print_list_result l)
  end.

(** ** Nothing is lost, and nothing is shown twice *)

(** A field of the backup in row [i]: in its row, or for all backups. *)
Definition shown (t : Table * Table) (i : nat) (f : string) : option cell :=
  match dict_get (headers t.2) f with
  | Some _ => r ← rows t.2 !! i; dict_get r f
  | None => match dict_get (headers t.1) f with Some _ => r ← rows t.1 !! 0%nat; dict_get r f | None => None end
  end.

(** Where a field goes: nowhere, to the line of totals, to the rows. *)
Inductive place : Type := Nowhere | Everywhere (v : cell) | PerRow.
Definition place_of (backups : list ListSingleBackup) (f : string) : place :=
  match remove_dups ((λ b, getattr b f) <$> backups) with [] => Nowhere | [v] => Everywhere v | _ => PerRow end.
Definition place_at (l : layout) (f : string) (p : place) : layout :=
  match p with
  | Nowhere => mkLayout (del_header f (l_gheaders l)) (del_header f (l_headers l)) (l_global l) (l_local l)
  | Everywhere v => mkLayout (l_gheaders l) (del_header f (l_headers l)) (l_global l ++ [(f, v)]) (l_local l)
  | PerRow => mkLayout (del_header f (l_gheaders l)) (l_headers l) (l_global l) (l_local l ++ [f])
  end.
Lemma place_field_at backups l f : place_field backups l f = place_at l f (place_of backups f).
Proof. unfold place_field, place_of. by destruct (remove_dups _) as [|v [|v' r]]. Qed.

Lemma place_of_spec backups f b : b ∈ backups → place_of backups f = Everywhere (getattr b f) ∨ place_of backups f = PerRow.
Proof.
  intros Hb. apply (list_elem_of_fmap_2 (λ b, getattr b f)) in Hb. apply elem_of_remove_dups in Hb. unfold place_of.
  destruct (remove_dups _) as [|v [|v' r]]; [by apply not_elem_of_nil in Hb| |by right].
  left. by apply list_elem_of_singleton in Hb as ->.
Qed.
Definition layout_of (name : string) (p1 p2 p3 : place) : layout :=
  place_at (place_at (place_at (mkLayout all_gheaders all_headers [("storage", CStr name)] []) "plugin" p1) "attempt" p2) "nodes" p3.
Lemma place_fields_of s : place_fields s = layout_of (ls_storage_name s) (place_of (ls_backups s) "plugin")
  (place_of (ls_backups s) "attempt") (place_of (ls_backups s) "nodes").
Proof. unfold place_fields, same_or_global. cbn [foldl]. by rewrite !place_field_at. Qed.

(** For every backup, the fields that can be common to all backups are shown
    once: in the line of totals when all backups agree, in the row otherwise.
    Rows have exactly the columns that have a title, and come in the order of
    the backups. *)
Theorem list_shows_everything (s : ListForStorage) :
  let t := print_storage s in
  length (rows t.2) = length (ls_backups s) ∧
  ∀ i b, ls_backups s !! i = Some b →
    (∀ f, f ∈ same_or_global → shown t i f = Some (getattr b f) ∧
       (is_Some (dict_get (headers t.1) f) ↔ ¬ is_Some (dict_get (headers t.2) f))) ∧
    ∃ r, rows t.2 !! i = Some r ∧ dict_get r "name" = Some (CStr (lb_name b)) ∧ r.*1 ≡ₚ (headers t.2).*1.
Proof.
  cbv zeta. unfold print_storage. rewrite place_fields_of. cbn [rows headers fst snd]. split; [by rewrite length_fmap|].
  intros i b Hi. assert (b ∈ ls_backups s) as Hb by by eapply list_elem_of_lookup_2.
  unfold shown. cbn [rows headers fst snd]. rewrite list_lookup_fmap, Hi.
  destruct (place_of_spec _ "plugin" b Hb) as [-> | ->], (place_of_spec _ "attempt" b Hb) as [-> | ->],
    (place_of_spec _ "nodes" b Hb) as [-> | ->].
  all: split; [intros f Hf; repeat (apply elem_of_cons in Hf as [->|Hf]); [..|by apply not_elem_of_nil in Hf];
      (split; [vm_compute; reflexivity|]); vm_compute; (split; [intros H1 H2|intros H1]);
      first [by destruct H1|by destruct H2|by eexists|by destruct H1; eexists]
    |eexists; split; [reflexivity|]; split; [reflexivity|]; refine (bool_decide_unpack _ _); vm_compute; exact I].
Qed.
End list.
Example durations : timedelta_as_short_str (86401 * second) = "1d 1s" ∧ timedelta_as_short_str (10921 * second) = "3h 2m 1s" ∧ timedelta_as_short_str 0 = "".
Proof. vm_compute. done. Qed.

(** The values of the unit tests. *)
Example sizes : size_as_short_str (λ a b, pretty a +:+ "/" +:+ pretty b) 1234567901 = "1234567901/1000000000 GB" ∧
  size_as_short_str (λ a b, pretty a +:+ "/" +:+ pretty b) 1 = "1 B".
Proof. vm_compute. done. Qed.
End ClientList.
