(* ===== verification/CassMeta.v ===== *)
(** * Reading the schema of Cassandra ([common/cassandra/schema.py], [client.py])

    What the driver knows of the schema becomes the schema of a backup: the
    constructors [from_cassandra_metadata], the order they bring objects into,
    and the hash.  The driver is a parameter, and so is [sorted], which promises
    nothing for a comparison that is not an order. *)

From stdpp Require Import base gmap strings list sorting.
From Stdlib Require Import ZArith Lia.
From S2P Require Import Prelude CassSchema.

Module CassMeta.
Import CassSchema.

(** ** The metadata of the driver

    The values of its dictionaries, in their order; [as_cql_query()] is a field. *)
Record Object_ : Type := mkObject { o_name : string; o_cql : string }.
Record UserTypeMetadata : Type := mkUserTypeMetadata { u_name : string; u_cql : string; u_field_types : list string }.
Record FunctionMetadata : Type := mkFunctionMetadata {
  f_keyspace : string;
  f_name : string;
  f_argument_names : list string;
  f_argument_types : list string;
  f_return_type : string;
  f_language : string;
  f_body : string;
  f_called_on_null_input : bool;
}.
Record AggregateMetadata : Type := mkAggregateMetadata {
  a_keyspace : string;
  a_name : string;
  a_argument_types : list string;
  a_state_func : string;
  a_state_type : string;
  a_final_func : option string;
  a_initial_condition : option string;
}.
Record FullTableMetadata : Type := mkFullTableMetadata {
  t_name : string;
  t_cql : string;
  t_indexes : list Object_;
  t_views : list Object_;
  t_triggers : list Object_;
}.
(** Replication factors are given as text. *)
Inductive ReplicationStrategy : Type :=
| NetworkTopologyStrategy (dc_replication_factors : list (string * string))
| OtherStrategy.
Record FullKeyspaceMetadata : Type := mkFullKeyspaceMetadata {
  k_name : string;
  k_cql : string;
  k_replication_strategy : ReplicationStrategy;
  k_durable_writes : option bool;
  k_aggregates : list AggregateMetadata;
  k_functions : list FunctionMetadata;
  k_tables : list FullTableMetadata;
  k_user_types : list UserTypeMetadata;
}.

Lemma ltb_spec a b : String.ltb a b = true ↔ a ≠ b ∧ str_leb a b = true.
Proof.
  unfold String.ltb, str_leb, String.leb. destruct (String.compare a b) eqn:E.
  - apply String.compare_eq_iff in E. naive_solver.
  - split; [|done]. intros _. split; [|done]. intros ->. pose proof (String.compare_antisym b b) as H. by rewrite E in H.
  - naive_solver.
Qed.

Section schema.
Context (protect_name : string → string) (sorted : ∀ A : Type, (A → A → bool) → list A → list A).
Arguments sorted {A}.

(** ** [from_cassandra_metadata] *)
Definition named_from (m : Object_) : Named := mkNamed (o_name m) (o_cql m).
Definition user_type_from (m : UserTypeMetadata) : UserType := mkUserType (mkNamed (u_name m) (u_cql m)) (u_field_types m).
Definition function_from (m : FunctionMetadata) : Function_ :=
  mkFunction
    (mkNamed (f_name m) (function_create_statement protect_name (f_keyspace m) (f_name m) (zip (f_argument_names m) (f_argument_types m))
                           (f_return_type m) (f_language m) (f_body m) (f_called_on_null_input m)))
    (f_argument_types m).
Definition aggregate_from (m : AggregateMetadata) : Function_ :=
  mkFunction
    (mkNamed (a_name m) (aggregate_create_statement protect_name (a_keyspace m) (a_name m) (a_argument_types m) (a_state_func m)
                           (a_state_type m) (a_final_func m) (a_initial_condition m)))
    (a_argument_types m).

(** The inherited [__lt__] *)
Definition user_type_lt (a b : UserType) : bool := CassandraNamed_lt (ut_named a) (ut_named b).
Definition table_lt (a b : Table) : bool := CassandraNamed_lt (tb_named a) (tb_named b).
Definition keyspace_lt (a b : Keyspace) : bool := CassandraNamed_lt (ks_named a) (ks_named b).

Definition table_from (m : FullTableMetadata) : Table :=
  mkTable (mkNamed (t_name m) (t_cql m))
    (sorted CassandraNamed_lt (named_from <$> t_indexes m))
    (sorted CassandraNamed_lt (named_from <$> t_views m))
    (sorted CassandraNamed_lt (named_from <$> t_triggers m)).
Definition extract_dcs (m : FullKeyspaceMetadata) : list (string * string) :=
  match k_replication_strategy m with NetworkTopologyStrategy factors => factors | OtherStrategy => [] end.
Definition keyspace_from (m : FullKeyspaceMetadata) : Keyspace :=
  mkKeyspace (mkNamed (k_name m) (k_cql m)) (extract_dcs m) (default true (k_durable_writes m))
    (sorted CassandraFunction_lt (aggregate_from <$> k_aggregates m))
    (sorted CassandraFunction_lt (function_from <$> k_functions m))
    (sorted table_lt (table_from <$> k_tables m))
    (sorted user_type_lt (user_type_from <$> k_user_types m)).

Definition schema_from (keyspaces : list FullKeyspaceMetadata) : list Keyspace := sorted keyspace_lt (keyspace_from <$> keyspaces).

(** [CassandraSchema.from_cassandra_session] *)
Context {S : Type} (refresh_schema_metadata : M S unit) (cluster_keyspaces : S → list FullKeyspaceMetadata).
Definition from_cassandra_session : M S (list Keyspace) :=
  refresh_schema_metadata ;;
  s ← get;
  match cluster_keyspaces s with [] => raise ValueError | keyspaces => mret (schema_from keyspaces) end.

(** [calculate_hash] *)
Context (json : list Keyspace → string) (sha256 : string → string).
Definition calculate_hash (schema : list Keyspace) : string := sha256 (json schema).

(** ** The same schema, in whatever order the driver lists it *)
Definition strict_order {A} (lt : A → A → bool) (l : list A) : Prop :=
  NoDup l ∧ (∀ x y, x ∈ l → y ∈ l → x = y ∨ lt x y = true ∨ lt y x = true) ∧
  (∀ x y, x ∈ l → y ∈ l → lt x y = true → lt y x = false) ∧
  (∀ x y z, x ∈ l → y ∈ l → z ∈ l → lt x y = true → lt y z = true → lt x z = true).

(** What is documented of [sorted]. *)
Class SortedSpec : Prop := {
  sorted_Permutation {A} (lt : A → A → bool) l : sorted lt l ≡ₚ l;
  sorted_ordered {A} (lt : A → A → bool) l : strict_order lt l → StronglySorted (λ x y, lt x y = true) (sorted lt l);
}.
Context {SortedSpec0 : SortedSpec}.

Lemma strict_order_Permutation {A} (lt : A → A → bool) l l' : l ≡ₚ l' → strict_order lt l → strict_order lt l'.
Proof. intros Hp (H1 & H2 & H3 & H4). split; [by rewrite <- Hp|]. setoid_rewrite <- Hp. done. Qed.

Lemma sorted_unique {A} (lt : A → A → bool) l l' : strict_order lt l → l ≡ₚ l' → sorted lt l = sorted lt l'.
Proof using SortedSpec0.
  intros Ho Hp. apply (StronglySorted_unique_strong (λ x y, lt x y = true)).
  - intros x y Hx Hy Hxy Hyx. rewrite sorted_Permutation in Hx. rewrite sorted_Permutation, <- Hp in Hy.
    destruct Ho as (_ & _ & H & _). rewrite (H x y) in Hyx by done. done.
  - by apply sorted_ordered.
  - apply sorted_ordered. by eapply strict_order_Permutation.
  - by rewrite !sorted_Permutation.
Qed.

(** Objects with distinct names are ordered by them. *)
Lemma named_order {A} (nm : A → string) (lt : A → A → bool) l :
  (∀ x y, lt x y = String.ltb (nm x) (nm y)) → NoDup (nm <$> l) → strict_order lt l.
Proof.
  intros Hlt Hnd. split; [by eapply NoDup_fmap_1|]. split; [|split].
  - intros x y Hx Hy. rewrite !Hlt. destruct (decide (nm x = nm y)) as [E|Hne].
    + left. apply list_elem_of_lookup in Hx as [i Hi], Hy as [j Hj].
      assert (i = j) as ->; [|congruence]. eapply NoDup_lookup; [exact Hnd|by rewrite list_lookup_fmap, Hi|by rewrite list_lookup_fmap, Hj, E].
    + right. rewrite !ltb_spec. destruct (str_leb_total (nm x) (nm y)) as [?|?]; [by left|right]. split; [by apply not_eq_sym|done].
  - intros x y _ _. rewrite !Hlt. intros [Hne H]%ltb_spec. apply not_true_is_false. intros [_ H']%ltb_spec. apply Hne. by apply str_leb_antisym.
  - intros x y z _ _ _. rewrite !Hlt, !ltb_spec. intros [H1 H2] [H3 H4]. split; [|by eapply str_leb_trans].
    intros E. apply H1, str_leb_antisym; [done|]. by rewrite E.
Qed.

(** The same objects, listed in another order. *)
Definition same_list {A} (R : A → A → Prop) (l l' : list A) : Prop := ∃ l0, l ≡ₚ l0 ∧ Forall2 R l0 l'.
Definition same_table (m m' : FullTableMetadata) : Prop :=
  t_name m = t_name m' ∧ t_cql m = t_cql m' ∧ t_indexes m ≡ₚ t_indexes m' ∧ t_views m ≡ₚ t_views m' ∧ t_triggers m ≡ₚ t_triggers m'.
Definition same_keyspace (m m' : FullKeyspaceMetadata) : Prop :=
  k_name m = k_name m' ∧ k_cql m = k_cql m' ∧ k_replication_strategy m = k_replication_strategy m' ∧
  k_durable_writes m = k_durable_writes m' ∧ k_aggregates m ≡ₚ k_aggregates m' ∧ k_functions m ≡ₚ k_functions m' ∧
  same_list same_table (k_tables m) (k_tables m') ∧ k_user_types m ≡ₚ k_user_types m'.

(** Names are distinct; the comparison of functions and aggregates, by name or
    by arguments, is an order on those of the keyspace. *)
Definition table_ok (m : FullTableMetadata) : Prop :=
  NoDup (o_name <$> t_indexes m) ∧ NoDup (o_name <$> t_views m) ∧ NoDup (o_name <$> t_triggers m).
Definition keyspace_ok (m : FullKeyspaceMetadata) : Prop :=
  strict_order CassandraFunction_lt (aggregate_from <$> k_aggregates m) ∧
  strict_order CassandraFunction_lt (function_from <$> k_functions m) ∧
  NoDup (t_name <$> k_tables m) ∧ Forall table_ok (k_tables m) ∧ NoDup (u_name <$> k_user_types m).

Lemma CassandraNamed_lt_ltb a b : CassandraNamed_lt a b = String.ltb (name a) (name b).
Proof. unfold CassandraNamed_lt. by destruct (String.ltb _ _). Qed.

Lemma sorted_objects l l' : NoDup (o_name <$> l) → l ≡ₚ l' →
  sorted CassandraNamed_lt (named_from <$> l) = sorted CassandraNamed_lt (named_from <$> l').
Proof using SortedSpec0.
  intros Hnd Hp. apply sorted_unique; [|by rewrite Hp]. apply (named_order name); [apply CassandraNamed_lt_ltb|].
  by rewrite <- list_fmap_compose.
Qed.

Lemma table_from_same m m' : table_ok m → same_table m m' → table_from m = table_from m'.
Proof using SortedSpec0.
  intros (H1 & H2 & H3) (Hn & Hc & Hi & Hv & Ht). unfold table_from.
  by rewrite Hn, Hc, (sorted_objects _ _ H1 Hi), (sorted_objects _ _ H2 Hv), (sorted_objects _ _ H3 Ht).
Qed.

Lemma same_list_fmap {A B} (R : A → A → Prop) (f : A → B) l l' : Forall (λ x, ∀ y, R x y → f x = f y) l → same_list R l l' → f <$> l ≡ₚ f <$> l'.
Proof.
  intros Hf (l0 & Hp & HR). rewrite Hp in Hf |- *. enough (f <$> l0 = f <$> l') as -> by done. clear Hp.
  induction HR as [|x y l0 l' Hxy HR IH]; [done|]. apply Forall_cons in Hf as [Hx Hf]. cbn. f_equal; [by apply Hx|by apply IH].
Qed.

Lemma keyspace_from_same m m' : keyspace_ok m → same_keyspace m m' → keyspace_from m = keyspace_from m'.
Proof using SortedSpec0.
  intros (Ha & Hf & Ht & Hok & Hu) (Hn & Hc & Hr & Hd & Ha' & Hf' & Ht' & Hu'). unfold keyspace_from, extract_dcs. rewrite Hn, Hc, Hr, Hd.
  rewrite (sorted_unique _ _ (aggregate_from <$> k_aggregates m') Ha) by by rewrite Ha'.
  rewrite (sorted_unique _ _ (function_from <$> k_functions m') Hf) by by rewrite Hf'.
  rewrite (sorted_unique user_type_lt _ (user_type_from <$> k_user_types m')); [|apply (named_order ut_name)|by rewrite Hu'].
  2: { intros x y. apply CassandraNamed_lt_ltb. }
  2: { by rewrite <- list_fmap_compose. }
  rewrite (sorted_unique table_lt _ (table_from <$> k_tables m')); [done|apply (named_order tb_name)|].
  - intros x y. apply CassandraNamed_lt_ltb.
  - by rewrite <- list_fmap_compose.
  - apply (same_list_fmap same_table); [|done]. eapply Forall_impl; [exact Hok|]. intros x Hx y. by apply table_from_same.
Qed.

(** The schema of a backup, and with it its hash, is the same in whatever order
    the driver lists keyspaces, tables and the objects of each, as long as the
    names are distinct and the comparison orders functions. *)
Theorem schema_order_independent (l l' : list FullKeyspaceMetadata) :
  NoDup (k_name <$> l) → Forall keyspace_ok l → same_list same_keyspace l l' →
  schema_from l = schema_from l' ∧ calculate_hash (schema_from l) = calculate_hash (schema_from l').
Proof using SortedSpec0.
  intros Hnd Hok Hs. assert (schema_from l = schema_from l') as ->; [|done].
  unfold schema_from. apply sorted_unique.
  - apply (named_order ks_name); [intros x y; apply CassandraNamed_lt_ltb|]. by rewrite <- list_fmap_compose.
  - apply (same_list_fmap same_keyspace); [|done]. eapply Forall_impl; [exact Hok|]. intros x Hx y. by apply keyspace_from_same.
Qed.
End schema.

(** ** Two keyspaces, listed in two orders *)
Module Examples.
Definition example_sorted (A : Type) (lt : A → A → bool) (l : list A) : list A := py_sorted (λ x y, negb (lt y x)) l.
Lemma strict_order_subset {A} (lt : A → A → bool) l l' : NoDup l' → (∀ x, x ∈ l' → x ∈ l) → strict_order lt l → strict_order lt l'.
Proof.
  intros Hnd Hin (_ & H2 & H3 & H4). split; [done|]. split; [|split].
  - intros x y Hx Hy. by apply H2; apply Hin.
  - intros x y Hx Hy. by apply H3; apply Hin.
  - intros x y z Hx Hy Hz. by apply H4; apply Hin.
Qed.
Lemma insert_ordered {A} (lt : A → A → bool) x l : strict_order lt (x :: l) → StronglySorted (λ x y, lt x y = true) l →
  StronglySorted (λ x y, lt x y = true) (py_insert (λ x y, negb (lt y x)) x l).
Proof.
  intros Ho HS. induction HS as [|y l HS IH Hall]; cbn [py_insert]; [repeat constructor|].
  assert (strict_order lt (x :: l)) as Hsub.
  { eapply strict_order_subset; [| |exact Ho].
    - destruct Ho as [Hnd _]. apply NoDup_cons in Hnd as [Hx Hnd]. apply NoDup_cons in Hnd as [_ Hnd].
      apply NoDup_cons. split; [|done]. intros Hin. apply Hx. by right.
    - intros z. rewrite !elem_of_cons. tauto. }
  destruct Ho as (Hnd & Htot & Hasym & Htrans). destruct (lt y x) eqn:E; cbn [negb].
  - constructor; [by apply IH|]. rewrite py_insert_Permutation. by constructor.
  - assert (lt x y = true) as Hxy.
    { destruct (Htot x y) as [->|[?|?]]; [by left|by right; left| |done|congruence].
      apply NoDup_cons in Hnd as [Hx _]. destruct Hx. by left. }
    constructor; [by constructor|]. constructor; [done|]. rewrite Forall_forall in Hall. apply Forall_forall. intros z Hz.
    apply (Htrans x y z); [by left|by right; left|by right; right|done|by apply Hall].
Qed.
#[global] Instance example_sorted_spec : SortedSpec example_sorted.
Proof.
  split; [intros A lt l; apply py_sorted_Permutation|]. intros A lt l. unfold example_sorted.
  induction l as [|x l IH]; intros Ho; cbn [py_sorted foldr]; [constructor|].
  apply insert_ordered.
  - eapply strict_order_Permutation; [|exact Ho]. constructor. symmetry. apply (py_sorted_Permutation _ l).
  - apply IH. eapply strict_order_subset; [| |exact Ho]; [destruct Ho as [Hnd _]; by apply NoDup_cons in Hnd as [_ ?]|].
    intros z Hz. by right.
Qed.

Definition object (n : string) : Object_ := mkObject n ("CREATE INDEX " +:+ n).
Definition table (l : list Object_) : FullTableMetadata := mkFullTableMetadata "t" "CREATE TABLE t" l [] [].
Definition keyspace (n : string) (ts : list FullTableMetadata) : FullKeyspaceMetadata :=
  mkFullKeyspaceMetadata n ("CREATE KEYSPACE " +:+ n) (NetworkTopologyStrategy [("dc", "3")]) None [] [] ts [].
Definition listed : list FullKeyspaceMetadata := [keyspace "b" [table [object "j"; object "i"]]; keyspace "a" []].
Definition relisted : list FullKeyspaceMetadata := [keyspace "a" []; keyspace "b" [table [object "i"; object "j"]]].

Lemma schema_order_independent_witness :
  schema_from id example_sorted listed = schema_from id example_sorted relisted ∧
  ks_name <$> schema_from id example_sorted listed = ["a"; "b"].
Proof.
  split; [|vm_compute; reflexivity].
  refine (proj1 (schema_order_independent id example_sorted (λ _, "") id listed relisted _ _ _)).
  - refine (bool_decide_unpack _ _). vm_compute. exact I.
  - assert (strict_order CassandraFunction_lt []) as Hnil.
    { split; [constructor|]. split; [|split]; intros x; intros; by edestruct (not_elem_of_nil x). }
    assert (∀ n ts, NoDup (t_name <$> ts) → Forall table_ok ts → keyspace_ok id (keyspace n ts)) as Hok.
    { intros n ts H1 H2. split; [exact Hnil|]. split; [exact Hnil|]. split; [exact H1|]. split; [exact H2|constructor]. }
    constructor; [apply Hok|constructor; [apply Hok; constructor|constructor]].
    + refine (bool_decide_unpack _ _). vm_compute. exact I.
    + constructor; [|constructor]. split; [refine (bool_decide_unpack _ _); vm_compute; exact I|]. split; constructor.
  - exists [keyspace "a" []; keyspace "b" [table [object "j"; object "i"]]]. split; [apply Permutation_swap|].
    constructor; [|constructor; [|constructor]]; repeat (split; [done|]); (split; [|done]).
    + by exists [].
    + eexists. split; [reflexivity|]. constructor; [|constructor]. repeat (split; [done|]). split; [apply Permutation_swap|done].
Defined.
End Examples.
End CassMeta.
