(* ===== verification/Config.v ===== *)
(** * The configuration ([config.py], [coordinator/config.py], [node/config.py],
    the configuration endpoints of [coordinator/api.py])

    Loading and reloading the configuration file of a running process.  The
    parser of YAML with the validation of pydantic, and the digest, are
    parameters. *)

From stdpp Require Import base gmap strings list.
From Stdlib Require Import ZArith Lia.
From S2P Require Import Prelude Ipc PyText Cluster NodeApi.
From S2P Require Import Rohmu.

Module Config.
Import Utf8.

(** ** The classes *)
Inductive MessageFormat : Type := datadog | telegraf.
(** A tag is a number, a text or [None]. *)
Record StatsdConfig : Type := mkStatsdConfig {
  sc_host : string;
  sc_port : Z;
  message_format : MessageFormat;
  tags : list (string * option (Z + string));
}.
Definition default_statsd : StatsdConfig := mkStatsdConfig "127.0.0.1" 8125 telegraf [].

Inductive HTTPMode : Type := auto | h11 | httptools.
Record UvicornConfig : Type := mkUvicornConfig {
  uv_host : string;
  http : HTTPMode;
  uv_port : Z;
  log_level : option string;
  reload : bool;
}.
Record NodeParallel : Type := mkNodeParallel { downloads : Z; hashes : Z; uploads : Z }.
Record CassandraClientConfiguration : Type := mkCassandraClientConfiguration {
  config_path : option string;
  hostnames : option (list string);
  port : option Z;
  cc_username : string;
  cc_password : string;
  ca_cert_path : option string;
}.
Record CassandraNodeConfig : Type := mkCassandraNodeConfig {
  client : CassandraClientConfiguration;
  nodetool_command : list string;
  start_command : list string;
  stop_command : list string;
  access_level : NodeApi.CassandraAccessLevel;
}.

Section config.
Context {StorageConfig : Type}.
Notation ObjectStorage := (option (Rohmu.RohmuConfig (StorageConfig:=StorageConfig))).

Record CoordinatorConfig : Type := mkCoordinatorConfig {
  c_retention : Retention;
  poll : Cluster.PollConfig;
  plugin : Plugin;
  plugin_config : string;
  c_nodes : list CoordinatorNode;
  default_lock_ttl : Z;
  backup_attempts : Z;
  restore_attempts : Z;
  object_storage_cache : option string;
  c_object_storage : ObjectStorage;
  c_statsd : option StatsdConfig;
  list_ttl : Z;
}.
Record NodeConfig : Type := mkNodeConfig {
  root : string;
  az : string;
  root_link : option string;
  delta_root_link : option string;
  db_path : string;
  n_object_storage : ObjectStorage;
  n_statsd : option StatsdConfig;
  parallel : NodeParallel;
  copy_root_owner : bool;
  cassandra : option CassandraNodeConfig;
}.
Record GlobalConfig : Type := mkGlobalConfig {
  coordinator : CoordinatorConfig;
  node : NodeConfig;
  sentry_dsn : string;
  uvicorn : UvicornConfig;
  object_storage : ObjectStorage;
  statsd : option StatsdConfig;
}.

(** ** Loading

    The state of the application: its configuration, that of the coordinator
    and of the node being the parts of it, the same objects, and the hash.
    The environment variable names the file. *)
Record App : Type := mkApp {
  files : gmap string string;
  ASTACUS_CONFIG : option string;
  global_config : option GlobalConfig;
  global_config_hash : option string;
}.
(** [GlobalConfig.parse_obj(yaml.safe_load(...))] *)
Context (parse : string → res GlobalConfig) (sha256 : string → string).

(** A text is its encoding; what is not valid cannot be decoded. *)
Definition get_config_content_and_hash (path : string) : M App (string * string) :=
  a ← get;
  match files a !! path with
  | None => raise FileNotFoundError
  | Some config_content =>
      let config_hash := sha256 config_content in
      if valid_utf8 config_content then mret (config_content, config_hash) else raise UnicodeDecodeError
  end.

(** [if getattr(subconfig, key) is not None: continue] *)
Definition propagate {A} (sub global : option A) : option A := match sub with Some _ => sub | None => global end.
Definition with_propagated (g : GlobalConfig) : GlobalConfig :=
  let c := coordinator g in let n := node g in
  mkGlobalConfig
    (mkCoordinatorConfig (c_retention c) (poll c) (plugin c) (plugin_config c) (c_nodes c) (default_lock_ttl c) (backup_attempts c)
       (restore_attempts c) (object_storage_cache c) (propagate (c_object_storage c) (object_storage g)) (propagate (c_statsd c) (statsd g))
       (list_ttl c))
    (mkNodeConfig (root n) (az n) (root_link n) (delta_root_link n) (db_path n) (propagate (n_object_storage n) (object_storage g))
       (propagate (n_statsd n) (statsd g)) (parallel n) (copy_root_owner n) (cassandra n))
    (sentry_dsn g) (uvicorn g) (object_storage g) (statsd g).

Definition set_global_config_from_path (path : string) : M App GlobalConfig :=
  '(config_content, config_hash) ← get_config_content_and_hash path;
  config ← lift_res (parse config_content);
  modify (λ a, mkApp (files a) (ASTACUS_CONFIG a) (Some (with_propagated config)) (global_config_hash a)) ;;
  modify (λ a, mkApp (files a) (ASTACUS_CONFIG a) (global_config a) (Some config_hash)) ;;
  mret (with_propagated config).

(** [getattr(request.app.state, ...)] *)
Definition loaded {A} (o : option A) : M App A := match o with Some x => mret x | None => raise AttributeError end.
Definition coordinator_config : M App CoordinatorConfig := a ← get; g ← loaded (global_config a); mret (coordinator g).
Definition node_config : M App NodeConfig := a ← get; g ← loaded (global_config a); mret (node g).

(** *** The endpoints *)
Definition the_path : M App string := a ← get; match ASTACUS_CONFIG a with Some p => mret p | None => raise AssertionError end.
Definition config_reload : M App unit := config_path ← the_path; set_global_config_from_path config_path ;; mret tt.
Record ConfigStatus : Type := mkConfigStatus { config_hash : string; needs_reload : bool }.
Definition config_status : M App ConfigStatus :=
  config_path ← the_path;
  '(_, config_hash) ← get_config_content_and_hash config_path;
  a ← get;
  loaded_config_hash ← loaded (global_config_hash a);
  mret (mkConfigStatus loaded_config_hash (negb (bool_decide (config_hash = loaded_config_hash)))).

(** ** [CassandraClientConfiguration] *)
Context (yaml : string → res (gmap string string)) (int : string → res Z).
Definition get_config (self : CassandraClientConfiguration) : M App (gmap string string) :=
  match config_path self with
  | None => raise AssertionError
  | Some p => a ← get; match files a !! p with None => raise FileNotFoundError | Some text => lift_res (yaml text) end
  end.
Definition config_item (self : CassandraClientConfiguration) (key : string) : M App string :=
  c ← get_config self; match c !! key with Some v => mret v | None => raise KeyError end.
Definition get_port (self : CassandraClientConfiguration) : M App Z :=
  match port self with
  | Some p => if (p =? 0)%Z then v ← config_item self "native_transport_port"; lift_res (int v) else mret p
  | None => v ← config_item self "native_transport_port"; lift_res (int v)
  end.
Definition get_hostnames (self : CassandraClientConfiguration) : list string :=
  match hostnames self with Some (h :: l) => h :: l | _ => ["127.0.0.1"] end.
Definition get_listen_address (self : CassandraClientConfiguration) : M App string := config_item self "listen_address".

(** ** Reloading is all or nothing *)
Definition own_or_global {A} (sub global result : option A) : Prop :=
  (∀ x, sub = Some x → result = Some x) ∧ (sub = None → result = global).

(** A reload that fails - the file is gone, does not decode or does not parse -
    leaves the configuration and its hash as they were.  One that succeeds puts
    the contents of the file in effect: coordinator and node have their own
    object storage and statistics, or else the global ones; and the process
    then says that it needs a reload exactly when the file has other contents
    than those it loaded. *)
Theorem config_reload_all_or_nothing (a : App) (sha256_inj : ∀ x y, sha256 x = sha256 y → x = y) :
  match config_reload a with
  | (a', Raise _) => a' = a
  | (a', Ok _) => ∃ path content g g',
      ASTACUS_CONFIG a = Some path ∧ files a !! path = Some content ∧ parse content = Ok g ∧
      global_config a' = Some g' ∧ files a' = files a ∧
      own_or_global (c_object_storage (coordinator g)) (object_storage g) (c_object_storage (coordinator g')) ∧
      own_or_global (n_object_storage (node g)) (object_storage g) (n_object_storage (node g')) ∧
      own_or_global (c_statsd (coordinator g)) (statsd g) (c_statsd (coordinator g')) ∧
      own_or_global (n_statsd (node g)) (statsd g) (n_statsd (node g')) ∧
      ∀ content', valid_utf8 content' = true →
        let a'' := mkApp (<[path := content']> (files a')) (ASTACUS_CONFIG a') (global_config a') (global_config_hash a') in
        ∃ s, config_status a'' = (a'', Ok s) ∧ (needs_reload s = true ↔ content' ≠ content)
  end.
Proof.
  unfold config_reload, set_global_config_from_path, get_config_content_and_hash, the_path, lift_res, mbind, M_bind. cbn.
  destruct (ASTACUS_CONFIG a) as [path|] eqn:Ep; [|done]. cbn. destruct (files a !! path) as [content|] eqn:Ef; [|done]. cbn.
  destruct (valid_utf8 content) eqn:Eu; [|done]. cbn. destruct (parse content) as [g|e] eqn:Eg; [|done]. cbn.
  eexists path, content, g, _. split; [done|]. split; [done|]. split; [done|]. split; [done|]. split; [done|].
  do 4 (split; [by split; [intros x Hx; cbn; rewrite Hx|intros Hx; cbn; rewrite Hx]|]).
  intros content' Hu. unfold config_status, the_path, get_config_content_and_hash, mbind, M_bind. cbn. rewrite Ep. cbn.
  rewrite lookup_insert_eq. cbn. rewrite Hu. cbn. eexists. split; [done|]. cbn. rewrite negb_true_iff, bool_decide_eq_false.
  split; intros H E; apply H; [by rewrite E|by apply sha256_inj].
Qed.
End config.
End Config.
