(* ===== verification/MultiStorage.v ===== *)
(** * Storages by name, by thread, and by path ([common/storage.py])

    What is built around a storage: downloads to a path of the file system, a
    storage per name, and a copy per thread. *)

From stdpp Require Import base gmap strings list sorting.
From Stdlib Require Import ZArith Lia.
From S2P Require Import Prelude Storage.

Module MultiStorage.

(** ** Downloads to memory and to files: [HexDigestStorage] *)
Section paths.
Context {S B : Type} (ops : StorageOps S B) (empty : B).

(** A storage and the files of the node. *)
Definition W : Type := S * gmap string B.
Definition on_storage {A} (m : M S A) : M W A := zoom fst (λ s w, (s, w.2)) m.
Definition on_files (f : gmap string B → gmap string B) : M W unit := modify (λ w, (w.1, f w.2)).

Definition download_hexdigest_bytes (hexdigest : string) : M S B := st_open ops hexdigest.
(** The contents are written to a temporary file, which is then renamed. *)
Definition download_hexdigest_to_path (hexdigest filename : string) : M W unit :=
  let tempfilename := filename +:+ ".tmp" in
  on_files (<[tempfilename := empty]>) ;;
  contents ← on_storage (st_open ops hexdigest);
  on_files (<[tempfilename := contents]>) ;;
  on_files (λ fs, delete tempfilename (match fs !! tempfilename with Some c => <[filename := c]> fs | None => fs end)).
Definition upload_hexdigest_bytes (hexdigest : string) (data : B) : M S bool := st_upload ops hexdigest data.

Context `{!StorageSpec ops}.

(** A download to a path puts the contents of the object there and leaves no
    temporary file, or raises and leaves the file as it was; no other file is
    touched. *)
Theorem download_to_path_atomic (hexdigest filename : string) (w : W) :
  st_inv (ops:=ops) w.1 → st_name (ops:=ops) hexdigest →
  let tmp := filename +:+ ".tmp" in
  let '(w', r) := download_hexdigest_to_path hexdigest filename w in
  match st_lookup (ops:=ops) w.1 hexdigest with
  | Some b => r = Ok tt ∧ w'.2 = delete tmp (<[filename := b]> w.2)
  | None => r = Raise NotFoundException ∧ w'.2 = <[tmp := empty]> w.2
  end.
Proof.
  intros Hinv Hname. unfold download_hexdigest_to_path, on_files, on_storage, zoom, modify, mbind, M_bind. cbn.
  pose proof (st_open_spec w.1 hexdigest Hinv Hname) as Ho. destruct (st_lookup w.1 hexdigest) as [b|].
  - destruct Ho as (s' & -> & _). cbn. split; [done|]. rewrite lookup_insert_eq, insert_insert_eq.
    set (tmp := filename +:+ ".tmp"). assert (filename ≠ tmp) as Hne.
    { unfold tmp. clear. induction filename as [|c f IH]; [done|]. intros [= E]. by apply IH. }
    apply map_eq. intros x. destruct (decide (x = tmp)) as [->|Hx]; [by rewrite !lookup_delete_eq|].
    rewrite !lookup_delete_ne by done. destruct (decide (x = filename)) as [->|Hf]; [by rewrite !lookup_insert_eq|].
    by rewrite !lookup_insert_ne by done.
  - by destruct Ho as (s' & -> & _).
Qed.
End paths.

(** ** A storage per name: [MultiFileStorage]

    The names that were asked for; each has a directory below the path. *)
Record MultiFileStorage : Type := mkMultiFileStorage { path : string; known : gset string }.
Definition get_storage (name : string) : M MultiFileStorage string :=
  modify (λ m, mkMultiFileStorage (path m) ({[ name ]} ∪ known m)) ;; m ← get; mret (path m +:+ "/" +:+ name).
Definition list_storages (m : MultiFileStorage) : list string := py_sorted str_leb (elements (known m)).
Definition get_default_storage_name (m : MultiFileStorage) : res string :=
  match last (list_storages m) with Some name => Ok name | None => Raise IndexError end.
Definition get_default_storage : M MultiFileStorage string :=
  m ← get; name ← lift_res (get_default_storage_name m); get_storage name.

(** The default is the greatest name; asking for it changes nothing. *)
Lemma default_storage_greatest (m : MultiFileStorage) :
  match get_default_storage m with
  | (m', Ok p) => ∃ name, p = path m +:+ "/" +:+ name ∧ m' = m ∧ name ∈ known m ∧ ∀ n, n ∈ known m → str_leb n name = true
  | (m', Raise e) => m' = m ∧ e = IndexError ∧ known m = ∅
  end.
Proof.
  unfold get_default_storage, get_default_storage_name, get_storage, lift_res, mbind, M_bind. cbn.
  assert (∀ n, n ∈ list_storages m ↔ n ∈ known m) as Hin by (intros n; unfold list_storages; by rewrite elem_of_py_sorted, elem_of_elements).
  pose proof (py_sorted_StronglySorted str_leb str_leb_total str_leb_trans (elements (known m))) as HS. fold (list_storages m) in HS.
  destruct (list_storages m) as [|x l _] using rev_ind; cbn.
  - split; [done|]. split; [done|]. apply set_eq. intros n. rewrite <- Hin. set_solver.
  - rewrite last_snoc. exists x. destruct m as [p k]. cbn in *. assert (x ∈ k) as Hx by (apply Hin, elem_of_app; right; by left).
    split; [done|]. split; [f_equal; set_solver|]. split; [done|]. intros n [Hn| ->%list_elem_of_singleton]%Hin%elem_of_app; [|apply str_leb_refl].
    apply StronglySorted_app_1_elem_of with (x1 := n) (x2 := x) in HS; [done|done|by left].
Qed.

(** ** A copy per thread: [ThreadLocalStorage]

    Storages are objects, numbered as they are made; a thread has at most one. *)
Record ThreadLocalStorage : Type := mkThreadLocalStorage {
  storage : nat;
  locals : gmap nat nat;
  next_object : nat;
}.
(** [self.storage.copy()] *)
Definition copy_storage : M ThreadLocalStorage nat :=
  t ← get; put (mkThreadLocalStorage (storage t) (locals t) (next_object t + 1)) ;; mret (next_object t).
(** The property, in a thread. *)
Definition local_storage (thread : nat) : M ThreadLocalStorage nat :=
  t ← get;
  match locals t !! thread with
  | Some s => mret s
  | None =>
      s ← copy_storage;
      modify (λ t, mkThreadLocalStorage (storage t) (<[thread := s]> (locals t)) (next_object t)) ;;
      mret s
  end.
Fixpoint local_storages (threads : list nat) : M ThreadLocalStorage (list nat) :=
  match threads with
  | [] => mret []
  | t :: rest => s ← local_storage t; l ← local_storages rest; mret (s :: l)
  end.

(** The objects are below the next one, and of different threads. *)
Definition locals_ok (t : ThreadLocalStorage) : Prop :=
  storage t < next_object t ∧
  (∀ i s, locals t !! i = Some s → s ≠ storage t ∧ s < next_object t) ∧
  (∀ i j s, locals t !! i = Some s → locals t !! j = Some s → i = j).

Lemma local_storage_run i t : locals_ok t → ∃ t' s, local_storage i t = (t', Ok s) ∧ locals_ok t' ∧
  locals t' !! i = Some s ∧ storage t' = storage t ∧ ∀ j s', locals t !! j = Some s' → locals t' !! j = Some s'.
Proof.
  intros (H0 & H1 & H2). unfold local_storage, copy_storage, mbind, M_bind. cbn. destruct (locals t !! i) as [s|] eqn:E.
  { exists t, s. by split_and!. }
  eexists _, _. split; [done|]. cbn. split; [|split; [by rewrite lookup_insert_eq|split; [done|]]].
  - split; [cbn; lia|]. split; cbn.
    + intros j s Hj. rewrite lookup_insert_Some in Hj. destruct Hj as [[_ <-]|[_ Hj]]; [lia|]. destruct (H1 j s Hj). split; [done|lia].
    + intros j k s Hj Hk. rewrite lookup_insert_Some in Hj. rewrite lookup_insert_Some in Hk.
      destruct Hj as [[<- <-]|[_ Hj]], Hk as [[<- Hs]|[_ Hk]]; [done|destruct (H1 k _ Hk); lia| |by eapply H2].
      subst s. destruct (H1 j _ Hj). lia.
  - intros j s Hj. rewrite lookup_insert_ne; [done|]. intros ->. congruence.
Qed.

(** Whatever threads ask, in whatever order: a thread always gets the same
    storage, no two threads get the same one, and none the original. *)
Theorem thread_local_isolated (threads : list nat) (t : ThreadLocalStorage) : locals_ok t →
  ∃ t' l, local_storages threads t = (t', Ok l) ∧ length l = length threads ∧ locals_ok t' ∧
    (∀ i s, l !! i = Some s → s ≠ storage t) ∧
    ∀ i j a b x y, threads !! i = Some a → threads !! j = Some b → l !! i = Some x → l !! j = Some y → (x = y ↔ a = b).
Proof.
  intros Hok. assert (∃ t' l, local_storages threads t = (t', Ok l) ∧ locals_ok t' ∧ storage t' = storage t ∧
    (∀ j s', locals t !! j = Some s' → locals t' !! j = Some s') ∧
    Forall2 (λ i s, locals t' !! i = Some s) threads l) as (t' & l & Hrun & Hok' & Hst & _ & HF).
  { revert t Hok. induction threads as [|i threads IH]; intros t Hok; cbn [local_storages]; [exists t, []; by split_and!|].
    destruct (local_storage_run i t Hok) as (t1 & s & Hr & Hok1 & Hs & Hst & Hkeep).
    destruct (IH t1 Hok1) as (t2 & l & Hr2 & Hok2 & Hst2 & Hkeep2 & HF). exists t2, (s :: l).
    rewrite (bind_ok _ _ _ _ _ Hr), (bind_ok _ _ _ _ _ Hr2). split; [done|]. split; [done|]. split; [congruence|].
    split; [by auto|]. constructor; [by auto|done]. }
  exists t', l. split; [done|]. split; [symmetry; by eapply Forall2_length|]. split; [done|]. destruct Hok' as (_ & H1 & H2). split.
  - intros i s Hi. destruct (Forall2_lookup_r _ _ _ _ _ HF Hi) as (a & _ & Ha). rewrite <- Hst. by eapply H1.
  - intros i j a b x y Ha Hb Hx Hy. pose proof (Forall2_lookup_lr _ _ _ _ _ _ HF Ha Hx) as Hax.
    pose proof (Forall2_lookup_lr _ _ _ _ _ _ HF Hb Hy) as Hby. cbn in Hax, Hby. split; [intros ->; by eapply H2|intros ->; congruence].
Qed.
End MultiStorage.
