(* ===== verification/ChLocks.v ===== *)
(** * Locked object storages ([plugins/clickhouse/async_object_storage.py])

    [ThreadSafeRohmuStorage] guards a storage of rohmu by a lock, and copying
    from one to another takes both locks, first that of the source.  Threads
    are interleaved at each acquisition and release; what rohmu does while a lock
    is held is not modelled. *)

From stdpp Require Import base gmap list.
From Stdlib Require Import Lia.
From S2P Require Import Prelude.

Module ChLocks.
Local Open Scope nat_scope.

(** Calls of the storages, which are numbered. *)
Inductive call : Type :=
| ListIter (self : nat)
| DeleteKey (self : nat)
| CopyItemsFrom (self source : nat).
(** The locks of a call, in the order in which it takes them. *)
Definition locks_of (c : call) : list nat :=
  match c with
  | ListIter self | DeleteKey self => [self]
  | CopyItemsFrom self source => [source; self]
  end.

(** A thread: its remaining calls, and how many locks of the first one it holds. *)
Record thread : Type := mkThread { calls : list call; held : nat }.
Record state : Type := mkState { locks : gmap nat nat; threads : list thread }.
Definition started (programs : list (list call)) : state := mkState ∅ ((λ p, mkThread p 0) <$> programs).

(** A step of a thread: it takes the next lock, waiting until it is free, or
    having all of them does its work and releases them. *)
Definition step (t : nat) (s : state) : option state :=
  th ← threads s !! t;
  match calls th with
  | [] => None
  | c :: rest =>
      match locks_of c !! held th with
      | Some x =>
          match locks s !! x with
          | Some _ => None
          | None => Some (mkState (<[x := t]> (locks s)) (<[t := mkThread (calls th) (S (held th))]> (threads s)))
          end
      | None => Some (mkState (foldr (λ x m, delete x m) (locks s) (locks_of c)) (<[t := mkThread rest 0]> (threads s)))
      end
  end.
Fixpoint steps (schedule : list nat) (s : state) : option state :=
  match schedule with [] => Some s | t :: rest => s' ← step t s; steps rest s' end.

Definition unfinished (th : thread) : Prop := calls th ≠ [].
(** The locks that a thread holds. *)
Definition holds (th : thread) (x : nat) : Prop :=
  match calls th with [] => False | c :: _ => x ∈ take (held th) (locks_of c) end.

(** The locks are those that threads hold, and every copy has another target than
    a source of any copy. *)
Definition disjoint_call (targets : gset nat) (c : call) : Prop :=
  match c with CopyItemsFrom self source => self ∈ targets ∧ source ∉ targets | _ => True end.
Record ok (targets : gset nat) (s : state) : Prop := {
  ok_locks x t : locks s !! x = Some t ↔ ∃ th, threads s !! t = Some th ∧ holds th x;
  ok_calls th : th ∈ threads s → Forall (disjoint_call targets) (calls th);
}.

Lemma disjoint_NoDup targets c : disjoint_call targets c → NoDup (locks_of c).
Proof.
  destruct c as [x|x|x y]; intros H; cbn; [by apply NoDup_singleton..|]. destruct H as [H1 H2].
  apply NoDup_cons. split; [|by apply NoDup_singleton]. rewrite list_elem_of_singleton. by intros ->.
Qed.

Lemma started_ok targets programs : Forall (Forall (disjoint_call targets)) programs → ok targets (started programs).
Proof.
  intros H. split; cbn.
  - intros x t. rewrite lookup_empty. split; [done|]. intros (th & Hth & Hh). rewrite list_lookup_fmap in Hth.
    destruct (programs !! t); [|done]. injection Hth as <-. unfold holds in Hh. cbn in Hh. destruct l; [done|]. by apply not_elem_of_nil in Hh.
  - intros th (p & -> & Hp)%list_elem_of_fmap. cbn. rewrite Forall_forall in H. by apply H.
Qed.

Lemma foldr_delete_lookup (l : list nat) (m : gmap nat nat) x :
  foldr (λ x m, delete x m) m l !! x = if decide (x ∈ l) then None else m !! x.
Proof.
  induction l as [|y l IH]; cbn [foldr]; [by rewrite decide_False by apply not_elem_of_nil|].
  destruct (decide (y = x)) as [->|Hne]; [by rewrite lookup_delete_eq, decide_True by by left|].
  rewrite lookup_delete_ne, IH by done. apply decide_ext. rewrite elem_of_cons. naive_solver.
Qed.

Lemma step_ok targets t s s' : ok targets s → step t s = Some s' → ok targets s'.
Proof.
  intros [Hl Hc] Hs. unfold step in Hs. destruct (threads s !! t) as [th|] eqn:Et; [|done]. cbn in Hs.
  assert (Forall (disjoint_call targets) (calls th)) as Hd by (apply Hc; by eapply list_elem_of_lookup_2).
  pose proof (lookup_lt_Some _ _ _ Et) as Hlen.
  assert (∀ th', (∀ c, c ∈ calls th' → c ∈ calls th) → ∀ th0, th0 ∈ <[t:=th']> (threads s) → Forall (disjoint_call targets) (calls th0)) as Hcalls.
  { intros th' Hsub th0 [i Hi]%list_elem_of_lookup. destruct (decide (i = t)) as [->|Hne].
    - rewrite list_lookup_insert_eq in Hi by done. injection Hi as <-. rewrite Forall_forall in Hd. apply Forall_forall. intros c Hin. by apply Hd, Hsub.
    - rewrite list_lookup_insert_ne in Hi by done. apply Hc. by eapply list_elem_of_lookup_2. }
  destruct (calls th) as [|c rest] eqn:Ec; [done|]. destruct (locks_of c !! held th) as [x|] eqn:Ex.
  - destruct (locks s !! x) eqn:Elx; [done|]. injection Hs as <-. split; cbn; [|by apply Hcalls].
    intros y u. destruct (decide (u = t)) as [->|Hu].
    + rewrite list_lookup_insert_eq by done. setoid_rewrite (inj_iff Some). unfold holds at 1.
      rewrite lookup_insert_Some, Hl. split.
      * intros H. eexists. split; [done|]. cbn. rewrite (take_S_r _ _ _ Ex). apply elem_of_app.
        destruct H as [[-> _]|[_ (th0 & H0 & Hh)]]; [right; by left|left]. rewrite Et in H0. injection H0 as <-. unfold holds in Hh. by rewrite Ec in Hh.
      * intros (th0 & <- & Hh). cbn in Hh. rewrite (take_S_r _ _ _ Ex), elem_of_app, list_elem_of_singleton in Hh.
        destruct (decide (x = y)) as [->|Hne]; [by left|right]. split; [done|]. exists th. split; [done|]. unfold holds. rewrite Ec. naive_solver.
    + rewrite list_lookup_insert_ne by done. rewrite <- Hl, lookup_insert_Some. split; [naive_solver|]. intros H. right. split; [|done]. congruence.
  - injection Hs as <-. split; cbn; [|apply Hcalls; intros c' Hc'; by right].
    assert (take (held th) (locks_of c) = locks_of c) as Htake by (apply take_ge; by apply lookup_ge_None).
    intros y u. rewrite foldr_delete_lookup. destruct (decide (u = t)) as [->|Hu].
    + rewrite list_lookup_insert_eq by done. split.
      * case_decide as Hin; [done|]. intros (th0 & H0 & Hh)%Hl. rewrite Et in H0. injection H0 as <-. unfold holds in Hh. rewrite Ec, Htake in Hh. done.
      * intros (th0 & [= <-] & Hh). unfold holds in Hh. cbn in Hh. destruct rest; [done|]. by apply not_elem_of_nil in Hh.
    + rewrite list_lookup_insert_ne by done. rewrite <- Hl. case_decide as Hin; [|done]. split; [done|]. intros Hy.
      assert (locks s !! y = Some t) as Hy'; [|congruence]. apply Hl. exists th. split; [done|]. unfold holds. by rewrite Ec, Htake.
Qed.

(** A thread that cannot take a step waits for a lock. *)
Lemma blocked t s th c rest : threads s !! t = Some th → calls th = c :: rest → step t s = None →
  ∃ x u, locks_of c !! held th = Some x ∧ locks s !! x = Some u.
Proof.
  intros Et Ec Hs. unfold step in Hs. rewrite Et in Hs. cbn in Hs. rewrite Ec in Hs.
  destruct (locks_of c !! held th) as [x|]; [|done]. destruct (locks s !! x) as [u|] eqn:E; [|done]. by exists x, u.
Qed.

(** The holder of the lock of a target does not wait. *)
Lemma target_holder targets s x u : ok targets s → x ∈ targets → locks s !! x = Some u → is_Some (step u s).
Proof.
  intros Hok Hx Hu. destruct (step u s) eqn:Es; [done|]. apply (ok_locks _ _ Hok) in Hu as (th & Et & Hh).
  unfold holds in Hh. destruct (calls th) as [|c rest] eqn:Ec; [done|].
  destruct (blocked u s th c rest Et Ec Es) as (y & v & Hy & _).
  pose proof (ok_calls _ _ Hok th) as Hd. rewrite Ec in Hd. specialize (Hd ltac:(by eapply list_elem_of_lookup_2)).
  apply Forall_cons in Hd as [Hd _]. destruct c as [a|a|a b]; cbn in *; destruct (held th) as [|[|n]]; cbn in *; try done;
    try (by apply not_elem_of_nil in Hh). apply list_elem_of_singleton in Hh as ->. by destruct Hd.
Qed.

(** C24: Copies cannot deadlock when no storage is both the source of a copy and
    the target of another one, which the comment of the code relies on: after
    any interleaving, some thread can go on as long as one has not finished. *)
Theorem copies_never_deadlock (targets : gset nat) (programs : list (list call)) (schedule : list nat) (s : state) :
  Forall (Forall (disjoint_call targets)) programs → steps schedule (started programs) = Some s →
  Exists unfinished (threads s) → ∃ t, is_Some (step t s).
Proof.
  intros Hd Hrun Hun. assert (ok targets s) as Hok.
  { apply started_ok in Hd. revert Hd Hrun. generalize (started programs) as s0. induction schedule as [|t l IH]; intros s0 Hok Hrun; cbn in Hrun.
    - by injection Hrun as <-.
    - destruct (step t s0) as [s1|] eqn:E; [|done]. cbn in Hrun. eapply IH; [|done]. by eapply step_ok. }
  apply Exists_exists in Hun as (th & Hin & Hth). apply list_elem_of_lookup in Hin as [t Ht].
  destruct (step t s) eqn:Es; [exists t; by eexists|]. unfold unfinished in Hth. destruct (calls th) as [|c rest] eqn:Ec; [done|].
  destruct (blocked t s th c rest Ht Ec Es) as (x & u & Hx & Hu).
  destruct (step u s) eqn:Eu; [exists u; by eexists|]. apply (ok_locks _ _ Hok) in Hu as Hu'. destruct Hu' as (thu & Eth & Hh).
  unfold holds in Hh. destruct (calls thu) as [|cu restu] eqn:Ecu; [done|].
  destruct (blocked u s thu cu restu Eth Ecu Eu) as (y & v & Hy & Hv). exists v. apply (target_holder targets s y v Hok); [|done].
  pose proof (ok_calls _ _ Hok thu) as Hcu. rewrite Ecu in Hcu. specialize (Hcu ltac:(by eapply list_elem_of_lookup_2)).
  apply Forall_cons in Hcu as [Hcu _]. destruct cu as [a|a|a b]; cbn in *; destruct (held thu) as [|[|n]]; cbn in *; try done;
    try (by apply not_elem_of_nil in Hh). injection Hy as <-. by destruct Hcu.
Qed.

(** Two threads that copy in both directions can wait for each other. *)
Example opposite_copies_deadlock :
  ∃ s, steps [0; 1] (started [[CopyItemsFrom 1 2]; [CopyItemsFrom 2 1]]) = Some s ∧ step 0 s = None ∧ step 1 s = None.
Proof. eexists. split; [vm_compute; reflexivity|]. by split. Qed.

Definition example_programs : list (list call) := [[CopyItemsFrom 1 2; ListIter 1]; [CopyItemsFrom 1 3; DeleteKey 3]].
Lemma copies_never_deadlock_witness : ∃ s t, steps [0; 1] (started example_programs) = Some s ∧ is_Some (step t s).
Proof.
  destruct (steps [0; 1] (started example_programs)) as [s|] eqn:E; [|vm_compute in E; discriminate E].
  destruct (copies_never_deadlock {[ 1 ]} example_programs [0; 1] s) as [t Ht].
  - repeat constructor; set_solver.
  - exact E.
  - vm_compute in E. injection E as <-. left. done.
  - by exists s, t.
Defined.
End ChLocks.
