(* ===== verification/Chown.v ===== *)
(** * The owner of restored files ([download_from_storage] of [node/download.py])

    With [copy_dst_owner], a restoration that has downloaded its files gives
    them, and the directories made for them, to the owner of [dst], by
    commands that [sudo] allows the user of the program.  This is the part of
    [download_from_storage] that [NodeTransfer] leaves out. *)

From stdpp Require Import base gmap strings list pretty.
From Stdlib Require Import ZArith Lia Ascii.
From S2P Require Import Prelude.

Module Chown.
Local Open Scope nat_scope.

(** What [stat] tells of the paths at and below [dst], which itself is the
    empty path: the inode a path leads to, links being followed, with its user
    and group.  Several paths may lead to one inode. *)
Record owners : Type := mkOwners {
  o_ino : gmap (list string) nat;
  o_owner : gmap nat (Z * Z);
}.

Definition stat_of (s : owners) (p : list string) : option (Z * Z) := o_ino s !! p ≫= λ i, o_owner s !! i.

Definition stat (p : list string) : M owners (Z * Z) :=
  s ← get; match stat_of s p with Some o => mret o | None => raise FileNotFoundError end.

(** [str(path.relative_to(self.dst))] *)
Definition path_str (p : list string) : string := join_on "/"%char p.

Definition chunk_size : nat := Z.to_nat 1000.
(** [range(0, n, chunk_size)] *)
Definition chunk_starts (n : nat) : list nat := (λ k, k * chunk_size) <$> seq 0 ((n + (chunk_size - 1)) / chunk_size).
(** [sorted_paths[chunk_start : chunk_start + chunk_size]] *)
Definition chunk (l : list string) (chunk_start : nat) : list string := take chunk_size (drop chunk_start l).

Section chown.
(** [getpass.getuser()], and running a command: whether it exits with 0 *)
Context (astacus_user : string) (run : list string → M owners bool).

(** The loop over the parents of a path, whose components are reversed: it
    ends at [dst] or at the first one with the right owner. *)
Fixpoint climb (dst_owner_uid : Z) (chown_candidate : list string) (chowned_paths : gset string) : M owners (gset string) :=
  match chown_candidate with
  | [] => mret chowned_paths
  | _ :: parent =>
      o ← stat (reverse chown_candidate);
      if decide (o.1 = dst_owner_uid) then mret chowned_paths
      else climb dst_owner_uid parent (chowned_paths ∪ {[path_str (reverse chown_candidate)]})
  end.

Fixpoint collect_paths (dst_owner_uid : Z) (files : list (list string)) (chowned_paths : gset string) : M owners (gset string) :=
  match files with
  | [] => mret chowned_paths
  | f :: files' =>
      chowned_paths ← climb dst_owner_uid (reverse f) chowned_paths;
      collect_paths dst_owner_uid files' chowned_paths
  end.

Definition chown_command (gid uid : Z) (paths : list string) : list string :=
  ["/usr/bin/sudo"; "/usr/bin/chown"; "--from=" +:+ astacus_user +:+ ":" +:+ pretty gid; pretty uid; "--"] ++ paths.

(** [files] are the components of the relative paths of the snapshot state. *)
Definition copy_owner (files : list (list string)) : M owners unit :=
  o ← stat [];
  let dst_owner_uid := o.1 in
  chowned_paths ← collect_paths dst_owner_uid files ∅;
  let sorted_paths := py_sorted str_leb (elements chowned_paths) in
  for_each (chunk_starts (length sorted_paths)) (λ chunk_start,
    o ← stat [];
    let dst_owner_gid := o.2 in
    ok ← run (chown_command dst_owner_gid dst_owner_uid (chunk sorted_paths chunk_start));
    if (ok : bool) then mret tt else raise CalledProcessError).
End chown.

(** ** What [chown --from=FROM UID -- PATHS] does *)
Definition chown_one (from : Z * Z) (uid : Z) (s : owners) (path : string) : owners :=
  match o_ino s !! split_on "/"%char path with
  | Some i => if decide (o_owner s !! i = Some from) then mkOwners (o_ino s) (<[i := (uid, from.2)]> (o_owner s)) else s
  | None => s
  end.
Definition chown_all (from : Z * Z) (uid : Z) (s : owners) (paths : list string) : owners := foldl (chown_one from uid) s paths.

(** The user has the identifier [auid]; [dst] is owned by [uid] and [gid].
    Nothing is said of a command that meets a path that is not there. *)
Class ChownCommand (user : string) (auid uid gid : Z) (run : list string → M owners bool) : Prop :=
  chown_run s paths :
    Forall (λ path, is_Some (stat_of s (split_on "/"%char path))) paths →
    run (chown_command user gid uid paths) s = (chown_all (auid, gid) uid s paths, Ok true).

(** A path below [dst] from whose file up to it no one has the right owner. *)
Definition reached (s : owners) (uid : Z) (f p : list string) : Prop :=
  p ≠ [] ∧ p `prefix_of` f ∧
  ∀ q, p `prefix_of` q → q `prefix_of` f → ∃ o, stat_of s q = Some o ∧ o.1 ≠ uid.

Definition component (c : string) : Prop := c ≠ "" ∧ free_of "/"%char c = true.

Lemma prefix_snoc_iff {A} (p f : list A) x : p `prefix_of` f ++ [x] ↔ p = f ++ [x] ∨ p `prefix_of` f.
Proof.
  split; [|intros [->|[k ->]]; [done|exists (k ++ [x]); by rewrite (assoc app)]].
  intros [k Hk]. induction k as [|y k _] using rev_ind.
  - left. by rewrite app_nil_r in Hk.
  - right. exists k. rewrite (assoc app) in Hk. by apply app_inj_tail in Hk as [? _].
Qed.

Lemma reached_snoc s uid f x p o :
  stat_of s (f ++ [x]) = Some o →
  reached s uid (f ++ [x]) p ↔ o.1 ≠ uid ∧ (p = f ++ [x] ∨ reached s uid f p).
Proof.
  intros Ho. unfold reached. split.
  - intros (Hp & Hf & Hall). apply prefix_snoc_iff in Hf as [->|Hf].
    + destruct (Hall (f ++ [x])) as (o' & Ho' & Hne); [done..|]. split; [congruence|by left].
    + split.
      * destruct (Hall (f ++ [x])) as (o' & Ho' & Hne); [by apply prefix_snoc_iff; right|done|congruence].
      * right. split_and!; [done..|]. intros q Hq Hqf. apply Hall; [done|]. apply prefix_snoc_iff. by right.
  - intros (Hne & [->|(Hp & Hf & Hall)]).
    + split; [by destruct f|]. split; [done|]. intros q Hq Hqf.
      assert (q = f ++ [x]) as -> by (apply (anti_symm prefix); done). eauto.
    + split; [done|]. split; [apply prefix_snoc_iff; by right|].
      intros q Hq Hqf. apply prefix_snoc_iff in Hqf as [->|Hqf]; [eauto|by apply Hall].
Qed.

(** All the parents of a file can be examined. *)
Definition present (s : owners) (f : list string) : Prop := ∀ q, q `prefix_of` f → is_Some (stat_of s q).

Lemma present_take s f : Forall (λ k, is_Some (stat_of s (take k f))) (seq 0 (S (length f))) → present s f.
Proof.
  intros H q [k ->]. rewrite Forall_forall in H. specialize (H (length q)). rewrite take_app_length in H.
  apply H, elem_of_seq. rewrite length_app. lia.
Qed.

Lemma climb_run s uid f acc :
  present s f →
  ∃ acc', climb uid (reverse f) acc s = (s, Ok acc') ∧
    ∀ path, path ∈ acc' ↔ path ∈ acc ∨ ∃ p, reached s uid f p ∧ path = path_str p.
Proof.
  revert acc. induction f as [|x f IH] using rev_ind; intros acc Hp.
  { exists acc. split; [done|]. intros path. split; [by left|]. intros [?|(p & (Hne & Hpre & _) & _)]; [done|].
    by apply prefix_nil_inv in Hpre. }
  destruct (Hp (f ++ [x])) as [o Ho]; [done|]. rewrite reverse_snoc. cbn [climb].
  rewrite (bind_ok _ _ s s o).
  2: { unfold stat. rewrite (bind_ok get _ _ _ _ eq_refl). by rewrite reverse_cons, reverse_involutive, Ho. }
  destruct (decide (o.1 = uid)) as [He|He].
  - exists acc. split; [done|]. intros path. split; [by left|]. intros [?|(p & Hr & _)]; [done|].
    apply (reached_snoc _ _ _ _ _ _ Ho) in Hr as [? _]. done.
  - rewrite reverse_cons, reverse_involutive.
    destruct (IH (acc ∪ {[path_str (f ++ [x])]})) as (acc' & Hrun & Hin).
    { intros q Hq. apply Hp. apply prefix_snoc_iff. by right. }
    exists acc'. split; [done|]. intros path. rewrite Hin, elem_of_union, elem_of_singleton. split.
    + intros [ [?| ->]|(p & Hr & ->)]; [by left| |]; right.
      * exists (f ++ [x]). split; [|done]. apply (reached_snoc _ _ _ _ _ _ Ho). split; [done|by left].
      * exists p. split; [|done]. apply (reached_snoc _ _ _ _ _ _ Ho). split; [done|by right].
    + intros [?|(p & Hr & ->)]; [by left; left|]. apply (reached_snoc _ _ _ _ _ _ Ho) in Hr as [_ [->|Hr]]; [by left; right|].
      right. eauto.
Qed.

Lemma collect_paths_run s uid files acc :
  Forall (present s) files →
  ∃ acc', collect_paths uid files acc s = (s, Ok acc') ∧
    ∀ path, path ∈ acc' ↔ path ∈ acc ∨ ∃ f p, f ∈ files ∧ reached s uid f p ∧ path = path_str p.
Proof.
  intros H. revert acc. induction H as [|f files Hf Hfs IH]; intros acc.
  { exists acc. split; [done|]. intros path. split; [by left|]. intros [?|(f & p & Hin & _)]; [done|]. by apply not_elem_of_nil in Hin. }
  destruct (climb_run s uid f acc Hf) as (a1 & H1 & Hin1). destruct (IH a1) as (a2 & H2 & Hin2).
  exists a2. split; [cbn [collect_paths]; by rewrite (bind_ok _ _ _ _ _ H1)|].
  intros path. rewrite Hin2, Hin1. set_solver.
Qed.

(** ** The chunks *)
Lemma chunks_concat_upto (l : list string) m :
  concat ((λ k, chunk l (k * chunk_size)) <$> seq 0 m) = take (m * chunk_size) l.
Proof.
  induction m as [|m IH]; [by rewrite Nat.mul_0_l, take_0|].
  rewrite seq_S, fmap_app, concat_app, IH, list_fmap_singleton, concat_cons, app_nil_r. unfold chunk.
  generalize chunk_size. intros c. rewrite take_take_drop. f_equal. simpl. lia.
Qed.

(** The chunks are the whole list. *)
Lemma chunks_concat l : concat (chunk l <$> chunk_starts (length l)) = l.
Proof.
  unfold chunk_starts. rewrite <- list_fmap_compose. change (chunk l ∘ (λ k, k * chunk_size)) with (λ k, chunk l (k * chunk_size)).
  rewrite chunks_concat_upto. apply take_ge. assert (chunk_size ≠ 0) as Hc by done. generalize chunk_size Hc. clear Hc. intros c Hc.
  pose proof (Nat.div_mod (length l + (c - 1)) c Hc) as H1. pose proof (Nat.mod_upper_bound (length l + (c - 1)) c Hc). lia.
Qed.

Lemma chunk_length l k : length (chunk l k) ≤ chunk_size.
Proof. unfold chunk. rewrite length_take. lia. Qed.

(** ** The effect of the commands *)
Lemma chown_one_ino from uid s path : o_ino (chown_one from uid s path) = o_ino s.
Proof. unfold chown_one. by repeat case_match. Qed.

Lemma chown_all_ino from uid s paths : o_ino (chown_all from uid s paths) = o_ino s.
Proof.
  unfold chown_all. revert s. induction paths as [|path paths IH]; intros s; [done|]. simpl. by rewrite IH, chown_one_ino.
Qed.

Lemma chown_one_owner (auid gid uid : Z) s path i :
  o_owner (chown_one (auid, gid) uid s path) !! i =
  if decide (o_ino s !! split_on "/"%char path = Some i ∧ o_owner s !! i = Some (auid, gid)) then Some (uid, gid)
  else o_owner s !! i.
Proof.
  unfold chown_one. destruct (o_ino s !! split_on "/"%char path) as [j|] eqn:E; [|rewrite decide_False by naive_solver; done].
  destruct (decide (o_owner s !! j = Some (auid, gid))) as [Hj|Hj]; simpl.
  - destruct (decide (i = j)) as [->|Hne]; [by rewrite lookup_insert_eq, decide_True|].
    rewrite lookup_insert_ne, decide_False by naive_solver. done.
  - rewrite decide_False by naive_solver. done.
Qed.

(** Every inode that one of the paths leads to and that has the owner given
    by [--from] changes hands, no other does. *)
Lemma chown_all_owner (auid gid uid : Z) s paths i :
  o_owner (chown_all (auid, gid) uid s paths) !! i =
  if decide (Exists (λ path, o_ino s !! split_on "/"%char path = Some i) paths ∧ o_owner s !! i = Some (auid, gid))
  then Some (uid, gid) else o_owner s !! i.
Proof.
  unfold chown_all. revert s. induction paths as [|path paths IH]; intros s.
  { rewrite decide_False; [done|]. intros [H _]. by inversion H. }
  simpl. rewrite IH, chown_one_ino, chown_one_owner.
  destruct (decide (o_owner s !! i = Some (auid, gid))) as [Ho|Ho].
  2: { rewrite (decide_False (P := _ ∧ o_owner s !! i = Some _)) by tauto.
       rewrite (decide_False (P := Exists _ (path :: paths) ∧ _)) by tauto. by rewrite decide_False by tauto. }
  destruct (decide (o_ino s !! split_on "/"%char path = Some i)) as [Hp|Hp].
  - rewrite (decide_True (P := _ = Some i ∧ _)) by done. rewrite (decide_True (P := Exists _ (path :: paths) ∧ _)).
    2: { split; [by left|done]. }
    case_decide as H; done.
  - rewrite (decide_False (P := _ = Some i ∧ _)) by tauto. apply decide_ext. rewrite Exists_cons. tauto.
Qed.

Section exact.
Context {user : string} {auid uid gid : Z} {run : list string → M owners bool} {CC : ChownCommand user auid uid gid run}.

Lemma chown_all_dst s paths :
  stat_of s [] = Some (uid, gid) → stat_of (chown_all (auid, gid) uid s paths) [] = Some (uid, gid).
Proof.
  unfold stat_of. rewrite chown_all_ino. destruct (o_ino s !! []) as [i|]; [|done]. simpl. intros H.
  rewrite chown_all_owner. by case_decide.
Qed.

Lemma chown_all_stat s paths p : is_Some (stat_of s p) → is_Some (stat_of (chown_all (auid, gid) uid s paths) p).
Proof.
  unfold stat_of. rewrite chown_all_ino. destruct (o_ino s !! p) as [i|]; [|done]. simpl. intros H.
  rewrite chown_all_owner. case_decide; [by eexists|done].
Qed.

Lemma stat_run s p o : stat_of s p = Some o → stat p s = (s, Ok o).
Proof. intros H. unfold stat. rewrite (bind_ok get _ _ _ _ eq_refl). by rewrite H. Qed.

(** The commands, one after the other, are one that gets all their paths. *)
Lemma commands_run l ks s :
  stat_of s [] = Some (uid, gid) → Forall (λ path, is_Some (stat_of s (split_on "/"%char path))) l →
  for_each ks (λ k,
    o ← stat [];
    ok ← run (chown_command user o.2 uid (chunk l k));
    if (ok : bool) then mret tt else raise CalledProcessError) s =
  (chown_all (auid, gid) uid s (concat (chunk l <$> ks)), Ok tt).
Proof using CC.
  revert s. induction ks as [|k ks IH]; intros s Hd Hl; [done|]. cbn [for_each].
  rewrite (bind_ok _ _ s (chown_all (auid, gid) uid s (chunk l k)) tt).
  - rewrite IH; [|by apply chown_all_dst|eapply Forall_impl; [exact Hl|]; intros; by apply chown_all_stat].
    rewrite fmap_cons, concat_cons. unfold chown_all. by rewrite foldl_app.
  - rewrite (bind_ok _ _ _ _ _ (stat_run _ _ _ Hd)). rewrite (bind_ok _ _ _ _ true (chown_run s (chunk l k) ltac:(by apply Forall_take, Forall_drop))).
    done.
Qed.

Lemma path_str_components (f p : list string) :
  Forall component f → p `prefix_of` f → p ≠ [] → split_on "/"%char (path_str p) = p.
Proof.
  intros Hf [k ->] Hp. apply Forall_app in Hf as [Hf _]. apply split_on_join; [done|].
  apply forallb_forall. intros c Hc. rewrite Forall_forall in Hf. by apply (Hf c), list_elem_of_In.
Qed.

(** C38: Adjusting owners succeeds when all restored files are there, and gives
    to the owner of the directory exactly the files and directories of the
    user of the program that lie between a restored file and the nearest
    one above it that already has the right owner; nothing else changes
    hands, and however many files there are. *)
Theorem copy_owner_exact (files : list (list string)) (s : owners) :
  Forall (present s) files → Forall (Forall component) files → stat_of s [] = Some (uid, gid) →
  ∃ s', copy_owner user run files s = (s', Ok tt) ∧ o_ino s' = o_ino s ∧
    (∀ i,
      (o_owner s !! i = Some (auid, gid) ∧ (∃ f p, f ∈ files ∧ reached s uid f p ∧ o_ino s !! p = Some i) →
         o_owner s' !! i = Some (uid, gid)) ∧
      (¬ (o_owner s !! i = Some (auid, gid) ∧ ∃ f p, f ∈ files ∧ reached s uid f p ∧ o_ino s !! p = Some i) →
         o_owner s' !! i = o_owner s !! i)) ∧
    (∀ f, f ∈ files → stat_of s f = Some (auid, gid) → stat_of s' f = Some (uid, gid)).
Proof using CC.
  intros Hp Hc Hd. destruct (collect_paths_run s uid files ∅ Hp) as (acc & Hrun & Hin).
  set (l := py_sorted str_leb (elements acc)).
  assert (∀ path, path ∈ l ↔ ∃ f p, f ∈ files ∧ reached s uid f p ∧ path = path_str p) as Hl.
  { intros path. unfold l. rewrite elem_of_py_sorted, elem_of_elements, Hin. set_solver. }
  assert (∀ f p, f ∈ files → reached s uid f p → split_on "/"%char (path_str p) = p) as Hsplit.
  { intros f p Hf (Hne & Hpre & _). eapply path_str_components; [|done..]. rewrite Forall_forall in Hc. by apply Hc. }
  assert (Forall (λ path, is_Some (stat_of s (split_on "/"%char path))) l) as Hall.
  { apply Forall_forall. intros path (f & p & Hf & Hr & ->)%Hl. rewrite (Hsplit f p Hf Hr).
    rewrite Forall_forall in Hp. apply (Hp f Hf). by destruct Hr as (_ & ? & _). }
  assert (∀ i, Exists (λ path, o_ino s !! split_on "/"%char path = Some i) l ↔
               ∃ f p, f ∈ files ∧ reached s uid f p ∧ o_ino s !! p = Some i) as Hex.
  { intros i. rewrite Exists_exists. split.
    - intros (path & (f & p & Hf & Hr & ->)%Hl & Hi). rewrite (Hsplit f p Hf Hr) in Hi. eauto.
    - intros (f & p & Hf & Hr & Hi). exists (path_str p). split; [apply Hl; eauto|]. by rewrite (Hsplit f p Hf Hr). }
  exists (chown_all (auid, gid) uid s l). split.
  { unfold copy_owner. rewrite (bind_ok _ _ _ _ _ (stat_run _ _ _ Hd)). rewrite (bind_ok _ _ _ _ _ Hrun).
    fold l. rewrite (commands_run l); [|done..]. by rewrite chunks_concat. }
  split; [apply chown_all_ino|]. split.
  - intros i. rewrite chown_all_owner, <- Hex. split; intros H; [apply decide_True|apply decide_False]; tauto.
  - intros f Hf Ho. unfold stat_of in *. rewrite chown_all_ino. destruct (o_ino s !! f) as [i|] eqn:Ei; [|done].
    simpl in *. rewrite chown_all_owner. case_decide as H; [done|]. rewrite Ho. f_equal.
    destruct (decide (auid = uid)) as [->|Hne]; [done|]. destruct H. split; [|done]. apply Hex. exists f, f.
    split; [done|]. split; [|done]. split; [intros ->; unfold stat_of in Hd; rewrite Ei in Hd; simpl in Hd; congruence|].
    split; [done|]. intros q Hq1 Hq2. assert (q = f) as -> by (by apply (anti_symm prefix)).
    exists (auid, gid). unfold stat_of. by rewrite Ei.
Qed.
End exact.

(** *** A concrete run *)
Definition example_header : list string := take 5 (chown_command "astacus" 50 99 []).
Definition example_run (command : list string) : M owners bool := λ s,
  if decide (take 5 command = example_header) then (chown_all (7, 50)%Z 99 s (drop 5 command), Ok true) else (s, Ok false).
#[local] Instance example_command : ChownCommand "astacus" 7 99 50 example_run.
Proof. intros s paths _. unfold example_run. by rewrite decide_True. Qed.

Definition example_owners : owners := mkOwners
  (list_to_map [([], 0); (["a"], 1); (["a"; "b"], 2); (["a"; "b"; "c"], 3); (["d"], 3); (["e"], 4)])
  (list_to_map [(0, (99, 50)%Z); (1, (99, 50)%Z); (2, (7, 50)%Z); (3, (7, 50)%Z); (4, (8, 50)%Z)]).

Lemma copy_owner_exact_witness :
  ∃ s', copy_owner "astacus" example_run [["a"; "b"; "c"]; ["e"]] example_owners = (s', Ok tt) ∧
    stat_of s' ["a"; "b"; "c"] = Some (99, 50)%Z.
Proof.
  destruct (copy_owner_exact (CC := example_command) [["a"; "b"; "c"]; ["e"]] example_owners) as (s' & H & _ & _ & Hf).
  - repeat (constructor; [apply present_take; vm_compute; repeat constructor; by eexists|]). constructor.
  - repeat constructor; done.
  - reflexivity.
  - exists s'. split; [exact H|]. apply Hf; [by left|reflexivity].
Defined.

End Chown.
