(* ===== verification/FileMode.v ===== *)
(** * The mode of restored files ([get_umask] and [parse_umask] of
      [common/utils.py], their use in [node/download.py])

    A restored file gets the mode that a newly created file would have.  The
    mask is read from the text of [/proc/self/status], because [os.umask]
    would have to change it to tell it. *)

From stdpp Require Import base strings list sets.
From Stdlib Require Import ZArith Lia Ascii Strings.Byte.
From S2P Require Import Prelude Base64 PyText Regex.

Module FileMode.
Import Regex.
Local Open Scope Z_scope.

(** [0o022] and [0o660] *)
Definition FALLBACK_UMASK : Z := 18.
Definition new_file_mode : Z := 432.

(** [re.search] with [re.MULTILINE], for a pattern that begins with [^] *)
Fixpoint search_lines (r : re) (line_start : bool) (l : text) : option groups :=
  match (if line_start then re_match r l else None) with
  | Some m => Some m.2
  | None => match l with [] => None | b :: l' => search_lines r (Byte.eqb b x0a) l' end
  end.

Definition umask_line : re :=
  RSeq (literal (lit "Umask:")) (RSeq (plus space)
    (RSeq (RGroup "1" (RSeq (one x30) (RSeq digit (RSeq digit digit)))) at_line_end)).

(** The text matched has only digits, so that [int(text, 8)] sees no prefix. *)
Definition parse_umask (proc_status : text) : res Z :=
  match search_lines umask_line true proc_status with
  | Some gs => PyInt.int_of 8 (group "1" gs)
  | None => Ok FALLBACK_UMASK
  end.

(** [None] stands for a missing [/proc/self/status]. *)
Definition get_umask (proc_status : option text) : res Z :=
  match proc_status with None => Ok FALLBACK_UMASK | Some t => parse_umask t end.

(** [0o660 & ~get_umask()] *)
Definition download_mode (proc_status : option text) : res Z :=
  mask ← get_umask proc_status; mret (Z.land new_file_mode (Z.lnot mask)).

(** ** The text that the kernel writes *)
Definition octal_digit (n : Z) : byte := default x30 (Byte.of_N (Z.to_N (48 + n))).
Definition octal (mask : Z) : text := [x30; octal_digit (mask / 64 mod 8); octal_digit (mask / 8 mod 8); octal_digit (mask mod 8)].

Definition line_text (l : text) : text := l ++ [x0a].
(** A line of another field *)
Definition other_line (l : text) : Prop := x0a ∉ l ∧ ¬ lit "Umask:" `prefix_of` l.

Lemma literal_prefix p b l l' g : matches (RSeq (literal p) b) l l' g → p `prefix_of` l.
Proof. rewrite matches_seq. intros (l1 & g1 & g2 & [-> _]%matches_literal & _ & _). by exists l1. Qed.

Lemma prefix_line (p l k : text) : x0a ∉ p → p `prefix_of` l ++ x0a :: k → p `prefix_of` l.
Proof.
  revert l. induction p as [|c p IH]; intros l Hp Hpre; [apply prefix_nil|].
  destruct l as [|d l]; simpl in Hpre.
  - apply prefix_cons_inv_1 in Hpre. subst. set_solver.
  - pose proof (prefix_cons_inv_1 _ _ _ _ Hpre) as ->. apply prefix_cons. apply IH; [set_solver|].
    by eapply prefix_cons_inv_2.
Qed.

Lemma search_rest r l k : x0a ∉ l → search_lines r false (l ++ x0a :: k) = search_lines r true k.
Proof.
  induction l as [|b l IH]; intros Hl; [done|]. simpl. destruct (Byte.eqb b x0a) eqn:E.
  - apply Byte.byte_dec_bl in E. set_solver.
  - apply IH. set_solver.
Qed.

(** Lines of other fields are passed over. *)
Lemma search_other (lines : list text) k :
  Forall other_line lines →
  search_lines umask_line true (concat (line_text <$> lines) ++ k) = search_lines umask_line true k.
Proof.
  induction 1 as [|l lines [Hn Hl] Hls IH]; [done|]. rewrite fmap_cons, concat_cons. unfold line_text at 1.
  rewrite <- !(assoc app). simpl. rewrite <- IH. set (rest := concat _ ++ k).
  assert (re_match umask_line (l ++ x0a :: rest) = None) as Hno.
  { apply re_match_none. intros l' g Hm. apply Hl. eapply prefix_line; [|by eapply literal_prefix]. vm_compute. set_solver. }
  destruct l as [|b l]; simpl.
  - done.
  - simpl in Hno. rewrite Hno. destruct (Byte.eqb b x0a) eqn:E; [apply Byte.byte_dec_bl in E; set_solver|].
    apply search_rest. set_solver.
Qed.
(** The digits of a mask are digits, and [int] reads them back. *)
Definition octal_ok (mask : Z) : bool :=
  forallb PyInt.is_digit (octal mask) && bool_decide (PyInt.int_of 8 (octal mask) = Ok mask).

Lemma octal_read (mask : Z) :
  0 <= mask < 512 → forallb PyInt.is_digit (octal mask) = true ∧ PyInt.int_of 8 (octal mask) = Ok mask.
Proof.
  intros H. assert (forallb (λ k, octal_ok (Z.of_nat k)) (seq 0 512) = true) as Hall by (by vm_compute).
  rewrite forallb_forall in Hall. specialize (Hall (Z.to_nat mask)). rewrite Z2Nat.id in Hall by lia.
  destruct (andb_prop _ _ (Hall ltac:(apply in_seq; lia))) as [H1 H2]. split; [done|by apply bool_decide_eq_true in H2].
Qed.

Definition mask_digits : re := RSeq (one x30) (RSeq digit (RSeq digit digit)).

Lemma matches_mask_digits a b c l l' g :
  forallb PyInt.is_digit [x30; a; b; c] = true →
  matches mask_digits (x30 :: a :: b :: c :: l) l' g ↔ l' = l ∧ g = [].
Proof.
  intros Hd. rewrite forallb_forall in Hd.
  assert (PyInt.is_digit a = true ∧ PyInt.is_digit b = true ∧ PyInt.is_digit c = true) as (Ha & Hb & Hc).
  { split_and!; apply Hd; simpl; tauto. }
  clear Hd. unfold mask_digits, digit. rewrite seq_one. split.
  - intros (l1 & [= <-] & H). apply matches_seq in H as (l2 & g1 & g2 & (? & [= <- <-] & _ & ->)%matches_byte & H & ->).
    apply matches_seq in H as (l3 & g3 & g4 & (? & [= <- <-] & _ & ->)%matches_byte & H & ->).
    by apply matches_byte in H as (? & [= <- <-] & _ & ->).
  - intros [-> ->]. eexists. split; [done|]. apply matches_seq. exists (b :: c :: l), [], []. rewrite matches_byte.
    split; [by exists a|]. split; [|done]. apply matches_seq. exists (c :: l), [], []. rewrite !matches_byte.
    split; [by exists b|]. split; [by exists c|done].
Qed.
Lemma octal_start mask : octal mask = x30 :: octal_digit (mask / 64 mod 8) :: octal_digit (mask / 8 mod 8) :: [octal_digit (mask mod 8)].
Proof. done. Qed.

Lemma umask_line_match (mask : Z) (k : text) :
  0 <= mask < 512 →
  re_match umask_line (lit "Umask:" ++ x09 :: octal mask ++ x0a :: k) = Some (x0a :: k, [("1", octal mask)]).
Proof.
  intros Hm. destruct (octal_read mask Hm) as [Hd _].
  assert (∀ l l' g, l = octal mask ++ x0a :: k → matches (RSeq (RGroup "1" mask_digits) at_line_end) l l' g ↔
    l' = x0a :: k ∧ g = [("1", octal mask)]) as Hrest.
  { intros l l' g ->. rewrite matches_seq. rewrite octal_start in *. split.
    - intros (l1 & g1 & g2 & (pre & g0 & Hpre & H & ->)%matches_group & (_ & -> & ->)%matches_assert & ->).
      apply (matches_mask_digits _ _ _ _ _ _ Hd) in H as [-> ->]. split; [done|].
      change (_ :: _ :: _ :: _ :: x0a :: k) with (octal mask ++ x0a :: k) in Hpre. apply app_inv_tail in Hpre as <-. done.
    - intros [-> ->]. exists (x0a :: k), [("1", octal mask)], []. split; [|split; [by apply matches_assert|done]].
      apply matches_group. exists (octal mask), []. split; [done|]. split; [|done]. by apply (matches_mask_digits _ _ _ _ _ _ Hd). }
  assert (∀ l' g, matches umask_line (lit "Umask:" ++ x09 :: octal mask ++ x0a :: k) l' g ↔
    l' = x0a :: k ∧ g = [("1", octal mask)]) as Hall.
  { intros l' g. unfold umask_line. rewrite matches_seq. split.
    - intros (l1 & g1 & g2 & [Heq ->]%matches_literal & H & ->). apply app_inv_head in Heq as <-.
      apply seq_plus in H as (ds & l2 & Hne & Hds & Heq & H). destruct ds as [|x ds]; [done|]. injection Heq as <- Heq.
      destruct ds as [|y ds].
      + apply (Hrest l2 _ _); [by subst|done].
      + injection Heq as <- _. done.
    - intros [-> ->]. exists (x09 :: octal mask ++ x0a :: k), [], [("1", octal mask)]. split; [by apply matches_literal|].
      split; [|done]. apply seq_plus. exists [x09], (octal mask ++ x0a :: k). split_and!; [done..|]. by apply Hrest. }
  apply re_match_unique; [by apply Hall|]. intros l1 g1 [-> ->]%Hall. done.
Qed.

(** The mask is read back from a status, wherever its line is among those of
    other fields, and a status without that line is not an error. *)
Theorem umask_read (lines : list text) (mask : Z) (k : text) :
  Forall other_line lines → 0 <= mask < 512 →
  parse_umask (concat (line_text <$> lines) ++ lit "Umask:" ++ x09 :: octal mask ++ x0a :: k) = Ok mask ∧
  parse_umask (concat (line_text <$> lines)) = Ok FALLBACK_UMASK.
Proof.
  intros Hl Hm. split.
  - unfold parse_umask. rewrite search_other by done. pose proof (umask_line_match mask k Hm) as Hr.
    destruct (lit "Umask:" ++ x09 :: octal mask ++ x0a :: k) as [|b l] eqn:E; [discriminate E|].
    cbn [search_lines]. rewrite Hr. simpl. by apply octal_read.
  - unfold parse_umask. rewrite <- (app_nil_r (concat _)), search_other by done. done.
Qed.

Lemma umask_read_witness :
  parse_umask (concat (line_text <$> [lit "Name:	python"]) ++ lit "Umask:" ++ x09 :: octal 23 ++ x0a :: lit "State:	S") = Ok 23 ∧
  parse_umask (concat (line_text <$> [lit "Name:	python"])) = Ok FALLBACK_UMASK.
Proof.
  apply (umask_read [lit "Name:	python"] 23 (lit "State:	S")); [|done]. constructor; [|constructor].
  split; [|by intros [? [=]]]. intros H. apply list_elem_of_In in H. simpl in H. repeat destruct H as [[=]|H]. done.
Defined.

(** A restored file is never executable nor open to others, and what the mask
    forbids stays forbidden. *)
Theorem download_mode_masked (proc_status : option text) (mode : Z) (i : Z) :
  download_mode proc_status = Ok mode → 0 <= i →
  Z.testbit mode i = true →
  i ∈ [4; 5; 7; 8] ∧ ∃ mask, get_umask proc_status = Ok mask ∧ Z.testbit mask i = false.
Proof.
  unfold download_mode. destruct (get_umask proc_status) as [mask|] eqn:E; [|done]. intros [= <-] Hi Hb.
  rewrite Z.land_spec, Z.lnot_spec in Hb by done. apply andb_prop in Hb as [H1 H2]. split; [|exists mask; split; [done|]].
  - destruct (decide (i < 9)) as [Hlt|Hge].
    + assert (i = 0 ∨ i = 1 ∨ i = 2 ∨ i = 3 ∨ i = 4 ∨ i = 5 ∨ i = 6 ∨ i = 7 ∨ i = 8) as Hc by lia.
      repeat destruct Hc as [->|Hc]; try subst i; first [discriminate H1|set_solver].
    + unfold new_file_mode in H1. rewrite (Z.bits_above_log2 432 i) in H1 by (simpl; lia). done.
  - by apply negb_true_iff in H2.
Qed.

Lemma download_mode_masked_witness :
  4 ∈ [4; 5; 7; 8] ∧ ∃ mask, get_umask None = Ok mask ∧ Z.testbit mask 5 = false.
Proof. split; [set_solver|]. apply (download_mode_masked None 416 5); [reflexivity|lia|reflexivity]. Defined.

End FileMode.
