(* ===== verification/Statsd.v ===== *)
(** * Statistics ([common/statsd.py])

    The client that sends one packet per metric, in the format of telegraf or
    datadog, and the context manager that times a block.  Sending a packet,
    the clock and the text of a floating point number are parameters. *)

From stdpp Require Import base strings list pretty.
From Stdlib Require Import ZArith Lia Ascii.
From S2P Require Import Prelude Config.

Module Statsd.
Import Config.
Local Open Scope Z_scope.

(** [Tags]: a dictionary, whose order is that of insertion. *)
Notation tag_value := (option (Z + string)).
Notation Tags := (list (string * tag_value)).

(** A [StatsClient]: disabled without a configuration; [_dest_addr] is where
    packets go. *)
Record StatsClient : Type := mkStatsClient { config : option StatsdConfig }.
Definition enabled (c : StatsClient) : bool := bool_decide (is_Some (config c)).

(** The encodings of [metric_type] *)
Inductive metric_type : Type := gauge_type | counter_type | timer_type.
Definition type_text (t : metric_type) : string :=
  match t with gauge_type => "g" | counter_type => "c" | timer_type => "ms" end.

Section statsd.
(** Floating point numbers with [str] *)
Context {Float : Type} (float_str : Float → string).

Definition number_str (value : Z + Float) : string := match value with inl n => pretty n | inr x => float_str x end.
(** [f"{val}"] and [str.format] *)
Definition tag_str (val : tag_value) : string :=
  match val with None => "None" | Some (inl n) => pretty n | Some (inr s) => s end.

(** [d.update(tags)] *)
Definition update (d tags : Tags) : Tags := foldl (λ d kv, dict_set kv.1 kv.2 d) d tags.

Definition concat_str (parts : list string) : string := foldr (λ a b, a +:+ b) "" parts.

(** [enumerate(send_tags.items())] with the patterns of datadog *)
Definition datadog_part (i : nat) (kv : string * tag_value) : string :=
  (if decide (i = 0%nat) then "|#" else ",") +:+
  match kv.2 with None => kv.1 | Some _ => kv.1 +:+ ":" +:+ tag_str kv.2 end.
Definition datadog_parts (send_tags : Tags) : list string := imap datadog_part send_tags.

(** [parts.insert(1, ...)] for each tag in turn *)
Definition telegraf_part (kv : string * tag_value) : string := "," +:+ kv.1 +:+ "=" +:+ tag_str kv.2.
Definition insert_1 (parts : list string) (part : string) : list string :=
  match parts with [] => [part] | p :: parts' => p :: part :: parts' end.

Definition packet (format : MessageFormat) (metric : string) (metric_type : metric_type) (value : Z + Float)
    (send_tags : Tags) : string :=
  let parts := [metric; ":"; number_str value; "|"; type_text metric_type] in
  concat_str match format with
             | datadog => parts ++ datadog_parts send_tags
             | telegraf => foldl insert_1 parts (telegraf_part <$> send_tags)
             end.

(** ** The packets, in order *)
Lemma string_app_nil (s : string) : s +:+ "" = s.
Proof. induction s as [|a s IH]; [done|]. by apply (f_equal (String a)). Qed.

Lemma concat_str_app a b : concat_str (a ++ b) = concat_str a +:+ concat_str b.
Proof. induction a as [|x a IH]; [done|]. simpl. rewrite IH. apply string_app_assoc. Qed.

Lemma insert_all p parts l : foldl insert_1 (p :: parts) l = p :: reverse l ++ parts.
Proof.
  revert parts. induction l as [|x l IH]; intros parts; [done|]. simpl. rewrite IH, reverse_cons.
  by rewrite <- (assoc app).
Qed.

(** The tags of telegraf come out last to first. *)
Lemma telegraf_packet metric t value send_tags :
  packet telegraf metric t value send_tags =
  metric +:+ concat_str (telegraf_part <$> reverse send_tags) +:+ ":" +:+ number_str value +:+ "|" +:+ type_text t.
Proof.
  unfold packet. rewrite insert_all. simpl. rewrite concat_str_app, <- fmap_reverse. simpl. by rewrite string_app_nil.
Qed.

(** ** Reading packets back, as the formats are documented *)
Definition read_tag_telegraf (s : string) : option (string * string) :=
  match split_on "="%char s with [k; v] => Some (k, v) | _ => None end.
(** [metric,tag=value,...:value|type] *)
Definition read_telegraf (s : string) : option (string * list (string * string) * string * string) :=
  match split_on "|"%char s with
  | [head; t] =>
      match split_on ":"%char head with
      | [name; v] =>
          match split_on ","%char name with
          | metric :: l => tags ← mapM read_tag_telegraf l; Some (metric, tags, v, t)
          | [] => None
          end
      | _ => None
      end
  | _ => None
  end.

Definition read_tag_datadog (s : string) : option (string * option string) :=
  match split_on ":"%char s with [k] => Some (k, None) | [k; v] => Some (k, Some v) | _ => None end.
(** [metric:value|type] or [metric:value|type|#tag:value,tag,...] *)
Definition read_datadog (s : string) : option (string * list (string * option string) * string * string) :=
  match split_on "|"%char s with
  | head :: t :: rest =>
      match split_on ":"%char head with
      | [metric; v] =>
          match rest with
          | [] => Some (metric, [], v, t)
          | [String "#"%char l] => tags ← mapM read_tag_datadog (split_on ","%char l); Some (metric, tags, v, t)
          | _ => None
          end
      | _ => None
      end
  | _ => None
  end.

(** A text with none of the separators of the two formats *)
Definition plain (s : string) : bool :=
  free_of "|"%char s && free_of ":"%char s && free_of ","%char s && free_of "="%char s.
Definition plain_tag (kv : string * tag_value) : bool := plain kv.1 && plain (tag_str kv.2).

Lemma free_of_app c a b : free_of c (a +:+ b) = free_of c a && free_of c b.
Proof. induction a as [|x a IH]; [done|]. change (free_of c (String x (a +:+ b)) = free_of c (String x a) && free_of c b).
  simpl. by rewrite IH, andb_assoc. Qed.

Lemma plain_free s : plain s = true → free_of "|"%char s = true ∧ free_of ":"%char s = true ∧ free_of ","%char s = true ∧ free_of "="%char s = true.
Proof. unfold plain. intros H. repeat (apply andb_prop in H as [H ?]). done. Qed.

(** The tags, each with its comma, are joined by commas. *)
Lemma commas_join s (l : list string) : s +:+ concat_str ((λ x, "," +:+ x) <$> l) = join_on ","%char (s :: l).
Proof.
  revert s. induction l as [|x l IH]; intros s; [apply string_app_nil|].
  change (s +:+ (("," +:+ x) +:+ concat_str ((λ x, "," +:+ x) <$> l)) = s +:+ String ","%char (join_on ","%char (x :: l))).
  f_equal. rewrite <- IH. done.
Qed.

Lemma free_of_join c d l : Ascii.eqb d c = false → forallb (free_of c) l = true → free_of c (join_on d l) = true.
Proof.
  intros Hd. induction l as [|s [|t l] IH]; [done| |]; intros H; simpl in H.
  - by apply andb_prop in H as [H _].
  - apply andb_prop in H as [H1 H2]. change (join_on d (s :: t :: l)) with (s +:+ String d (join_on d (t :: l))).
    rewrite free_of_app, H1. simpl. rewrite Hd. by apply IH.
Qed.

Lemma type_text_plain t : plain (type_text t) = true.
Proof. by destruct t. Qed.

Definition telegraf_tag (kv : string * tag_value) : string := kv.1 +:+ "=" +:+ tag_str kv.2.

Lemma free_of_telegraf_tag c kv : Ascii.eqb "="%char c = false → free_of c kv.1 = true → free_of c (tag_str kv.2) = true →
  free_of c (telegraf_tag kv) = true.
Proof.
  intros Hc H1 H2. unfold telegraf_tag. rewrite !free_of_app, H1, H2.
  assert (free_of c "=" = true) as -> by (cbn [free_of]; by rewrite Hc). done.
Qed.

Lemma read_telegraf_tag kv : plain_tag kv = true → read_tag_telegraf (telegraf_tag kv) = Some (kv.1, tag_str kv.2).
Proof.
  intros [(_ & _ & _ & H1)%plain_free (_ & _ & _ & H2)%plain_free]%andb_prop. unfold read_tag_telegraf, telegraf_tag.
  change (kv.1 +:+ "=" +:+ tag_str kv.2) with (kv.1 +:+ String "="%char (tag_str kv.2)). by rewrite split_on_app, split_on_free.
Qed.

Lemma read_telegraf_packet metric t value send_tags :
  plain metric = true → plain (number_str value) = true → forallb plain_tag send_tags = true →
  read_telegraf (packet telegraf metric t value send_tags) =
  Some (metric, reverse ((λ kv, (kv.1, tag_str kv.2)) <$> send_tags), number_str value, type_text t).
Proof.
  intros (Hm1 & Hm2 & Hm3 & _)%plain_free (Hv1 & Hv2 & _)%plain_free Ht. rewrite telegraf_packet, <- fmap_reverse.
  assert (forallb plain_tag (reverse send_tags) = true) as Ht'.
  { rewrite forallb_forall in Ht |- *. intros kv H. apply Ht. rewrite <- list_elem_of_In, elem_of_reverse, list_elem_of_In in H. done. }
  clear Ht. generalize (reverse send_tags) Ht'. clear send_tags Ht'. intros l Hl.
  set (name := join_on ","%char (metric :: (telegraf_tag <$> l))).
  assert (metric +:+ concat_str (telegraf_part <$> l) = name) as Hname.
  { unfold name. rewrite <- commas_join, <- list_fmap_compose. done. }
  rewrite string_app_assoc, Hname.
  assert (∀ c, Ascii.eqb "="%char c = false → free_of c metric = true → (∀ s, plain s = true → free_of c s = true) →
    forallb (free_of c) (metric :: (telegraf_tag <$> l)) = true) as Hfree.
  { intros c Hc Hm Hp. apply forallb_forall. intros s [<-|H]; [done|]. apply list_elem_of_In, list_elem_of_fmap in H as (kv & -> & H).
    rewrite forallb_forall in Hl. apply list_elem_of_In, Hl, andb_prop in H as [H1 H2]. apply free_of_telegraf_tag; auto. }
  unfold read_telegraf. change (":" +:+ number_str value +:+ "|" +:+ type_text t) with (String ":"%char (number_str value +:+ String "|"%char (type_text t))).
  assert (free_of "|"%char name = true ∧ free_of ":"%char name = true) as [Hn1 Hn2].
  { split; apply free_of_join; [done| |done|]; apply Hfree; [done|done| |done|done|]; intros s Hs; apply plain_free in Hs; tauto. }
  replace (name +:+ String ":"%char (number_str value +:+ String "|"%char (type_text t)))
    with ((name +:+ String ":"%char (number_str value)) +:+ String "|"%char (type_text t)) by (by rewrite <- string_app_assoc).
  rewrite split_on_app; [|rewrite free_of_app, Hn1; simpl; done].
  rewrite (split_on_free _ (type_text t)) by (by destruct t).
  rewrite split_on_app by done. rewrite (split_on_free _ (number_str value)) by done.
  unfold name. rewrite split_on_join; [|done|by apply Hfree; [done|done|]; intros s Hs; apply plain_free in Hs; tauto].
  assert (mapM read_tag_telegraf (telegraf_tag <$> l) = Some ((λ kv, (kv.1, tag_str kv.2)) <$> l)) as ->; [|done].
  clear Hname name Hn1 Hn2 Hfree. induction l as [|kv l IH]; [done|]. simpl in Hl. apply andb_prop in Hl as [Hkv Hl].
  rewrite !fmap_cons. cbn [mapM]. rewrite read_telegraf_tag by done. simpl. by rewrite (IH Hl).
Qed.

(** What is read of a tag *)
Definition datadog_read (kv : string * tag_value) : string * option string := (kv.1, match kv.2 with None => None | v => Some (tag_str v) end).
Definition datadog_tag (kv : string * tag_value) : string := match kv.2 with None => kv.1 | Some _ => kv.1 +:+ ":" +:+ tag_str kv.2 end.

Lemma read_datadog_tag kv :
  plain_tag kv = true →
  read_tag_datadog (datadog_tag kv) = Some (datadog_read kv).
Proof.
  intros [(_ & H1 & _)%plain_free (_ & H2 & _)%plain_free]%andb_prop. unfold read_tag_datadog, datadog_tag, datadog_read. destruct kv as [k [v|]]; cbn [fst snd] in *.
  - change (k +:+ ":" +:+ tag_str (Some v)) with (k +:+ String ":"%char (tag_str (Some v))). by rewrite split_on_app, split_on_free.
  - by rewrite split_on_free.
Qed.

Lemma datadog_parts_cons kv l :
  concat_str (datadog_parts (kv :: l)) = "|#" +:+ join_on ","%char (datadog_tag <$> kv :: l).
Proof.
  unfold datadog_parts. rewrite imap_cons. cbn [concat_str foldr]. change (foldr (λ a b, a +:+ b) "") with concat_str.
  assert (imap (datadog_part ∘ S) l = (λ x, "," +:+ x) <$> (datadog_tag <$> l)) as ->.
  { rewrite <- list_fmap_compose. apply list_eq. intros i. rewrite list_lookup_imap, list_lookup_fmap. by destruct (l !! i). }
  change (datadog_part 0 kv) with ("|#" +:+ datadog_tag kv). rewrite fmap_cons, <- commas_join, <- string_app_assoc. done.
Qed.

Lemma free_of_datadog_tag c kv :
  Ascii.eqb ":"%char c = false → free_of c kv.1 = true → free_of c (tag_str kv.2) = true → free_of c (datadog_tag kv) = true.
Proof.
  intros Hc H1 H2. unfold datadog_tag. destruct kv.2; [|done]. rewrite !free_of_app, H1, H2.
  assert (free_of c ":" = true) as -> by (cbn [free_of]; by rewrite Hc). done.
Qed.

Lemma read_datadog_packet metric t value send_tags :
  plain metric = true → plain (number_str value) = true → forallb plain_tag send_tags = true →
  read_datadog (packet datadog metric t value send_tags) =
  Some (metric, datadog_read <$> send_tags, number_str value, type_text t).
Proof.
  intros (Hm1 & Hm2 & _)%plain_free (Hv1 & Hv2 & _)%plain_free Hl. unfold packet. rewrite concat_str_app.
  set (rest := concat_str (datadog_parts send_tags)).
  assert (concat_str [metric; ":"; number_str value; "|"; type_text t] +:+ rest =
    (metric +:+ String ":"%char (number_str value)) +:+ String "|"%char (type_text t +:+ rest)) as ->.
  { cbn [concat_str foldr]. rewrite string_app_nil, <- !string_app_assoc. done. }
  unfold read_datadog. rewrite split_on_app; [|rewrite free_of_app, Hm1; simpl; done].
  assert (∀ c, Ascii.eqb ":"%char c = false → (∀ s, plain s = true → free_of c s = true) →
    forallb (free_of c) (datadog_tag <$> send_tags) = true) as Hfree.
  { intros c Hc Hp. rewrite forallb_forall in Hl |- *. intros s H. apply list_elem_of_In, list_elem_of_fmap in H as (kv & -> & H).
    apply list_elem_of_In, Hl, andb_prop in H as [H1 H2]. apply free_of_datadog_tag; auto. }
  assert (split_on "|"%char (type_text t +:+ rest) =
    type_text t :: match send_tags with [] => [] | _ => ["#" +:+ join_on ","%char (datadog_tag <$> send_tags)] end) as ->.
  { unfold rest. destruct send_tags as [|kv l]; [by destruct t|]. rewrite datadog_parts_cons.
    set (j := join_on _ _). change ("|#" +:+ j) with (String "|"%char ("#" +:+ j)).
    rewrite split_on_app by (by destruct t). f_equal. apply split_on_free. rewrite free_of_app. simpl.
    apply free_of_join; [done|]. apply Hfree; [done|]. intros s Hs. apply plain_free in Hs. tauto. }
  rewrite split_on_app by done. rewrite (split_on_free _ (number_str value)) by done.
  assert (mapM read_tag_datadog (datadog_tag <$> send_tags) = Some (datadog_read <$> send_tags)) as Hmap.
  { clear Hfree rest. induction send_tags as [|kv l IH]; [done|]. simpl in Hl. apply andb_prop in Hl as [Hkv Hl].
    rewrite !fmap_cons. cbn [mapM]. rewrite read_datadog_tag by done. simpl. by rewrite (IH Hl). }
  destruct send_tags as [|kv l]; [done|]. set (j := join_on _ _).
  change ("#" +:+ j) with (String "#"%char j). cbv iota beta. unfold j. rewrite split_on_join; [|done|].
  - by rewrite Hmap.
  - apply Hfree; [done|]. intros s Hs. apply plain_free in Hs. tauto.
Qed.

(** Every packet reads back as the metric, the tags, the number and the type it
    was made of, when names and values are free of the separators of the
    formats: from telegraf with the tags last to first and [None] as a text,
    from datadog as they are. *)
Theorem packet_reads_back (metric : string) (t : metric_type) (value : Z + Float) (send_tags : Tags) :
  plain metric = true → plain (number_str value) = true → forallb plain_tag send_tags = true →
  read_telegraf (packet telegraf metric t value send_tags) =
    Some (metric, reverse ((λ kv, (kv.1, tag_str kv.2)) <$> send_tags), number_str value, type_text t) ∧
  read_datadog (packet datadog metric t value send_tags) =
    Some (metric, datadog_read <$> send_tags, number_str value, type_text t).
Proof. intros Hm Hv Hl. split; [by apply read_telegraf_packet|by apply read_datadog_packet]. Qed.

(** ** Tags *)

(** The tags of a call take the place of those configured. *)
Lemma update_get d tags k :
  NoDup tags.*1 → dict_get (update d tags) k = match dict_get tags k with Some v => Some v | None => dict_get d k end.
Proof.
  unfold update. revert d. induction tags as [|[k' v] tags IH]; intros d; [done|]. rewrite fmap_cons, NoDup_cons. intros [Hk Hnd].
  simpl. rewrite IH by done. destruct (decide (k' = k)) as [->|Hne].
  - assert (dict_get tags k = None) as -> by (by apply dict_get_None). unfold dict_set. by rewrite dict_get_alter_eq.
  - unfold dict_set. by rewrite dict_get_alter_ne by congruence.
Qed.

(** ** The client *)
(** The subtraction of floating point numbers, the socket and the clock *)
Context (float_sub : Float → Float → Float).
Context {W : Type} (sendto : string → Z → string → M W unit) (monotonic : M W Float).

Definition send (c : StatsClient) (metric : string) (metric_type : metric_type) (value : Z + Float) (tags : option Tags) :
    M W unit :=
  match config c with
  | None => mret tt
  | Some cfg =>
      let send_tags := update (Config.tags cfg) (default [] tags) in
      sendto (sc_host cfg) (sc_port cfg) (packet (message_format cfg) metric metric_type value send_tags)
  end.

Definition gauge (c : StatsClient) (metric : string) (value : Z + Float) (tags : option Tags) : M W unit :=
  send c metric gauge_type value tags.
Definition increase (c : StatsClient) (metric : string) (inc_value : Z) (tags : option Tags) : M W unit :=
  send c metric counter_type (inl inc_value) tags.
Definition timing (c : StatsClient) (metric : string) (value : Z + Float) (tags : option Tags) : M W unit :=
  send c metric timer_type value tags.

(** [class_name] is [ex.__class__.__name__]. *)
Definition unexpected_exception (c : StatsClient) (class_name where_ : string) (tags : option Tags) : M W unit :=
  increase c "exception" 1
    (Some (update [("exception", Some (inr class_name)); ("where", Some (inr where_))] (default [] tags))).

(** [with timing_manager(metric, tags): body]; also [async_timing_manager],
    whose body may suspend. *)
Definition timing_manager {A} (c : StatsClient) (metric : string) (tags : option Tags) (body : M W A) : M W A :=
  start_time ← monotonic;
  let report (success : string) :=
    end_time ← monotonic;
    timing c metric (inr (float_sub end_time start_time)) (Some (dict_set "success" (Some (inr success)) (default [] tags))) in
  λ w, match body w with
       | (w1, Raise e) => (report "0" ;; raise e) w1
       | (w1, Ok a) => (report "1" ;; mret a) w1
       end.

(** Timing a block leaves its outcome alone and sends one packet after it,
    which says whether it succeeded; the tags of the caller stay. *)
Theorem timing_manager_reports {A} (c : StatsClient) (metric : string) (tags : option Tags) (body : M W A) (w : W) :
  (∀ w, ∃ w' t, monotonic w = (w', Ok t)) → (∀ host port s w, snd (sendto host port s w) = Ok tt) →
  ∃ w0 start_time end_time w1 r w2, monotonic w = (w0, Ok start_time) ∧ body w0 = (w1, r) ∧
    monotonic w1 = (w2, Ok end_time) ∧
    let success := match r with Ok _ => "1" | Raise _ => "0" end in
    timing_manager c metric tags body w =
      (fst (timing c metric (inr (float_sub end_time start_time))
              (Some (dict_set "success" (Some (inr success)) (default [] tags))) w2), r).
Proof.
  intros Hm Hs. destruct (Hm w) as (w0 & start & E0). destruct (body w0) as [w1 r] eqn:E1. destruct (Hm w1) as (w2 & end_ & E2).
  exists w0, start, end_, w1, r, w2. do 3 (split; [done|]). unfold timing_manager. rewrite (bind_ok _ _ _ _ _ E0). rewrite E1.
  assert (∀ v tags, snd (timing c metric v tags w2) = Ok tt) as Ht.
  { intros v tg. unfold timing, send. destruct (config c); [apply Hs|done]. }
  destruct r as [a|e].
  - set (tg := Some _). specialize (Ht (inr (float_sub end_ start)) tg).
    destruct (timing c metric (inr (float_sub end_ start)) tg w2) as [w3 r] eqn:E3. simpl in Ht. subst r.
    rewrite (bind_ok _ _ _ w3 tt); [done|]. by rewrite (bind_ok _ _ _ _ _ E2).
  - set (tg := Some _). specialize (Ht (inr (float_sub end_ start)) tg).
    destruct (timing c metric (inr (float_sub end_ start)) tg w2) as [w3 r] eqn:E3. simpl in Ht. subst r.
    rewrite (bind_ok _ _ _ w3 tt); [done|]. by rewrite (bind_ok _ _ _ _ _ E2).
Qed.
End statsd.

(** *** Concrete packets *)
Definition example_tags : Tags := [("service", Some (inr "payroll")); ("shard", Some (inl 3)); ("debug", None)].
Definition example_str (x : Z) : string := pretty x +:+ ".5".

Example telegraf_example :
  packet example_str telegraf "user.logins" counter_type (inl 1) example_tags =
  "user.logins,debug=None,shard=3,service=payroll:1|c".
Proof. vm_compute. reflexivity. Qed.
Example datadog_example :
  packet example_str datadog "step" timer_type (inr 2) example_tags = "step:2.5|ms|#service:payroll,shard:3,debug".
Proof. vm_compute. reflexivity. Qed.

Lemma packet_reads_back_witness :
  read_telegraf (packet example_str telegraf "step" timer_type (inr 2) example_tags) =
    Some ("step", reverse ((λ kv, (kv.1, tag_str kv.2)) <$> example_tags), number_str example_str (inr 2), type_text timer_type) ∧
  read_datadog (packet example_str datadog "step" timer_type (inr 2) example_tags) =
    Some ("step", datadog_read <$> example_tags, number_str example_str (inr 2), type_text timer_type).
Proof. apply (packet_reads_back example_str); reflexivity. Defined.

Lemma timing_manager_reports_witness :
  ∃ w0 start_time end_time w1 r w2, get (W := Z) 3 = (w0, Ok start_time) ∧ raise (A := unit) KeyError w0 = (w1, r) ∧
    get w1 = (w2, Ok end_time) ∧
    let success := match r with Ok _ => "1" | Raise _ => "0" end in
    timing_manager example_str Z.sub (λ _ _ _, modify (Z.add 1)) get (mkStatsClient (Some default_statsd)) "step" None (raise KeyError) 3 =
      (fst (timing example_str (λ _ _ _, modify (Z.add 1)) (mkStatsClient (Some default_statsd)) "step" (inr (Z.sub end_time start_time))
              (Some (dict_set "success" (Some (inr success)) (default [] None))) w2), r).
Proof.
  apply (timing_manager_reports example_str Z.sub (λ _ _ _, modify (Z.add 1)) get (mkStatsClient (Some default_statsd)) "step" None (raise KeyError) 3).
  - intros w. by exists w, w.
  - done.
Defined.
End Statsd.
