(* ===== verification/SubResult.v ===== *)
(** * Reports of nodes ([AsyncSleeper] of [common/utils.py],
      [get_subresult_url] and [CoordinatorOp] of [coordinator/coordinator.py],
      [op_sub_result] of [coordinator/api.py])

    The coordinator polls its nodes with growing delays; a node that ends an
    operation reports so to the URL it was given, which wakes the coordinator.
    The sleeper is a state machine whose steps are those of the event loop. *)

From stdpp Require Import base gmap strings list pretty.
From Stdlib Require Import ZArith Lia Ascii.
From S2P Require Import Prelude Op.

Module SubResult.
Import Op.

(** ** URLs *)
Record URL : Type := mkURL { scheme : string; netloc : string; path : string; query : string; fragment : string }.

(** [get_subresult_url], as the arguments of [urlunsplit] *)
Definition get_subresult_url (request_url : URL) (op_id : Z) : URL :=
  mkURL (scheme request_url) (netloc request_url) (path request_url +:+ "/" +:+ pretty op_id +:+ "/sub-result") "" "".
(** The same for [status_url] of [start_op] *)
Definition status_url (request_url : URL) (op_id : Z) : URL :=
  mkURL (scheme request_url) (netloc request_url) (path request_url +:+ "/" +:+ pretty op_id) "" "".

(** ** [AsyncSleeper], with the loop that uses it *)

(** A round of polls; sleeping, with a task for the timer and one that waits
    for the event; one of the two tasks has ended. *)
Inductive phase : Type := Polling | Sleeping | Woken.
#[global] Instance phase_eq_dec : EqDecision phase. Proof. solve_decision. Defined.

Record sleeper : Type := mkSleeper { sl_phase : phase; wakeup_event : bool }.
Definition new_sleeper : sleeper := mkSleeper Polling false.

Definition wakeup (s : sleeper) : sleeper := mkSleeper (sl_phase s) true.

(** The steps of the event loop: [wakeup] is called; a round ends and [sleep]
    begins; its timer fires; its other task sees the event; [sleep] goes on,
    clears the event and returns to a new round. *)
Inductive label : Type := Report | StartSleep | TimerFires | EventSeen | Resume.
#[global] Instance label_eq_dec : EqDecision label. Proof. solve_decision. Defined.

Definition step (l : label) (s : sleeper) : option sleeper :=
  match l, sl_phase s with
  | Report, _ => Some (wakeup s)
  | StartSleep, Polling => Some (mkSleeper Sleeping (wakeup_event s))
  | TimerFires, Sleeping => Some (mkSleeper Woken (wakeup_event s))
  | EventSeen, Sleeping => if wakeup_event s then Some (mkSleeper Woken true) else None
  | Resume, Woken => Some (mkSleeper Polling false)
  | _, _ => None
  end.

Fixpoint steps (ls : list label) (s : sleeper) : option sleeper :=
  match ls with [] => Some s | l :: ls' => step l s ≫= steps ls' end.

(** A report that no round has followed yet is still known of. *)
Definition pending (s : sleeper) : Prop := wakeup_event s = true ∨ sl_phase s = Woken.

Lemma step_pending l s s' : l ≠ Resume → pending s → step l s = Some s' → pending s'.
Proof. unfold pending. destruct s as [[] []], l; simpl; naive_solver. Qed.

Lemma steps_pending ls s s' : Resume ∉ ls → pending s → steps ls s = Some s' → pending s'.
Proof.
  revert s. induction ls as [|l ls IH]; intros s Hl Hp H; [by injection H as <-|]. simpl in H.
  destruct (step l s) as [s1|] eqn:E; [|done]. simpl in H. apply (IH s1); [set_solver| |done].
  eapply step_pending; [|exact Hp|exact E]. set_solver.
Qed.

Lemma steps_app ls ks s : steps (ls ++ ks) s = steps ls s ≫= steps ks.
Proof. revert s. induction ls as [|l ls IH]; intros s; [done|]. simpl. destruct (step l s); [apply IH|done]. Qed.

(** No report is lost, whenever it comes: a round of polls begins after it, or
    the next sleep ends without its timer, or the sleep has ended. *)
Theorem no_report_lost (ls ks : list label) (s : sleeper) :
  steps (ls ++ Report :: ks) new_sleeper = Some s →
  Resume ∈ ks ∨ sl_phase s = Woken ∨ (wakeup_event s = true ∧ ∃ early s',
    early ∈ [[EventSeen; Resume]; [StartSleep; EventSeen; Resume]] ∧ steps early s = Some s' ∧ sl_phase s' = Polling).
Proof.
  intros H. destruct (decide (Resume ∈ ks)) as [?|Hn]; [by left|right]. rewrite steps_app in H.
  destruct (steps ls new_sleeper) as [s0|]; [|done]. simpl in H.
  destruct (steps_pending ks (wakeup s0) s) as [Hw|Hw]; [done|by left|done| |by left].
  destruct s as [[] e]; simpl in Hw; subst e; [| |by left]; right; (split; [done|]); do 2 eexists.
  - split; [right; by left|done].
  - split; [by left|done].
Qed.

Lemma no_report_lost_witness :
  Resume ∈ [StartSleep] ∨ sl_phase (mkSleeper Sleeping true) = Woken ∨ (wakeup_event (mkSleeper Sleeping true) = true ∧ ∃ early s',
    early ∈ [[EventSeen; Resume]; [StartSleep; EventSeen; Resume]] ∧ steps early (mkSleeper Sleeping true) = Some s' ∧ sl_phase s' = Polling).
Proof. apply (no_report_lost [StartSleep; TimerFires; Resume] [StartSleep] (mkSleeper Sleeping true)). reflexivity. Defined.

(** Without reports a sleep ends only when its timer fires. *)
Lemma step_quiet l s s' : l ≠ Report → wakeup_event s = false → step l s = Some s' → wakeup_event s' = false ∧ l ≠ EventSeen.
Proof. destruct s as [[] []], l; simpl; naive_solver. Qed.

Theorem quiet_sleep_lasts (ls : list label) (s : sleeper) :
  Report ∉ ls → steps ls new_sleeper = Some s → EventSeen ∉ ls.
Proof.
  assert (∀ s0, wakeup_event s0 = false → Report ∉ ls → steps ls s0 = Some s → EventSeen ∉ ls) as H; [|by apply H].
  induction ls as [|l ls IH]; intros s0 H0 Hl H; [set_solver|]. simpl in H. destruct (step l s0) as [s1|] eqn:E; [|done].
  destruct (step_quiet l s0 s1) as [H1 Hne]; [set_solver|done..|]. apply not_elem_of_cons. split; [done|].
  apply (IH s1); [done|set_solver|done].
Qed.

Lemma quiet_sleep_lasts_witness : EventSeen ∉ [StartSleep; TimerFires; Resume].
Proof. apply (quiet_sleep_lasts [StartSleep; TimerFires; Resume] new_sleeper); [set_solver|reflexivity]. Defined.

(** ** The endpoint [op_sub_result] *)

(** The operations, and [subresult_sleeper] of each: a cached property, which
    is made when it is first used. *)
Record state : Type := mkState { s_ops : OpState; s_sleepers : gmap Z sleeper }.
Definition set_ops (o : OpState) (s : state) : state := mkState o (s_sleepers s).
Definition subresult_sleeper (self : Z) (s : state) : sleeper := default new_sleeper (s_sleepers s !! self).
Definition set_sleeper (self : Z) (x : sleeper) (s : state) : state := mkState (s_ops s) (<[self := x]> (s_sleepers s)).

(** A sleeper is an object, hence true. *)
Definition op_sub_result (name : string) (id : Z) : M state unit :=
  oi ← zoom s_ops set_ops (get_op_and_op_info id (Some name));
  match fst oi with
  | None => raise AttributeError
  | Some self => modify (λ s, set_sleeper self (wakeup (subresult_sleeper self s)) s)
  end.

(** A report wakes the operation it names and no other, when that is the
    current one; a report for an earlier operation is refused. *)
Theorem sub_result_wakes (name : string) (id : Z) (s : state) :
  name ≠ "" →
  let info := op_info (s_ops s) in
  if decide (id = op_id info ∧ name = op_name info) then
    match op (s_ops s) with
    | None => op_sub_result name id s = (s, Raise AttributeError)
    | Some self =>
        ∃ s', op_sub_result name id s = (s', Ok tt) ∧ s_ops s' = s_ops s ∧ wakeup_event (subresult_sleeper self s') = true ∧
          sl_phase (subresult_sleeper self s') = sl_phase (subresult_sleeper self s) ∧
          ∀ other, other ≠ self → subresult_sleeper other s' = subresult_sleeper other s
    end
  else op_sub_result name id s = (s, Raise (HTTPException 404)).
Proof.
  intros Hn info. unfold op_sub_result.
  assert (zoom s_ops set_ops (get_op_and_op_info id (Some name)) s =
    (s, if decide (id = op_id info ∧ name = op_name info) then Ok (op (s_ops s), info) else Raise (HTTPException 404))) as H.
  { unfold zoom, get_op_and_op_info. rewrite (bind_ok get _ _ _ _ eq_refl). fold info.
    destruct (decide (id = op_id info ∧ name = op_name info)) as [[-> ->]|Hne].
    - rewrite Z.eqb_refl, bool_decide_eq_false_2 by tauto. simpl. by destruct s.
    - destruct (Z.eqb_spec id (op_id info)) as [->|]; [|by destruct s].
      rewrite bool_decide_eq_true_2 by tauto. by destruct s. }
  destruct (decide (id = op_id info ∧ name = op_name info)); [|by apply bind_raise].
  destruct (op (s_ops s)) as [self|] eqn:Eo; rewrite (bind_ok _ _ _ _ _ H); cbn [fst]; [|done].
  eexists. split; [done|]. split; [done|]. unfold subresult_sleeper. simpl. rewrite lookup_insert_eq. split; [done|]. split; [done|].
  intros other Hne. by rewrite lookup_insert_ne.
Qed.

Lemma sub_result_wakes_witness :
  op_sub_result "backup" 1 (mkState (mkOpState (mkInfo 2 "restore" (Some running)) (Some 2%Z) 3) ∅) =
    (mkState (mkOpState (mkInfo 2 "restore" (Some running)) (Some 2%Z) 3) ∅, Raise (HTTPException 404)).
Proof. exact (sub_result_wakes "backup" 1 (mkState (mkOpState (mkInfo 2 "restore" (Some running)) (Some 2%Z) 3) ∅) ltac:(done)). Defined.
End SubResult.
