(* ===== verification/CassClient.v ===== *)
(** * Connections to Cassandra ([common/cassandra/client.py], the schema hash of
      [node/cassandra.py])

    A connection is a context manager around that of the driver, which turns
    the driver's [NoHostAvailable] into a transient exception - also when a
    statement of the block raises it.  The driver is a parameter. *)

From stdpp Require Import base strings list.
From Stdlib Require Import ZArith.
From S2P Require Import Prelude Config.

Module CassClient.
Import Config.

(** [NoHostAvailable.errors]: by host, in the order of insertion; as a list;
    something else *)
Inductive host_errors (E : Type) : Type :=
| ErrorDict (errors : list (string * E))
| ErrorList (errors : list E)
| OtherErrors.
Arguments ErrorDict {E}. Arguments ErrorList {E}. Arguments OtherErrors {E}.

(** The arguments of [Cluster]; the policy allows [contact_points] only. *)
Record ClusterArgs : Type := mkClusterArgs {
  connect_timeout : Z;
  contact_points : list string;
  control_connection_timeout : Z;
  cluster_port : Z;
  ssl_ca_certs : option string;
  auth_username : string;
  auth_password : string;
}.

Section client.
Context {W Session E Row : Type}.
(** Opening a cluster and a session on it, which fails with [NoHostAvailable] or
    another exception, and closing them; [Config.get_port]. *)
Context (open_session : ClusterArgs → M W (host_errors E + Session)) (close_session : Session → W → W)
  (get_port : CassandraClientConfiguration → M W Z).

Definition cluster_args (config : CassandraClientConfiguration) (hostnames : list string) (port : Z) : ClusterArgs :=
  mkClusterArgs 15 hostnames 15 port
    (match ca_cert_path config with Some c => if decide (c = "") then None else Some c | None => None end)
    (cc_username config) (cc_password config).

(** [error_values[0]], and the exception raised from it *)
Definition no_host_available (errors : host_errors E) : exn :=
  match errors with
  | OtherErrors => NotImplementedError
  | ErrorDict d => match d.*2 with [] => IndexError | _ => NoHostAvailableException end
  | ErrorList [] => IndexError
  | ErrorList _ => NoHostAvailableException
  end.

(** [with client.connect() as cas: body]; a block that ends with [inl] raises
    [NoHostAvailable]. *)
Definition connect {A} (config : CassandraClientConfiguration) (body : Session → M W (host_errors E + A)) : M W A :=
  port ← get_port config;
  r ← open_session (cluster_args config (get_hostnames config) port);
  r ← match r with
      | inl errors => mret (inl errors)
      | inr session => try_finally (body session) (close_session session)
      end;
  match r with
  | inl errors => raise (no_host_available errors)
  | inr a => mret a
  end.

(** [run_sync], in a thread of the pool *)
Definition run_sync {A} (config : CassandraClientConfiguration) (fun_ : Session → M W (host_errors E + A)) : M W A :=
  connect config fun_.

(** [_get_schema_hash]: the first column of the first row *)
Context (execute : Session → string → M W (host_errors E + list (list string))).
Definition read_schema_hash (config : CassandraClientConfiguration) : M W string :=
  connect config (λ cas,
    r ← execute cas "SELECT schema_version FROM system.local";
    match r with
    | inl errors => mret (inl errors)
    | inr ((h :: _) :: _) => mret (inr h)
    | inr _ => raise IndexError
    end).

(** [with contextlib.suppress(TransientException)]: the hash stays empty. *)
Definition schema_hash_of_node (config : CassandraClientConfiguration) : M W string :=
  try_except (read_schema_hash config) is_transient (λ _, mret "").

(** A session that was opened is closed, whatever the block does, and the
    outcome is that of the block with [NoHostAvailable] translated. *)
Theorem connect_closes {A} (config : CassandraClientConfiguration) (body : Session → M W (host_errors E + A)) (w w1 w2 : W)
    (port : Z) (session : Session) :
  get_port config w = (w1, Ok port) →
  open_session (cluster_args config (get_hostnames config) port) w1 = (w2, Ok (inr session)) →
  connect config body w =
    (close_session session (fst (body session w2)),
     match snd (body session w2) with
     | Ok (inr a) => Ok a
     | Ok (inl errors) => Raise (no_host_available errors)
     | Raise e => Raise e
     end).
Proof.
  intros H1 H2. unfold connect. rewrite (bind_ok _ _ _ _ _ H1), (bind_ok _ _ _ _ _ H2).
  unfold try_finally. unfold mbind, M_bind. destruct (body session w2) as [w3 [[errors|a]|e]]; done.
Qed.

(** Without a host the hash of a node is empty and the operation goes on - but
    not when the driver names no host at all: then the operation fails. *)
Theorem schema_hash_without_host (config : CassandraClientConfiguration) (w w1 w2 : W) (port : Z) (errors : host_errors E) :
  get_port config w = (w1, Ok port) →
  open_session (cluster_args config (get_hostnames config) port) w1 = (w2, Ok (inl errors)) →
  schema_hash_of_node config w =
    (w2, match errors with
         | ErrorDict (_ :: _) | ErrorList (_ :: _) => Ok ""
         | ErrorDict [] | ErrorList [] => Raise IndexError
         | OtherErrors => Raise NotImplementedError
         end).
Proof.
  intros H1 H2. unfold schema_hash_of_node, try_except, read_schema_hash, connect.
  rewrite (bind_ok _ _ _ _ _ H1), (bind_ok _ _ _ _ _ H2). by destruct errors as [[|[]]|[]|].
Qed.
End client.

Definition example_config : CassandraClientConfiguration := mkCassandraClientConfiguration None None (Some 9042%Z) "u" "p" None.

Lemma connect_closes_witness :
  connect (W := list string) (E := unit) (λ _, modify (cons "open") ;; mret (inr 1)) (λ _ : nat, cons "close") (λ _, mret 9042%Z)
    example_config (λ _ w, (w, Ok (inr 5))) [] = (["close"; "open"], Ok 5).
Proof. apply (connect_closes (λ _, modify (cons "open") ;; mret (inr 1)) (λ _ : nat, cons "close") (λ _, mret 9042%Z)
  example_config (λ _ w, (w, Ok (inr 5))) [] [] ["open"] 9042%Z 1); reflexivity. Defined.

Lemma schema_hash_without_host_witness :
  schema_hash_of_node (W := unit) (Session := nat) (E := unit) (λ _, mret (inl (ErrorDict []))) (λ _ w, w) (λ _, mret 9042%Z)
    (λ _ _, mret (inr [])) example_config tt = (tt, Raise IndexError).
Proof. apply (schema_hash_without_host (λ _, mret (inl (ErrorDict []))) (λ (_ : nat) w, w) (λ _, mret 9042%Z)
  (λ _ _, mret (inr [])) example_config tt tt tt 9042%Z (ErrorDict [])); reflexivity. Defined.
End CassClient.
